(* ===== verification/_CoqProject ===== *)
-Q . S2P
Prelude.v
Py.v
Signatures.v
Registry.v
Bytes.v
Sha256.v
Jobs.v
Events.v
Config.v
Net.v
Schema.v
System.v
Mcpd.v
McpdProps.v
Worker.v
Fleet.v
FleetTools.v
Fs.v
Daemon.v
FileMethods.v
Transfer.v
FleetStatus.v
Gdb.v
Debug.v
Lines.v
Monitor.v
Live.v
SandboxText.v
Sandbox.v
Exec.v
Suites.v
Serial.v
Power.v
Archive.v
Toml.v
Validate.v
Wizard.v
Server.v
Doctor.v
Runs.v
Cmdline.v
Qmp.v
Qemu.v
QemuProps.v
Cli.v
Snapshots.v
Discovery.v
Main.v
FlatJson.v
Responder.v
Kicklayout.v
Amiga.v
DemoTarget.v
Machines.v
Steps.v
PostInstall.v
Install.v
Containment.v
InstallProps.v
Startup.v
SerialShell.v
Autostart.v
Termination.v
Preflight.v
Input.v
