(* ===== verification/Prelude.v ===== *)
(** * MCP-AmigaOS4: verification of the host server

    The repository holds a host server in Python ([host/src/amiga_fleet_mcp])
    that offers AI clients tools on a fleet of Amiga machines, and the daemon
    MCPd in C ([mcpd/src]) that runs on each machine.  A tool call goes through
    the server's registry of targets to a transport: JSON-RPC over TCP to MCPd,
    the GDB protocol to a debugger stub, or a serial line.  This library models
    the server's own logic, function by function, and of the daemon the parts that
    are logic of their own (files, connections, jobs, events, SHA-256, discovery), and
    proves what makes each part correct.
    Paths below are under [host/src/amiga_fleet_mcp] unless they say otherwise.

    ** How code is modelled

    A Python function that only computes is a Gallina function.  One that reads
    or changes the world is a term of [M W X A] (below): it takes a world and
    gives a value, a raised exception or [Spin], and the world after.  [catch]
    is [try ... except], [finally] is [try ... finally].  [Spin] stands for a
    loop that outlives its fuel and is never a result of the code: loops the
    code bounds itself are structural, and for the others a theorem says how
    much fuel is enough.  Exceptions carry their class and data, not their
    message.  What is outside the repository is an argument or a class: the
    network ([Net]), AmigaDOS ([Dos]), pyserial ([SerialDev]), clocks, hashes,
    [repr].  Laws these must keep are classes of their own ([DosLaws],
    [FileService], [Steady]), and each has an instance a concrete run uses.
    Texts are Latin-1 ([list ascii]) and numbers are [Z], with widths, wraps
    and limits written where the code has them.

    ** The parts

    - [Prelude], [Py], [Bytes], [Lines]: the monad and its proof rules
      ([wp], [respects], [raises]), Python values, exceptions ([errors.py]) and
      string methods, base64, hexadecimal and byte-order codecs.
    - [Config], [Validate]: [config.py]: the records the server runs on; how
      they are validated from a TOML document, and [load_config].
    - [Fleet], [FleetTools]: [fleet.py] and the fan-out tools of
      [tools/fleet.py].
    - [Net], [Mcpd], [McpdProps]: [transports/mcpd.py]; connecting, framing and
      [request] with its resend rule.
    - [Fs], [Daemon], [FileMethods], [Transfer]: [tools/fs.py] and [upload.py]
      against the interface [FileService]; [mcpd/src/methods/fs.c], [rpc.c] and
      [helpers.c], which implement it, and the methods of [fs.c] it does not need;
      the two sides put together.
    - The rest of the daemon that is modelled, in [mcpd/src].  [Sha256] is
      [sha256.c]; [Worker] is [frame.c] and the worker pool of [main.c], with
      the host's [request] put on the other end of the socket; [Jobs] is
      [jobs.c] and [methods/exec.c]; [Events] is [methods/events.c]; [Responder]
      is [discovery.c], with the host's discovery on the other side of the LAN;
      [FlatJson] is the JSON text its answer is written in, and a reader of it.
    - [FleetStatus], [Discovery]: the rest of [tools/fleet.py];
      [transports/discovery.py] and [tools/fleet_discover.py].
    - [Schema], [System], [Monitor]: pydantic's models as types with a
      validator; [tools/sys.py], [tools/wb.py], [tools/events.py] and the
      forwarding part of [tools/fs.py] over them; the MCU, CCSR and log tools.
    - [Gdb], [Debug]: [transports/gdb.py] and [tools/debug.py].
    - [SandboxText], [Sandbox], [Exec]: [tools/sandbox.py] and [tools/exec.py].
    - [Serial], [Power]: [transports/serial_capture.py], [tools/serial.py],
      [transports/p18.py] and [tools/power.py].
    - [Suites]: [tools/tests.py].
    - [Archive], [Runs]: [archive/store.py] and the decorator of
      [tools/_helpers.py]; [resources/archive_resources.py], which reads them.
    - [Signatures], [Registry], [Server]: the parameters of the functions in
      [tools/], the tools [server.py] registers over them, and what a call of
      one, or of a dispatcher, does.
    - [Live]: the resources of [server.py] that look at targets, and
      [proto.capabilities].
    - [Doctor], [Cli]: [doctor.py] and [--health-check]; the subcommands of
      [cli.py].
    - [Toml], [Wizard], [Main]: [setup_wizard.py]; its writer of TOML, with a
      reader, and the interview; [main] of [server.py], from the arguments to
      the server that is run.
    - [Input]: [tools/input.py].
    - [Cmdline], [Qmp], [Qemu], [QemuProps], [Snapshots]: [qemu/cmdline.py],
      [transports/qmp.py], [tools/qemu.py] and [tools/snapshots.py].  Their
      world is [host E]: the registry, the QMP clients, the rest, and a ghost,
      [told], the list of what was done to guests.
    - The installer.  [Kicklayout] is [installer/kicklayout.py]; [Machines] is
      [installer/machines.py] and [manifest.py]; [Amiga] is
      [installer/_amiga_fs.py] and the step primitives of [tools/installer.py];
      [Steps] and [PostInstall] are [installer/sequences/_steps.py]; [Install] is
      [_runner.py], [_generic.py], [_machine_config.py] and [installer_run];
      [Preflight] is [installer_preflight], [installer_stage] and
      [installer_verify].  [Containment], [InstallProps], [Startup] and
      [Termination] prove what a run guarantees, and [DemoTarget] is a machine
      whole installations are evaluated on.

    - [SerialShell], [Autostart]: the scripts that bring a machine up, in
      [scripts]: the SerialShell client, [install_mcpd_via_serialshell.py] and
      [fix_a1222_network_startup.py]; [install_mcpd_autostart.py].

    In the installer the world is [inst E]: what steps write into their shared
    [ctx], the machine [E], and a ghost, [asked], the list of the requests sent
    with their outcomes.  The theorems about an installation speak of that list.

    ** What is proved

    - Requests: a request that changes anything is sent at most once whatever
      the network does, and a failure says honestly whether it may have run;
      answers are the daemon's; transports stay consistent ([McpdProps]), and
      the same for the acknowledged GDB exchange ([Gdb]).
    - Transfers: uploads and downloads move exactly the bytes, with retries and
      resume, against [FileService], which the daemon model implements (a
      refinement, [Daemon]); the default chunk does not fit a frame ([Transfer]);
      a listing holds exactly what lies below a drawer ([FileMethods]).
    - The fleet: one transport per name, nothing survives shutdown, fan-out
      results, snapshots and relays are complete and honest ([Fleet],
      [FleetTools], [FleetStatus]); discovery reports each daemon that answered,
      under the name of its target, and ends ([Discovery]).
    - The server: every tool calls its function fully bound, the methods of the
      dispatchers are the tools of the same name, and what the archive keeps of
      a dispatched call ([Server]); validated answers have their declared types
      ([System]); what a suite reports is what was run ([Suites]); a run read
      back is the calls that were made ([Runs]).
    - The commands: the exit codes of the doctor, of the health check and of
      [qemu_run] mean what they say, and the guest [qemu_start] of the command
      line starts does not outlive it ([Doctor], [Cli]).
    - Configuration: a file that is accepted is one whose every field has its
      declared type and range ([Validate]); what the wizard writes reads back as
      what it validated, and it writes only where it may ([Toml], [Wizard]);
      [--init] followed by a start serves that very configuration, unless its
      archive cannot be made or its address has no port ([Main]).
    - The daemon: its SHA-256 is that of FIPS 180-4 however the data is cut
      ([Sha256]); a request framed by the host is read, dispatched and answered
      by the worker, and the slots of the worker pool are accounted for, the one
      that leaks named ([Worker]); ids of the job table are unique and its slots
      well-formed, a signal reaches the task of that job or none, shutdown frees
      only what no task can still use, and a wait for a job reports what the job
      did or, after its timeout, that it did not end ([Jobs]); answers to
      discovery are bounded per source, and the host's probe gets one that says
      what the daemon is ([Responder]); a wait for events ends in time with
      exactly what the first change was, and subscriptions report each once
      ([Events]).
    - Guards: no guest runs but under a SandboxVM whose probe the target
      answered, no job is killed by
      force without one, no power command reaches a board without its
      conditions, and no desktop is touched unless the target's configuration
      and the call permit it ([Sandbox], [Exec], [Power], [Input]).
    - QEMU guests: none is started beside a running one, none is stopped before
      its writes were flushed or that was tried, a stop that answers has
      stopped it, and a reset puts exactly one in its place ([QemuProps]); the
      command line opens the ports it reports and arguments are read as they
      are written ([Cmdline]); tables of snapshots are read back ([Snapshots]).
    - Records: serial captures lose and reorder nothing, every call is archived
      in one line, pruning removes no more than it must ([Serial], [Archive]).
    - Installation: whatever the machine answers, a run only touches the
      destination volume and the mount of the install ISO, and installs nothing
      before the CD is recognised; it stops at the first failing step and says
      so, it ends, a preview or unconfirmed call sends nothing; the edit of
      [S/Network-Startup] keeps the text there was, up to the cases named; a
      preflight that does not fail has established what it reports; a scan sorts
      a directory exactly; patching a Kicklayout twice is patching it once.

    - Bring-up: a SerialShell reply does not depend on how it arrives, except that
      a silent peer holds [download_text] for good ([SerialShell]); the startup
      file is edited once, after a backup, whatever the machine answers
      ([Autostart]).

    ** Bounds and fuel

    Loops over received data and polling loops take fuel.  Each has a theorem,
    or a hypothesis of one, that says when it is enough: the wait for the
    install volume gives up within 31 rounds ([Termination]); framed reads need
    one unit per chunk the network delivers ([McpdProps]); chunk loops need one
    per chunk ([Fs]); a wait for a job looks at it once per 40 ms of its limit
    and ends ([Jobs]); the daemon's socket loops move at least a byte a round
    ([Worker]).

    ** Not modelled

    The registration with FastMCP; [argparse], and what is only printed; the prompts (texts);
    [wb_screenshot], which decodes a picture; environment variables.  Of the
    daemon: start-up, the listener, the crash hook, streamed job output and job
    times, and the methods that only call AmigaOS and print what it says
    ([sys], [wb], [input], [debug]).  The other scripts, which drive machines and print
    reports, and the tests.  Calls that
    overlap on one transport wait for its lock and are modelled one at a time.
    Message texts, pydantic's coercions and code points above U+00FF (but for
    typed text in [Input]) are left out. *)
From Stdlib Require Export ZArith Lia.
From Stdlib Require Ascii String.
From stdpp Require Export base tactics numbers list strings gmap pretty sorting.

#[global] Open Scope Z_scope.

(* ------------------------------------------------------------------ *)
(** ** Results and the state-and-exception monad *)

(** The outcome of a Python call: a value, a raised exception, or (only for
    loops the code leaves unbounded) more iterations than the fuel allows. *)
Inductive res (X A : Type) : Type :=
| Ret (a : A)
| Raise (x : X)
| Spin.
Arguments Ret {X A} a.
Arguments Raise {X A} x.
Arguments Spin {X A}.

(** A call that reads and changes the world [W] and may raise [X]. *)
Definition M (W X A : Type) : Type := W → res X A * W.

#[export] Instance M_ret {W X} : MRet (M W X) := λ A a w, (Ret a, w).
#[export] Instance M_bind {W X} : MBind (M W X) := λ A B k m w,
  match m w with
  | (Ret a, w') => k a w'
  | (Raise x, w') => (Raise x, w')
  | (Spin, w') => (Spin, w')
  end.
#[export] Instance M_map {W X} : FMap (M W X) := λ A B f m w,
  match m w with
  | (Ret a, w') => (Ret (f a), w')
  | (Raise x, w') => (Raise x, w')
  | (Spin, w') => (Spin, w')
  end.

Section monad.
Context {W X : Type}.

Definition raise {A} (x : X) : M W X A := λ w, (Raise x, w).
Definition spin {A} : M W X A := λ w, (Spin, w).
Definition get : M W X W := λ w, (Ret w, w).
Definition modify (f : W → W) : M W X unit := λ w, (Ret tt, f w).
Definition gets {A} (f : W → A) : M W X A := λ w, (Ret (f w), w).
Definition lift {A} (r : res X A) : M W X A := λ w, (r, w).

(** [try: m except: h] -- [h] gets every exception and re-raises the ones
    its [except] clauses do not name. *)
Definition catch {A} (m : M W X A) (h : X → M W X A) : M W X A := λ w,
  match m w with
  | (Raise x, w') => h x w'
  | r => r
  end.

(** [try: m finally: f], for an [f] that does not raise. *)
Definition finally {A} (m : M W X A) (f : M W X unit) : M W X A := λ w,
  match m w with
  | (Spin, w') => (Spin, w')
  | (r, w') => match f w' with
               | (Ret _, w'') => (r, w'')
               | (Raise x, w'') => (Raise x, w'')
               | (Spin, w'') => (Spin, w'')
               end
  end.
End monad.


(* ------------------------------------------------------------------ *)
(** ** Reasoning about monadic code *)

(** Weakest precondition: [Q] holds of the outcome and the world after [m]. *)
Definition wp {W X A} (m : M W X A) (Q : res X A → W → Prop) (w : W) : Prop :=
  Q (m w).1 (m w).2.

Section wp.
Context {W X : Type}.
Implicit Types w : W.

Lemma wp_ret {A} (a : A) (Q : res X A → W → Prop) w :
  Q (Ret a) w → wp (mret a) Q w.
Proof. done. Qed.

Lemma wp_bind {A B} (m : M W X A) (k : A → M W X B) Q w :
  wp m (λ r w', match r with
                | Ret a => wp (k a) Q w'
                | Raise x => Q (Raise x) w'
                | Spin => Q Spin w'
                end) w →
  wp (m ≫= k) Q w.
Proof.
  unfold wp, mbind, M_bind. destruct (m w) as [[a|x|] w']; naive_solver.
Qed.

Lemma wp_fmap {A B} (f : A → B) (m : M W X A) Q w :
  wp m (λ r w', match r with
                | Ret a => Q (Ret (f a)) w'
                | Raise x => Q (Raise x) w'
                | Spin => Q Spin w'
                end) w →
  wp (f <$> m) Q w.
Proof.
  unfold wp, fmap, M_map. destruct (m w) as [[a|x|] w']; naive_solver.
Qed.

Lemma wp_catch {A} (m : M W X A) (h : X → M W X A) Q w :
  wp m (λ r w', match r with
                | Raise x => wp (h x) Q w'
                | _ => Q r w'
                end) w →
  wp (catch m h) Q w.
Proof.
  unfold wp, catch. destruct (m w) as [[a|x|] w']; naive_solver.
Qed.

Lemma wp_finally {A} (m : M W X A) (f : M W X unit) (Q : res X A → W → Prop) w :
  wp m (λ r w', match r with
                | Spin => Q Spin w'
                | _ => wp f (λ r' w'', match r' with
                                       | Ret _ => Q r w''
                                       | Raise x => Q (Raise x) w''
                                       | Spin => Q Spin w''
                                       end) w'
                end) w →
  wp (finally m f) Q w.
Proof.
  unfold wp, finally. destruct (m w) as [[a|x|] w1]; simpl; try done.
  all: by destruct (f w1) as [[?|?|] ?].
Qed.

Lemma wp_mono {A} (m : M W X A) (Q Q' : res X A → W → Prop) w :
  wp m Q w → (∀ r w', Q r w' → Q' r w') → wp m Q' w.
Proof. unfold wp. auto. Qed.

Lemma wp_raise {A} (x : X) (Q : res X A → W → Prop) w :
  Q (Raise x) w → wp (raise x) Q w.
Proof. done. Qed.

Lemma wp_gets {A} (f : W → A) (Q : res X A → W → Prop) w :
  Q (Ret (f w)) w → wp (gets f) Q w.
Proof. done. Qed.

Lemma wp_lift {A} (r : res X A) (Q : res X A → W → Prop) w : Q r w → wp (lift r) Q w.
Proof. done. Qed.
Lemma wp_modify (f : W → W) (Q : res X unit → W → Prop) w :
  Q (Ret tt) (f w) → wp (modify f) Q w.
Proof. done. Qed.

Lemma wp_conj {A} (m : M W X A) (Q1 Q2 : res X A → W → Prop) w :
  wp m Q1 w → wp m Q2 w → wp m (λ r w', Q1 r w' ∧ Q2 r w') w.
Proof. by split. Qed.
End wp.

(** [respects R m]: the world after [m] is [R]-related to the world before,
    whatever [m] returns or raises. For a preorder [R] this is compositional. *)
Definition respects {W X A} (R : relation W) (m : M W X A) : Prop :=
  ∀ w, R w (m w).2.

Section respects.
Context {W X : Type} (R : relation W) `{!PreOrder R}.

Lemma respects_ret {A} (a : A) : respects R (mret a : M W X A).
Proof. intros w. reflexivity. Qed.
Lemma respects_raise {A} (x : X) : respects R (raise x : M W X A).
Proof. intros w. reflexivity. Qed.
Lemma respects_spin {A} : respects R (spin : M W X A).
Proof. intros w. reflexivity. Qed.
Lemma respects_lift {A} (r : res X A) : respects R (lift r : M W X A).
Proof. intros w. reflexivity. Qed.
Lemma respects_gets {A} (f : W → A) : respects R (gets f : M W X A).
Proof. intros w. reflexivity. Qed.
Lemma respects_modify (f : W → W) :
  (∀ w, R w (f w)) → respects R (modify f : M W X unit).
Proof. intros Hf w. apply Hf. Qed.

Lemma respects_bind {A B} (m : M W X A) (k : A → M W X B) :
  respects R m → (∀ a, respects R (k a)) → respects R (m ≫= k).
Proof.
  intros Hm Hk w. specialize (Hm w). unfold mbind, M_bind.
  destruct (m w) as [[a|x|] w']; simpl in *; try done.
  etrans; [done|]. apply Hk.
Qed.

Lemma respects_catch {A} (m : M W X A) (h : X → M W X A) :
  respects R m → (∀ x, respects R (h x)) → respects R (catch m h).
Proof.
  intros Hm Hh w. specialize (Hm w). unfold catch.
  destruct (m w) as [[a|x|] w']; simpl in *; try done.
  etrans; [done|]. apply Hh.
Qed.

Lemma respects_finally {A} (m : M W X A) (f : M W X unit) :
  respects R m → respects R f → respects R (finally m f).
Proof.
  intros Hm Hf w. specialize (Hm w). unfold finally.
  destruct (m w) as [[a|x|] w1]; simpl in *; try done; specialize (Hf w1);
    destruct (f w1) as [[?|?|] w2]; simpl in *; by etrans.
Qed.
Lemma respects_fmap {A B} (f : A → B) (m : M W X A) :
  respects R m → respects R (f <$> m).
Proof.
  intros Hm w. specialize (Hm w). unfold fmap, M_map.
  by destruct (m w) as [[a|x|] w'].
Qed.
End respects.

Create HintDb respects discriminated.
#[export] Hint Resolve respects_ret respects_raise respects_spin respects_lift
  respects_gets respects_bind respects_catch respects_finally respects_fmap : respects.

(** Walks through a monadic term, leaving the leaves it cannot close. *)
Ltac respects_step :=
  lazymatch goal with
  | |- respects _ (mbind _ _) => apply (respects_bind _); [|intros ?]
  | |- respects _ (catch _ _) => apply (respects_catch _); [|intros ?]
  | |- respects _ (finally _ _) => apply (respects_finally _)
  | |- respects _ (fmap _ _) => apply (respects_fmap _)
  | |- respects _ (mret _) => apply (respects_ret _)
  | |- respects _ (raise _) => apply (respects_raise _)
  | |- respects _ spin => apply (respects_spin _)
  | |- respects _ (lift _) => apply (respects_lift _)
  | |- respects _ (gets _) => apply (respects_gets _)
  | |- respects _ (match ?x with _ => _ end) => destruct x
  | |- respects _ (if ?x then _ else _) => destruct x
  | |- respects _ (let '(_, _) := ?x in _) => destruct x
  end.
Ltac respects_tac := repeat (respects_step || (solve [eauto with respects])).


(** [raises P m]: every exception [m] can end with satisfies [P]. *)
Definition raises {W X A} (P : X → Prop) (m : M W X A) : Prop :=
  ∀ w x, (m w).1 = Raise x → P x.

Section raises.
Context {W X : Type} (P : X → Prop).

Lemma raises_ret {A} (a : A) : raises P (mret a : M W X A).
Proof. done. Qed.
Lemma raises_raise {A} (x : X) : P x → raises P (raise x : M W X A).
Proof. intros Hx w x' [= <-]. done. Qed.
Lemma raises_spin {A} : raises P (spin : M W X A).
Proof. done. Qed.
Lemma raises_gets {A} (f : W → A) : raises P (gets f : M W X A).
Proof. done. Qed.
Lemma raises_modify (f : W → W) : raises P (modify f : M W X unit).
Proof. done. Qed.
Lemma raises_bind {A B} (m : M W X A) (k : A → M W X B) :
  raises P m → (∀ a, raises P (k a)) → raises P (m ≫= k).
Proof.
  intros Hm Hk w x. unfold mbind, M_bind. specialize (Hm w).
  destruct (m w) as [[a|y|] w']; simpl in *; [apply Hk| |done].
  intros [= ->]. by apply Hm.
Qed.
Lemma raises_fmap {A B} (f : A → B) (m : M W X A) : raises P m → raises P (f <$> m).
Proof.
  intros Hm w x. unfold fmap, M_map. specialize (Hm w).
  destruct (m w) as [[a|y|] w']; simpl in *; [done| |done].
  intros [= ->]. by apply Hm.
Qed.
Lemma raises_catch {A} (m : M W X A) (h : X → M W X A) :
  (∀ x, raises P (h x)) → raises P (catch m h).
Proof.
  intros Hh w x. unfold catch. destruct (m w) as [[a|y|] w']; simpl; [done| |done].
  apply Hh.
Qed.
(** ... when the handler only has to deal with what [m] raises. *)
Lemma raises_catch_from {A} (Q : X → Prop) (m : M W X A) (h : X → M W X A) :
  raises Q m → (∀ x, Q x → raises P (h x)) → raises P (catch m h).
Proof.
  intros Hm Hh w x. unfold catch. specialize (Hm w).
  destruct (m w) as [[a|y|] w']; simpl; [done| |done].
  apply Hh. by apply Hm.
Qed.
Lemma raises_mono {A} (Q : X → Prop) (m : M W X A) :
  raises Q m → (∀ x, Q x → P x) → raises P m.
Proof. intros Hm HQ w x Hx. eauto. Qed.
End raises.

Create HintDb raises discriminated.
#[export] Hint Resolve raises_ret raises_raise raises_spin raises_gets raises_modify
  raises_bind raises_fmap : raises.

Ltac raises_step :=
  lazymatch goal with
  | |- raises _ (mbind _ _) => apply raises_bind; [|intros ?]
  | |- raises _ (fmap _ _) => apply raises_fmap
  | |- raises _ (mret _) => apply raises_ret
  | |- raises _ (raise _) => apply raises_raise
  | |- raises _ spin => apply raises_spin
  | |- raises _ (gets _) => apply raises_gets
  | |- raises _ (modify _) => apply raises_modify
  | |- raises _ (match ?x with _ => _ end) => destruct x eqn:?
  | |- raises _ (if ?x then _ else _) => destruct x eqn:?
  end.
Ltac raises_tac := repeat (raises_step || (solve [eauto with raises]) || done).

(** Facts of the compositional predicates as postconditions. *)
Lemma wp_respects {W X A} (R : relation W) (m : M W X A) w :
  respects R m → wp m (λ _ w', R w w') w.
Proof. intros Hm. apply Hm. Qed.
Lemma wp_raises {W X A} (P : X → Prop) (m : M W X A) w :
  raises P m → wp m (λ r _, match r with Raise x => P x | _ => True end) w.
Proof.
  intros Hm. specialize (Hm w). unfold wp. destruct (m w) as [[]]; simpl in *; auto.
Qed.

(** [m] comes to an end, wherever it starts. *)
Definition halts {W X A} (m : M W X A) : Prop := ∀ w, (m w).1 ≠ Spin.

Create HintDb ends discriminated.
Section ends.
Context {W X : Type}.
Lemma ends_ret {A} (a : A) : halts (mret a : M W X A).
Proof. done. Qed.
Lemma ends_raise {A} (x : X) : halts (raise x : M W X A).
Proof. done. Qed.
Lemma ends_gets {A} (f : W → A) : halts (gets f : M W X A).
Proof. done. Qed.
Lemma ends_modify (f : W → W) : halts (modify f : M W X unit).
Proof. done. Qed.
Lemma ends_lift {A} (r : res X A) : r ≠ Spin → halts (lift r : M W X A).
Proof. by intros Hr w. Qed.
Lemma ends_bind {A B} (m : M W X A) (k : A → M W X B) : halts m → (∀ a, halts (k a)) → halts (m ≫= k).
Proof.
  intros Hm Hk w. specialize (Hm w). unfold mbind, M_bind. destruct (m w) as [[a|x|] w']; [apply Hk|done|done].
Qed.
Lemma ends_catch {A} (m : M W X A) h : halts m → (∀ x, halts (h x)) → halts (catch m h).
Proof.
  intros Hm Hh w. specialize (Hm w). unfold catch. destruct (m w) as [[a|x|] w']; [done|apply Hh|done].
Qed.
Lemma ends_finally {A} (m : M W X A) (f : M W X unit) : halts m → halts f → halts (finally m f).
Proof.
  intros Hm Hf w. specialize (Hm w). unfold finally.
  destruct (m w) as [[a|x|] w1]; [..|done]; specialize (Hf w1); by destruct (f w1) as [[?|?|] ?].
Qed.
End ends.

(** Running a monadic term one step at a time. *)
Lemma bind_run {W X A B} (m : M W X A) (k : A → M W X B) w a w' :
  m w = (Ret a, w') → (m ≫= k) w = k a w'.
Proof. unfold mbind, M_bind. by intros ->. Qed.
Lemma bind_raise {W X A B} (m : M W X A) (k : A → M W X B) w x w' :
  m w = (Raise x, w') → (m ≫= k) w = (Raise x, w').
Proof. unfold mbind, M_bind. by intros ->. Qed.
Lemma catch_run {W X A} (m : M W X A) h w a w' :
  m w = (Ret a, w') → catch m h w = (Ret a, w').
Proof. unfold catch. by intros ->. Qed.
Lemma catch_raise {W X A} (m : M W X A) h w x w' :
  m w = (Raise x, w') → catch m h w = h x w'.
Proof. unfold catch. by intros ->. Qed.
Lemma bind_then {W X A B} (m : M W X A) (k : A → M W X B) w a w' r :
  m w = (Ret a, w') → k a w' = r → (m ≫= k) w = r.
Proof. unfold mbind, M_bind. by intros ->. Qed.
Lemma catch_then {W X A} (m : M W X A) h w x w' r :
  m w = (Raise x, w') → h x w' = r → catch m h w = r.
Proof. unfold catch. by intros ->. Qed.
Lemma wp_run {W X A} (m : M W X A) (Q : res X A → W → Prop) w r w' :
  m w = (r, w') → Q r w' → wp m Q w.
Proof. unfold wp. by intros ->. Qed.
Lemma wp_then {W X A B} (m : M W X A) (k : A → M W X B) (Q : res X B → W → Prop) w :
  (∀ a w', m w = (Ret a, w') → wp (k a) Q w') → (∀ x w', Q (Raise x) w') → (∀ w', Q Spin w') → wp (m ≫= k) Q w.
Proof. intros Hk Hx Hs; apply wp_bind; unfold wp at 1; destruct (m w) as [[a|x|] w1]; simpl; auto. Qed.
Lemma wp_value {W X A} (m : M W X A) (Q : res X A → W → Prop) w r : wp m Q w → (m w).1 = r → Q r (m w).2.
Proof. by intros V <-. Qed.
