(* ===== verification/Py.v ===== *)
(** * Python values the host server computes with

    Latin-1 text and bytes as [list ascii], JSON values, the exceptions the
    code raises or catches ([errors.py] and the built-in ones), and the [str]
    methods the components call.  Text is Python [str] restricted to the code
    points below 256, which is also what a [bytes] value is. *)
From S2P Require Import Prelude.

Export (notations) Stdlib.Strings.Ascii.

Abbreviation ascii := Ascii.ascii.
Abbreviation bytes := (list ascii).
Abbreviation text := (list ascii).

(** Literal text and back. *)
Definition txt (s : string) : text := String.list_ascii_of_string s.
Definition str (t : text) : string := String.string_of_list_ascii t.

Lemma str_txt s : str (txt s) = s.
Proof. apply String.string_of_list_ascii_of_string. Qed.
Lemma txt_str t : txt (str t) = t.
Proof. apply String.list_ascii_of_string_of_list_ascii. Qed.
Lemma txt_app s1 s2 : txt (s1 +:+ s2) = txt s1 ++ txt s2.
Proof. unfold txt. induction s1 as [|c s1 IH]; [done|]. simpl. by f_equal. Qed.
Lemma string_app_nil_r s : s +:+ "" = s.
Proof. induction s as [|c s IH]; [done|]. exact (f_equal (String.String c) IH). Qed.
Lemma string_app_assoc s1 s2 s3 : (s1 +:+ s2) +:+ s3 = s1 +:+ s2 +:+ s3.
Proof. induction s1 as [|c s1 IH]; [done|]. exact (f_equal (String.String c) IH). Qed.
#[export] Instance txt_inj : Inj (=) (=) txt.
Proof. intros s1 s2 H. by rewrite <-(str_txt s1), H, str_txt. Qed.
#[export] Instance str_inj : Inj (=) (=) str.
Proof. intros s1 s2 H. by rewrite <-(txt_str s1), H, txt_str. Qed.

(* ------------------------------------------------------------------ *)
(** ** Code points *)

Definition ord (c : ascii) : Z := Z.of_N (Ascii.N_of_ascii c).
Definition chr (z : Z) : ascii := Ascii.ascii_of_N (Z.to_N z).

Lemma ord_range c : 0 ≤ ord c < 256.
Proof.
  unfold ord. split; [lia|]. pose proof (Ascii.N_ascii_bounded c). lia.
Qed.
Lemma chr_ord c : chr (ord c) = c.
Proof. unfold chr, ord. by rewrite N2Z.id, Ascii.ascii_N_embedding. Qed.
Lemma ord_chr z : 0 ≤ z < 256 → ord (chr z) = z.
Proof. intros. unfold ord, chr. rewrite Ascii.N_ascii_embedding; lia. Qed.
#[export] Instance ord_inj : Inj (=) (=) ord.
Proof. intros c1 c2 H. by rewrite <-(chr_ord c1), H, chr_ord. Qed.

Definition in_range (c : ascii) (lo hi : Z) : bool := (lo <=? ord c) && (ord c <=? hi).

(** [str.isspace] on one Latin-1 character (what [strip] and [split()] remove). *)
Definition is_space (c : ascii) : bool :=
  in_range c 9 13 || in_range c 28 32 || (ord c =? 133) || (ord c =? 160).
(** [str.isdigit]: the decimal digits and the superscripts one, two, three. *)
Definition is_decimal (c : ascii) : bool := in_range c 48 57.
Definition is_digit (c : ascii) : bool :=
  is_decimal c || (ord c =? 178) || (ord c =? 179) || (ord c =? 185).
(** The characters [\w] of a [re] pattern matches. *)
Definition is_word (c : ascii) : bool :=
  is_digit c || in_range c 65 90 || in_range c 97 122 || (ord c =? 95) ||
  (ord c =? 170) || (ord c =? 181) || (ord c =? 186) || in_range c 188 190 ||
  in_range c 192 214 || in_range c 216 246 || in_range c 248 255.
(** [str.upper] / [str.lower] of one character.  The three Latin-1 letters
    whose upper case is not one Latin-1 character stay as they are. *)
Definition upper (c : ascii) : ascii :=
  if in_range c 97 122 || in_range c 224 246 || in_range c 248 254
  then chr (ord c - 32) else c.
Definition lower (c : ascii) : ascii :=
  if in_range c 65 90 || in_range c 192 214 || in_range c 216 222
  then chr (ord c + 32) else c.

(* ------------------------------------------------------------------ *)
(** ** String methods *)

(** [t.startswith(p)] *)
Fixpoint startswith (p t : text) : bool :=
  match p, t with
  | [], _ => true
  | c :: p', d :: t' => bool_decide (c = d) && startswith p' t'
  | _ :: _, [] => false
  end.
(** [t.endswith(p)] *)
(** [Path(p) / n] *)
Definition path_join (p n : string) : string := if startswith (txt "/") (txt n) then n else (p +:+ "/" +:+ n)%string.
Definition endswith (p t : text) : bool := startswith (reverse p) (reverse t).
(** [p in t] *)
Fixpoint contains (p t : text) : bool :=
  startswith p t || match t with [] => false | _ :: t' => contains p t' end.

Fixpoint dropwhile {A} (f : A → bool) (l : list A) : list A :=
  match l with
  | [] => []
  | x :: l' => if f x then dropwhile f l' else l
  end.
Definition lstrip (t : text) : text := dropwhile is_space t.
Definition rstrip_of (f : ascii → bool) (t : text) : text :=
  reverse (dropwhile f (reverse t)).
Definition rstrip (t : text) : text := rstrip_of is_space t.
Definition strip (t : text) : text := rstrip (lstrip t).

(** [t.split(c)]: at least one piece. *)
Fixpoint split_on (c : ascii) (t : text) : list text :=
  match t with
  | [] => [[]]
  | d :: t' =>
      if decide (d = c) then [] :: split_on c t'
      else match split_on c t' with
           | [] => [[d]]
           | p :: ps => (d :: p) :: ps
           end
  end.

(** [t.split()]: the maximal runs of non-space characters. *)
Fixpoint words_aux (t : text) (cur : text) : list text :=
  match t with
  | [] => if cur is [] then [] else [reverse cur]
  | c :: t' =>
      if is_space c then
        (if cur is [] then words_aux t' [] else reverse cur :: words_aux t' [])
      else words_aux t' (c :: cur)
  end.
Definition words (t : text) : list text := words_aux t [].

(** [sep.join(ps)] *)
Fixpoint join (sep : text) (ps : list text) : text :=
  match ps with
  | [] => []
  | [p] => p
  | p :: ps' => p ++ sep ++ join sep ps'
  end.

(** [t.partition(c)]: [None] when [c] does not occur. *)
Fixpoint partition (c : ascii) (t : text) : option (text * text) :=
  match t with
  | [] => None
  | d :: t' => if decide (d = c) then Some ([], t')
               else (λ '(a, b), (d :: a, b)) <$> partition c t'
  end.
(** [t.rpartition(c)] *)
Definition rpartition (c : ascii) (t : text) : option (text * text) :=
  (λ '(a, b), (reverse b, reverse a)) <$> partition c (reverse t).

(** Numerals in base [b ≤ 16]: [f"{z:d}"], [f"{z:x}"] of a non-negative [z],
    and reading them back. *)
Definition digit_char (d : Z) : ascii := if d <? 10 then chr (48 + d) else chr (87 + d).
Definition digit_val (b : Z) (c : ascii) : option Z :=
  let v := if in_range c 48 57 then ord c - 48
           else if in_range c 97 102 then ord c - 87
           else if in_range c 65 70 then ord c - 55 else 16 in
  if v <? b then Some v else None.
Fixpoint show_aux (b : Z) (fuel : nat) (z : Z) (acc : text) : text :=
  if z <? b then digit_char z :: acc
  else match fuel with
       | O => acc
       | S f => show_aux b f (z / b) (digit_char (z mod b) :: acc)
       end.
Definition show_base (b z : Z) : text := show_aux b (Z.to_nat (Z.log2 z)) z [].
Fixpoint parse_aux (b acc : Z) (t : text) : option Z :=
  match t with
  | [] => Some acc
  | c :: t' => d ← digit_val b c; parse_aux b (acc * b + d) t'
  end.
Definition parse_base (b : Z) (t : text) : option Z :=
  if t is [] then None else parse_aux b 0 t.

(** [f"{z}"] of any integer. *)
Definition show_int (z : Z) : text :=
  if z <? 0 then "-"%char :: show_base 10 (- z) else show_base 10 z.

Definition isdigit (t : text) : bool := if t is [] then false else forallb is_digit t.

(** [int(s, b)] of a string: surrounding space, an optional sign, digits.
    (Digit groups joined by [_] and the [0x] prefix are not modelled.) *)
Definition int_of_text (b : Z) (t : text) : option Z :=
  match strip t with
  | c :: t' => if decide (c = "-"%char) then Z.opp <$> parse_base b t'
               else if decide (c = "+"%char) then parse_base b t'
               else parse_base b (c :: t')
  | [] => None
  end.

Lemma digit_val_char b d : 0 ≤ d < b → b ≤ 16 → digit_val b (digit_char d) = Some d.
Proof.
  intros Hd Hb. unfold digit_char, digit_val, in_range.
  destruct (Z.ltb_spec d 10); rewrite ord_chr by lia.
  - replace ((48 <=? 48 + d) && (48 + d <=? 57)) with true by lia.
    by replace (48 + d - 48 <? b) with true; [do 2 f_equal|]; lia.
  - replace ((48 <=? 87 + d) && (87 + d <=? 57)) with false by lia.
    replace ((97 <=? 87 + d) && (87 + d <=? 102)) with true by lia.
    by replace (87 + d - 87 <? b) with true; [do 2 f_equal|]; lia.
Qed.

Lemma parse_show_aux b fuel z acc :
  1 < b ≤ 16 → 0 ≤ z < b ^ (Z.of_nat fuel + 1) →
  parse_aux b 0 (show_aux b fuel z acc) = parse_aux b z acc.
Proof.
  intros Hb. revert z acc. induction fuel as [|f IH]; intros z acc Hz; csimpl.
  all: destruct (Z.ltb_spec z b); csimpl;
    [rewrite digit_val_char by lia; csimpl; f_equal; lia|].
  - rewrite Z.pow_1_r in Hz. lia.
  - pose proof (Z.div_mod z b). pose proof (Z.mod_pos_bound z b).
    rewrite IH; csimpl.
    + rewrite digit_val_char by lia. csimpl. f_equal. lia.
    + split; [apply Z.div_pos; lia|]. apply Z.div_lt_upper_bound; [lia|].
      rewrite <-Z.pow_succ_r by lia. replace (Z.succ (Z.of_nat f + 1)) with (Z.of_nat (S f) + 1) by lia. lia.
Qed.

Lemma show_base_enough b z :
  1 < b → 0 ≤ z → z < b ^ (Z.of_nat (Z.to_nat (Z.log2 z)) + 1).
Proof.
  intros Hb Hz. rewrite Z2Nat.id by apply Z.log2_nonneg.
  destruct (decide (z = 0)) as [->|]; [apply Z.pow_pos_nonneg; simpl; lia|].
  pose proof (Z.log2_spec z ltac:(lia)) as [_ Hlt]. rewrite <-Z.add_1_r in Hlt.
  pose proof (Z.pow_le_mono_l 2 b (Z.log2 z + 1)). lia.
Qed.

Lemma show_aux_cons b fuel z acc :
  1 < b → 0 ≤ z < b ^ (Z.of_nat fuel + 1) → ∃ c t, show_aux b fuel z acc = c :: t.
Proof.
  intros Hb. revert z acc. induction fuel as [|f IH]; intros z acc Hz; csimpl.
  all: destruct (Z.ltb_spec z b); [by eauto|].
  - rewrite Z.pow_1_r in Hz. lia.
  - apply IH. split; [apply Z.div_pos; lia|]. apply Z.div_lt_upper_bound; [lia|].
    rewrite <-Z.pow_succ_r by lia. replace (Z.succ (Z.of_nat f + 1)) with (Z.of_nat (S f) + 1) by lia. lia.
Qed.

(** Reading a printed numeral gives the number back. *)
Lemma parse_show b z : 1 < b ≤ 16 → 0 ≤ z → parse_base b (show_base b z) = Some z.
Proof.
  intros Hb Hz. pose proof (show_base_enough b z ltac:(lia) Hz) as Hlt.
  unfold parse_base, show_base.
  destruct (show_aux_cons b (Z.to_nat (Z.log2 z)) z []) as (c & t & Hc); [lia..|].
  rewrite Hc, <-Hc. by rewrite parse_show_aux by lia.
Qed.

Lemma show_aux_digits b fuel z acc :
  1 < b ≤ 16 → 0 ≤ z →
  Forall (λ c, ∃ d, 0 ≤ d < b ∧ c = digit_char d) acc →
  Forall (λ c, ∃ d, 0 ≤ d < b ∧ c = digit_char d) (show_aux b fuel z acc).
Proof.
  intros Hb. revert z acc. induction fuel as [|f IH]; intros z acc Hz Hacc; csimpl.
  all: destruct (Z.ltb_spec z b); [constructor; [by eauto with lia|done]|].
  - done.
  - apply IH; [apply Z.div_pos; lia|]. constructor; [|done].
    eexists; split; [|done]. apply Z.mod_pos_bound. lia.
Qed.
Lemma show_base_digits b z :
  1 < b ≤ 16 → 0 ≤ z → Forall (λ c, ∃ d, 0 ≤ d < b ∧ c = digit_char d) (show_base b z).
Proof. intros. by apply show_aux_digits. Qed.

Lemma dropwhile_id {A} (f : A → bool) l : Forall (λ x, f x = false) l → dropwhile f l = l.
Proof. intros [|x l' Hx]; csimpl; [done|]. by rewrite Hx. Qed.
Lemma strip_id t : Forall (λ c, is_space c = false) t → strip t = t.
Proof.
  intros Ht. unfold strip, rstrip, rstrip_of, lstrip. rewrite (dropwhile_id is_space t) by done.
  rewrite dropwhile_id; [apply reverse_involutive|by apply Forall_reverse].
Qed.

Lemma digit_char_plain d : 0 ≤ d < 16 →
  is_space (digit_char d) = false ∧ digit_char d ≠ "-"%char ∧ digit_char d ≠ "+"%char ∧
  digit_char d ≠ ":"%char.
Proof.
  intros Hd.
  assert (Forall (λ d, is_space (digit_char d) = false ∧ digit_char d ≠ "-"%char ∧
    digit_char d ≠ "+"%char ∧ digit_char d ≠ ":"%char) (seqZ 0 16)) as H.
  { apply (bool_decide_unpack _). by vm_compute. }
  rewrite Forall_forall in H. apply H, elem_of_seqZ. lia.
Qed.

(** [int(f"{z:x}", 16) == z], and the same in base ten. *)
Lemma int_of_show b z : 1 < b ≤ 16 → 0 ≤ z → int_of_text b (show_base b z) = Some z.
Proof.
  intros Hb Hz. pose proof (show_base_digits b z Hb Hz) as Hds.
  pose proof (parse_show b z Hb Hz) as Hp.
  unfold int_of_text. rewrite strip_id.
  - destruct (show_base b z) as [|c t]; [done|].
    apply Forall_cons in Hds as [(d & Hd & ->) _].
    destruct (digit_char_plain d) as (_ & ? & ? & _); [lia|].
    by rewrite !decide_False.
  - eapply Forall_impl; [exact Hds|]. intros c (d & Hd & ->). apply digit_char_plain. lia.
Qed.

Lemma int_of_show_int z : int_of_text 10 (show_int z) = Some z.
Proof.
  unfold show_int. destruct (Z.ltb_spec z 0) as [Hz|Hz]; [|by apply int_of_show].
  unfold int_of_text. rewrite strip_id.
  - simpl. rewrite parse_show by lia. simpl. f_equal. lia.
  - constructor; [done|]. eapply Forall_impl; [apply show_base_digits; lia|].
    intros c (d & Hd & ->). apply digit_char_plain. lia.
Qed.
Lemma partition_app c a b : c ∉ a → partition c (a ++ c :: b) = Some (a, b).
Proof.
  induction a as [|d a IH]; intros Hc; csimpl; [by rewrite decide_True|].
  rewrite decide_False by set_solver. rewrite IH by set_solver. done.
Qed.
Lemma partition_spec c t a b : partition c t = Some (a, b) → t = a ++ c :: b ∧ c ∉ a.
Proof.
  revert a b. induction t as [|d t IH]; intros a b; csimpl; [done|].
  case_decide; simplify_eq; [intros [= <- <-]; split; [done|set_solver]|].
  intros (p & Hp & [= ])%fmap_Some. destruct p as [a' b']. simplify_eq/=.
  destruct (IH _ _ Hp) as [-> ?]. split; [done|set_solver].
Qed.
Lemma rpartition_app c a b : c ∉ b → rpartition c (a ++ c :: b) = Some (a, b).
Proof.
  intros Hc. unfold rpartition. rewrite reverse_app, reverse_cons, <-(assoc_L (++)). simpl.
  rewrite (partition_app c (reverse b)) by (by rewrite elem_of_reverse). csimpl.
  by rewrite !reverse_involutive.
Qed.
Lemma contains_char c t : contains [c] t = bool_decide (c ∈ t).
Proof.
  induction t as [|d t IH]; csimpl; [done|].
  rewrite IH. destruct (decide (c = d)) as [->|Hne].
  - rewrite (bool_decide_eq_true_2 (d = d)), (bool_decide_eq_true_2 (d ∈ _ :: _)) by set_solver.
    done.
  - rewrite (bool_decide_eq_false_2 (c = d)) by done. csimpl.
    apply bool_decide_ext. set_solver.
Qed.

(** Splitting: text without the separator is one piece, joining undoes it. *)
Lemma split_on_nonempty c t : split_on c t ≠ [].
Proof. destruct t; simpl; [done|]. case_decide; [done|]. by destruct (split_on c t). Qed.
Lemma split_on_single c t x : split_on c t = [x] → t = x.
Proof.
  revert x. induction t as [|d t IH]; simpl; intros x; [congruence|]. case_decide.
  - intros [= <- Hs]. by apply split_on_nonempty in Hs.
  - destruct (split_on c t) as [|y ys] eqn:Hs; [by apply split_on_nonempty in Hs|].
    intros [= <- ->]. f_equal. by apply IH.
Qed.
Lemma split_on_plain c t : c ∉ t → split_on c t = [t].
Proof.
  induction t as [|d t IH]; [done|]. intros [Hd Ht]%not_elem_of_cons. simpl.
  by rewrite decide_False, IH by done.
Qed.
Lemma split_on_app c a t : split_on c (a ++ c :: t) = split_on c a ++ split_on c t.
Proof.
  induction a as [|d a IH]; simpl; [by rewrite decide_True|]. rewrite IH.
  case_decide; [done|]. pose proof (split_on_nonempty c a). by destruct (split_on c a).
Qed.
Lemma join_cons c p ps : ps ≠ [] → join [c] (p :: ps) = p ++ c :: join [c] ps.
Proof. by destruct ps. Qed.
Lemma join_split_on c t : join [c] (split_on c t) = t.
Proof.
  induction t as [|d t IH]; [done|]. simpl. case_decide as Hd.
  - subst d. rewrite join_cons by apply split_on_nonempty. by rewrite IH.
  - pose proof (split_on_nonempty c t). destruct (split_on c t) as [|x [|y l]]; [done| |].
    + simpl in *. by rewrite IH.
    + rewrite <-IH. done.
Qed.
Lemma split_on_join c ps : ps ≠ [] → Forall (λ p, c ∉ p) ps → split_on c (join [c] ps) = ps.
Proof.
  intros Hne Hps. induction Hps as [|p ps Hp Hps IH]; [done|].
  destruct ps as [|q ps]; [by apply split_on_plain|].
  rewrite join_cons, split_on_app, IH, split_on_plain by done. done.
Qed.
Lemma split_on_pieces c t : Forall (λ p, c ∉ p) (split_on c t).
Proof.
  induction t as [|d t IH]; simpl; [by repeat constructor; apply not_elem_of_nil|].
  case_decide; [constructor; [apply not_elem_of_nil|done]|].
  destruct (split_on c t) as [|x l]; [constructor; [|done]; set_solver|].
  apply Forall_cons in IH as [Hx Hl]. constructor; [|done]. set_solver.
Qed.

(* ------------------------------------------------------------------ *)
(** ** JSON values

    What [json.loads] returns and [json.dumps] takes.  Numbers are integers:
    no method the model follows sends a fraction.  An object is the list of
    its members in order; [json.loads] keeps one member per key. *)
#[local] Unset Elimination Schemes.
Inductive json : Type :=
| JNull
| JBool (b : bool)
| JNum (z : Z)
| JStr (s : string)
| JArr (l : list json)
| JObj (l : list (string * json)).
#[local] Set Elimination Schemes.

Section json_ind.
Context (P : json → Prop)
  (HNull : P JNull) (HBool : ∀ b, P (JBool b)) (HNum : ∀ z, P (JNum z))
  (HStr : ∀ s, P (JStr s)) (HArr : ∀ l, Forall P l → P (JArr l))
  (HObj : ∀ l, Forall (λ kv, P kv.2) l → P (JObj l)).
Fixpoint json_ind (j : json) : P j :=
  match j with
  | JNull => HNull
  | JBool b => HBool b
  | JNum z => HNum z
  | JStr s => HStr s
  | JArr l => HArr l ((fix go l : Forall P l := match l with
                       | [] => Forall_nil_2 _
                       | x :: l' => Forall_cons_2 _ _ _ (json_ind x) (go l')
                       end) l)
  | JObj l => HObj l ((fix go l : Forall (λ kv, P kv.2) l := match l with
                       | [] => Forall_nil_2 _
                       | kv :: l' => Forall_cons_2 _ _ _ (json_ind kv.2) (go l')
                       end) l)
  end.
End json_ind.

(** Association lists: [d.get(k)] and [k in d] of a dict kept in order. *)
Fixpoint assoc {A} (k : string) (d : list (string * A)) : option A :=
  match d with
  | [] => None
  | (k', v) :: d' => if decide (k' = k) then Some v else assoc k d'
  end.
(** [d[k] = v]: replaces in place or appends. *)
Fixpoint dict_set {A} (k : string) (v : A) (d : list (string * A)) : list (string * A) :=
  match d with
  | [] => [(k, v)]
  | (k', v') :: d' => if decide (k' = k) then (k, v) :: d' else (k', v') :: dict_set k v d'
  end.

Lemma assoc_dict_set {A} k k' (v : A) d :
  assoc k' (dict_set k v d) = if decide (k = k') then Some v else assoc k' d.
Proof.
  induction d as [|[k0 v0] d IH]; simpl; [done|].
  destruct (decide (k0 = k)) as [->|]; simpl; repeat case_decide; congruence.
Qed.

Lemma assoc_None {A} k (d : list (string * A)) : assoc k d = None ↔ k ∉ d.*1.
Proof.
  induction d as [|[k0 v0] d IH]; csimpl; [set_solver|].
  case_decide; set_solver.
Qed.
Lemma assoc_elem {A} k (v : A) d : assoc k d = Some v → (k, v) ∈ d.
Proof.
  induction d as [|[k0 v0] d IH]; csimpl; [done|].
  case_decide; simplify_eq; set_solver.
Qed.
Lemma elem_assoc {A} k (v : A) d : NoDup d.*1 → (k, v) ∈ d → assoc k d = Some v.
Proof.
  induction d as [|[k0 v0] d IH]; csimpl; [set_solver|].
  intros Hnd Hin. apply NoDup_cons in Hnd as [Hk0 Hnd].
  apply elem_of_cons in Hin as [Hin|Hin]; simplify_eq; [by case_decide|].
  case_decide; [|auto]. subst. destruct Hk0. apply list_elem_of_fmap. by exists (k, v).
Qed.
Lemma dict_set_keys {A} k (v : A) d :
  (dict_set k v d).*1 = if decide (k ∈ d.*1) then d.*1 else d.*1 ++ [k].
Proof.
  induction d as [|[k0 v0] d IH]; csimpl; [done|].
  destruct (decide (k0 = k)) as [->|]; csimpl.
  - rewrite decide_True; [done|set_solver].
  - rewrite IH. repeat case_decide; set_solver.
Qed.
Lemma dict_set_NoDup {A} k (v : A) d : NoDup d.*1 → NoDup (dict_set k v d).*1.
Proof.
  intros Hnd. rewrite dict_set_keys. case_decide; [done|].
  apply NoDup_app. split_and!; [done|set_solver|apply NoDup_singleton].
Qed.

(** [d.pop(k, None)] *)
Definition dict_del {A} (k : string) (d : list (string * A)) : list (string * A) :=
  filter (λ kv, kv.1 ≠ k) d.
Lemma assoc_dict_del {A} k k' (d : list (string * A)) :
  assoc k' (dict_del k d) = if decide (k = k') then None else assoc k' d.
Proof.
  unfold dict_del. induction d as [|[k0 v0] d IH]; [by case_decide|].
  rewrite filter_cons. simpl. destruct (decide (k0 ≠ k)) as [Hne|Hne]; simpl.
  - rewrite IH. repeat case_decide; congruence.
  - apply dec_stable in Hne. subst. rewrite IH. by repeat case_decide.
Qed.

(** [j.get(k)] on an object; [None] for an absent key or a non-object. *)
Definition jget (k : string) (j : json) : option json :=
  match j with JObj l => assoc k l | _ => None end.

(* ------------------------------------------------------------------ *)
(** ** Exceptions

    An exception carries what handlers and callers branch on: its class and,
    for the classes of [errors.py], its [data].  The human-readable message
    text is not modelled. *)

(** The classes of [errors.py]. *)
Inductive rpc_class : Type :=
| JsonRpcError | ParseError | InvalidRequest | MethodNotFound | InvalidParams
| InternalError | TargetError | Cancelled | NotCapable | AuthRequired | Busy.
#[export] Instance rpc_class_eq_dec : EqDecision rpc_class.
Proof. solve_decision. Defined.

(** The built-in [OSError] and its subclasses the code names. *)
Inductive os_class : Type :=
| OSError | TimeoutError | ConnectionResetError | BrokenPipeError
| ConnectionRefusedError | FileNotFoundError.
#[export] Instance os_class_eq_dec : EqDecision os_class.
Proof. solve_decision. Defined.

(** Other built-in exceptions. *)
Inductive py_class : Type :=
| ValueError | TypeError | KeyError | IndexError | AttributeError | AssertionError
| RuntimeError | TimeoutExpired | ValidationError | ZeroDivisionError | EOFError.
#[export] Instance py_class_eq_dec : EqDecision py_class.
Proof. solve_decision. Defined.

Inductive exn : Type :=
| ERpc (c : rpc_class) (data : option json)
| EOS (c : os_class) (text : string)
| EPy (c : py_class)
| EIncompleteRead                      (** [asyncio.IncompleteReadError], an [EOFError] *)
| ECancelled.                          (** [asyncio.CancelledError], not an [Exception] *)

(** [except OSError] catches every [OSError] subclass, [TimeoutError] included. *)
Definition is_oserror (e : exn) : bool := if e is EOS _ _ then true else false.
Definition is_timeout (e : exn) : bool := if e is EOS TimeoutError _ then true else false.
(** [except Exception] *)
Definition is_exception (e : exn) : bool := if e is ECancelled then false else true.
(** [except JsonRpcError] *)
Definition is_rpc (e : exn) : bool := if e is ERpc _ _ then true else false.
(** [except TargetError] *)
Definition is_target_error (e : exn) : bool := if e is ERpc TargetError _ then true else false.

(** [code] of each class: [errors.py]. *)
Definition rpc_code (c : rpc_class) : Z :=
  match c with
  | JsonRpcError => -32603
  | ParseError => -32700
  | InvalidRequest => -32600
  | MethodNotFound => -32601
  | InvalidParams => -32602
  | InternalError => -32603
  | TargetError => -32001
  | Cancelled => -32002
  | NotCapable => -32003
  | AuthRequired => -32004
  | Busy => -32005
  end.

(** [JsonRpcError.to_dict], without the message. *)
Definition to_dict (c : rpc_class) (data : option json) : list (string * json) :=
  ("code", JNum (rpc_code c)) :: match data with
                                 | Some d => [("data", d)]
                                 | None => []
                                 end.

(** [int(j)] of a JSON value. *)
Definition py_int (j : json) : res exn Z :=
  match j with
  | JNum z => Ret z
  | JBool b => Ret (Z.b2z b)
  | JStr s => match int_of_text 10 (txt s) with Some z => Ret z | None => Raise (EPy ValueError) end
  | _ => Raise (EPy TypeError)
  end.
Lemma py_int_ends j : py_int j ≠ Spin.
Proof. destruct j; try done. simpl. by destruct (int_of_text _ _). Qed.
(** What [for e in j] goes through. *)
Definition py_iter (j : json) : res exn (list json) :=
  match j with
  | JArr l => Ret l
  | JObj l => Ret (map (λ kv, JStr kv.1) l)
  | JStr s => Ret (map (λ c, JStr (str [c])) (txt s))
  | _ => Raise (EPy TypeError)
  end.
Lemma py_iter_ends j : py_iter j ≠ Spin.
Proof. by destruct j. Qed.
(** [raw[k]] *)
Definition item (k : string) (raw : json) : res exn json :=
  match raw with
  | JObj l => match assoc k l with Some v => Ret v | None => Raise (EPy KeyError) end
  | _ => Raise (EPy TypeError)
  end.
Lemma item_ends k raw : item k raw ≠ Spin.
Proof. destruct raw; try done. simpl. by destruct (assoc k l). Qed.
(** [s.encode("ascii")] *)
Definition encode_ascii (s : text) : res exn text :=
  if forallb (λ c, ord c <? 128) s then Ret s else Raise (EPy ValueError).

(** Python truth of a JSON value. *)
Definition json_truth (j : json) : bool :=
  match j with
  | JNull => false
  | JBool b => b
  | JNum z => negb (z =? 0)
  | JStr s => negb (bool_decide (s = ""%string))
  | JArr l => negb (bool_decide (length l = 0%nat))
  | JObj l => negb (bool_decide (length l = 0%nat))
  end.
(** [j == z] for an integer [z]; [True == 1] in Python. *)
Definition eq_int (j : json) (z : Z) : bool :=
  match j with JNum n => n =? z | JBool b => Z.b2z b =? z | _ => false end.
(** [raw.get(k, d)] *)
Definition get_or (k : string) (d raw : json) : res exn json :=
  match raw with JObj l => Ret (default d (assoc k l)) | _ => Raise (EPy AttributeError) end.
Lemma get_or_ends k d raw : get_or k d raw ≠ Spin.
Proof. by destruct raw. Qed.
(** [str(j)]; [repr] prints lists and dicts. *)
Definition py_str (repr : json → text) (j : json) : text :=
  match j with
  | JNull => txt "None"
  | JBool true => txt "True"
  | JBool false => txt "False"
  | JNum z => show_int z
  | JStr s => txt s
  | _ => repr j
  end.
