(* ===== verification/Signatures.v ===== *)
(** * Signatures of the tool functions

    The parameters of the functions in [tools/] that the server registers or
    dispatches to, after [fleet] and [target], with their defaults. *)
From S2P Require Import Prelude Py.

(** A JSON value, or a [float] that is not whole, in tenths. *)
Inductive arg := J (j : json) | Tenths (z : Z).
(** Parameters in order; [None] for one without a default. *)
Definition signature := list (string * option arg).
Definition must (x : string) : string * option arg := (x, None).
Definition may (x : string) (d : json) : string * option arg := (x, Some (J d)).
Definition may_t (x : string) (z : Z) : string * option arg := (x, Some (Tenths z)).
Definition maybe (x : string) : string * option arg := may x JNull.

#[local] Open Scope string_scope.
#[local] Open Scope Z_scope.
Definition sig_fs_list : signature :=
  [must "path"; may "recursive" (JBool false); may "max_depth" (JNum 8)].
Definition sig_fs_stat : signature :=
  [must "path"].
Definition sig_fs_read : signature :=
  [must "path"; maybe "offset"; maybe "length"].
Definition sig_fs_write : signature :=
  [must "path"; must "content_b64"; may "compression" (JStr "none"); maybe "raw_size"].
Definition sig_fs_write_chunk : signature :=
  [must "path"; must "offset"; must "content_b64"; may "compression" (JStr "none"); maybe "raw_size"; maybe "truncate";
   maybe "total_size"].
Definition sig_fs_delete : signature :=
  [must "path"; may "recursive" (JBool false)].
Definition sig_fs_makedir : signature :=
  [must "path"].
Definition sig_fs_rename : signature :=
  [must "src"; must "dst"].
Definition sig_fs_protect : signature :=
  [must "path"; must "bits"].
Definition sig_fs_copy : signature :=
  [must "src"; must "dst"].
Definition sig_fs_hash : signature :=
  [must "path"; may "algo" (JStr "sha256")].
Definition sig_fs_sync : signature :=
  [may "path" (JStr "SYS:")].
Definition sig_fs_upload : signature :=
  [must "local_path"; must "remote_path"; may "chunk_size" (JNum (24 * 1024 * 1024)); may "compression" (JStr "auto");
   may "verify" (JBool false); may "resume" (JBool false)].
Definition sig_fs_download : signature :=
  [must "remote_path"; must "local_path"; may "chunk_size" (JNum (24 * 1024 * 1024)); may "verify" (JBool false);
   may "resume" (JBool false)].
Definition sig_exec_cmd : signature :=
  [must "command"; maybe "args"; maybe "cwd"; may "timeout_s" (JNum 30); maybe "priority";
   may "return_running" (JBool false); may "sandbox" (JBool false); maybe "sandbox_extmem_mb"; maybe "sandbox_window_mb";
   maybe "sandbox_deny_libs"; maybe "sandbox_time_limit_s"].
Definition sig_exec_status : signature :=
  [must "job_id"].
Definition sig_exec_output : signature :=
  [must "job_id"; may "offset" (JNum 0); may "max_bytes" (JNum 65536)].
Definition sig_exec_kill : signature :=
  [must "job_id"; may "signal" (JStr "c"); may "wait_s" (JNum 2); may "force" (JBool false)].
Definition sig_exec_list : signature :=
  [].
Definition sig_sys_version : signature :=
  [].
Definition sig_sys_tasks : signature :=
  [].
Definition sig_sys_libraries : signature :=
  [].
Definition sig_sys_devices : signature :=
  [].
Definition sig_sys_ports : signature :=
  [].
Definition sig_sys_lastalert : signature :=
  [].
Definition sig_sys_debug_ring : signature :=
  [may "since_s" (JNum 60); may "max_lines" (JNum 500)].
Definition sig_sys_uptime : signature :=
  [].
Definition sig_sys_memory : signature :=
  [].
Definition sig_sys_volumes : signature :=
  [].
Definition sig_sys_assigns : signature :=
  [].
Definition sig_sys_hardware : signature :=
  [].
Definition sig_sys_hardware_i2c : signature :=
  [may "addr_low" (JNum 8); may "addr_high" (JNum 119)].
Definition sig_sys_hardware_perfcounters : signature :=
  [].
Definition sig_sys_executable_symbols : signature :=
  [must "path"; maybe "match"; maybe "binding"; maybe "type"; may "max" (JNum 256)].
Definition sig_sys_applications : signature :=
  [].
Definition sig_sys_alert_decode : signature :=
  [must "code"].
Definition sig_sys_cold_reboot : signature :=
  [must "confirm"; may "delay_ms" (JNum 500)].
Definition sig_sys_read_ccsr : signature :=
  [must "offset"; may "count" (JNum 1)].
Definition sig_sys_mcu_cmd : signature :=
  [must "cmd"; may "unit" (JNum 1); may "confirm" (JBool false)].
Definition sig_sys_read_pa : signature :=
  [must "pa"; may "count" (JNum 1); may "width" (JNum 4)].
Definition sig_sys_tlb_dump : signature :=
  [].
Definition sig_power_help : signature :=
  [may "force" (JBool false)].
Definition sig_power_identify : signature :=
  [may "force" (JBool false)].
Definition sig_power_identify_dates : signature :=
  [may "force" (JBool false)].
Definition sig_power_sensors : signature :=
  [may "force" (JBool false)].
Definition sig_power_toggle_stream : signature :=
  [may "watch_s" (JNum 0); may "confirm" (JBool false); may "force" (JBool false)].
Definition sig_power_on : signature :=
  [may "confirm" (JBool false)].
Definition sig_power_off : signature :=
  [may "confirm" (JBool false)].
Definition sig_power_shell : signature :=
  [must "cmd"; may "confirm" (JBool false); may "force" (JBool false)].
Definition sig_app_notify : signature :=
  [must "title"; must "text"; may "priority" (JNum 0)].
Definition sig_notify_fleet : signature :=
  [must "title"; must "text"; may "priority" (JNum 0); maybe "targets"; maybe "tags"].
Definition sig_notify_on_alert : signature :=
  [may "timeout_ms" (JNum 60000); may "title" (JStr "MCPd alert detected")].
Definition sig_wb_screens : signature :=
  [].
Definition sig_wb_windows : signature :=
  [].
Definition sig_wb_publicscreens : signature :=
  [].
Definition sig_wb_frontmost : signature :=
  [].
Definition sig_wb_screenshot : signature :=
  [may "screen_index" (JNum 0); maybe "save_path"; may "remote_path" (JStr "T:mcpd-shot.png");
   may "keep_remote" (JBool false); may "inline" (JBool true)].
Definition sig_input_state : signature :=
  [].
Definition sig_input_type : signature :=
  [must "text"; may "keymap" (JStr "system"); maybe "delay_ms"; may "confirm" (JBool false)].
Definition sig_input_key : signature :=
  [maybe "keys"; maybe "chord"; maybe "delay_ms"; may "confirm" (JBool false); may "confirm_reset" (JBool false)].
Definition sig_input_mouse_move : signature :=
  [maybe "x"; maybe "y"; maybe "dx"; maybe "dy"; may "absolute_mode" (JStr "delta"); may "steps" (JNum 1); maybe "delay_ms"].
Definition sig_input_click : signature :=
  [may "button" (JStr "left"); may "count" (JNum 1); maybe "x"; maybe "y"; maybe "delay_ms"; may "confirm" (JBool false)].
Definition sig_input_drag : signature :=
  [must "from_x"; must "from_y"; must "to_x"; must "to_y"; may "button" (JStr "left"); may "steps" (JNum 16);
   maybe "delay_ms"; may "confirm" (JBool false)].
Definition sig_input_scroll : signature :=
  [may "clicks" (JNum 1); may "direction" (JStr "down"); maybe "delay_ms"; may "style" (JStr "native")].
Definition sig_debug_read_registers : signature :=
  [].
Definition sig_debug_read_memory : signature :=
  [must "addr"; must "length"].
Definition sig_debug_stop_reason : signature :=
  [].
Definition sig_debug_detach : signature :=
  [].
Definition sig_debug_set_breakpoint : signature :=
  [must "addr"; may "kind" (JNum 4); may "hardware" (JBool false)].
Definition sig_debug_clear_breakpoint : signature :=
  [must "addr"; may "kind" (JNum 4); may "hardware" (JBool false)].
Definition sig_debug_step : signature :=
  [].
Definition sig_debug_continue : signature :=
  [may "timeout_s" (JNum 5)].
Definition sig_debug_backtrace : signature :=
  [may "max_frames" (JNum 16)].
Definition sig_debug_task_snapshot : signature :=
  [must "name"; may "max_frames" (JNum 16)].
Definition sig_debug_symbol : signature :=
  [must "address"].
Definition sig_debug_stacktrace : signature :=
  [must "name"; may "max_frames" (JNum 32)].
Definition sig_debug_write_memory : signature :=
  [must "address"; must "bytes_b64"].
Definition sig_debug_write_register : signature :=
  [must "name"; must "register"; must "value"].
Definition sig_events_wait : signature :=
  [maybe "topics"; may "timeout_ms" (JNum 5000)].
Definition sig_fleet_list_targets : signature :=
  [maybe "tags"].
Definition sig_fleet_target_status : signature :=
  [].
Definition sig_fleet_snapshot : signature :=
  [maybe "tags"].
Definition sig_fleet_run_on_all : signature :=
  [must "method"; maybe "params"; maybe "targets"; maybe "tags"].
Definition sig_fleet_barrier : signature :=
  [must "method"; maybe "params"; maybe "targets"; may "per_target_timeout_s" (JNum 30); maybe "tags"].
Definition sig_fleet_discover : signature :=
  [may "timeout_ms" (JNum 1500)].
Definition sig_fleet_relay : signature :=
  [must "src_target"; must "src_path"; must "dst_target"; must "dst_path"].
Definition sig_fleet_quorum_run : signature :=
  [must "method"; must "quorum"; maybe "params"; maybe "targets"; may "overall_timeout_s" (JNum 60); maybe "tags"].
Definition sig_qemu_start : signature :=
  [].
Definition sig_qemu_stop : signature :=
  [may "qmp_timeout_s" (JNum 10); maybe "settle_s"].
Definition sig_qemu_reset : signature :=
  [may "system_reset" (JBool false)].
Definition sig_qemu_status : signature :=
  [].
Definition sig_qemu_screenshot : signature :=
  [maybe "save_path"].
Definition sig_qemu_savevm : signature :=
  [must "name"].
Definition sig_qemu_loadvm : signature :=
  [must "name"].
Definition sig_qemu_list_snapshots : signature :=
  [].
Definition sig_qemu_delete_snapshot : signature :=
  [must "name"].
Definition sig_tests_list_suites : signature :=
  [].
Definition sig_tests_parse_output : signature :=
  [must "output_b64"].
Definition sig_tests_run_standard_dos_tests : signature :=
  [].
Definition sig_tests_run_suite : signature :=
  [must "suite"; may "skip_uploads" (JBool false); maybe "priority"].
Definition sig_installer_list_machines : signature :=
  [].
Definition sig_installer_required_files : signature :=
  [must "machine"].
Definition sig_installer_scan_sources : signature :=
  [must "sources_dir"].
Definition sig_installer_preflight : signature :=
  [must "dest_volume"; must "sources_dir"; maybe "machine"; maybe "iso"].
Definition sig_installer_mount_iso : signature :=
  [must "iso_path"; may "dos_device" (JStr "COMBI:"); may "unit" (JNum 50);
   may "expected_volume" (JStr "AmigaOS 4.1 Final Edition:"); may "timeout_s" (JNum 30); may "settle_s" (JNum 3)].
Definition sig_installer_unmount_iso : signature :=
  [may "unit" (JNum 50); may "timeout_s" (JNum 15)].
Definition sig_installer_copy_tree : signature :=
  [must "src"; must "dst"; may "all_" (JBool true); may "clone" (JBool true); may "quiet" (JBool true); must "confirm";
   may "timeout_s" (JNum 600)].
Definition sig_installer_apply_lha : signature :=
  [must "archive"; must "dest"; must "confirm"; may "timeout_s" (JNum 600)].
Definition sig_installer_read_kicklayout : signature :=
  [must "dest_volume"].
Definition sig_installer_write_kicklayout : signature :=
  [must "dest_volume"; must "content"; must "confirm"; may "backup_suffix" (JStr ".bak")].
Definition sig_installer_patch_kicklayout : signature :=
  [must "dest_volume"; maybe "add_modules"; maybe "replace_text"; must "confirm"; may "backup_suffix" (JStr ".bak")].
Definition sig_installer_install_x5000 : signature :=
  [must "dest_volume"; maybe "iso_filename"; maybe "sources_dir"; may "dry_run" (JBool true); may "confirm" (JBool false)].
Definition sig_installer_run : signature :=
  [must "dest_volume"; must "machine"; maybe "iso_filename"; maybe "sources_dir"; may "dry_run" (JBool true);
   may "confirm" (JBool false)].
Definition sig_installer_stage : signature :=
  [must "dest_volume"; must "sources_dir"; must "machine"; maybe "iso_filename"; maybe "iso_lha_path";
   may "confirm" (JBool false)].
Definition sig_installer_verify : signature :=
  [must "dest_volume"; must "machine"; maybe "extra_paths"; may "check_sha256" (JBool false)].
Definition sig_serial_start : signature :=
  [may "channel" (JStr "uboot"); may "truncate" (JBool false)].
Definition sig_serial_stop : signature :=
  [may "channel" (JStr "uboot")].
Definition sig_serial_status : signature :=
  [maybe "target"; maybe "channel"].
Definition sig_serial_read : signature :=
  [may "channel" (JStr "uboot"); may "offset" (JNum 0); may "max_bytes" (JNum 65536)].
Definition sig_serial_tail : signature :=
  [may "channel" (JStr "uboot"); may "max_bytes" (JNum 8192)].
Definition sig_serial_clear : signature :=
  [may "channel" (JStr "uboot")].
Definition sig_sandbox_probe : signature :=
  [].
Definition sig_sandbox_deploy : signature :=
  [maybe "source"; maybe "dest_path"; may "confirm" (JBool false)].
Definition sig_sandbox_run_guest : signature :=
  [must "guest"; maybe "args"; maybe "extmem_mb"; maybe "window_mb"; maybe "deny_libs"; maybe "name";
   may "timeout_s" (JNum 120)].
Definition sig_sandbox_run_driver : signature :=
  [must "driver"; maybe "test"; maybe "args"; maybe "extmem_mb"; maybe "window_mb"; maybe "deny_libs"; maybe "name";
   may "timeout_s" (JNum 120)].
Definition sig_sandbox_last_trap : signature :=
  [may "since_s" (JNum 60); may "max_lines" (JNum 500); may "retry_count" (JNum 3); may_t "retry_delay_s" 2].
Definition sig_sandbox_run_batch : signature :=
  [must "guests"; maybe "extmem_mb"; maybe "window_mb"; maybe "deny_libs"; maybe "name"; may "timeout_s" (JNum 600);
   maybe "priority"].
Definition functions : list (string * signature) :=
  [("fs_tool.fs_list", sig_fs_list); ("fs_tool.fs_stat", sig_fs_stat); ("fs_tool.fs_read", sig_fs_read);
   ("fs_tool.fs_write", sig_fs_write); ("fs_tool.fs_write_chunk", sig_fs_write_chunk); ("fs_tool.fs_delete", sig_fs_delete);
   ("fs_tool.fs_makedir", sig_fs_makedir); ("fs_tool.fs_rename", sig_fs_rename); ("fs_tool.fs_protect", sig_fs_protect);
   ("fs_tool.fs_copy", sig_fs_copy); ("fs_tool.fs_hash", sig_fs_hash); ("fs_tool.fs_sync", sig_fs_sync);
   ("fs_tool.fs_upload", sig_fs_upload); ("fs_tool.fs_download", sig_fs_download); ("exec_tool.exec_cmd", sig_exec_cmd);
   ("exec_tool.exec_status", sig_exec_status); ("exec_tool.exec_output", sig_exec_output);
   ("exec_tool.exec_kill", sig_exec_kill); ("exec_tool.exec_list", sig_exec_list); ("sys_tool.sys_version", sig_sys_version);
   ("sys_tool.sys_tasks", sig_sys_tasks); ("sys_tool.sys_libraries", sig_sys_libraries);
   ("sys_tool.sys_devices", sig_sys_devices); ("sys_tool.sys_ports", sig_sys_ports);
   ("sys_tool.sys_lastalert", sig_sys_lastalert); ("sys_tool.sys_debug_ring", sig_sys_debug_ring);
   ("sys_tool.sys_uptime", sig_sys_uptime); ("sys_tool.sys_memory", sig_sys_memory);
   ("sys_tool.sys_volumes", sig_sys_volumes); ("sys_tool.sys_assigns", sig_sys_assigns);
   ("sys_tool.sys_hardware", sig_sys_hardware); ("sys_tool.sys_hardware_i2c", sig_sys_hardware_i2c);
   ("sys_tool.sys_hardware_perfcounters", sig_sys_hardware_perfcounters);
   ("sys_tool.sys_executable_symbols", sig_sys_executable_symbols); ("sys_tool.sys_applications", sig_sys_applications);
   ("sys_tool.sys_alert_decode", sig_sys_alert_decode); ("sys_tool.sys_cold_reboot", sig_sys_cold_reboot);
   ("sys_tool.sys_read_ccsr", sig_sys_read_ccsr); ("sys_tool.sys_mcu_cmd", sig_sys_mcu_cmd);
   ("sys_tool.sys_read_pa", sig_sys_read_pa); ("sys_tool.sys_tlb_dump", sig_sys_tlb_dump);
   ("power_tool.power_help", sig_power_help); ("power_tool.power_identify", sig_power_identify);
   ("power_tool.power_identify_dates", sig_power_identify_dates); ("power_tool.power_sensors", sig_power_sensors);
   ("power_tool.power_toggle_stream", sig_power_toggle_stream); ("power_tool.power_on", sig_power_on);
   ("power_tool.power_off", sig_power_off); ("power_tool.power_shell", sig_power_shell);
   ("sys_tool.app_notify", sig_app_notify); ("sys_tool.notify_fleet", sig_notify_fleet);
   ("sys_tool.notify_on_alert", sig_notify_on_alert); ("wb_tool.wb_screens", sig_wb_screens);
   ("wb_tool.wb_windows", sig_wb_windows); ("wb_tool.wb_publicscreens", sig_wb_publicscreens);
   ("wb_tool.wb_frontmost", sig_wb_frontmost); ("wb_tool.wb_screenshot", sig_wb_screenshot);
   ("input_tool.input_state", sig_input_state); ("input_tool.input_type", sig_input_type);
   ("input_tool.input_key", sig_input_key); ("input_tool.input_mouse_move", sig_input_mouse_move);
   ("input_tool.input_click", sig_input_click); ("input_tool.input_drag", sig_input_drag);
   ("input_tool.input_scroll", sig_input_scroll); ("debug_tool.debug_read_registers", sig_debug_read_registers);
   ("debug_tool.debug_read_memory", sig_debug_read_memory); ("debug_tool.debug_stop_reason", sig_debug_stop_reason);
   ("debug_tool.debug_detach", sig_debug_detach); ("debug_tool.debug_set_breakpoint", sig_debug_set_breakpoint);
   ("debug_tool.debug_clear_breakpoint", sig_debug_clear_breakpoint); ("debug_tool.debug_step", sig_debug_step);
   ("debug_tool.debug_continue", sig_debug_continue); ("debug_tool.debug_backtrace", sig_debug_backtrace);
   ("debug_tool.debug_task_snapshot", sig_debug_task_snapshot); ("debug_tool.debug_symbol", sig_debug_symbol);
   ("debug_tool.debug_stacktrace", sig_debug_stacktrace); ("debug_tool.debug_write_memory", sig_debug_write_memory);
   ("debug_tool.debug_write_register", sig_debug_write_register); ("events_tool.events_wait", sig_events_wait);
   ("fleet_tool.fleet_list_targets", sig_fleet_list_targets); ("fleet_tool.fleet_target_status", sig_fleet_target_status);
   ("fleet_tool.fleet_snapshot", sig_fleet_snapshot); ("fleet_tool.fleet_run_on_all", sig_fleet_run_on_all);
   ("fleet_tool.fleet_barrier", sig_fleet_barrier); ("discover_tool.fleet_discover", sig_fleet_discover);
   ("fleet_tool.fleet_relay", sig_fleet_relay); ("fleet_tool.fleet_quorum_run", sig_fleet_quorum_run);
   ("qemu_tool.qemu_start", sig_qemu_start); ("qemu_tool.qemu_stop", sig_qemu_stop);
   ("qemu_tool.qemu_reset", sig_qemu_reset); ("qemu_tool.qemu_status", sig_qemu_status);
   ("qemu_tool.qemu_screenshot", sig_qemu_screenshot); ("snap_tool.qemu_savevm", sig_qemu_savevm);
   ("snap_tool.qemu_loadvm", sig_qemu_loadvm); ("snap_tool.qemu_list_snapshots", sig_qemu_list_snapshots);
   ("snap_tool.qemu_delete_snapshot", sig_qemu_delete_snapshot); ("tests_tool.tests_list_suites", sig_tests_list_suites);
   ("tests_tool.tests_parse_output", sig_tests_parse_output);
   ("tests_tool.tests_run_standard_dos_tests", sig_tests_run_standard_dos_tests);
   ("tests_tool.tests_run_suite", sig_tests_run_suite);
   ("installer_tool.installer_list_machines", sig_installer_list_machines);
   ("installer_tool.installer_required_files", sig_installer_required_files);
   ("installer_tool.installer_scan_sources", sig_installer_scan_sources);
   ("installer_tool.installer_preflight", sig_installer_preflight);
   ("installer_tool.installer_mount_iso", sig_installer_mount_iso);
   ("installer_tool.installer_unmount_iso", sig_installer_unmount_iso);
   ("installer_tool.installer_copy_tree", sig_installer_copy_tree);
   ("installer_tool.installer_apply_lha", sig_installer_apply_lha);
   ("installer_tool.installer_read_kicklayout", sig_installer_read_kicklayout);
   ("installer_tool.installer_write_kicklayout", sig_installer_write_kicklayout);
   ("installer_tool.installer_patch_kicklayout", sig_installer_patch_kicklayout);
   ("installer_tool.installer_install_x5000", sig_installer_install_x5000);
   ("installer_tool.installer_run", sig_installer_run); ("installer_tool.installer_stage", sig_installer_stage);
   ("installer_tool.installer_verify", sig_installer_verify); ("serial_tool.serial_start", sig_serial_start);
   ("serial_tool.serial_stop", sig_serial_stop); ("serial_tool.serial_status", sig_serial_status);
   ("serial_tool.serial_read", sig_serial_read); ("serial_tool.serial_tail", sig_serial_tail);
   ("serial_tool.serial_clear", sig_serial_clear); ("sandbox_tool.sandbox_probe", sig_sandbox_probe);
   ("sandbox_tool.sandbox_deploy", sig_sandbox_deploy); ("sandbox_tool.sandbox_run_guest", sig_sandbox_run_guest);
   ("sandbox_tool.sandbox_run_driver", sig_sandbox_run_driver); ("sandbox_tool.sandbox_last_trap", sig_sandbox_last_trap);
   ("sandbox_tool.sandbox_run_batch", sig_sandbox_run_batch)].
