(* ===== verification/Registry.v ===== *)
(** * The registered tools: [server.py]

    Each [@mcp.tool] of [register_tools] that forwards to one function: the names
    it is registered, titled and archived under, its own parameters, and what it
    passes on.  What a call of one does is in [Server.v]. *)
From S2P Require Import Prelude Py Signatures.

(** What a wrapper passes: its own argument, ['zlib' if x == 'zlib' else 'none'],
    a literal, [_default(x, "x", "x")], [defaults.x] when it is [None], and
    [x if x else None]. *)
Inductive expr := P (x : string) | Zlib (x : string) | Lit (j : json) | Default (x : string) | OrDefault (x : string) | OrNone (x : string).
(** The first positional argument after [fleet]: [fleet.resolve_target(target)],
    or nothing. *)
Inductive aim := Resolved | NoTarget.
(** Each argument under its own name, or a list. *)
Inductive passing_ := straight | passing (l : list (string * expr)).
Record tool := Tool {
  name : string; title : string; label : string; target_arg : string; aim_at : aim;
  params : signature;          (** after [target], when that is resolved *)
  fn : string; passes : passing_ }.

#[local] Open Scope string_scope.
#[local] Open Scope Z_scope.
Definition tool_fs_list : tool := Tool "fs_list" "fs.list" "fs.list" "target" Resolved
    [must "path"; may "recursive" (JBool false); may "max_depth" (JNum 8)]
    "fs_tool.fs_list" straight.
Definition tool_fs_stat : tool := Tool "fs_stat" "fs.stat" "fs.stat" "target" Resolved
    [must "path"]
    "fs_tool.fs_stat" straight.
Definition tool_fs_read : tool := Tool "fs_read" "fs.read" "fs.read" "target" Resolved
    [must "path"; maybe "offset"; maybe "length"]
    "fs_tool.fs_read" straight.
Definition tool_fs_write : tool := Tool "fs_write" "fs.write" "fs.write" "target" Resolved
    [must "path"; must "content_b64"; may "compression" (JStr "none"); maybe "raw_size"]
    "fs_tool.fs_write" (passing [("path", P "path"); ("content_b64", P "content_b64"); ("compression", Zlib "compression"); ("raw_size", P "raw_size")]).
Definition tool_fs_write_chunk : tool := Tool "fs_write_chunk" "fs.write_chunk" "fs.write_chunk" "target" Resolved
    [must "path"; must "offset"; must "content_b64"; may "compression" (JStr "none"); maybe "raw_size"; maybe "truncate";
     maybe "total_size"]
    "fs_tool.fs_write_chunk" (passing [("path", P "path"); ("offset", P "offset"); ("content_b64", P "content_b64"); ("compression", Zlib "compression");
       ("raw_size", P "raw_size"); ("truncate", P "truncate"); ("total_size", P "total_size")]).
Definition tool_fs_delete : tool := Tool "fs_delete" "fs.delete" "fs.delete" "target" Resolved
    [must "path"; may "recursive" (JBool false)]
    "fs_tool.fs_delete" straight.
Definition tool_fs_makedir : tool := Tool "fs_makedir" "fs.makedir" "fs.makedir" "target" Resolved
    [must "path"]
    "fs_tool.fs_makedir" straight.
Definition tool_fs_rename : tool := Tool "fs_rename" "fs.rename" "fs.rename" "target" Resolved
    [must "src"; must "dst"]
    "fs_tool.fs_rename" straight.
Definition tool_fs_protect : tool := Tool "fs_protect" "fs.protect" "fs.protect" "target" Resolved
    [must "path"; must "bits"]
    "fs_tool.fs_protect" straight.
Definition tool_fs_copy : tool := Tool "fs_copy" "fs.copy" "fs.copy" "target" Resolved
    [must "src"; must "dst"]
    "fs_tool.fs_copy" straight.
Definition tool_fs_hash : tool := Tool "fs_hash" "fs.hash" "fs.hash" "target" Resolved
    [must "path"; may "algo" (JStr "sha256")]
    "fs_tool.fs_hash" straight.
Definition tool_fs_sync : tool := Tool "fs_sync" "fs.sync" "fs.sync" "target" Resolved
    [may "path" (JStr "SYS:")]
    "fs_tool.fs_sync" straight.
Definition tool_fs_upload : tool := Tool "fs_upload" "fs.upload" "fs.upload" "target" Resolved
    [must "local_path"; must "remote_path"; may "chunk_size" (JNum (24 * 1024 * 1024)); may "compression" (JStr "auto");
     may "verify" (JBool false); may "resume" (JBool false)]
    "fs_tool.fs_upload" straight.
Definition tool_fs_download : tool := Tool "fs_download" "fs.download" "fs.download" "target" Resolved
    [must "remote_path"; must "local_path"; may "chunk_size" (JNum (24 * 1024 * 1024)); may "verify" (JBool false);
     may "resume" (JBool false)]
    "fs_tool.fs_download" straight.
Definition tool_exec_cmd : tool := Tool "exec_cmd" "exec.cmd" "exec.cmd" "target" Resolved
    [must "command"; maybe "args"; maybe "cwd"; may "timeout_s" (JNum 30); maybe "priority"; may "sandbox" (JBool false);
     maybe "sandbox_extmem_mb"; maybe "sandbox_window_mb"; maybe "sandbox_deny_libs"; maybe "sandbox_time_limit_s"]
    "exec_tool.exec_cmd" (passing [("command", P "command"); ("args", P "args"); ("cwd", P "cwd"); ("timeout_s", P "timeout_s");
       ("priority", P "priority"); ("return_running", Lit (JBool true)); ("sandbox", P "sandbox");
       ("sandbox_extmem_mb", P "sandbox_extmem_mb"); ("sandbox_window_mb", P "sandbox_window_mb");
       ("sandbox_deny_libs", P "sandbox_deny_libs"); ("sandbox_time_limit_s", P "sandbox_time_limit_s")]).
Definition tool_exec_status : tool := Tool "exec_status" "exec.status" "exec.status" "target" Resolved
    [must "job_id"]
    "exec_tool.exec_status" straight.
Definition tool_exec_output : tool := Tool "exec_output" "exec.output" "exec.output" "target" Resolved
    [must "job_id"; may "offset" (JNum 0); may "max_bytes" (JNum 65536)]
    "exec_tool.exec_output" straight.
Definition tool_exec_kill : tool := Tool "exec_kill" "exec.kill" "exec.kill" "target" Resolved
    [must "job_id"; may "signal" (JStr "c"); may "wait_s" (JNum 2); may "force" (JBool false)]
    "exec_tool.exec_kill" straight.
Definition tool_exec_list : tool := Tool "exec_list" "exec.list" "exec.list" "target" Resolved
    []
    "exec_tool.exec_list" straight.
Definition tool_sys_version : tool := Tool "sys_version" "sys.version" "sys.version" "target" Resolved
    []
    "sys_tool.sys_version" straight.
Definition tool_sys_tasks : tool := Tool "sys_tasks" "sys.tasks" "sys.tasks" "target" Resolved
    []
    "sys_tool.sys_tasks" straight.
Definition tool_sys_libraries : tool := Tool "sys_libraries" "sys.libraries" "sys.libraries" "target" Resolved
    []
    "sys_tool.sys_libraries" straight.
Definition tool_sys_devices : tool := Tool "sys_devices" "sys.devices" "sys.devices" "target" Resolved
    []
    "sys_tool.sys_devices" straight.
Definition tool_sys_ports : tool := Tool "sys_ports" "sys.ports" "sys.ports" "target" Resolved
    []
    "sys_tool.sys_ports" straight.
Definition tool_sys_lastalert : tool := Tool "sys_lastalert" "sys.lastalert" "sys.lastalert" "target" Resolved
    []
    "sys_tool.sys_lastalert" straight.
Definition tool_sys_debug_ring : tool := Tool "sys_debug_ring" "sys.debug_ring" "sys.debug_ring" "target" Resolved
    [may "since_s" (JNum 60); may "max_lines" (JNum 500)]
    "sys_tool.sys_debug_ring" straight.
Definition tool_sys_uptime : tool := Tool "sys_uptime" "sys.uptime" "sys.uptime" "target" Resolved
    []
    "sys_tool.sys_uptime" straight.
Definition tool_sys_memory : tool := Tool "sys_memory" "sys.memory" "sys.memory" "target" Resolved
    []
    "sys_tool.sys_memory" straight.
Definition tool_sys_volumes : tool := Tool "sys_volumes" "sys.volumes" "sys.volumes" "target" Resolved
    []
    "sys_tool.sys_volumes" straight.
Definition tool_sys_assigns : tool := Tool "sys_assigns" "sys.assigns" "sys.assigns" "target" Resolved
    []
    "sys_tool.sys_assigns" straight.
Definition tool_sys_hardware : tool := Tool "sys_hardware" "sys.hardware" "sys.hardware" "target" Resolved
    []
    "sys_tool.sys_hardware" straight.
Definition tool_sys_hardware_i2c : tool := Tool "sys_hardware_i2c" "sys.hardware.i2c" "sys.hardware.i2c" "target" Resolved
    [may "addr_low" (JNum 8); may "addr_high" (JNum 119)]
    "sys_tool.sys_hardware_i2c" straight.
Definition tool_sys_hardware_perfcounters : tool := Tool "sys_hardware_perfcounters" "sys.hardware.perfcounters" "sys.hardware.perfcounters" "target" Resolved
    []
    "sys_tool.sys_hardware_perfcounters" straight.
Definition tool_sys_executable_symbols : tool := Tool "sys_executable_symbols" "sys.executable.symbols" "sys.executable.symbols" "target" Resolved
    [must "path"; maybe "match"; maybe "binding"; maybe "type"; may "max" (JNum 256)]
    "sys_tool.sys_executable_symbols" straight.
Definition tool_sys_applications : tool := Tool "sys_applications" "sys.applications" "sys.applications" "target" Resolved
    []
    "sys_tool.sys_applications" straight.
Definition tool_sys_alert_decode : tool := Tool "sys_alert_decode" "sys.alert_decode" "sys.alert_decode" "target" Resolved
    [must "code"]
    "sys_tool.sys_alert_decode" straight.
Definition tool_sys_cold_reboot : tool := Tool "sys_cold_reboot" "sys.cold_reboot" "sys.cold_reboot" "target" Resolved
    [must "confirm"; may "delay_ms" (JNum 500)]
    "sys_tool.sys_cold_reboot" straight.
Definition tool_sys_read_ccsr : tool := Tool "sys_read_ccsr" "sys.read_ccsr" "sys.read_ccsr" "target" Resolved
    [must "offset"; may "count" (JNum 1)]
    "sys_tool.sys_read_ccsr" straight.
Definition tool_sys_mcu_cmd : tool := Tool "sys_mcu_cmd" "sys.mcu_cmd" "sys.mcu_cmd" "target" Resolved
    [must "cmd"; may "unit" (JNum 1); may "confirm" (JBool false)]
    "sys_tool.sys_mcu_cmd" straight.
Definition tool_sys_read_pa : tool := Tool "sys_read_pa" "sys.read_pa" "sys.read_pa" "target" Resolved
    [must "pa"; may "count" (JNum 1); may "width" (JNum 4)]
    "sys_tool.sys_read_pa" straight.
Definition tool_sys_tlb_dump : tool := Tool "sys_tlb_dump" "sys.tlb_dump" "sys.tlb_dump" "target" Resolved
    []
    "sys_tool.sys_tlb_dump" straight.
Definition tool_power_help : tool := Tool "power_help" "power.help" "power.help" "target" Resolved
    [may "force" (JBool false)]
    "power_tool.power_help" straight.
Definition tool_power_identify : tool := Tool "power_identify" "power.identify" "power.identify" "target" Resolved
    [may "force" (JBool false)]
    "power_tool.power_identify" straight.
Definition tool_power_identify_dates : tool := Tool "power_identify_dates" "power.identify_dates" "power.identify_dates" "target" Resolved
    [may "force" (JBool false)]
    "power_tool.power_identify_dates" straight.
Definition tool_power_sensors : tool := Tool "power_sensors" "power.sensors" "power.sensors" "target" Resolved
    [may "force" (JBool false)]
    "power_tool.power_sensors" straight.
Definition tool_power_toggle_stream : tool := Tool "power_toggle_stream" "power.toggle_stream" "power.toggle_stream" "target" Resolved
    [may "watch_s" (JNum 0); may "confirm" (JBool false); may "force" (JBool false)]
    "power_tool.power_toggle_stream" straight.
Definition tool_power_on : tool := Tool "power_on" "power.on" "power.on" "target" Resolved
    [may "confirm" (JBool false)]
    "power_tool.power_on" straight.
Definition tool_power_off : tool := Tool "power_off" "power.off" "power.off" "target" Resolved
    [may "confirm" (JBool false)]
    "power_tool.power_off" straight.
Definition tool_power_shell : tool := Tool "power_shell" "power.shell" "power.shell" "target" Resolved
    [must "cmd"; may "confirm" (JBool false); may "force" (JBool false)]
    "power_tool.power_shell" straight.
Definition tool_app_notify : tool := Tool "app_notify" "app.notify" "app.notify" "target" Resolved
    [must "title"; must "text"; may "priority" (JNum 0)]
    "sys_tool.app_notify" straight.
Definition tool_notify_fleet : tool := Tool "notify_fleet" "notify.fleet" "notify.fleet" "target" NoTarget
    [must "title"; must "text"; may "priority" (JNum 0); maybe "targets"; maybe "tags"]
    "sys_tool.notify_fleet" straight.
Definition tool_notify_on_alert : tool := Tool "notify_on_alert" "notify.on_alert" "notify.on_alert" "target" Resolved
    [may "timeout_ms" (JNum 60000); may "title" (JStr "MCPd alert detected")]
    "sys_tool.notify_on_alert" straight.
Definition tool_wb_screens : tool := Tool "wb_screens" "wb.screens" "wb.screens" "target" Resolved
    []
    "wb_tool.wb_screens" straight.
Definition tool_wb_windows : tool := Tool "wb_windows" "wb.windows" "wb.windows" "target" Resolved
    []
    "wb_tool.wb_windows" straight.
Definition tool_wb_publicscreens : tool := Tool "wb_publicscreens" "wb.publicscreens" "wb.publicscreens" "target" Resolved
    []
    "wb_tool.wb_publicscreens" straight.
Definition tool_wb_frontmost : tool := Tool "wb_frontmost" "wb.frontmost" "wb.frontmost" "target" Resolved
    []
    "wb_tool.wb_frontmost" straight.
Definition tool_wb_screenshot : tool := Tool "wb_screenshot" "wb.screenshot" "wb.screenshot" "target" Resolved
    [may "screen_index" (JNum 0); maybe "save_path"; may "keep_remote" (JBool false); may "inline" (JBool true)]
    "wb_tool.wb_screenshot" straight.
Definition tool_input_state : tool := Tool "input_state" "input.state" "input.state" "target" Resolved
    []
    "input_tool.input_state" straight.
Definition tool_input_type : tool := Tool "input_type" "input.type" "input.type" "target" Resolved
    [must "text"; may "keymap" (JStr "system"); maybe "delay_ms"; may "confirm" (JBool false)]
    "input_tool.input_type" straight.
Definition tool_input_key : tool := Tool "input_key" "input.key" "input.key" "target" Resolved
    [maybe "keys"; maybe "chord"; maybe "delay_ms"; may "confirm" (JBool false); may "confirm_reset" (JBool false)]
    "input_tool.input_key" straight.
Definition tool_input_mouse_move : tool := Tool "input_mouse_move" "input.mouse_move" "input.mouse_move" "target" Resolved
    [maybe "x"; maybe "y"; maybe "dx"; maybe "dy"; may "absolute_mode" (JStr "delta"); may "steps" (JNum 1); maybe "delay_ms"]
    "input_tool.input_mouse_move" straight.
Definition tool_input_click : tool := Tool "input_click" "input.click" "input.click" "target" Resolved
    [may "button" (JStr "left"); may "count" (JNum 1); maybe "x"; maybe "y"; maybe "delay_ms"; may "confirm" (JBool false)]
    "input_tool.input_click" straight.
Definition tool_input_drag : tool := Tool "input_drag" "input.drag" "input.drag" "target" Resolved
    [must "from_x"; must "from_y"; must "to_x"; must "to_y"; may "button" (JStr "left"); may "steps" (JNum 16);
     maybe "delay_ms"; may "confirm" (JBool false)]
    "input_tool.input_drag" straight.
Definition tool_input_scroll : tool := Tool "input_scroll" "input.scroll" "input.scroll" "target" Resolved
    [may "clicks" (JNum 1); may "direction" (JStr "down"); maybe "delay_ms"; may "style" (JStr "native")]
    "input_tool.input_scroll" straight.
Definition tool_debug_read_registers : tool := Tool "debug_read_registers" "debug.read_registers" "debug.read_registers" "target" Resolved
    []
    "debug_tool.debug_read_registers" straight.
Definition tool_debug_read_memory : tool := Tool "debug_read_memory" "debug.read_memory" "debug.read_memory" "target" Resolved
    [must "addr"; must "length"]
    "debug_tool.debug_read_memory" straight.
Definition tool_debug_stop_reason : tool := Tool "debug_stop_reason" "debug.stop_reason" "debug.stop_reason" "target" Resolved
    []
    "debug_tool.debug_stop_reason" straight.
Definition tool_debug_detach : tool := Tool "debug_detach" "debug.detach" "debug.detach" "target" Resolved
    []
    "debug_tool.debug_detach" straight.
Definition tool_debug_set_breakpoint : tool := Tool "debug_set_breakpoint" "debug.set_breakpoint" "debug.set_breakpoint" "target" Resolved
    [must "addr"; may "kind" (JNum 4); may "hardware" (JBool false)]
    "debug_tool.debug_set_breakpoint" straight.
Definition tool_debug_clear_breakpoint : tool := Tool "debug_clear_breakpoint" "debug.clear_breakpoint" "debug.clear_breakpoint" "target" Resolved
    [must "addr"; may "kind" (JNum 4); may "hardware" (JBool false)]
    "debug_tool.debug_clear_breakpoint" straight.
Definition tool_debug_step : tool := Tool "debug_step" "debug.step" "debug.step" "target" Resolved
    []
    "debug_tool.debug_step" straight.
Definition tool_debug_continue : tool := Tool "debug_continue" "debug.continue" "debug.continue" "target" Resolved
    [may "timeout_s" (JNum 5)]
    "debug_tool.debug_continue" straight.
Definition tool_debug_backtrace : tool := Tool "debug_backtrace" "debug.backtrace" "debug.backtrace" "target" Resolved
    [may "max_frames" (JNum 16)]
    "debug_tool.debug_backtrace" straight.
Definition tool_debug_task_snapshot : tool := Tool "debug_task_snapshot" "debug.task_snapshot" "debug.task_snapshot" "target" Resolved
    [must "name"; may "max_frames" (JNum 16)]
    "debug_tool.debug_task_snapshot" straight.
Definition tool_debug_symbol : tool := Tool "debug_symbol" "debug.symbol" "debug.symbol" "target" Resolved
    [must "address"]
    "debug_tool.debug_symbol" straight.
Definition tool_debug_stacktrace : tool := Tool "debug_stacktrace" "debug.stacktrace" "debug.stacktrace" "target" Resolved
    [must "name"; may "max_frames" (JNum 32)]
    "debug_tool.debug_stacktrace" straight.
Definition tool_debug_write_memory : tool := Tool "debug_write_memory" "debug.write_memory" "debug.write_memory" "target" Resolved
    [must "address"; must "bytes_b64"]
    "debug_tool.debug_write_memory" straight.
Definition tool_debug_write_register : tool := Tool "debug_write_register" "debug.write_register" "debug.write_register" "target" Resolved
    [must "name"; must "register"; must "value"]
    "debug_tool.debug_write_register" straight.
Definition tool_events_wait : tool := Tool "events_wait" "events.wait" "events.wait" "target" Resolved
    [maybe "topics"; may "timeout_ms" (JNum 5000)]
    "events_tool.events_wait" straight.
Definition tool_fleet_list_targets : tool := Tool "fleet_list_targets" "fleet.list_targets" "fleet.list_targets" "_unused" NoTarget
    [maybe "tags"]
    "fleet_tool.fleet_list_targets" straight.
Definition tool_fleet_target_status : tool := Tool "fleet_target_status" "fleet.target_status" "fleet.target_status" "target" Resolved
    []
    "fleet_tool.fleet_target_status" straight.
Definition tool_fleet_snapshot : tool := Tool "fleet_snapshot" "fleet.snapshot" "fleet.snapshot" "_unused" NoTarget
    [maybe "tags"]
    "fleet_tool.fleet_snapshot" straight.
Definition tool_fleet_run_on_all : tool := Tool "fleet_run_on_all" "fleet.run_on_all" "fleet.run_on_all" "_unused" NoTarget
    [must "method"; maybe "params"; maybe "targets"; maybe "tags"]
    "fleet_tool.fleet_run_on_all" straight.
Definition tool_fleet_barrier : tool := Tool "fleet_barrier" "fleet.barrier" "fleet.barrier" "_unused" NoTarget
    [must "method"; maybe "params"; maybe "targets"; may "per_target_timeout_s" (JNum 30); maybe "tags"]
    "fleet_tool.fleet_barrier" straight.
Definition tool_fleet_discover : tool := Tool "fleet_discover" "fleet.discover" "fleet.discover" "_unused" NoTarget
    [may "timeout_ms" (JNum 1500)]
    "discover_tool.fleet_discover" straight.
Definition tool_fleet_relay : tool := Tool "fleet_relay" "fleet.relay" "fleet.relay" "_unused" NoTarget
    [must "src_target"; must "src_path"; must "dst_target"; must "dst_path"]
    "fleet_tool.fleet_relay" straight.
Definition tool_fleet_quorum_run : tool := Tool "fleet_quorum_run" "fleet.quorum_run" "fleet.quorum_run" "_unused" NoTarget
    [must "method"; must "quorum"; maybe "params"; maybe "targets"; may "overall_timeout_s" (JNum 60); maybe "tags"]
    "fleet_tool.fleet_quorum_run" straight.
Definition tool_qemu_start : tool := Tool "qemu_start" "qemu.start" "qemu.start" "target" Resolved
    []
    "qemu_tool.qemu_start" straight.
Definition tool_qemu_stop : tool := Tool "qemu_stop" "qemu.stop" "qemu.stop" "target" Resolved
    [may "qmp_timeout_s" (JNum 10); maybe "settle_s"]
    "qemu_tool.qemu_stop" straight.
Definition tool_qemu_reset : tool := Tool "qemu_reset" "qemu.reset" "qemu.reset" "target" Resolved
    [may "system_reset" (JBool false)]
    "qemu_tool.qemu_reset" straight.
Definition tool_qemu_status : tool := Tool "qemu_status" "qemu.status" "qemu.status" "target" Resolved
    []
    "qemu_tool.qemu_status" straight.
Definition tool_qemu_screenshot : tool := Tool "qemu_screenshot" "qemu.screenshot" "qemu.screenshot" "target" Resolved
    [maybe "save_path"]
    "qemu_tool.qemu_screenshot" straight.
Definition tool_qemu_savevm : tool := Tool "qemu_savevm" "qemu.savevm" "qemu.savevm" "target" Resolved
    [must "name"]
    "snap_tool.qemu_savevm" straight.
Definition tool_qemu_loadvm : tool := Tool "qemu_loadvm" "qemu.loadvm" "qemu.loadvm" "target" Resolved
    [must "name"]
    "snap_tool.qemu_loadvm" straight.
Definition tool_qemu_list_snapshots : tool := Tool "qemu_list_snapshots" "qemu.list_snapshots" "qemu.list_snapshots" "target" Resolved
    []
    "snap_tool.qemu_list_snapshots" straight.
Definition tool_qemu_delete_snapshot : tool := Tool "qemu_delete_snapshot" "qemu.delete_snapshot" "qemu.delete_snapshot" "target" Resolved
    [must "name"]
    "snap_tool.qemu_delete_snapshot" straight.
Definition tool_tests_list_suites : tool := Tool "tests_list_suites" "tests.list_suites" "tests.list_suites" "_unused" NoTarget
    []
    "tests_tool.tests_list_suites" straight.
Definition tool_tests_parse_output : tool := Tool "tests_parse_output" "tests.parse_output" "tests.parse_output" "_unused" NoTarget
    [must "output_b64"]
    "tests_tool.tests_parse_output" straight.
Definition tool_tests_run_standard_dos_tests : tool := Tool "tests_run_standard_dos_tests" "tests.run_standard_dos_tests" "tests.run_standard_dos_tests" "target" Resolved
    []
    "tests_tool.tests_run_standard_dos_tests" straight.
Definition tool_tests_run_suite : tool := Tool "tests_run_suite" "tests.run_suite" "tests.run_suite" "target" Resolved
    [must "suite"; may "skip_uploads" (JBool false); maybe "priority"]
    "tests_tool.tests_run_suite" straight.
Definition tool_installer_list_machines : tool := Tool "installer_list_machines" "installer.list_machines" "installer.list_machines" "_unused_" NoTarget
    []
    "installer_tool.installer_list_machines" straight.
Definition tool_installer_required_files : tool := Tool "installer_required_files" "installer.required_files" "installer.required_files" "_unused_" NoTarget
    [maybe "machine"]
    "installer_tool.installer_required_files" (passing [("machine", Default "machine")]).
Definition tool_installer_scan_sources : tool := Tool "installer_scan_sources" "installer.scan_sources" "installer.scan_sources" "_unused_" NoTarget
    [maybe "sources_dir"]
    "installer_tool.installer_scan_sources" (passing [("sources_dir", Default "sources_dir")]).
Definition tool_installer_preflight : tool := Tool "installer_preflight" "installer.preflight" "installer.preflight" "target" Resolved
    [maybe "dest_volume"; maybe "sources_dir"; maybe "machine"; maybe "iso"]
    "installer_tool.installer_preflight" (passing [("dest_volume", Default "dest_volume"); ("sources_dir", Default "sources_dir"); ("machine", OrDefault "machine");
       ("iso", P "iso")]).
Definition tool_installer_mount_iso : tool := Tool "installer_mount_iso" "installer.mount_iso" "installer.mount_iso" "target" Resolved
    [must "iso_path"; may "dos_device" (JStr "COMBI:"); may "unit" (JNum 50);
     may "expected_volume" (JStr "AmigaOS 4.1 Final Edition:"); may "timeout_s" (JNum 30); may "settle_s" (JNum 3)]
    "installer_tool.installer_mount_iso" straight.
Definition tool_installer_unmount_iso : tool := Tool "installer_unmount_iso" "installer.unmount_iso" "installer.unmount_iso" "target" Resolved
    [may "unit" (JNum 50); may "timeout_s" (JNum 15)]
    "installer_tool.installer_unmount_iso" straight.
Definition tool_installer_copy_tree : tool := Tool "installer_copy_tree" "installer.copy_tree" "installer.copy_tree" "target" Resolved
    [must "src"; must "dst"; may "all_" (JBool true); may "clone" (JBool true); may "quiet" (JBool true);
     may "confirm" (JBool false); may "timeout_s" (JNum 600)]
    "installer_tool.installer_copy_tree" straight.
Definition tool_installer_apply_lha : tool := Tool "installer_apply_lha" "installer.apply_lha" "installer.apply_lha" "target" Resolved
    [must "archive"; must "dest"; may "confirm" (JBool false); may "timeout_s" (JNum 600)]
    "installer_tool.installer_apply_lha" straight.
Definition tool_installer_read_kicklayout : tool := Tool "installer_read_kicklayout" "installer.read_kicklayout" "installer.read_kicklayout" "target" Resolved
    [maybe "dest_volume"]
    "installer_tool.installer_read_kicklayout" (passing [("dest_volume", Default "dest_volume")]).
Definition tool_installer_write_kicklayout : tool := Tool "installer_write_kicklayout" "installer.write_kicklayout" "installer.write_kicklayout" "target" Resolved
    [maybe "dest_volume"; must "content"; may "confirm" (JBool false); may "backup_suffix" (JStr ".bak")]
    "installer_tool.installer_write_kicklayout" (passing [("dest_volume", Default "dest_volume"); ("content", P "content"); ("confirm", P "confirm");
       ("backup_suffix", P "backup_suffix")]).
Definition tool_installer_patch_kicklayout : tool := Tool "installer_patch_kicklayout" "installer.patch_kicklayout" "installer.patch_kicklayout" "target" Resolved
    [maybe "dest_volume"; maybe "add_modules"; maybe "replace_text"; may "confirm" (JBool false);
     may "backup_suffix" (JStr ".bak")]
    "installer_tool.installer_patch_kicklayout" (passing [("dest_volume", Default "dest_volume"); ("add_modules", P "add_modules"); ("replace_text", P "replace_text");
       ("confirm", P "confirm"); ("backup_suffix", P "backup_suffix")]).
Definition tool_installer_install_x5000 : tool := Tool "installer_install_x5000" "installer.install_x5000" "installer.install_x5000" "target" Resolved
    [maybe "dest_volume"; maybe "iso_filename"; maybe "sources_dir"; may "dry_run" (JBool true); may "confirm" (JBool false)]
    "installer_tool.installer_install_x5000" (passing [("dest_volume", Default "dest_volume"); ("iso_filename", OrDefault "iso_filename");
       ("sources_dir", OrDefault "sources_dir"); ("dry_run", P "dry_run"); ("confirm", P "confirm")]).
Definition tool_installer_run : tool := Tool "installer_run" "installer.run" "installer.run" "target" Resolved
    [maybe "dest_volume"; maybe "machine"; maybe "iso_filename"; maybe "sources_dir"; may "dry_run" (JBool true);
     may "confirm" (JBool false)]
    "installer_tool.installer_run" (passing [("dest_volume", Default "dest_volume"); ("machine", Default "machine"); ("iso_filename", OrDefault "iso_filename");
       ("sources_dir", OrDefault "sources_dir"); ("dry_run", P "dry_run"); ("confirm", P "confirm")]).
Definition tool_installer_stage : tool := Tool "installer_stage" "installer.stage" "installer.stage" "target" Resolved
    [maybe "dest_volume"; maybe "sources_dir"; maybe "machine"; maybe "iso_filename"; maybe "iso_lha_path";
     may "confirm" (JBool false)]
    "installer_tool.installer_stage" (passing [("dest_volume", Default "dest_volume"); ("sources_dir", Default "sources_dir"); ("machine", Default "machine");
       ("iso_filename", OrDefault "iso_filename"); ("iso_lha_path", P "iso_lha_path"); ("confirm", P "confirm")]).
Definition tool_installer_verify : tool := Tool "installer_verify" "installer.verify" "installer.verify" "target" Resolved
    [maybe "dest_volume"; maybe "machine"; maybe "extra_paths"; may "check_sha256" (JBool false)]
    "installer_tool.installer_verify" (passing [("dest_volume", Default "dest_volume"); ("machine", Default "machine"); ("extra_paths", P "extra_paths");
       ("check_sha256", P "check_sha256")]).
Definition tool_serial_start : tool := Tool "serial_start" "serial.start" "serial.start" "target" Resolved
    [may "channel" (JStr "uboot"); may "truncate" (JBool false)]
    "serial_tool.serial_start" straight.
Definition tool_serial_stop : tool := Tool "serial_stop" "serial.stop" "serial.stop" "target" Resolved
    [may "channel" (JStr "uboot")]
    "serial_tool.serial_stop" straight.
Definition tool_serial_status : tool := Tool "serial_status" "serial.status" "serial.status" "target" NoTarget
    [maybe "target"; maybe "channel"]
    "serial_tool.serial_status" (passing [("target", OrNone "target"); ("channel", P "channel")]).
Definition tool_serial_read : tool := Tool "serial_read" "serial.read" "serial.read" "target" Resolved
    [may "channel" (JStr "uboot"); may "offset" (JNum 0); may "max_bytes" (JNum 65536)]
    "serial_tool.serial_read" straight.
Definition tool_serial_tail : tool := Tool "serial_tail" "serial.tail" "serial.tail" "target" Resolved
    [may "channel" (JStr "uboot"); may "max_bytes" (JNum 8192)]
    "serial_tool.serial_tail" straight.
Definition tool_serial_clear : tool := Tool "serial_clear" "serial.clear" "serial.clear" "target" Resolved
    [may "channel" (JStr "uboot")]
    "serial_tool.serial_clear" straight.
Definition tool_sandbox_probe : tool := Tool "sandbox_probe" "sandbox.probe" "sandbox.probe" "target" Resolved
    []
    "sandbox_tool.sandbox_probe" straight.
Definition tool_sandbox_deploy : tool := Tool "sandbox_deploy" "sandbox.deploy" "sandbox.deploy" "target" Resolved
    [maybe "source"; maybe "dest_path"; may "confirm" (JBool false)]
    "sandbox_tool.sandbox_deploy" straight.
Definition tool_sandbox_run_guest : tool := Tool "sandbox_run_guest" "sandbox.run_guest" "sandbox.run_guest" "target" Resolved
    [must "guest"; maybe "args"; maybe "extmem_mb"; maybe "window_mb"; maybe "deny_libs"; maybe "name";
     may "timeout_s" (JNum 120)]
    "sandbox_tool.sandbox_run_guest" straight.
Definition tool_sandbox_run_driver : tool := Tool "sandbox_run_driver" "sandbox.run_driver" "sandbox.run_driver" "target" Resolved
    [must "driver"; maybe "test"; maybe "args"; maybe "extmem_mb"; maybe "window_mb"; maybe "deny_libs"; maybe "name";
     may "timeout_s" (JNum 120)]
    "sandbox_tool.sandbox_run_driver" straight.
Definition tool_sandbox_last_trap : tool := Tool "sandbox_last_trap" "sandbox.last_trap" "sandbox.last_trap" "target" Resolved
    [may "since_s" (JNum 60); may "max_lines" (JNum 500); may "retry_count" (JNum 3); may_t "retry_delay_s" 2]
    "sandbox_tool.sandbox_last_trap" straight.
Definition tool_sandbox_run_batch : tool := Tool "sandbox_run_batch" "sandbox.run_batch" "sandbox.run_batch" "target" Resolved
    [must "guests"; maybe "extmem_mb"; maybe "window_mb"; maybe "deny_libs"; maybe "name"; may "timeout_s" (JNum 600);
     maybe "priority"]
    "sandbox_tool.sandbox_run_batch" straight.
Definition tools : list tool :=
  [tool_fs_list; tool_fs_stat; tool_fs_read; tool_fs_write; tool_fs_write_chunk; tool_fs_delete; tool_fs_makedir;
   tool_fs_rename; tool_fs_protect; tool_fs_copy; tool_fs_hash; tool_fs_sync; tool_fs_upload; tool_fs_download;
   tool_exec_cmd; tool_exec_status; tool_exec_output; tool_exec_kill; tool_exec_list; tool_sys_version; tool_sys_tasks;
   tool_sys_libraries; tool_sys_devices; tool_sys_ports; tool_sys_lastalert; tool_sys_debug_ring; tool_sys_uptime;
   tool_sys_memory; tool_sys_volumes; tool_sys_assigns; tool_sys_hardware; tool_sys_hardware_i2c;
   tool_sys_hardware_perfcounters; tool_sys_executable_symbols; tool_sys_applications; tool_sys_alert_decode;
   tool_sys_cold_reboot; tool_sys_read_ccsr; tool_sys_mcu_cmd; tool_sys_read_pa; tool_sys_tlb_dump; tool_power_help;
   tool_power_identify; tool_power_identify_dates; tool_power_sensors; tool_power_toggle_stream; tool_power_on;
   tool_power_off; tool_power_shell; tool_app_notify; tool_notify_fleet; tool_notify_on_alert; tool_wb_screens;
   tool_wb_windows; tool_wb_publicscreens; tool_wb_frontmost; tool_wb_screenshot; tool_input_state; tool_input_type;
   tool_input_key; tool_input_mouse_move; tool_input_click; tool_input_drag; tool_input_scroll; tool_debug_read_registers;
   tool_debug_read_memory; tool_debug_stop_reason; tool_debug_detach; tool_debug_set_breakpoint; tool_debug_clear_breakpoint;
   tool_debug_step; tool_debug_continue; tool_debug_backtrace; tool_debug_task_snapshot; tool_debug_symbol;
   tool_debug_stacktrace; tool_debug_write_memory; tool_debug_write_register; tool_events_wait; tool_fleet_list_targets;
   tool_fleet_target_status; tool_fleet_snapshot; tool_fleet_run_on_all; tool_fleet_barrier; tool_fleet_discover;
   tool_fleet_relay; tool_fleet_quorum_run; tool_qemu_start; tool_qemu_stop; tool_qemu_reset; tool_qemu_status;
   tool_qemu_screenshot; tool_qemu_savevm; tool_qemu_loadvm; tool_qemu_list_snapshots; tool_qemu_delete_snapshot;
   tool_tests_list_suites; tool_tests_parse_output; tool_tests_run_standard_dos_tests; tool_tests_run_suite;
   tool_installer_list_machines; tool_installer_required_files; tool_installer_scan_sources; tool_installer_preflight;
   tool_installer_mount_iso; tool_installer_unmount_iso; tool_installer_copy_tree; tool_installer_apply_lha;
   tool_installer_read_kicklayout; tool_installer_write_kicklayout; tool_installer_patch_kicklayout;
   tool_installer_install_x5000; tool_installer_run; tool_installer_stage; tool_installer_verify; tool_serial_start;
   tool_serial_stop; tool_serial_status; tool_serial_read; tool_serial_tail; tool_serial_clear; tool_sandbox_probe;
   tool_sandbox_deploy; tool_sandbox_run_guest; tool_sandbox_run_driver; tool_sandbox_last_trap; tool_sandbox_run_batch].
