(* ===== verification/Bytes.v ===== *)
(** * Byte-level codecs

    [struct.pack(">I", n)] and its inverse, hexadecimal text, and base64: the
    encoder and the (non-strict) decoder of Python's [base64] module, and the
    daemon's own pair in [mcpd/src/b64.c]. *)
From S2P Require Import Prelude Py.

(* ------------------------------------------------------------------ *)
(** ** Bit and byte arithmetic shared by the codecs *)

Lemma lor_shiftl_add x y n : 0 ≤ n → 0 ≤ y < 2 ^ n → Z.lor (Z.shiftl x n) y = x * 2 ^ n + y.
Proof.
  intros Hn Hy. rewrite <-Z.shiftl_mul_pow2 by done.
  assert (Z.land (Z.shiftl x n) y = 0) as Hland.
  { apply Z.bits_inj'. intros i Hi. rewrite Z.land_spec, Z.bits_0.
    destruct (decide (i < n)).
    - by rewrite Z.shiftl_spec_low by lia.
    - replace y with (y mod 2 ^ n) by (apply Z.mod_small; lia).
      rewrite Z.mod_pow2_bits_high by lia. apply andb_false_r. }
  rewrite <-Z.lxor_lor by done. symmetry. by apply Z.add_nocarry_lxor.
Qed.

Lemma land_ones_mod x n : 0 ≤ n → Z.land x (Z.ones n) = x mod 2 ^ n.
Proof. apply Z.land_ones. Qed.

(* ------------------------------------------------------------------ *)
(** ** Big-endian integers: [struct] formats [>I] and [>Q] *)

Fixpoint be_bytes (n : nat) (z : Z) : bytes :=
  match n with
  | O => []
  | S n' => be_bytes n' (z / 256) ++ [chr (z mod 256)]
  end.
Definition be_val (b : bytes) : Z := foldl (λ acc c, acc * 256 + ord c) 0 b.

(** [struct.pack(">I", z)] *)
Definition pack_u32 (z : Z) : bytes := be_bytes 4 z.

Lemma length_be_bytes n z : length (be_bytes n z) = n.
Proof. revert z. induction n as [|n IH]; intros z; csimpl; [done|]. rewrite length_app, IH. simpl. lia. Qed.

Lemma be_val_snoc b c : be_val (b ++ [c]) = be_val b * 256 + ord c.
Proof. unfold be_val. by rewrite foldl_app. Qed.

Lemma be_val_bytes n z : 0 ≤ z < 256 ^ Z.of_nat n → be_val (be_bytes n z) = z.
Proof.
  revert z. induction n as [|n IH]; intros z Hz; csimpl.
  { rewrite Z.pow_0_r in Hz. change (be_val []) with 0. lia. }
  rewrite be_val_snoc, ord_chr by (apply Z.mod_pos_bound; lia).
  rewrite IH; [pose proof (Z.div_mod z 256); lia|].
  split; [apply Z.div_pos; lia|]. apply Z.div_lt_upper_bound; [lia|].
  rewrite Nat2Z.inj_succ, Z.pow_succ_r in Hz by lia. lia.
Qed.

Lemma be_val_range b : 0 ≤ be_val b < 256 ^ Z.of_nat (length b).
Proof.
  induction b as [|c b IH] using rev_ind; [by vm_compute|].
  rewrite be_val_snoc, length_app, Nat2Z.inj_add. simpl length.
  rewrite Z.pow_add_r by lia. pose proof (ord_range c). lia.
Qed.

(** Every 4-byte header is the packing of its value. *)
Lemma be_bytes_val b : be_bytes (length b) (be_val b) = b.
Proof.
  induction b as [|c b IH] using rev_ind; [done|].
  rewrite length_app, be_val_snoc. simpl length. rewrite Nat.add_1_r. simpl.
  pose proof (ord_range c) as Hc.
  rewrite Z.div_add_l, (Z.div_small (ord c)), Z.add_0_r, IH by lia.
  by rewrite Z.add_comm, Z.mod_add, Z.mod_small, chr_ord by lia.
Qed.

(* ------------------------------------------------------------------ *)
(** ** Hexadecimal *)

(** [f"{z:x}"] *)
Definition hex (z : Z) : text := show_base 16 z.
(** [f"{z:02x}"] of a byte *)
Definition hex2 (z : Z) : text := [digit_char (z / 16); digit_char (z mod 16)].
(** [int(t, 16)] *)
Definition int16 (t : text) : option Z := int_of_text 16 t.

(** [bytes.hex()] *)
Definition tohex (b : bytes) : text := b ≫= λ c, hex2 (ord c).
(** The ASCII white space [bytes.fromhex] skips between byte pairs. *)
Definition is_ascii_space (c : ascii) : bool := in_range c 9 13 || (ord c =? 32).
(** [bytes.fromhex(t)]: [None] is its [ValueError]. *)
Fixpoint fromhex (t : text) : option bytes :=
  match t with
  | [] => Some []
  | c :: t' =>
      if is_ascii_space c then fromhex t'
      else match t' with
           | [] => None
           | d :: t'' => h ← digit_val 16 c; l ← digit_val 16 d;
                         (λ b, chr (h * 16 + l) :: b) <$> fromhex t''
           end
  end.

Lemma digit_char_space d : 0 ≤ d < 16 → is_ascii_space (digit_char d) = false ∧ is_space (digit_char d) = false.
Proof.
  intros Hd. unfold digit_char, is_ascii_space, is_space, in_range.
  destruct (Z.ltb_spec d 10); rewrite !ord_chr by lia; split; lia.
Qed.

(** The two hexadecimal digits of a byte. *)
Lemma nibbles z : 0 ≤ z < 256 → 0 ≤ z / 16 < 16 ∧ 0 ≤ z mod 16 < 16 ∧ z = z / 16 * 16 + z mod 16.
Proof. intros. Z.to_euclidean_division_equations. lia. Qed.

Lemma fromhex_tohex b : fromhex (tohex b) = Some b.
Proof.
  induction b as [|c b IH]; [done|]. unfold tohex in *. csimpl.
  destruct (nibbles (ord c) (ord_range c)) as (Hh & Hl & Heq).
  destruct (digit_char_space _ Hh) as [-> _].
  rewrite (digit_val_char _ _ Hh), (digit_val_char _ _ Hl) by done. csimpl.
  rewrite IH. csimpl. by rewrite <-Heq, chr_ord.
Qed.

(** [int(f"{z:02x}", 16) == z] for a byte. *)
Lemma int16_hex2 z : 0 ≤ z < 256 → int16 (hex2 z) = Some z.
Proof.
  intros Hz. destruct (nibbles z Hz) as (Hh & Hl & Heq).
  unfold int16, int_of_text, strip, rstrip, rstrip_of, lstrip, hex2.
  csimpl. rewrite (proj2 (digit_char_space _ Hh)).
  rewrite reverse_cons, reverse_singleton. csimpl.
  rewrite (proj2 (digit_char_space _ Hl)).
  rewrite reverse_cons, reverse_singleton. csimpl.
  rewrite !decide_False.
  - unfold parse_base. csimpl.
    rewrite (digit_val_char _ _ Hh), (digit_val_char _ _ Hl) by done. csimpl. f_equal. lia.
  - intros Hc. pose proof (digit_val_char 16 _ Hh ltac:(done)) as Hd. by rewrite Hc in Hd.
  - intros Hc. pose proof (digit_val_char 16 _ Hh ltac:(done)) as Hd. by rewrite Hc in Hd.
Qed.

(* ------------------------------------------------------------------ *)
(** ** Base64 *)

(** The alphabet: [enc_tbl] of b64.c, and [base64]'s own. *)
Definition enc_tbl (d : Z) : ascii :=
  if d <? 26 then chr (65 + d)
  else if d <? 52 then chr (97 + (d - 26))
  else if d <? 62 then chr (48 + (d - 52))
  else if d =? 62 then "+"%char else "/"%char.
(** [dec_tbl] of b64.c: [None] is its -1. *)
Definition dec_tbl (c : ascii) : option Z :=
  if in_range c 65 90 then Some (ord c - 65)
  else if in_range c 97 122 then Some (ord c - 97 + 26)
  else if in_range c 48 57 then Some (ord c - 48 + 52)
  else if ord c =? 43 then Some 62
  else if ord c =? 47 then Some 63 else None.

Definition pad : ascii := "="%char.

(** b64_encode: whole groups of three, then the one- or two-byte tail. *)
Fixpoint b64_encode (b : bytes) : text :=
  match b with
  | x :: y :: z :: b' =>
      let v := Z.lor (Z.lor (Z.shiftl (ord x) 16) (Z.shiftl (ord y) 8)) (ord z) in
      enc_tbl (Z.land (Z.shiftr v 18) 63) :: enc_tbl (Z.land (Z.shiftr v 12) 63)
      :: enc_tbl (Z.land (Z.shiftr v 6) 63) :: enc_tbl (Z.land v 63) :: b64_encode b'
  | [x; y] =>
      let v := Z.lor (Z.shiftl (ord x) 16) (Z.shiftl (ord y) 8) in
      [enc_tbl (Z.land (Z.shiftr v 18) 63); enc_tbl (Z.land (Z.shiftr v 12) 63);
       enc_tbl (Z.land (Z.shiftr v 6) 63); pad]
  | [x] =>
      let v := Z.shiftl (ord x) 16 in
      [enc_tbl (Z.land (Z.shiftr v 18) 63); enc_tbl (Z.land (Z.shiftr v 12) 63); pad; pad]
  | [] => []
  end.

(** The loop of b64_decode: [buf] is a 32-bit int, of which only the low
    [bits + 8] bits are ever used.  [None] is the NULL return. *)
Fixpoint b64_decode_go (buf bits : Z) (t : text) : option bytes :=
  match t with
  | [] => Some []
  | c :: t' =>
      if decide (c = pad) then Some []
      else if (ord c =? 32) || (ord c =? 10) || (ord c =? 13) || (ord c =? 9)
      then b64_decode_go buf bits t'
      else d ← dec_tbl c;
           let buf := Z.modulo (Z.lor (Z.shiftl buf 6) d) (2 ^ 32) in
           let bits := bits + 6 in
           if 8 <=? bits
           then (λ b, chr (Z.land (Z.shiftr buf (bits - 8)) 255) :: b) <$>
                b64_decode_go buf (bits - 8) t'
           else b64_decode_go buf bits t'
  end.
Definition b64_decode (t : text) : option bytes := b64_decode_go 0 0 t.

(** Python's [base64.b64decode(t)] without [validate]: characters outside the
    alphabet are skipped, data after a complete padding is ignored, and a
    quad left incomplete is a [binascii.Error] ([None]). *)
Fixpoint py_b64decode_go (quad left pads : Z) (t : text) : option bytes :=
  match t with
  | [] => if quad =? 0 then Some [] else None
  | c :: t' =>
      if decide (c = pad) then
        (if 2 <=? quad
         then if 4 <=? quad + (pads + 1) then Some []
              else py_b64decode_go quad left (pads + 1) t'
         else py_b64decode_go quad left pads t')
      else match dec_tbl c with
      | None => py_b64decode_go quad left pads t'
      | Some d =>
          if quad =? 0 then py_b64decode_go 1 d 0 t'
          else if quad =? 1 then
            (λ b, chr (Z.lor (Z.shiftl left 2) (Z.shiftr d 4)) :: b) <$>
            py_b64decode_go 2 (Z.land d 15) 0 t'
          else if quad =? 2 then
            (λ b, chr (Z.lor (Z.shiftl left 4) (Z.shiftr d 2)) :: b) <$>
            py_b64decode_go 3 (Z.land d 3) 0 t'
          else
            (λ b, chr (Z.lor (Z.shiftl left 6) d) :: b) <$> py_b64decode_go 0 0 0 t'
      end
  end.
Definition py_b64decode (t : text) : option bytes := py_b64decode_go 0 0 0 t.
(** Python's [base64.b64encode(b)] emits the same RFC 4648 text. *)
Definition py_b64encode (b : bytes) : text := b64_encode b.

Example b64_man : str (b64_encode (txt "Man")) = "TWFu". Proof. reflexivity. Qed.
Example b64_ma : str (b64_encode (txt "Ma")) = "TWE=". Proof. reflexivity. Qed.
Example b64_m : str (b64_encode (txt "M")) = "TQ==". Proof. reflexivity. Qed.
Example b64_back : b64_decode (txt "TWE=") = Some (txt "Ma"). Proof. reflexivity. Qed.
Example b64_bad : py_b64decode (txt "TWE") = None. Proof. reflexivity. Qed.

Lemma enc_dec_tbl d : 0 ≤ d < 64 → dec_tbl (enc_tbl d) = Some d ∧ enc_tbl d ≠ pad.
Proof.
  intros Hd.
  assert (Forall (λ d, dec_tbl (enc_tbl d) = Some d ∧ enc_tbl d ≠ pad) (seqZ 0 64)) as H.
  { apply (bool_decide_unpack _). by vm_compute. }
  rewrite Forall_forall in H. apply H. apply elem_of_seqZ. lia.
Qed.

(** The sextets of one group, by division. *)
Lemma sextet v k : 0 ≤ k → Z.land (Z.shiftr v k) 63 = (v / 2 ^ k) mod 64.
Proof. intros. change 63 with (Z.ones 6). by rewrite land_ones_mod, Z.shiftr_div_pow2 by lia. Qed.
Lemma sextet0 v : Z.land v 63 = v mod 64.
Proof. change 63 with (Z.ones 6). by rewrite land_ones_mod by lia. Qed.

Lemma group3 x y z : 0 ≤ x < 256 → 0 ≤ y < 256 → 0 ≤ z < 256 →
  Z.lor (Z.lor (Z.shiftl x 16) (Z.shiftl y 8)) z = x * 65536 + y * 256 + z.
Proof.
  intros. replace (Z.lor (Z.shiftl x 16) (Z.shiftl y 8)) with (Z.shiftl (x * 256 + y) 8).
  - rewrite lor_shiftl_add by lia. lia.
  - change 256 with (2 ^ 8). rewrite <-(lor_shiftl_add x y 8) by lia.
    by rewrite Z.shiftl_lor, Z.shiftl_shiftl by lia.
Qed.
Lemma group2 x y : 0 ≤ x < 256 → 0 ≤ y < 256 →
  Z.lor (Z.shiftl x 16) (Z.shiftl y 8) = x * 65536 + y * 256.
Proof.
  intros Hx Hy. rewrite <-(Z.lor_0_r (Z.lor _ _)).
  rewrite group3 by lia. lia.
Qed.

(** One alphabet character through the daemon's loop. *)
Lemma b64_decode_char buf bits d t : 0 ≤ d < 64 →
  b64_decode_go buf bits (enc_tbl d :: t) =
  (let buf := Z.modulo (buf * 64 + d) (2 ^ 32) in
   if 8 <=? bits + 6
   then (λ b, chr (Z.modulo (buf / 2 ^ (bits - 2)) 256) :: b) <$> b64_decode_go buf (bits - 2) t
   else b64_decode_go buf (bits + 6) t).
Proof.
  intros Hd. destruct (enc_dec_tbl d Hd) as [Hdec Hpad]. csimpl.
  rewrite decide_False by done. rewrite Hdec. csimpl.
  assert (∀ z : Z, dec_tbl (chr z) = None → (ord (enc_tbl d) =? z) = false) as Hne.
  { intros z Hz. apply Z.eqb_neq. intros <-. rewrite chr_ord in Hz. congruence. }
  rewrite !Hne by done. csimpl.
  rewrite lor_shiftl_add by lia.
  replace (bits + 6 - 8) with (bits - 2) by lia.
  destruct (Z.leb_spec 8 (bits + 6)); [|done].
  change 255 with (Z.ones 8). by rewrite land_ones_mod, Z.shiftr_div_pow2 by lia.
Qed.

(** Three bytes out of four sextets, as both decoders assemble them. *)
Definition group_bytes (d1 d2 d3 d4 : Z) : bytes :=
  [chr (d1 * 4 + d2 / 16); chr (d2 mod 16 * 16 + d3 / 4); chr (d3 mod 4 * 64 + d4)].

Lemma b64_decode_group buf d1 d2 d3 d4 t :
  0 ≤ d1 < 64 → 0 ≤ d2 < 64 → 0 ≤ d3 < 64 → 0 ≤ d4 < 64 →
  ∃ buf', b64_decode_go buf 0 (enc_tbl d1 :: enc_tbl d2 :: enc_tbl d3 :: enc_tbl d4 :: t) =
          app (group_bytes d1 d2 d3 d4) <$> b64_decode_go buf' 0 t.
Proof.
  intros H1 H2 H3 H4. eexists.
  rewrite (b64_decode_char _ _ d1) by done. change (8 <=? 0 + 6) with false.
  cbn iota zeta. change (0 + 6) with 6.
  rewrite (b64_decode_char _ _ d2) by done. change (8 <=? 6 + 6) with true.
  cbn iota zeta. change (6 - 2) with 4.
  rewrite (b64_decode_char _ _ d3) by done. change (8 <=? 4 + 6) with true.
  cbn iota zeta. change (4 - 2) with 2.
  rewrite (b64_decode_char _ _ d4) by done. change (8 <=? 2 + 6) with true.
  cbn iota zeta. change (2 - 2) with 0.
  rewrite <-!option_fmap_compose. apply option_fmap_ext. intros b. unfold compose, group_bytes.
  change (2 ^ 32) with 4294967296. change (2 ^ 4) with 16. change (2 ^ 2) with 4.
  change (2 ^ 0) with 1. simpl.
  f_equal; [f_equal|f_equal; [f_equal|f_equal; f_equal]].
  all: Z.to_euclidean_division_equations; lia.
Qed.

(** The four sextets of a 24-bit group, and the bytes they stand for. *)
Lemma group_bytes_sextets v :
  0 ≤ v < 2 ^ 24 →
  group_bytes (v / 2 ^ 18 mod 64) (v / 2 ^ 12 mod 64) (v / 2 ^ 6 mod 64) (v mod 64) =
  [chr (v / 65536); chr (v / 256 mod 256); chr (v mod 256)].
Proof.
  intros Hv. unfold group_bytes. change (2 ^ 24) with 16777216 in Hv.
  change (2 ^ 18) with 262144. change (2 ^ 12) with 4096. change (2 ^ 6) with 64.
  f_equal; [f_equal|f_equal; [f_equal|f_equal; f_equal]].
  all: Z.to_euclidean_division_equations; lia.
Qed.
Lemma group_bytes_val x y z :
  let v := ord x * 65536 + ord y * 256 + ord z in
  group_bytes (v / 2 ^ 18 mod 64) (v / 2 ^ 12 mod 64) (v / 2 ^ 6 mod 64) (v mod 64) = [x; y; z].
Proof.
  intros v. pose proof (ord_range x). pose proof (ord_range y). pose proof (ord_range z).
  assert (0 ≤ v < 2 ^ 24) as Hv by (change (2 ^ 24) with 16777216; lia).
  rewrite group_bytes_sextets by done. rewrite <-(chr_ord x), <-(chr_ord y), <-(chr_ord z).
  f_equal; [f_equal|f_equal; [f_equal|f_equal; f_equal]]; subst v.
  all: Z.to_euclidean_division_equations; lia.
Qed.

(** Lists by threes. *)
Lemma list_ind3 {A} (P : list A → Prop) :
  P [] → (∀ x, P [x]) → (∀ x y, P [x; y]) →
  (∀ x y z l, P l → P (x :: y :: z :: l)) → ∀ l, P l.
Proof.
  intros H0 H1 H2 H3.
  exact (fix go l := match l with
                     | [] => H0 | [x] => H1 x | [x; y] => H2 x y
                     | x :: y :: z :: l' => H3 x y z l' (go l')
                     end).
Qed.

(** One whole group and the two kinds of tail of [b64_encode], by sextets. *)
Lemma b64_encode_cons3 x y z b :
  let v := ord x * 65536 + ord y * 256 + ord z in
  b64_encode (x :: y :: z :: b) =
  enc_tbl (v / 2 ^ 18 mod 64) :: enc_tbl (v / 2 ^ 12 mod 64)
  :: enc_tbl (v / 2 ^ 6 mod 64) :: enc_tbl (v mod 64) :: b64_encode b.
Proof.
  intros v. simpl. rewrite group3 by apply ord_range. fold v.
  by rewrite !sextet, sextet0 by lia.
Qed.
Lemma b64_encode_two x y :
  let v := ord x * 65536 + ord y * 256 in
  b64_encode [x; y] = [enc_tbl (v / 2 ^ 18 mod 64); enc_tbl (v / 2 ^ 12 mod 64);
                       enc_tbl (v / 2 ^ 6 mod 64); pad].
Proof.
  intros v. simpl. rewrite group2 by apply ord_range. fold v. by rewrite !sextet by lia.
Qed.
Lemma b64_encode_one x :
  let v := ord x * 65536 in
  b64_encode [x] = [enc_tbl (v / 2 ^ 18 mod 64); enc_tbl (v / 2 ^ 12 mod 64); pad; pad].
Proof.
  intros v. simpl. rewrite Z.shiftl_mul_pow2 by lia. by rewrite !sextet by lia.
Qed.

Lemma b64_decode_encode_go buf b : b64_decode_go buf 0 (b64_encode b) = Some b.
Proof.
  revert buf. induction b as [|x|x y|x y z b IH] using list_ind3; intros buf.
  - done.
  - rewrite b64_encode_one. set (v := ord x * 65536). pose proof (ord_range x).
    rewrite b64_decode_char by (apply Z.mod_pos_bound; lia).
    change (8 <=? 0 + 6) with false. cbn iota zeta. change (0 + 6) with 6.
    rewrite b64_decode_char by (apply Z.mod_pos_bound; lia).
    change (8 <=? 6 + 6) with true. cbn iota zeta.
    simpl. do 2 f_equal.
    rewrite <-(chr_ord x). f_equal. subst v.
    change (2 ^ 32) with 4294967296. change (2 ^ 4) with 16. change (2 ^ 18) with 262144.
    change (2 ^ 12) with 4096. Z.to_euclidean_division_equations; lia.
  - rewrite b64_encode_two. set (v := ord x * 65536 + ord y * 256).
    pose proof (ord_range x). pose proof (ord_range y).
    rewrite b64_decode_char by (apply Z.mod_pos_bound; lia).
    change (8 <=? 0 + 6) with false. cbn iota zeta. change (0 + 6) with 6.
    rewrite b64_decode_char by (apply Z.mod_pos_bound; lia).
    change (8 <=? 6 + 6) with true. cbn iota zeta. change (6 - 2) with 4.
    rewrite b64_decode_char by (apply Z.mod_pos_bound; lia).
    change (8 <=? 4 + 6) with true. cbn iota zeta.
    simpl. do 2 f_equal.
    all: change (2 ^ 32) with 4294967296; change (2 ^ 4) with 16; change (2 ^ 18) with 262144;
      change (2 ^ 12) with 4096; change (2 ^ 6) with 64; change (2 ^ 2) with 4.
    + rewrite <-(chr_ord x). f_equal. subst v. Z.to_euclidean_division_equations; lia.
    + rewrite <-(chr_ord y). do 2 f_equal. subst v. Z.to_euclidean_division_equations; lia.
  - rewrite b64_encode_cons3. set (v := ord x * 65536 + ord y * 256 + ord z).
    edestruct (b64_decode_group buf) as [buf' ->]; [apply Z.mod_pos_bound; lia..|].
    rewrite IH. unfold fmap, option_fmap, option_map. subst v. by rewrite (group_bytes_val x y z).
Qed.

(** The daemon decodes what the host encodes. *)
Lemma b64_decode_py_encode b : b64_decode (py_b64encode b) = Some b.
Proof. apply b64_decode_encode_go. Qed.

(** One alphabet character through Python's decoder. *)
Lemma py_b64decode_char quad left pads d t : 0 ≤ d < 64 →
  py_b64decode_go quad left pads (enc_tbl d :: t) =
  (if quad =? 0 then py_b64decode_go 1 d 0 t
   else if quad =? 1 then
     (λ b, chr (left * 4 + d / 16) :: b) <$> py_b64decode_go 2 (d mod 16) 0 t
   else if quad =? 2 then
     (λ b, chr (left * 16 + d / 4) :: b) <$> py_b64decode_go 3 (d mod 4) 0 t
   else (λ b, chr (left * 64 + d) :: b) <$> py_b64decode_go 0 0 0 t).
Proof.
  intros Hd. destruct (enc_dec_tbl d Hd) as [Hdec Hpad]. csimpl.
  rewrite decide_False by done. rewrite Hdec.
  change 15 with (Z.ones 4). change 3 with (Z.ones 2). rewrite !land_ones_mod by lia.
  rewrite !Z.shiftr_div_pow2, !lor_shiftl_add by
    (lia || (split; [apply Z.div_pos|apply Z.div_lt_upper_bound]; simpl; lia)).
  done.
Qed.

Lemma py_b64decode_group left pads d1 d2 d3 d4 t :
  0 ≤ d1 < 64 → 0 ≤ d2 < 64 → 0 ≤ d3 < 64 → 0 ≤ d4 < 64 →
  py_b64decode_go 0 left pads (enc_tbl d1 :: enc_tbl d2 :: enc_tbl d3 :: enc_tbl d4 :: t) =
  app (group_bytes d1 d2 d3 d4) <$> py_b64decode_go 0 0 0 t.
Proof.
  intros H1 H2 H3 H4. rewrite !py_b64decode_char by done. simpl.
  by rewrite <-!option_fmap_compose.
Qed.

Lemma py_b64decode_encode_go left pads b : py_b64decode_go 0 left pads (b64_encode b) = Some b.
Proof.
  revert left pads. induction b as [|x|x y|x y z b IH] using list_ind3; intros left pads.
  - done.
  - rewrite b64_encode_one. set (v := ord x * 65536). pose proof (ord_range x).
    rewrite !py_b64decode_char by (apply Z.mod_pos_bound; lia). simpl. do 2 f_equal.
    rewrite <-(chr_ord x). f_equal. subst v.
    change (2 ^ 18) with 262144. change (2 ^ 12) with 4096. Z.to_euclidean_division_equations; lia.
  - rewrite b64_encode_two. set (v := ord x * 65536 + ord y * 256).
    pose proof (ord_range x). pose proof (ord_range y).
    rewrite !py_b64decode_char by (apply Z.mod_pos_bound; lia). simpl. do 2 f_equal.
    all: change (2 ^ 18) with 262144; change (2 ^ 12) with 4096; change (2 ^ 6) with 64.
    + rewrite <-(chr_ord x). f_equal. subst v. Z.to_euclidean_division_equations; lia.
    + rewrite <-(chr_ord y). do 2 f_equal. subst v. Z.to_euclidean_division_equations; lia.
  - rewrite b64_encode_cons3, py_b64decode_group by (apply Z.mod_pos_bound; lia).
    rewrite IH. unfold fmap, option_fmap, option_map. by rewrite (group_bytes_val x y z).
Qed.

(** The host decodes what either side encodes. *)
Lemma py_b64decode_encode b : py_b64decode (b64_encode b) = Some b.
Proof. apply py_b64decode_encode_go. Qed.

(** Base64 turns every three bytes, started or complete, into four characters. *)
Lemma length_b64_encode b :
  Z.of_nat (length (b64_encode b)) = 4 * ((Z.of_nat (length b) + 2) / 3).
Proof.
  induction b as [|x|x y|x y z b IH] using list_ind3; [done..|].
  rewrite b64_encode_cons3. simpl length. rewrite !Nat2Z.inj_succ, IH.
  Z.to_euclidean_division_equations; lia.
Qed.
