(* ===== verification/Sha256.v ===== *)
(** * SHA-256 as the daemon computes it: [mcpd/src/sha256.c]

    The streaming implementation behind [fs.hash], the standard it implements
    (FIPS 180-4), stated bit by bit and with the constants from the primes, and
    that the two agree however the data is cut up. *)
From S2P Require Import Prelude Py Bytes.

(* ------------------------------------------------------------------ *)
(** ** The implementation *)

Definition zero : ascii := "000"%char.
(** [uint32_t] *)
Definition u32 (x : Z) : Z := x mod 2 ^ 32.
(** The table [K], a row of eight words to a number. *)
Definition K : list Z :=
  Eval cbv in flat_map (λ row, map (λ i, Z.land (Z.shiftr row (32 * i)) (2 ^ 32 - 1)) [7; 6; 5; 4; 3; 2; 1; 0])
  [0x428a2f98_71374491_b5c0fbcf_e9b5dba5_3956c25b_59f111f1_923f82a4_ab1c5ed5;
   0xd807aa98_12835b01_243185be_550c7dc3_72be5d74_80deb1fe_9bdc06a7_c19bf174;
   0xe49b69c1_efbe4786_0fc19dc6_240ca1cc_2de92c6f_4a7484aa_5cb0a9dc_76f988da;
   0x983e5152_a831c66d_b00327c8_bf597fc7_c6e00bf3_d5a79147_06ca6351_14292967;
   0x27b70a85_2e1b2138_4d2c6dfc_53380d13_650a7354_766a0abb_81c2c92e_92722c85;
   0xa2bfe8a1_a81a664b_c24b8b70_c76c51a3_d192e819_d6990624_f40e3585_106aa070;
   0x19a4c116_1e376c08_2748774c_34b0bcb5_391c0cb3_4ed8aa4a_5b9cca4f_682e6ff3;
   0x748f82ee_78a5636f_84c87814_8cc70208_90befffa_a4506ceb_bef9a3f7_c67178f2].
Definition ROR (x n : Z) : Z := Z.lor (Z.shiftr x n) (u32 (Z.shiftl x (32 - n))).

(** [sha256_ctx] *)
Record sha256_ctx := Ctx { state : list Z; bitlen : Z; buf : bytes; buflen : nat }.

Abbreviation at_ l i := (nth i l 0).
(** The first sixteen words of the schedule, and the rest of it. *)
Definition load (blk : bytes) (i : nat) : Z :=
  let b j := ord (nth (i * 4 + j) blk zero) in
  Z.lor (Z.lor (Z.lor (Z.shiftl (b 0%nat) 24) (Z.shiftl (b 1%nat) 16)) (Z.shiftl (b 2%nat) 8)) (b 3%nat).
Definition expand (w : list Z) (i : nat) : list Z :=
  let s0 := Z.lxor (Z.lxor (ROR (at_ w (i - 15)) 7) (ROR (at_ w (i - 15)) 18)) (Z.shiftr (at_ w (i - 15)) 3) in
  let s1 := Z.lxor (Z.lxor (ROR (at_ w (i - 2)) 17) (ROR (at_ w (i - 2)) 19)) (Z.shiftr (at_ w (i - 2)) 10) in
  w ++ [u32 (at_ w (i - 16) + s0 + at_ w (i - 7) + s1)].
Definition schedule (blk : bytes) : list Z := foldl expand (map (load blk) (seq 0 16)) (seq 16 48).

Record vars := V { va : Z; vb : Z; vc : Z; vd : Z; ve : Z; vf : Z; vg : Z; vh : Z }.
Definition round (w : list Z) (v : vars) (i : nat) : vars :=
  let '(V a b c d e f g h) := v in
  let S1 := Z.lxor (Z.lxor (ROR e 6) (ROR e 11)) (ROR e 25) in
  let ch := Z.lxor (Z.land e f) (Z.land (u32 (Z.lnot e)) g) in
  let t1 := u32 (h + S1 + ch + at_ K i + at_ w i) in
  let S0 := Z.lxor (Z.lxor (ROR a 2) (ROR a 13)) (ROR a 22) in
  let mj := Z.lxor (Z.lxor (Z.land a b) (Z.land a c)) (Z.land b c) in
  let t2 := u32 (S0 + mj) in
  V (u32 (t1 + t2)) a b c (u32 (d + t1)) e f g.
Definition to_vars (s : list Z) : vars := V (at_ s 0) (at_ s 1) (at_ s 2) (at_ s 3) (at_ s 4) (at_ s 5) (at_ s 6) (at_ s 7).
Definition of_vars (v : vars) : list Z := [va v; vb v; vc v; vd v; ve v; vf v; vg v; vh v].
(** [_transform] *)
Definition transform (s : list Z) (blk : bytes) : list Z :=
  let w := schedule blk in
  zip_with (λ x y, u32 (x + y)) s (of_vars (foldl (round w) (to_vars s) (seq 0 64))).

(** [sha256_init]; the buffer holds whatever it held. *)
Definition H0 : list Z :=
  [0x6a09e667; 0xbb67ae85; 0x3c6ef372; 0xa54ff53a; 0x510e527f; 0x9b05688c; 0x1f83d9ab; 0x5be0cd19].
Definition sha256_init (garbage : bytes) : sha256_ctx := Ctx H0 0 garbage 0.
(** [memcpy] into the buffer. *)
Definition store (b : bytes) (i : nat) (p : bytes) : bytes := take i b ++ p ++ drop (i + length p) b.
(** [sha256_update]: every turn takes at least one byte. *)
Definition update_step (c : sha256_ctx) (p : bytes) : sha256_ctx :=
  let b := store (buf c) (buflen c) p in
  let n := (buflen c + length p)%nat in
  let bits := (bitlen c + Z.of_nat (length p) * 8) mod 2 ^ 64 in
  if decide (n = 64%nat) then Ctx (transform (state c) b) bits b 0 else Ctx (state c) bits b n.
Fixpoint update_loop (fuel : nat) (c : sha256_ctx) (data : bytes) : option sha256_ctx :=
  match data, fuel with
  | [], _ => Some c
  | _, O => None
  | _, Datatypes.S fuel =>
      let tk := Nat.min (length data) (64 - buflen c) in
      update_loop fuel (update_step c (take tk data)) (drop tk data)
  end.
Definition sha256_update (c : sha256_ctx) (data : bytes) : option sha256_ctx := update_loop (length data) c data.
(** [sha256_final] *)
Definition put_byte (c : sha256_ctx) (x : ascii) : sha256_ctx := Ctx (state c) (bitlen c) (<[buflen c := x]> (buf c)) (buflen c + 1).
Definition fill_to (n : nat) (c : sha256_ctx) : sha256_ctx := Nat.iter (n - buflen c) (λ c, put_byte c zero) c.
Definition flush (c : sha256_ctx) : sha256_ctx := Ctx (transform (state c) (buf c)) (bitlen c) (buf c) 0.
Definition length_byte (bits : Z) (i : nat) : ascii := chr (Z.land (Z.shiftr bits (Z.of_nat i * 8)) 0xff).
Definition digest_of (s : list Z) : bytes :=
  s ≫= λ x, map (λ n, chr (Z.land (Z.shiftr x n) 0xff)) [24; 16; 8; 0].
Definition sha256_final (c : sha256_ctx) : bytes :=
  let c := put_byte c "128"%char in
  let c := if (56 <? buflen c)%nat then flush (fill_to 64 c) else c in
  let c := fill_to 56 c in
  let c := foldl (λ c i, put_byte c (length_byte (bitlen c) i)) c [7; 6; 5; 4; 3; 2; 1; 0]%nat in
  digest_of (state (flush c)).
(** Initialise, any number of updates, finish. *)
Fixpoint updates (c : sha256_ctx) (chunks : list bytes) : option sha256_ctx :=
  match chunks with
  | [] => Some c
  | p :: chunks => match sha256_update c p with Some c => updates c chunks | None => None end
  end.
Definition sha256 (garbage : bytes) (chunks : list bytes) : option bytes := sha256_final <$> updates (sha256_init garbage) chunks.

(* ------------------------------------------------------------------ *)
(** ** The standard *)

(** The word whose bit [i] is [f i]. *)
Fixpoint bits_from (n : nat) (f : Z → bool) : Z :=
  match n with O => 0 | Datatypes.S n => bits_from n f + (if f (Z.of_nat n) then 2 ^ Z.of_nat n else 0) end.
Definition word (f : Z → bool) : Z := bits_from 32 f.
Definition rotr (n x : Z) : Z := word (λ i, Z.testbit x ((i + n) mod 32)).
Definition shr (n x : Z) : Z := word (λ i, (i + n <? 32) && Z.testbit x (i + n)).
(** The sum of three bits, the choice and the majority of them. *)
Definition xor3 (x y z : Z) : Z := word (λ i, xorb (xorb (Z.testbit x i) (Z.testbit y i)) (Z.testbit z i)).
Definition Ch (x y z : Z) : Z := word (λ i, if Z.testbit x i then Z.testbit y i else Z.testbit z i).
Definition Maj (x y z : Z) : Z :=
  word (λ i, 2 <=? Z.b2z (Z.testbit x i) + Z.b2z (Z.testbit y i) + Z.b2z (Z.testbit z i)).
Definition Sigma0 (x : Z) : Z := xor3 (rotr 2 x) (rotr 13 x) (rotr 22 x).
Definition Sigma1 (x : Z) : Z := xor3 (rotr 6 x) (rotr 11 x) (rotr 25 x).
Definition sigma0 (x : Z) : Z := xor3 (rotr 7 x) (rotr 18 x) (shr 3 x).
Definition sigma1 (x : Z) : Z := xor3 (rotr 17 x) (rotr 19 x) (shr 10 x).

(** The first primes. *)
Definition is_prime (n : nat) : bool := (1 <? n)%nat && forallb (λ d, negb (n mod d =? 0)%nat) (seq 2 (n - 2)).
Definition primes : list Z := Z.of_nat <$> take 64 (filter (λ n, is_prime n = true) (seq 2 311)).
(** [r] is the integer part of the square or cube root of [p] times [2 ^ 32]: the
    first 32 bits of the fraction of the root are the rest of [r] by [2 ^ 32]. *)
Definition root_floor (k p r : Z) : Prop := 0 ≤ r ∧ r ^ k ≤ p * 2 ^ (32 * k) < (r + 1) ^ k.
Definition fraction_of_root (k p c : Z) : Prop := ∃ r, root_floor k p r ∧ c = r mod 2 ^ 32.

(** The padded message, its blocks, and the words of one. *)
Definition padding (n : nat) : bytes :=
  "128"%char :: repeat zero (Z.to_nat ((55 - Z.of_nat n) mod 64)) ++ be_bytes 8 (8 * Z.of_nat n).
Fixpoint blocks (n : nat) (m : bytes) : list bytes :=
  match n with O => [] | Datatypes.S n => take 64 m :: blocks n (drop 64 m) end.
Definition message_blocks (m : bytes) : list bytes :=
  let p := m ++ padding (length m) in blocks (length p / 64) p.
Definition words (blk : bytes) : list Z := map (λ i, be_val (take 4 (drop (4 * i) blk))) (seq 0 16).
(** [W t], by recursion on [t]. *)
Fixpoint W_upto (ws : list Z) (n : nat) : list Z :=
  match n with
  | O => []
  | Datatypes.S t =>
      let l := W_upto ws t in
      l ++ [if (t <? 16)%nat then at_ ws t
            else (sigma1 (at_ l (t - 2)) + at_ l (t - 7) + sigma0 (at_ l (t - 15)) + at_ l (t - 16)) mod 2 ^ 32]
  end.
Definition W (blk : bytes) (t : nat) : Z := at_ (W_upto (words blk) (Datatypes.S t)) t.
Definition step (k w : nat → Z) (t : nat) (v : vars) : vars :=
  let '(V a b c d e f g h) := v in
  let T1 := (h + Sigma1 e + Ch e f g + k t + w t) mod 2 ^ 32 in
  let T2 := (Sigma0 a + Maj a b c) mod 2 ^ 32 in
  V ((T1 + T2) mod 2 ^ 32) a b c ((d + T1) mod 2 ^ 32) e f g.
Fixpoint steps (k w : nat → Z) (n : nat) (v : vars) : vars :=
  match n with O => v | Datatypes.S t => step k w t (steps k w t v) end.
Definition compress (k : nat → Z) (H : list Z) (blk : bytes) : list Z :=
  zip_with (λ x y, (x + y) mod 2 ^ 32) H (of_vars (steps k (W blk) 64 (to_vars H))).
(** The hash of [m] by FIPS 180-4, from the constants [k] and [h]. *)
Definition SHA256 (k : nat → Z) (h : list Z) (m : bytes) : bytes :=
  foldl (compress k) h (message_blocks m) ≫= be_bytes 4.

(* ------------------------------------------------------------------ *)
(** ** Words *)

Definition is32 (x : Z) : Prop := 0 ≤ x < 2 ^ 32.
Lemma u32_is32 x : is32 (u32 x).
Proof. apply Z.mod_pos_bound; lia. Qed.
Lemma mod32_is32 x : is32 (x mod 2 ^ 32).
Proof. apply Z.mod_pos_bound; lia. Qed.
Lemma is32_high x i : is32 x → 32 ≤ i → Z.testbit x i = false.
Proof. intros X I; rewrite <- (Z.mod_small x (2 ^ 32)) by exact X; apply Z.mod_pow2_bits_high; lia. Qed.
Lemma bits_from_range n f : 0 ≤ bits_from n f < 2 ^ Z.of_nat n.
Proof.
  induction n as [|n IH]; cbn [bits_from]; [lia|]; rewrite Nat2Z.inj_succ, Z.pow_succ_r by lia.
  destruct (f (Z.of_nat n)); lia.
Qed.
Lemma bits_from_bit n f i : 0 ≤ i → Z.testbit (bits_from n f) i = (i <? Z.of_nat n) && f i.
Proof.
  intros I; induction n as [|n IH]; cbn [bits_from]; [rewrite Z.bits_0; destruct (Z.ltb_spec i (Z.of_nat 0)); [lia|done]|].
  pose proof (bits_from_range n f) as R.
  assert (bits_from n f + (if f (Z.of_nat n) then 2 ^ Z.of_nat n else 0) =
          Z.lor (Z.shiftl (if f (Z.of_nat n) then 1 else 0) (Z.of_nat n)) (bits_from n f)) as ->.
  { rewrite lor_shiftl_add by lia; destruct (f (Z.of_nat n)); lia. }
  rewrite Z.lor_spec, Z.shiftl_spec, IH by lia.
  destruct (Z.lt_trichotomy i (Z.of_nat n)) as [L|[->|G]].
  - rewrite Z.testbit_neg_r by lia; destruct (Z.ltb_spec i (Z.of_nat n)), (Z.ltb_spec i (Z.of_nat (Datatypes.S n))); lia || done.
  - rewrite Z.sub_diag; destruct (Z.ltb_spec (Z.of_nat n) (Z.of_nat n)), (Z.ltb_spec (Z.of_nat n) (Z.of_nat (Datatypes.S n))); try lia.
    destruct (f (Z.of_nat n)); done.
  - destruct (Z.ltb_spec i (Z.of_nat n)), (Z.ltb_spec i (Z.of_nat (Datatypes.S n))); try lia; rewrite orb_false_r.
    destruct (f (Z.of_nat n)); [|apply Z.bits_0]; change 1 with (2 ^ 0); apply Z.pow2_bits_false; lia.
Qed.
Lemma word_is32 f : is32 (word f).
Proof. apply (bits_from_range 32). Qed.
(** Two words are equal when their bits are. *)
Lemma word_eq x f : is32 x → (∀ i, 0 ≤ i < 32 → Z.testbit x i = f i) → x = word f.
Proof.
  intros X F; apply Z.bits_inj'; intros i I; unfold word; rewrite bits_from_bit by done; change (Z.of_nat 32) with 32.
  destruct (Z.ltb_spec i 32); [by apply F|by apply is32_high].
Qed.
Lemma mod_is32 x : (∀ i, 32 ≤ i → Z.testbit x i = false) → is32 x.
Proof.
  intros H; assert (x = u32 x) as ->; [|apply u32_is32]; apply Z.bits_inj'; intros i I; unfold u32.
  destruct (Z.lt_ge_cases i 32); [by rewrite Z.mod_pow2_bits_low|]; rewrite Z.mod_pow2_bits_high by lia; by apply H.
Qed.
Lemma lor_is32 x y : is32 x → is32 y → is32 (Z.lor x y).
Proof. intros X Y; apply mod_is32; intros i I; by rewrite Z.lor_spec, !is32_high. Qed.
Lemma lxor_is32 x y : is32 x → is32 y → is32 (Z.lxor x y).
Proof. intros X Y; apply mod_is32; intros i I; by rewrite Z.lxor_spec, !is32_high. Qed.
Lemma land_is32 x y : is32 x → is32 (Z.land x y).
Proof. intros X; apply mod_is32; intros i I; by rewrite Z.land_spec, is32_high. Qed.
Lemma shiftr_is32 x n : 0 ≤ n → is32 x → is32 (Z.shiftr x n).
Proof. intros N X; apply mod_is32; intros i I; rewrite Z.shiftr_spec by lia; apply is32_high; [done|lia]. Qed.

Lemma ROR_rotr x n : is32 x → 0 < n < 32 → ROR x n = rotr n x.
Proof.
  intros X N; apply word_eq; [apply lor_is32; [apply shiftr_is32; [lia|done]|apply u32_is32]|]; intros i I; unfold ROR, u32.
  rewrite Z.lor_spec, Z.shiftr_spec, Z.mod_pow2_bits_low, Z.shiftl_spec by lia.
  destruct (Z.lt_ge_cases (i + n) 32) as [L|G].
  - by rewrite (Z.mod_small (i + n)), (Z.testbit_neg_r x (i - (32 - n))), orb_false_r by lia.
  - rewrite (is32_high x (i + n)) by (done || lia); simpl; f_equal.
    apply (Z.mod_unique _ _ 1); lia.
Qed.
Lemma shiftr_shr x n : is32 x → 0 ≤ n → Z.shiftr x n = shr n x.
Proof.
  intros X N; apply word_eq; [by apply shiftr_is32|]; intros i I; rewrite Z.shiftr_spec by lia.
  destruct (Z.ltb_spec (i + n) 32); [done|]; by apply is32_high.
Qed.
Lemma lxor_xor3 x y z : is32 x → is32 y → is32 z → Z.lxor (Z.lxor x y) z = xor3 x y z.
Proof. intros X Y Z; apply word_eq; [by repeat apply lxor_is32|]; intros i I; by rewrite !Z.lxor_spec. Qed.
Lemma ch_Ch x y z : is32 x → Z.lxor (Z.land x y) (Z.land (u32 (Z.lnot x)) z) = Ch x y z.
Proof.
  intros X; apply word_eq; [apply lxor_is32; apply land_is32; [done|apply u32_is32]|]; intros i I; unfold u32.
  rewrite Z.lxor_spec, !Z.land_spec, Z.mod_pow2_bits_low, Z.lnot_spec by lia.
  by destruct (Z.testbit x i), (Z.testbit y i), (Z.testbit z i).
Qed.
Lemma mj_Maj x y z : is32 x → is32 y → Z.lxor (Z.lxor (Z.land x y) (Z.land x z)) (Z.land y z) = Maj x y z.
Proof.
  intros X Y; apply word_eq; [by repeat apply lxor_is32; apply land_is32|]; intros i I; rewrite !Z.lxor_spec, !Z.land_spec.
  by destruct (Z.testbit x i), (Z.testbit y i), (Z.testbit z i).
Qed.
Lemma rotr_is32 n x : is32 (rotr n x).
Proof. apply word_is32. Qed.
Lemma Sigma_rors a b c x : is32 x → 0 < a < 32 → 0 < b < 32 → 0 < c < 32 →
  Z.lxor (Z.lxor (ROR x a) (ROR x b)) (ROR x c) = xor3 (rotr a x) (rotr b x) (rotr c x).
Proof. intros; rewrite !ROR_rotr, lxor_xor3 by (done || apply rotr_is32); done. Qed.
Lemma sigma_rors a b c x : is32 x → 0 < a < 32 → 0 < b < 32 → 0 ≤ c →
  Z.lxor (Z.lxor (ROR x a) (ROR x b)) (Z.shiftr x c) = xor3 (rotr a x) (rotr b x) (shr c x).
Proof. intros; rewrite !ROR_rotr, shiftr_shr, lxor_xor3 by (done || apply word_is32); done. Qed.

(* ------------------------------------------------------------------ *)
(** ** One block *)

Lemma nth_is32 l i : Forall is32 l → is32 (nth i l 0).
Proof.
  intros F; destruct (nth_in_or_default i l 0) as [I| ->]; [|done]; rewrite Forall_forall in F; by apply F, list_elem_of_In.
Qed.
Lemma be_val4 a b c d : be_val [a; b; c; d] =
  Z.lor (Z.lor (Z.lor (Z.shiftl (ord a) 24) (Z.shiftl (ord b) 16)) (Z.shiftl (ord c) 8)) (ord d).
Proof.
  pose proof (ord_range a); pose proof (ord_range b); pose proof (ord_range c); pose proof (ord_range d).
  rewrite <- !Z.lor_assoc, (lor_shiftl_add (ord c) (ord d) 8), (lor_shiftl_add (ord b) _ 16), (lor_shiftl_add (ord a) _ 24) by lia.
  unfold be_val; simpl; lia.
Qed.
Lemma load_words blk : length blk = 64%nat → map (load blk) (seq 0 16) = words blk.
Proof.
  intros L; unfold words; apply map_ext_in; intros i [_ I]%in_seq.
  assert (take 4 (drop (4 * i) blk) = map (λ j, nth (i * 4 + j) blk zero) [0; 1; 2; 3]%nat) as ->; [|cbn [map]; by rewrite be_val4].
  apply list_eq; intros j; destruct (Nat.lt_ge_cases j 4).
  - rewrite lookup_take_lt, lookup_drop by done.
    assert (∃ x, blk !! (4 * i + j)%nat = Some x) as [x E] by (apply lookup_lt_is_Some; lia).
    rewrite E; assert (nth (i * 4 + j) blk zero = x) as N.
    { apply nth_lookup_Some; by replace (i * 4 + j)%nat with (4 * i + j)%nat by lia. }
    destruct j as [|[|[|[|]]]]; simpl; try lia; by rewrite N.
  - rewrite !lookup_ge_None_2; [done|simpl; lia|rewrite length_take; lia].
Qed.
Lemma words_is32 blk : Forall is32 (words blk).
Proof.
  apply Forall_forall; intros x X%list_elem_of_In; apply in_map_iff in X as (i & <- & _).
  pose proof (be_val_range (take 4 (drop (4 * i) blk))) as R; rewrite length_take in R; unfold is32.
  split; [lia|]; eapply Z.lt_le_trans; [apply R|]; change (2 ^ 32) with (256 ^ 4); apply Z.pow_le_mono_r; lia.
Qed.
Lemma length_W_upto ws n : length (W_upto ws n) = n.
Proof. induction n as [|n IH]; simpl; [done|]; rewrite length_app, IH; simpl; lia. Qed.
Lemma W_upto_is32 ws n : Forall is32 ws → Forall is32 (W_upto ws n).
Proof.
  intros F; induction n as [|n IH]; cbn [W_upto]; [done|]; apply Forall_app_2; [done|]; apply Forall_singleton.
  destruct (n <? 16)%nat; [by apply nth_is32|apply mod32_is32].
Qed.
Lemma W_upto_take ws n : length ws = 16%nat → (n ≤ 16)%nat → W_upto ws n = take n ws.
Proof.
  intros L N; induction n as [|n IH]; cbn [W_upto]; [done|]; rewrite IH by lia.
  destruct (Nat.ltb_spec n 16); [|lia]; destruct (lookup_lt_is_Some_2 ws n ltac:(lia)) as [x X].
  by rewrite (nth_lookup_Some _ _ _ _ X), (take_S_r _ _ _ X).
Qed.
Lemma length_words blk : length (words blk) = 16%nat.
Proof. unfold words; by rewrite length_map, length_seq. Qed.
Lemma W_upto_words blk : W_upto (words blk) 16 = words blk.
Proof. rewrite W_upto_take by (apply length_words || lia); apply take_ge; by rewrite length_words. Qed.
Lemma W_upto_nth ws n t : (t < n)%nat → nth t (W_upto ws n) 0 = nth t (W_upto ws (Datatypes.S t)) 0.
Proof.
  intros T; induction n as [|n IH]; [lia|]; destruct (Nat.eq_dec t n) as [->|]; [done|].
  cbn [W_upto]; rewrite app_nth1 by (rewrite length_W_upto; lia); rewrite IH by lia; by cbn [W_upto].
Qed.
Lemma expand_W blk n : (16 ≤ n)%nat → expand (W_upto (words blk) n) n = W_upto (words blk) (Datatypes.S n).
Proof.
  intros N; pose proof (W_upto_is32 (words blk) n (words_is32 blk)) as F; unfold expand.
  rewrite !sigma_rors by (by apply nth_is32 || lia).
  cbn [W_upto]; destruct (Nat.ltb_spec n 16); [lia|]; do 2 f_equal; unfold u32, sigma0, sigma1.
  repeat match goal with |- context [xor3 ?x ?y ?z] => generalize (xor3 x y z); intro end.
  repeat match goal with |- context [nth ?i ?l 0] => generalize (nth i l 0); intro end.
  f_equal; lia.
Qed.
Lemma expand_all blk n : foldl expand (W_upto (words blk) 16) (seq 16 n) = W_upto (words blk) (16 + n).
Proof.
  induction n as [|n IH]; [done|]; rewrite seq_S, foldl_app, IH, Nat.add_succ_r; cbn [foldl]; apply expand_W; lia.
Qed.
Lemma schedule_W blk : length blk = 64%nat → schedule blk = W_upto (words blk) 64.
Proof. intros L; unfold schedule; by rewrite load_words, <- (W_upto_words blk), expand_all, W_upto_words. Qed.

Definition in32 (v : vars) : Prop :=
  is32 (va v) ∧ is32 (vb v) ∧ is32 (vc v) ∧ is32 (vd v) ∧ is32 (ve v) ∧ is32 (vf v) ∧ is32 (vg v) ∧ is32 (vh v).
Lemma round_step w v i : in32 v → round w v i = step (λ t, nth t K 0) (λ t, nth t w 0) i v.
Proof.
  intros (A & B & C & D & E & F & G & H); destruct v as [a b c d e f g h]; cbn [va vb vc vd ve vf vg vh] in *.
  unfold round, step; rewrite !Sigma_rors by (assumption || lia); rewrite ch_Ch, mj_Maj by assumption.
  unfold Sigma0, Sigma1, u32; reflexivity.
Qed.
Lemma step_in32 k w t v : in32 v → in32 (step k w t v).
Proof.
  intros (A & B & C & D & E & F & G & H); destruct v as [a b c d e f g h]; cbn [va vb vc vd ve vf vg vh] in *.
  unfold step, in32; cbn [va vb vc vd ve vf vg vh]; split_and!; done || apply mod32_is32.
Qed.
Lemma steps_in32 k w n v : in32 v → in32 (steps k w n v).
Proof. intros I; induction n as [|n IH]; [done|]; cbn [steps]; by apply step_in32. Qed.
Lemma steps_ext k k' w w' n v : (∀ t, (t < n)%nat → k t = k' t ∧ w t = w' t) → steps k w n v = steps k' w' n v.
Proof.
  induction n as [|n IH]; cbn [steps]; intros E; [done|]; rewrite IH by (intros; apply E; lia).
  destruct (E n ltac:(lia)) as [Ek Ew]; unfold step; by rewrite Ek, Ew.
Qed.
Lemma rounds_steps w v n : in32 v → foldl (round w) v (seq 0 n) = steps (λ t, nth t K 0) (λ t, nth t w 0) n v.
Proof.
  intros I; induction n as [|n IH]; [done|]; rewrite seq_S, foldl_app, IH; cbn [foldl steps Nat.add].
  by apply round_step, steps_in32.
Qed.
Definition good_state (s : list Z) : Prop := length s = 8%nat ∧ Forall is32 s.
Lemma to_vars_in32 s : good_state s → in32 (to_vars s).
Proof. intros [_ F]; unfold to_vars, in32; cbn [va vb vc vd ve vf vg vh]; split_and!; by apply nth_is32. Qed.
Lemma compress_good k s blk : good_state s → good_state (compress k s blk).
Proof.
  intros [L F]; unfold compress; set (v := steps _ _ _ _); clearbody v; unfold good_state.
  rewrite length_zip_with, L; split; [done|]; apply Forall_forall; intros x X.
  apply list_elem_of_lookup in X as [i X]; apply lookup_zip_with_Some in X as (y & z & -> & _); apply mod32_is32.
Qed.
Definition constants (k : nat → Z) : Prop := ∀ t, (t < 64)%nat → k t = nth t K 0.
Lemma transform_compress k s blk : constants k → good_state s → length blk = 64%nat → transform s blk = compress k s blk.
Proof.
  intros C G L; unfold transform, compress; rewrite rounds_steps by by apply to_vars_in32.
  f_equal; f_equal; rewrite schedule_W by done; apply steps_ext; intros t T; split; [symmetry; by apply C|].
  unfold W; by apply W_upto_nth.
Qed.

(* ------------------------------------------------------------------ *)
(** ** Streams *)

Lemma blocks_app q n a b : length a = (64 * q)%nat → blocks (q + n) (a ++ b) = blocks q a ++ blocks n b.
Proof.
  revert a; induction q as [|q IH]; intros a L; [by destruct a; [|simpl in L; lia]|]; cbn [Nat.add blocks app].
  rewrite take_app_le, drop_app_le by lia; f_equal; apply IH; rewrite length_drop; lia.
Qed.
Lemma blocks_one a : length a = 64%nat → blocks 1 a = [a].
Proof. intros L; cbn [blocks]; by rewrite take_ge by lia. Qed.
Definition run (s : list Z) (q : nat) (m : bytes) : list Z := foldl transform s (blocks q m).
Lemma run_snoc s q a b : length a = (64 * q)%nat → length b = 64%nat → run s (q + 1) (a ++ b) = transform (run s q a) b.
Proof. intros L B; unfold run; by rewrite blocks_app, foldl_app, blocks_one. Qed.

(** [c] has taken [d]: whole blocks into the state, the rest into the buffer. *)
Definition absorbed (c : sha256_ctx) (d : bytes) : Prop := ∃ q full rest,
  d = full ++ rest ∧ length full = (64 * q)%nat ∧ (length rest < 64)%nat ∧ buflen c = length rest ∧
  take (length rest) (buf c) = rest ∧ length (buf c) = 64%nat ∧ state c = run H0 q full ∧
  bitlen c = (8 * Z.of_nat (length d)) mod 2 ^ 64.
Lemma store_spec b i p : length b = 64%nat → (i + length p ≤ 64)%nat →
  length (store b i p) = 64%nat ∧ take (i + length p) (store b i p) = take i b ++ p.
Proof.
  intros L I; unfold store; split; [rewrite !length_app, length_take, length_drop; lia|].
  rewrite app_assoc, take_app_le by (rewrite length_app, length_take; lia); apply take_ge; rewrite length_app, length_take; lia.
Qed.
Lemma update_step_absorbed c d p : absorbed c d → (length p ≤ 64 - buflen c)%nat → absorbed (update_step c p) (d ++ p).
Proof.
  intros (q & full & rest & -> & Lf & Lr & Bl & Tk & Lb & St & Bits) P; rewrite Bl in P.
  destruct (store_spec (buf c) (length rest) p Lb ltac:(lia)) as [Ls Ts]; rewrite Tk in Ts.
  assert ((bitlen c + Z.of_nat (length p) * 8) mod 2 ^ 64 = (8 * Z.of_nat (length ((full ++ rest) ++ p))) mod 2 ^ 64) as B'.
  { rewrite Bits, Z.add_mod_idemp_l by lia; f_equal; rewrite !length_app; lia. }
  unfold update_step; rewrite Bl, B'; case_decide as F.
  - exists (q + 1)%nat, (full ++ rest ++ p), []; cbn [state buf buflen bitlen].
    split_and!; [by rewrite app_nil_r, <- app_assoc|rewrite !length_app; lia|simpl; lia|done|done|done| |done].
    rewrite run_snoc by (done || by rewrite length_app); rewrite St; f_equal.
    rewrite <- Ts; symmetry; apply take_ge; lia.
  - exists q, full, (rest ++ p); cbn [state buf buflen bitlen].
    split_and!; rewrite ?length_app; try done; [by rewrite <- app_assoc|lia].
Qed.
Lemma buflen_lt c d : absorbed c d → (buflen c < 64)%nat.
Proof. intros (? & ? & ? & ? & ? & ? & -> & _); done. Qed.
Lemma update_loop_absorbed fuel c d data : absorbed c d → (length data ≤ fuel)%nat →
  ∃ c', update_loop fuel c data = Some c' ∧ absorbed c' (d ++ data).
Proof.
  revert c d data; induction fuel as [|fuel IH]; intros c d data A L.
  { destruct data; [|simpl in L; lia]; exists c; by rewrite app_nil_r. }
  destruct data as [|x data']; [exists c; by rewrite app_nil_r|].
  pose proof (buflen_lt c d A) as B; cbn [update_loop]; set (data := x :: data') in *.
  set (tk := Nat.min (length data) (64 - buflen c)).
  assert (0 < tk ≤ length data)%nat as T by (unfold tk, data; cbn [length]; lia).
  destruct (IH (update_step c (take tk data)) (d ++ take tk data) (drop tk data)) as (c' & E & A').
  - apply update_step_absorbed; [done|]; rewrite length_take; unfold tk; lia.
  - rewrite length_drop; unfold data in *; simpl in *; lia.
  - exists c'; split; [done|]; by rewrite <- app_assoc, take_drop in A'.
Qed.
Lemma updates_absorbed c d chunks : absorbed c d → ∃ c', updates c chunks = Some c' ∧ absorbed c' (d ++ concat chunks).
Proof.
  revert c d; induction chunks as [|p chunks IH]; intros c d A; cbn [updates concat]; [exists c; by rewrite app_nil_r|].
  destruct (update_loop_absorbed (length p) c d p A ltac:(lia)) as (c1 & E & A1); unfold sha256_update; rewrite E.
  destruct (IH c1 (d ++ p) A1) as (c2 & E2 & A2); exists c2; split; [done|]; by rewrite app_assoc.
Qed.

(* ------------------------------------------------------------------ *)
(** ** Padding *)

Lemma puts_spec c l : length (buf c) = 64%nat → (buflen c + length l ≤ 64)%nat →
  let c' := foldl put_byte c l in
  state c' = state c ∧ bitlen c' = bitlen c ∧ buflen c' = (buflen c + length l)%nat ∧ length (buf c') = 64%nat ∧
  take (buflen c') (buf c') = take (buflen c) (buf c) ++ l.
Proof.
  revert c; induction l as [|x l IH]; intros c L I; cbn [foldl]; [cbv zeta; split_and!; rewrite ?app_nil_r, ?Nat.add_0_r; done|].
  simpl in I; destruct (IH (put_byte c x)) as (S & B & N & Lb & T); [by simpl; rewrite length_insert|simpl; lia|].
  cbv zeta; rewrite S, B, T, Lb, N; cbn [state bitlen buf buflen put_byte length].
  split_and!; try done; [lia|].
  rewrite Nat.add_1_r, (take_S_r _ _ x) by (apply list_lookup_insert_eq; lia).
  by rewrite take_insert_ge, <- app_assoc by lia.
Qed.
Lemma iter_puts n c : Nat.iter n (λ c, put_byte c zero) c = foldl put_byte c (repeat zero n).
Proof.
  revert c; induction n as [|n IH]; intros c; [done|]; cbn [repeat foldl]; rewrite <- IH.
  clear IH; induction n as [|n IH]; [done|]; simpl in *; by rewrite IH.
Qed.
Lemma chr_land z : chr (Z.land z 255) = chr (z mod 256).
Proof. change 255 with (Z.ones 8); by rewrite Z.land_ones by lia. Qed.
Lemma shiftr_byte z n : 0 ≤ n → chr (Z.land (Z.shiftr z n) 0xff) = chr ((z / 2 ^ n) mod 256).
Proof. intros N; by rewrite chr_land, Z.shiftr_div_pow2. Qed.
Lemma be_bytes_4 z : be_bytes 4 z = map (λ n, chr (Z.land (Z.shiftr z n) 0xff)) [24; 16; 8; 0].
Proof.
  cbn [map]; rewrite !shiftr_byte by lia; cbn [be_bytes app]; rewrite !Z.div_div by lia.
  by rewrite Z.pow_0_r, Z.div_1_r.
Qed.
Lemma be_bytes_8 z : be_bytes 8 z = map (length_byte z) [7; 6; 5; 4; 3; 2; 1; 0]%nat.
Proof.
  unfold length_byte; cbn [map]; rewrite !shiftr_byte by lia; cbn [be_bytes app]; rewrite !Z.div_div by lia.
  repeat f_equal; simpl; by rewrite Z.div_1_r.
Qed.
Lemma digest_be s : digest_of s = s ≫= be_bytes 4.
Proof. unfold digest_of; induction s as [|x s IH]; [done|]; cbn [mbind list_bind]; by rewrite IH, be_bytes_4. Qed.
Lemma fill_puts n c : fill_to n c = foldl put_byte c (repeat zero (n - buflen c)).
Proof. apply iter_puts. Qed.
Lemma length_puts c idx :
  foldl (λ c i, put_byte c (length_byte (bitlen c) i)) c idx = foldl put_byte c (map (length_byte (bitlen c)) idx).
Proof. revert c; induction idx as [|i idx IH]; intros c; [done|]; cbn [foldl map]; by rewrite IH. Qed.
(** The bytes [l] that fill the buffer up make one block of it. *)
Lemma flush_puts c l : length (buf c) = 64%nat → (buflen c + length l)%nat = 64%nat →
  state (flush (foldl put_byte c l)) = transform (state c) (take (buflen c) (buf c) ++ l) ∧
  bitlen (flush (foldl put_byte c l)) = bitlen c ∧ buflen (flush (foldl put_byte c l)) = 0%nat ∧
  length (buf (flush (foldl put_byte c l))) = 64%nat.
Proof.
  intros L N; destruct (puts_spec c l L ltac:(lia)) as (S & B & Bl & Lb & T); unfold flush; cbn [state bitlen buf buflen].
  rewrite Bl, N, take_ge in T by lia; split_and!; try done; by rewrite S, T.
Qed.
Lemma final_short c : length (buf c) = 64%nat → (buflen c < 56)%nat →
  sha256_final c = digest_of (transform (state c) (take (buflen c) (buf c) ++
    "128"%char :: repeat zero (55 - buflen c) ++ be_bytes 8 (bitlen c))).
Proof.
  intros L N; unfold sha256_final; rewrite length_puts, !fill_puts.
  destruct (puts_spec c ["128"%char] L ltac:(simpl; lia)) as (S & B & Bl & Lb & T); cbn [foldl] in *.
  cbn [length] in Bl; rewrite Bl; destruct (Nat.ltb_spec 56 (buflen c + 1)); [lia|]; rewrite Bl.
  assert (bitlen (foldl put_byte (put_byte c "128"%char) (repeat zero (56 - (buflen c + 1)))) = bitlen c) as ->.
  { destruct (puts_spec (put_byte c "128"%char) (repeat zero (56 - (buflen c + 1))) Lb) as (_ & -> & _); [|done].
    rewrite Bl, repeat_length; lia. }
  rewrite <- be_bytes_8, <- foldl_app; change (put_byte c "128"%char) with (foldl put_byte c ["128"%char]); rewrite <- foldl_app.
  destruct (flush_puts c (["128"%char] ++ repeat zero (56 - (buflen c + 1)) ++ be_bytes 8 (bitlen c)) L) as (-> & _).
  { rewrite !length_app, repeat_length, length_be_bytes; simpl; lia. }
  by replace (56 - (buflen c + 1))%nat with (55 - buflen c)%nat by lia.
Qed.
Lemma final_long c : length (buf c) = 64%nat → (56 ≤ buflen c < 64)%nat →
  sha256_final c = digest_of (transform (transform (state c) (take (buflen c) (buf c) ++ "128"%char :: repeat zero (63 - buflen c)))
    (repeat zero 56 ++ be_bytes 8 (bitlen c))).
Proof.
  intros L N; unfold sha256_final; rewrite length_puts, !fill_puts.
  destruct (puts_spec c ["128"%char] L ltac:(simpl; lia)) as (S & B & Bl & Lb & T); cbn [foldl] in *.
  cbn [length] in Bl; rewrite Bl; destruct (Nat.ltb_spec 56 (buflen c + 1)); [|lia].
  change (put_byte c "128"%char) with (foldl put_byte c ["128"%char]).
  rewrite <- !(foldl_app put_byte ["128"%char] (repeat zero (64 - (buflen c + 1))) c).
  destruct (flush_puts c (["128"%char] ++ repeat zero (64 - (buflen c + 1))) L) as (S1 & B1 & Bl1 & L1).
  { rewrite !length_app, repeat_length; simpl; lia. }
  rewrite Bl1, Nat.sub_0_r; set (c1 := flush _) in *.
  assert (bitlen (foldl put_byte c1 (repeat zero 56)) = bitlen c) as ->.
  { destruct (puts_spec c1 (repeat zero 56) L1) as (_ & -> & _); [rewrite Bl1; simpl; lia|done]. }
  rewrite <- be_bytes_8, <- foldl_app.
  destruct (flush_puts c1 (repeat zero 56 ++ be_bytes 8 (bitlen c)) L1) as (-> & _).
  { rewrite Bl1, length_app, repeat_length, length_be_bytes; lia. }
  rewrite S1, Bl1, take_0; by replace (64 - (buflen c + 1))%nat with (63 - buflen c)%nat by lia.
Qed.
Lemma padding_zeros n q r : n = (64 * q + r)%nat → (r < 64)%nat →
  Z.to_nat ((55 - Z.of_nat n) mod 64) = (if (r <? 56)%nat then 55 - r else 119 - r)%nat.
Proof.
  intros -> R; rewrite Nat2Z.inj_add, Nat2Z.inj_mul; destruct (Nat.ltb_spec r 56).
  - replace (55 - (Z.of_nat 64 * Z.of_nat q + Z.of_nat r)) with ((55 - Z.of_nat r) + (- Z.of_nat q) * 64) by lia.
    rewrite Z.mod_add, Z.mod_small by lia; lia.
  - replace (55 - (Z.of_nat 64 * Z.of_nat q + Z.of_nat r)) with ((119 - Z.of_nat r) + (- Z.of_nat q - 1) * 64) by lia.
    rewrite Z.mod_add, Z.mod_small by lia; lia.
Qed.
Lemma final_absorbed c m : absorbed c m → 8 * Z.of_nat (length m) < 2 ^ 64 →
  sha256_final c = foldl transform H0 (message_blocks m) ≫= be_bytes 4.
Proof.
  intros (q & full & rest & E & Lf & Lr & Bl & Tk & Lb & St & Bits) Small; rewrite Z.mod_small in Bits by lia.
  assert (length m = (64 * q + length rest)%nat) as Lm by (subst m; rewrite length_app; lia).
  unfold message_blocks, padding; rewrite (padding_zeros _ _ _ Lm Lr), <- Bits, <- digest_be.
  destruct (Nat.ltb_spec (length rest) 56) as [Sh|Lg].
  - rewrite final_short, Bl, Tk, St by (done || lia); f_equal.
    set (b := rest ++ _); assert (length b = 64%nat) as L64.
    { unfold b; rewrite length_app; cbn [length]; rewrite length_app, repeat_length, length_be_bytes; lia. }
    rewrite E, <- app_assoc; fold b.
    replace (length (full ++ b) / 64)%nat with (q + 1)%nat; [by rewrite blocks_app, foldl_app, blocks_one|].
    rewrite length_app, Lf, L64; apply Nat.div_unique_exact; lia.
  - rewrite final_long, Bl, Tk, St by (done || lia); f_equal.
    replace (119 - length rest)%nat with (63 - length rest + 56)%nat by lia.
    rewrite repeat_app, <- app_assoc, app_comm_cons, E, <- app_assoc, (app_assoc rest).
    set (b1 := rest ++ _); set (b2 := repeat zero 56 ++ _).
    assert (length b1 = 64%nat) as L1 by (unfold b1; rewrite length_app; cbn [length]; rewrite repeat_length; lia).
    assert (length b2 = 64%nat) as L2 by (unfold b2; by rewrite length_app, repeat_length, length_be_bytes).
    replace (length (full ++ b1 ++ b2) / 64)%nat with (q + (1 + 1))%nat.
    + by rewrite blocks_app, foldl_app, blocks_app, foldl_app, !blocks_one.
    + rewrite !length_app, Lf, L1, L2; apply Nat.div_unique_exact; lia.
Qed.

(* ------------------------------------------------------------------ *)
(** ** The constants *)

Lemma root_unique k p r r' : 0 < k → root_floor k p r → root_floor k p r' → r = r'.
Proof.
  intros K0 [R [A B]] [R' [A' B']].
  destruct (Z.lt_trichotomy r r') as [L|[E|L]]; [exfalso|done|exfalso].
  - pose proof (Z.pow_le_mono_l (r + 1) r' k ltac:(lia)); lia.
  - pose proof (Z.pow_le_mono_l (r' + 1) r k ltac:(lia)); lia.
Qed.
Lemma fraction_unique k p c c' : 0 < k → fraction_of_root k p c → fraction_of_root k p c' → c = c'.
Proof. intros K0 (r & R & ->) (r' & R' & ->); by rewrite (root_unique k p r r'). Qed.
(** The root is found from its fraction and its integer part. *)
Definition check_fraction (k p c : Z) : bool :=
  existsb (λ n, let r := n * 2 ^ 32 + c in (r ^ k <=? p * 2 ^ (32 * k)) && (p * 2 ^ (32 * k) <? (r + 1) ^ k))
    (map Z.of_nat (seq 0 20)).
Lemma check_fraction_sound k p c : is32 c → check_fraction k p c = true → fraction_of_root k p c.
Proof.
  intros C (n & N & E)%existsb_exists; apply andb_true_iff in E as [A%Z.leb_le B%Z.ltb_lt].
  apply in_map_iff in N as (n' & <- & _); exists (Z.of_nat n' * 2 ^ 32 + c); split; [split; [unfold is32 in C; lia|done]|].
  by rewrite Z.add_comm, Z.mod_add, Z.mod_small by (exact C || lia).
Qed.
Lemma K_fractions t : (t < 64)%nat → fraction_of_root 3 (nth t primes 0) (nth t K 0).
Proof.
  intros T; assert (forallb (λ t, (0 <=? nth t K 0) && (nth t K 0 <? 2 ^ 32) && check_fraction 3 (nth t primes 0) (nth t K 0)) (seq 0 64) = true) as C
    by by vm_compute.
  rewrite forallb_forall in C; specialize (C t ltac:(by apply in_seq; lia)); apply andb_true_iff in C as [[A%Z.leb_le B%Z.ltb_lt]%andb_true_iff C].
  by apply check_fraction_sound.
Qed.
Lemma H0_fractions i : (i < 8)%nat → fraction_of_root 2 (nth i primes 0) (nth i H0 0).
Proof.
  intros T; assert (forallb (λ t, (0 <=? nth t H0 0) && (nth t H0 0 <? 2 ^ 32) && check_fraction 2 (nth t primes 0) (nth t H0 0)) (seq 0 8) = true) as C
    by by vm_compute.
  rewrite forallb_forall in C; specialize (C i ltac:(by apply in_seq; lia)); apply andb_true_iff in C as [[A%Z.leb_le B%Z.ltb_lt]%andb_true_iff C].
  by apply check_fraction_sound.
Qed.
(** The constants of the standard. *)
Definition fips_constants (k : nat → Z) (h : list Z) : Prop :=
  (∀ t, (t < 64)%nat → fraction_of_root 3 (nth t primes 0) (k t)) ∧
  length h = 8%nat ∧ ∀ i, (i < 8)%nat → fraction_of_root 2 (nth i primes 0) (nth i h 0).
Lemma fips_determined k h : fips_constants k h → constants k ∧ h = H0.
Proof.
  intros (Fk & L & Fh); split.
  - intros t T; eapply fraction_unique; [|by apply Fk|by apply K_fractions]; lia.
  - apply list_eq; intros i; destruct (Nat.lt_ge_cases i 8).
    + destruct (lookup_lt_is_Some_2 h i ltac:(lia)) as [x X], (lookup_lt_is_Some_2 H0 i ltac:(simpl; lia)) as [y Y].
      rewrite X, Y; f_equal; rewrite <- (nth_lookup_Some _ _ 0 _ X), <- (nth_lookup_Some _ _ 0 _ Y).
      eapply fraction_unique; [|by apply Fh|by apply H0_fractions]; lia.
    + rewrite !lookup_ge_None_2; [done|simpl; lia|lia].
Qed.
Lemma H0_good : good_state H0.
Proof. split; [done|]; unfold H0; repeat (apply Forall_cons; split; [unfold is32; lia|]); constructor. Qed.
Lemma blocks_64 n m : (64 * n ≤ length m)%nat → Forall (λ b, length b = 64%nat) (blocks n m).
Proof.
  revert m; induction n as [|n IH]; intros m L; cbn [blocks]; constructor; [rewrite length_take; lia|].
  apply IH; rewrite length_drop; lia.
Qed.
Lemma fold_compress k s bs : constants k → good_state s → Forall (λ b, length b = 64%nat) bs → foldl transform s bs = foldl (compress k) s bs.
Proof.
  intros C G F; revert s G; induction F as [|b bs L F IH]; intros s G; [done|]; cbn [foldl].
  rewrite (transform_compress k) by done; by apply IH, compress_good.
Qed.

(** C28: What the daemon computes is SHA-256: initialising, any number of updates
    of any sizes, and finishing gives the hash FIPS 180-4 defines of the data put
    together, for the constants the standard takes from the roots of the primes,
    as long as the data is below the [2 ^ 64] bits the standard allows; no loop of
    [sha256_update] goes on for more turns than there are bytes. *)
Theorem sha256_is_fips k h garbage chunks : fips_constants k h → length garbage = 64%nat →
  8 * Z.of_nat (length (concat chunks)) < 2 ^ 64 → sha256 garbage chunks = Some (SHA256 k h (concat chunks)).
Proof.
  intros [C ->]%fips_determined L Small; unfold sha256.
  destruct (updates_absorbed (sha256_init garbage) [] chunks) as (c & -> & A).
  { exists 0%nat, [], []; split_and!; done || (simpl; lia). }
  cbn [app] in A; cbn [fmap option_fmap option_map]; rewrite (final_absorbed c (concat chunks) A Small); unfold SHA256.
  rewrite (fold_compress k) by (done || apply H0_good || (apply blocks_64; apply Nat.Div0.mul_div_le)); done.
Qed.
(** Three updates of four bytes, and of more than a block. *)
Definition ex_chunks : list bytes := [txt "a"; txt "bc"; []; repeat "d"%char 130]%string.
Lemma sha256_is_fips_witness :
  (∃ k h, fips_constants k h) ∧ sha256 (repeat zero 64) ex_chunks = Some (SHA256 (λ t, nth t K 0) H0 (concat ex_chunks)).
Proof.
  assert (fips_constants (λ t, nth t K 0) H0) as F by (split_and!; [apply K_fractions|done|apply H0_fractions]).
  split; [by eexists _, _|]; apply (sha256_is_fips (λ t, nth t K 0) H0 (repeat zero 64) ex_chunks F); [reflexivity|].
  by vm_compute.
Defined.
(** The examples of the standard. *)
Example sha256_abc : tohex <$> sha256 (repeat zero 64) [txt "abc"%string] =
  Some (txt "ba7816bf8f01cfea414140de5dae2223b00361a396177a9cb410ff61f20015ad").
Proof. vm_compute. reflexivity. Qed.
Example sha256_empty : tohex <$> sha256 (repeat zero 64) [] =
  Some (txt "e3b0c44298fc1c149afbf4c8996fb92427ae41e4649b934ca495991b7852b855").
Proof. vm_compute. reflexivity. Qed.
Example sha256_two_blocks : tohex <$> sha256 (repeat zero 64) [txt "abcdbcdecdefdefgefghfghighij"; txt "hijkijkljklmklmnlmnomnopnopq"]%string =
  Some (txt "248d6a61d20638b8e5c026930c3e6039a33ce45964ff2167f6ecedd419db06c1").
Proof. vm_compute. reflexivity. Qed.
