(* ===== verification/Jobs.v ===== *)
(** * Jobs on the daemon: [mcpd/src/jobs.c] and [methods/exec.c]

    The table of commands MCPd has started, shared by its connection workers, and
    the processes the system runs for them.  What a worker does while it holds the
    table's semaphore is one step; between the steps anything may happen: other
    workers' steps, processes that start, end, or do not start at all.  Times,
    memory figures and the contents of output files are left out. *)
From S2P Require Import Prelude Py Bytes.

Definition JOB_SLOTS : nat := 32.
Definition JOB_DEFAULT_PRI : Z := -2.
Definition JOB_MIN_PRI : Z := -20.
Definition WORKER_PRI : Z := 1.
Definition jobs_max_priority : Z := WORKER_PRI - 1.
Definition jobs_default_priority : Z := if JOB_DEFAULT_PRI <? jobs_max_priority then JOB_DEFAULT_PRI else jobs_max_priority.
Definition clamp (p : Z) : Z :=
  let p := if jobs_max_priority <? p then jobs_max_priority else p in
  if p <? JOB_MIN_PRI then JOB_MIN_PRI else p.

Inductive job_state := JOB_RUNNING | JOB_EXITED.
#[export] Instance job_state_eq_dec : EqDecision job_state.
Proof. solve_decision. Defined.
(** [struct job]; [rc] and [result2] are those of its death message. *)
Record job := Job {
  in_use : bool; id : Z; state : job_state; pid : Z; started : bool; priority : Z; signals_sent : Z;
  output_deleted : bool; sandboxed : bool; rc : Z; result2 : Z; command : text }.
Definition out_path (j : job) : text := txt "T:mcpd_job_" ++ show_int (id j) ++ txt ".out".
(** A process: its id, and the slot whose [job_entry] it runs, if any. *)
Record process := Process { p_pid : Z; p_job : option nat }.
#[export] Instance process_eq_dec : EqDecision process.
Proof. solve_decision. Defined.
(** The table, the next id, the slots whose death messages wait at the port, the
    processes there are, and the slots that were claimed for a command that was not
    started yet.  The logs are ghosts: signals sent to processes, the codes jobs
    ended with, the files deleted, and how many jobs there were. *)
Record daemon := Daemon {
  jobs : list job; next_id : Z; port : list nat; procs : list process; launching : list nat;
  signalled : list (Z * Z); ended : list (Z * Z); deleted : list text; starts : Z }.

Definition with_jobs (f : list job → list job) (s : daemon) : daemon :=
  Daemon (f (jobs s)) (next_id s) (port s) (procs s) (launching s) (signalled s) (ended s) (deleted s) (starts s).
Definition with_launching (f : list nat → list nat) (s : daemon) : daemon :=
  Daemon (jobs s) (next_id s) (port s) (procs s) (f (launching s)) (signalled s) (ended s) (deleted s) (starts s).
Definition delete (path : text) (s : daemon) : daemon :=
  Daemon (jobs s) (next_id s) (port s) (procs s) (launching s) (signalled s) (ended s) (deleted s ++ [path]) (starts s).
Definition on_slot (i : nat) (f : job → job) (s : daemon) : daemon := with_jobs (alter f i) s.
(** [_drain_locked] *)
Definition set_exited (j : job) : job :=
  Job (in_use j) (id j) JOB_EXITED (pid j) (started j) (priority j) (signals_sent j) (output_deleted j) (sandboxed j)
    (rc j) (result2 j) (command j).
Definition drain (s : daemon) : daemon :=
  let t := foldl (λ l i, alter set_exited i l) (jobs s) (port s) in
  Daemon t (next_id s) [] (procs s) (launching s) (signalled s) (ended s) (deleted s) (starts s).
(** [_find_locked] *)
Fixpoint find_from (i : nat) (n : Z) (l : list job) : option nat :=
  match l with
  | [] => None
  | j :: l => if in_use j && (id j =? n) then Some i else find_from (Datatypes.S i) n l
  end.
Definition find (n : Z) (s : daemon) : option nat := find_from 0 n (jobs s).
(** [_claim_slot_locked]: a free slot, or the finished job of the least id. *)
Fixpoint claim_from (i : nat) (oldest : option (nat * job)) (l : list job) : nat + option (nat * job) :=
  match l with
  | [] => inr oldest
  | j :: l =>
      if negb (in_use j) then inl i
      else claim_from (Datatypes.S i)
             (if decide (state j = JOB_EXITED)
              then match oldest with Some (_, o) => if id j <? id o then Some (i, j) else oldest | None => Some (i, j) end
              else oldest) l
  end.
Definition claim_slot (s : daemon) : option nat * daemon :=
  match claim_from 0 None (jobs s) with
  | inl i => (Some i, s)
  | inr (Some (i, j)) => (Some i, if output_deleted j then s else delete (out_path j) s)
  | inr None => (None, s)
  end.
(** The part of [jobs_start] that holds the semaphore: the slot and the id, or a
    refusal. *)
Definition begin_job (cmd : text) (pri : Z) (sb : bool) (s : daemon) : option (nat * Z) * daemon :=
  match claim_slot (drain s) with
  | (None, s) => (None, s)
  | (Some i, s) =>
      let n := next_id s in
      let j := Job true n JOB_RUNNING 0 false (clamp pri) 0 false sb (-1) 0 (take 95 cmd) in
      (Some (i, n), Daemon (<[i := j]> (jobs s)) ((n + 1) mod 2 ^ 32) (port s) (procs s) (launching s ++ [i])
                      (signalled s) (ended s) (deleted s) (starts s + 1))
  end.
(** The output file an earlier job of this name may have left is deleted first.  If
    it cannot be created, or the command not started, the slot is given back. *)
Definition set_free (j : job) : job :=
  Job false (id j) (state j) (pid j) (started j) (priority j) (signals_sent j) (output_deleted j) (sandboxed j)
    (rc j) (result2 j) (command j).
Definition without (i : nat) (l : list nat) : list nat := List.filter (λ k, negb (k =? i)%nat) l.
Definition delete_own (i : nat) (s : daemon) : daemon :=
  match jobs s !! i with Some j => delete (out_path j) s | None => s end.
Definition give_back (i : nat) (s : daemon) : daemon := on_slot i set_free (with_launching (without i) s).
(** [SystemTags] starts the process; [job_entry] runs in it; it ends, and DOS puts
    its code into the record's message and the message to the port. *)
Definition spawn (i : nat) (p : Z) (s : daemon) : daemon :=
  Daemon (jobs s) (next_id s) (port s) (procs s ++ [Process p (Some i)]) (without i (launching s)) (signalled s)
    (ended s) (deleted s) (starts s).
Definition set_entered (p : Z) (j : job) : job :=
  Job (in_use j) (id j) (state j) p true (priority j) (signals_sent j) (output_deleted j) (sandboxed j)
    (rc j) (result2 j) (command j).
Definition set_codes (r r2 : Z) (j : job) : job :=
  Job (in_use j) (id j) (state j) (pid j) (started j) (priority j) (signals_sent j) (output_deleted j) (sandboxed j)
    r r2 (command j).
Definition gone (p : Z) (l : list process) : list process := List.filter (λ q, negb (p_pid q =? p)) l.
Definition finish (p : Z) (i : nat) (r r2 : Z) (s : daemon) : daemon :=
  Daemon (alter (set_codes r r2) i (jobs s)) (next_id s) (port s ++ [i]) (gone p (procs s)) (launching s) (signalled s)
    (ended s ++ match jobs s !! i with Some j => [(id j, r)] | None => [] end) (deleted s) (starts s).

(** [jobs_get] *)
Definition jobs_get (n : Z) (s : daemon) : option job * daemon :=
  let s := drain s in (i ← find n s; jobs s !! i, s).
(** [jobs_signal]: -1, 0 or 1.  [ProcessScan] signals the process of that id. *)
Definition set_signals (m : Z) (j : job) : job :=
  Job (in_use j) (id j) (state j) (pid j) (started j) (priority j) (Z.lor (signals_sent j) m) (output_deleted j) (sandboxed j)
    (rc j) (result2 j) (command j).
Definition jobs_signal (n mask : Z) (s : daemon) : Z * daemon :=
  let s := drain s in
  match find n s with
  | None => (-1, s)
  | Some i =>
      match jobs s !! i with
      | Some j =>
          if bool_decide (state j = JOB_RUNNING) && negb (pid j =? 0) && existsb (λ q, p_pid q =? pid j) (procs s)
          then (1, Daemon (alter (set_signals mask) i (jobs s)) (next_id s) (port s) (procs s) (launching s)
                     (signalled s ++ [(pid j, mask)]) (ended s) (deleted s) (starts s))
          else (0, s)
      | None => (0, s)
      end
  end.
(** [jobs_drop_output] *)
Definition set_dropped (j : job) : job :=
  Job (in_use j) (id j) (state j) (pid j) (started j) (priority j) (signals_sent j) true (sandboxed j) (rc j) (result2 j) (command j).
Definition jobs_drop_output (n : Z) (s : daemon) : daemon :=
  match find n s with
  | Some i =>
      match jobs s !! i with
      | Some j => if negb (output_deleted j) && bool_decide (state j = JOB_EXITED)
                  then delete (out_path j) (on_slot i set_dropped s) else s
      | None => s
      end
  | None => s
  end.
(** [jobs_list]: every record, newest first, by insertion. *)
Fixpoint insert_newest (t : job) (l : list job) : list job :=
  match l with
  | [] => [t]
  | x :: l => if id x <? id t then t :: x :: l else x :: insert_newest t l
  end.
Definition jobs_list (s : daemon) : list job * daemon :=
  let s := drain s in (foldl (λ l t, insert_newest t l) [] (List.filter in_use (jobs s)), s).

(** [jobs_init]: cleared memory. *)
Definition blank : job := Job false 0 JOB_RUNNING 0 false 0 0 false false 0 0 [].
Definition jobs_init (others : list process) : daemon := Daemon (repeat blank JOB_SLOTS) 1 [] others [] [] [] [] 0.

(** What can happen.  A new process has an id of its own. *)
Definition fresh_pid (p : Z) (s : daemon) : Prop := p ≠ 0 ∧ p ∉ map p_pid (procs s).
Inductive step (s : daemon) : daemon → Prop :=
| step_begin cmd pri sb : step s (begin_job cmd pri sb s).2
| step_no_output i : i ∈ launching s → step s (give_back i (delete_own i s))
| step_not_started i : i ∈ launching s → step s (give_back i (delete_own i (delete_own i s)))
| step_spawn i p : i ∈ launching s → fresh_pid p s → step s (spawn i p (delete_own i s))
| step_entry i p : Process p (Some i) ∈ procs s → step s (on_slot i (set_entered p) s)
| step_finish i p r r2 : Process p (Some i) ∈ procs s → step s (finish p i r r2 s)
| step_other_starts p : fresh_pid p s → step s (Daemon (jobs s) (next_id s) (port s) (procs s ++ [Process p None])
    (launching s) (signalled s) (ended s) (deleted s) (starts s))
| step_other_ends p : Process p None ∈ procs s → step s (Daemon (jobs s) (next_id s) (port s) (gone p (procs s))
    (launching s) (signalled s) (ended s) (deleted s) (starts s))
| step_get n : step s (jobs_get n s).2
| step_list : step s (jobs_list s).2
| step_signal n mask : step s (jobs_signal n mask s).2
| step_drop n : step s (jobs_drop_output n s).
Inductive reach : daemon → Prop :=
| reach_init others : NoDup (map p_pid others) → Forall (λ p, p_pid p ≠ 0 ∧ p_job p = None) others → reach (jobs_init others)
| reach_step s s' : reach s → step s s' → reach s'.

(* ------------------------------------------------------------------ *)
(** ** The handlers *)

Definition SIGBREAKF_CTRL_C : Z := 2 ^ 12.
Definition SIGBREAKF_CTRL_D : Z := 2 ^ 13.
Definition SIGBREAKF_CTRL_E : Z := 2 ^ 14.
Definition SIGBREAKF_CTRL_F : Z := 2 ^ 15.
Inductive rpc_code := MCPD_ERR_INVPARAMS | MCPD_ERR_NOTCAPABLE | MCPD_ERR_TARGET | MCPD_ERR_BUSY | MCPD_ERR_INTERNAL.
(** [_quote_arg] *)
Definition quoted_char (c : ascii) : bool := bool_decide (c ∈ [" "; "009"; "034"; "*"; "010"]%char).
Definition escaped (a : text) : text := a ≫= λ c, if decide (c ∈ ["034"; "*"]%char) then ["*"%char; c] else [c].
Definition quote_arg (a : text) : text :=
  if (if a is [] then true else false) || existsb quoted_char a then "034"%char :: escaped a ++ ["034"%char] else escaped a.
(** The command line [exec_cmd] builds; an entry that is no string is an error. *)
Fixpoint full_command (cmd : text) (args : list (option text)) : option text :=
  match args with
  | [] => Some cmd
  | None :: _ => None
  | Some a :: args => full_command (cmd ++ [" "%char] ++ quote_arg a) args
  end.
(** [exec_cmd]'s timeout in milliseconds. *)
Definition timeout_of (timeout_ms timeout_s : Z) : Z :=
  let t := if timeout_ms <=? 0 then timeout_s * 1000 else timeout_ms in
  if t <=? 0 then 30000 else t.
Definition EXEC_POLL_MS : Z := 2 * 1000 / 50.
(** The signal [exec_kill] will send: [force], and the parameter. *)
Definition lower_bit (c : ascii) : Z := Z.lor (ord c) 32.
Definition kill_mask (force : bool) (signal : option text) : option (Z * ascii) :=
  if force then Some (SIGBREAKF_CTRL_F, "f"%char)
  else match signal with
       | None => Some (SIGBREAKF_CTRL_C, "c"%char)
       | Some s =>
           let c := lower_bit (nth 0 s "000"%char) in
           if c =? 99 then Some (SIGBREAKF_CTRL_C, "c"%char) else if c =? 100 then Some (SIGBREAKF_CTRL_D, "d"%char)
           else if c =? 101 then Some (SIGBREAKF_CTRL_E, "e"%char) else if c =? 102 then Some (SIGBREAKF_CTRL_F, "f"%char)
           else None
       end.
Definition kill_wait (w : Z) : Z := let w := if w <? 0 then 0 else w in if 60000 <? w then 60000 else w.
(** Waiting for a job looks at it every 40 ms, with whatever happens in between:
    [pass] is the rest of the world.  The record, or that it is lost. *)
Fixpoint wait_job (fuel : nat) (pass : daemon → daemon) (n waited limit : Z) (abandon : bool) (s : daemon)
    : option (option job) * daemon :=
  match fuel with
  | O => (None, s)
  | Datatypes.S fuel =>
      match jobs_get n s with
      | (None, s) => (Some None, s)
      | (Some j, s) =>
          if bool_decide (state j = JOB_EXITED) || abandon || (limit <=? waited) then (Some (Some j), s)
          else wait_job fuel pass n (waited + EXEC_POLL_MS) limit abandon (pass s)
      end
  end.
(** What [exec_cmd] makes of the job it started: its record, or an error that the
    command goes on.  [captured] is whether there was memory for the output that is
    read at the end. *)
Definition exec_cmd_wait (pass : daemon → daemon) (n limit : Z) (return_running captured : bool) (s : daemon)
    : option (rpc_code + job) * daemon :=
  match wait_job (Z.to_nat (limit / EXEC_POLL_MS) + 2) pass n 0 limit false s with
  | (Some (Some j), s) =>
      if bool_decide (state j = JOB_RUNNING) && negb return_running then (Some (inl MCPD_ERR_TARGET), s)
      else if negb captured then (Some (inl MCPD_ERR_INTERNAL), s)
      else (Some (inr j), if bool_decide (state j = JOB_EXITED) then jobs_drop_output n s else s)
  | (Some None, s) => (Some (inl MCPD_ERR_INTERNAL), s)
  | (None, s) => (None, s)
  end.
(** [jobs_shutdown]: what a round counts; the table is freed when it is nothing. *)
Definition active (j : job) : bool := in_use j && bool_decide (state j = JOB_RUNNING).
Definition running (s : daemon) : nat := length (List.filter active (jobs (drain s))).
(** [exec_kill] *)
Inductive killed := Killed (j : job) (letter : ascii) (sent forced : bool).
Definition send_and_wait (pass : daemon → daemon) (n mask : Z) (letter : ascii) (force : bool) (wait_ms : Z) (s : daemon)
    : option (rpc_code + killed) * daemon :=
  let '(sent, s) := jobs_signal n mask s in
  if sent <? 0 then (Some (inl MCPD_ERR_INVPARAMS), s)
  else
    let limit := kill_wait wait_ms in
    match wait_job (Z.to_nat (limit / EXEC_POLL_MS) + 2) pass n 0 limit (sent =? 0) s with
    | (Some (Some j), s) => (Some (inr (Killed j letter (negb (sent =? 0)) force)), s)
    | (Some None, s) => (Some (inl MCPD_ERR_INVPARAMS), s)
    | (None, s) => (None, s)
    end.
Definition exec_kill (pass : daemon → daemon) (n : Z) (force : bool) (signal : option text) (wait_ms : Z) (s : daemon)
    : option (rpc_code + killed) * daemon :=
  let checked :=
    if force then match jobs_get n s with
                  | (None, s) => (Some MCPD_ERR_INVPARAMS, s)
                  | (Some j, s) => (if sandboxed j then None else Some MCPD_ERR_NOTCAPABLE, s)
                  end
    else (None, s) in
  match checked with
  | (Some e, s) => (Some (inl e), s)
  | (None, s) =>
      match kill_mask force signal with
      | None => (Some (inl MCPD_ERR_INVPARAMS), s)
      | Some (mask, letter) => send_and_wait pass n mask letter force wait_ms s
      end
  end.

(* ------------------------------------------------------------------ *)
(** ** Who owns a slot *)

Definition cnt (i : nat) (l : list nat) : nat := length (List.filter (λ k, k =? i)%nat l).
Definition pcnt (i : nat) (l : list process) : nat := length (List.filter (λ q, bool_decide (p_job q = Some i)) l).
(** A command about to be started, a process, or a death message. *)
Definition owners (i : nat) (s : daemon) : nat := (cnt i (launching s) + pcnt i (procs s) + cnt i (port s))%nat.

Lemma cnt_app i l k : cnt i (l ++ k) = (cnt i l + cnt i k)%nat.
Proof. unfold cnt; by rewrite List.filter_app, length_app. Qed.
Lemma cnt_one i k : cnt i [k] = if (k =? i)%nat then 1%nat else 0%nat.
Proof. unfold cnt; simpl; by destruct (k =? i)%nat. Qed.
Lemma cnt_zero i l : cnt i l = 0%nat ↔ i ∉ l.
Proof.
  unfold cnt; induction l as [|k l IH]; simpl; [by split; [intros _ ?%not_elem_of_nil|]|].
  rewrite not_elem_of_cons; destruct (Nat.eqb_spec k i); simpl; [split; [lia|intros [? _]; congruence]|].
  rewrite IH; split; [intros; split; [congruence|done]|tauto].
Qed.
Lemma cnt_without i k l : cnt i (without k l) = if (k =? i)%nat then 0%nat else cnt i l.
Proof.
  unfold cnt, without; induction l as [|x l IH]; simpl; [by destruct (k =? i)%nat|].
  destruct (Nat.eqb_spec x k); simpl; [subst; rewrite IH; by destruct (k =? i)%nat|].
  destruct (Nat.eqb_spec x i); simpl; rewrite IH; destruct (Nat.eqb_spec k i); congruence.
Qed.
Lemma pcnt_app i l k : pcnt i (l ++ k) = (pcnt i l + pcnt i k)%nat.
Proof. unfold pcnt; by rewrite List.filter_app, length_app. Qed.
Lemma pcnt_one i p o : pcnt i [Process p o] = if bool_decide (o = Some i) then 1%nat else 0%nat.
Proof. unfold pcnt; simpl; by case_bool_decide. Qed.
Lemma pcnt_zero i l : pcnt i l = 0%nat → ∀ p, Process p (Some i) ∉ l.
Proof.
  unfold pcnt; induction l as [|q l IH]; simpl; intros Z p; [apply not_elem_of_nil|].
  case_bool_decide; [done|]; apply not_elem_of_cons; split; [by intros <-|by apply IH].
Qed.
Lemma pcnt_some i l : (0 < pcnt i l)%nat → ∃ p, Process p (Some i) ∈ l.
Proof.
  unfold pcnt; induction l as [|[p o] l IH]; simpl; [lia|]; case_bool_decide as O; simpl.
  - intros _; exists p; rewrite <- O; left.
  - intros [q Q]%IH; exists q; by right.
Qed.
Lemma pcnt_unique i l p q : (pcnt i l ≤ 1)%nat → Process p (Some i) ∈ l → Process q (Some i) ∈ l → p = q.
Proof.
  induction l as [|x l IH]; intros C A B; [by apply not_elem_of_nil in A|].
  assert (∀ r, Process r (Some i) ∈ l → (0 < pcnt i l)%nat) as In
    by (intros r R; destruct (pcnt i l) eqn:Z; [by apply (pcnt_zero i l Z) in R|lia]).
  unfold pcnt in *; simpl in C; apply elem_of_cons in A as [<-|A], B as [B|B]; simpl in C.
  - congruence.
  - rewrite bool_decide_true in C by done; simpl in C; specialize (In q B); unfold pcnt in In; lia.
  - rewrite <- B in C; simpl in C; rewrite bool_decide_true in C by done; simpl in C; specialize (In p A); unfold pcnt in In; lia.
  - apply IH; try done; destruct (bool_decide _) in C; simpl in C; lia.
Qed.
Lemma once_same {A} (l : list (Z * A)) n a b : NoDup l.*1 → (n, a) ∈ l → (n, b) ∈ l → b = a.
Proof.
  intros N [i A']%list_elem_of_lookup_1 [k B']%list_elem_of_lookup_1; assert (i = k) as -> by
    (apply (NoDup_lookup l.*1 i k n N); rewrite list_lookup_fmap; [by rewrite A'|by rewrite B']); congruence.
Qed.
Lemma filter_every {A} (f : A → bool) l : (∀ x, x ∈ l → f x = true) → List.filter f l = l.
Proof.
  induction l as [|x l IH]; intros H; simpl; [done|]; rewrite (H x) by left; f_equal; apply IH; intros y Y; apply H; by right.
Qed.
Lemma filter_fewer {A} (f : A → bool) i x l : l !! i = Some x → f x = false → (length (List.filter f l) < length l)%nat.
Proof.
  revert i; induction l as [|y l IH]; intros [|i]; simpl; [done..|intros [= <-] ->|intros E F].
  - pose proof (List.filter_length_le f l); lia.
  - specialize (IH i E F); destruct (f y); simpl; lia.
Qed.
Lemma gone_elem p q l : q ∈ gone p l ↔ q ∈ l ∧ p_pid q ≠ p.
Proof.
  unfold gone; rewrite !list_elem_of_In, filter_In, negb_true_iff, Z.eqb_neq; done.
Qed.
Lemma gone_same p l : p ∉ map p_pid l → gone p l = l.
Proof.
  unfold gone; induction l as [|q l IH]; simpl; [done|]; rewrite not_elem_of_cons; intros [N R].
  destruct (Z.eqb_spec (p_pid q) p); [congruence|]; simpl; by rewrite IH.
Qed.
Lemma gone_NoDup p l : NoDup (map p_pid l) → NoDup (map p_pid (gone p l)).
Proof.
  unfold gone; induction l as [|q l IH]; simpl; [done|]; intros [N R]%NoDup_cons.
  destruct (negb _); simpl; [|by apply IH]; apply NoDup_cons; split; [|by apply IH].
  intros H; apply N; apply list_elem_of_In, in_map_iff in H as (x & E & [X _]%filter_In).
  apply list_elem_of_In, in_map_iff; eauto.
Qed.
Lemma pcnt_gone i p o l : NoDup (map p_pid l) → Process p o ∈ l →
  pcnt i l = (pcnt i (gone p l) + if bool_decide (o = Some i) then 1 else 0)%nat.
Proof.
  induction l as [|q l IH]; simpl; intros N E; [by apply not_elem_of_nil in E|]; apply NoDup_cons in N as [Nq N].
  unfold gone; simpl; apply elem_of_cons in E as [<-|E]; simpl.
  - rewrite Z.eqb_refl; simpl; change (List.filter _ l) with (gone p l); rewrite (gone_same p l) by exact Nq.
    unfold pcnt; simpl; destruct (bool_decide (o = Some i)); simpl; lia.
  - destruct (Z.eqb_spec (p_pid q) p) as [P|P]; simpl.
    + exfalso; apply Nq; rewrite P; apply list_elem_of_In, in_map_iff; exists (Process p o); by rewrite <- list_elem_of_In.
    + specialize (IH N E); unfold pcnt, gone in *; simpl; destruct (bool_decide (p_job q = Some i)); simpl; lia.
Qed.
Lemma same_pid l p q : NoDup (map p_pid l) → p ∈ l → q ∈ l → p_pid p = p_pid q → p = q.
Proof.
  induction l as [|x l IH]; simpl; intros N P Q E; [by apply not_elem_of_nil in P|]; apply NoDup_cons in N as [Nx N].
  assert (∀ y, y ∈ l → p_pid y ∈ map p_pid l) as In by (intros y Y; apply list_elem_of_In, in_map, list_elem_of_In, Y).
  apply elem_of_cons in P as [->|P], Q as [->|Q]; try done; [| |by apply IH].
  - rewrite E in Nx; by specialize (In q Q).
  - rewrite <- E in Nx; by specialize (In p P).
Qed.

(** The invariant of the daemon. *)
Record inv (s : daemon) : Prop := Inv {
  inv_len : length (jobs s) = JOB_SLOTS;
  inv_next : next_id s = 1 + starts s ∧ 0 ≤ starts s;
  inv_out i : (JOB_SLOTS ≤ i)%nat → owners i s = 0%nat;
  inv_own i j : jobs s !! i = Some j → owners i s = if active j then 1%nat else 0%nat;
  inv_ids i j : jobs s !! i = Some j → in_use j = true → 1 ≤ id j ≤ starts s;
  inv_uniq i j i' j' : jobs s !! i = Some j → jobs s !! i' = Some j' → in_use j = true → in_use j' = true → id j = id j' → i = i';
  inv_pids : NoDup (map p_pid (procs s));
  inv_nonzero q : q ∈ procs s → p_pid q ≠ 0;
  inv_pid p i j : Process p (Some i) ∈ procs s → jobs s !! i = Some j → pid j = 0 ∨ pid j = p;
  inv_launch i j : i ∈ launching s → jobs s !! i = Some j → pid j = 0;
  inv_port i j : i ∈ port s → jobs s !! i = Some j → (id j, rc j) ∈ ended s;
  inv_done i j : jobs s !! i = Some j → in_use j = true → state j = JOB_EXITED → (id j, rc j) ∈ ended s }.

(** A change of one record that leaves the fields of the invariant alone. *)
Definition harmless (f : job → job) : Prop := ∀ j,
  in_use (f j) = in_use j ∧ id (f j) = id j ∧ state (f j) = state j ∧ pid (f j) = pid j ∧ rc (f j) = rc j.
Lemma alter_some (f : job → job) (i k : nat) (l : list job) j : alter f i l !! k = Some j → ∃ j0, l !! k = Some j0 ∧ j = if decide (k = i) then f j0 else j0.
Proof.
  destruct (decide (k = i)) as [->|N]; [rewrite list_lookup_alter_eq|rewrite list_lookup_alter_ne by done; eauto].
  destruct (l !! i); simpl; intros; simplify_eq; eauto.
Qed.
Lemma inv_harmless f i s s' : inv s → harmless f → jobs s' = alter f i (jobs s) → next_id s' = next_id s → port s' = port s →
  procs s' = procs s → launching s' = launching s → ended s' = ended s → starts s' = starts s → inv s'.
Proof.
  intros I F J N P Q L Ed St.
  assert (∀ k j, jobs s' !! k = Some j → ∃ j0, jobs s !! k = Some j0 ∧
    in_use j = in_use j0 ∧ id j = id j0 ∧ state j = state j0 ∧ pid j = pid j0 ∧ rc j = rc j0) as V.
  { intros k j E; rewrite J in E; apply alter_some in E as (j0 & E & ->); exists j0; split; [done|]; destruct (decide _); [apply F|done]. }
  assert (∀ k, owners k s' = owners k s) as O by (intros k; unfold owners; by rewrite L, P, Q).
  constructor; rewrite ?N, ?P, ?Q, ?L, ?Ed, ?St.
  - rewrite J, length_alter; by apply inv_len.
  - by apply inv_next.
  - intros k K; rewrite O; by apply inv_out.
  - intros k j (j0 & E & U & _ & S & _)%V; rewrite O; unfold active; rewrite U, S; by apply inv_own.
  - intros k j (j0 & E & U & D & _)%V; rewrite U, D; by apply (inv_ids s I k).
  - intros k j k' j' (j0 & E & U & D & _)%V (j0' & E' & U' & D' & _)%V; rewrite U, U', D, D'; by apply (inv_uniq s I).
  - by apply inv_pids.
  - by apply inv_nonzero.
  - intros p k j Pr (j0 & E & _ & _ & _ & Pi & _)%V; rewrite Pi; by apply (inv_pid s I p k).
  - intros k j La (j0 & E & _ & _ & _ & Pi & _)%V; rewrite Pi; by apply (inv_launch s I k).
  - intros k j Po (j0 & E & _ & D & _ & _ & R)%V; rewrite D, R; by apply (inv_port s I k).
  - intros k j (j0 & E & U & D & S & _ & R)%V; rewrite U, D, S, R; by apply (inv_done s I k).
Qed.
Lemma set_exited_twice j : set_exited (set_exited j) = set_exited j.
Proof. done. Qed.
Lemma drain_jobs s i : jobs (drain s) !! i = (if decide (i ∈ port s) then set_exited <$> jobs s !! i else jobs s !! i).
Proof.
  unfold drain; cbn [jobs]; generalize (jobs s); induction (port s) as [|k ks IH]; intros l; cbn [foldl].
  { by rewrite decide_False by apply not_elem_of_nil. }
  rewrite IH; destruct (decide (i = k)) as [->|N].
  - rewrite list_lookup_alter_eq, (decide_True (P := k ∈ k :: ks)) by left; destruct (l !! k); by destruct (decide _).
  - rewrite list_lookup_alter_ne by done; destruct (decide (i ∈ ks)) as [H|H], (decide (i ∈ k :: ks)) as [H'|H']; try done.
    + by contradict H'; right.
    + by apply elem_of_cons in H' as [?|?].
Qed.
Lemma length_drain s : length (jobs (drain s)) = length (jobs s).
Proof. unfold drain; cbn [jobs]; generalize (jobs s); induction (port s) as [|k ks IH]; intros l; cbn [foldl]; [done|]; by rewrite IH, length_alter. Qed.
Lemma owned_by {s} (I : inv s) {i j} : jobs s !! i = Some j → (0 < owners i s)%nat → in_use j = true ∧ state j = JOB_RUNNING ∧ owners i s = 1%nat.
Proof.
  intros E O; pose proof (inv_own s I i j E) as W; unfold active in W; destruct (in_use j); simpl in W; [|lia].
  case_bool_decide; [done|lia].
Qed.
Lemma port_owner {s i} : i ∈ port s → (0 < cnt i (port s))%nat.
Proof. intros P; destruct (cnt i (port s)) eqn:C; [by apply cnt_zero in C|lia]. Qed.
Lemma launch_owner {s i} : i ∈ launching s → (0 < cnt i (launching s))%nat.
Proof. intros P; destruct (cnt i (launching s)) eqn:C; [by apply cnt_zero in C|lia]. Qed.
Lemma proc_owner {s i p} : Process p (Some i) ∈ procs s → (0 < pcnt i (procs s))%nat.
Proof. intros P; destruct (pcnt i (procs s)) eqn:C; [by apply (pcnt_zero i (procs s) C) in P|lia]. Qed.

Lemma inv_drain s : inv s → inv (drain s).
Proof.
  intros I; assert (∀ k j, jobs (drain s) !! k = Some j → ∃ j0, jobs s !! k = Some j0 ∧
    in_use j = in_use j0 ∧ id j = id j0 ∧ pid j = pid j0 ∧ rc j = rc j0 ∧
    (k ∈ port s ∧ state j = JOB_EXITED ∨ (k ∉ port s) ∧ state j = state j0)) as V.
  { intros k j; rewrite drain_jobs; destruct (decide _); [|intros E; exists j; by split_and!; [..|right]].
    destruct (jobs s !! k) as [j0|]; intros [= <-]; exists j0; by split_and!; [..|left]. }
  constructor; cbn [next_id port procs launching ended starts drain].
  - rewrite length_drain; apply (inv_len s I).
  - apply (inv_next s I).
  - intros k K; pose proof (inv_out s I k K); unfold owners, drain in *; cbn [launching procs port] in *; unfold cnt at 2; simpl; lia.
  - intros k j (j0 & E & U & D & P & R & S)%V; pose proof (inv_own s I k j0 E) as W; unfold active in *; rewrite U.
    unfold owners, drain in *; cbn [launching procs port] in *; unfold cnt at 2; simpl.
    destruct S as [[Po S]|[Po S]]; rewrite S.
    + pose proof (port_owner Po); pose proof (owned_by I E) as O; unfold owners in O; destruct O as (_ & _ & O); [lia|].
      rewrite andb_false_r; lia.
    + apply cnt_zero in Po; lia.
  - intros k j (j0 & E & U & D & _)%V; rewrite U, D; by apply (inv_ids s I k).
  - intros k j k' j' (j0 & E & U & D & _)%V (j0' & E' & U' & D' & _)%V; rewrite U, U', D, D'; by apply (inv_uniq s I).
  - apply (inv_pids s I).
  - apply (inv_nonzero s I).
  - intros p k j Pr (j0 & E & _ & _ & Pi & _)%V; rewrite Pi; by apply (inv_pid s I p k).
  - intros k j La (j0 & E & _ & _ & Pi & _)%V; rewrite Pi; by apply (inv_launch s I k).
  - intros k j Po; by apply not_elem_of_nil in Po.
  - intros k j (j0 & E & U & D & _ & R & S)%V; rewrite U, D, R; intros Us Ex; destruct S as [[Po _]|[_ S]];
      [by apply (inv_port s I k)|apply (inv_done s I k); congruence].
Qed.
Lemma inv_delete p s : inv s → inv (delete p s).
Proof. intros []; by constructor. Qed.
Lemma inv_delete_own i s : inv s → inv (delete_own i s).
Proof. intros I; unfold delete_own; destruct (jobs s !! i); [by apply inv_delete|done]. Qed.
Lemma delete_own_same i s : jobs (delete_own i s) = jobs s ∧ launching (delete_own i s) = launching s ∧ procs (delete_own i s) = procs s ∧
  starts (delete_own i s) = starts s.
Proof. unfold delete_own; by destruct (jobs s !! i). Qed.

(** Claiming a slot. *)
Lemma claim_from_spec i o l :
  (∀ k j, o = Some (k, j) → in_use j = true ∧ state j = JOB_EXITED) →
  match claim_from i o l with
  | inl k => ∃ j, (i ≤ k)%nat ∧ l !! (k - i)%nat = Some j ∧ in_use j = false
  | inr r => (∀ k j, l !! k = Some j → in_use j = true) ∧
             (∀ k j, r = Some (k, j) → in_use j = true ∧ state j = JOB_EXITED ∧ (o = Some (k, j) ∨ (i ≤ k)%nat ∧ l !! (k - i)%nat = Some j)) ∧
             (r = None → o = None ∧ ∀ k j, l !! k = Some j → state j = JOB_RUNNING)
  end.
Proof.
  revert i o; induction l as [|j l IH]; intros i o O; cbn [claim_from].
  { split_and!; [done| |by split; intros; simplify_eq]; intros k j E; destruct (O k j E); by split_and!; [..|left]. }
  destruct (in_use j) eqn:U; cbn [negb]; [|exists j; rewrite Nat.sub_diag; by split_and!].
  set (o' := if decide (state j = JOB_EXITED) then _ else o).
  assert (∀ k x, o' = Some (k, x) → in_use x = true ∧ state x = JOB_EXITED ∧ (o = Some (k, x) ∨ k = i ∧ x = j)) as O'.
  { intros k x; unfold o'; destruct (decide (state j = JOB_EXITED)) as [X|X];
      [destruct o as [[k0 j0]|]; [destruct (id j <? id j0)|]|]; intros [= <- <-] || intros E.
    all: try (by split_and!; [..|right]). all: try (destruct (O _ _ eq_refl); by split_and!; [..|left]).
    destruct (O _ _ E); by split_and!; [..|left]. }
  specialize (IH (Datatypes.S i) o' ltac:(intros k x E; by destruct (O' k x E) as (? & ? & _))).
  destruct (claim_from (Datatypes.S i) o' l) as [k|r].
  - destruct IH as (x & K & E & F); exists x; split_and!; [lia| |done]; by replace (k - i)%nat with (Datatypes.S (k - Datatypes.S i)) by lia.
  - destruct IH as (Us & R & No); split_and!.
    + intros [|k] x; simpl; [by intros [= <-]|apply Us].
    + intros k x E; destruct (R k x E) as (Ux & Sx & [E'|[K Lx]]); split_and!; try done.
      * destruct (O' k x E') as (_ & _ & [?|[-> ->]]); [by left|right]; rewrite Nat.sub_diag; by split.
      * right; split; [lia|]; by replace (k - i)%nat with (Datatypes.S (k - Datatypes.S i)) by lia.
    + intros E; destruct (No E) as [On S]; unfold o' in On; destruct (decide (state j = JOB_EXITED)) as [X|X].
      * destruct o as [[]|]; [destruct (_ <? _)|]; done.
      * split; [done|]; intros [|k] x; simpl; [intros [= <-]; by destruct (state j)|apply S].
Qed.
(** The claimed slot has no owner; there is none to claim exactly when every slot
    holds a running job. *)
Lemma claim_slot_spec s : inv s → port s = [] →
  let '(r, s') := claim_slot s in
  jobs s' = jobs s ∧ next_id s' = next_id s ∧ port s' = port s ∧ procs s' = procs s ∧ launching s' = launching s ∧
  signalled s' = signalled s ∧ ended s' = ended s ∧ starts s' = starts s ∧
  match r with
  | Some i => ∃ j, jobs s !! i = Some j ∧ active j = false ∧ owners i s = 0%nat
  | None => ∀ i j, jobs s !! i = Some j → active j = true
  end.
Proof.
  intros I P; pose proof (claim_from_spec 0 None (jobs s) ltac:(done)) as C; unfold claim_slot.
  destruct (claim_from 0 None (jobs s)) as [i|[[i j]|]].
  - destruct C as (j & _ & E & U); rewrite Nat.sub_0_r in E; split_and!; try done; exists j.
    assert (active j = false) as A by (unfold active; by rewrite U); split_and!; try done; by rewrite (inv_own s I i j E), A.
  - destruct C as (_ & R & _); destruct (R i j eq_refl) as (U & X & [?|[_ E]]); [done|]; rewrite Nat.sub_0_r in E.
    assert (active j = false) as A by (unfold active; rewrite U, X; done).
    split_and!; try (by destruct (output_deleted j)); exists j; split_and!; try done; by rewrite (inv_own s I i j E), A.
  - destruct C as (U & _ & N); destruct (N eq_refl) as [_ S]; split_and!; try done; intros i j E; unfold active.
    by rewrite (U i j E), (S i j E).
Qed.

Lemma drain_port s : port (drain s) = [].
Proof. done. Qed.
Lemma inv_begin cmd pri sb s : inv s → starts s < 2 ^ 32 - 2 → inv (begin_job cmd pri sb s).2.
Proof.
  intros I0 W; pose proof (inv_drain s I0) as I; unfold begin_job.
  pose proof (claim_slot_spec (drain s) I eq_refl) as C; destruct (claim_slot (drain s)) as [[i|] s2].
  2:{ destruct C as (Ej & En & Ep & Eq & El & _ & Ee & Es & _); cbn [snd].
      apply (inv_harmless (λ j, j) 0 (drain s)); try done; rewrite Ej; by rewrite list_alter_id. }
  destruct C as (Ej & En & Ep & Eq & El & _ & Ee & Es & j0 & E0 & A0 & O0); cbn [snd].
  set (nj := Job true (next_id s2) _ _ _ _ _ _ _ _ _ _).
  assert (i < JOB_SLOTS)%nat as Li by (rewrite <- (inv_len _ I); by apply lookup_lt_Some in E0).
  destruct (inv_next _ I) as [Nx St]; change (starts (drain s)) with (starts s) in *.
  assert (∀ k j, <[i:=nj]> (jobs s2) !! k = Some j → (k = i ∧ j = nj) ∨ (k ≠ i ∧ jobs (drain s) !! k = Some j)) as V.
  { intros k j; rewrite Ej; destruct (decide (k = i)) as [->|N].
    - rewrite list_lookup_insert_eq by (by rewrite (inv_len _ I)); intros [= <-]; by left.
    - rewrite list_lookup_insert_ne by done; by right. }
  assert (∀ k, (cnt k (launching s2 ++ [i]) + pcnt k (procs s2) + cnt k (port s2))%nat =
               (owners k (drain s) + if (i =? k)%nat then 1 else 0)%nat) as O.
  { intros k; rewrite cnt_app, cnt_one, El, Eq, Ep; unfold owners; lia. }
  unfold owners in O0; constructor; cbn [jobs next_id port procs launching ended starts]; rewrite ?Ee.
  - rewrite length_insert, Ej; apply (inv_len _ I).
  - rewrite En, Es, Nx; change (starts (drain s)) with (starts s); rewrite Z.mod_small; lia.
  - intros k K; unfold owners; cbn [launching procs port]; rewrite O, (inv_out _ I k K); destruct (Nat.eqb_spec i k); lia.
  - intros k j [[-> ->]|[N E]]%V; unfold owners at 1; cbn [launching procs port]; rewrite O.
    + rewrite Nat.eqb_refl; unfold owners; rewrite O0; done.
    + rewrite (inv_own _ I k j E); destruct (Nat.eqb_spec i k); [congruence|lia].
  - rewrite Es; change (starts (drain s)) with (starts s); intros k j [[-> ->]|[N E]]%V U; [unfold nj; cbn [id]; rewrite En, Nx; lia|].
    pose proof (inv_ids _ I k j E U) as D; change (starts (drain s)) with (starts s) in D; lia.
  - assert (∀ k j, jobs (drain s) !! k = Some j → in_use j = true → id j ≠ id nj) as F.
    { intros k j E U; pose proof (inv_ids _ I k j E U) as D; change (starts (drain s)) with (starts s) in D.
      unfold nj; cbn [id]; rewrite En, Nx; lia. }
    intros k j k' j' [[-> ->]|[N E]]%V [[-> ->]|[N' E']]%V U U' D; try done;
      [by destruct (F k' j' E' U')|by destruct (F k j E U)|by apply (inv_uniq _ I k j k' j')].
  - rewrite Eq; apply (inv_pids _ I).
  - rewrite Eq; apply (inv_nonzero _ I).
  - rewrite Eq; intros p k j Pr [[-> ->]|[N E]]%V; [by left|by apply (inv_pid _ I p k)].
  - rewrite El; intros k j La [[-> ->]|[N E]]%V; [done|apply (inv_launch _ I k); [|done]].
    apply elem_of_app in La as [La|La%list_elem_of_singleton]; [done|congruence].
  - rewrite Ep; intros k j Po; by apply not_elem_of_nil in Po.
  - intros k j [[-> ->]|[N E]]%V; [done|by apply (inv_done _ I k)].
Qed.
Lemma inv_give_back i s : inv s → i ∈ launching s → inv (give_back i s).
Proof.
  intros I L; assert (∀ k j, jobs (give_back i s) !! k = Some j → ∃ j0, jobs s !! k = Some j0 ∧ j = if decide (k = i) then set_free j0 else j0) as V
    by (intros k j; apply alter_some).
  pose proof (launch_owner L) as P; assert (∀ k, owners k (give_back i s) = if (i =? k)%nat then (owners k s - cnt k (launching s))%nat else owners k s) as O.
  { intros k; unfold owners, give_back, on_slot, with_jobs, with_launching; cbn [launching procs port]; rewrite cnt_without.
    destruct (Nat.eqb_spec i k); lia. }
  assert (∀ k j, jobs s !! k = Some j → k = i → owners k s = 1%nat ∧ cnt k (launching s) = 1%nat) as Own.
  { intros k j E ->; unfold owners in *; destruct (owned_by I E) as (_ & _ & W); unfold owners in *; lia. }
  constructor; cbn [next_id port procs launching ended starts give_back on_slot with_jobs with_launching].
  - unfold give_back, on_slot, with_jobs; cbn [jobs]; rewrite length_alter; apply (inv_len _ I).
  - apply (inv_next _ I).
  - intros k K; rewrite O; pose proof (inv_out _ I k K); destruct (_ =? _)%nat; lia.
  - intros k j (j0 & E & ->)%V; rewrite O; destruct (decide (k = i)) as [->|N].
    + destruct (Own i j0 E eq_refl); rewrite Nat.eqb_refl; unfold active; simpl; lia.
    + destruct (Nat.eqb_spec i k); [congruence|by apply (inv_own _ I)].
  - intros k j (j0 & E & ->)%V; destruct (decide _); [done|by apply (inv_ids _ I k)].
  - intros k j k' j' (j0 & E & ->)%V (j0' & E' & ->)%V; destruct (decide (k = i)), (decide (k' = i)); try done; by apply (inv_uniq _ I).
  - apply (inv_pids _ I).
  - apply (inv_nonzero _ I).
  - intros p k j Pr (j0 & E & ->)%V; pose proof (inv_pid _ I p k j0 Pr E); by destruct (decide _).
  - intros k j [La _]%list_elem_of_In%filter_In (j0 & E & ->)%V; apply list_elem_of_In in La.
    pose proof (inv_launch _ I k j0 La E); by destruct (decide _).
  - intros k j Po (j0 & E & ->)%V; pose proof (inv_port _ I k j0 Po E); by destruct (decide _).
  - intros k j (j0 & E & ->)%V; destruct (decide _); [done|by apply (inv_done _ I k)].
Qed.
Lemma inv_spawn i p s : inv s → i ∈ launching s → fresh_pid p s → inv (spawn i p s).
Proof.
  intros I L [P0 P]; pose proof (launch_owner L) as La.
  assert (∀ k, (k = i → owners k s = 1%nat) → owners k (spawn i p s) = owners k s) as O.
  { intros k W; unfold owners, spawn in *; cbn [launching procs port] in *; rewrite cnt_without, pcnt_app, pcnt_one.
    destruct (Nat.eqb_spec i k) as [->|N]; [rewrite bool_decide_true by done; specialize (W eq_refl); lia|].
    rewrite bool_decide_false by congruence; lia. }
  assert (owners i s = 1%nat) as W.
  { destruct (decide (i < JOB_SLOTS)%nat) as [K|K]; [|pose proof (inv_out _ I i ltac:(lia)) as Z; unfold owners in Z; lia].
    rewrite <- (inv_len _ I) in K; apply lookup_lt_is_Some in K as [j E].
    destruct (owned_by I E) as (_ & _ & W); [unfold owners; lia|done]. }
  assert (cnt i (launching s) = 1%nat ∧ pcnt i (procs s) = 0%nat) as [_ Np] by (unfold owners in W; lia).
  constructor; unfold spawn; cbn [jobs next_id port procs launching ended starts].
  - apply (inv_len _ I).
  - apply (inv_next _ I).
  - intros k K; change (owners k (spawn i p s) = 0%nat); rewrite O; [by apply (inv_out _ I)|by intros ->].
  - intros k j E; change (owners k (spawn i p s) = if active j then 1%nat else 0%nat); rewrite O; [by apply (inv_own _ I)|by intros ->].
  - apply (inv_ids _ I).
  - apply (inv_uniq _ I).
  - rewrite map_app; apply NoDup_app; split_and!; [apply (inv_pids _ I)| |apply NoDup_singleton].
    intros x X ->%list_elem_of_singleton; done.
  - intros q [Q| ->%list_elem_of_singleton]%elem_of_app; [by apply (inv_nonzero _ I)|done].
  - intros q k j [Q|Q%list_elem_of_singleton]%elem_of_app E; [by apply (inv_pid _ I q k)|].
    simplify_eq; left; by apply (inv_launch _ I i).
  - intros k j [Lk _]%list_elem_of_In%filter_In; apply (inv_launch _ I); by apply list_elem_of_In.
  - apply (inv_port _ I).
  - apply (inv_done _ I).
Qed.
Lemma inv_entry i p s : inv s → Process p (Some i) ∈ procs s → inv (on_slot i (set_entered p) s).
Proof.
  intros I P; pose proof (proc_owner P) as Np.
  assert (∀ k j, jobs (on_slot i (set_entered p) s) !! k = Some j → ∃ j0, jobs s !! k = Some j0 ∧ j = if decide (k = i) then set_entered p j0 else j0) as V
    by (intros k j; apply alter_some).
  constructor; cbn [next_id port procs launching ended starts on_slot with_jobs].
  - unfold on_slot, with_jobs; cbn [jobs]; rewrite length_alter; apply (inv_len _ I).
  - apply (inv_next _ I).
  - intros k K; apply (inv_out _ I k K).
  - intros k j (j0 & E & ->)%V; change (owners k (on_slot i (set_entered p) s)) with (owners k s); rewrite (inv_own _ I k j0 E); by destruct (decide _).
  - intros k j (j0 & E & ->)%V U; destruct (decide _); apply (inv_ids _ I k j0 E U).
  - intros k j k' j' (j0 & E & ->)%V (j0' & E' & ->)%V U U' D; destruct (decide (k = i)), (decide (k' = i)); apply (inv_uniq _ I k j0 k' j0' E E' U U' D).
  - apply (inv_pids _ I).
  - apply (inv_nonzero _ I).
  - intros q k j Q (j0 & E & ->)%V; pose proof (inv_pid _ I q k j0 Q E) as D; destruct (decide (k = i)) as [->|]; [|done]; right; simpl.
    destruct (owned_by I E) as (_ & _ & W); [unfold owners; lia|].
    apply (pcnt_unique i (procs s)); try done; unfold owners in W; lia.
  - intros k j La (j0 & E & ->)%V; destruct (decide (k = i)) as [->|]; [|by apply (inv_launch _ I k)].
    pose proof (launch_owner La); destruct (owned_by I E) as (_ & _ & W); unfold owners in *; lia.
  - intros k j Po (j0 & E & ->)%V; pose proof (inv_port _ I k j0 Po E); by destruct (decide _).
  - intros k j (j0 & E & ->)%V U St; destruct (decide _); apply (inv_done _ I k j0 E U St).
Qed.
Lemma inv_finish i p r r2 s : inv s → Process p (Some i) ∈ procs s → inv (finish p i r r2 s).
Proof.
  intros I P; pose proof (proc_owner P) as Np.
  assert (∃ ji, jobs s !! i = Some ji) as [ji Ei].
  { destruct (decide (i < JOB_SLOTS)%nat) as [K|K]; [rewrite <- (inv_len _ I) in K; by apply lookup_lt_is_Some in K|].
    pose proof (inv_out _ I i ltac:(lia)) as Z; unfold owners in Z; lia. }
  destruct (owned_by I Ei) as (Ui & Si & Wi); [unfold owners; lia|].
  assert (∀ k j, jobs (finish p i r r2 s) !! k = Some j → ∃ j0, jobs s !! k = Some j0 ∧ j = if decide (k = i) then set_codes r r2 j0 else j0) as V
    by (intros k j; apply alter_some).
  assert (∀ k, owners k (finish p i r r2 s) = owners k s) as O.
  { intros k; unfold owners, finish; cbn [launching procs port]; rewrite cnt_app, cnt_one, (pcnt_gone k p (Some i) (procs s)) by (done || apply (inv_pids _ I)).
    destruct (Nat.eqb_spec i k) as [->|N]; [rewrite bool_decide_true by done|rewrite bool_decide_false by congruence]; lia. }
  assert (∀ q, q ∈ gone p (procs s) → q ∈ procs s) as G by (by intros q [? _]%gone_elem).
  constructor; unfold finish at 1; cbn [next_id port procs launching ended starts].
  - unfold finish; cbn [jobs]; rewrite length_alter; apply (inv_len _ I).
  - apply (inv_next _ I).
  - intros k K; rewrite O; by apply (inv_out _ I).
  - intros k j (j0 & E & ->)%V; rewrite O, (inv_own _ I k j0 E); by destruct (decide _).
  - intros k j (j0 & E & ->)%V U; destruct (decide _); apply (inv_ids _ I k j0 E U).
  - intros k j k' j' (j0 & E & ->)%V (j0' & E' & ->)%V U U' D; destruct (decide (k = i)), (decide (k' = i)); apply (inv_uniq _ I k j0 k' j0' E E' U U' D).
  - apply gone_NoDup, (inv_pids _ I).
  - intros q Q%G; by apply (inv_nonzero _ I).
  - intros q k j Q%G (j0 & E & ->)%V; pose proof (inv_pid _ I q k j0 Q E); by destruct (decide _).
  - intros k j La (j0 & E & ->)%V; pose proof (inv_launch _ I k j0 La E); by destruct (decide _).
  - intros k j [Po|Po%list_elem_of_singleton]%elem_of_app (j0 & E & ->)%V; unfold finish; cbn [ended]; rewrite Ei; apply elem_of_app.
    + destruct (decide (k = i)) as [->|N]; [|left; by apply (inv_port _ I k)].
      pose proof (port_owner Po); unfold owners in Wi; lia.
    + subst; rewrite decide_True by done; right; rewrite Ei in E; simplify_eq; by left.
  - intros k j (j0 & E & ->)%V U St; unfold finish; cbn [ended]; apply elem_of_app; left.
    destruct (decide (k = i)) as [->|N]; [simpl in St; congruence|by apply (inv_done _ I k)].
Qed.
Lemma inv_other_starts p s : inv s → fresh_pid p s → inv (Daemon (jobs s) (next_id s) (port s) (procs s ++ [Process p None])
    (launching s) (signalled s) (ended s) (deleted s) (starts s)).
Proof.
  intros I [P0 P]; set (s' := Daemon _ _ _ _ _ _ _ _ _); assert (∀ k, owners k s' = owners k s) as O.
  { intros k; unfold owners, s'; cbn [launching procs port]; rewrite pcnt_app, pcnt_one, bool_decide_false by done; lia. }
  constructor; unfold s'; cbn [jobs next_id port procs launching ended starts]; try (by destruct I).
  - intros k K; fold s'; rewrite O; by apply (inv_out _ I).
  - intros k j E; fold s'; rewrite O; by apply (inv_own _ I).
  - rewrite map_app; apply NoDup_app; split_and!; [apply (inv_pids _ I)| |apply NoDup_singleton].
    intros x X ->%list_elem_of_singleton; done.
  - intros q [Q| ->%list_elem_of_singleton]%elem_of_app; [by apply (inv_nonzero _ I)|done].
  - intros q k j [Q|Q%list_elem_of_singleton]%elem_of_app E; [by apply (inv_pid _ I q k)|done].
Qed.
Lemma inv_other_ends p s : inv s → Process p None ∈ procs s → inv (Daemon (jobs s) (next_id s) (port s) (gone p (procs s))
    (launching s) (signalled s) (ended s) (deleted s) (starts s)).
Proof.
  intros I P; set (s' := Daemon _ _ _ _ _ _ _ _ _); assert (∀ k, owners k s' = owners k s) as O.
  { intros k; unfold owners, s'; cbn [launching procs port].
    rewrite (pcnt_gone k p None (procs s)) by (done || apply (inv_pids _ I)); rewrite bool_decide_false by done; lia. }
  assert (∀ q, q ∈ gone p (procs s) → q ∈ procs s) as G by (by intros q [? _]%gone_elem).
  constructor; unfold s'; cbn [jobs next_id port procs launching ended starts]; try (by destruct I).
  - intros k K; fold s'; rewrite O; by apply (inv_out _ I).
  - intros k j E; fold s'; rewrite O; by apply (inv_own _ I).
  - apply gone_NoDup, (inv_pids _ I).
  - intros q Q%G; by apply (inv_nonzero _ I).
  - intros q k j Q%G E; by apply (inv_pid _ I q k).
Qed.

(* ------------------------------------------------------------------ *)
(** ** What holds of every reachable daemon *)

Lemma find_from_spec i n l : match find_from i n l with
  | Some k => ∃ j, (i ≤ k)%nat ∧ l !! (k - i)%nat = Some j ∧ in_use j = true ∧ id j = n
  | None => ∀ k j, l !! k = Some j → in_use j = true → id j ≠ n
  end.
Proof.
  revert i; induction l as [|j l IH]; intros i; cbn [find_from]; [done|].
  destruct (in_use j) eqn:U, (Z.eqb_spec (id j) n) as [D|D]; cbn [andb];
    [exists j; rewrite Nat.sub_diag; by split_and!|specialize (IH (Datatypes.S i))..].
  all: destruct (find_from _ n l) as [k|]; [destruct IH as (x & K & E & R); exists x; split; [lia|];
    by replace (k - i)%nat with (Datatypes.S (k - Datatypes.S i)) by lia|].
  all: intros [|k] x; simpl; [intros [= <-]; congruence|apply IH].
Qed.
Lemma find_spec n s : match find n s with
  | Some i => ∃ j, jobs s !! i = Some j ∧ in_use j = true ∧ id j = n
  | None => ∀ k j, jobs s !! k = Some j → in_use j = true → id j ≠ n
  end.
Proof.
  unfold find; pose proof (find_from_spec 0 n (jobs s)) as F; destruct (find_from 0 n (jobs s)); [|done].
  destruct F as (j & _ & E & R); rewrite Nat.sub_0_r in E; eauto.
Qed.
Lemma get_spec n s j : (jobs_get n s).1 = Some j → ∃ i, jobs (drain s) !! i = Some j ∧ in_use j = true ∧ id j = n.
Proof.
  unfold jobs_get; cbn [fst]; pose proof (find_spec n (drain s)) as F; destruct (find n (drain s)) as [i|]; [|done].
  destruct F as (x & E & U & D); change (Some i ≫= (λ i, jobs (drain s) !! i)) with (jobs (drain s) !! i); intros J; simplify_eq; eauto.
Qed.

(** Of a job that has ended, the record says so, once its message is taken. *)
Record live (s : daemon) : Prop := Live {
  live_past n r : (n, r) ∈ ended s → n ≤ starts s;
  live_once : NoDup (ended s).*1;
  live_running i j : jobs s !! i = Some j → active j = true → i ∉ port s → id j ∉ (ended s).*1 }.
(** Every running record whose message has not come was there before. *)
Lemma live_mono s s' : live s → ended s' = ended s → starts s ≤ starts s' →
  (∀ i j, jobs s' !! i = Some j → active j = true → i ∉ port s' →
     (∃ j0, jobs s !! i = Some j0 ∧ active j0 = true ∧ (i ∉ port s) ∧ id j0 = id j) ∨ starts s < id j) → live s'.
Proof.
  intros [P O R] E S V; constructor; rewrite E; [intros n r H; specialize (P n r H); lia|done|].
  intros i j J A N; destruct (V i j J A N) as [(j0 & J0 & A0 & N0 & <-)|L]; [by apply (R i)|].
  intros ([n r] & D & H)%list_elem_of_fmap; simpl in *; specialize (P n r H); lia.
Qed.
Lemma live_harmless f i s s' : live s → harmless f → jobs s' = alter f i (jobs s) → port s' = port s → ended s' = ended s →
  starts s' = starts s → live s'.
Proof.
  intros L F J P E S; apply (live_mono s); [done..|lia|]; rewrite J, P; intros k j (j0 & E0 & ->)%alter_some A N; left.
  exists j0; split_and!; try done; destruct (decide _); try done; destruct (F j0) as (U & D & T & _); [|done].
  unfold active in *; by rewrite U, T in A.
Qed.
Lemma live_drain s : live s → live (drain s).
Proof.
  intros L; apply (live_mono s); [done|done|apply Z.le_refl|]; intros i j; rewrite drain_jobs; intros E A _; left.
  destruct (decide (i ∈ port s)); [|eauto]; destruct (jobs s !! i); [|done]; injection E as <-.
  unfold active in A; simpl in A; by rewrite andb_false_r in A.
Qed.
Lemma live_begin cmd pri sb s : inv s → live s → live (begin_job cmd pri sb s).2.
Proof.
  intros I0 L0; pose proof (inv_drain s I0) as I; pose proof (live_drain s L0) as L; unfold begin_job.
  pose proof (claim_slot_spec (drain s) I eq_refl) as C; destruct (claim_slot (drain s)) as [[i|] s2].
  2:{ destruct C as (Ej & En & Ep & Eq & El & _ & Ee & Es & _); apply (live_mono (drain s)); [done|done|cbn [snd]; rewrite Es; apply Z.le_refl|]; cbn [snd].
      rewrite Ej, Ep; intros; left; eauto. }
  destruct C as (Ej & En & Ep & Eq & El & _ & Ee & Es & j0 & E0 & A0 & O0); apply (live_mono (drain s)); [done|done|cbn [snd starts]; rewrite Es; lia|]; cbn [snd jobs port].
  rewrite Ej, Ep; intros k j; destruct (decide (k = i)) as [->|N].
  - rewrite list_lookup_insert_eq by (by apply lookup_lt_Some in E0); intros [= <-] _ _; right; cbn [id].
    destruct (inv_next _ I) as [Nx _]; rewrite En, Nx; lia.
  - rewrite list_lookup_insert_ne by done; intros; left; eauto.
Qed.
Lemma live_finish p i r r2 s : inv s → live s → Process p (Some i) ∈ procs s → live (finish p i r r2 s).
Proof.
  intros I L P; pose proof (proc_owner P) as Np; destruct (jobs s !! i) as [ji|] eqn:Ei.
  2:{ apply lookup_ge_None in Ei; rewrite (inv_len _ I) in Ei; pose proof (inv_out _ I i Ei) as Z; unfold owners in Z; lia. }
  destruct (owned_by I Ei) as (Ui & Si & Wi); [unfold owners; lia|].
  assert (active ji = true) as Ai by (unfold active; by rewrite Ui, Si).
  assert (i ∉ port s) as Pi by (apply cnt_zero; unfold owners in Wi; lia).
  pose proof (live_running _ L i ji Ei Ai Pi) as Ni; constructor; unfold finish; cbn [ended starts jobs port]; rewrite Ei.
  - intros n c [H|H%list_elem_of_singleton]%elem_of_app; [by apply (live_past _ L n c)|simplify_eq; by apply (inv_ids _ I i)].
  - rewrite fmap_app; apply NoDup_app; split_and!; [apply (live_once _ L)| |apply NoDup_singleton].
    by intros x X ->%list_elem_of_singleton.
  - intros k j (j0 & E & ->)%alter_some A [Nk N]%not_elem_of_app; rewrite fmap_app, not_elem_of_app.
    destruct (decide (k = i)) as [->|K]; [by contradict N; left|]; split; [by apply (live_running _ L k)|].
    intros D%list_elem_of_singleton; apply K; unfold active in A; apply andb_prop in A as [U _]; by apply (inv_uniq _ I k j0 i ji).
Qed.

Lemma find_drain_signal n mask s : (jobs_signal n mask s).2 = drain s ∨
  ∃ i x, jobs (drain s) !! i = Some x ∧ in_use x = true ∧ id x = n ∧ state x = JOB_RUNNING ∧ pid x ≠ 0 ∧ existsb (λ q, p_pid q =? pid x) (procs s) = true ∧
    jobs_signal n mask s = (1, Daemon (alter (set_signals mask) i (jobs (drain s))) (next_id s) [] (procs s) (launching s)
      (signalled s ++ [(pid x, mask)]) (ended s) (deleted s) (starts s)).
Proof.
  unfold jobs_signal; pose proof (find_spec n (drain s)) as F; destruct (find n (drain s)) as [i|]; [|by left].
  destruct F as (x & E & U & D); rewrite E; change (procs (drain s)) with (procs s); case_bool_decide as B; [|by left].
  destruct (Z.eqb_spec (pid x) 0) as [|Z]; [by left|]; cbn [andb negb]; destruct (existsb _ _) eqn:Ex; [|by left].
  right; exists i, x; by split_and!.
Qed.
Lemma drop_spec n s : jobs_drop_output n s = s ∨ ∃ i p, jobs_drop_output n s = delete p (on_slot i set_dropped s).
Proof.
  unfold jobs_drop_output; destruct (find n s) as [i|]; [|by left]; destruct (jobs s !! i); [|by left]; destruct (_ && _); eauto.
Qed.
Lemma signals_harmless m : harmless (set_signals m).
Proof. done. Qed.
Lemma dropped_harmless : harmless set_dropped.
Proof. done. Qed.
Lemma set_free_inactive j : active (set_free j) = false.
Proof. done. Qed.

Definition good (s : daemon) : Prop := inv s ∧ live s.
Lemma good_harmless f i s s' : good s → harmless f → jobs s' = alter f i (jobs s) → next_id s' = next_id s → port s' = port s →
  procs s' = procs s → launching s' = launching s → ended s' = ended s → starts s' = starts s → good s'.
Proof. intros [I L] **; split; [by apply (inv_harmless f i s)|by apply (live_harmless f i s)]. Qed.
Lemma good_drain s : good s → good (drain s).
Proof. intros []; split; [by apply inv_drain|by apply live_drain]. Qed.
(** Steps that leave every record that could be wrong out of it. *)
Lemma live_less s s' : live s → ended s' = ended s → starts s' = starts s → port s' = port s →
  (∀ i j, jobs s' !! i = Some j → active j = true → ∃ j0, jobs s !! i = Some j0 ∧ active j0 = true ∧ id j0 = id j) → live s'.
Proof.
  intros L E S P V; apply (live_mono s); [done|done|by rewrite S|]; rewrite P; intros i j J A N; left.
  destruct (V i j J A) as (j0 & J0 & A0 & D); eauto.
Qed.
Lemma live_delete_own i s : live s → live (delete_own i s).
Proof. intros L; unfold delete_own; destruct (jobs s !! i); [|done]; apply (live_less s); eauto. Qed.
Lemma good_delete_own i s : good s → good (delete_own i s).
Proof. intros []; split; [by apply inv_delete_own|by apply live_delete_own]. Qed.
Lemma good_give_back i s : good s → i ∈ launching s → good (give_back i s).
Proof.
  intros [I L] La; split; [by apply inv_give_back|]; apply (live_less s); try done.
  intros k j (j0 & E & ->)%alter_some A; destruct (decide _); [done|eauto].
Qed.
Lemma jobs_signal_good n mask s : good s → good (jobs_signal n mask s).2.
Proof.
  intros G; pose proof (good_drain s G) as Gd; destruct (find_drain_signal n mask s) as [->|(i & x & _ & _ & _ & _ & _ & _ & ->)]; [done|].
  by apply (good_harmless (set_signals mask) i (drain s)).
Qed.
Lemma step_starts s s' : step s s' → starts s ≤ starts s'.
Proof.
  destruct 1 as [cmd pri sb|i Li|i Li|i p Li Fp|i p Pi|i p r r2 Pi|p Fp|p Pp|n| |n mask|n]; cbn [starts give_back on_slot with_jobs with_launching]; try lia.
  - unfold begin_job; pose proof (claim_from_spec 0 None (jobs (drain s)) ltac:(done)) as C; unfold claim_slot.
    destruct (claim_from 0 None (jobs (drain s))) as [i|[[i j]|]]; [|destruct (output_deleted j)|]; cbn; lia.
  - destruct (delete_own_same i s) as (_ & _ & _ & ->); lia.
  - destruct (delete_own_same i (delete_own i s)) as (_ & _ & _ & ->), (delete_own_same i s) as (_ & _ & _ & ->); lia.
  - unfold spawn; cbn; destruct (delete_own_same i s) as (_ & _ & _ & ->); lia.
  - unfold finish; cbn; lia.
  - cbn; lia.
  - cbn; lia.
  - destruct (find_drain_signal n mask s) as [->|(i & x & _ & _ & _ & _ & _ & _ & ->)]; cbn; lia.
  - destruct (drop_spec n s) as [->|(i & p & ->)]; cbn; lia.
Qed.
Lemma step_good s s' : step s s' → starts s' < 2 ^ 32 - 2 → good s → good s'.
Proof.
  intros St W G; pose proof (step_starts s s' St) as Le; destruct G as [I L]; destruct St as [cmd pri sb|i Li|i Li|i p Li Fp|i p Pi|i p r r2 Pi|p Fp|p Pp|n| |n mask|n].
  - split; [apply inv_begin; [done|lia]|by apply live_begin].
  - apply good_give_back; [by apply good_delete_own|by destruct (delete_own_same i s) as (_ & -> & _)].
  - apply good_give_back; [by do 2 apply good_delete_own|].
    by destruct (delete_own_same i (delete_own i s)) as (_ & -> & _), (delete_own_same i s) as (_ & -> & _).
  - split; [apply inv_spawn; [by apply inv_delete_own|..]|apply (live_less (delete_own i s)); try done; [by apply live_delete_own|eauto]].
    + by destruct (delete_own_same i s) as (_ & -> & _).
    + unfold fresh_pid in *; by destruct (delete_own_same i s) as (_ & _ & -> & _).
  - split; [by apply inv_entry|]; apply (live_less s); try done.
    intros k j (j0 & E & ->)%alter_some A; exists j0; by destruct (decide _).
  - split; [by apply inv_finish|by apply live_finish].
  - split; [by apply inv_other_starts|apply (live_less s); eauto].
  - split; [by apply inv_other_ends|apply (live_less s); eauto].
  - by apply good_drain.
  - by apply good_drain.
  - by apply jobs_signal_good.
  - destruct (drop_spec n s) as [->|(i & p & ->)]; [done|]; split.
    + apply inv_delete, (inv_harmless set_dropped i s); done.
    + apply (live_less (on_slot i set_dropped s)); eauto; by apply (live_harmless set_dropped i s).
Qed.
Lemma pcnt_none i l : Forall (λ p, p_pid p ≠ 0 ∧ p_job p = None) l → pcnt i l = 0%nat.
Proof. unfold pcnt; induction 1 as [|q l [_ Q] F IH]; simpl; [done|]; by rewrite Q. Qed.
Lemma good_init others : NoDup (map p_pid others) → Forall (λ p, p_pid p ≠ 0 ∧ p_job p = None) others → good (jobs_init others).
Proof.
  intros N F; assert (∀ k j, jobs (jobs_init others) !! k = Some j → j = blank) as V.
  { intros k j E; unfold jobs_init in E; cbn [jobs] in E; apply list_elem_of_lookup_2, list_elem_of_In, repeat_spec in E; done. }
  assert (∀ k, owners k (jobs_init others) = 0%nat) as O by (intros k; unfold owners, cnt; simpl; by rewrite pcnt_none).
  rewrite Forall_forall in F; split; [constructor|constructor]; try done; intros *.
  - intros ->%V; by rewrite O.
  - by intros ->%V.
  - by intros ->%V.
  - by intros [? _]%F.
  - by intros [_ ?]%F.
  - intros ?%not_elem_of_nil; done.
  - intros ?%not_elem_of_nil; done.
  - by intros ->%V.
  - intros ?%not_elem_of_nil; done.
  - apply NoDup_nil_2.
  - by intros ->%V.
Qed.
Lemma reach_good s : reach s → starts s < 2 ^ 32 - 2 → good s.
Proof.
  induction 1 as [others N F|s s' R IH St]; intros W; [by apply good_init|].
  pose proof (step_starts s s' St); apply (step_good s s'); [done..|apply IH; lia].
Qed.
Lemma owner_active {s} (I : inv s) {p i} : Process p (Some i) ∈ procs s → ∃ j, jobs s !! i = Some j ∧ in_use j = true ∧
  state j = JOB_RUNNING ∧ (pid j = 0 ∨ pid j = p) ∧ (i ∉ port s) ∧ (i ∉ launching s).
Proof.
  intros P; pose proof (proc_owner P) as Np; destruct (jobs s !! i) as [ji|] eqn:Ei.
  2:{ apply lookup_ge_None in Ei; rewrite (inv_len _ I) in Ei; pose proof (inv_out _ I i Ei) as Z; unfold owners in Z; lia. }
  destruct (owned_by I Ei) as (Ui & Si & Wi); [unfold owners; lia|]; exists ji; unfold owners in Wi.
  split_and!; try done; [by apply (inv_pid _ I p i)|apply cnt_zero; lia..].
Qed.
Lemma find_of {s} (I : inv s) {i j} : jobs s !! i = Some j → in_use j = true → find (id j) s = Some i.
Proof.
  intros E U; pose proof (find_spec (id j) s) as F; destruct (find (id j) s) as [k|]; [|by destruct (F i j E U)].
  destruct F as (x & Ex & Ux & D); f_equal; by apply (inv_uniq _ I k x i j).
Qed.

(* ------------------------------------------------------------------ *)
(** ** The table *)

(** C31: however the workers' calls and the processes interleave, the process of a
    job runs in a record that is in use, says so, and can be found under its id, and
    no record is run by two; and what is reported of a job is the truth: exited
    exactly when it has ended, and then with the code it ended with.  (As long as
    fewer than 2^32 - 2 jobs have been started since the daemon came up: then ids
    come round again.) *)
Theorem job_table_sound s : reach s → starts s < 2 ^ 32 - 2 →
  (∀ p i, Process p (Some i) ∈ procs s → ∃ j, jobs s !! i = Some j ∧ (jobs_get (id j) s).1 = Some j ∧ state j = JOB_RUNNING ∧
     (pid j = 0 ∨ pid j = p) ∧ ∀ p', Process p' (Some i) ∈ procs s → p' = p) ∧
  (∀ n j, (jobs_get n s).1 = Some j → id j = n ∧
     if decide (state j = JOB_EXITED) then (n, rc j) ∈ ended s ∧ ∀ r, (n, r) ∈ ended s → r = rc j else n ∉ (ended s).*1).
Proof.
  intros R W; destruct (reach_good s R W) as [I L]; split.
  - intros p i P; destruct (owner_active I P) as (j & E & U & S & D & Np & Nl); exists j; split_and!; try done.
    + assert (jobs (drain s) !! i = Some j) as Ed by (rewrite drain_jobs; by rewrite decide_False).
      unfold jobs_get; cbn [fst]; rewrite (find_of (inv_drain s I) Ed U); by rewrite <- Ed.
    + intros p' P'; destruct (owned_by I E) as (_ & _ & O); [pose proof (proc_owner P); unfold owners; lia|].
      apply (pcnt_unique i (procs s)); try done; unfold owners in O; lia.
  - intros n j (i & E & U & D)%get_spec; split; [done|]; pose proof (inv_drain s I) as Id; pose proof (live_drain s L) as Ld.
    destruct (decide (state j = JOB_EXITED)) as [X|X].
    + pose proof (inv_done _ Id i j E U X) as H; rewrite D in H; split; [done|]; intros r Hr.
      by apply (once_same (ended s) n); [apply (live_once _ L)|..].
    + rewrite <- D; apply (live_running _ Ld i); [done| |apply not_elem_of_nil]; unfold active; rewrite U; by destruct (state j).
Qed.

Lemma signal_spec s n mask : reach s → starts s < 2 ^ 32 - 2 → let '(r, s') := jobs_signal n mask s in
  (r = 1 ∧ ∃ p i j, jobs (drain s) !! i = Some j ∧ in_use j = true ∧ id j = n ∧ (n ∉ (ended s).*1) ∧ Process p (Some i) ∈ procs s ∧
     signalled s' = signalled s ++ [(p, mask)]) ∨
  (signalled s' = signalled s ∧
     (r = -1 ∧ (∀ i j, jobs s !! i = Some j → in_use j = true → id j ≠ n) ∨
      r = 0 ∧ ∃ j, (jobs_get n s).1 = Some j ∧ (state j = JOB_EXITED ∨ pid j = 0))).
Proof.
  intros R W; destruct (reach_good s R W) as [I L]; pose proof (inv_drain s I) as Id; unfold jobs_signal.
  pose proof (find_spec n (drain s)) as F; destruct (find n (drain s)) as [i|] eqn:Fi.
  2:{ right; split; [done|left; split; [done|]]; intros i j E U; specialize (F i); rewrite drain_jobs, E in F.
      destruct (decide (i ∈ port s)); [by apply (F (set_exited j))|by apply F]. }
  destruct F as (j & E & U & D); rewrite E; change (procs (drain s)) with (procs s).
  assert ((jobs_get n s).1 = Some j) as G by (unfold jobs_get; cbn [fst]; rewrite Fi; exact E).
  case_bool_decide as B; cbn [andb]; [|right; split; [done|right; split; [done|exists j; split; [done|left; by destruct (state j)]]]].
  destruct (Z.eqb_spec (pid j) 0) as [|Z]; cbn [andb negb]; [right; split; [done|right; split; [done|exists j; split; [done|by right]]]|].
  pose proof (inv_own _ Id i j E) as O; unfold active in O; rewrite U, B, bool_decide_true in O by done; cbn [andb] in O.
  assert (∃ p, Process p (Some i) ∈ procs s) as [p P].
  { assert (cnt i (launching s) = 0%nat) as N by (apply cnt_zero; intros La; by destruct (Z (inv_launch _ Id i j La E))).
    unfold owners in O; cbn [launching procs port drain] in O; change (cnt i []) with 0%nat in O; rewrite N in O.
    apply pcnt_some; lia. }
  destruct (inv_pid _ Id p i j P E) as [|Pid]; [done|].
  assert (existsb (λ q, p_pid q =? pid j) (procs s) = true) as -> by
    (apply existsb_exists; exists (Process p (Some i)); rewrite <- list_elem_of_In; cbn; rewrite Pid, Z.eqb_refl; done).
  left; split; [done|]; destruct (owner_active I P) as (j0 & E0 & U0 & S0 & _ & Np & _).
  pose proof E as Ed; rewrite drain_jobs, decide_False, E0 in Ed by done; simplify_eq; exists (pid j), i, j; split_and!; try done.
  apply (live_running _ L i); try done; unfold active; by rewrite U0, S0.
Qed.
(** a signal for a job goes to that job's process and no other, while it runs;
    the result says whether it was sent, and why not if it was not. *)
Theorem jobs_signal_own s n mask : reach s → starts s < 2 ^ 32 - 2 → let '(r, s') := jobs_signal n mask s in
  (r = 1 ∧ ∃ p i j, jobs (drain s) !! i = Some j ∧ in_use j = true ∧ id j = n ∧ (n ∉ (ended s).*1) ∧ Process p (Some i) ∈ procs s ∧
     signalled s' = signalled s ++ [(p, mask)]) ∨
  (signalled s' = signalled s ∧
     (r = -1 ∧ (∀ i j, jobs s !! i = Some j → in_use j = true → id j ≠ n) ∨
      r = 0 ∧ ∃ j, (jobs_get n s).1 = Some j ∧ (state j = JOB_EXITED ∨ pid j = 0))).
Proof. apply signal_spec. Qed.

(** a start is refused exactly when all slots hold running jobs; otherwise the
    new job has an id no record has, and takes the place of a record nobody uses or of
    a finished job, and no other record changes. *)
Theorem start_refused_only_when_full cmd pri sb s : reach s → starts s < 2 ^ 32 - 2 →
  match begin_job cmd pri sb s with
  | (None, s') => running s = JOB_SLOTS ∧ jobs s' = jobs (drain s)
  | (Some (i, n), s') => (running s < JOB_SLOTS)%nat ∧ (∀ m j, (jobs_get m s).1 = Some j → m < n) ∧
      (∃ old, jobs (drain s) !! i = Some old ∧ active old = false) ∧
      (∃ new, jobs s' !! i = Some new ∧ (jobs_get n s').1 = Some new ∧ state new = JOB_RUNNING ∧ sandboxed new = sb ∧
         JOB_MIN_PRI ≤ priority new ≤ jobs_max_priority) ∧
      ∀ k, k ≠ i → jobs s' !! k = jobs (drain s) !! k
  end.
Proof.
  intros R W; destruct (reach_good s R W) as [I0 L]; pose proof (inv_drain s I0) as I; pose proof (inv_begin cmd pri sb s I0 W) as I'.
  unfold begin_job in *; pose proof (claim_slot_spec (drain s) I eq_refl) as C; destruct (claim_slot (drain s)) as [[i|] s2].
  2:{ destruct C as (Ej & _ & _ & _ & _ & _ & _ & _ & A); split; [|done]; unfold running; rewrite (filter_every active), (inv_len _ I); [done|].
      intros x (k & K)%list_elem_of_lookup_1; by apply (A k). }
  destruct C as (Ej & En & Ep & Eq & El & _ & Ee & Es & old & E0 & A0 & O0); cbn [snd] in I'; split_and!.
  - unfold running; rewrite <- (inv_len _ I); by apply (filter_fewer active i old).
  - intros m j (k & E & U & <-)%get_spec; pose proof (inv_ids _ I k j E U); destruct (inv_next _ I) as [Nx _]; lia.
  - eauto.
  - set (new := Job true (next_id s2) _ _ _ _ _ _ _ _ _ _) in *; set (s' := Daemon _ _ _ _ _ _ _ _ _) in *.
    assert (jobs s' !! i = Some new) as En' by (unfold s'; cbn [jobs]; rewrite Ej; apply list_lookup_insert_eq; by apply lookup_lt_Some in E0).
    assert (jobs (drain s') !! i = Some new) as Ed' by (rewrite drain_jobs, decide_False; [done|unfold s'; cbn [port]; rewrite Ep; apply not_elem_of_nil]).
    exists new; split_and!; try done; [|unfold new, clamp, jobs_max_priority, JOB_MIN_PRI, WORKER_PRI; cbn [priority]; repeat case_match; lia..].
    unfold jobs_get; cbn [fst]; change (next_id s2) with (id new); rewrite (find_of (inv_drain s' I') Ed' eq_refl); exact Ed'.
  - intros k N; cbn [jobs]; rewrite Ej; by apply list_lookup_insert_ne.
Qed.

(** Sums over the slots. *)
Lemma sum_ext {A} (f g : A → nat) l : (∀ i, i ∈ l → f i = g i) → sum_list_with f l = sum_list_with g l.
Proof.
  induction l as [|x l IH]; intros E; simpl; [done|]; rewrite (E x) by left; f_equal; apply IH; intros i L; apply E; by right.
Qed.
Lemma sum_add (f g : nat → nat) l :
  sum_list_with (λ i, f i + g i)%nat l = (sum_list_with f l + sum_list_with g l)%nat.
Proof. induction l as [|x l IH]; simpl; [done|]; rewrite IH; lia. Qed.
Lemma sum_one k a N :
  sum_list_with (λ i, if (k =? i)%nat then 1 else 0)%nat (seq a N) = if decide (a ≤ k < a + N)%nat then 1%nat else 0%nat.
Proof.
  revert a; induction N as [|N IH]; intros a; simpl; [by rewrite decide_False by lia|].
  rewrite IH; destruct (Nat.eqb_spec k a); repeat case_decide; lia.
Qed.
Lemma sum_cnt N l : Forall (λ k, k < N)%nat l → sum_list_with (λ i, cnt i l) (seq 0 N) = length l.
Proof.
  induction 1 as [|k l K _ IH]; [unfold cnt; simpl; by induction (seq 0 N)|]; simpl; rewrite <- IH.
  transitivity (sum_list_with (λ i, (if (k =? i)%nat then 1 else 0) + cnt i l)%nat (seq 0 N)).
  - apply sum_ext; intros i _; change (k :: l) with ([k] ++ l); by rewrite cnt_app, cnt_one.
  - rewrite sum_add, sum_one, decide_True by lia; lia.
Qed.
Lemma pcnt_cnt i l : pcnt i l = cnt i (omap p_job l).
Proof.
  induction l as [|[p [k|]] l IH]; [done| |exact IH].
  change (Process p (Some k) :: l) with ([Process p (Some k)] ++ l); rewrite pcnt_app, pcnt_one, IH.
  change (omap p_job ([Process p (Some k)] ++ l)) with ([k] ++ omap p_job l); rewrite cnt_app, cnt_one; f_equal.
  destruct (Nat.eqb_spec k i); [by rewrite bool_decide_true by congruence|by rewrite bool_decide_false by congruence].
Qed.
Lemma sum_active t a : sum_list_with (λ i, match t !! (i - a)%nat with Some j => if active j then 1 else 0 | None => 0 end)%nat
    (seq a (length t)) = length (List.filter active t).
Proof.
  revert a; induction t as [|j t IH]; intros a; simpl; [done|]; rewrite Nat.sub_diag; simpl.
  transitivity ((if active j then 1 else 0) + length (List.filter active t))%nat; [f_equal|by destruct (active j)].
  rewrite <- (IH (Datatypes.S a)); apply sum_ext.
  intros i [L _]%elem_of_seq; replace (i - a)%nat with (Datatypes.S (i - Datatypes.S a)) by lia; done.
Qed.
Lemma running_counts s : inv (drain s) → running s = (length (launching s) + length (omap p_job (procs s)))%nat.
Proof.
  intros I; set (l := launching s ++ omap p_job (procs s)).
  assert (∀ i, owners i (drain s) = cnt i l) as O.
  { intros i; unfold owners, drain, l; cbn [launching procs port]; rewrite cnt_app, pcnt_cnt; unfold cnt at 3; simpl; lia. }
  rewrite <- length_app; fold l; rewrite <- (sum_cnt JOB_SLOTS l).
  - unfold running; rewrite <- (sum_active _ 0), (inv_len _ I); apply sum_ext; intros i L.
    apply elem_of_seq in L; rewrite Nat.sub_0_r, <- O; destruct (jobs (drain s) !! i) as [j|] eqn:E.
    + by rewrite (inv_own _ I i j E).
    + apply lookup_ge_None in E; rewrite (inv_len _ I) in E; lia.
  - apply Forall_forall; intros i L; destruct (Nat.lt_ge_cases i JOB_SLOTS) as [|G]; [done|exfalso].
    pose proof (inv_out _ I i G) as Z; rewrite O in Z; by apply cnt_zero in Z.
Qed.
(** C32: What [jobs_shutdown] counts as running is what there is: the commands
    about to be started and the processes of jobs, each once; so when it counts
    none, nothing is left that could write into the table: no job's process, no
    message at the port, and no command about to be started. *)
Theorem shutdown_frees_safely s : reach s → starts s < 2 ^ 32 - 2 →
  running s = (length (launching s) + length (omap p_job (procs s)))%nat ∧
  (running s = 0%nat → port (drain s) = [] ∧ launching s = [] ∧ ∀ p i, Process p (Some i) ∉ procs s).
Proof.
  intros R W; destruct (reach_good s R W) as [I L]; pose proof (running_counts s (inv_drain s I)) as N.
  split; [done|]; rewrite N; intros Z; split; [done|].
  split; [apply length_zero_iff_nil; lia|]; intros p i P.
  assert (i ∈ omap p_job (procs s)) as H by (apply list_elem_of_omap; by exists (Process p (Some i))).
  destruct (omap p_job (procs s)); [by apply not_elem_of_nil in H|simpl in Z; lia].
Qed.

(* ------------------------------------------------------------------ *)
(** ** Waiting *)

Lemma get_step n s : step s (jobs_get n s).2.
Proof. apply (step_get s n). Qed.
Lemma reach_rtc s s' : reach s → rtc step s s' → reach s'.
Proof. intros R St; revert R; induction St as [|x y z Xy _ IH]; [done|]; intros R; apply IH; by apply (reach_step x y). Qed.
Lemma rtc_starts s s' : rtc step s s' → starts s ≤ starts s'.
Proof. induction 1 as [|x y z Xy _ IH]; [lia|]; pose proof (step_starts x y Xy); lia. Qed.
(** [k] looks at a job, with whatever happens after each. *)
Definition look (pass : daemon → daemon) (n : Z) (s : daemon) : daemon := pass (jobs_get n s).2.
Lemma looks_rtc pass n k s : (∀ x, rtc step x (pass x)) → rtc step s (Nat.iter k (look pass n) s).
Proof.
  intros P; induction k as [|k IH]; [done|]; rewrite Nat.iter_succ; etrans; [apply IH|].
  unfold look at 1; eapply rtc_l; [apply (get_step n)|apply P].
Qed.
(** The wait ends; what it hands back is the last look at the job, and a job that
    still runs is handed back only once the limit has passed. *)
Lemma wait_ends fuel pass n waited limit gu s : limit ≤ waited + 40 * (Z.of_nat fuel - 1) → (0 < fuel)%nat →
  ∃ o s' k, wait_job fuel pass n waited limit gu s = (Some o, s') ∧ jobs_get n (Nat.iter k (look pass n) s) = (o, s') ∧
    ∀ j, o = Some j → state j = JOB_RUNNING → gu = true ∨ limit ≤ waited + 40 * Z.of_nat k.
Proof.
  revert waited s; induction fuel as [|fuel IH]; intros waited s L F; [lia|]; cbn [wait_job].
  destruct (jobs_get n s) as [[j|] s1] eqn:G; [|exists None, s1, 0%nat; by split_and!].
  destruct (bool_decide _ || gu || (limit <=? waited)) eqn:B.
  - exists (Some j), s1, 0%nat; split_and!; try done; intros j' [= <-] R; rewrite R in B; rewrite bool_decide_false in B by done.
    destruct gu; [by left|right]; simpl in B; lia.
  - destruct fuel as [|fuel]; [apply orb_false_elim in B as [_ B]; lia|].
    change EXEC_POLL_MS with 40; destruct (IH (waited + 40) (pass s1)) as (o & s' & k & W & G' & Q); [lia..|].
    exists o, s', (Datatypes.S k); split_and!; [done| |].
    + rewrite Nat.iter_succ_r; unfold look at 2; by rewrite G.
    + intros j' J R; destruct (Q j' J R) as [|?]; [by left|right]; lia.
Qed.
Lemma fuel_enough limit : limit ≤ 0 + 40 * (Z.of_nat (Z.to_nat (limit / EXEC_POLL_MS) + 2) - 1).
Proof.
  unfold EXEC_POLL_MS; change (2 * 1000 / 50) with 40; pose proof (Z.div_mod limit 40); pose proof (Z.mod_pos_bound limit 40); lia.
Qed.

(** C33: [exec.cmd]'s wait ends, whatever else the daemon does meanwhile; what it
    reports is its own job's as its last look found it: the code the job ended
    with, or that the job still runs (an error unless that was asked for), and
    this only from a look made when the looks before it, forty milliseconds
    apart, have waited out the timeout; the record is lost only if it was
    evicted. *)
Theorem exec_cmd_reports pass n limit rr captured s : reach s → (∀ x, rtc step x (pass x)) →
  ∃ r s', exec_cmd_wait pass n limit rr captured s = (Some r, s') ∧ reach s' ∧ (starts s' < 2 ^ 32 - 2 →
    let still j := state j = JOB_RUNNING ∧ ∃ k, limit ≤ 40 * Z.of_nat k ∧
      jobs_get n (Nat.iter k (look pass n) s) = (Some j, s') in
    match r with
    | inr j => id j = n ∧ ((n, rc j) ∈ ended s' ∧ state j = JOB_EXITED ∨ rr = true ∧ still j)
    | inl MCPD_ERR_TARGET => rr = false ∧ ∃ j, still j
    | inl MCPD_ERR_INTERNAL => captured = false ∨ ∀ i j, jobs s' !! i = Some j → in_use j = true → id j ≠ n
    | inl _ => False
    end).
Proof.
  intros R P; destruct (wait_ends (Z.to_nat (limit / EXEC_POLL_MS) + 2) pass n 0 limit false s (fuel_enough limit) ltac:(lia))
    as (o & s' & k & W & G & Q); unfold exec_cmd_wait; rewrite W.
  set (s0 := Nat.iter k (look pass n) s) in *; assert (reach s0) as R0 by (eapply reach_rtc; [exact R|by apply looks_rtc]).
  assert (s' = drain s0) as Es by (unfold jobs_get in G; congruence).
  assert (reach s') as R' by (rewrite Es; apply (reach_step s0); [done|apply (get_step n s0)]).
  destruct o as [j|].
  2:{ exists (inl MCPD_ERR_INTERNAL), s'; split_and!; try done; intros _; right; rewrite Es; unfold jobs_get in G.
      pose proof (find_spec n (drain s0)) as F; destruct (find n (drain s0)) as [i|]; [|done].
      destruct F as (x & E & _); change (Some i ≫= (λ i, jobs (drain s0) !! i)) with (jobs (drain s0) !! i) in G; congruence. }
  assert ((jobs_get n s0).1 = Some j) as G1 by (by rewrite G).
  destruct (get_spec n s0 j G1) as (i & E & U & D); destruct (state j) eqn:S; cbn [negb andb].
  - rewrite bool_decide_true by done; destruct rr; cbn [negb andb].
    + rewrite bool_decide_false by done; destruct captured; cbn [negb].
      * exists (inr j), s'; split_and!; try done; intros _; split; [done|right]; split_and!; [done..|].
        exists k; destruct (Q j eq_refl S) as [|L]; [done|]; split; [lia|exact G].
      * exists (inl MCPD_ERR_INTERNAL), s'; split_and!; try done; intros _; by left.
    + exists (inl MCPD_ERR_TARGET), s'; split_and!; try done; intros _; split; [done|]; exists j; split; [done|].
      exists k; destruct (Q j eq_refl S) as [|L]; [done|]; split; [lia|exact G].
  - rewrite bool_decide_false by done; cbn [andb]; destruct captured; cbn [negb].
    2:{ exists (inl MCPD_ERR_INTERNAL), s'; split_and!; try done; intros _; by left. }
    rewrite bool_decide_true by done; exists (inr j), (jobs_drop_output n s'); split_and!; [done|apply (reach_step s'); [done|constructor]|].
    intros St; split; [done|left; split; [|done]].
    assert (ended (jobs_drop_output n s') = ended s' ∧ starts (jobs_drop_output n s') = starts s') as [-> Ss]
      by (by destruct (drop_spec n s') as [->|(? & ? & ->)]).
    rewrite Ss in St; destruct (reach_good s' R' St) as [I _]; rewrite Es in I; rewrite Es, <- D; by apply (inv_done _ I i).
Qed.


(** What [exec.kill] says of a signal is what happened. *)
Definition kill_told (n : Z) (force : bool) (signal : option text) (s : daemon) (sent : bool) (letter : ascii) : Prop :=
  if sent then ∃ mask p i j, kill_mask force signal = Some (mask, letter) ∧ jobs (drain s) !! i = Some j ∧ id j = n ∧
      Process p (Some i) ∈ procs s ∧ signalled (jobs_signal n mask s).2 = signalled s ++ [(p, mask)]
  else ∃ j, (jobs_get n s).1 = Some j ∧ (state j = JOB_EXITED ∨ pid j = 0).
Lemma send_and_wait_spec pass n mask letter force signal wait_ms s : reach s → starts s < 2 ^ 32 - 2 →
  kill_mask force signal = Some (mask, letter) →
  ∃ r s', send_and_wait pass n mask letter force wait_ms s = (Some r, s') ∧
    match r with
    | inr (Killed j l sent forced) => id j = n ∧ l = letter ∧ forced = force ∧ kill_told n force signal s sent letter
    | inl e => e = MCPD_ERR_INVPARAMS
    end.
Proof.
  intros R W K; pose proof (signal_spec s n mask R W) as S; unfold send_and_wait; destruct (jobs_signal n mask s) as [sent s1] eqn:J.
  destruct (Z.ltb_spec sent 0); [exists (inl MCPD_ERR_INVPARAMS), s1; by split_and!|].
  destruct (wait_ends (Z.to_nat (kill_wait wait_ms / EXEC_POLL_MS) + 2) pass n 0 (kill_wait wait_ms) (sent =? 0) s1 (fuel_enough _) ltac:(lia))
    as (o & s' & k & -> & G & _); destruct o as [j|]; [|exists (inl MCPD_ERR_INVPARAMS), s'; by split_and!].
  exists (inr (Killed j letter (negb (sent =? 0)) force)), s'; split; [done|].
  destruct (get_spec n _ j (f_equal fst G)) as (i & E & U & D); split_and!; try done; unfold kill_told.
  destruct S as [(-> & p & i' & j' & E' & U' & D' & _ & P & Sg)|(_ & [[-> _]|(-> & j' & G' & B)])]; [|lia|]; cbn.
  - exists mask, p, i', j'; split_and!; try done; by rewrite J.
  - by exists j'.
Qed.
(** [exec.kill] ends as well; [force] is for jobs in the sandbox, and is refused
    for others before any signal is sent; and what it says of the signal is so: it
    went to the job's own process, or the job had ended or had not begun. *)
Theorem exec_kill_ends pass n force signal wait_ms s : reach s → starts s < 2 ^ 32 - 2 →
  ∃ r s', exec_kill pass n force signal wait_ms s = (Some r, s') ∧
    match r with
    | inr (Killed j letter sent forced) => id j = n ∧ forced = force ∧ kill_told n force signal s sent letter ∧
        (force = true → letter = "f"%char ∧ ∃ j0, (jobs_get n s).1 = Some j0 ∧ sandboxed j0 = true)
    | inl MCPD_ERR_NOTCAPABLE => force = true ∧ s' = drain s ∧ ∃ j0, (jobs_get n s).1 = Some j0 ∧ sandboxed j0 = false
    | inl e => e = MCPD_ERR_INVPARAMS
    end.
Proof.
  intros R W; unfold exec_kill; destruct force.
  - destruct (jobs_get n s) as [[j|] s1] eqn:G; [|exists (inl MCPD_ERR_INVPARAMS), s1; by split_and!].
    assert (s1 = drain s) as -> by (unfold jobs_get in G; congruence).
    assert (reach (drain s)) as Rd by (apply (reach_step s); [done|apply (get_step n s)]).
    destruct (sandboxed j) eqn:Sb; cbn match; [|exists (inl MCPD_ERR_NOTCAPABLE), (drain s); split_and!; eauto].
    destruct (send_and_wait_spec pass n SIGBREAKF_CTRL_F "f" true signal wait_ms (drain s) Rd W eq_refl) as (r & s' & E & H).
    exists r, s'; split; [exact E|]; destruct r as [e|[j' l sent forced]]; [by subst e|].
    destruct H as (D & -> & -> & T); split_and!; [done|done|exact T|]; intros _; split; [done|by exists j].
  - destruct (kill_mask false signal) as [[mask letter]|] eqn:K; [|exists (inl MCPD_ERR_INVPARAMS), s; by split_and!].
    destruct (send_and_wait_spec pass n mask letter false signal wait_ms s R W K) as (r & s' & E & H).
    exists r, s'; split; [exact E|]; destruct r as [e|[j' l sent forced]]; [by subst e|].
    destruct H as (D & -> & -> & T); by split_and!.
Qed.

(* ------------------------------------------------------------------ *)
(** ** A run: a sandboxed job is started, runs, and ends *)

Definition run_begin : daemon := (begin_job (txt "Wait 10") 5 true (jobs_init [Process 5 None])).2.
Definition run_running : daemon := on_slot 0 (set_entered 7) (spawn 0 7 (delete_own 0 run_begin)).
Definition run_ended : daemon := finish 7 0 20 205 run_running.
Lemma run_running_reach : reach run_running.
Proof.
  apply (reach_step (spawn 0 7 (delete_own 0 run_begin))); [|apply step_entry; vm_compute; right; left].
  apply (reach_step run_begin); [|apply step_spawn; [left|split; [done|]]].
  - apply (reach_step (jobs_init [Process 5 None])); [|constructor]; constructor; [apply NoDup_singleton|by repeat constructor].
  - change (7 ∉ [5]); intros H%list_elem_of_singleton; done.
Qed.
Lemma run_ended_reach : reach run_ended.
Proof. apply (reach_step run_running); [apply run_running_reach|apply step_finish; vm_compute; right; left]. Qed.
Lemma job_table_sound_witness : starts run_ended = 1 ∧ (jobs_get 1 run_running).1 <> None ∧
  match (jobs_get 1 run_ended).1 with Some j => (1, rc j) ∈ ended run_ended | None => False end.
Proof.
  split; [reflexivity|split; [discriminate|]].
  destruct (job_table_sound run_ended run_ended_reach ltac:(reflexivity)) as [_ T].
  destruct (T 1 _ eq_refl) as [_ D]; exact (proj1 D).
Defined.
Lemma jobs_signal_own_witness : (jobs_signal 1 SIGBREAKF_CTRL_C run_running).1 = 1 ∧
  ∃ p, signalled (jobs_signal 1 SIGBREAKF_CTRL_C run_running).2 = [(p, SIGBREAKF_CTRL_C)].
Proof.
  split; [reflexivity|].
  destruct (jobs_signal_own run_running 1 SIGBREAKF_CTRL_C run_running_reach ltac:(reflexivity)) as [(_ & p & i & j & _ & _ & _ & _ & _ & S)|(_ & [[E _]|[E _]])];
    [exists p; exact S|discriminate E|discriminate E].
Defined.
Lemma start_refused_only_when_full_witness : ∃ s', begin_job (txt "List") 0 false run_running = (Some (1%nat, 2), s') ∧ (running run_running < JOB_SLOTS)%nat.
Proof.
  eexists; split; [reflexivity|].
  exact (proj1 (start_refused_only_when_full (txt "List") 0 false run_running run_running_reach ltac:(reflexivity))).
Defined.
Lemma shutdown_frees_safely_witness : running run_ended = 0%nat ∧ ∀ p i, Process p (Some i) ∉ procs run_ended.
Proof.
  split; [reflexivity|].
  exact (proj2 (proj2 (proj2 (shutdown_frees_safely run_ended run_ended_reach ltac:(reflexivity)) ltac:(reflexivity)))).
Defined.
(** The rest of the world, in the witness of the waits: the job ends, if it runs. *)
Definition ends (s : daemon) : daemon :=
  if decide (Process 7 (Some 0%nat) ∈ procs s) then finish 7 0 20 205 s else s.
Lemma ends_steps s : rtc step s (ends s).
Proof. unfold ends; destruct (decide _); [|done]; apply rtc_once; by constructor. Qed.
Lemma exec_cmd_reports_witness :
  (∃ j s', exec_cmd_wait ends 1 30000 false true run_running = (Some (inr j), s') ∧ rc j = 20) ∧
  ∃ r s', exec_cmd_wait ends 1 30000 false true run_running = (Some r, s') ∧ reach s'.
Proof.
  split; [eexists _, _; split; [vm_compute; reflexivity|reflexivity]|].
  destruct (exec_cmd_reports ends 1 30000 false true run_running run_running_reach ends_steps) as (r & s' & E & R & _).
  exists r, s'; split; assumption.
Defined.
Lemma exec_kill_ends_witness :
  (∃ j s', exec_kill ends 1 true None 2000 run_running = (Some (inr (Killed j "f" true true)), s') ∧ state j = JOB_EXITED) ∧
  ∃ r s', exec_kill ends 1 true None 2000 run_running = (Some r, s').
Proof.
  split; [eexists _, _; split; [vm_compute; reflexivity|reflexivity]|].
  destruct (exec_kill_ends ends 1 true None 2000 run_running run_running_reach ltac:(reflexivity)) as (r & s' & E & _).
  exists r, s'; exact E.
Defined.
Example quoting : (quote_arg (txt "a b"), quote_arg (txt "plain"), quote_arg []) = (["034"%char] ++ txt "a b" ++ ["034"%char], txt "plain", ["034"; "034"]%char).
Proof. reflexivity. Qed.
