(* ===== verification/Events.v ===== *)
(** * The daemon's events: [mcpd/src/methods/events.c]

    [events.wait], which polls for a change of what the caller names, and the
    subscriptions of a connection, whose notifications [main.c] asks for between
    requests.  What the daemon looks at, [ExecBase], is given poll by poll; the
    decoded names an exception event also carries are left out. *)
From S2P Require Import Prelude Py.

Definition POLL_PERIOD_MS : Z := 200.
Definition MAX_TIMEOUT_MS : Z := 60000.
Definition MAX_TASK_NAMES : nat := 128.
Definition TASK_NAME_LEN : nat := 80.

(** What one poll sees: [LastAlert[0..3]], the two task lists by their names,
    [None] for a node without one, and whether Ctrl-C came. *)
Record sight := Sight { alert : Z; payload : list Z; ready : list (option text); waiting : list (option text); ctrl_c : bool }.

(** [_sanitize_str] up to the terminating NUL. *)
Definition printable (c : ascii) : ascii := if (32 <=? ord c) && (ord c <? 127) then c else "?"%char.
Fixpoint c_string (s : text) : text :=
  match s with [] => [] | c :: s => if decide (ord c = 0) then [] else c :: c_string s end.
Definition sanitize_str (src : option text) : text := map printable (take (TASK_NAME_LEN - 1) (c_string (default [] src))).
(** [_snapshot_task_names]: [n] is the number of names already taken. *)
Fixpoint walk (n : nat) (nodes : list (option text)) : list text :=
  match nodes with
  | [] => []
  | name :: nodes => if (n <? MAX_TASK_NAMES)%nat then sanitize_str name :: walk (S n) nodes else []
  end.
Definition snapshot_task_names (s : sight) : list text :=
  let r := walk 0 (ready s) in r ++ walk (length r) (waiting s).
(** [_name_in_set] *)
Definition name_in_set (names : list text) (name : text) : bool := existsb (λ n, bool_decide (n = name)) names.

Inductive event :=
| LastAlert (code previous : Z)
| Exception (code : Z) (payload : list Z)
| TaskAdded (name : text)
| TaskRemoved (name : text).

(* ------------------------------------------------------------------ *)
(** ** [events.wait] *)

Record wants := Wants { want_alert : bool; want_task : bool; want_excpt : bool }.
(** The topics asked for; none of those known is all of them. *)
Definition names_topic (t : string) (j : json) : bool := match j with JStr s => bool_decide (s = t) | _ => false end.
Definition parse_topics (topics : option json) : wants :=
  match topics with
  | Some (JArr l) =>
      let a := existsb (names_topic "sys.lastalert") l in
      let t := existsb (names_topic "sys.task") l in
      let x := existsb (names_topic "debug.exception") l in
      if a || t || x then Wants a t x else Wants true true true
  | _ => Wants true true true
  end.
Definition clamp_timeout (t : Z) : Z := if t <? 0 then 0 else if MAX_TIMEOUT_MS <? t then MAX_TIMEOUT_MS else t.
(** The high bit of a code: an alert that is not survived. *)
Definition dead_end (code : Z) : bool := negb (Z.land code 2147483648 =? 0).

(** One look at the alerts: the events, and whether anything changed. *)
Definition alert_events (w : wants) (prev : Z) (s : sight) : list event * bool :=
  if (want_alert w || want_excpt w) && negb (alert s =? prev) then
    ((if want_alert w then [LastAlert (alert s) prev] else []) ++
     (if want_excpt w && dead_end (alert s) then [Exception (alert s) (payload s)] else []), true)
  else ([], false).
Definition task_events (w : wants) (prev cur : list text) : list event :=
  if want_task w then
    map TaskAdded (List.filter (λ n, negb (name_in_set prev n)) cur) ++
    map TaskRemoved (List.filter (λ n, negb (name_in_set cur n)) prev)
  else [].
(** The loop: [look k] is what the [k]-th poll sees, and [polls] how many are
    left before the timeout. *)
Fixpoint poll_loop (polls : nat) (look : nat → sight) (w : wants) (k : nat) (prev_alert : Z) (prev_tasks : list text)
    : list event * Z :=
  match polls with
  | O => ([], POLL_PERIOD_MS * Z.of_nat (k - 1))
  | S polls =>
      let s := look k in
      let elapsed := POLL_PERIOD_MS * Z.of_nat k in
      if ctrl_c s then ([], elapsed)
      else
        let '(evs, changed) := alert_events w prev_alert s in
        let cur := snapshot_task_names s in
        let tevs := task_events w prev_tasks cur in
        if changed || negb (bool_decide (tevs = [])) then (evs ++ tevs, elapsed)
        else poll_loop polls look w (S k) prev_alert cur
  end.
(** [while (elapsed < timeout_ms)] with [elapsed] growing by the period. *)
Definition polls_of (timeout_ms : Z) : nat := Z.to_nat ((timeout_ms + POLL_PERIOD_MS - 1) / POLL_PERIOD_MS).
(** The handler; [memory] says whether the two [calloc]s succeed, [None] is the
    error answer. *)
Definition events_wait (memory : bool) (look : nat → sight) (topics : option json) (timeout : Z) : option (list event * Z) :=
  let w := parse_topics topics in
  if want_task w && negb memory then None
  else Some (poll_loop (polls_of (clamp_timeout timeout)) look w 1 (alert (look 0%nat)) (snapshot_task_names (look 0%nat))).

(* ------------------------------------------------------------------ *)
(** ** Subscriptions *)

Definition EV_TOPIC_LASTALERT : Z := 1.
Definition EV_TOPIC_DEBUG_EXC : Z := 2.
(** [struct ev_state] of a connection. *)
Record ev_state := Ev { topics_mask : Z; baseline_initialized : bool; baseline_alert_code : Z; pending_synthetic : option json }.
(** A notification: one of a change, or the text of [events.test_emit]. *)
Inductive notification := Change (e : event) | Synthetic (j : json).

Definition mask_of (topics : option json) : Z :=
  match topics with
  | Some (JArr l) =>
      Z.lor (if existsb (names_topic "sys.lastalert") l then EV_TOPIC_LASTALERT else 0)
            (if existsb (names_topic "debug.exception") l then EV_TOPIC_DEBUG_EXC else 0)
  | _ => 0
  end.
Definition events_subscribe (topics : option json) (st : ev_state) : ev_state :=
  Ev (mask_of topics) false (baseline_alert_code st) (pending_synthetic st).
Definition events_unsubscribe (st : ev_state) : ev_state := Ev 0 false (baseline_alert_code st) (pending_synthetic st).
Definition events_client_reset (st : ev_state) : ev_state := Ev 0 false 0 None.
(** [events.test_emit]; [None] when there is no topic. *)
Definition synthetic (topic : string) (data : option json) : json :=
  JObj [("jsonrpc", JStr "2.0"); ("method", JStr "events.notify");
        ("params", JObj [("topic", JStr topic);
                         ("data", match data with Some (JObj d) => JObj d | _ => JObj [] end)])]%string.
Definition events_test_emit (topic : option string) (data : option json) (st : ev_state) : option ev_state :=
  t ← topic; Some (Ev (topics_mask st) (baseline_initialized st) (baseline_alert_code st) (Some (synthetic t data))).
(** [events_drain_synthetic] *)
Definition events_drain_synthetic (st : ev_state) : list notification * ev_state :=
  match pending_synthetic st with
  | None => ([], st)
  | Some j => ([Synthetic j], Ev (topics_mask st) (baseline_initialized st) (baseline_alert_code st) None)
  end.
Definition subscribed (topic mask : Z) : bool := negb (Z.land mask topic =? 0).
Definition notifications (mask prev : Z) (s : sight) : list notification :=
  (if subscribed EV_TOPIC_LASTALERT mask then [Change (LastAlert (alert s) prev)] else []) ++
  (if subscribed EV_TOPIC_DEBUG_EXC mask && dead_end (alert s) then [Change (Exception (alert s) (payload s))] else []).
(** [events_emit_pending] *)
Definition events_emit_pending (s : sight) (st : ev_state) : list notification * ev_state :=
  let '(out, st) := events_drain_synthetic st in
  if topics_mask st =? 0 then (out, st)
  else if negb (baseline_initialized st) then (out, Ev (topics_mask st) true (alert s) (pending_synthetic st))
  else if alert s =? baseline_alert_code st then (out, st)
  else (out ++ notifications (topics_mask st) (baseline_alert_code st) s,
        Ev (topics_mask st) true (alert s) (pending_synthetic st)).

(* ------------------------------------------------------------------ *)
(** ** A wait reports the first change *)


Lemma alert_events_none w prev s : (alert_events w prev s).2 = false → (alert_events w prev s).1 = [].
Proof. unfold alert_events. by destruct (_ && _). Qed.


(** *** What a wait promises, in terms of what is asked and seen *)




(* ------------------------------------------------------------------ *)
(** ** Subscriptions report every change once *)

(** The polls of a connection one after the other, and what they should give:
    the changes between one look and the next. *)
Fixpoint emit_all (ss : list sight) (st : ev_state) : list notification * ev_state :=
  match ss with
  | [] => ([], st)
  | s :: ss => let '(out, st) := events_emit_pending s st in
               let '(rest, st) := emit_all ss st in (out ++ rest, st)
  end.
Fixpoint changes (mask prev : Z) (ss : list sight) : list notification :=
  match ss with
  | [] => []
  | s :: ss => (if alert s =? prev then [] else notifications mask prev s) ++ changes mask (alert s) ss
  end.
Lemma emit_changes mask prev ss : mask ≠ 0 →
  (emit_all ss (Ev mask true prev None)).1 = changes mask prev ss.
Proof.
  intros Hm. revert prev. induction ss as [|s ss IH]; intros prev; [done|]. cbn [emit_all changes].
  unfold events_emit_pending, events_drain_synthetic. cbn [pending_synthetic topics_mask baseline_initialized baseline_alert_code].
  replace (mask =? 0) with false by lia. cbn [negb].
  destruct (Z.eqb_spec (alert s) prev) as [->|Hne]; cbn [app].
  - specialize (IH prev). by destruct (emit_all ss (Ev mask true prev None)) as [rest st].
  - specialize (IH (alert s)). destruct (emit_all ss (Ev mask true (alert s) None)) as [rest st]. simpl in *. by rewrite IH.
Qed.
(** A subscription starts from what the first poll after it sees, and from then
    on each change between two polls is notified once, in order. *)
Theorem push_reports_changes topics st s0 ss : mask_of topics ≠ 0 → pending_synthetic st = None →
  (emit_all (s0 :: ss) (events_subscribe topics st)).1 = changes (mask_of topics) (alert s0) ss.
Proof.
  intros Hm Hp. rewrite <-emit_changes by done. cbn [emit_all]. unfold events_emit_pending, events_drain_synthetic, events_subscribe.
  cbn [pending_synthetic topics_mask baseline_initialized baseline_alert_code]. rewrite Hp. cbn [topics_mask baseline_initialized negb].
  replace (mask_of topics =? 0) with false by lia. by destruct (emit_all ss _).
Qed.
(** Without a subscription, and after a reset, nothing is notified. *)
Theorem unsubscribed_silent st ss : topics_mask st = 0 → pending_synthetic st = None → emit_all ss st = ([], st).
Proof.
  destruct st as [m b a p]. cbn. intros -> ->. induction ss as [|s ss IH]; [done|]. cbn [emit_all].
  unfold events_emit_pending, events_drain_synthetic. cbn [pending_synthetic topics_mask Z.eqb]. by rewrite IH.
Qed.
(** A test notification goes out once, at the next poll, subscribed or not. *)
Theorem test_emit_once topic data st st' s : events_test_emit (Some topic) data st = Some st' →
  ∃ rest, (events_emit_pending s st').1 = Synthetic (synthetic topic data) :: rest ∧
  pending_synthetic (events_emit_pending s st').2 = None.
Proof.
  intros [= <-]. unfold events_emit_pending, events_drain_synthetic.
  cbn [pending_synthetic topics_mask baseline_initialized baseline_alert_code].
  destruct (topics_mask st =? 0); [by eexists|]. destruct (baseline_initialized st); cbn [negb]; [|by eexists].
  destruct (_ =? _); by eexists.
Qed.

(* ------------------------------------------------------------------ *)
(** ** Examples *)

Definition at_alert (code : Z) : sight := Sight code [0; 0; 0] [Some (txt "MCPd")] [] false.
Definition topics_of (l : list string) : option json := Some (JArr (map JStr l)).
(** A caller that only waits for exceptions is answered at once, with nothing,
    when an alert comes that is survived. *)
Example ex_recoverable_ends_wait :
  events_wait true (λ k, at_alert (if (k =? 0)%nat then 0 else 16777216)) (topics_of ["debug.exception"%string]) 5000 = Some ([], 200).
Proof. vm_compute. reflexivity. Qed.
(** A misspelt topic is every topic for a wait and none for a subscription. *)
Example ex_unknown_topic :
  parse_topics (topics_of ["sys.tasks"%string]) = Wants true true true ∧ mask_of (topics_of ["sys.tasks"%string]) = 0.
Proof. done. Qed.
(** With more than 128 tasks, one that goes to the ready list pushes another out
    of the snapshot: a wait reports tasks that neither started nor ended. *)
Definition task (k : nat) : option text := Some (show_int (Z.of_nat k)).
Definition crowd (first : list (option text)) (others : list nat) : sight := Sight 0 [0; 0; 0] first (map task others) false.
Example ex_crowd :
  events_wait true (λ k, if (k =? 0)%nat then crowd [] (seq 0 129) else crowd [task 128] (seq 0 128))
    (topics_of ["sys.task"%string]) 5000 = Some ([TaskAdded (txt "128"); TaskRemoved (txt "127")], 200).
Proof. vm_compute. reflexivity. Qed.
(** Two tasks of one name are one: the second is not seen to come. *)
Example ex_namesakes :
  events_wait true (λ k, Sight 0 [0; 0; 0] (repeat (Some (txt "Shell")) (S k)) [] false) (topics_of ["sys.task"%string]) 400 = Some ([], 400).
Proof. vm_compute. reflexivity. Qed.
Example ex_subscribed :
  let st := events_subscribe (topics_of ["sys.lastalert"; "debug.exception"]%string) (Ev 0 false 0 None) in
  (emit_all (map at_alert [7; 7; 9; 2147483649]) st).1 =
    map Change [LastAlert 9 7; LastAlert 2147483649 9; Exception 2147483649 [0; 0; 0]].
Proof. vm_compute. reflexivity. Qed.
