(* ===== verification/Config.v ===== *)
(** * Configuration: [config.py]

    The validated configuration records, the [endpoint] validator with the
    [host] and [port] views of it, and the choice of the target a call goes to.
    A [Config] here is one that [Config.model_validate] accepted; [Validate]
    models how it is made from a TOML document. *)
From S2P Require Import Prelude Py.

(* ------------------------------------------------------------------ *)
(** ** Records *)

Inductive LogLevel := Ldebug | Linfo | Lwarn | Lerror.
Inductive McpTransport := Stdio | Sse | StreamableHttp.

Record ServerConfig := {
  log_level : LogLevel;
  log_dir : string;
  archive_root : string;
  archive_keep_runs : option Z;
  serial_log_keep : option Z;
  serial_log_max_total_mb : option Z;
  mcp_transport : McpTransport;
  mcp_http_addr : string;
  default_target : option string }.
Definition ServerConfig_default : ServerConfig :=
  {| log_level := Linfo; log_dir := "logs"; archive_root := "archive";
     archive_keep_runs := Some 50; serial_log_keep := Some 20;
     serial_log_max_total_mb := Some 512; mcp_transport := Stdio;
     mcp_http_addr := "127.0.0.1:7180"; default_target := None |}.

Record QmpChannel := { qmp_enabled : bool; qmp_endpoint : string }.
Record McpdChannel :=
  { mcpd_enabled : bool; mcpd_endpoint : string; discovery_port : option Z }.
Record GdbChannel := { gdb_enabled : bool; gdb_endpoint : string }.
Record SerialChannel := { ser_enabled : bool; ser_port : string; ser_baud : Z }.

Record InputConfig := {
  in_enabled : bool;
  max_text_len : Z;
  max_events : Z;
  default_delay_ms : Z;
  allow_drag : bool }.
Definition InputConfig_default : InputConfig :=
  {| in_enabled := false; max_text_len := 128; max_events := 256;
     default_delay_ms := 15; allow_drag := true |}.

Record TargetChannels := {
  mcpd : option McpdChannel;
  qmp : option QmpChannel;
  gdb : option GdbChannel;
  uboot : option SerialChannel;
  mcu : option SerialChannel }.

Record SandboxTargetConfig := {
  sb_path : option string;
  default_extmem_mb : Z;
  default_window_mb : Z;
  cfg_deny_libs : list string }.

Inductive TargetType := Qemu | Remote.
#[export] Instance TargetType_eq_dec : EqDecision TargetType.
Proof. solve_decision. Defined.

Record TargetConfig := {
  type : TargetType;
  display_name : option string;
  machine : option string;
  qemu_config : option string;
  headless : bool;
  tags : list string;
  channels : TargetChannels;
  sandbox : option SandboxTargetConfig;
  input : option InputConfig }.

Record PathsConfig := {
  amiga_qemu_tests : option string;
  qemu_binary : option string;
  sandboxvm : option string }.

Record DefaultsConfig := {
  dest_volume : option string;
  sources_dir : option string;
  def_machine : option string;
  iso_filename : option string;
  exec_priority : option Z }.

(** [targets] is a dict: the TOML order is kept, names are distinct. *)
Record Config := {
  server : ServerConfig;
  paths : PathsConfig;
  defaults : DefaultsConfig;
  targets : list (string * TargetConfig) }.

Definition config_ok (c : Config) : Prop := NoDup (targets c).*1.

(* ------------------------------------------------------------------ *)
(** ** Endpoints *)

(** The [_check_endpoint] validator of the three TCP channels. *)
Definition check_endpoint (v : string) : res exn string :=
  if negb (contains (txt ":") (txt v)) then Raise (EPy ValueError)
  else match rpartition ":" (txt v) with
       | None => Raise (EPy ValueError)
       | Some (host, port) =>
           if (if host is [] then true else false) || negb (isdigit port)
           then Raise (EPy ValueError) else Ret v
       end.

(** The [host] and [port] properties.  [rpartition] of a string without a
    colon is [("", "", v)]. *)
Definition endpoint_host (v : string) : string :=
  match rpartition ":" (txt v) with Some (host, _) => str host | None => "" end.
Definition endpoint_port (v : string) : res exn Z :=
  let port := match rpartition ":" (txt v) with Some (_, p) => p | None => txt v end in
  match int_of_text 10 port with Some n => Ret n | None => Raise (EPy ValueError) end.

(* ------------------------------------------------------------------ *)
(** ** Targets *)

(** [Config.target] *)
Definition target (c : Config) (name : string) : res exn TargetConfig :=
  match assoc name (targets c) with Some t => Ret t | None => Raise (EPy KeyError) end.

(** Python truth of an optional string. *)
Definition truthy (s : option string) : option string :=
  match s with Some "" => None | _ => s end.

(** [Config.resolve_target]: an explicit name wins over the default. *)
Definition resolve_target (c : Config) (name : option string) : res exn string :=
  let given := str (strip (txt (default "" name))) in
  let chosen := match truthy (Some given) with
                | Some n => Some n
                | None => truthy (default_target (server c))
                end in
  match chosen with
  | None => Raise (EPy ValueError)
  | Some n => if decide (n ∈ (targets c).*1) then Ret n else Raise (EPy ValueError)
  end.

(* ------------------------------------------------------------------ *)
(** ** Properties *)


(** Writing and reading a host and port. *)
Definition make_endpoint (host : string) (port : Z) : string :=
  str (txt host ++ ":"%char :: show_base 10 port).

Lemma colon_not_digit z : 0 ≤ z → ":"%char ∉ show_base 10 z.
Proof.
  intros Hz Hin. pose proof (show_base_digits 10 z ltac:(lia) Hz) as Hd.
  rewrite Forall_forall in Hd. destruct (Hd _ Hin) as (d & Hd' & Heq).
  destruct (digit_char_plain d) as (_ & _ & _ & Hne); [lia|]. by apply Hne.
Qed.

Lemma isdigit_show z : 0 ≤ z → isdigit (show_base 10 z) = true.
Proof.
  intros Hz. pose proof (show_base_digits 10 z ltac:(lia) Hz) as Hd.
  pose proof (parse_show 10 z ltac:(lia) Hz) as Hp.
  unfold isdigit. destruct (show_base 10 z) as [|c t]; [done|].
  apply Is_true_true, forallb_True. eapply Forall_impl; [exact Hd|]. intros c' (d & Hd' & ->).
  unfold digit_char. rewrite (proj2 (Z.ltb_lt d 10)) by lia.
  unfold is_digit, is_decimal, in_range. rewrite ord_chr by lia.
  by replace ((48 <=? 48 + d) && (48 + d <=? 57)) with true by lia.
Qed.

(** Every [host:port] text the validator was written for passes it, and the
    two properties give the parts back -- also when the host itself contains
    colons (an IPv6 literal). *)
Lemma endpoint_parts_spec host port :
  host ≠ "" → 0 ≤ port →
  let v := make_endpoint host port in
  check_endpoint v = Ret v ∧ endpoint_host v = host ∧ endpoint_port v = Ret port.
Proof.
  intros Hhost Hport v. unfold v, make_endpoint, check_endpoint, endpoint_host, endpoint_port.
  rewrite !txt_str, rpartition_app by (by apply colon_not_digit).
  rewrite int_of_show by lia. rewrite isdigit_show by done.
  change (txt ":") with [":"%char]. rewrite contains_char, bool_decide_eq_true_2 by set_solver. simpl.
  rewrite str_txt. destruct host as [|c h]; [done|]. done.
Qed.

Lemma endpoint_parts_spec_witness :
  let v := make_endpoint "::1" 4321 in
  v = "::1:4321" ∧ check_endpoint v = Ret v ∧ endpoint_host v = "::1" ∧ endpoint_port v = Ret 4321.
Proof.
  split; [vm_compute; reflexivity|]. apply (endpoint_parts_spec "::1" 4321); [discriminate|lia].
Defined.

(** The trimmed name a caller gave, [""] for none. *)
Definition given (name : option string) : string := str (strip (txt (default "" name))).

(** [resolve_target] returns [n] exactly when [n] is configured and is
    the trimmed name given, or, when none was given, the non-empty default:
    an explicit name is never replaced by the default, and nothing is
    returned that the configuration does not have. *)
Theorem resolve_target_spec c name n :
  resolve_target c name = Ret n ↔
  n ∈ (targets c).*1 ∧ n ≠ "" ∧
  if decide (given name = "") then default_target (server c) = Some n else n = given name.
Proof.
  unfold resolve_target, given. set (g := str (strip (txt (default "" name)))).
  assert (∀ m, (if decide (m ∈ (targets c).*1) then Ret m else Raise (EPy ValueError)) = Ret n ↔
               n ∈ (targets c).*1 ∧ n = m) as Hm.
  { intros m. case_decide; naive_solver. }
  destruct (decide (g = "")) as [->|Hg].
  - simpl. destruct (default_target (server c)) as [[|a d]|]; simpl; [naive_solver| |naive_solver].
    rewrite Hm. naive_solver.
  - assert (truthy (Some g) = Some g) as -> by (by destruct g). rewrite Hm. naive_solver.
Qed.
