(* ===== verification/Net.v ===== *)
(** * The network the transports run on

    [asyncio] streams, the clock and the handlers of notifications as one
    environment class, what a connection that delivers bytes in order adds,
    and a scripted network for the examples. *)
From S2P Require Import Prelude Py.

(** What [asyncio] streams, the clock and the notification handlers do.  A
    connection is named by a number.  [write_drain] is [writer.write(b)] and
    [await writer.drain()]: it returns when all of [b] went out. *)
Inductive io_exn :=
| IoOS (c : os_class) (text : string)
| IoEof                                (** [asyncio.IncompleteReadError] *)
| IoCancelled.                         (** the calling task was cancelled *)
Definition io_to_exn (e : io_exn) : exn :=
  match e with IoOS c s => EOS c s | IoEof => EIncompleteRead | IoCancelled => ECancelled end.

Class Net (E : Type) := {
  open_connection : string → Z → option Z → M E io_exn nat;
  at_eof : nat → E → bool;
  readexactly : nat → Z → Z → M E io_exn bytes;
  write_drain : nat → bytes → M E io_exn unit;
  close_wait : nat → option Z → M E io_exn unit;
  monotonic : E → Z;
  sleep : Z → M E io_exn unit;
  run_handler : nat → json → M E exn unit }.

(** [with socket.create_connection((host, port), timeout)]: the connection is
    made and closed, or an exception is raised. *)
Class Tcp (E : Type) := tcp_connect : string → Z → Z → M E exn unit.

(* ------------------------------------------------------------------ *)
(** ** Over a connection that delivers bytes in order *)

(** What the stream of connection [c] still holds, and that [readexactly]
    takes from its front when enough has arrived. *)
Class StreamNet (E : Type) `{Net E} := {
  pending : nat → E → bytes;
  readexactly_take c n t e : 0 ≤ n ≤ Z.of_nat (length (pending c e)) →
    ∃ e', readexactly c n t e = (Ret (take (Z.to_nat n) (pending c e)), e') ∧
          ∀ c', pending c' e' = if decide (c' = c) then drop (Z.to_nat n) (pending c e)
                                else pending c' e;
  (** A handler ends, normally or with an [Exception], and reads no stream. *)
  run_handler_safe h j e : ∃ r e', run_handler h j e = (r, e') ∧
    (∀ c, pending c e' = pending c e) ∧ r ≠ Spin ∧ r ≠ Raise ECancelled }.

(* ------------------------------------------------------------------ *)
(** ** A concrete network

    One connection, named 0.  Each write takes the next entry of [replies]:
    bytes that then arrive, or a connection reset. *)
Record script := Script {
  inbox : bytes;
  clock : Z;
  replies : list (option bytes);
  silent : bool }.                     (** no EOF: a short read times out *)
Definition script_pending (c : nat) (e : script) : bytes := if decide (c = 0%nat) then inbox e else [].
#[export] Instance script_net : Net script := {|
  open_connection host port t := mret 0%nat;
  at_eof c e := false;
  readexactly c n t := λ e,
    if decide (n ≤ Z.of_nat (length (script_pending c e)))
    then (Ret (take (Z.to_nat n) (script_pending c e)),
          Script (if decide (c = 0%nat) then drop (Z.to_nat n) (inbox e) else inbox e)
                 (clock e + 1) (replies e) (silent e))
    else (Raise (if silent e then IoOS TimeoutError "" else IoEof),
          Script [] (clock e + t) (replies e) (silent e));
  write_drain c b := λ e,
    match replies e with
    | [] => (Ret tt, e)
    | Some r :: rs => (Ret tt, Script (inbox e ++ r) (clock e) rs (silent e))
    | None :: rs => (Raise (IoOS ConnectionResetError ""), Script [] (clock e) rs (silent e))
    end;
  close_wait c t := λ e, (Ret tt, Script [] (clock e) (replies e) (silent e));
  monotonic := clock;
  sleep t := λ e, (Ret tt, Script (inbox e) (clock e + t) (replies e) (silent e));
  run_handler h j := mret tt |}.
#[export, refine] Instance script_stream : StreamNet script := {| pending := script_pending |}.
Proof.
  - intros c n t e Hn. eexists. simpl. rewrite decide_True by lia. split; [done|].
    intros c'. unfold script_pending. simpl.
    repeat case_decide; subst; try done; by rewrite drop_nil.
  - intros h j e. exists (Ret tt), e. by split_and!.
Defined.

