(* ===== verification/Schema.v ===== *)
(** * Result models

    The pydantic classes of the tools as data, what [model_validate] makes of
    an answer, and that it only ever yields values of the class.  How a scalar
    of another kind is coerced is pydantic's and a parameter. *)
From S2P Require Import Prelude Py.

Inductive scalar := SInt | SFloat | SBool | SStr.
(** An annotation; a [Model] lists its fields with their defaults. *)
#[local] Unset Elimination Schemes.
Inductive ty :=
| Scalar (k : scalar)
| AnyDict                      (** [dict[str, Any]] *)
| OneOf (l : list string)      (** [Literal["a", "b"]] *)
| Opt (t : ty)                 (** [t | None] *)
| Many (t : ty)                (** [list[t]] *)
| Model (fs : list (string * ty * option json)).
#[local] Set Elimination Schemes.

Section ty_ind.
Context (P : ty → Prop) (HScalar : ∀ k, P (Scalar k)) (HDict : P AnyDict) (HOneOf : ∀ l, P (OneOf l)) (HOpt : ∀ t, P t → P (Opt t))
  (HMany : ∀ t, P t → P (Many t)) (HModel : ∀ fs, Forall (λ f, P f.1.2) fs → P (Model fs)).
Fixpoint ty_ind (t : ty) : P t :=
  match t with
  | Scalar k => HScalar k
  | AnyDict => HDict
  | OneOf l => HOneOf l
  | Opt t => HOpt t (ty_ind t)
  | Many t => HMany t (ty_ind t)
  | Model fs => HModel fs ((fix go fs : Forall (λ f, P f.1.2) fs :=
      match fs with
      | [] => Forall_nil_2 _
      | f :: fs => Forall_cons_2 _ f fs (ty_ind f.1.2) (go fs)
      end) fs)
  end.
End ty_ind.

Definition Int := Scalar SInt.
Definition Float := Scalar SFloat.
Definition Bool := Scalar SBool.
Definition Str := Scalar SStr.
(** [x: t], [x: t = d] and [x: t | None = None]. *)
Definition req (n : string) (t : ty) : string * ty * option json := (n, t, None).
Definition dflt (n : string) (t : ty) (d : json) : string * ty * option json := (n, t, Some d).
Definition opt (n : string) (t : ty) : string * ty * option json := dflt n (Opt t) JNull.

(** Numbers are whole here, so an [int] and a [float] look alike. *)
Definition has_kind (k : scalar) (j : json) : bool :=
  match k, j with
  | (SInt | SFloat), JNum _ | SBool, JBool _ | SStr, JStr _ => true
  | _, _ => false
  end.
Fixpoint typed (t : ty) (j : json) : bool :=
  match t with
  | Scalar k => has_kind k j
  | AnyDict => if j is JObj _ then true else false
  | OneOf l => if j is JStr s then bool_decide (s ∈ l) else false
  | Opt t => if j is JNull then true else typed t j
  | Many t => if j is JArr l then forallb (typed t) l else false
  | Model fs =>
      match j with
      | JObj d => (fix go fs d := match fs, d with
                                  | [], [] => true
                                  | (n, t, _) :: fs, (n', v) :: d => bool_decide (n = n') && typed t v && go fs d
                                  | _, _ => false
                                  end) fs d
      | _ => false
      end
  end.
(** The names of a model are distinct and its defaults are of its types. *)
Fixpoint wf (t : ty) : bool :=
  match t with
  | Scalar _ | AnyDict | OneOf _ => true
  | Opt t | Many t => wf t
  | Model fs => bool_decide (NoDup (fst <$> (fst <$> fs))) &&
      (fix go fs := match fs with
                    | [] => true
                    | (_, t, d) :: fs => wf t && match d with Some v => typed t v | None => true end && go fs
                    end) fs
  end.

(** Coercion of a scalar: what is of the kind is kept, what results is. *)
Class Pydantic := {
  lax : scalar → json → option json;
  lax_kind k j v : lax k j = Some v → has_kind k v = true;
  lax_keeps k j : has_kind k j = true → lax k j = Some j }.

Section validate.
Context `{Pydantic}.
(** [model_validate] and the validation of a field; [None] is a
    [ValidationError].  Keys that are no fields are ignored. *)
Fixpoint validate (t : ty) (j : json) : option json :=
  match t with
  | Scalar k => lax k j
  | AnyDict => if j is JObj _ then Some j else None
  | OneOf l => if j is JStr s then if bool_decide (s ∈ l) then Some j else None else None
  | Opt t => if j is JNull then Some JNull else validate t j
  | Many t => if j is JArr l then JArr <$> mapM (validate t) l else None
  | Model fs =>
      match j with
      | JObj d => JObj <$> (fix go fs := match fs with
                                         | [] => Some []
                                         | (n, t, dv) :: fs =>
                                             v ← match assoc n d with Some x => validate t x | None => dv end;
                                             vs ← go fs;
                                             Some ((n, v) :: vs)
                                         end) fs
      | _ => None
      end
  end.
Definition model_validate (t : ty) (j : json) : res exn json :=
  match validate t j with Some v => Ret v | None => Raise (EPy ValidationError) end.
(** [[X.model_validate(e) for e in raw]] *)
Fixpoint validate_all (t : ty) (l : list json) : res exn (list json) :=
  match l with
  | [] => Ret []
  | e :: l =>
      match model_validate t e with
      | Ret v => match validate_all t l with Ret vs => Ret (v :: vs) | Raise x => Raise x | Spin => Spin end
      | Raise x => Raise x
      | Spin => Spin
      end
  end.

Lemma validate_typed t : wf t = true → ∀ j v, validate t j = Some v → typed t v = true.
Proof.
  induction t as [k| |l|t IH|t IH|fs IH] using ty_ind; simpl; intros Hwf j v.
  - apply lax_kind.
  - destruct j; try done. by intros [= <-].
  - destruct j as [| | |s| |]; try done. destruct (bool_decide (s ∈ l)) eqn:Hs; [|done]. by intros [= <-].
  - destruct j; [by intros [= <-]|..]; intros Hv; apply (IH Hwf) in Hv; by destruct v.
  - destruct j as [| | | |ls|]; try done. intros (vs & Hvs & ->)%fmap_Some. apply mapM_Some_1 in Hvs.
    induction Hvs as [|x y xs ys Hxy _ IHl]; simpl; [done|]. by rewrite (IH Hwf _ _ Hxy).
  - destruct j as [| | | | |d]; try done. apply andb_true_iff in Hwf as [_ Hwf].
    intros (vs & Hvs & ->)%fmap_Some. revert vs Hvs Hwf. induction IH as [|[[n t] dv] fs Ht _ IHfs]; intros vs.
    { by intros [= <-]. }
    intros Hvs Hwf. apply andb_true_iff in Hwf as [[Hwt Hd]%andb_true_iff Hwf].
    apply bind_Some in Hvs as (v & Hv & (vs' & Hvs' & [= <-])%bind_Some).
    rewrite bool_decide_true by done. simpl. rewrite (IHfs _ Hvs' Hwf), andb_true_r.
    simpl in *. destruct (assoc n d); [by eapply Ht|]. subst dv. done.
Qed.
(** The names of a value of a model are those of its fields. *)
Lemma typed_names fs d : typed (Model fs) (JObj d) = true → d.*1 = fst <$> (fst <$> fs).
Proof.
  revert d. induction fs as [|[[n t] dv] fs IH]; intros [|[n' v] d]; try done. simpl.
  intros [[->%bool_decide_eq_true_1 _]%andb_true_iff Hd]%andb_true_iff. f_equal. by apply IH.
Qed.
(** A value of the model is validated to itself. *)
Lemma validate_keeps t : wf t = true → ∀ j, typed t j = true → validate t j = Some j.
Proof.
  induction t as [k| |l|t IH|t IH|fs IH] using ty_ind; simpl; intros Hwf j Hj.
  - by apply lax_keeps.
  - by destruct j.
  - destruct j as [| | |s| |]; try done. by rewrite Hj.
  - destruct j; try done; by apply IH.
  - destruct j as [| | | |l|]; try done. apply fmap_Some. exists l. split; [|done].
    induction l as [|x l IHl]; [done|]. simpl in Hj. apply andb_true_iff in Hj as [Hx Hl].
    simpl. rewrite (IH Hwf _ Hx). simpl. by rewrite IHl.
  - destruct j as [| | | | |d]; try done. apply andb_true_iff in Hwf as [Hnd%bool_decide_eq_true_1 Hwf].
    apply fmap_Some. exists d. split; [|done].
    assert (∀ n v, (n, v) ∈ d → assoc n d = Some v) as Hd.
    { pose proof (typed_names fs d Hj) as Hn. rewrite <-Hn in Hnd. intros n v. by apply elem_assoc. }
    match goal with |- ?g = Some d => enough (∀ d', (∀ n v, (n, v) ∈ d' → assoc n d = Some v) →
      typed (Model fs) (JObj d') = true → g = Some d') as Hall by by apply Hall end.
    clear Hd Hj Hnd. revert Hwf. induction IH as [|[[n t] dv] fs Ht _ IHfs]; intros Hwf [|[n' v] d'] Hin Hj; try done.
    apply andb_true_iff in Hwf as [[Hwt Hdv]%andb_true_iff Hwf].
    apply andb_true_iff in Hj as [[->%bool_decide_eq_true_1 Hv]%andb_true_iff Hj].
    rewrite (Hin n' v) by (by left). simpl in Ht. rewrite (Ht Hwt v Hv). simpl.
    rewrite (IHfs Hwf d'); [done| |done]. intros n v' Hnv. apply Hin. by right.
Qed.
Lemma model_validate_typed t j v : wf t = true → model_validate t j = Ret v → typed t v = true.
Proof.
  intros Hwf. unfold model_validate. destruct (validate t j) as [v'|] eqn:Hv; [|done]. intros [= <-]. by eapply validate_typed.
Qed.
Lemma model_validate_keeps t j : wf t = true → typed t j = true → model_validate t j = Ret j.
Proof. intros Hwf Ht. unfold model_validate. by rewrite validate_keeps. Qed.
Lemma validate_all_typed t l vs : wf t = true → validate_all t l = Ret vs → forallb (typed t) vs = true.
Proof.
  intros Hwf. revert vs. induction l as [|e l IH]; simpl; intros vs; [by intros [= <-]|].
  destruct (model_validate t e) as [v|x|] eqn:Hv; [|done..]. destruct (validate_all t l) as [vs'|x|]; [|done..].
  intros [= <-]. simpl. rewrite (model_validate_typed _ _ _ Hwf Hv). by apply IH.
Qed.
Lemma validate_all_ends t l : validate_all t l ≠ Spin.
Proof.
  induction l as [|e l IH]; simpl; [done|]. unfold model_validate. destruct (validate t e); [|done].
  by destruct (validate_all t l).
Qed.
Lemma validate_all_keeps t l : wf t = true → forallb (typed t) l = true → validate_all t l = Ret l.
Proof.
  intros Hwf. induction l as [|e l IH]; simpl; [done|]. intros [He Hl]%andb_true_iff.
  by rewrite (model_validate_keeps _ _ Hwf He), IH.
Qed.
End validate.

(** Strict mode: no coercion at all. *)
#[refine] Instance strict : Pydantic := {| lax k j := if has_kind k j then Some j else None |}.
Proof.
  - intros k j v. destruct (has_kind k j) eqn:Hk; [|done]. by intros [= <-].
  - intros k j Hk. by rewrite Hk.
Defined.
(** The value a class has for an answer none of whose scalars needs coercion:
    its fields in order, defaults filled in. *)
Definition arranged (t : ty) (j : json) : option json := validate (H:=strict) t j.
Lemma arranged_validates `{Pydantic} t : ∀ j v, arranged t j = Some v → validate t j = Some v.
Proof.
  unfold arranged. induction t as [k| |l|t IH|t IH|fs IH] using ty_ind; simpl; intros j v; try done.
  - destruct (has_kind k j) eqn:Hk; [|done]. intros [= <-]. by apply lax_keeps.
  - destruct j; try done; apply IH.
  - destruct j as [| | | |ls|]; try done. intros (vs & Hvs & ->)%fmap_Some. apply fmap_Some. exists vs. split; [|done].
    apply mapM_Some. apply mapM_Some in Hvs. eapply Forall2_impl; [exact Hvs|]. apply IH.
  - destruct j as [| | | | |d]; try done. intros (vs & Hvs & ->)%fmap_Some. apply fmap_Some. exists vs. split; [|done].
    revert vs Hvs. induction IH as [|[[n t] dv] fs Ht _ IHfs]; intros vs; [done|].
    intros (v & Hv & (vs' & Hvs' & [= <-])%bind_Some)%bind_Some.
    assert (match assoc n d with Some x => validate t x | None => dv end = Some v) as ->.
    { destruct (assoc n d); [by apply Ht|done]. }
    simpl. by rewrite (IHfs _ Hvs').
Qed.
Lemma arranged_typed t j v : wf t = true → arranged t j = Some v → typed t v = true.
Proof. intros. by eapply (validate_typed (H:=strict)). Qed.
Lemma arranged_model_validate `{Pydantic} t j v : arranged t j = Some v → model_validate t j = Ret v.
Proof. intros Hv. unfold model_validate. by rewrite (arranged_validates _ _ _ Hv). Qed.
Lemma arranged_all `{Pydantic} t l vs : mapM (arranged t) l = Some vs → validate_all t l = Ret vs.
Proof.
  revert vs. induction l as [|e l IH]; simpl; intros vs; [by intros [= <-]|].
  intros (v & Hv & (vs' & Hvs & [= <-])%bind_Some)%bind_Some. by rewrite (arranged_model_validate _ _ _ Hv), (IH _ Hvs).
Qed.
(** A field that is not left out. *)
Lemma arranged_field n t fs d v : arranged (Model ((n, t, None) :: fs)) (JObj d) = Some v →
  ∃ x y vs, assoc n d = Some x ∧ arranged t x = Some y ∧ arranged (Model fs) (JObj d) = Some (JObj vs) ∧ v = JObj ((n, y) :: vs).
Proof.
  unfold arranged. simpl. intros (vs & Hvs & ->)%fmap_Some.
  apply bind_Some in Hvs as (y & Hy & (vs' & Hvs' & [= <-])%bind_Some).
  destruct (assoc n d) as [x|]; [|done]. exists x, y, vs'. split_and!; [done..| |done]. by rewrite Hvs'.
Qed.
Lemma arranged_int j v : arranged Int j = Some v → ∃ z, j = JNum z ∧ v = JNum z.
Proof. unfold arranged. destruct j; try done. simpl. intros [= <-]. by eexists. Qed.
Lemma arranged_scalars k j v : arranged (Many (Scalar k)) j = Some v → ∃ l, j = JArr l ∧ v = JArr l ∧ forallb (has_kind k) l = true.
Proof.
  unfold arranged. destruct j as [| | | |l|]; try done. simpl. intros (vs & Hvs & ->)%fmap_Some. exists l.
  assert (vs = l ∧ forallb (has_kind k) l = true) as [-> ?]; [|done]. revert vs Hvs.
  induction l as [|e l IH]; simpl; intros vs; [by intros [= <-]|]. destruct (has_kind k e); [|done]. simpl.
  intros (vs' & Hvs & [= <-])%bind_Some. by destruct (IH _ Hvs) as [-> ->].
Qed.
Lemma arranged_many t x y : arranged (Many t) x = Some y → ∃ l vs, x = JArr l ∧ y = JArr vs ∧ mapM (arranged t) l = Some vs.
Proof. unfold arranged. destruct x as [| | | |l|]; try done. simpl. intros (vs & Hvs & ->)%fmap_Some. by exists l, vs. Qed.
