(* ===== verification/System.v ===== *)
(** * The tools that ask the daemon one question

    [tools/sys.py], [tools/events.py], and what [tools/wb.py], [tools/debug.py]
    and [tools/fs.py] have of the kind: one request each, and a result model
    made of the answer.  The models are schemas of [Schema.v]. *)
From S2P Require Import Prelude Py Schema.

(** [fleet.mcpd(target).request(method, params, timeout)]; times are in
    milliseconds. *)
Class Wire (E : Type) := { ask_daemon : string → string → option json → Z → M E exn json }.
Definition TIMEOUT : Z := 30000.

(* ------------------------------------------------------------------ *)
(** ** Models *)

Definition VersionResult : ty := Model [req "raw" Str; opt "kickstart" Str; opt "workbench" Str].
Definition TaskInfo : ty := Model [req "name" Str; req "type" Str; req "priority" Int; req "state" Str].
Definition TasksResult : ty := Model [req "ready" (Many TaskInfo); req "waiting" (Many TaskInfo)].
Definition LibraryInfo : ty := Model [req "name" Str; req "version" Int; req "revision" Int; req "open_count" Int].
Definition LibrariesResult : ty := Model [req "libraries" (Many LibraryInfo)].
Definition DevicesResult : ty := Model [req "devices" (Many LibraryInfo)].
Definition PortInfo : ty := Model [req "name" Str; req "priority" Int; req "flags" Int].
Definition PortsResult : ty := Model [req "ports" (Many PortInfo)].
Definition LastAlertResult : ty := Model [req "alert_code" Int; req "values" (Many Int)].
Definition UptimeResult : ty := Model [req "seconds" Float; req "eclock_freq" Float].
Definition MemorySliceResult : ty := Model [req "free" Int; dflt "largest" Int (JNum 0); dflt "total" Int (JNum 0)].
Definition MemoryResult : ty :=
  Model [req "any" MemorySliceResult; req "shared" MemorySliceResult; req "virtual" MemorySliceResult].
Definition VolumeInfo : ty := Model [req "name" Str; req "type" Int; dflt "port" Int (JNum 0)].
Definition VolumesResult : ty := Model [req "volumes" (Many VolumeInfo)].
Definition AssignInfo : ty := Model [req "name" Str; req "type" Int].
Definition AssignsResult : ty := Model [req "assigns" (Many AssignInfo)].
Definition int0 (n : string) : string * ty * option json := dflt n Int (JNum 0).
Definition no (n : string) : string * ty * option json := dflt n Bool (JBool false).
Definition unknown (n : string) : string * ty * option json := dflt n Str (JStr "unknown").
Definition CpuInfo : ty :=
  Model [int0 "count"; int0 "family_id"; unknown "family"; int0 "model_id"; unknown "model"; opt "model_string" Str;
         int0 "speed_hz"; int0 "fsb_hz"; int0 "timebase_hz"; int0 "l1_cache"; int0 "l2_cache"; int0 "l3_cache";
         int0 "vector_unit"; int0 "page_size"; int0 "cache_line"].
Definition ResourceProbes : ty := Model [no "xena"; no "i2c"; no "acpi"; no "performancemonitor"; no "fsldma"].
Definition HardwareResult : ty :=
  Model [req "attn_flags" Int; dflt "attn_flags_decoded" (Many Str) (JArr []); req "cpu" CpuInfo;
         req "resources" ResourceProbes].
Definition I2CDevice : ty := Model [req "addr" Int; opt "device_id" Int; opt "hint" Str].
Definition I2CBus : ty := Model [req "bus_number" Int; opt "name" Str; dflt "devices" (Many I2CDevice) (JArr [])].
Definition I2CResult : ty := Model [req "available" Bool; opt "error" Str; dflt "buses" (Many I2CBus) (JArr [])].
Definition PerfCounter : ty := Model [req "index" Int; req "item_id" Int; req "item" Str; req "value" Int].
Definition PerfCountersResult : ty :=
  Model [req "available" Bool; opt "error" Str; int0 "counter_count"; no "instr_breakpoint"; no "breakpoint_mask";
         dflt "counters" (Many PerfCounter) (JArr [])].
Definition ElfSymbol : ty :=
  Model [req "name" Str; req "value" Int; req "size" Int; req "abs_value" Int; req "binding" Int; req "type" Int;
         opt "binding_name" Str; opt "type_name" Str].
Definition ExecutableSymbolsResult : ty :=
  Model [req "path" Str; req "num_sections" Int; req "symbol_count" Int; req "truncated" Bool;
         req "symbols" (Many ElfSymbol)].
Definition AppEntry : ty :=
  Model [req "appID" Int; opt "name" Str; opt "url_identifier" Str; opt "filename" Str; opt "description" Str; no "hidden"].
Definition ApplicationsResult : ty := Model [req "available" Bool; dflt "applications" (Many AppEntry) (JArr [])].
Definition NotifyResult : ty := Model [req "result_code" Int; req "queued" Bool].
Definition AlertDecoded : ty :=
  Model [req "code" Int; req "dead_end" Bool; req "subsystem_id" Int; req "subsystem" Str; req "general_id" Int;
         opt "general" Str; req "specific" Int; opt "name" Str].
Definition AlertDecodeResult : ty := Model [req "code" Int; req "decoded" AlertDecoded].
Definition ColdRebootResult : ty := Model [req "queued" Bool; req "delay_ms" Int].
Definition TlbEntry : ty :=
  Model (map (λ n, req n Int) ["entry"; "v"; "iprot"; "tid"; "ts"; "tsize_raw"; "epn"; "wimge"; "rpnh"; "rpnl"; "perms";
                               "mas1"; "mas2"; "mas3"; "mas7"] ++ [req "rpn_36bit_hex" Str]).
Definition TlbDumpResult : ty := Model [req "target" Str; req "tlb" Int; req "entries" Int; req "table" (Many TlbEntry)].
Definition ReadCcsrResult : ty :=
  Model [req "target" Str; req "ccsr_base" Int; req "offset" Int; req "count" Int; req "values" (Many Int);
         req "values_hex" (Many Str)].
Definition ReadPaResult : ty :=
  Model [req "target" Str; req "pa" Int; req "count" Int; req "width" Int; req "bytes" Int; req "values" (Many Int);
         req "values_hex" (Many Str); opt "bytes_b64" Str].

Definition EventEntry : ty := Model [req "topic" Str; req "data" AnyDict].
Definition EventsWaitResult : ty := Model [req "events" (Many EventEntry); req "elapsed_ms" Int].

Definition ints (ns : list string) : list (string * ty * option json) := map (λ n, req n Int) ns.
Definition ScreenInfo : ty :=
  Model (ints ["index"] ++ [req "title" Str; req "default_title" Str] ++
         ints ["left"; "top"; "width"; "height"; "bar_height"; "flags"; "window_count"]).
Definition WindowInfo : ty :=
  Model ([req "title" Str; req "screen" Str] ++ ints ["screen_index"; "left"; "top"; "width"; "height"; "flags"]).
Definition ScreensResult : ty := Model [req "screens" (Many ScreenInfo)].
Definition WindowsResult : ty := Model [req "windows" (Many WindowInfo)].
Definition PublicScreenInfo : ty := Model [req "name" Str; req "priority" Int].
Definition PublicScreensResult : ty := Model [req "public_screens" (Many PublicScreenInfo)].
Definition FrontmostScreenInfo : ty := Model (req "title" Str :: ints ["width"; "height"]).
Definition FrontmostWindowInfo : ty := Model (req "title" Str :: ints ["width"; "height"; "left"; "top"]).
Definition FrontmostResult : ty :=
  Model [opt "frontmost_screen" FrontmostScreenInfo; opt "active_screen" AnyDict; opt "active_window" FrontmostWindowInfo].

Definition TaskSnapshotRegisters : ty :=
  Model (ints ["pc"; "sp"; "lr"; "msr"; "ctr"; "xer"; "cr"; "traptype"; "dar"; "dsisr"] ++ [req "gpr" (Many Int)]).
Definition TaskSnapshotFrame : ty := Model (ints ["index"; "pc"; "sp"]).
Definition TaskSnapshotResult : ty :=
  Model [req "target" Str; req "name" Str; req "priority" Int; req "state" Str; req "rtcf_filled" Int;
         req "registers" TaskSnapshotRegisters; req "backtrace" (Many TaskSnapshotFrame)].
Definition DebugSymbolResult : ty :=
  Model [req "address" Int; req "resolved" Bool; int0 "type"; opt "module" Str; int0 "offset"; int0 "segment";
         int0 "segment_offset"; opt "source_file" Str; opt "function" Str; opt "source_base" Str; opt "source_line" Int].
Definition DebugStacktraceFrame : ty :=
  Model [req "index" Int; req "state" Int; req "state_name" Str; req "address" Int; req "stack_pointer" Int;
         opt "module" Str; opt "function" Str; opt "source_file" Str; opt "source_line" Int; opt "offset" Int].
Definition DebugStacktraceResult : ty :=
  Model [req "name" Str; req "stacktrace_rc" Int; req "frame_count" Int; req "frames" (Many DebugStacktraceFrame)].
Definition DebugWriteMemoryResult : ty := Model [req "address" Int; req "bytes_written" Int].
(** The field [register_name] under its alias. *)
Definition DebugWriteRegisterResult : ty :=
  Model [req "name" Str; req "register" Str; req "value" Int; req "wtcf_filled" Int].

Definition DirEntry : ty := Model [req "name" Str; req "type" (OneOf ["file"; "dir"]%string); int0 "size"].
Definition FsListResult : ty := Model [req "path" Str; req "entries" (Many DirEntry)].
Definition FsReadResult : ty :=
  Model [req "path" Str; req "size" Int; req "content_b64" Str; opt "total_size" Int; opt "offset" Int].
Definition FsWriteResult : ty := Model [req "path" Str; req "size" Int].
Definition FsSyncResult : ty := Model [req "path" Str; req "flushed" Bool].
(** [ok: Literal[True] = True] is never passed and left out. *)
Definition FsOk : ty := Model [req "path" Str].
Definition FsRenameResult : ty := Model [req "src" Str; req "dst" Str].
Definition FsProtectResult : ty := Model [req "path" Str; req "bits" Int].
Definition FsCopyResult : ty := Model [req "src" Str; req "dst" Str; dflt "output" Str (JStr "")].

(* ------------------------------------------------------------------ *)
(** ** Tools *)

Section tools.
Context {E : Type} `{Wire E} `{Pydantic}.
Abbreviation ME := (M E exn).

(** [raw = await fleet.mcpd(target).request(m, params, t)], then
    [Model.model_validate(raw)]. *)
Definition ask (target m : string) (params : option json) (t : Z) (model : ty) : ME json :=
  raw ← ask_daemon target m params t;
  lift (model_validate model raw).
(** [Result(field=[Info.model_validate(e) for e in raw])] *)
Definition listing (target m : string) (info : ty) (field : string) : ME json :=
  raw ← ask_daemon target m None TIMEOUT;
  l ← lift (py_iter raw);
  vs ← lift (validate_all info l);
  mret (JObj [(field, JArr vs)]).
Definition params (l : list (string * json)) : option json := Some (JObj l).
(** [if v: params[k] = v] and [if v is not None: params[k] = v] *)
Definition given (k : string) (v : option string) : list (string * json) :=
  match v with Some s => if decide (s = ""%string) then [] else [(k, JStr s)] | None => [] end.
Definition given_int (k : string) (v : option Z) : list (string * json) :=
  match v with Some z => [(k, JNum z)] | None => [] end.

Definition sys_version (target : string) : ME json := ask target "sys.version" None TIMEOUT VersionResult.
Definition sys_tasks (target : string) : ME json := ask target "sys.tasks" None TIMEOUT TasksResult.
Definition sys_libraries (target : string) : ME json := listing target "sys.libraries" LibraryInfo "libraries".
Definition sys_devices (target : string) : ME json := listing target "sys.devices" LibraryInfo "devices".
Definition sys_ports (target : string) : ME json := listing target "sys.ports" PortInfo "ports".
Definition sys_lastalert (target : string) : ME json := ask target "sys.lastalert" None TIMEOUT LastAlertResult.
Definition sys_uptime (target : string) : ME json := ask target "sys.uptime" None TIMEOUT UptimeResult.
Definition sys_memory (target : string) : ME json := ask target "sys.memory" None TIMEOUT MemoryResult.
Definition sys_volumes (target : string) : ME json := listing target "sys.volumes" VolumeInfo "volumes".
Definition sys_assigns (target : string) : ME json := listing target "sys.assigns" AssignInfo "assigns".
Definition sys_hardware (target : string) : ME json := ask target "sys.hardware" None TIMEOUT HardwareResult.
Definition sys_hardware_i2c (target : string) (addr_low addr_high : Z) : ME json :=
  ask target "sys.hardware.i2c" (params [("addr_low", JNum addr_low); ("addr_high", JNum addr_high)]) 60000 I2CResult.
Definition sys_hardware_perfcounters (target : string) : ME json :=
  ask target "sys.hardware.perfcounters" None TIMEOUT PerfCountersResult.
Definition sys_executable_symbols (target path : string) (match_ binding type : option string) (max : Z) : ME json :=
  ask target "sys.executable.symbols"
    (params ([("path", JStr path); ("max", JNum max)] ++ given "match" match_ ++ given "binding" binding ++
             given "type" type)) 120000 ExecutableSymbolsResult.
Definition sys_applications (target : string) : ME json := ask target "sys.applications" None TIMEOUT ApplicationsResult.
Definition app_notify (target title text : string) (priority : Z) : ME json :=
  ask target "app.notify" (params [("title", JStr title); ("text", JStr text); ("priority", JNum priority)]) TIMEOUT NotifyResult.
Definition sys_alert_decode (target : string) (code : Z) : ME json :=
  ask target "sys.alert_decode" (params [("code", JNum code)]) TIMEOUT AlertDecodeResult.
Definition sys_cold_reboot (target : string) (confirm : bool) (delay_ms : Z) : ME json :=
  ask target "sys.cold_reboot" (params [("confirm", JBool confirm); ("delay_ms", JNum delay_ms)]) TIMEOUT ColdRebootResult.

(** [int(raw[k])], [[int(v) for v in raw[k]]] and [list(raw[k])] *)
Definition int_item (k : string) (raw : json) : ME Z := v ← lift (item k raw); lift (py_int v).
Fixpoint py_ints (l : list json) : res exn (list json) :=
  match l with
  | [] => Ret []
  | v :: l => match py_int v with
              | Ret z => match py_ints l with Ret zs => Ret (JNum z :: zs) | Raise x => Raise x | Spin => Spin end
              | Raise x => Raise x
              | Spin => Spin
              end
  end.
Definition int_items (k : string) (raw : json) : ME json :=
  v ← lift (item k raw); l ← lift (py_iter v); zs ← lift (py_ints l); mret (JArr zs).
Definition list_item (k : string) (raw : json) : ME json :=
  v ← lift (item k raw); l ← lift (py_iter v); mret (JArr l).
Definition sys_read_ccsr (target : string) (offset count : Z) : ME json :=
  raw ← ask_daemon target "sys.read_ccsr" (params [("offset", JNum offset); ("count", JNum count)]) TIMEOUT;
  base ← int_item "ccsr_base" raw;
  o ← int_item "offset" raw;
  c ← int_item "count" raw;
  vs ← int_items "values" raw;
  hs ← list_item "values_hex" raw;
  lift (model_validate ReadCcsrResult (JObj
    [("target", JStr target); ("ccsr_base", JNum base); ("offset", JNum o); ("count", JNum c); ("values", vs);
     ("values_hex", hs)])).
(** [a * b] of two JSON values that [int] accepted. *)
Definition repeated (n : Z) (s : string) : json := JStr (str (concat (replicate (Z.to_nat n) (txt s)))).
Definition as_num (j : json) : option Z :=
  match j with JNum z => Some z | JBool b => Some (Z.b2z b) | _ => None end.
Definition py_mul (a b : json) : res exn json :=
  match a, b with
  | JStr s, JStr _ => Raise (EPy TypeError)
  | JStr s, j | j, JStr s => match as_num j with Some n => Ret (repeated n s) | None => Raise (EPy TypeError) end
  | _, _ => match as_num a, as_num b with Some x, Some y => Ret (JNum (x * y)) | _, _ => Raise (EPy TypeError) end
  end.
Definition sys_read_pa (target : string) (pa count width : Z) : ME json :=
  raw ← ask_daemon target "sys.read_pa" (params [("pa", JNum pa); ("count", JNum count); ("width", JNum width)]) TIMEOUT;
  p ← int_item "pa" raw;
  c ← int_item "count" raw;
  w ← int_item "width" raw;
  jc ← lift (item "count" raw);
  jw ← lift (item "width" raw);
  product ← lift (py_mul jc jw);
  nb ← lift (get_or "bytes" product raw);
  nb ← lift (py_int nb);
  vs ← int_items "values" raw;
  hs ← list_item "values_hex" raw;
  b64 ← lift (get_or "bytes_b64" JNull raw);
  lift (model_validate ReadPaResult (JObj
    [("target", JStr target); ("pa", JNum p); ("count", JNum c); ("width", JNum w); ("bytes", JNum nb);
     ("values", vs); ("values_hex", hs); ("bytes_b64", b64)])).
Definition sys_tlb_dump (target : string) : ME json :=
  raw ← ask_daemon target "sys.tlb_dump" (params []) TIMEOUT;
  tlb ← int_item "tlb" raw;
  n ← int_item "entries" raw;
  t ← lift (item "table" raw);
  l ← lift (py_iter t);
  vs ← lift (validate_all TlbEntry l);
  mret (JObj [("target", JStr target); ("tlb", JNum tlb); ("entries", JNum n); ("table", JArr vs)]).

(** [events_wait]: the request outlasts the daemon's wait by five seconds. *)
Definition wait_timeout (timeout_ms : Z) : Z := Z.max (timeout_ms + 5000) 30000.
Definition events_wait (target : string) (topics : option (list string)) (timeout_ms : Z) : ME json :=
  ask target "events.wait"
    (params ([("timeout_ms", JNum timeout_ms)] ++
             match topics with Some l => [("topics", JArr (JStr <$> l))] | None => [] end))
    (wait_timeout timeout_ms) EventsWaitResult.

Definition wb_screens (target : string) : ME json := listing target "wb.screens" ScreenInfo "screens".
Definition wb_windows (target : string) : ME json := listing target "wb.windows" WindowInfo "windows".
Definition wb_publicscreens (target : string) : ME json := listing target "wb.publicscreens" PublicScreenInfo "public_screens".
Definition wb_frontmost (target : string) : ME json := ask target "wb.frontmost" None TIMEOUT FrontmostResult.

Definition debug_symbol (target : string) (address : Z) : ME json :=
  ask target "debug.symbol" (params [("address", JNum address)]) TIMEOUT DebugSymbolResult.
Definition debug_stacktrace (target name : string) (max_frames : Z) : ME json :=
  ask target "debug.stacktrace" (params [("name", JStr name); ("max_frames", JNum max_frames)]) TIMEOUT DebugStacktraceResult.
Definition debug_write_memory (target : string) (address : Z) (bytes_b64 : string) : ME json :=
  ask target "debug.write_memory"
    (params [("address", JNum address); ("bytes_b64", JStr bytes_b64); ("confirm", JBool true)]) TIMEOUT DebugWriteMemoryResult.
(** [populate_by_name]: the field may come under its own name. *)
Definition by_alias (raw : json) : json :=
  match raw with
  | JObj d => match assoc "register" d, assoc "register_name" d with
              | None, Some v => JObj (("register"%string, v) :: d)
              | _, _ => raw
              end
  | _ => raw
  end.
Definition debug_write_register (target name register : string) (value : Z) : ME json :=
  raw ← ask_daemon target "debug.write_register"
    (params [("name", JStr name); ("register", JStr register); ("value", JNum value); ("confirm", JBool true)]) TIMEOUT;
  lift (model_validate DebugWriteRegisterResult (by_alias raw)).
(** [TaskSnapshotResult(target=target, **raw)] *)
Definition debug_task_snapshot (target name : string) (max_frames : Z) : ME json :=
  raw ← ask_daemon target "debug.task_snapshot" (params [("name", JStr name); ("max_frames", JNum max_frames)]) TIMEOUT;
  match raw with
  | JObj d => if assoc "target" d is Some _ then raise (EPy TypeError)
              else lift (model_validate TaskSnapshotResult (JObj (("target"%string, JStr target) :: d)))
  | _ => raise (EPy TypeError)
  end.

Definition fs_list (target path : string) (recursive : bool) (max_depth : Z) : ME json :=
  raw ← ask_daemon target "fs.list"
    (params ([("path", JStr path)] ++ if recursive then [("recursive", JBool true); ("max_depth", JNum max_depth)] else []))
    TIMEOUT;
  l ← lift (py_iter raw);
  vs ← lift (validate_all DirEntry l);
  mret (JObj [("path", JStr path); ("entries", JArr vs)]).
Definition fs_read (target path : string) (offset length : option Z) : ME json :=
  ask target "fs.read" (params ([("path", JStr path)] ++ given_int "offset" offset ++ given_int "length" length)) 120000
    FsReadResult.
Definition fs_write (target path content_b64 : string) (zlib : bool) (raw_size : option Z) : ME json :=
  ask target "fs.write"
    (params ([("path", JStr path); ("content_b64", JStr content_b64)] ++
             (if zlib then [("compression", JStr "zlib")] else []) ++ given_int "raw_size" raw_size)) 120000 FsWriteResult.
(** [FsOk(path=raw.get("path", path))] and its likes: the answer's own fields,
    or the arguments. *)
Definition echoed (target m : string) (args : list (string * json)) (t : Z) (fields : list (string * json)) (model : ty) : ME json :=
  raw ← ask_daemon target m (params args) t;
  match raw with
  | JObj d => lift (model_validate model (JObj (map (λ f, (f.1, default f.2 (assoc f.1 d))) fields)))
  | _ => raise (EPy AttributeError)
  end.
Definition fs_delete (target path : string) (recursive : bool) : ME json :=
  echoed target "fs.delete" ([("path", JStr path)] ++ if recursive then [("recursive", JBool true)] else []) 60000
    [("path"%string, JStr path)] FsOk.
Definition fs_makedir (target path : string) : ME json :=
  echoed target "fs.makedir" [("path", JStr path)]%string TIMEOUT [("path"%string, JStr path)] FsOk.
Definition fs_rename (target src dst : string) : ME json :=
  echoed target "fs.rename" [("src", JStr src); ("dst", JStr dst)]%string TIMEOUT
    [("src", JStr src); ("dst", JStr dst)]%string FsRenameResult.
Definition fs_protect (target path : string) (bits : Z) : ME json :=
  echoed target "fs.protect" [("path", JStr path); ("bits", JNum bits)]%string TIMEOUT
    [("path", JStr path); ("bits", JNum bits)]%string FsProtectResult.
Definition fs_copy (target src dst : string) : ME json :=
  echoed target "fs.copy" [("src", JStr src); ("dst", JStr dst)]%string 60000
    [("src", JStr src); ("dst", JStr dst); ("output", JStr "")]%string FsCopyResult.
Definition fs_sync (target path : string) : ME json :=
  ask target "fs.sync" (params [("path", JStr path)]) 60000 FsSyncResult.
End tools.

(* ------------------------------------------------------------------ *)
(** ** What each tool promises *)

(** The daemon of [E] with a record of the requests it was sent. *)
Abbreviation question := (string * string * option json * Z)%type.
Section contracts.
Context {E : Type} `{Wire E} `{Pydantic}.
Abbreviation R := (E * list question)%type.
Abbreviation MR := (M R exn).
#[export] Instance recorded_daemon : Wire R := {|
  ask_daemon target m p t s := let '(r, e) := ask_daemon target m p t s.1 in (r, (e, s.2 ++ [(target, m, p, t)])) |}.

(** What a tool makes of an answer of the documented shape. *)
Inductive shape :=
| Same                                                   (** the answer itself *)
| Listed (pre : list (string * json)) (info : ty) (field : string)  (** the answer is the list of a field *)
| WithTarget (target : string)                           (** the answer and the target's name *)
| Echoed (fields : list (string * json)).                (** its fields, or the arguments *)
Definition expected (sh : shape) (model : ty) (raw : json) : option json :=
  match sh, raw with
  | Same, _ => arranged model raw
  | Listed pre info field, JArr l => vs ← mapM (arranged info) l; Some (JObj (pre ++ [(field, JArr vs)]))
  | WithTarget target, JObj d =>
      if assoc "target" d is Some _ then None else arranged model (JObj (("target"%string, JStr target) :: d))
  | Echoed fields, JObj d => arranged model (JObj (map (λ f, (f.1, default f.2 (assoc f.1 d))) fields))
  | _, _ => None
  end.
Record contract := Contract {
  tool : MR json; question_of : question; model_of : ty; shape_of : shape }.
(** One question to the daemon; what it raises is raised; a result is of the
    model, and is the one of the shape when the answer has it. *)
Definition kept (c : contract) : Prop := ∀ s, wp (tool c) (λ r s', ∃ a e,
  (let '(target, m, p, t) := question_of c in ask_daemon target m p t s.1 = (a, e)) ∧ s' = (e, s.2 ++ [question_of c]) ∧
  match a with
  | Ret raw => r ≠ Spin ∧ (∀ v, r = Ret v → typed (model_of c) v = true) ∧
               ∀ v, expected (shape_of c) (model_of c) raw = Some v → r = Ret v
  | Raise x => r = Raise x
  | Spin => r = Spin
  end) s.

Definition settles (sh : shape) (model : ty) (raw : json) (m : MR json) : Prop := ∀ s, wp m (λ r s',
  s' = s ∧ r ≠ Spin ∧ (∀ v, r = Ret v → typed model v = true) ∧ ∀ v, expected sh model raw = Some v → r = Ret v) s.
Lemma kept_intro target m p t k model sh : (∀ raw, settles sh model raw (k raw)) →
  kept (Contract (ask_daemon target m p t ≫= k) (target, m, p, t) model sh).
Proof.
  intros Hk s. apply wp_bind. unfold wp at 1. simpl. destruct (ask_daemon target m p t s.1) as [[raw|x|] e]; simpl.
  - eapply wp_mono; [apply Hk|]. intros r s' (-> & Hs & Ht & He). by exists (Ret raw), e.
  - by exists (Raise x), e.
  - by exists Spin, e.
Qed.
Lemma settles_validate sh model raw v : wf model = true → (∀ v', expected sh model raw = Some v' → arranged model v = Some v') →
  settles sh model raw (lift (model_validate model v)).
Proof.
  intros Hwf He s. apply wp_lift. split; [done|]. split; [unfold model_validate; by destruct (validate model v)|].
  split; [intros v'; by apply model_validate_typed|]. intros v' Hv'. by apply arranged_model_validate, He.
Qed.
Lemma kept_ask target m p t model : wf model = true → kept (Contract (ask target m p t model) (target, m, p, t) model Same).
Proof. intros Hwf. apply kept_intro. intros raw. by apply settles_validate. Qed.
Lemma typed_listed pre info field l model : model = Model (map (λ f, req f.1 Str) pre ++ [req field (Many info)]) →
  forallb (typed info) l = true → (∀ f, f ∈ pre → has_kind SStr f.2 = true) → typed model (JObj (pre ++ [(field, JArr l)])) = true.
Proof.
  intros -> Hl Hpre. simpl. induction pre as [|[k j] pre IH]; simpl.
  - rewrite Hl. by rewrite bool_decide_true.
  - rewrite bool_decide_true by done. pose proof (Hpre (k, j) ltac:(by left)) as Hj. destruct j; try done.
    apply IH. intros f Hf. apply Hpre. by right.
Qed.
Lemma kept_listed target m p t pre info field model : wf info = true →
  model = Model (map (λ f, req f.1 Str) pre ++ [req field (Many info)]) → (∀ f, f ∈ pre → has_kind SStr f.2 = true) →
  kept (Contract (raw ← ask_daemon target m p t; l ← lift (py_iter raw); vs ← lift (validate_all info l);
                  mret (JObj (pre ++ [(field, JArr vs)]))) (target, m, p, t) model (Listed pre info field)).
Proof.
  intros Hwf Hm Hpre. apply kept_intro. intros raw s. apply wp_bind, wp_lift.
  assert (∀ v l, expected (Listed pre info field) model raw = Some v → py_iter raw = Ret l →
    ∃ vs, validate_all info l = Ret vs ∧ v = JObj (pre ++ [(field, JArr vs)])) as Hexp.
  { intros v l. destruct raw as [| | | |l'|]; try done. simpl. intros (vs & Hvs & [= <-])%bind_Some [= <-].
    exists vs. by rewrite (arranged_all _ _ _ Hvs). }
  destruct (py_iter raw) as [l|x|] eqn:Hi; [|by split_and!; [..|intros v; simpl; destruct raw]|by destruct raw].
  apply wp_bind, wp_lift. assert (validate_all info l ≠ Spin) as Hns by apply validate_all_ends.
  destruct (validate_all info l) as [vs|x|] eqn:Hv; [|split_and!; try done|done].
  2: { intros v Hx. destruct (Hexp v l Hx eq_refl) as (? & ? & _). congruence. }
  apply wp_ret. split_and!; [done..| |].
  - intros v [= <-]. apply (typed_listed _ _ _ _ _ Hm); [by eapply validate_all_typed|done].
  - intros v Hx. destruct (Hexp v l Hx eq_refl) as (? & ? & ->). congruence.
Qed.
Lemma kept_echoed target m args t fields model : wf model = true →
  kept (Contract (echoed target m args t fields model) (target, m, params args, t) model (Echoed fields)).
Proof.
  intros Hwf. apply kept_intro. intros raw. destruct raw as [| | | | |d]; try done. by apply settles_validate.
Qed.
Lemma kept_snapshot target name n : kept (Contract (debug_task_snapshot target name n)
  (target, "debug.task_snapshot"%string, params [("name", JStr name); ("max_frames", JNum n)]%string, TIMEOUT)
  TaskSnapshotResult (WithTarget target)).
Proof.
  apply kept_intro. intros raw. destruct raw as [| | | | |d]; try done.
  destruct (assoc "target" d) eqn:Ha.
  - intros s. split_and!; [done..|]. unfold expected. by rewrite Ha.
  - apply settles_validate; [done|]. unfold expected. by rewrite Ha.
Qed.
Lemma kept_write_register target name r z : kept (Contract (debug_write_register target name r z)
  (target, "debug.write_register"%string,
   params [("name", JStr name); ("register", JStr r); ("value", JNum z); ("confirm", JBool true)]%string, TIMEOUT)
  DebugWriteRegisterResult Same).
Proof.
  apply kept_intro. intros raw. apply settles_validate; [done|]. intros v Hv.
  destruct raw as [| | | | |d]; try done.
  pose proof Hv as (_ & _ & vs & _ & _ & (x & _ & _ & Hx & _)%arranged_field & _)%arranged_field. simpl. by rewrite Hx.
Qed.
Lemma settles_split sh model raw (m : MR json) :
  (∀ s, wp m (λ r s', s' = s ∧ r ≠ Spin ∧ ∀ v, r = Ret v → typed model v = true) s) →
  (∀ s v, expected sh model raw = Some v → m s = (Ret v, s)) → settles sh model raw m.
Proof.
  intros H1 H2 s. eapply wp_mono; [apply wp_conj; [apply H1|exact (wp_run m (λ r _, ∀ v, expected sh model raw = Some v → r = Ret v) s _ _ (surjective_pairing _) (λ v Hv, f_equal fst (H2 s v Hv)))]|].
  intros r s' [(? & ? & ?) ?]. by split_and!.
Qed.
Lemma py_ints_keeps l : forallb (has_kind SInt) l = true → py_ints l = Ret l.
Proof.
  induction l as [|j l IH]; [done|]. simpl. intros [Hj Hl]%andb_true_iff. destruct j; try done. simpl. by rewrite IH.
Qed.
Lemma py_ints_ends l : py_ints l ≠ Spin.
Proof.
  induction l as [|j l IH]; simpl; [done|]. pose proof (py_int_ends j). destruct (py_int j); try done. by destruct (py_ints l).
Qed.
(** Code that only computes. *)
Definition computes {A} (m : MR A) (P : A → Prop) : Prop := ∀ s, wp m (λ r s', s' = s ∧ r ≠ Spin ∧ ∀ v, r = Ret v → P v) s.
Lemma computes_bind {A B} (m : MR A) (k : A → MR B) P Q : computes m P → (∀ a, P a → computes (k a) Q) → computes (m ≫= k) Q.
Proof.
  intros Hm Hk s. apply wp_bind. eapply wp_mono; [apply Hm|]. intros [a|x|] s' (-> & ? & HP); [by apply Hk, HP|done..].
Qed.
Lemma computes_lift {A} (r : res exn A) (P : A → Prop) : r ≠ Spin → (∀ a, r = Ret a → P a) → computes (lift r) P.
Proof. by intros ?? s. Qed.
Lemma computes_int k raw : computes (int_item k raw) (λ _, True).
Proof.
  apply (computes_bind _ _ (λ _, True)); [apply computes_lift; [apply item_ends|done]|]. intros v _.
  apply computes_lift; [apply py_int_ends|done].
Qed.
Lemma computes_list k raw : computes (list_item k raw) (λ _, True).
Proof.
  apply (computes_bind _ _ (λ _, True)); [apply computes_lift; [apply item_ends|done]|]. intros v _.
  apply (computes_bind _ _ (λ _, True)); [by apply computes_lift; [apply py_iter_ends|]|done].
Qed.
Lemma computes_ints k raw : computes (int_items k raw) (λ _, True).
Proof.
  apply (computes_bind _ _ (λ _, True)); [apply computes_lift; [apply item_ends|done]|]. intros v _.
  apply (computes_bind _ _ (λ _, True)); [by apply computes_lift; [apply py_iter_ends|]|]. intros l _.
  apply (computes_bind _ _ (λ _, True)); [by apply computes_lift; [apply py_ints_ends|]|done].
Qed.
Lemma computes_validate model j : wf model = true → computes (lift (model_validate model j)) (λ v, typed model v = true).
Proof.
  intros Hwf. apply computes_lift; [unfold model_validate; by destruct (validate model j)|].
  intros v. by apply model_validate_typed.
Qed.
Lemma computes_any {A} (r : res exn A) : r ≠ Spin → computes (lift r) (λ _, True).
Proof. intros. by apply computes_lift. Qed.
Lemma py_mul_ends a b : py_mul a b ≠ Spin.
Proof. destruct a, b; try done; simpl; by repeat case_match. Qed.
#[local] Ltac compute_step := apply (computes_bind _ _ (λ _, True));
  [first [apply computes_int | apply computes_ints | apply computes_list
         | apply computes_any; first [apply item_ends | apply py_int_ends | apply py_iter_ends | apply py_mul_ends
                                     | apply get_or_ends]]|intros ? _].
Lemma int_item_run k d z (s : R) : assoc k d = Some (JNum z) → (int_item k (JObj d) : MR Z) s = (Ret z, s).
Proof. intros Hk. unfold int_item, mbind, M_bind, lift. simpl. by rewrite Hk. Qed.
Lemma int_items_run k d l (s : R) : assoc k d = Some (JArr l) → forallb (has_kind SInt) l = true →
  (int_items k (JObj d) : MR json) s = (Ret (JArr l), s).
Proof. intros Hk Hl. unfold int_items, mbind, M_bind, lift. simpl. rewrite Hk. simpl. by rewrite py_ints_keeps. Qed.
Lemma list_item_run k d l (s : R) : assoc k d = Some (JArr l) → (list_item k (JObj d) : MR json) s = (Ret (JArr l), s).
Proof. intros Hk. unfold list_item, mbind, M_bind, lift. simpl. by rewrite Hk. Qed.
Lemma validate_run model v (s : R) : wf model = true → typed model v = true → (lift (model_validate model v) : MR json) s = (Ret v, s).
Proof. intros. unfold lift. by rewrite model_validate_keeps. Qed.
(** The answer and what is in it. *)
Lemma with_target target fs raw v : wf (Model (req "target" Str :: fs)) = true →
  expected (WithTarget target) (Model (req "target" Str :: fs)) raw = Some v → ∃ d vs, raw = JObj d ∧
    arranged (Model fs) (JObj (("target"%string, JStr target) :: d)) = Some (JObj vs) ∧
    v = JObj (("target"%string, JStr target) :: vs) ∧ typed (Model (req "target" Str :: fs)) v = true.
Proof.
  intros Hwf. destruct raw as [| | | | |d]; try done. unfold expected. destruct (assoc "target" d); [done|]. intros Hv.
  pose proof (arranged_typed _ _ _ Hwf Hv) as Ht.
  apply arranged_field in Hv as (x & y & vs & Hx & Hy & Hvs & ->). simpl in Hx. injection Hx as <-.
  injection Hy as <-. by exists d, vs.
Qed.
(** The first field of an answer. *)
#[local] Ltac int_field H := let z := fresh "z" in let Ha := fresh "Ha" in let vs := fresh "vs" in
  apply arranged_field in H as (? & ? & vs & Ha & (z & -> & ->)%arranged_int & H & ?).
#[local] Ltac list_field H := let l := fresh "l" in let Ha := fresh "Ha" in let Hl := fresh "Hl" in let vs := fresh "vs" in
  apply arranged_field in H as (? & ? & vs & Ha & (l & -> & -> & Hl)%arranged_scalars & H & ?).
Lemma kept_ccsr target offset count : kept (Contract (sys_read_ccsr target offset count)
  (target, "sys.read_ccsr"%string, params [("offset", JNum offset); ("count", JNum count)]%string, TIMEOUT)
  ReadCcsrResult (WithTarget target)).
Proof.
  apply kept_intro. intros raw. apply settles_split.
  - change (computes (base ← int_item "ccsr_base" raw; o ← int_item "offset" raw; c ← int_item "count" raw;
      vs ← int_items "values" raw; hs ← list_item "values_hex" raw; lift (model_validate ReadCcsrResult (JObj
    [("target", JStr target); ("ccsr_base", JNum base); ("offset", JNum o); ("count", JNum c); ("values", vs);
     ("values_hex", hs)]%string)) : MR json) (λ v, typed ReadCcsrResult v = true)).
    do 5 compute_step. by apply computes_validate.
  - intros s v (d & vs & -> & Hvs & -> & Ht)%with_target; [|done]. do 3 int_field Hvs. do 2 list_field Hvs.
    injection Hvs as <-. simplify_eq. simpl in *.
    do 3 (erewrite bind_run by by apply int_item_run).
    erewrite bind_run by by apply int_items_run. erewrite bind_run by by apply list_item_run.
    by apply validate_run.
Qed.
Lemma kept_pa target pa count width : kept (Contract (sys_read_pa target pa count width)
  (target, "sys.read_pa"%string, params [("pa", JNum pa); ("count", JNum count); ("width", JNum width)]%string, TIMEOUT)
  ReadPaResult (WithTarget target)).
Proof.
  apply kept_intro. intros raw. apply settles_split.
  - match goal with |- ∀ s, wp ?m _ s => change (computes m (λ v, typed ReadPaResult v = true)) end.
    do 11 compute_step. by apply computes_validate.
  - intros s v (d & vs & -> & Hvs & -> & Ht)%with_target; [|done]. do 4 int_field Hvs. do 2 list_field Hvs.
    assert (vs5 = [("bytes_b64"%string, default JNull (assoc "bytes_b64" d))]) as ->.
    { revert Hvs. unfold arranged. simpl. destruct (assoc "bytes_b64" d) as [[]|]; simpl; try done; by intros [= <-]. }
    simplify_eq. simpl in *.
    do 3 (erewrite bind_run by by apply int_item_run).
    do 2 (erewrite bind_run by (unfold lift, item; by rewrite ?Ha, ?Ha0, ?Ha1, ?Ha2)).
    erewrite bind_run by reflexivity.
    erewrite bind_run by (unfold lift, get_or; by rewrite Ha2). erewrite bind_run by reflexivity.
    erewrite bind_run by by apply int_items_run. erewrite bind_run by by apply list_item_run.
    erewrite bind_run by reflexivity. by apply validate_run.
Qed.
Lemma kept_tlb target : kept (Contract (sys_tlb_dump target) (target, "sys.tlb_dump"%string, params [], TIMEOUT)
  TlbDumpResult (WithTarget target)).
Proof.
  apply kept_intro. intros raw. apply settles_split.
  - match goal with |- ∀ s, wp ?m _ s => change (computes m (λ v, typed TlbDumpResult v = true)) end.
    do 4 compute_step. apply (computes_bind _ _ (λ vs, forallb (typed TlbEntry) vs = true)).
    { apply computes_lift; [apply validate_all_ends|]. intros vs. by apply validate_all_typed. }
    intros vs Hvs s. apply wp_ret. split_and!; [done..|]. intros v [= <-].
    change (forallb (typed TlbEntry) vs && true = true). by rewrite Hvs.
  - intros s v (d & vs & -> & Hvs & -> & Ht)%with_target; [|done]. do 2 int_field Hvs.
    apply arranged_field in Hvs as (x & y & vs' & Hx & Hy & [= <-] & ?). simplify_eq. simpl in *.
    apply arranged_many in Hy as (l & ws & -> & -> & Hws).
    do 2 (erewrite bind_run by by apply int_item_run).
    erewrite bind_run by (unfold lift, item; by rewrite Hx). erewrite bind_run by reflexivity.
    erewrite bind_run by (unfold lift; by rewrite (arranged_all _ _ _ Hws)). done.
Qed.

(** The tools of the kind, at arbitrary arguments. *)
Section catalogue.
Context (target path name text : string) (a b c : Z) (flag : bool) (oa ob : option Z) (s1 s2 s3 : option string)
  (topics : option (list string)).
Let at_ (m : string) (p : option json) (t : Z) : question := (target, m, p, t).
Let info (tool : MR json) (m : string) (model : ty) : contract := Contract tool (at_ m None TIMEOUT) model Same.
Let list_of (tool : MR json) (m : string) (model info : ty) (field : string) : contract :=
  Contract tool (at_ m None TIMEOUT) model (Listed [] info field).
#[local] Open Scope string_scope.
Definition sys_catalogue : list contract :=
  [info (sys_version target) "sys.version" VersionResult; info (sys_tasks target) "sys.tasks" TasksResult;
   list_of (sys_libraries target) "sys.libraries" LibrariesResult LibraryInfo "libraries";
   list_of (sys_devices target) "sys.devices" DevicesResult LibraryInfo "devices";
   list_of (sys_ports target) "sys.ports" PortsResult PortInfo "ports";
   info (sys_lastalert target) "sys.lastalert" LastAlertResult; info (sys_uptime target) "sys.uptime" UptimeResult;
   info (sys_memory target) "sys.memory" MemoryResult;
   list_of (sys_volumes target) "sys.volumes" VolumesResult VolumeInfo "volumes";
   list_of (sys_assigns target) "sys.assigns" AssignsResult AssignInfo "assigns";
   info (sys_hardware target) "sys.hardware" HardwareResult;
   Contract (sys_hardware_i2c target a b)
     (at_ "sys.hardware.i2c" (params [("addr_low", JNum a); ("addr_high", JNum b)]) 60000) I2CResult Same;
   info (sys_hardware_perfcounters target) "sys.hardware.perfcounters" PerfCountersResult;
   Contract (sys_executable_symbols target path s1 s2 s3 a)
     (at_ "sys.executable.symbols" (params ([("path", JStr path); ("max", JNum a)] ++
        given "match" s1 ++ given "binding" s2 ++ given "type" s3)) 120000) ExecutableSymbolsResult Same;
   info (sys_applications target) "sys.applications" ApplicationsResult;
   Contract (app_notify target name text a)
     (at_ "app.notify" (params [("title", JStr name); ("text", JStr text); ("priority", JNum a)]) TIMEOUT) NotifyResult Same;
   Contract (sys_alert_decode target a) (at_ "sys.alert_decode" (params [("code", JNum a)]) TIMEOUT) AlertDecodeResult Same;
   Contract (sys_cold_reboot target flag a)
     (at_ "sys.cold_reboot" (params [("confirm", JBool flag); ("delay_ms", JNum a)]) TIMEOUT) ColdRebootResult Same;
   Contract (sys_read_ccsr target a b)
     (at_ "sys.read_ccsr" (params [("offset", JNum a); ("count", JNum b)]) TIMEOUT) ReadCcsrResult (WithTarget target);
   Contract (sys_read_pa target a b c)
     (at_ "sys.read_pa" (params [("pa", JNum a); ("count", JNum b); ("width", JNum c)]) TIMEOUT) ReadPaResult
     (WithTarget target);
   Contract (sys_tlb_dump target) (at_ "sys.tlb_dump" (params []) TIMEOUT) TlbDumpResult (WithTarget target);
   Contract (events_wait target topics a)
     (at_ "events.wait" (params ([("timeout_ms", JNum a)] ++
        match topics with Some l => [("topics", JArr (JStr <$> l))] | None => [] end)) (Z.max (a + 5000) 30000))
     EventsWaitResult Same].
Definition desktop_catalogue : list contract :=
  [list_of (wb_screens target) "wb.screens" ScreensResult ScreenInfo "screens";
   list_of (wb_windows target) "wb.windows" WindowsResult WindowInfo "windows";
   list_of (wb_publicscreens target) "wb.publicscreens" PublicScreensResult PublicScreenInfo "public_screens";
   info (wb_frontmost target) "wb.frontmost" FrontmostResult;
   Contract (debug_symbol target a) (at_ "debug.symbol" (params [("address", JNum a)]) TIMEOUT) DebugSymbolResult Same;
   Contract (debug_stacktrace target name a)
     (at_ "debug.stacktrace" (params [("name", JStr name); ("max_frames", JNum a)]) TIMEOUT) DebugStacktraceResult Same;
   Contract (debug_write_memory target a text)
     (at_ "debug.write_memory" (params [("address", JNum a); ("bytes_b64", JStr text); ("confirm", JBool true)]) TIMEOUT)
     DebugWriteMemoryResult Same;
   Contract (debug_write_register target name text a)
     (at_ "debug.write_register" (params [("name", JStr name); ("register", JStr text); ("value", JNum a);
        ("confirm", JBool true)]) TIMEOUT) DebugWriteRegisterResult Same;
   Contract (debug_task_snapshot target name a)
     (at_ "debug.task_snapshot" (params [("name", JStr name); ("max_frames", JNum a)]) TIMEOUT) TaskSnapshotResult
     (WithTarget target)].
Definition file_catalogue : list contract :=
  [Contract (fs_list target path flag a)
     (at_ "fs.list" (params ([("path", JStr path)] ++
        if flag then [("recursive", JBool true); ("max_depth", JNum a)] else [])) TIMEOUT)
     FsListResult (Listed [("path", JStr path)] DirEntry "entries");
   Contract (fs_read target path oa ob)
     (at_ "fs.read" (params ([("path", JStr path)] ++ given_int "offset" oa ++ given_int "length" ob)) 120000)
     FsReadResult Same;
   Contract (fs_write target path text flag oa)
     (at_ "fs.write" (params ([("path", JStr path); ("content_b64", JStr text)] ++
        (if flag then [("compression", JStr "zlib")] else []) ++ given_int "raw_size" oa)) 120000) FsWriteResult Same;
   Contract (fs_delete target path flag)
     (at_ "fs.delete" (params ([("path", JStr path)] ++ if flag then [("recursive", JBool true)] else [])) 60000)
     FsOk (Echoed [("path", JStr path)]);
   Contract (fs_makedir target path) (at_ "fs.makedir" (params [("path", JStr path)]) TIMEOUT) FsOk
     (Echoed [("path", JStr path)]);
   Contract (fs_rename target path name)
     (at_ "fs.rename" (params [("src", JStr path); ("dst", JStr name)]) TIMEOUT) FsRenameResult
     (Echoed [("src", JStr path); ("dst", JStr name)]);
   Contract (fs_protect target path a)
     (at_ "fs.protect" (params [("path", JStr path); ("bits", JNum a)]) TIMEOUT) FsProtectResult
     (Echoed [("path", JStr path); ("bits", JNum a)]);
   Contract (fs_copy target path name)
     (at_ "fs.copy" (params [("src", JStr path); ("dst", JStr name)]) 60000) FsCopyResult
     (Echoed [("src", JStr path); ("dst", JStr name); ("output", JStr "")]);
   Contract (fs_sync target path) (at_ "fs.sync" (params [("path", JStr path)]) 60000) FsSyncResult Same].
#[local] Close Scope string_scope.

(** every tool that asks the daemon one question sends exactly that
    question, whatever comes of it, and raises what the daemon's side raises;
    a result it returns is always a value of its result model, and when the
    answer has the documented shape it is that answer, in the tool's form. *)
Theorem tools_keep_contract : Forall kept (sys_catalogue ++ desktop_catalogue ++ file_catalogue).
Proof.
  repeat (apply Forall_cons; split; [first
    [ by apply kept_ask | by apply kept_ccsr | by apply kept_pa | by apply kept_tlb | by apply kept_snapshot
    | by apply kept_write_register | by apply kept_echoed
    | apply (kept_listed target _ _ _ []); [done..|by intros ? ?%not_elem_of_nil]
    | apply (kept_listed target _ _ _ [("path"%string, JStr path)]); [done..|by intros ? ->%list_elem_of_singleton]]|]).
  constructor.
Qed.
End catalogue.
End contracts.

(* ------------------------------------------------------------------ *)
(** ** Examples *)

(** A daemon that gives the same answer to everything; [JNull] stands for a
    method it does not have. *)
#[export] Instance canned_daemon : Wire json := {|
  ask_daemon target m p t s := (if s is JNull then Raise (ERpc NotCapable None) else Ret s, s) |}.
(** A field that is missing gets its default, one too many is dropped. *)
Example memory_run :
  let slice n := JObj [("free", JNum n); ("chip", JNum 1)]%string in
  let full n := JObj [("free", JNum n); ("largest", JNum 0); ("total", JNum 0)]%string in
  (sys_memory (H0:=strict) "x5000" (JObj [("any", slice 7); ("shared", slice 8); ("virtual", slice 9)]%string)).1 =
  Ret (JObj [("any", full 7); ("shared", full 8); ("virtual", full 9)]%string).
Proof. vm_compute. reflexivity. Qed.
Example memory_incomplete : (sys_memory (H0:=strict) "x5000" (JObj [("any", JObj [])]%string)).1 = Raise (EPy ValidationError).
Proof. vm_compute. reflexivity. Qed.
(** An answer that is not the list asked for: the keys of an object are taken
    for the entries. *)
Example libraries_of_object : (sys_libraries (H0:=strict) "x5000" (JObj [("libraries", JArr [])]%string)).1 = Raise (EPy ValidationError) ∧
  (sys_libraries (H0:=strict) "x5000" (JObj [])).1 = Ret (JObj [("libraries", JArr [])]%string).
Proof. vm_compute. done. Qed.
(** [sys.read_pa] reads the size off the answer or computes it. *)
Example read_pa_sizes :
  let ans more := JObj ([("pa", JNum 4261412864); ("count", JNum 2); ("width", JNum 4); ("values", JArr [JNum 1; JNum 2]);
                        ("values_hex", JArr [JStr "1"; JStr "2"])]%string ++ more) in
  let size r := match r with Ret j => jget "bytes" j | _ => None end in
  size (sys_read_pa (H0:=strict) "x5000" 4261412864 2 4 (ans [])).1 = Some (JNum 8) ∧
  size (sys_read_pa (H0:=strict) "x5000" 4261412864 2 4 (ans [("bytes"%string, JNum 6)])).1 = Some (JNum 6).
Proof. vm_compute. done. Qed.
