(* ===== verification/Mcpd.v ===== *)
(** * The MCPd transport: [transports/mcpd.py]

    JSON-RPC over length-prefixed frames on one TCP connection: connecting,
    the staleness check, framing, the cold-start warm-up, and [request] with
    its resend rule.  The network, the clock and the peer are a [Net]
    environment about which the safety theorems assume nothing. *)
From S2P Require Import Prelude Py Bytes Config Net.

(* ------------------------------------------------------------------ *)
(** ** Constants (times in milliseconds) *)

Definition ERROR_BY_CODE (code : Z) : option rpc_class :=
  if code =? -32700 then Some ParseError
  else if code =? -32600 then Some InvalidParams
  else if code =? -32601 then Some MethodNotFound
  else if code =? -32602 then Some InvalidParams
  else if code =? -32603 then Some InternalError
  else if code =? -32001 then Some TargetError
  else if code =? -32002 then Some Cancelled
  else if code =? -32003 then Some NotCapable
  else if code =? -32004 then Some AuthRequired
  else if code =? -32005 then Some Busy
  else None.

Definition DEFAULT_TIMEOUT : Z := 30000.
Definition MAX_FRAME_BYTES : Z := 32 * 1024 * 1024.
Definition WARMUP_ID_BASE : Z := -100.
Definition is_warmup_id (rid : json) : bool :=
  match rid with
  | JNum z => z <=? WARMUP_ID_BASE
  | JBool b => Z.b2z b <=? WARMUP_ID_BASE
  | _ => false
  end.

Definition MUTATING_METHODS : list string :=
  ["fs.write"; "fs.write_chunk"; "fs.delete"; "fs.makedir";
   "fs.rename"; "fs.protect"; "fs.copy"; "exec.cmd"].

Definition IDEMPOTENT_METHODS : list string :=
  ["proto.capabilities"; "proto.version";
   "sys.version"; "sys.tasks"; "sys.libraries"; "sys.devices";
   "sys.modules"; "sys.crashhook_status"; "sys.ports"; "sys.lastalert";
   "sys.uptime"; "sys.memory"; "sys.volumes"; "sys.assigns";
   "sys.hardware"; "sys.hardware.perfcounters";
   "sys.executable.symbols"; "sys.applications"; "sys.alert_decode";
   "sys.read_ccsr"; "sys.tlb_dump";
   "fs.list"; "fs.stat"; "fs.read"; "fs.hash"; "fs.sync";
   "wb.screens"; "wb.windows"; "wb.publicscreens"; "wb.frontmost";
   "wb.screenshot"; "input.state";
   "debug.task_snapshot"; "debug.symbol"; "debug.stacktrace";
   "exec.status"; "exec.output"; "exec.list"].

Definition STALE_AFTER : Z := 100000.
Definition CONNECT_TIMEOUT : Z := 10000.
Definition CLOSE_TIMEOUT : Z := 2000.

(* ------------------------------------------------------------------ *)
(** ** The environment *)

(** The attributes of [McpdTransport]. *)
Record transport := Transport {
  reader : option nat;
  writer : option nat;
  next_id : Z;
  handlers : list nat;
  notification_q : list json;
  last_write_at : option Z;
  last_io_at : option Z }.
(** [__init__] *)
Definition transport_init : transport := Transport None None 1 [] [] None None.

(** The transport with its environment.  [wire] is a ghost: the frames that
    went out completely, oldest first, with the connection each went on. *)
Record world (E : Type) := World { tr : transport; wire : list (nat * bytes); env : E }.
Arguments World {E}. Arguments tr {E}. Arguments wire {E}. Arguments env {E}.

Section transport.
Context {E : Type} `{Net E}.
(** [json.loads(b.decode("utf-8"))], [None] when either raises, and
    [json.dumps(j, ensure_ascii=False).encode("utf-8")]. *)
Context (loads : bytes → option json) (dumps : json → bytes).
Context (channel : McpdChannel).

Abbreviation MW := (M (world E) exn).

Definition on_env {A} (m : M E exn A) : MW A := λ w,
  let '(r, e) := m (env w) in (r, World (tr w) (wire w) e).
Definition on_io {A} (m : M E io_exn A) : MW A := λ w,
  match m (env w) with
  | (Ret a, e) => (Ret a, World (tr w) (wire w) e)
  | (Raise x, e) => (Raise (io_to_exn x), World (tr w) (wire w) e)
  | (Spin, e) => (Spin, World (tr w) (wire w) e)
  end.
Definition upd (f : transport → transport) : MW unit :=
  modify (λ w, World (f (tr w)) (wire w) (env w)).
Definition log_wire (c : nat) (b : bytes) : MW unit :=
  modify (λ w, World (tr w) (wire w ++ [(c, b)]) (env w)).

Definition set_conn (r w : option nat) (t : transport) : transport :=
  Transport r w (next_id t) (handlers t) (notification_q t) (last_write_at t) (last_io_at t).
Definition set_last_io (v : option Z) (t : transport) : transport :=
  Transport (reader t) (writer t) (next_id t) (handlers t) (notification_q t)
    (last_write_at t) v.
Definition set_last_write (v : option Z) (t : transport) : transport :=
  Transport (reader t) (writer t) (next_id t) (handlers t) (notification_q t)
    v (last_io_at t).
Definition bump_id (t : transport) : transport :=
  Transport (reader t) (writer t) (next_id t + 1) (handlers t) (notification_q t)
    (last_write_at t) (last_io_at t).
Definition enqueue (j : json) (t : transport) : transport :=
  Transport (reader t) (writer t) (next_id t) (handlers t) (notification_q t ++ [j])
    (last_write_at t) (last_io_at t).
Definition set_handlers (hs : list nat) (t : transport) : transport :=
  Transport (reader t) (writer t) (next_id t) hs (notification_q t)
    (last_write_at t) (last_io_at t).

Definition now : MW Z := gets (λ w, monotonic (env w)).

(** [subscribe_notifications], and the function it returns:
    [list.remove] takes out the first equal entry, if any. *)
Definition subscribe (h : nat) : MW unit := upd (λ t, set_handlers (handlers t ++ [h]) t).
Fixpoint remove_first (h : nat) (l : list nat) : list nat :=
  match l with
  | [] => []
  | x :: l' => if decide (x = h) then l' else x :: remove_first h l'
  end.
Definition unsubscribe (h : nat) : MW unit :=
  upd (λ t, set_handlers (remove_first h (handlers t)) t).

Definition ensure_connected : MW unit :=
  t ← gets tr;
  match reader t, writer t with
  | Some _, Some _ => mret tt
  | _, _ =>
      c ← catch
            (port ← lift (endpoint_port (mcpd_endpoint channel));
             on_io (open_connection (endpoint_host (mcpd_endpoint channel)) port
                       (Some CONNECT_TIMEOUT)))
            (λ e, match e with
                  | EOS _ m => raise (ERpc TargetError (Some (JObj
                      [("endpoint", JStr (mcpd_endpoint channel)); ("error", JStr m)])))
                  | _ => raise e
                  end);
      upd (set_conn (Some c) (Some c));;
      n ← now;
      upd (set_last_io (Some n))
  end.

Definition is_stale : MW bool := gets (λ w,
  match reader (tr w) with
  | None => false
  | Some c =>
      at_eof c (env w) ||
      match last_io_at (tr w) with
      | Some t => STALE_AFTER <? monotonic (env w) - t
      | None => false
      end
  end).

Definition close_locked : MW unit :=
  t ← gets tr;
  upd (λ t, set_last_io None (set_conn None None t));;
  match writer t with
  | None => mret tt
  | Some c => catch (on_io (close_wait c (Some CLOSE_TIMEOUT)))
                    (λ e, if is_oserror e then mret tt else raise e)
  end.

Definition read_frame (timeout : Z) : MW bytes :=
  t ← gets tr;
  match reader t with
  | None => raise (EPy AssertionError)
  | Some c =>
      hdr ← on_io (readexactly c 4 timeout);
      let n := be_val hdr in
      if (n =? 0) || (MAX_FRAME_BYTES <? n)
      then raise (ERpc InternalError None)
      else on_io (readexactly c n timeout)
  end.

Definition send_frame (payload : bytes) : MW unit :=
  t ← gets tr;
  match writer t with
  | None => raise (EPy AssertionError)
  | Some c =>
      let n := Z.of_nat (length payload) in
      if MAX_FRAME_BYTES <? n
      then raise (ERpc InternalError None)
      else on_io (write_drain c (pack_u32 n ++ payload));;
           log_wire c payload
  end.

(** [except (asyncio.IncompleteReadError, ConnectionResetError,
    BrokenPipeError, OSError)] *)
Definition is_io_failure (e : exn) : bool :=
  is_oserror e || if e is EIncompleteRead then true else false.

Definition warmup_env (i : Z) : json :=
  JObj [("jsonrpc", JStr "2.0"); ("id", JNum (WARMUP_ID_BASE - i));
        ("method", JStr "sys.uptime")].

(** One iteration of the warm-up loop; [true] is its early [return]. *)
Definition warmup_step (i : Z) : MW bool :=
  stop ← catch
    (send_frame (dumps (warmup_env i));;
     catch (_ ← read_frame 2000; mret tt)
           (λ e, if is_io_failure e then mret tt else raise e);;
     mret false)
    (λ e, if is_io_failure e then
            close_locked;;
            catch (ensure_connected;; mret false)
                  (λ e, if is_target_error e then mret true else raise e)
          else raise e);
  if stop : bool then mret true else on_io (sleep 100);; mret false.

Definition warmup_locked : MW unit :=
  stop ← warmup_step 0;
  if stop : bool then mret tt else _ ← warmup_step 1; mret tt.

(* ---------------------------------------------------------------- *)
(** *** request *)

Definition envelope (rid : Z) (method : string) (params : option json) : json :=
  JObj ([("jsonrpc", JStr "2.0"); ("id", JNum rid); ("method", JStr method)] ++
        match params with Some p => [("params", p)] | None => [] end).

(** [_dispatch_notification]: queue it, then call the handlers registered
    at that moment; an [Exception] from one of them is logged and dropped. *)
Fixpoint run_handlers (hs : list nat) (obj : json) : MW unit :=
  match hs with
  | [] => mret tt
  | h :: hs' =>
      catch (on_env (run_handler h obj))
            (λ e, if is_exception e then mret tt else raise e);;
      run_handlers hs' obj
  end.
Definition dispatch_notification (obj : json) : MW unit :=
  upd (enqueue obj);;
  hs ← gets (λ w, handlers (tr w));
  run_handlers hs obj.

(** ["id" in obj] and [obj["id"]]: defined on any JSON value, as [in] and
    indexing are in Python. *)
Definition has_id (obj : json) : res exn bool :=
  match obj with
  | JObj l => Ret (if assoc "id" l is Some _ then true else false)
  | JArr l => Ret (existsb (λ j, if j is JStr s then bool_decide (s = "id") else false) l)
  | JStr s => Ret (contains (txt "id") (txt s))
  | _ => Raise (EPy TypeError)
  end.
Definition get_id (obj : json) : res exn json :=
  match obj with
  | JObj l => match assoc "id" l with Some v => Ret v | None => Raise (EPy KeyError) end
  | _ => Raise (EPy TypeError)
  end.
(** The [while resp is None] loop.  The daemon may send any number of
    notifications first, so the loop runs on fuel. *)
Fixpoint read_until (fuel : nat) (rid timeout : Z) : MW json :=
  match fuel with
  | O => spin
  | S fuel' =>
      body ← read_frame timeout;
      match loads body with
      | None => raise (ERpc InternalError None)
      | Some obj =>
          has ← lift (has_id obj);
          if (has : bool) then
            i ← lift (get_id obj);
            if eq_int i rid then mret obj
            else if is_warmup_id i then read_until fuel' rid timeout
            else close_locked;; raise (ERpc InternalError None)
          else
            dispatch_notification obj;;
            read_until fuel' rid timeout
      end
  end.

Definition idempotent (method : string) : bool := bool_decide (method ∈ IDEMPOTENT_METHODS).
Definition failure_data (method : string) (sent : bool) : json :=
  JObj [("method", JStr method); ("may_have_run", JBool sent)].

(** The [except] clauses: [mret None] is [continue]. *)
Definition on_failure (attempt : nat) (method : string) (sent : bool) (e : exn)
    : MW (option json) :=
  if is_timeout e then
    close_locked;; raise (ERpc TargetError (Some (failure_data method sent)))
  else if is_io_failure e then
    close_locked;;
    if bool_decide (attempt = 0%nat) && (negb sent || idempotent method)
    then mret None
    else raise (ERpc TargetError (Some (failure_data method sent)))
  else raise e.

(** One pass of [for attempt in range(2)], up to numbering the request. *)
Definition prepare (n : nat) (method : string) : MW unit :=
  stale ← is_stale;
  (if (stale : bool) then close_locked else mret tt);;
  ensure_connected;;
  (if decide (n = 1%nat) then warmup_locked else mret tt);;
  (if decide (method ∈ MUTATING_METHODS)
   then t ← now; upd (set_last_write (Some t)) else mret tt).

(** The whole pass.  [sent] is false until [_send_frame] has returned. *)
Definition attempt (fuel n : nat) (method : string) (params : option json)
    (timeout : Z) : MW (option json) :=
  prepare n method;;
  rid ← gets (λ w, next_id (tr w));
  upd bump_id;;
  let payload := dumps (envelope rid method params) in
  sent ← catch (send_frame payload;; mret (inl tt))
               (λ e, inr <$> on_failure n method false e);
  match sent with
  | inr r => mret r
  | inl _ =>
      catch (resp ← read_until fuel rid timeout;
             t ← now;
             upd (set_last_io (Some t));;
             mret (Some resp))
            (on_failure n method true)
  end.

(** The [async with self._lock] block: the response to the request. *)
Definition transact (fuel : nat) (method : string) (params : option json)
    (timeout : Z) : MW json :=
  r ← attempt fuel 0 method params timeout;
  match r with
  | Some resp => mret resp
  | None =>
      r ← attempt fuel 1 method params timeout;
      match r with
      | Some resp => mret resp
      | None => raise (ERpc InternalError (Some (JObj [("method", JStr method)])))
      end
  end.

(** After the lock: an error member becomes the exception it names. *)
Definition response (resp : json) : res exn json :=
  match jget "error" resp with
  | Some err =>
      match err with
      | JObj e =>
          match py_int (default (JNum (-32603)) (assoc "code" e)) with
          | Ret code =>
              Raise (ERpc (default JsonRpcError (ERROR_BY_CODE code))
                          (match assoc "data" e with Some JNull => None | d => d end))
          | Raise x => Raise x
          | Spin => Spin
          end
      | _ => Raise (EPy AttributeError)
      end
  | None => match jget "result" resp with
            | Some r => Ret r
            | None => Raise (ERpc InternalError None)
            end
  end.

Definition request (fuel : nat) (method : string) (params : option json)
    (timeout : Z) : MW json :=
  resp ← transact fuel method params timeout;
  lift (response resp).

(** [close] *)
Definition close : MW unit := close_locked.
End transport.

(* ------------------------------------------------------------------ *)
(** ** What each step does to the wire and the transport *)

(** No frame goes out. *)
Definition same_wire {E} : relation (world E) := λ w w', wire w' = wire w.
#[export] Instance same_wire_preorder {E} : PreOrder (@same_wire E).
Proof. split; [done|]. unfold same_wire. intros ???. congruence. Qed.

(** Only frames satisfying [P] go out. *)
Definition sends {E} (P : nat * bytes → Prop) : relation (world E) := λ w w',
  ∃ l, wire w' = wire w ++ l ∧ Forall P l.
#[export] Instance sends_preorder {E} P : PreOrder (@sends E P).
Proof.
  split.
  - intros w. exists []. by rewrite app_nil_r.
  - intros w1 w2 w3 (l1 & H1 & HP1) (l2 & H2 & HP2). exists (l1 ++ l2).
    rewrite H2, H1, (assoc_L (++)). split; [done|]. by apply Forall_app.
Qed.
Lemma same_wire_sends {E} P (w w' : world E) : same_wire w w' → sends P w w'.
Proof. intros Hw. exists []. by rewrite app_nil_r. Qed.

(** The connection attributes agree: both ends or none, a time of last use
    exactly while connected, and ids stay positive. *)
Definition transport_ok (t : transport) : Prop :=
  reader t = writer t ∧ (is_Some (last_io_at t) ↔ is_Some (reader t)) ∧ 1 ≤ next_id t.
(** Ids are handed out in order and queued notifications are never lost. *)
Definition advances {E} : relation (world E) := λ w w',
  next_id (tr w) ≤ next_id (tr w') ∧
  ∃ q, notification_q (tr w') = notification_q (tr w) ++ q.
#[export] Instance advances_preorder {E} : PreOrder (@advances E).
Proof.
  split.
  - intros w. split; [lia|]. exists []. by rewrite app_nil_r.
  - intros w1 w2 w3 [Hid1 [q1 Hq1]] [Hid2 [q2 Hq2]]. split; [lia|].
    exists (q1 ++ q2). by rewrite Hq2, Hq1, (assoc_L (++)).
Qed.
Section steps.
Context {E : Type} `{Net E}.
Context (loads : bytes → option json) (dumps : json → bytes) (channel : McpdChannel).

(** Leaves that touch neither the wire nor the transport. *)
Lemma on_env_tr {A} (m : M E exn A) w : tr (on_env m w).2 = tr w ∧ wire (on_env m w).2 = wire w.
Proof. unfold on_env. by destruct (m (env w)) as [r e]. Qed.
Lemma on_io_tr {A} (m : M E io_exn A) w : tr (on_io m w).2 = tr w ∧ wire (on_io m w).2 = wire w.
Proof. unfold on_io. by destruct (m (env w)) as [[] e]. Qed.
Lemma wp_on_io {A} (m : M E io_exn A) w :
  wp (on_io m) (λ _ w', tr w' = tr w ∧ wire w' = wire w) w.
Proof. apply on_io_tr. Qed.
Lemma respects_on_env {A} R (m : M E exn A) :
  (∀ w w' : world E, tr w' = tr w → wire w' = wire w → R w w') → respects R (on_env m).
Proof. intros HR w. destruct (on_env_tr m w). by apply HR. Qed.
Lemma respects_on_io {A} R (m : M E io_exn A) :
  (∀ w w' : world E, tr w' = tr w → wire w' = wire w → R w w') → respects R (on_io m).
Proof. intros HR w. destruct (on_io_tr m w). by apply HR. Qed.

Lemma same_wire_upd f : respects (@same_wire E) (upd f).
Proof. done. Qed.
Lemma same_wire_on_env {A} (m : M E exn A) : respects same_wire (on_env m).
Proof. apply respects_on_env. done. Qed.
Lemma same_wire_on_io {A} (m : M E io_exn A) : respects same_wire (on_io m).
Proof. apply respects_on_io. done. Qed.
#[local] Hint Resolve same_wire_upd same_wire_on_env same_wire_on_io : respects.

Lemma same_wire_close : respects (@same_wire E) close_locked.
Proof. unfold close_locked. respects_tac. Qed.
Lemma same_wire_connect : respects (@same_wire E) (ensure_connected channel).
Proof. unfold ensure_connected, now. respects_tac. Qed.
Lemma same_wire_read_frame t : respects (@same_wire E) (read_frame t).
Proof. unfold read_frame. respects_tac. Qed.
#[local] Hint Resolve same_wire_close same_wire_connect same_wire_read_frame : respects.
Lemma same_wire_run_handlers hs obj : respects (@same_wire E) (run_handlers hs obj).
Proof. induction hs as [|h hs IH]; simpl; respects_tac. Qed.
#[local] Hint Resolve same_wire_run_handlers : respects.
Lemma same_wire_read_until fuel rid t : respects (@same_wire E) (read_until loads fuel rid t).
Proof.
  induction fuel as [|fuel IH]; simpl; unfold dispatch_notification; respects_tac.
Qed.
Lemma same_wire_on_failure n m b e : respects (@same_wire E) (on_failure n m b e).
Proof. unfold on_failure. respects_tac. Qed.

(** A frame goes on the wire exactly when [_send_frame] returns. *)
Lemma send_frame_wire payload (w : world E) :
  wp (send_frame payload) (λ r w',
    tr w' = tr w ∧
    match r with
    | Ret _ => ∃ c, writer (tr w) = Some c ∧ wire w' = wire w ++ [(c, payload)]
    | _ => wire w' = wire w
    end) w.
Proof.
  unfold send_frame. apply wp_bind, wp_gets. case_match; [|by apply wp_raise].
  case_match; [by apply wp_raise|]. apply wp_bind. unfold wp.
  destruct (on_io_tr (write_drain n (pack_u32 (Z.of_nat (length payload)) ++ payload)) w)
    as [Ht Hw].
  destruct (on_io _ w) as [[[]|x|] w'] eqn:Hio; simpl in *; [|by rewrite Ht, Hw..].
  split; [done|]. exists n. by rewrite Hw.
Qed.

(** The id counter moves only when a request is numbered. *)
Definition same_id : relation (world E) := λ w w', next_id (tr w') = next_id (tr w).
#[local] Instance same_id_preorder : PreOrder same_id.
Proof. split; [done|]. unfold same_id. intros ???. congruence. Qed.
Lemma same_id_on_io {A} (m : M E io_exn A) : respects same_id (on_io m).
Proof. apply respects_on_io. unfold same_id. by intros ?? ->. Qed.
Lemma same_id_on_env {A} (m : M E exn A) : respects same_id (on_env m).
Proof. apply respects_on_env. unfold same_id. by intros ?? ->. Qed.
Lemma same_id_upd f : (∀ t, next_id (f t) = next_id t) → respects same_id (upd f).
Proof. intros Hf w. apply Hf. Qed.
#[local] Hint Resolve same_id_on_io same_id_on_env same_id_upd : respects.
Lemma same_id_close : respects same_id close_locked.
Proof. unfold close_locked. respects_tac. Qed.
Lemma same_id_connect : respects same_id (ensure_connected channel).
Proof. unfold ensure_connected, now. respects_tac. Qed.
Lemma same_id_read_frame t : respects same_id (read_frame t).
Proof. unfold read_frame. respects_tac. Qed.
Lemma same_id_send_frame b : respects same_id (send_frame b).
Proof. intros w. destruct (send_frame_wire b w) as [Ht _]. unfold same_id. by rewrite Ht. Qed.
#[local] Hint Resolve same_id_close same_id_connect same_id_read_frame same_id_send_frame
  : respects.
Lemma same_id_warmup_step i : respects same_id (warmup_step dumps channel i).
Proof. unfold warmup_step. respects_tac. Qed.
#[local] Hint Resolve same_id_warmup_step : respects.
Lemma same_id_run_handlers hs obj : respects same_id (run_handlers hs obj).
Proof. induction hs as [|h hs IH]; simpl; respects_tac. Qed.
#[local] Hint Resolve same_id_run_handlers : respects.
Lemma same_id_read_until fuel rid t : respects same_id (read_until loads fuel rid t).
Proof. induction fuel as [|fuel IH]; simpl; unfold dispatch_notification; respects_tac. Qed.
Lemma same_id_on_failure n m b e : respects same_id (on_failure n m b e).
Proof. unfold on_failure. respects_tac. Qed.
Lemma same_id_prepare n method : respects same_id (prepare dumps channel n method).
Proof. unfold prepare, is_stale, warmup_locked, now. respects_tac. Qed.

(** The frames of the warm-up. *)
Definition warm_frame (f : nat * bytes) : Prop :=
  f.2 = dumps (warmup_env 0) ∨ f.2 = dumps (warmup_env 1).

Lemma same_wire_sends_respects {A} P (m : M (world E) exn A) :
  respects same_wire m → respects (sends P) m.
Proof. intros Hm w. apply same_wire_sends, Hm. Qed.
#[local] Hint Resolve same_wire_sends_respects : respects.

Lemma sends_send_frame (P : nat * bytes → Prop) b :
  (∀ c, P (c, b)) → respects (sends P) (send_frame b).
Proof.
  intros HP w. destruct (send_frame_wire b w) as [_ Hr].
  destruct (send_frame b w) as [[[]|x|] w']; simpl in *; [|by apply same_wire_sends..].
  destruct Hr as (c & _ & Hw). exists [(c, b)]. split; [exact Hw|]. by constructor.
Qed.
Lemma sends_warmup_step i : (i = 0 ∨ i = 1) → respects (sends warm_frame) (warmup_step dumps channel i).
Proof.
  intros Hi. unfold warmup_step.
  assert (respects (sends warm_frame) (send_frame (dumps (warmup_env i)))).
  { apply sends_send_frame. unfold warm_frame. intros c. destruct Hi; subst; auto. }
  respects_tac.
Qed.
Lemma sends_warmup : respects (sends warm_frame) (warmup_locked dumps channel).
Proof.
  pose proof (sends_warmup_step 0 ltac:(auto)). pose proof (sends_warmup_step 1 ltac:(auto)).
  unfold warmup_locked. respects_tac.
Qed.

(* ---------------------------------------------------------------- *)
(** *** The exceptions of each step *)

Definition plain (e : exn) : Prop := is_target_error e = false.
(** Not the transport's own "may have run" report. *)
Definition quiet (e : exn) : Prop :=
  ∀ d, e = ERpc TargetError (Some d) → jget "may_have_run" d = None.
Lemma plain_quiet e : plain e → quiet e.
Proof. by intros Hp d ->. Qed.

Lemma raises_on_io {A} (m : M E io_exn A) : raises plain (on_io m).
Proof.
  intros w x. unfold on_io. destruct (m (env w)) as [[a|y|] e]; simpl; [done| |done].
  intros [= <-]. by destruct y.
Qed.
Lemma raises_upd P f : raises P (upd f : M (world E) exn unit).
Proof. done. Qed.
#[local] Hint Resolve raises_on_io raises_upd : raises.
Lemma raises_close : raises plain (close_locked : M (world E) exn unit).
Proof.
  unfold close_locked. raises_tac.
  apply (raises_catch_from _ plain); [auto with raises|]. intros e He. raises_tac.
Qed.
Lemma raises_read_frame t : raises plain (read_frame t : M (world E) exn bytes).
Proof. unfold read_frame. raises_tac. Qed.
Lemma raises_send_frame b : raises plain (send_frame b : M (world E) exn unit).
Proof. unfold send_frame, log_wire. raises_tac. Qed.
#[local] Hint Resolve raises_close raises_read_frame raises_send_frame : raises.
Lemma raises_run_handlers hs obj : raises plain (run_handlers hs obj : M (world E) exn unit).
Proof.
  induction hs as [|h hs IH]; simpl; raises_tac.
  apply raises_catch. intros e. destruct (is_exception e) eqn:He; raises_tac. by destruct e.
Qed.
#[local] Hint Resolve raises_run_handlers : raises.
Lemma raises_has_id obj : raises plain (lift (has_id obj) : M (world E) exn bool).
Proof. intros w x. unfold lift. simpl. destruct obj; simpl; intros Hx; by simplify_eq. Qed.
Lemma raises_get_id obj : raises plain (lift (get_id obj) : M (world E) exn json).
Proof. intros w x. unfold lift. simpl. destruct obj; simpl; repeat case_match; naive_solver. Qed.
#[local] Hint Resolve raises_has_id raises_get_id : raises.
Lemma raises_read_until fuel rid t :
  raises plain (read_until loads fuel rid t : M (world E) exn json).
Proof.
  induction fuel as [|fuel IH]; simpl; unfold dispatch_notification; raises_tac.
Qed.
Lemma raises_connect : raises quiet (ensure_connected channel : M (world E) exn unit).
Proof.
  unfold ensure_connected, now. raises_tac.
  all: apply (raises_catch_from _ plain); [|intros e He].
  all: raises_tac; try (by apply plain_quiet).
  all: try (intros d [= <-]; done).
  all: intros ??; unfold lift, endpoint_port; simpl; intros; repeat case_match; by simplify_eq.
Qed.
Lemma raises_warmup_step i : raises plain (warmup_step dumps channel i : M (world E) exn bool).
Proof.
  unfold warmup_step. raises_tac.
  apply (raises_catch_from _ plain).
  - raises_tac. apply (raises_catch_from _ plain); raises_tac. intros e He. raises_tac.
  - intros e He. raises_tac.
    apply (raises_catch_from _ quiet); [raises_tac; apply raises_connect|].
    intros e' _. raises_tac.
Qed.
#[local] Hint Resolve raises_warmup_step : raises.
Lemma raises_prepare n method :
  raises quiet (prepare dumps channel n method : M (world E) exn unit).
Proof.
  assert (∀ A (m : M (world E) exn A), raises plain m → raises quiet m) as Hpq.
  { intros A m Hm. by eapply raises_mono; [exact Hm|apply plain_quiet]. }
  unfold prepare, is_stale, now, warmup_locked. raises_tac.
  all: try apply raises_connect.
  all: apply Hpq; raises_tac.
Qed.

Lemma prepare_wire n method (w : world E) :
  wp (prepare dumps channel n method) (λ r w',
    ∃ ws, wire w' = wire w ++ ws ∧ Forall warm_frame ws ∧ (n ≠ 1%nat → ws = [])) w.
Proof.
  destruct (decide (n = 1%nat)) as [->|Hn].
  - assert (respects (sends warm_frame) (prepare dumps channel 1 method)) as Hs.
    { pose proof sends_warmup. unfold prepare, is_stale, now. respects_tac. }
    destruct (Hs w) as (ws & Hw & Hws). by exists ws.
  - assert (respects same_wire (prepare dumps channel n method)) as Hs.
    { unfold prepare, is_stale, now. destruct (decide (n = 1%nat)); [done|]. respects_tac. }
    exists []. rewrite app_nil_r. split; [apply Hs|]. by split.
Qed.

(** The failure clauses: what is reported, and that nothing is sent. *)
Lemma on_failure_spec n method sent e (w : world E) : plain e →
  wp (on_failure n method sent e) (λ r w',
    wire w' = wire w ∧
    match r with
    | Ret None => n = 0%nat ∧ (sent = false ∨ idempotent method = true)
    | Ret (Some _) => False
    | Raise (ERpc TargetError d) => d = Some (failure_data method sent)
    | _ => True
    end) w.
Proof.
  intros He. split; [apply same_wire_on_failure|].
  pose proof (raises_close) as Hc. unfold on_failure, wp.
  destruct (is_timeout e); [|destruct (is_io_failure e)]; simpl.
  - unfold mbind, M_bind. specialize (Hc w).
    destruct (close_locked w) as [[[]|x|] w'] eqn:?; simpl in *; [done| |done].
    specialize (Hc x eq_refl). by destruct x as [[]| | | |].
  - unfold mbind, M_bind. specialize (Hc w).
    destruct (close_locked w) as [[[]|x|] w'] eqn:?; simpl in *; [| |done].
    + destruct (bool_decide_reflect (n = 0%nat)); simpl; [|done].
      destruct sent, (idempotent method); simpl; auto.
    + specialize (Hc x eq_refl). by destruct x as [[]| | | |].
  - by destruct e as [[]| | | |].
Qed.

Definition answers (rid : Z) (resp : json) : Prop :=
  ∃ i, get_id resp = Ret i ∧ eq_int i rid = true.
Lemma read_frame_connected t (w : world E) :
  wp (read_frame t) (λ r w', match r with Ret _ => is_Some (reader (tr w')) | _ => True end) w.
Proof.
  unfold read_frame. apply wp_bind, wp_gets. destruct (reader (tr w)) as [c|] eqn:Hc; [|done].
  apply wp_bind. unfold wp at 1. destruct (on_io_tr (readexactly c 4 t) w) as [Ht _].
  destruct (on_io _ w) as [[hdr|x|] w1]; simpl in *; [|done..].
  case_match; [by apply wp_raise|]. unfold wp.
  destruct (on_io_tr (readexactly c (be_val hdr) t) w1) as [Ht' _].
  destruct (on_io _ w1) as [[body|x|] w2]; simpl in *; [|done..].
  rewrite Ht', Ht, Hc. by eexists.
Qed.
(** A reply has the awaited id and is taken from an open connection. *)
Lemma read_until_spec fuel rid t (w : world E) :
  wp (read_until loads fuel rid t)
     (λ r w', match r with
              | Ret resp => answers rid resp ∧ is_Some (reader (tr w'))
              | _ => True
              end) w.
Proof.
  revert w. induction fuel as [|fuel IH]; intros w; [done|]. simpl.
  apply wp_bind. eapply wp_mono; [apply read_frame_connected|].
  intros [body|x|] w1 Hc; [|done..]. destruct (loads body) as [obj|]; [|done].
  apply wp_bind. unfold wp at 1. simpl. destruct (has_id obj) as [[]|x|]; simpl; [| |done..].
  - apply wp_bind. unfold wp at 1. simpl. destruct (get_id obj) as [i|x|] eqn:Hi; simpl; [|done..].
    destruct (eq_int i rid) eqn:?; [apply wp_ret; split; [by exists i|done]|].
    destruct (is_warmup_id i); [apply IH|]. apply wp_bind. unfold wp at 1.
    by destruct (close_locked w1) as [[]].
  - apply wp_bind. unfold wp at 1.
    destruct (dispatch_notification obj w1) as [[]]; [apply IH|done..].
Qed.

(** What the request's own frame is, and what one pass does. *)
Definition own_frame (rid : Z) (method : string) (params : option json) (f : nat * bytes) : Prop :=
  f.2 = dumps (envelope rid method params).
Definition report (method : string) (own : list (nat * bytes)) (d : option json) : Prop :=
  match d with
  | Some d => d = failure_data method (bool_decide (own ≠ [])) ∨
              (jget "may_have_run" d = None ∧ own = [])
  | None => True
  end.
Definition attempt_post (n : nat) (method : string) (params : option json) (w : world E)
    (r : res exn (option json)) (w' : world E) : Prop :=
  let rid := next_id (tr w) in
  ∃ ws own, wire w' = wire w ++ ws ++ own ∧ Forall warm_frame ws ∧
    (n ≠ 1%nat → ws = []) ∧ (length own ≤ 1)%nat ∧ Forall (own_frame rid method params) own ∧
    rid + Z.of_nat (length own) ≤ next_id (tr w') ∧
    match r with
    | Ret (Some resp) => own ≠ [] ∧ answers rid resp
    | Ret None => n = 0%nat ∧ (own = [] ∨ idempotent method = true) ∧ next_id (tr w') = rid + 1
    | Raise (ERpc TargetError d) => report method own d
    | _ => True
    end.
(** A pass that put [own] on the wire and then failed with [e]. *)
Lemma attempt_post_failure n method params (w w1 : world E) ws own e :
  wire w1 = wire w ++ ws ++ own → Forall warm_frame ws → (n ≠ 1%nat → ws = []) →
  (length own ≤ 1)%nat → Forall (own_frame (next_id (tr w)) method params) own →
  next_id (tr w1) = next_id (tr w) + 1 → plain e →
  wp (on_failure n method (bool_decide (own ≠ [])) e) (attempt_post n method params w) w1.
Proof.
  intros Hw Hws Hn Hlen Hown Hid He.
  eapply wp_mono; [apply wp_conj|].
  - by apply (on_failure_spec n method (bool_decide (own ≠ []))).
  - apply wp_respects, same_id_on_failure.
  - intros r w' [[Hw' Hr] Hid']. exists ws, own. unfold same_id in Hid'.
    split_and!; [congruence|done..|simpl in *; lia|].
    destruct r as [[resp|]|x|]; [done| |destruct x as [[]| | | |]; try done; subst; by left|done].
    destruct Hr as [? Hr]. split_and!; [done| |lia].
    destruct Hr as [Hr|?]; [left|by right].
    apply bool_decide_eq_false in Hr. by apply dec_stable.
Qed.
Lemma attempt_spec fuel n method params t (w : world E) :
  wp (attempt loads dumps channel fuel n method params t) (attempt_post n method params w) w.
Proof.
  unfold attempt. apply wp_bind. unfold wp at 1.
  destruct (prepare_wire n method w) as (ws & Hw & Hws & Hn).
  pose proof (same_id_prepare n method w) as Hid. unfold same_id in Hid.
  pose proof (raises_prepare n method w) as Hx.
  destruct (prepare dumps channel n method w) as [[[]|x|] w1]; simpl in *.
  2:{ exists ws, []. rewrite app_nil_r. split_and!; [done..|simpl; lia|done|simpl; lia|].
      destruct x as [[] [d|]| | | |]; try done. right. split; [|done]. by apply (Hx _ eq_refl). }
  2:{ exists ws, []. rewrite app_nil_r. split_and!; [done..|simpl; lia|done|simpl; lia|done]. }
  apply wp_bind, wp_gets. rewrite Hid. set (rid := next_id (tr w)).
  apply wp_bind, wp_modify. apply wp_bind, wp_catch, wp_bind. cbv beta.
  set (w2 := World (bump_id (tr w1)) (wire w1) (env w1)).
  assert (next_id (tr w2) = rid + 1) as Hid2 by (simpl; lia).
  assert (wire w2 = wire w ++ ws) as Hw2 by done. clearbody w2.
  unfold wp at 1.
  pose proof (send_frame_wire (dumps (envelope rid method params)) w2) as [Htr Hs].
  pose proof (raises_send_frame (dumps (envelope rid method params)) w2) as Hxs.
  destruct (send_frame _ w2) as [[[]|x|] w3]; simpl in *.
  3:{ exists ws, []. rewrite app_nil_r, Hs. split_and!; [done..|simpl; lia|done|rewrite Htr; simpl; lia|done]. }
  2:{ apply wp_fmap. eapply wp_mono;
        [apply (attempt_post_failure n method params w w3 ws [] x);
         [by rewrite app_nil_r, Hs|done..|simpl; lia|done|by rewrite Htr|by apply Hxs]|].
      by intros [[]| |] w'. }
  destruct Hs as (c & _ & Hw3). apply wp_ret, wp_catch, wp_bind.
  set (own := [(c, dumps (envelope rid method params))]).
  assert (Forall (own_frame rid method params) own) as Hown by (by repeat constructor).
  eapply wp_mono; [apply wp_conj; [apply wp_conj|]|].
  - apply (read_until_spec fuel rid t).
  - apply wp_respects, (same_wire_read_until fuel rid t).
  - apply wp_conj; [apply wp_raises, raises_read_until|apply wp_respects, (same_id_read_until fuel rid t)].
  - intros r w4 [[Ha Hw4] [Hx4 Hid4]]. unfold same_wire, same_id in *.
    destruct r as [resp|x|].
    + destruct Ha as [Ha _]. apply wp_bind, wp_gets. apply wp_bind, wp_modify. apply wp_ret.
      exists ws, own. rewrite Hw4, Hw3, Hw2, (assoc_L (++)). split_and!; try done.
      rewrite <- Htr in Hid2. simpl in *. lia.
    + apply (attempt_post_failure n method params w w4 ws own x); try done.
      * by rewrite Hw4, Hw3, Hw2, (assoc_L (++)).
      * by rewrite Hid4, Htr.
    + exists ws, own. rewrite Hw4, Hw3, Hw2, (assoc_L (++)). split_and!; try done.
      rewrite <- Htr in Hid2. simpl in *. lia.
Qed.

(** The two passes of [request], composed. *)
Definition transact_post (method : string) (params : option json) (w : world E)
    (r : res exn json) (w' : world E) : Prop :=
  let rid := next_id (tr w) in
  ∃ own1 ws own2, wire w' = wire w ++ own1 ++ ws ++ own2 ∧ Forall warm_frame ws ∧
    (length own1 ≤ 1)%nat ∧ (length own2 ≤ 1)%nat ∧
    Forall (own_frame rid method params) own1 ∧
    Forall (own_frame (rid + 1) method params) own2 ∧
    (own1 = [] ∨ idempotent method = true ∨ (ws = [] ∧ own2 = [])) ∧
    rid + Z.of_nat (length own1) ≤ next_id (tr w') ∧
    (own2 = [] ∨ rid + 1 + Z.of_nat (length own2) ≤ next_id (tr w')) ∧
    match r with
    | Ret resp => (own2 ≠ [] ∧ answers (rid + 1) resp) ∨
                  (own1 ≠ [] ∧ ws = [] ∧ own2 = [] ∧ answers rid resp)
    | Raise (ERpc TargetError d) =>
        (report method own2 d ∧ (own1 = [] ∨ idempotent method = true)) ∨
        (report method own1 d ∧ ws = [] ∧ own2 = [])
    | _ => True
    end.
Lemma transact_spec fuel method params t (w : world E) :
  wp (transact loads dumps channel fuel method params t) (transact_post method params w) w.
Proof.
  unfold transact. apply wp_bind.
  eapply wp_mono; [apply attempt_spec|].
  intros r w1 (ws1 & own1 & Hw1 & Hws1 & Hn & Hl1 & Ho1 & Hi1 & Hr1).
  rewrite Hn in Hw1 by done. clear ws1 Hws1 Hn. simpl in Hw1.
  assert (∀ r', match r' with
    | Ret resp => (own1 ≠ [] ∧ answers (next_id (tr w)) resp)
    | Raise (ERpc TargetError d) => report method own1 d
    | _ => True end → transact_post method params w r' w1) as Hone.
  { intros r' Hr'. exists own1, [], []. rewrite app_nil_r.
    split_and!; try done; [simpl; lia|auto|auto|]. destruct r' as [|[[]| | | |]|]; naive_solver. }
  destruct r as [[resp|]|x|]; [by apply wp_ret, Hone| |by apply Hone..].
  destruct Hr1 as (_ & Hidem & Hid). apply wp_bind.
  eapply wp_mono; [apply attempt_spec|].
  intros r w2 (ws2 & own2 & Hw2 & Hws2 & _ & Hl2 & Ho2 & Hi2 & Hr2). rewrite Hid in Ho2, Hr2, Hi2.
  assert (∀ r', match r' with
    | Ret resp => (own2 ≠ [] ∧ answers (next_id (tr w) + 1) resp)
    | Raise (ERpc TargetError d) => report method own2 d
    | _ => True end → transact_post method params w r' w2) as Htwo.
  { intros r' Hr'. exists own1, ws2, own2. rewrite Hw2, Hw1, <- (assoc_L (++)).
    split_and!; try done; [naive_solver|lia|auto|]. destruct r' as [|[[]| | | |]|]; naive_solver. }
  destruct r as [[resp|]|x|]; [by apply wp_ret, Htwo|by apply wp_raise, Htwo|by apply Htwo..].
Qed.

(* ---------------------------------------------------------------- *)
(** *** The invariant of the transport's attributes *)

(** [transport_ok] is kept, ids and the queue only grow. *)
Definition keeps : relation (world E) := λ w w',
  (transport_ok (tr w) → transport_ok (tr w')) ∧ advances w w'.
#[local] Instance keeps_preorder : PreOrder keeps.
Proof.
  split; [by split|]. intros w1 w2 w3 [H1 Ha1] [H2 Ha2]. split; [auto|by etrans].
Qed.
Lemma keeps_tr (w w' : world E) : tr w' = tr w → keeps w w'.
Proof. intros Ht. unfold keeps, advances. rewrite Ht. split_and!; [done..|]. exists []. by rewrite app_nil_r. Qed.
Lemma keeps_on_io {A} (m : M E io_exn A) : respects keeps (on_io m).
Proof. apply respects_on_io. intros. by apply keeps_tr. Qed.
Lemma keeps_on_env {A} (m : M E exn A) : respects keeps (on_env m).
Proof. apply respects_on_env. intros. by apply keeps_tr. Qed.
Lemma keeps_upd f :
  (∀ t, transport_ok t → transport_ok (f t)) → (∀ t, next_id t ≤ next_id (f t)) →
  (∀ t, ∃ q, notification_q (f t) = notification_q t ++ q) →
  respects keeps (upd f).
Proof. intros H1 H2 H3 w. unfold keeps, advances. simpl. auto. Qed.
#[local] Hint Resolve keeps_on_io keeps_on_env : respects.

Lemma keeps_close : respects keeps close_locked.
Proof.
  unfold close_locked. respects_tac.
  all: apply keeps_upd; [|done|intros t; exists []; by rewrite app_nil_r].
  all: intros t (? & ? & ?); unfold transport_ok; simpl; naive_solver.
Qed.
(** Connecting sets both ends and then the time of last use. *)
Lemma keeps_set_conn c : respects keeps
  (upd (set_conn (Some c) (Some c));; n ← now; upd (set_last_io (Some n))).
Proof.
  intros w. unfold keeps, advances, transport_ok. simpl. split_and!; [|done|].
  - intros (? & ? & ?). naive_solver.
  - exists []. by rewrite app_nil_r.
Qed.
#[local] Hint Resolve keeps_close keeps_set_conn : respects.
Lemma keeps_connect : respects keeps (ensure_connected channel).
Proof.
  unfold ensure_connected. apply (respects_bind _); [respects_tac|]. intros t.
  destruct (reader t), (writer t); [respects_tac|..].
  all: apply (respects_bind _); [respects_tac|intros c; apply keeps_set_conn].
Qed.
Lemma keeps_read_frame t : respects keeps (read_frame t).
Proof. unfold read_frame. respects_tac. Qed.
Lemma keeps_send_frame b : respects keeps (send_frame b).
Proof. intros w. destruct (send_frame_wire b w) as [Ht _]. by apply keeps_tr. Qed.
#[local] Hint Resolve keeps_connect keeps_read_frame keeps_send_frame : respects.
Lemma keeps_run_handlers hs obj : respects keeps (run_handlers hs obj).
Proof. induction hs as [|h hs IH]; simpl; respects_tac. Qed.
Lemma keeps_dispatch obj : respects keeps (dispatch_notification obj).
Proof.
  pose proof keeps_run_handlers. unfold dispatch_notification. respects_tac.
  apply keeps_upd; [by intros t|done|]. intros t. by exists [obj].
Qed.
#[local] Hint Resolve keeps_dispatch : respects.
Lemma keeps_read_until fuel rid t : respects keeps (read_until loads fuel rid t).
Proof. induction fuel as [|fuel IH]; simpl; respects_tac. Qed.
Lemma keeps_on_failure n m b e : respects keeps (on_failure n m b e).
Proof. unfold on_failure. respects_tac. Qed.
Lemma keeps_warmup_step i : respects keeps (warmup_step dumps channel i).
Proof. unfold warmup_step. respects_tac. Qed.
#[local] Hint Resolve keeps_read_until keeps_on_failure keeps_warmup_step : respects.
Lemma keeps_prepare n method : respects keeps (prepare dumps channel n method).
Proof.
  unfold prepare, is_stale, warmup_locked, now. respects_tac.
  apply keeps_upd; [by intros t|done|intros t; exists []; by rewrite app_nil_r].
Qed.
#[local] Hint Resolve keeps_prepare : respects.
Lemma keeps_reply fuel rid t : respects keeps
  (resp ← read_until loads fuel rid t; n ← now; upd (set_last_io (Some n));; mret (Some resp)).
Proof.
  intros w. pose proof (keeps_read_until fuel rid t w) as Hk.
  pose proof (read_until_spec fuel rid t w) as Hc. unfold wp in Hc.
  unfold mbind at 1, M_bind at 1.
  destruct (read_until loads fuel rid t w) as [[resp|x|] w1]; simpl in *; [|done..].
  etrans; [exact Hk|]. unfold keeps, advances, transport_ok. simpl. split_and!; [|done|].
  - intros (? & ? & ?). naive_solver.
  - exists []. by rewrite app_nil_r.
Qed.
#[local] Hint Resolve keeps_reply : respects.
Lemma keeps_attempt fuel n method params t :
  respects keeps (attempt loads dumps channel fuel n method params t).
Proof.
  unfold attempt. apply (respects_bind _); [apply keeps_prepare|intros _].
  apply (respects_bind _); [respects_tac|intros rid].
  apply (respects_bind _); [|intros _; apply (respects_bind _); [respects_tac|]].
  - apply keeps_upd; [|simpl; lia|intros q; exists []; by rewrite app_nil_r].
    intros q (? & ? & ?). unfold transport_ok. simpl. split_and!; [done..|lia].
  - intros [|]; [|respects_tac].
    apply (respects_catch _); [apply keeps_reply|intros x; respects_tac].
Qed.
Lemma keeps_request fuel method params t :
  respects keeps (request loads dumps channel fuel method params t).
Proof. pose proof keeps_attempt. unfold request, transact. respects_tac. Qed.
End steps.
