(* ===== verification/McpdProps.v ===== *)
(** * The MCPd transport: its properties

    What [request] guarantees whatever the network, the clock and the daemon
    do (at most one send, honest failure reports, fresh ids, a consistent
    connection state), and that it returns the daemon's answer over a
    connection that delivers bytes in order. *)
From S2P Require Import Prelude Py Bytes Config Net Mcpd.

Section safety.
Context {E : Type} `{Net E}.
Context (loads : bytes → option json) (dumps : json → bytes) (channel : McpdChannel).

(** ** Closing *)

Lemma close_locked_tr (w : world E) :
  wp close_locked (λ _ w', tr w' = set_last_io None (set_conn None None (tr w))) w.
Proof.
  unfold close_locked. apply wp_bind, wp_gets, wp_bind, wp_modify.
  destruct (writer (tr w)) as [c|]; [|by apply wp_ret]. apply wp_catch.
  eapply wp_mono; [apply wp_on_io|].
  intros [[]|x|] w1 [Ht _]; [done| |done]. by destruct (is_oserror x).
Qed.

Definition disconnected (t : transport) : Prop :=
  reader t = None ∧ writer t = None ∧ last_io_at t = None.
(** The transport's own failure report. *)
Definition reported {A} (r : res exn A) (b : bool) : Prop :=
  ∃ d, r = Raise (ERpc TargetError (Some d)) ∧ jget "may_have_run" d = Some (JBool b).
Definition closes_on_report {A} (m : M (world E) exn A) : Prop :=
  ∀ w, wp m (λ r w', ∀ b, reported r b → disconnected (tr w')) w.

Lemma closes_quiet {A} (m : M (world E) exn A) : raises quiet m → closes_on_report m.
Proof.
  intros Hq w b (d & Hr & Hd). apply Hq in Hr. specialize (Hr d eq_refl). congruence.
Qed.
Lemma closes_bind {A B} (m : M (world E) exn A) (k : A → M (world E) exn B) :
  closes_on_report m → (∀ a, closes_on_report (k a)) → closes_on_report (m ≫= k).
Proof.
  intros Hm Hk w. apply wp_bind. specialize (Hm w). unfold wp in Hm |- *.
  destruct (m w) as [[a|x|] w1]; simpl in *; [apply Hk| |].
  - intros b (d & [= ->] & Hd). apply (Hm b). by exists d.
  - by intros b (d & ? & ?).
Qed.
Lemma closes_on_failure n method sent e : plain e →
  closes_on_report (on_failure n method sent e : M (world E) exn (option json)).
Proof.
  intros He w. unfold on_failure. destruct (is_timeout e), (is_io_failure e) eqn:?; simpl in *.
  1-3: apply wp_bind; eapply wp_mono; [apply close_locked_tr|];
    intros [[]|x|] w' Ht; unfold wp; simpl; try case_match; simpl;
    intros b _; unfold disconnected; by rewrite Ht.
  apply closes_quiet. apply raises_raise. by apply plain_quiet.
Qed.
Lemma closes_attempt fuel n method params t :
  closes_on_report (attempt loads dumps channel fuel n method params t).
Proof.
  unfold attempt. apply closes_bind; [apply closes_quiet, raises_prepare|intros _].
  apply closes_bind; [apply closes_quiet; raises_tac|intros rid].
  apply closes_bind; [apply closes_quiet; raises_tac|intros _].
  assert (∀ A (m : M (world E) exn A) h, raises plain m →
    (∀ e, plain e → closes_on_report (h e)) → closes_on_report (catch m h)) as Hcatch.
  { intros A m h Hp Hh w. apply wp_catch. specialize (Hp w). unfold wp at 1.
    destruct (m w) as [[a|x|] w1]; simpl in *; [by intros b (d & ? & ?)| |by intros b (d & ? & ?)].
    apply Hh. by apply Hp. }
  apply closes_bind.
  - apply Hcatch; [raises_tac; apply raises_send_frame|]. intros e He w.
    apply wp_fmap. eapply wp_mono; [by apply (closes_on_failure n method false e)|].
    intros [a|x|] w' Hr b (d & [=] & Hd); subst. apply (Hr b). by exists d.
  - intros [|r]; [|by apply closes_quiet, raises_ret].
    apply Hcatch; [|intros e He; by apply closes_on_failure].
    unfold now. raises_tac. by apply (raises_read_until loads dumps).
Qed.
Lemma closes_transact fuel method params t :
  closes_on_report (transact loads dumps channel fuel method params t).
Proof.
  unfold transact. apply closes_bind; [apply closes_attempt|].
  intros [r|]; [by apply closes_quiet, raises_ret|].
  apply closes_bind; [apply closes_attempt|]. intros [r|]; apply closes_quiet; raises_tac.
Qed.

(* ---------------------------------------------------------------- *)
(** ** Theorems that hold on every network *)

(** C1: a method that is not in [IDEMPOTENT_METHODS] is put on the wire at
    most once per [request] call, whatever fails and whenever: beside
    warm-up probes, the frames sent are none or one frame of the request. *)
Theorem request_at_most_once fuel method params t (w : world E) :
  idempotent method = false →
  wp (request loads dumps channel fuel method params t) (λ _ w',
    ∃ ws own, wire w' = wire w ++ ws ++ own ∧ Forall (warm_frame dumps) ws ∧
      (length own ≤ 1)%nat ∧
      Forall (λ f, ∃ rid, next_id (tr w) ≤ rid < next_id (tr w') ∧
                          own_frame dumps rid method params f) own) w.
Proof.
  intros Hm. unfold request. apply wp_bind. eapply wp_mono; [apply transact_spec|].
  intros r w' (own1 & ws & own2 & Hw & Hws & Hl1 & Hl2 & Ho1 & Ho2 & Hor & Hi1 & Hi2 & _).
  assert (∃ ws own, wire w' = wire w ++ ws ++ own ∧ Forall (warm_frame dumps) ws ∧
    (length own ≤ 1)%nat ∧
    Forall (λ f, ∃ rid, next_id (tr w) ≤ rid < next_id (tr w') ∧
                        own_frame dumps rid method params f) own) as Hgoal.
  { destruct Hor as [->|[?|[-> ->]]]; [exists ws, own2|congruence|exists [], own1].
    - split_and!; try done. destruct own2 as [|f [|]]; [done| |simpl in *; lia].
      rewrite Forall_singleton in Ho2. constructor; [|done]. eexists. split; [|exact Ho2].
      destruct Hi2 as [[=]|]. simpl in *; lia.
    - rewrite app_nil_r in Hw. split_and!; try done.
      destruct own1 as [|f [|]]; [done| |simpl in *; lia].
      rewrite Forall_singleton in Ho1. constructor; [|done]. eexists. split; [|exact Ho1].
      simpl in *; lia. }
  by destruct r.
Qed.

(** C11: the failure report of a method that is not idempotent is honest:
    when the exchange fails with [may_have_run] the flag is true exactly
    when the request's frame went out. *)
Theorem may_have_run_honest fuel method params t (w : world E) b :
  idempotent method = false →
  reported (transact loads dumps channel fuel method params t w).1 b →
  ∃ ws own, wire (transact loads dumps channel fuel method params t w).2 = wire w ++ ws ++ own ∧
    Forall (warm_frame dumps) ws ∧ (b = true ↔ own ≠ []) ∧
    Forall (λ f, ∃ rid, own_frame dumps rid method params f) own.
Proof.
  intros Hm (d & Hr & Hd).
  destruct (transact_spec loads dumps channel fuel method params t w)
    as (own1 & ws & own2 & Hw & Hws & _ & _ & Ho1 & Ho2 & Hor & _ & _ & Hpost).
  rewrite Hr in Hpost.
  assert (∀ own, report method own (Some d) → b = bool_decide (own ≠ [])) as Hb.
  { intros own [->|[? _]]; [|congruence]. unfold failure_data in Hd. by injection Hd. }
  assert (∃ ws own, wire (transact loads dumps channel fuel method params t w).2
      = wire w ++ ws ++ own ∧ Forall (warm_frame dumps) ws ∧ report method own (Some d) ∧
      Forall (λ f, ∃ rid, own_frame dumps rid method params f) own)
    as (ws' & own & ? & ? & Hrep & Hown).
  { destruct Hpost as [[Hp [->|?]]|(Hp & -> & ->)]; [|congruence|].
    - exists ws, own2. split_and!; try done. eapply Forall_impl; [exact Ho2|]. by eexists.
    - exists [], own1. rewrite app_nil_r in Hw. split_and!; try done.
      eapply Forall_impl; [exact Ho1|]. by eexists. }
  exists ws', own. split_and!; try done. rewrite (Hb _ Hrep). by rewrite bool_decide_eq_true.
Qed.

(** a value returned by [request] is the [result] member of a reply
    that carries the id of the frame sent last, which is this request's. *)
Theorem request_result_answers fuel method params t (w : world E) v :
  (request loads dumps channel fuel method params t w).1 = Ret v →
  ∃ rid c resp,
    last (wire (request loads dumps channel fuel method params t w).2)
      = Some (c, dumps (envelope rid method params)) ∧
    next_id (tr w) ≤ rid ∧ answers rid resp ∧ response resp = Ret v.
Proof.
  unfold request. intros Hv.
  pose proof (transact_spec loads dumps channel fuel method params t w) as Hs.
  unfold wp, mbind, M_bind, lift in *.
  destruct (transact _ _ _ _ _ _ _ w) as [[resp|x|] w']; simpl in *; [|done..].
  destruct Hs as (own1 & ws & own2 & Hw & _ & Hl1 & Hl2 & Ho1 & Ho2 & _ & _ & _ & Hr).
  assert (∀ pre own rid, (length own ≤ 1)%nat → own ≠ [] →
    Forall (own_frame dumps rid method params) own → wire w' = pre ++ own →
    ∃ c, last (wire w') = Some (c, dumps (envelope rid method params))) as Hlast.
  { intros pre [|[c b] [|]] rid Hl Hne Ho ->; [done| |simpl in *; lia].
    rewrite Forall_singleton in Ho. unfold own_frame in Ho. simpl in Ho. subst b.
    exists c. by rewrite last_snoc. }
  destruct Hr as [[Hne Ha]|(Hne & -> & -> & Ha)].
  - destruct (Hlast (wire w ++ own1 ++ ws) own2 (next_id (tr w) + 1)) as [c Hc];
      [done..|by rewrite Hw, <- !(assoc_L (++))|].
    exists (next_id (tr w) + 1), c, resp. split_and!; [done|lia|done..].
  - rewrite app_nil_r in Hw.
    destruct (Hlast (wire w) own1 (next_id (tr w))) as [c Hc]; [done..|].
    exists (next_id (tr w)), c, resp. split_and!; [done|lia|done..].
Qed.

(** a failure reported with [may_have_run] -- a timeout or a broken
    connection -- leaves no connection behind, so a reply that arrives late
    can never be read by a later request. *)
Theorem report_disconnects fuel method params t (w : world E) b :
  reported (transact loads dumps channel fuel method params t w).1 b →
  disconnected (tr (transact loads dumps channel fuel method params t w).2).
Proof. apply closes_transact. Qed.

(* ---------------------------------------------------------------- *)
(** ** The transport as a state machine *)

(** The worlds the transport gets into: calls of its methods, in any order,
    and changes of everything outside it in between. *)
Inductive reachable : world E → Prop :=
| reach_init e : reachable (World transport_init [] e)
| reach_request w fuel method params t : reachable w →
    reachable (request loads dumps channel fuel method params t w).2
| reach_close w : reachable w → reachable (close w).2
| reach_subscribe w h : reachable w → reachable (subscribe h w).2
| reach_unsubscribe w h : reachable w → reachable (unsubscribe h w).2
| reach_env w e : reachable w → reachable (World (tr w) (wire w) e).

(** A strictly increasing list below a bound. *)
Definition ascends (l : list Z) (hi : Z) : Prop :=
  StronglySorted Z.lt l ∧ Forall (λ x, x < hi) l.
Lemma ascends_mono l lo hi : ascends l lo → lo ≤ hi → ascends l hi.
Proof. intros [? Hl] ?. split; [done|]. eapply Forall_impl; [exact Hl|]. simpl. lia. Qed.
Lemma ascends_replicate l lo hi n : (n ≤ 1)%nat → ascends l lo →
  lo + Z.of_nat n ≤ hi → ascends (l ++ replicate n lo) hi.
Proof.
  intros Hn Hl Hhi. destruct n as [|[|]]; simpl; [| |lia].
  - rewrite app_nil_r. eapply ascends_mono; [exact Hl|lia].
  - destruct Hl as [Hs Hl]. split.
    + apply StronglySorted_app_2; [|done|by repeat constructor].
      intros x y Hx ->%list_elem_of_singleton. by eapply Forall_forall in Hl.
    + apply Forall_app. split; [|constructor; [lia|done]].
      eapply Forall_impl; [exact Hl|]. simpl. lia.
Qed.

(** Every frame on the wire is a warm-up probe or a request with its id. *)
Definition tagged (f : nat * bytes) (tag : option Z) : Prop :=
  match tag with
  | None => warm_frame dumps f
  | Some rid => ∃ method params, own_frame dumps rid method params f
  end.
Definition ids_fresh (w : world E) : Prop :=
  ∃ tags, Forall2 tagged (wire w) tags ∧
    ascends (omap id tags) (next_id (tr w)).

Lemma tagged_warm ws : Forall (warm_frame dumps) ws →
  Forall2 tagged ws (replicate (length ws) None) ∧ omap id (replicate (length ws) (@None Z)) = [].
Proof. induction 1; simpl; [done|]. naive_solver. Qed.
Lemma tagged_own own rid method params : (length own ≤ 1)%nat →
  Forall (own_frame dumps rid method params) own →
  Forall2 tagged own (replicate (length own) (Some rid)) ∧
  omap id (replicate (length own) (Some rid)) = replicate (length own) rid.
Proof.
  intros Hl Ho. destruct own as [|f [|]]; simpl in *; [done| |lia].
  rewrite Forall_singleton in Ho. split; [|done]. constructor; [|done]. by do 2 eexists.
Qed.
Lemma ids_fresh_request fuel method params t (w : world E) :
  ids_fresh w → ids_fresh (request loads dumps channel fuel method params t w).2.
Proof.
  intros (tags & Htags & Hasc).
  assert (wire (request loads dumps channel fuel method params t w).2
            = wire (transact loads dumps channel fuel method params t w).2 ∧
          tr (request loads dumps channel fuel method params t w).2
            = tr (transact loads dumps channel fuel method params t w).2) as [Hreq1 Hreq2].
  { unfold request, mbind, M_bind, lift.
    by destruct (transact loads dumps channel fuel method params t w) as [[]]. }
  unfold ids_fresh. rewrite Hreq1, Hreq2.
  destruct (transact_spec loads dumps channel fuel method params t w)
    as (own1 & ws & own2 & -> & Hws & Hl1 & Hl2 & Ho1 & Ho2 & _ & Hi1 & Hi2 & _).
  destruct (tagged_warm ws Hws) as [Hw1 Hw2].
  destruct (tagged_own own1 _ _ _ Hl1 Ho1) as [Ha1 Ha2].
  destruct (tagged_own own2 _ _ _ Hl2 Ho2) as [Hb1 Hb2].
  eexists. split; [by repeat apply Forall2_app|].
  rewrite !omap_app, Ha2, Hb2, Hw2, (assoc_L (++)).
  assert (ascends (omap id tags ++ replicate (length own1) (next_id (tr w)))
            (next_id (tr w) + 1)) as Hasc1 by (apply ascends_replicate; [done..|lia]).
  destruct Hi2 as [->|Hi2]; [|by apply ascends_replicate].
  rewrite app_nil_r. by apply ascends_replicate.
Qed.
Lemma ids_fresh_same (w w' : world E) :
  same_wire w w' → next_id (tr w) ≤ next_id (tr w') → ids_fresh w → ids_fresh w'.
Proof.
  intros Hw Hid (tags & Ht & Hasc). exists tags. rewrite Hw. split; [done|].
  by eapply ascends_mono.
Qed.

(** C12: in every reachable state the two ends of the connection are set
    together, the time of last use is known exactly while connected, and no
    request id was ever used twice: the ids on the wire strictly increase. *)
Theorem reachable_consistent (w : world E) :
  reachable w → transport_ok (tr w) ∧ ids_fresh w.
Proof.
  induction 1 as [e|w fuel method params t _ [IH1 IH2]|w _ [IH1 IH2]|w h _ [IH1 IH2]
                 |w h _ [IH1 IH2]|w e _ [IH1 IH2]].
  - split; [split_and!; simpl; [done| |lia]|by exists []; repeat constructor].
    split; intros [? [=]].
  - split; [by apply (keeps_request loads dumps)|by apply ids_fresh_request].
  - destruct (keeps_close w) as [Hk [Hid _]]. split; [by apply Hk|].
    eapply ids_fresh_same; [apply (same_wire_close w)|exact Hid|done].
  - by split.
  - by split.
  - by split.
Qed.
End safety.

(* ------------------------------------------------------------------ *)
(** ** Over a connection that delivers bytes in order *)

Section stream.
Context {E : Type} `{StreamNet E}.
Context (loads : bytes → option json) (dumps : json → bytes) (channel : McpdChannel).

(** A frame on the stream, and the bodies a frame can carry. *)
Definition frame (b : bytes) : bytes := pack_u32 (Z.of_nat (length b)) ++ b.
Definition frame_ok (b : bytes) : Prop := 1 ≤ Z.of_nat (length b) ≤ MAX_FRAME_BYTES.

(** Frames written one after the other are read back one at a time. *)
Lemma read_frame_stream c t b rest (w : world E) :
  reader (tr w) = Some c → frame_ok b → pending c (env w) = frame b ++ rest →
  ∃ e', read_frame t w = (Ret b, World (tr w) (wire w) e') ∧ pending c e' = rest.
Proof.
  intros Hc [Hb1 Hb2] Hp. unfold frame in Hp. rewrite <- (assoc_L (++)) in Hp.
  assert (be_val (pack_u32 (Z.of_nat (length b))) = Z.of_nat (length b)) as Hval.
  { apply be_val_bytes. unfold MAX_FRAME_BYTES in Hb2. change (256 ^ Z.of_nat 4) with 4294967296. lia. }
  destruct (readexactly_take c 4 t (env w)) as (e1 & He1 & Hp1).
  { rewrite Hp, length_app. unfold pack_u32. rewrite length_be_bytes. lia. }
  rewrite Hp, take_app_length' in He1 by (unfold pack_u32; by rewrite length_be_bytes).
  specialize (Hp1 c). rewrite decide_True in Hp1 by done.
  rewrite Hp, drop_app_length' in Hp1 by (unfold pack_u32; by rewrite length_be_bytes).
  destruct (readexactly_take c (Z.of_nat (length b)) t e1) as (e2 & He2 & Hp2).
  { rewrite Hp1, length_app. lia. }
  rewrite Hp1, Nat2Z.id, take_app_length in He2.
  specialize (Hp2 c). rewrite decide_True, Hp1, Nat2Z.id, drop_app_length in Hp2 by done.
  exists e2. split; [|done].
  unfold read_frame, mbind, M_bind, gets, on_io. rewrite Hc, He1. simpl. rewrite Hval.
  assert ((Z.of_nat (length b) =? 0) || (MAX_FRAME_BYTES <? Z.of_nat (length b)) = false) as ->
    by lia.
  simpl. by rewrite He2.
Qed.

(** What the daemon may send before the reply with id [rid], and what the
    transport does with it: notifications are queued, late warm-up replies
    are dropped. *)
Inductive chatter (rid : Z) : list bytes → list json → Prop :=
| chatter_nil : chatter rid [] []
| chatter_notification b l bs q :
    frame_ok b → loads b = Some (JObj l) → assoc "id" l = None →
    chatter rid bs q → chatter rid (b :: bs) (JObj l :: q)
| chatter_warmup b l i bs q :
    frame_ok b → loads b = Some (JObj l) → assoc "id" l = Some i →
    is_warmup_id i = true → eq_int i rid = false →
    chatter rid bs q → chatter rid (b :: bs) q.

Lemma run_handlers_safe hs obj (w : world E) :
  ∃ e', run_handlers hs obj w = (Ret tt, World (tr w) (wire w) e') ∧
        ∀ c, pending c e' = pending c (env w).
Proof.
  revert w. induction hs as [|h hs IH]; intros w; [by exists (env w); destruct w|]. simpl.
  destruct (run_handler_safe h obj (env w)) as (r & e1 & Hr & Hp & Hs & Hca).
  destruct (IH (World (tr w) (wire w) e1)) as (e2 & He2 & Hp2). simpl in *.
  exists e2. split; [|intros c; by rewrite Hp2, Hp].
  unfold mbind, M_bind, catch, on_env. rewrite Hr. destruct r as [[]|x|]; [done| |done].
  destruct (is_exception x) eqn:Hx; [done|]. by destruct x.
Qed.

Lemma read_until_stream rid t bs q b l rest fuel (w : world E) c :
  chatter rid bs q → (length bs < fuel)%nat →
  frame_ok b → loads b = Some (JObj l) → assoc "id" l = Some (JNum rid) →
  reader (tr w) = Some c → pending c (env w) = (bs ≫= frame) ++ frame b ++ rest →
  ∃ w', read_until loads fuel rid t w = (Ret (JObj l), w') ∧ wire w' = wire w ∧
    pending c (env w') = rest ∧ reader (tr w') = Some c ∧ writer (tr w') = writer (tr w) ∧
    next_id (tr w') = next_id (tr w) ∧ notification_q (tr w') = notification_q (tr w) ++ q.
Proof.
  intros Hch Hfuel Hb Hl Hid. revert fuel Hfuel w.
  induction Hch as [|b0 l0 bs q Hb0 Hl0 Hid0 Hch IH|b0 l0 i bs q Hb0 Hl0 Hid0 Hwu Hne Hch IH];
    intros [|fuel] Hfuel w Hc Hp; simpl in Hfuel; try lia; csimpl in Hp.
  - destruct (read_frame_stream c t b rest w) as (e' & He' & Hp'); [done..|].
    exists (World (tr w) (wire w) e'). simpl. unfold mbind, M_bind. rewrite He', Hl.
    unfold lift, has_id, get_id. rewrite Hid. simpl. rewrite Z.eqb_refl, app_nil_r. by split_and!.
  - rewrite <- (assoc_L (++)) in Hp.
    destruct (read_frame_stream c t b0 ((bs ≫= frame) ++ frame b ++ rest) w) as (e' & He' & Hp');
      [done..|].
    destruct (run_handlers_safe (handlers (tr w)) (JObj l0)
      (World (enqueue (JObj l0) (tr w)) (wire w) e')) as (e2 & He2 & Hp2).
    destruct (IH fuel ltac:(lia) (World (enqueue (JObj l0) (tr w)) (wire w) e2))
      as (w' & Hr & Hwi & Hpe & Hrd & Hwr & Hni & Hq); [done|simpl; by rewrite Hp2|].
    exists w'. simpl in *. rewrite Hq, <- (assoc_L (++)). split_and!; try done.
    unfold mbind, M_bind. rewrite He', Hl0. unfold lift, has_id. rewrite Hid0.
    unfold dispatch_notification, mbind, M_bind, upd, modify, gets. simpl. by rewrite He2.
  - rewrite <- (assoc_L (++)) in Hp.
    destruct (read_frame_stream c t b0 ((bs ≫= frame) ++ frame b ++ rest) w) as (e' & He' & Hp');
      [done..|].
    destruct (IH fuel ltac:(lia) (World (tr w) (wire w) e'))
      as (w' & Hr & Hwi & Hpe & Hrd & Hwr & Hni & Hq); [done..|].
    exists w'. simpl in *. split_and!; try done.
    unfold mbind, M_bind. rewrite He', Hl0. unfold lift, has_id, get_id. rewrite Hid0. simpl.
    by rewrite Hne, Hwu.
Qed.

(** A usable connection: open, not at EOF, used within [STALE_AFTER_S]. *)
Definition usable (c : nat) (w : world E) : Prop :=
  reader (tr w) = Some c ∧ writer (tr w) = Some c ∧ at_eof c (env w) = false ∧
  ∃ t0, last_io_at (tr w) = Some t0 ∧ monotonic (env w) - t0 ≤ STALE_AFTER.

Lemma prepare_usable c method (w : world E) : usable c w →
  ∃ lw, prepare dumps channel 0 method w
          = (Ret tt, World (set_last_write lw (tr w)) (wire w) (env w)).
Proof.
  intros (Hr & Hw & Heof & t0 & Hlast & Hfresh).
  unfold prepare, is_stale, ensure_connected, now, upd, modify, mbind, M_bind, gets.
  rewrite Hr, Heof, Hlast. simpl.
  assert ((STALE_AFTER <? monotonic (env w) - t0) = false) as -> by lia.
  unfold mret, M_ret. rewrite Hr, Hw. destruct (decide (method ∈ MUTATING_METHODS)); simpl.
  - by eexists.
  - exists (last_write_at (tr w)). by destruct w as [[] ? ?].
Qed.

Lemma send_frame_run c p (w : world E) e1 :
  writer (tr w) = Some c → Z.of_nat (length p) ≤ MAX_FRAME_BYTES →
  write_drain c (frame p) (env w) = (Ret tt, e1) →
  send_frame p w = (Ret tt, World (tr w) (wire w ++ [(c, p)]) e1).
Proof.
  intros Hw Hlen Hwrite. unfold send_frame. erewrite bind_run by done. rewrite Hw.
  assert ((MAX_FRAME_BYTES <? Z.of_nat (length p)) = false) as -> by lia.
  rewrite (bind_run _ _ _ tt (World (tr w) (wire w) e1)); [done|].
  unfold on_io. unfold frame in Hwrite. by rewrite Hwrite.
Qed.

Lemma request_stream fuel method params t rid bs q b l rest c (w : world E) e1 :
  rid = next_id (tr w) → usable c w →
  Z.of_nat (length (dumps (envelope rid method params))) ≤ MAX_FRAME_BYTES →
  write_drain c (frame (dumps (envelope rid method params))) (env w) = (Ret tt, e1) →
  pending c e1 = (bs ≫= frame) ++ frame b ++ rest →
  chatter rid bs q → (length bs < fuel)%nat →
  frame_ok b → loads b = Some (JObj l) → assoc "id" l = Some (JNum rid) →
  ∃ w', request loads dumps channel fuel method params t w = (response (JObj l), w') ∧
    wire w' = wire w ++ [(c, dumps (envelope rid method params))] ∧
    next_id (tr w') = rid + 1 ∧ reader (tr w') = Some c ∧
    notification_q (tr w') = notification_q (tr w) ++ q ∧ pending c (env w') = rest.
Proof.
  intros -> Hu Hlen Hwrite Hpend Hch Hfuel Hb Hl Hid.
  destruct (prepare_usable c method w Hu) as [lw Hprep].
  destruct Hu as (Hr & Hw & _).
  set (rid := next_id (tr w)) in *. set (p := dumps (envelope rid method params)) in *.
  destruct (read_until_stream rid t bs q b l rest fuel
    (World (bump_id (set_last_write lw (tr w))) (wire w ++ [(c, p)]) e1) c)
    as (w1 & Hru & Hwi & Hpe & Hrd & _ & Hni & Hq); [done..|].
  exists (World (set_last_io (Some (monotonic (env w1))) (tr w1)) (wire w1) (env w1)).
  simpl. split_and!; try done.
  match goal with |- request _ _ _ _ _ _ _ _ = (_, ?w') =>
    assert (attempt loads dumps channel fuel 0 method params t w = (Ret (Some (JObj l)), w'))
      as Hatt
  end.
  - unfold attempt. erewrite bind_run by exact Hprep.
    erewrite bind_run by done. erewrite bind_run by done. simpl. fold rid. fold p.
    erewrite bind_run; [|apply catch_run; erewrite bind_run by (by apply send_frame_run); done].
    apply catch_run. by erewrite bind_run by exact Hru.
  - unfold request, transact. erewrite bind_run; [done|]. by erewrite bind_run by exact Hatt.
Qed.

(** C16: over a usable connection whose stream carries, after the request is
    written, any number of notifications and late warm-up replies followed
    by a reply with the request's id, [request] terminates with exactly
    what that reply means (its [result] or its error), sends one frame,
    queues the notifications in order, and leaves the stream at the byte
    after the reply. *)
Theorem request_answers_stream fuel method params t rid bs q b l rest c (w : world E) e1 :
  rid = next_id (tr w) → usable c w →
  Z.of_nat (length (dumps (envelope rid method params))) ≤ MAX_FRAME_BYTES →
  write_drain c (frame (dumps (envelope rid method params))) (env w) = (Ret tt, e1) →
  pending c e1 = (bs ≫= frame) ++ frame b ++ rest →
  chatter rid bs q → (length bs < fuel)%nat →
  frame_ok b → loads b = Some (JObj l) → assoc "id" l = Some (JNum rid) →
  ∃ w', request loads dumps channel fuel method params t w = (response (JObj l), w') ∧
    wire w' = wire w ++ [(c, dumps (envelope rid method params))] ∧
    next_id (tr w') = rid + 1 ∧ reader (tr w') = Some c ∧
    notification_q (tr w') = notification_q (tr w) ++ q ∧ pending c (env w') = rest.
Proof. intros; by eapply request_stream. Qed.
End stream.

(* ------------------------------------------------------------------ *)
(** ** Examples *)

(** A codec for the examples: the byte [n] is the notification, any other
    byte the reply with that id. *)
Definition ex_loads (b : bytes) : option json :=
  match b with
  | [c] => Some (if decide (c = "n"%char) then JObj [("method", JStr "event")]
                 else JObj [("id", JNum (ord c)); ("result", JNum 42)])
  | _ => None
  end.
Definition ex_dumps (j : json) : bytes :=
  match jget "id" j with Some (JNum z) => [chr (z mod 256)] | _ => [] end.
Definition ex_channel : McpdChannel :=
  {| mcpd_enabled := true; mcpd_endpoint := "127.0.0.1:4321"; discovery_port := None |}.
Definition ex_world (rs : list (option bytes)) (s : bool) : world script :=
  World transport_init [] (Script [] 0 rs s).
Definition ex_request (method : string) (w : world script) :=
  request ex_loads ex_dumps ex_channel 10 method None 30000 w.

(** The runs: a lost [exec.cmd] is not sent again, a lost [fs.stat] is. *)
Definition ex_answer (id : Z) : bytes := frame (txt "n") ++ frame [chr id].
Example ex_ok : (ex_request "exec.cmd" (ex_world [Some (ex_answer 1)] true)).1 = Ret (JNum 42).
Proof. vm_compute. reflexivity. Qed.
Example ex_lost : (ex_request "exec.cmd" (ex_world [Some []] false)).1
  = Raise (ERpc TargetError (Some (failure_data "exec.cmd" true))).
Proof. vm_compute. reflexivity. Qed.
Example ex_resent : (ex_request "fs.stat"
    (ex_world [Some []; Some []; Some []; Some (ex_answer 2)] false)).1 = Ret (JNum 42).
Proof. vm_compute. reflexivity. Qed.

(* ------------------------------------------------------------------ *)
(** ** The theorems at concrete runs *)

Lemma request_at_most_once_witness :
  idempotent "exec.cmd" = false ∧
  wp (request ex_loads ex_dumps ex_channel 10 "exec.cmd" None 30000) (λ _ w',
    ∃ ws own, wire w' = [] ++ ws ++ own ∧ Forall (warm_frame ex_dumps) ws ∧
      (length own ≤ 1)%nat ∧
      Forall (λ f, ∃ rid, 1 ≤ rid < next_id (tr w') ∧
                          own_frame ex_dumps rid "exec.cmd" None f) own)
    (ex_world [None; Some []; None; Some (ex_answer 2)] false).
Proof.
  split; [reflexivity|].
  apply (request_at_most_once ex_loads ex_dumps ex_channel 10 "exec.cmd" None 30000
           (ex_world [None; Some []; None; Some (ex_answer 2)] false)). reflexivity.
Defined.

Lemma may_have_run_honest_witness :
  let w := ex_world [Some []] false in
  let r := transact ex_loads ex_dumps ex_channel 10 "exec.cmd" None 30000 w in
  reported r.1 true ∧
  ∃ ws own, wire r.2 = wire w ++ ws ++ own ∧ Forall (warm_frame ex_dumps) ws ∧
    (true = true ↔ own ≠ []) ∧ Forall (λ f, ∃ rid, own_frame ex_dumps rid "exec.cmd" None f) own.
Proof.
  assert (reported (transact ex_loads ex_dumps ex_channel 10 "exec.cmd" None 30000
                      (ex_world [Some []] false)).1 true) as Hr.
  { exists (failure_data "exec.cmd" true). split; vm_compute; reflexivity. }
  split; [exact Hr|].
  apply (may_have_run_honest ex_loads ex_dumps ex_channel 10 "exec.cmd" None 30000
           (ex_world [Some []] false) true); [reflexivity|exact Hr].
Defined.

Lemma request_result_answers_witness :
  let r := ex_request "exec.cmd" (ex_world [Some (ex_answer 1)] true) in
  ∃ rid c resp, last (wire r.2) = Some (c, ex_dumps (envelope rid "exec.cmd" None)) ∧
    1 ≤ rid ∧ answers rid resp ∧ response resp = Ret (JNum 42).
Proof.
  apply (request_result_answers ex_loads ex_dumps ex_channel 10 "exec.cmd" None 30000
           (ex_world [Some (ex_answer 1)] true) (JNum 42)). vm_compute. reflexivity.
Defined.

Lemma report_disconnects_witness :
  let w := ex_world [Some (pack_u32 1)] true in
  let r := transact ex_loads ex_dumps ex_channel 10 "sys.version" None 30000 w in
  reported r.1 true ∧ disconnected (tr r.2).
Proof.
  assert (reported (transact ex_loads ex_dumps ex_channel 10 "sys.version" None 30000
                      (ex_world [Some (pack_u32 1)] true)).1 true) as Hr.
  { exists (failure_data "sys.version" true). split; vm_compute; reflexivity. }
  split; [exact Hr|].
  apply (report_disconnects ex_loads ex_dumps ex_channel 10 "sys.version" None 30000
           (ex_world [Some (pack_u32 1)] true) true). exact Hr.
Defined.

Lemma reachable_consistent_witness :
  let w := (ex_request "fs.stat" (ex_world [Some []; Some []; Some []; Some (ex_answer 2)] false)).2 in
  length (wire w) = 4%nat ∧ transport_ok (tr w) ∧ ids_fresh ex_dumps w.
Proof.
  split; [vm_compute; reflexivity|].
  apply (reachable_consistent ex_loads ex_dumps ex_channel).
  apply reach_request, reach_init.
Defined.

Lemma request_answers_stream_witness :
  let w := World (Transport (Some 0%nat) (Some 0%nat) 1 [] [] None (Some 0)) []
             (Script [] 5 [Some (ex_answer 1)] false) in
  ∃ w', request ex_loads ex_dumps ex_channel 10 "exec.cmd" None 30000 w = (Ret (JNum 42), w') ∧
    wire w' = [(0%nat, [chr 1])] ∧ next_id (tr w') = 2 ∧ reader (tr w') = Some 0%nat ∧
    notification_q (tr w') = [JObj [("method", JStr "event")]] ∧ pending 0%nat (env w') = [].
Proof.
  apply (request_answers_stream ex_loads ex_dumps ex_channel 10 "exec.cmd" None 30000 1
    [txt "n"] [JObj [("method", JStr "event")]] [chr 1]
    [("id", JNum 1); ("result", JNum 42)] [] 0%nat
    (World (Transport (Some 0%nat) (Some 0%nat) 1 [] [] None (Some 0)) []
       (Script [] 5 [Some (ex_answer 1)] false))
    (Script (ex_answer 1) 5 [] false)); try reflexivity; try (vm_compute; intuition congruence).
  - split_and!; [reflexivity..|]. exists 0. split; [reflexivity|vm_compute; congruence].
  - eapply chatter_notification; [vm_compute; intuition congruence|reflexivity|reflexivity|].
    apply chatter_nil.
  - simpl; lia.
Defined.
