(* ===== verification/Worker.v ===== *)
(** * The daemon's side of a connection: [mcpd/src/frame.c] and [main.c]

    Frames read from and written to a socket that moves as many bytes at a time as
    it likes, the loop of a connection worker, and the slots that bound the number
    of workers; with what the two ends of a connection make of each other. *)
From S2P Require Import Prelude Py Bytes Net Mcpd McpdProps.

Definition MCPD_FRAME_MAX_PAYLOAD : Z := 32 * 1024 * 1024.
Definition MCPD_MAX_CLIENTS : Z := 16.

(** A connected socket and the allocator.  [recv] gives at most as many bytes as
    it is asked for, [None] and no bytes standing for errors and the end of the
    stream; [send] gives how many bytes it took, at most 0 for an error;
    [WaitSelect] tells whether there is something to receive, negative for an
    error.  [notify] is [crashhook_drain] and [events_emit_pending]: they may write
    frames of their own and fail without consequence. *)
Class Socket (E : Type) := {
  recv : Z → E → option bytes * E;
  send : bytes → E → Z * E;
  WaitSelect : E → Z * E;
  alloc_vec : Z → E → bool * E;
  free_vec : E → E;
  notify : E → E }.

Section worker.
Context {E : Type} `{Socket E}.
(** [raise tt] is the [-1] of the C functions. *)
Abbreviation MC := (M E unit).

(** [read_n]: every turn receives at least a byte. *)
Fixpoint read_n_from (fuel : nat) (n : Z) : MC bytes :=
  match fuel with
  | O => spin
  | Datatypes.S fuel =>
      if n <=? 0 then mret [] else
      got ← (λ e, let '(r, e) := recv n e in (Ret r, e));
      match got with
      | None | Some [] => raise tt
      | Some p => rest ← read_n_from fuel (n - Z.of_nat (length p)); mret (p ++ rest)
      end
  end.
Definition read_n (n : Z) : MC bytes := read_n_from (Datatypes.S (Z.to_nat n)) n.
(** [write_n] *)
Fixpoint write_n_from (fuel : nat) (b : bytes) : MC unit :=
  match fuel with
  | O => spin
  | Datatypes.S fuel =>
      match b with
      | [] => mret tt
      | _ => n ← (λ e, let '(r, e) := send b e in (Ret r, e));
             if n <=? 0 then raise tt else write_n_from fuel (drop (Z.to_nat n) b)
      end
  end.
Definition write_n (b : bytes) : MC unit := write_n_from (Datatypes.S (length b)) b.

(** [frame_read]: the bytes of the buffer, which is the caller's to free. *)
Definition frame_read : MC bytes :=
  hdr ← read_n 4;
  let len := be_val hdr in
  if (len =? 0) || (MCPD_FRAME_MAX_PAYLOAD <? len) then raise tt else
  first ← read_n 1;
  ok ← (λ e, let '(r, e) := alloc_vec (len + 1) e in (Ret r, e));
  if negb ok then raise tt else
  if 1 <? len then
    rest ← catch (read_n (len - 1)) (λ _, modify free_vec;; raise tt);
    mret (first ++ rest)
  else mret first.
(** [frame_write] *)
Definition frame_write (b : bytes) : MC unit :=
  if MCPD_FRAME_MAX_PAYLOAD <? Z.of_nat (length b) then raise tt
  else write_n (pack_u32 (Z.of_nat (length b)));; write_n b.

(** [rpc_dispatch] on the text of a request: the text of the reply, or nothing when
    there is none to send. *)
Context (dispatch : bytes → MC bytes).
(** One turn of [handle_connection]; [raise tt] is its [return]. *)
Definition turn : MC unit :=
  sel ← (λ e, let '(r, e) := WaitSelect e in (Ret r, e));
  if sel <? 0 then raise tt
  else if sel =? 0 then modify notify
  else
    req ← frame_read;
    resp ← catch (dispatch req) (λ _, modify free_vec;; raise tt);
    modify free_vec;;
    modify notify;;
    frame_write resp.
Fixpoint handle_connection (fuel : nat) : MC unit :=
  match fuel with
  | O => spin
  | Datatypes.S fuel => catch (turn;; mret true) (λ _, mret false) ≫= λ go : bool, if go then handle_connection fuel else mret tt
  end.
End worker.

(* ------------------------------------------------------------------ *)
(** ** Slots for workers *)

(** What can happen to the daemon's workers: a connection is accepted, and refused
    or given to a worker; the worker takes its socket over, or cannot and ends; it
    ends when its client is done; its handler crashes, which ends the process. *)
Inductive worker_event := Accepted (spawns : bool) | CouldNotStart | ClientDone | Crashed.
(** [g_live_clients] and the worker processes there are. *)
Record pool := Pool { live : Z; processes : nat }.
(** [client_slot_claim], [client_slot_release] *)
Definition slot_claim (n : Z) : option Z := if n <? MCPD_MAX_CLIENTS then Some (n + 1) else None.
Definition slot_release (n : Z) : Z := if 0 <? n then n - 1 else n.
(** [main]'s loop and [client_task_entry]; the second is whether a connection was
    given to a worker. *)
Definition on_worker_event (p : pool) (ev : worker_event) : pool :=
  match ev with
  | Accepted spawns =>
      match slot_claim (live p) with
      | None => p
      | Some n => if spawns then Pool n (Datatypes.S (processes p)) else Pool (slot_release n) (processes p)
      end
  | CouldNotStart => Pool (live p) (pred (processes p))
  | ClientDone => Pool (slot_release (live p)) (pred (processes p))
  | Crashed => Pool (live p) (pred (processes p))
  end.

(* ------------------------------------------------------------------ *)
(** ** A socket that delivers bytes in order *)

(** What arrived and was not received, what was sent, the blocks allocated, and
    the notifications [notify] will write. *)
Class SocketLaws (E : Type) `{Socket E} := {
  incoming : E → bytes;
  outgoing : E → bytes;
  blocks : E → nat;
  notes : E → list bytes;
  recv_law n e : 0 < n →
    let '(r, e') := recv n e in
    outgoing e' = outgoing e ∧ blocks e' = blocks e ∧
    match incoming e with
    | [] => (r = None ∨ r = Some []) ∧ incoming e' = []
    | _ => ∃ p, r = Some p ∧ p ≠ [] ∧ Z.of_nat (length p) ≤ n ∧ incoming e = p ++ incoming e'
    end;
  send_law b e : b ≠ [] →
    let '(n, e') := send b e in
    0 < n ≤ Z.of_nat (length b) ∧ incoming e' = incoming e ∧ blocks e' = blocks e ∧
    outgoing e' = outgoing e ++ take (Z.to_nat n) b;
  select_law e : let '(r, e') := WaitSelect e in
    0 < r ∧ incoming e' = incoming e ∧ blocks e' = blocks e ∧ outgoing e' = outgoing e;
  alloc_law n e : let '(r, e') := alloc_vec n e in
    r = true ∧ incoming e' = incoming e ∧ outgoing e' = outgoing e ∧ blocks e' = Datatypes.S (blocks e);
  free_law e : incoming (free_vec e) = incoming e ∧ outgoing (free_vec e) = outgoing e ∧ blocks (free_vec e) = pred (blocks e);
  notify_law e : incoming (notify e) = incoming e ∧ blocks (notify e) = blocks e ∧
    Forall frame_ok (notes e) ∧ outgoing (notify e) = outgoing e ++ (notes e ≫= frame) }.

Section laws.
Context {E : Type} `{SocketLaws E}.

Lemma read_n_from_enough fuel n p rest e : (Z.to_nat n < fuel)%nat → 0 ≤ n → incoming e = p ++ rest → Z.of_nat (length p) = n →
  ∃ e', read_n_from fuel n e = (Ret p, e') ∧ incoming e' = rest ∧ outgoing e' = outgoing e ∧ blocks e' = blocks e.
Proof.
  revert n p e; induction fuel as [|fuel IH]; intros n p e F N I L; [lia|]; cbn [read_n_from].
  destruct (Z.leb_spec n 0) as [Z0|P].
  { destruct p; [|simpl in L; lia]; exists e; by split_and!. }
  pose proof (recv_law n e P) as R; unfold mbind at 1, M_bind; destruct (recv n e) as [r e1].
  destruct p as [|x p']; [simpl in L; lia|]; set (p := x :: p') in *; rewrite I in R; destruct R as (O & B & R).
  change (p ++ rest) with (x :: (p' ++ rest)) in R; destruct R as (g & -> & G & Lg & Eg).
  assert (take (length g) p = g ∧ incoming e1 = drop (length g) p ++ rest) as [Tg Ig].
  { change (x :: p' ++ rest) with (p ++ rest) in Eg; split.
    - apply (f_equal (take (length g))) in Eg; by rewrite take_app_le, take_app_length in Eg by lia.
    - apply (f_equal (drop (length g))) in Eg; by rewrite drop_app_le, drop_app_length in Eg by lia. }
  destruct (IH (n - Z.of_nat (length g)) (drop (length g) p) e1) as (e2 & E2 & I2 & O2 & B2); try done.
  - assert (0 < length g)%nat by (destruct g; [done|simpl; lia]); lia.
  - lia.
  - rewrite length_drop; lia.
  - assert (g ++ drop (length g) p = p) as Gp by (rewrite <- Tg at 1; apply take_drop).
    exists e2; destruct g as [|y g']; [done|]; unfold mbind at 1, M_bind; rewrite E2, Gp; split_and!; try done; congruence.
Qed.
Lemma read_n_enough n p rest e : 0 ≤ n → incoming e = p ++ rest → Z.of_nat (length p) = n →
  ∃ e', read_n n e = (Ret p, e') ∧ incoming e' = rest ∧ outgoing e' = outgoing e ∧ blocks e' = blocks e.
Proof. intros; apply read_n_from_enough; try done; lia. Qed.
(** With too little it fails, having taken what there was. *)
Lemma read_n_from_short fuel n e : (Z.to_nat n < fuel)%nat → Z.of_nat (length (incoming e)) < n →
  ∃ e', read_n_from fuel n e = (Raise tt, e') ∧ incoming e' = [] ∧ outgoing e' = outgoing e ∧ blocks e' = blocks e.
Proof.
  revert n e; induction fuel as [|fuel IH]; intros n e F L; [lia|]; cbn [read_n_from].
  destruct (Z.leb_spec n 0) as [Z0|P]; [lia|].
  pose proof (recv_law n e P) as R; unfold mbind at 1, M_bind; destruct (recv n e) as [r e1]; destruct R as (O & B & R).
  destruct (incoming e) as [|x i] eqn:I; [destruct R as [[->| ->] I1]; exists e1; by split_and!|].
  destruct R as (g & -> & G & Lg & Eg); assert (0 < length g)%nat by (destruct g; [done|simpl; lia]).
  apply (f_equal length) in Eg; rewrite length_app in Eg.
  destruct (IH (n - Z.of_nat (length g)) e1) as (e2 & E2 & I2 & O2 & B2); [lia..|].
  exists e2; destruct g as [|y g']; [done|]; unfold mbind at 1, M_bind; rewrite E2; split_and!; try done; congruence.
Qed.
Lemma write_n_from_all fuel b e : (length b < fuel)%nat →
  ∃ e', write_n_from fuel b e = (Ret tt, e') ∧ incoming e' = incoming e ∧ outgoing e' = outgoing e ++ b ∧ blocks e' = blocks e.
Proof.
  revert b e; induction fuel as [|fuel IH]; intros b e F; [lia|]; cbn [write_n_from].
  destruct b as [|x b']; [exists e; rewrite app_nil_r; by split_and!|]; set (b := x :: b') in *.
  pose proof (send_law b e ltac:(done)) as S; unfold mbind at 1, M_bind; destruct (send b e) as [n e1].
  destruct S as (N & I & B & O); destruct (Z.leb_spec n 0); [lia|].
  destruct (IH (drop (Z.to_nat n) b) e1) as (e2 & E2 & I2 & O2 & B2); [rewrite length_drop; lia|].
  exists e2; rewrite E2, I2, O2, O, B2, <- app_assoc, take_drop; by split_and!.
Qed.
Lemma write_n_all b e :
  ∃ e', write_n b e = (Ret tt, e') ∧ incoming e' = incoming e ∧ outgoing e' = outgoing e ++ b ∧ blocks e' = blocks e.
Proof. apply write_n_from_all; lia. Qed.

Lemma frame_val b : frame_ok b → be_val (pack_u32 (Z.of_nat (length b))) = Z.of_nat (length b).
Proof.
  intros [L U]; apply be_val_bytes; unfold MAX_FRAME_BYTES in U; change (256 ^ Z.of_nat 4) with 4294967296; lia.
Qed.
Lemma frame_read_back b rest e : frame_ok b → incoming e = frame b ++ rest →
  ∃ e', frame_read e = (Ret b, e') ∧ incoming e' = rest ∧ outgoing e' = outgoing e ∧ blocks e' = Datatypes.S (blocks e).
Proof.
  intros Ok I; pose proof (frame_val b Ok) as V; destruct Ok as [L U]; unfold frame in I; rewrite <- app_assoc in I.
  destruct (read_n_enough 4 _ _ e ltac:(lia) I) as (e1 & E1 & I1 & O1 & B1); [unfold pack_u32; by rewrite length_be_bytes|].
  unfold frame_read, mbind at 1, M_bind; rewrite E1, V.
  destruct (Z.eqb_spec (Z.of_nat (length b)) 0), (Z.ltb_spec MCPD_FRAME_MAX_PAYLOAD (Z.of_nat (length b)));
    try (unfold MCPD_FRAME_MAX_PAYLOAD, MAX_FRAME_BYTES in *; lia); cbn [orb].
  destruct b as [|x b']; [simpl in L; lia|]; change ((x :: b') ++ rest) with ([x] ++ (b' ++ rest)) in I1.
  destruct (read_n_enough 1 [x] _ e1 ltac:(lia) I1 ltac:(done)) as (e2 & E2 & I2 & O2 & B2).
  unfold mbind at 1, M_bind; rewrite E2; set (len := Z.of_nat (length (x :: b'))) in *.
  pose proof (alloc_law (len + 1) e2) as A; unfold mbind at 1, M_bind; destruct (alloc_vec (len + 1) e2) as [r e3].
  destruct A as (-> & I3 & O3 & B3); cbn [negb]; destruct (Z.ltb_spec 1 len) as [G|S].
  - destruct (read_n_enough (len - 1) b' rest e3) as (e4 & E4 & I4 & O4 & B4); [lia|congruence|unfold len; simpl; lia|].
    unfold mbind at 1, M_bind, catch; rewrite E4; exists e4; split_and!; try done; congruence.
  - destruct b'; [|unfold len in S; simpl in S; lia]; exists e3; simpl in I2; split_and!; try done; congruence.
Qed.
Lemma read_n_spec n e : 0 ≤ n → let '(r, e') := read_n n e in
  outgoing e' = outgoing e ∧ blocks e' = blocks e ∧
  ((n ≤ Z.of_nat (length (incoming e)) ∧ r = Ret (take (Z.to_nat n) (incoming e)) ∧ incoming e' = drop (Z.to_nat n) (incoming e)) ∨
   (Z.of_nat (length (incoming e)) < n ∧ r = Raise tt)).
Proof.
  intros N; destruct (Z.le_gt_cases n (Z.of_nat (length (incoming e)))) as [L|S].
  - destruct (read_n_enough n (take (Z.to_nat n) (incoming e)) (drop (Z.to_nat n) (incoming e)) e N) as (e1 & -> & I & O & B).
    + by rewrite take_drop.
    + rewrite length_take; lia.
    + split_and!; [done..|by left].
  - destruct (read_n_from_short (Datatypes.S (Z.to_nat n)) n e) as (e1 & E1 & I & O & B); [lia..|].
    unfold read_n; rewrite E1; split_and!; [done..|by right].
Qed.
(** What [frame_read] gives is the frame the stream starts with; when it gives
    none, there was none, and no block of memory is left behind. *)
Lemma frame_read_spec e : let '(r, e') := frame_read e in
  outgoing e' = outgoing e ∧
  match r with
  | Ret b => frame_ok b ∧ incoming e = frame b ++ incoming e' ∧ blocks e' = Datatypes.S (blocks e)
  | Raise _ => blocks e' = blocks e ∧ ¬ ∃ b rest, frame_ok b ∧ incoming e = frame b ++ rest
  | Spin => False
  end.
Proof.
  destruct (decide (4 ≤ length (incoming e))%nat) as [L4|S4]; cycle 1.
  { pose proof (read_n_spec 4 e ltac:(lia)) as R; unfold frame_read, mbind at 1, M_bind; destruct (read_n 4 e) as [r e1].
    destruct R as (O & B & [[? _]|[_ ->]]); [lia|]; split_and!; try done; intros (b & rest & _ & I).
    apply (f_equal length) in I; unfold frame, pack_u32 in I; rewrite !length_app, length_be_bytes in I; lia. }
  set (hdr := take 4 (incoming e)); set (body := drop 4 (incoming e)); set (len := be_val hdr).
  assert (length hdr = 4%nat) as Lh by (unfold hdr; rewrite length_take; lia).
  assert (incoming e = pack_u32 len ++ body) as I.
  { unfold pack_u32, len; rewrite <- Lh, be_bytes_val; unfold hdr, body; by rewrite take_drop. }
  assert (∀ b rest, frame_ok b → incoming e = frame b ++ rest → Z.of_nat (length b) = len ∧ body = b ++ rest) as Only.
  { intros b rest Ok Eb; rewrite I in Eb; unfold frame in Eb; rewrite <- app_assoc in Eb.
    apply app_inj_1 in Eb as [Eh Eb]; [|unfold pack_u32; by rewrite !length_be_bytes].
    apply (f_equal be_val) in Eh; rewrite frame_val in Eh by done.
    unfold pack_u32 in Eh; rewrite be_val_bytes in Eh; [done|unfold len; rewrite <- Lh; apply be_val_range]. }
  destruct (decide (1 ≤ len ≤ MAX_FRAME_BYTES ∧ len ≤ Z.of_nat (length body))) as [[R Lb]|Bad].
  - assert (frame_ok (take (Z.to_nat len) body)) as Ok by (unfold frame_ok; rewrite length_take; lia).
    destruct (frame_read_back (take (Z.to_nat len) body) (drop (Z.to_nat len) body) e Ok) as (e' & -> & I' & O & B).
    + unfold frame; rewrite length_take, <- app_assoc, take_drop, I; do 2 f_equal; lia.
    + split_and!; try done; rewrite I', I; unfold frame; rewrite length_take, <- app_assoc, take_drop; do 2 f_equal; lia.
  - assert (¬ ∃ b rest, frame_ok b ∧ incoming e = frame b ++ rest) as No.
    { intros (b & rest & Ok & Eb); destruct (Only b rest Ok Eb) as [<- ->]; apply Bad; destruct Ok; split; [done|].
      rewrite length_app; lia. }
    pose proof (read_n_spec 4 e ltac:(lia)) as R; unfold frame_read, mbind at 1, M_bind; destruct (read_n 4 e) as [r e1].
    destruct R as (O & B & [(_ & -> & I1)|[? _]]); [|lia]; change (take (Z.to_nat 4) (incoming e)) with hdr; fold len.
    change (drop (Z.to_nat 4) (incoming e)) with body in I1.
    destruct (Z.eqb_spec len 0), (Z.ltb_spec MCPD_FRAME_MAX_PAYLOAD len); cbn [orb]; try (by split_and!).
    assert (0 ≤ len) by apply be_val_range; unfold MCPD_FRAME_MAX_PAYLOAD, MAX_FRAME_BYTES in *.
    pose proof (read_n_spec 1 e1 ltac:(lia)) as R1; unfold mbind at 1, M_bind; destruct (read_n 1 e1) as [r e2].
    destruct R1 as (O1 & B1 & [(Lb1 & -> & I2)|[_ ->]]); [|split_and!; try done; congruence].
    pose proof (alloc_law (len + 1) e2) as A; unfold mbind at 1, M_bind; destruct (alloc_vec (len + 1) e2) as [ok e3].
    destruct A as (-> & I3 & O3 & B3); cbn [negb]; destruct (Z.ltb_spec 1 len); [|exfalso; rewrite I1 in Lb1; apply Bad; lia].
    pose proof (read_n_spec (len - 1) e3 ltac:(lia)) as R3; unfold mbind at 1, M_bind, catch; destruct (read_n (len - 1) e3) as [r e4].
    destruct R3 as (O4 & B4 & [(L & _ & _)|[_ ->]]).
    + exfalso; apply Bad; rewrite I3, I2, I1, length_drop in L; lia.
    + destruct (free_law e4) as (I5 & O5 & B5); unfold mbind, M_bind, modify, raise; split_and!; [congruence|rewrite B5, B4, B3; simpl; congruence|done].
Qed.
Lemma frame_write_spec b e : let '(r, e') := frame_write b e in
  incoming e' = incoming e ∧ blocks e' = blocks e ∧
  if decide (Z.of_nat (length b) ≤ MCPD_FRAME_MAX_PAYLOAD) then r = Ret tt ∧ outgoing e' = outgoing e ++ frame b
  else r = Raise tt ∧ e' = e.
Proof.
  unfold frame_write; destruct (Z.ltb_spec MCPD_FRAME_MAX_PAYLOAD (Z.of_nat (length b))), (decide _); try lia; [by split_and!|].
  destruct (write_n_all (pack_u32 (Z.of_nat (length b))) e) as (e1 & E1 & I1 & O1 & B1); unfold mbind, M_bind; rewrite E1.
  destruct (write_n_all b e1) as (e2 & -> & I2 & O2 & B2); split_and!; [congruence..|done|].
  unfold frame; by rewrite O2, O1, app_assoc.
Qed.
End laws.

Section serving.
Context {E : Type} `{SocketLaws E} (dispatch : bytes → M E unit bytes).
(** A request is answered, and answering it leaves the connection alone. *)
Class Answers := answers_law req e : ∃ resp e', dispatch req e = (Ret resp, e') ∧ resp ≠ [] ∧
  incoming e' = incoming e ∧ outgoing e' = outgoing e ∧ blocks e' = blocks e.
Context `{!Answers}.
Definition answered (req resp : bytes) : Prop := ∃ e e', dispatch req e = (Ret resp, e').

Lemma turn_answers req rest e : frame_ok req → incoming e = frame req ++ rest →
  ∃ resp n, answered req resp ∧ Forall frame_ok (notes n) ∧
    let '(r, e') := turn dispatch e in
    incoming e' = rest ∧ blocks e' = blocks e ∧
    if decide (frame_ok resp) then r = Ret tt ∧ outgoing e' = outgoing e ++ (notes n ≫= frame) ++ frame resp
    else r = Raise tt ∧ outgoing e' = outgoing e ++ (notes n ≫= frame).
Proof.
  intros Ok I; unfold turn, mbind at 1, M_bind; pose proof (select_law e) as S; destruct (WaitSelect e) as [sel e1].
  destruct S as (P & I1 & B1 & O1); destruct (Z.ltb_spec sel 0), (Z.eqb_spec sel 0); try lia; rewrite <- I1 in I.
  destruct (frame_read_back req rest e1 Ok I) as (e2 & E2 & I2 & O2 & B2); unfold mbind at 1, M_bind; rewrite E2.
  destruct (answers_law req e2) as (resp & e3 & E3 & Ne & I3 & O3 & B3); unfold mbind at 1, M_bind, catch; rewrite E3.
  destruct (free_law e3) as (I4 & O4 & B4); unfold mbind at 1, M_bind, modify.
  destruct (notify_law (free_vec e3)) as (I5 & B5 & No & O5); unfold mbind at 1, M_bind.
  pose proof (frame_write_spec resp (notify (free_vec e3))) as F; destruct (frame_write resp _) as [r e6].
  destruct F as (I6 & B6 & F); exists resp, (free_vec e3); split; [by exists e2, e3|]; split; [done|].
  split_and!; [congruence|rewrite B6, B5, B4, B3, B2, B1; done|].
  assert (frame_ok resp ↔ Z.of_nat (length resp) ≤ MCPD_FRAME_MAX_PAYLOAD) as Q.
  { unfold frame_ok, MAX_FRAME_BYTES, MCPD_FRAME_MAX_PAYLOAD; destruct resp; [done|simpl; lia]. }
  destruct (decide (frame_ok resp)), (decide (Z.of_nat (length resp) ≤ _)); try tauto; destruct F as [-> F]; split; try done.
  - rewrite F, O5, O4, O3, O2, O1; by rewrite <- app_assoc.
  - rewrite F, O5, O4, O3, O2, O1; done.
Qed.
Lemma turn_ends e : incoming e = [] → ∃ e', turn dispatch e = (Raise tt, e') ∧ outgoing e' = outgoing e ∧ blocks e' = blocks e.
Proof.
  intros I; unfold turn, mbind at 1, M_bind; pose proof (select_law e) as S; destruct (WaitSelect e) as [sel e1].
  destruct S as (P & I1 & B1 & O1); destruct (Z.ltb_spec sel 0), (Z.eqb_spec sel 0); try lia.
  pose proof (frame_read_spec e1) as F; unfold mbind at 1, M_bind; destruct (frame_read e1) as [[b|[]|] e2]; [|exists e2|by destruct F].
  - destruct F as (_ & [Ok _] & F & _); rewrite I1, I in F; apply (f_equal length) in F.
    unfold frame, pack_u32 in F; rewrite !length_app, length_be_bytes in F; simpl in F; lia.
  - destruct F as (O & B & _); split_and!; [done|congruence|congruence].
Qed.

(** What a worker wrote for each request: notifications, and the reply. *)
Definition said (nr : list bytes * bytes) : bytes := (nr.1 ≫= frame) ++ frame nr.2.

(** A worker serves a connection: for requests that arrive one after the
    other as frames, cut up by the network in any way, it dispatches each of them
    exactly as it was sent, in order, and writes for each the frames of any
    notifications followed by the frame of its reply - as long as the replies fit
    into frames -, ends when the client is done, and leaves no memory allocated. *)
Theorem connection_serves (reqs : list bytes) e : Forall frame_ok reqs → (∀ req resp, answered req resp → frame_ok resp) →
  incoming e = reqs ≫= frame →
  ∃ e' replies, handle_connection dispatch (Datatypes.S (length reqs)) e = (Ret tt, e') ∧
    Forall2 (λ req nr, answered req nr.2 ∧ Forall frame_ok nr.1) reqs replies ∧
    outgoing e' = outgoing e ++ (replies ≫= said) ∧ blocks e' = blocks e.
Proof.
  intros F Fit; revert e; induction F as [|req reqs Ok F IH]; intros e I.
  - destruct (turn_ends e I) as (e' & T & O & B); exists e', []; cbn [length handle_connection].
    unfold mbind, M_bind, catch; rewrite T; rewrite app_nil_r; by split_and!.
  - cbn [mbind list_bind] in I; destruct (turn_answers req _ e Ok I) as (resp & n & A & N & T).
    destruct (turn dispatch e) as [r e1] eqn:Te; destruct T as (I1 & B1 & T); rewrite decide_True in T by by apply (Fit req).
    destruct T as [-> O1]; destruct (IH e1 I1) as (e2 & rs & E2 & F2 & O2 & B2); exists e2, ((notes n, resp) :: rs).
    cbn [length handle_connection]; unfold mbind at 1, M_bind, catch; unfold mbind at 1, M_bind; rewrite Te.
    change (handle_connection dispatch (Datatypes.S (length reqs)) e1 = (Ret tt, e2)) in E2; split_and!.
    + exact E2.
    + by constructor.
    + rewrite O2, O1; cbn [mbind list_bind]; unfold said at 2; cbn [fst snd]; by rewrite !app_assoc.
    + congruence.
Qed.
(** A reply that does not fit a frame ends the connection without it. *)
Lemma oversized_reply_dropped req rest e : frame_ok req → incoming e = frame req ++ rest →
  (∀ resp, answered req resp → MCPD_FRAME_MAX_PAYLOAD < Z.of_nat (length resp)) →
  ∃ e' ns, turn dispatch e = (Raise tt, e') ∧ Forall frame_ok ns ∧ outgoing e' = outgoing e ++ (ns ≫= frame).
Proof.
  intros Ok I Big; destruct (turn_answers req rest e Ok I) as (resp & n & A & N & T); specialize (Big resp A).
  destruct (turn dispatch e) as [r e']; destruct T as (_ & _ & T); rewrite decide_False in T; [destruct T as [-> O]; by exists e', (notes n)|].
  unfold frame_ok, MAX_FRAME_BYTES, MCPD_FRAME_MAX_PAYLOAD in *; lia.
Qed.

(* ------------------------------------------------------------------ *)
(** ** The two ends of a connection *)

Context {N : Type} `{StreamNet N} (loads : bytes → option json) (dumps : json → bytes) (channel : Config.McpdChannel).

(** C29: The two ends fit together: when the network carries the frame of a
    request to an idle worker, and what the worker writes back to the host, then
    the host's [request] ends with what the reply of the daemon's dispatcher to
    exactly that request means, its result or its error, whatever notifications
    the worker put in front of it. *)
Theorem request_through_worker fuel method params t rid (w : world N) (d : E) c n1 resp l :
  rid = next_id (tr w) → usable c w →
  let req := dumps (envelope rid method params) in
  frame_ok req → write_drain c (frame req) (env w) = (Ret tt, n1) →
  incoming d = frame req → outgoing d = [] → pending c n1 = outgoing (turn dispatch d).2 →
  (∀ r, answered req r → r = resp) → frame_ok resp → loads resp = Some (JObj l) → assoc "id" l = Some (JNum rid) →
  (∀ d' : E, ∃ q, chatter loads rid (notes d') q) → (length (outgoing (turn dispatch d).2) < fuel)%nat →
  ∃ w', request loads dumps channel fuel method params t w = (response (JObj l), w') ∧
    wire w' = wire w ++ [(c, req)] ∧ pending c (env w') = [].
Proof.
  intros Hrid U req Ok Wr I O P A Fit L Id Ch Fu; destruct (turn_answers req [] d Ok) as (resp' & n & A' & _ & T); [by rewrite app_nil_r|].
  destruct (turn dispatch d) as [r d']; destruct T as (_ & _ & T); rewrite (A _ A'), decide_True in T by done.
  destruct T as [_ T]; cbn [snd] in *; rewrite O in T; cbn [app] in T; destruct (Ch n) as [q C].
  destruct (request_stream loads dumps channel fuel method params t rid (notes n) q resp l [] c w n1 Hrid U) as (w' & R & W & _ & _ & _ & Pe);
    try done; [by apply Ok|by rewrite P, T, app_nil_r| |by exists w'].
  rewrite T, length_app in Fu; eapply Nat.le_lt_trans; [|exact Fu].
  clear; induction (notes n) as [|x l IH]; cbn [mbind list_bind length]; [lia|].
  unfold frame at 1, pack_u32; rewrite !length_app, length_be_bytes; lia.
Qed.
End serving.

(* ------------------------------------------------------------------ *)
(** ** The slots *)

(** The event can happen: what happens to a worker happens to one there is. *)
Definition possible (p : pool) (ev : worker_event) : Prop := if ev is Accepted _ then True else (0 < processes p)%nat.
Inductive pools : pool → list worker_event → pool → Prop :=
| pools_nil p : pools p [] p
| pools_cons p ev evs q : possible p ev → pools (on_worker_event p ev) evs q → pools p (ev :: evs) q.
(** Workers that ended without giving their slot back. *)
Definition lost (evs : list worker_event) : Z :=
  Z.of_nat (length (List.filter (λ ev, match ev with CouldNotStart | Crashed => true | _ => false end) evs)).
Lemma pools_account p0 evs0 q0 : pools p0 evs0 q0 → 0 ≤ live p0 ≤ MCPD_MAX_CLIENTS → Z.of_nat (processes p0) ≤ live p0 →
  live q0 = Z.of_nat (processes q0) + (live p0 - Z.of_nat (processes p0)) + lost evs0 ∧ 0 ≤ live q0 ≤ MCPD_MAX_CLIENTS.
Proof.
  induction 1 as [p|p ev evs q Po H IH]; intros B L; [unfold lost; simpl; lia|].
  destruct p as [n k]; unfold possible, MCPD_MAX_CLIENTS in *; cbn [live processes] in *.
  assert (0 ≤ live (on_worker_event (Pool n k) ev) ≤ 16 ∧ Z.of_nat (processes (on_worker_event (Pool n k) ev)) ≤ live (on_worker_event (Pool n k) ev) ∧
          live (on_worker_event (Pool n k) ev) - Z.of_nat (processes (on_worker_event (Pool n k) ev)) = n - Z.of_nat k + lost [ev]) as (B' & L' & D).
  { unfold lost; destruct ev as [[]| | |]; cbn; unfold slot_claim, slot_release, MCPD_MAX_CLIENTS;
      [destruct (Z.ltb_spec n 16)|destruct (Z.ltb_spec n 16)| |destruct (Z.ltb_spec 0 n)|];
      cbn [live processes]; try destruct (Z.ltb_spec 0 (n + 1)); lia. }
  destruct (IH B' L') as [E R]; split; [|done]; rewrite E.
  assert (lost (ev :: evs) = lost [ev] + lost evs) as -> by (unfold lost; destruct ev; simpl; lia); lia.
Qed.
Lemma pools_stuck p0 evs0 q0 : pools p0 evs0 q0 → live p0 = 16 → processes p0 = 0%nat → q0 = p0.
Proof.
  induction 1 as [p|p ev evs q Po H IH]; intros L P; [done|].
  assert (on_worker_event p ev = p) as E; [|rewrite E in IH; by apply IH].
  destruct p as [n k]; cbn [live processes] in *; subst; destruct ev as [[]| | |]; try (cbn in Po; lia); done.
Qed.
(** C30: There are never more than sixteen workers, and the slots taken are
    between none and sixteen.  A connection accepted while fewer than sixteen
    are taken is never refused: it takes one slot and gets a worker of its own
    (or, when no process can be started for it, gives the slot back); with
    sixteen taken it is refused and changes nothing.  But only a worker whose
    client is done gives its slot back, so the slots taken are the workers
    there are and every worker that could not take its socket over or crashed,
    ever: after sixteen of those the daemon refuses every connection for
    good. *)
Theorem slots_account evs q : pools (Pool 0 0) evs q →
  Z.of_nat (processes q) ≤ 16 ∧ 0 ≤ live q ≤ 16 ∧
  (live q < 16 → on_worker_event q (Accepted true) = Pool (live q + 1) (Datatypes.S (processes q)) ∧
                 on_worker_event q (Accepted false) = q) ∧
  (live q = 16 → ∀ spawns, on_worker_event q (Accepted spawns) = q) ∧
  live q = Z.of_nat (processes q) + lost evs ∧
  (lost evs = 16 → ∀ evs' q', pools q evs' q' → q' = q).
Proof.
  intros H; destruct (pools_account _ _ _ H ltac:(cbn; unfold MCPD_MAX_CLIENTS; lia) ltac:(cbn; lia)) as [E B]; cbn [live processes] in E.
  assert (0 ≤ lost evs) by (unfold lost; lia); unfold MCPD_MAX_CLIENTS in *; split_and!; [lia..| | |lia|].
  - intros F; destruct q as [n k]; cbn in *; unfold slot_claim, slot_release, MCPD_MAX_CLIENTS.
    rewrite (proj2 (Z.ltb_lt n 16)), (proj2 (Z.ltb_lt 0 (n + 1))) by lia; split; [done|f_equal; lia].
  - intros F spawns; destruct q as [n k]; cbn in *; by rewrite F.
  - intros Lo evs' q' H'; assert (processes q = 0%nat ∧ live q = 16) as [P V] by lia.
    by eapply pools_stuck.
Qed.

(* ------------------------------------------------------------------ *)
(** ** A concrete socket *)

(** At most three bytes move at a time; one notification is always waiting. *)
Record sock := Sock { s_in : bytes; s_out : bytes; s_blocks : nat }.
#[export] Instance sock_socket : Socket sock := {
  recv n e := (Some (take (Nat.min 3 (Z.to_nat n)) (s_in e)), Sock (drop (Nat.min 3 (Z.to_nat n)) (s_in e)) (s_out e) (s_blocks e));
  send b e := (Z.of_nat (Nat.min 3 (length b)), Sock (s_in e) (s_out e ++ take 3 b) (s_blocks e));
  WaitSelect e := (1, e);
  alloc_vec n e := (true, Sock (s_in e) (s_out e) (Datatypes.S (s_blocks e)));
  free_vec e := Sock (s_in e) (s_out e) (pred (s_blocks e));
  notify e := Sock (s_in e) (s_out e ++ frame (txt "n")) (s_blocks e) }.
#[export, refine] Instance sock_laws : SocketLaws sock := {
  incoming := s_in; outgoing := s_out; blocks := s_blocks; notes e := [txt "n"] }.
Proof.
  - intros n e P; simpl; split_and!; [done..|]; destruct (s_in e) as [|x i] eqn:I; [split; [right; by rewrite take_nil|by rewrite drop_nil]|].
    exists (take (Nat.min 3 (Z.to_nat n)) (x :: i)); assert (∃ m, Nat.min 3 (Z.to_nat n) = Datatypes.S m) as [m M] by (exists (pred (Nat.min 3 (Z.to_nat n))); lia).
    split_and!; [done|by rewrite M|rewrite length_take; lia|by rewrite take_drop].
  - intros b e N; cbn -[Nat.min Z.of_nat Z.to_nat take]; assert (0 < length b)%nat by (destruct b; [done|simpl; lia]); split_and!; [lia..|done|done|].
    f_equal; rewrite Nat2Z.id; destruct (Nat.le_gt_cases 3 (length b)); [by rewrite Nat.min_l by lia|].
    by rewrite Nat.min_r, !take_ge by lia.
  - intros e; simpl; split_and!; done.
  - intros n e; simpl; split_and!; done.
  - intros e; simpl; split_and!; done.
  - intros e; simpl; split_and!; try done; constructor; [split; vm_compute; congruence|constructor].
Defined.
(** A dispatcher that answers every request with itself. *)
Definition echo (req : bytes) : M sock unit bytes := λ e, (Ret (if req is [] then txt "e" else req), e).
#[export] Instance echo_answers : Answers echo.
Proof. intros req e; exists (if req is [] then txt "e" else req), e; split_and!; try done; by destruct req. Qed.
Definition ex_sock : sock := Sock (frame (txt "one") ++ frame (txt "second")) [] 0.
Example ex_served : s_out (handle_connection echo 3 ex_sock).2 =
  frame (txt "n") ++ frame (txt "one") ++ frame (txt "n") ++ frame (txt "second").
Proof. vm_compute. reflexivity. Qed.
(** A dispatcher whose replies are short. *)
Definition pong (req : bytes) : M sock unit bytes := λ e, (Ret (txt "pong"), e).
#[export] Instance pong_answers : Answers pong.
Proof. intros req e; exists (txt "pong"), e; by split_and!. Qed.
Lemma connection_serves_witness :
  ∃ e' replies, handle_connection pong 3 ex_sock = (Ret tt, e') ∧
    Forall2 (λ req nr, answered pong req nr.2 ∧ Forall frame_ok nr.1) [txt "one"; txt "second"]%string replies ∧
    outgoing e' = [] ++ (replies ≫= said) ∧ blocks e' = 0%nat.
Proof.
  pose proof (connection_serves pong [txt "one"; txt "second"]%string ex_sock) as R.
  change (outgoing ex_sock) with (@nil ascii) in R; change (blocks ex_sock) with 0%nat in R.
  change (Datatypes.S (length [txt "one"; txt "second"]%string)) with 3%nat in R; apply R.
  - repeat constructor; vm_compute; intuition congruence.
  - intros req resp (e & e' & [= <- _]); split; vm_compute; congruence.
  - reflexivity.
Defined.
Lemma request_through_worker_witness :
  let d := Sock (frame [chr 1]) [] 0 in
  let w := World (Transport (Some 0%nat) (Some 0%nat) 1 [] [] None (Some 0)) [] (Script [] 5 [Some (ex_answer 1)] false) in
  ∃ w', request ex_loads ex_dumps ex_channel 20 "exec.cmd" None 30000 w = (Ret (JNum 42), w') ∧
    wire w' = [(0%nat, [chr 1])] ∧ pending 0%nat (env w') = [].
Proof.
  apply (request_through_worker echo ex_loads ex_dumps ex_channel 20 "exec.cmd" None 30000 1
    (World (Transport (Some 0%nat) (Some 0%nat) 1 [] [] None (Some 0)) [] (Script [] 5 [Some (ex_answer 1)] false))
    (Sock (frame [chr 1]) [] 0) 0%nat (Script (ex_answer 1) 5 [] false) [chr 1] [("id", JNum 1); ("result", JNum 42)]%string);
    try reflexivity; try (vm_compute; intuition congruence).
  - split_and!; [reflexivity..|]; exists 0; split; [reflexivity|vm_compute; congruence].
  - intros r (e & e' & [= <- _]); reflexivity.
  - intros d'; exists [JObj [("method", JStr "event")]]%string; eapply chatter_notification;
      [vm_compute; intuition congruence|reflexivity|reflexivity|]; apply chatter_nil.
  - vm_compute; lia.
Defined.
Lemma crash_once n evs q : n < 16 → pools (Pool (n + 1) 0) evs q → pools (Pool n 0) (Accepted true :: Crashed :: evs) q.
Proof.
  intros N H; apply pools_cons; [done|]; apply pools_cons; cbn; unfold slot_claim, MCPD_MAX_CLIENTS;
    destruct (Z.ltb_spec n 16); try lia; cbn; [lia|done].
Qed.
Definition ex_crashes : list worker_event := concat (repeat [Accepted true; Crashed] 16).
Lemma slots_account_witness :
  pools (Pool 0 0) ex_crashes (Pool 16 0) ∧ on_worker_event (Pool 16 0) (Accepted true) = Pool 16 0 ∧
  ∀ evs' q', pools (Pool 16 0) evs' q' → q' = Pool 16 0.
Proof.
  assert (pools (Pool 0 0) ex_crashes (Pool 16 0)) as H.
  { unfold ex_crashes; cbn [repeat concat app]; do 16 (apply crash_once; [lia|]); apply pools_nil. }
  split; [exact H|]; destruct (slots_account ex_crashes _ H) as (_ & _ & _ & E & _ & S);
  split; [apply E; reflexivity|]; apply S; reflexivity.
Defined.
