(* ===== verification/Fleet.v ===== *)
(** * The target registry and connection pool: [fleet.py]

    Which targets exist, which transport object a name has, and what becomes
    of transports and QEMU processes when a target is dropped or the server
    shuts down.  A transport object is named by a number, so that "the same
    object" can be stated; what it connects to is kept beside it. *)
From S2P Require Import Prelude Py Config.

(** [McpdTransport(ch)], [QmpTransport(ch)] and [GdbTransport(ch)] keep the
    channel's endpoint. *)
Record pooled := Pooled { obj : nat; endpoint : string }.

(** The attributes of [Fleet]; a dict is a [gmap], or a list of pairs where
    the code iterates over it.  [next_obj] counts the objects made so far. *)
Record Fleet := MkFleet {
  config : Config;
  p_mcpd : list (string * pooled);
  p_qmp : list (string * pooled);
  p_gdb : list (string * pooled);
  qemu_processes : list (string * nat);
  serial_log_paths : gmap string string;
  next_obj : nat }.
(** [__init__] *)
Definition Fleet_init (c : Config) : Fleet := MkFleet c [] [] [] [] ∅ 0.

(** ** Targets *)

(** [wanted.issubset(set(self._config.targets[n].tags))] *)
Definition has_tags (f : Fleet) (ws : list string) (n : string) : bool :=
  match assoc n (targets (config f)) with
  | Some t => forallb (λ x, bool_decide (x ∈ tags t)) ws
  | None => false
  end.
(** [list_targets]: names in code-point order, all the wanted tags present. *)
Definition list_targets (f : Fleet) (wanted : option (list string)) : list string :=
  let names := merge_sort String.le (targets (config f)).*1 in
  match wanted with
  | None | Some [] => names
  | Some ws => filter (λ n, has_tags f ws n = true) names
  end.

Definition available (f : Fleet) : option json :=
  Some (JObj [("available", JArr (JStr <$> list_targets f None))]).
Definition target_config (f : Fleet) (name : string) : res exn TargetConfig :=
  match assoc name (targets (config f)) with
  | None => Raise (ERpc InvalidParams (available f))
  | Some t => Ret t
  end.
Definition fleet_resolve_target (f : Fleet) (name : option string) : res exn string :=
  match resolve_target (config f) name with
  | Raise (EPy ValueError) => Raise (ERpc InvalidParams (available f))
  | r => r
  end.

(** ** The pool *)

Definition set_mcpd (v : list (string * pooled)) (n : nat) (f : Fleet) : Fleet :=
  MkFleet (config f) v (p_qmp f) (p_gdb f) (qemu_processes f) (serial_log_paths f) n.
Definition set_qmp (v : list (string * pooled)) (n : nat) (f : Fleet) : Fleet :=
  MkFleet (config f) (p_mcpd f) v (p_gdb f) (qemu_processes f) (serial_log_paths f) n.
Definition set_gdb (v : list (string * pooled)) (n : nat) (f : Fleet) : Fleet :=
  MkFleet (config f) (p_mcpd f) (p_qmp f) v (qemu_processes f) (serial_log_paths f) n.
Definition set_procs (v : list (string * nat)) (f : Fleet) : Fleet :=
  MkFleet (config f) (p_mcpd f) (p_qmp f) (p_gdb f) v (serial_log_paths f) (next_obj f).
Definition set_logs (v : gmap string string) (f : Fleet) : Fleet :=
  MkFleet (config f) (p_mcpd f) (p_qmp f) (p_gdb f) (qemu_processes f) v (next_obj f).

Definition MF := M Fleet exn.
Definition not_capable (name : string) (more : list (string * json)) : exn :=
  ERpc NotCapable (Some (JObj (("target", JStr name) :: more))).

Definition fleet_mcpd (name : string) : MF pooled :=
  f ← get;
  match assoc name (p_mcpd f) with
  | Some t => mret t
  | None =>
      cfg ← lift (target_config f name);
      match mcpd (channels cfg) with
      | Some ch =>
          if mcpd_enabled ch then
            let t := Pooled (next_obj f) (mcpd_endpoint ch) in
            modify (set_mcpd (dict_set name t (p_mcpd f)) (S (next_obj f)));;
            mret t
          else raise (not_capable name [])
      | None => raise (not_capable name [])
      end
  end.
Definition mcpd_if_connected (name : string) : MF (option pooled) :=
  gets (λ f, assoc name (p_mcpd f)).
Definition fleet_qmp (name : string) : MF pooled :=
  f ← get;
  match assoc name (p_qmp f) with
  | Some t => mret t
  | None =>
      cfg ← lift (target_config f name);
      match qmp (channels cfg) with
      | Some ch =>
          if qmp_enabled ch then
            if decide (type cfg = Qemu) then
              let t := Pooled (next_obj f) (qmp_endpoint ch) in
              modify (set_qmp (dict_set name t (p_qmp f)) (S (next_obj f)));;
              mret t
            else raise (not_capable name [("type", JStr "remote")])
          else raise (not_capable name [])
      | None => raise (not_capable name [])
      end
  end.
Definition fleet_gdb (name : string) : MF pooled :=
  f ← get;
  match assoc name (p_gdb f) with
  | Some t => mret t
  | None =>
      cfg ← lift (target_config f name);
      match gdb (channels cfg) with
      | Some ch =>
          if gdb_enabled ch then
            let t := Pooled (next_obj f) (gdb_endpoint ch) in
            modify (set_gdb (dict_set name t (p_gdb f)) (S (next_obj f)));;
            mret t
          else raise (not_capable name [])
      | None => raise (not_capable name [])
      end
  end.

(** ** QEMU processes *)

Definition register_qemu_process (name : string) (proc : nat) (log : option string) : MF unit :=
  modify (λ f, set_procs (dict_set name proc (qemu_processes f)) f);;
  match log with
  | Some p => modify (λ f, set_logs (<[name := p]> (serial_log_paths f)) f)
  | None => mret tt
  end.
Definition qemu_process (name : string) : MF (option nat) := gets (λ f, assoc name (qemu_processes f)).
Definition serial_log_path (name : string) : MF (option string) :=
  gets (λ f, serial_log_paths f !! name).
Definition drop_qemu_process (name : string) : MF unit :=
  modify (λ f, set_procs (dict_del name (qemu_processes f)) f);;
  modify (λ f, set_mcpd (dict_del name (p_mcpd f)) (next_obj f) f);;
  modify (λ f, set_qmp (dict_del name (p_qmp f)) (next_obj f) f);;
  modify (λ f, set_gdb (dict_del name (p_gdb f)) (next_obj f) f).

(** ** Shutdown *)

(** What [close_all] does to things outside: closing a transport object,
    and [subprocess.Popen]'s [poll], [terminate], [wait] and [kill]. *)
Class Outside (E : Type) := {
  close_obj : pooled → M E exn unit;
  poll : nat → E → option Z;
  terminate : nat → M E exn unit;
  wait : nat → Z → M E exn unit;
  kill : nat → M E exn unit }.

Section close_all.
Context {E : Type} `{Outside E}.
Definition outside {A} (m : M E exn A) : M (Fleet * E) exn A := λ fe,
  let '(r, e) := m fe.2 in (r, (fe.1, e)).
Definition upd_fleet (g : Fleet → Fleet) : M (Fleet * E) exn unit := modify (λ fe, (g fe.1, fe.2)).

Fixpoint close_each (ts : list (string * pooled)) : M (Fleet * E) exn unit :=
  match ts with
  | [] => mret tt
  | (_, t) :: ts => outside (close_obj t);; close_each ts
  end.
Definition is_timeout_expired (e : exn) : bool := if e is EPy TimeoutExpired then true else false.
Definition stop_one (name : string) (proc : nat) : M (Fleet * E) exn unit :=
  code ← gets (λ fe, poll proc fe.2);
  match code with
  | Some _ => mret tt
  | None =>
      catch (outside (terminate proc)) (λ e, if is_oserror e then mret tt else raise e);;
      catch (outside (wait proc 5000))
        (λ e, if is_timeout_expired e then
                catch (outside (kill proc);; outside (wait proc 2000))
                  (λ e, if is_oserror e || is_timeout_expired e then mret tt else raise e)
              else raise e);;
      upd_fleet (λ f, set_procs (dict_del name (qemu_processes f)) f)
  end.
Fixpoint stop_each (ps : list (string * nat)) : M (Fleet * E) exn unit :=
  match ps with
  | [] => mret tt
  | (name, proc) :: ps => stop_one name proc;; stop_each ps
  end.
Definition close_all : M (Fleet * E) exn unit :=
  fe ← get;
  close_each (p_mcpd fe.1);;
  upd_fleet (λ f, set_mcpd [] (next_obj f) f);;
  fe ← get;
  close_each (p_qmp fe.1);;
  upd_fleet (λ f, set_qmp [] (next_obj f) f);;
  fe ← get;
  close_each (p_gdb fe.1);;
  upd_fleet (λ f, set_gdb [] (next_obj f) f);;
  fe ← get;
  stop_each (qemu_processes fe.1).
End close_all.

(* ------------------------------------------------------------------ *)
(** ** Lemmas *)

Lemma StronglySorted_filter {A} (R : relation A) (P : A → Prop) `{∀ x, Decision (P x)} l :
  StronglySorted R l → StronglySorted R (filter P l).
Proof.
  induction 1 as [|x l Hs IH Hx]; [constructor|]. rewrite filter_cons. case_decide; [|done].
  constructor; [done|]. rewrite Forall_forall in *. intros y Hy. apply Hx.
  by apply list_elem_of_filter in Hy as [_ ?].
Qed.

(** [list_targets] returns each configured target that has every wanted
    tag exactly once, in order of the name. *)
Theorem list_targets_spec f wanted : config_ok (config f) →
  let l := list_targets f wanted in
  NoDup l ∧ StronglySorted String.le l ∧
  ∀ n, n ∈ l ↔ ∃ t, assoc n (targets (config f)) = Some t ∧
                    ∀ tag, tag ∈ default [] wanted → tag ∈ tags t.
Proof.
  intros Hok l. unfold config_ok in Hok.
  set (names := merge_sort String.le (targets (config f)).*1).
  assert (NoDup names) as Hnd by (unfold names; by rewrite merge_sort_Permutation).
  assert (StronglySorted String.le names) as Hs by apply (StronglySorted_merge_sort String.le).
  assert (∀ n, n ∈ names ↔ ∃ t, assoc n (targets (config f)) = Some t) as Hin.
  { intros n. unfold names. rewrite merge_sort_Permutation.
    destruct (assoc n (targets (config f))) as [t|] eqn:Ha.
    - apply assoc_elem in Ha. split; [by eexists|]. intros _. apply list_elem_of_fmap. by exists (n, t).
    - apply assoc_None in Ha. naive_solver. }
  destruct wanted as [[|w ws]|]; unfold l, list_targets; fold names.
  2:{ split_and!; [by apply NoDup_filter|by apply StronglySorted_filter|].
      intros n. rewrite list_elem_of_filter, Hin. unfold has_tags. split.
      - intros [Htags [t Ht]]. exists t. split; [done|]. rewrite Ht in Htags.
        intros tag Htag%list_elem_of_In. rewrite forallb_forall in Htags.
        specialize (Htags tag Htag). by apply bool_decide_eq_true in Htags.
      - intros (t & Ht & Htags). split; [|by eexists]. rewrite Ht. apply forallb_forall.
        intros tag Htag%list_elem_of_In. apply bool_decide_eq_true. by apply Htags. }
  all: split_and!; [done..|]; intros n; rewrite Hin; simpl; split.
  all: [> intros [t Ht]; exists t; split; [done|set_solver] | intros (t & Ht & _); by eexists
        | intros [t Ht]; exists t; split; [done|set_solver] | intros (t & Ht & _); by eexists].
Qed.

(* ------------------------------------------------------------------ *)
(** ** The pool through any sequence of calls *)

Inductive pool_op :=
| OpMcpd (name : string)
| OpQmp (name : string)
| OpGdb (name : string)
| OpRegister (name : string) (proc : nat) (log : option string)
| OpDrop (name : string).
Definition run_op (op : pool_op) (f : Fleet) : Fleet :=
  match op with
  | OpMcpd n => (fleet_mcpd n f).2
  | OpQmp n => (fleet_qmp n f).2
  | OpGdb n => (fleet_gdb n f).2
  | OpRegister n p log => (register_qemu_process n p log f).2
  | OpDrop n => (drop_qemu_process n f).2
  end.
Definition run_ops (ops : list pool_op) (f : Fleet) : Fleet := foldl (λ f op, run_op op f) f ops.

(** The endpoint of an enabled channel; QMP is for QEMU targets only. *)
Definition mcpd_of (t : TargetConfig) : option string :=
  ch ← mcpd (channels t); if mcpd_enabled ch then Some (mcpd_endpoint ch) else None.
Definition qmp_of (t : TargetConfig) : option string :=
  ch ← qmp (channels t);
  if qmp_enabled ch && bool_decide (type t = Qemu) then Some (qmp_endpoint ch) else None.
Definition gdb_of (t : TargetConfig) : option string :=
  ch ← gdb (channels t); if gdb_enabled ch then Some (gdb_endpoint ch) else None.

Definition entry_ok (c : Config) (next : nat) (ep : TargetConfig → option string)
    (kv : string * pooled) : Prop :=
  (obj kv.2 < next)%nat ∧ ∃ t, assoc kv.1 (targets c) = Some t ∧ ep t = Some (endpoint kv.2).
Definition objs (d : list (string * pooled)) : list nat := (λ kv, obj kv.2) <$> d.
Definition pool_ok (f : Fleet) : Prop :=
  Forall (entry_ok (config f) (next_obj f) mcpd_of) (p_mcpd f) ∧
  Forall (entry_ok (config f) (next_obj f) qmp_of) (p_qmp f) ∧
  Forall (entry_ok (config f) (next_obj f) gdb_of) (p_gdb f) ∧
  NoDup (objs (p_mcpd f) ++ objs (p_qmp f) ++ objs (p_gdb f)).

(** What asking for a transport does, for the three pools alike. *)
Definition pool_get (d : list (string * pooled)) (ep : TargetConfig → option string)
    (name : string) (f : Fleet) : res exn pooled * option pooled → Prop := λ r,
  match assoc name d with
  | Some t => r = (Ret t, None)
  | None =>
      match assoc name (targets (config f)) with
      | None => r = (Raise (ERpc InvalidParams (available f)), None)
      | Some t =>
          match ep t with
          | Some e => r = (Ret (Pooled (next_obj f) e), Some (Pooled (next_obj f) e))
          | None => ∃ more, r = (Raise (not_capable name more), None)
          end
      end
  end.
Definition add_entry (name : string) (d : list (string * pooled)) (o : option pooled) :=
  match o with Some t => d ++ [(name, t)] | None => d end.
Definition next_after (f : Fleet) (o : option pooled) : nat :=
  if o is Some _ then S (next_obj f) else next_obj f.

Lemma dict_set_fresh {A} k (v : A) d : assoc k d = None → dict_set k v d = d ++ [(k, v)].
Proof.
  induction d as [|[k0 v0] d IH]; simpl; [done|]. case_decide; [done|].
  intros ?. f_equal. auto.
Qed.
Lemma fleet_mcpd_spec name f : ∃ o,
  pool_get (p_mcpd f) mcpd_of name f ((fleet_mcpd name f).1, o) ∧
  (fleet_mcpd name f).2 = set_mcpd (add_entry name (p_mcpd f) o) (next_after f o) f.
Proof.
  unfold fleet_mcpd, pool_get, mbind, M_bind, get, lift, target_config, mcpd_of. destruct f; simpl.
  destruct (assoc name p_mcpd0) eqn:Ha; simpl; [by exists None|].
  destruct (assoc name (targets config0)) as [t|]; simpl; [|by exists None].
  destruct (mcpd (channels t)) as [ch|]; simpl; [|exists None; split; [by eexists|done]].
  destruct (mcpd_enabled ch); simpl; [|exists None; split; [by eexists|done]].
  eexists (Some _). split; [done|]. unfold set_mcpd. simpl. by rewrite dict_set_fresh.
Qed.
Lemma fleet_qmp_spec name f : ∃ o,
  pool_get (p_qmp f) qmp_of name f ((fleet_qmp name f).1, o) ∧
  (fleet_qmp name f).2 = set_qmp (add_entry name (p_qmp f) o) (next_after f o) f.
Proof.
  unfold fleet_qmp, pool_get, mbind, M_bind, get, lift, target_config, qmp_of. destruct f; simpl.
  destruct (assoc name p_qmp0) eqn:Ha; simpl; [by exists None|].
  destruct (assoc name (targets config0)) as [t|]; simpl; [|by exists None].
  destruct (qmp (channels t)) as [ch|]; simpl; [|exists None; split; [by eexists|done]].
  destruct (qmp_enabled ch); simpl; [|exists None; split; [by eexists|done]].
  destruct (decide (type t = Qemu)).
  - rewrite bool_decide_eq_true_2 by done. simpl.
    eexists (Some _). split; [done|]. unfold set_qmp. simpl. by rewrite dict_set_fresh.
  - rewrite bool_decide_eq_false_2 by done. exists None. split; [by eexists|done].
Qed.
Lemma fleet_gdb_spec name f : ∃ o,
  pool_get (p_gdb f) gdb_of name f ((fleet_gdb name f).1, o) ∧
  (fleet_gdb name f).2 = set_gdb (add_entry name (p_gdb f) o) (next_after f o) f.
Proof.
  unfold fleet_gdb, pool_get, mbind, M_bind, get, lift, target_config, gdb_of. destruct f; simpl.
  destruct (assoc name p_gdb0) eqn:Ha; simpl; [by exists None|].
  destruct (assoc name (targets config0)) as [t|]; simpl; [|by exists None].
  destruct (gdb (channels t)) as [ch|]; simpl; [|exists None; split; [by eexists|done]].
  destruct (gdb_enabled ch); simpl; [|exists None; split; [by eexists|done]].
  eexists (Some _). split; [done|]. unfold set_gdb. simpl. by rewrite dict_set_fresh.
Qed.

Lemma entry_ok_mono c n n' ep kv : (n ≤ n')%nat → entry_ok c n ep kv → entry_ok c n' ep kv.
Proof. intros ? [? ?]. split; [lia|done]. Qed.
Lemma entries_mono c n n' ep d : (n ≤ n')%nat → Forall (entry_ok c n ep) d → Forall (entry_ok c n' ep) d.
Proof. intros ? Hd. eapply Forall_impl; [exact Hd|]. intros ?. by apply entry_ok_mono. Qed.
Definition made (f : Fleet) (o : option pooled) : list nat := if o is Some _ then [next_obj f] else [].
Lemma pool_get_entry d ep name f r o : Forall (entry_ok (config f) (next_obj f) ep) d →
  pool_get d ep name f (r, o) →
  Forall (entry_ok (config f) (next_after f o) ep) (add_entry name d o) ∧
  objs (add_entry name d o) = objs d ++ made f o.
Proof.
  intros Hd Hg. unfold pool_get in Hg.
  destruct o as [t|]; simpl; [|by rewrite app_nil_r].
  repeat (case_match; simplify_eq/=; try by destruct_and?).
  2:{ by destruct Hg as [? [=]]. }
  split; [|unfold objs; by rewrite fmap_app].
  apply Forall_app. split; [eapply entries_mono; [|exact Hd]; lia|].
  constructor; [|done]. split; simpl; [lia|]. by eexists.
Qed.
Lemma next_after_le f o : (next_obj f ≤ next_after f o)%nat.
Proof. destruct o; simpl; lia. Qed.
Lemma made_fresh f o l : Forall (λ x, (x < next_obj f)%nat) l → NoDup l → NoDup (l ++ made f o).
Proof.
  intros Hl Hnd. destruct o; simpl; [|by rewrite app_nil_r].
  apply NoDup_app. split_and!; [done| |apply NoDup_singleton].
  intros x Hx ->%list_elem_of_singleton. rewrite Forall_forall in Hl. specialize (Hl _ Hx). lia.
Qed.
Lemma objs_below c n ep d : Forall (entry_ok c n ep) d → Forall (λ x, (x < n)%nat) (objs d).
Proof. intros Hd. apply Forall_fmap. eapply Forall_impl; [exact Hd|]. by intros ? [? _]. Qed.
Lemma objs_below_all f : pool_ok f →
  Forall (λ x, (x < next_obj f)%nat) (objs (p_mcpd f) ++ objs (p_qmp f) ++ objs (p_gdb f)).
Proof.
  intros (H1 & H2 & H3 & _). rewrite !Forall_app. split_and!; by eapply objs_below.
Qed.
Lemma objs_del k d : sublist (objs (dict_del k d)) (objs d).
Proof.
  unfold objs, dict_del. induction d as [|[k0 v0] d IH]; [done|].
  rewrite filter_cons. simpl. case_decide; simpl; by constructor.
Qed.
Lemma entries_del c n ep k d : Forall (entry_ok c n ep) d → Forall (entry_ok c n ep) (dict_del k d).
Proof.
  rewrite !Forall_forall. intros Hd x Hx. apply Hd. by apply list_elem_of_filter in Hx as [_ ?].
Qed.

Lemma run_op_ok op f : pool_ok f → pool_ok (run_op op f).
Proof.
  intros Hok. pose proof (objs_below_all f Hok) as Hb. destruct Hok as (H1 & H2 & H3 & Hnd).
  destruct op as [name|name|name|name proc log|name]; simpl.
  - destruct (fleet_mcpd_spec name f) as (o & Hg & ->).
    destruct (pool_get_entry _ _ _ _ _ _ H1 Hg) as [He Ho].
    unfold pool_ok. simpl. split_and!; [done|by eapply entries_mono, H2; apply next_after_le
      |by eapply entries_mono, H3; apply next_after_le|].
    pose proof (made_fresh f o _ Hb Hnd) as Hf. rewrite Ho.
    revert Hf. apply NoDup_Permutation_proper. solve_Permutation.
  - destruct (fleet_qmp_spec name f) as (o & Hg & ->).
    destruct (pool_get_entry _ _ _ _ _ _ H2 Hg) as [He Ho].
    unfold pool_ok. simpl. split_and!; [by eapply entries_mono, H1; apply next_after_le
      |done|by eapply entries_mono, H3; apply next_after_le|].
    pose proof (made_fresh f o _ Hb Hnd) as Hf. rewrite Ho.
    revert Hf. apply NoDup_Permutation_proper. solve_Permutation.
  - destruct (fleet_gdb_spec name f) as (o & Hg & ->).
    destruct (pool_get_entry _ _ _ _ _ _ H3 Hg) as [He Ho].
    unfold pool_ok. simpl. split_and!; [by eapply entries_mono, H1; apply next_after_le
      |by eapply entries_mono, H2; apply next_after_le|done|].
    pose proof (made_fresh f o _ Hb Hnd) as Hf. rewrite Ho.
    revert Hf. apply NoDup_Permutation_proper. solve_Permutation.
  - by destruct log.
  - unfold pool_ok. simpl. split_and!; try by apply entries_del.
    eapply sublist_NoDup; [exact Hnd|]. repeat apply sublist_app; apply objs_del.
Qed.

(** whatever calls were made, each pooled transport belongs to a
    configured target, is bound to the endpoint of the enabled channel of its
    kind (a QMP transport only to a QEMU target), and no transport object is
    shared between names or kinds. *)
Theorem pool_invariant c ops : pool_ok (run_ops ops (Fleet_init c)).
Proof.
  assert (pool_ok (Fleet_init c)) as Hinit by (repeat constructor).
  revert Hinit. generalize (Fleet_init c). unfold run_ops.
  induction ops as [|op ops IH]; intros f Hf; [done|]. by apply IH, run_op_ok.
Qed.

Lemma assoc_app {A} k (d1 d2 : list (string * A)) :
  assoc k (d1 ++ d2) = match assoc k d1 with Some v => Some v | None => assoc k d2 end.
Proof. induction d1 as [|[k0 v0] d1 IH]; simpl; [done|]. by case_decide. Qed.
Lemma fleet_mcpd_hit name f t : assoc name (p_mcpd f) = Some t → fleet_mcpd name f = (Ret t, f).
Proof. intros Ha. unfold fleet_mcpd, mbind, M_bind, get. by rewrite Ha. Qed.
Lemma fleet_mcpd_ret name f t f1 : fleet_mcpd name f = (Ret t, f1) → assoc name (p_mcpd f1) = Some t.
Proof.
  intros Hr. destruct (fleet_mcpd_spec name f) as (o & Hg & Hf). rewrite Hr in Hg, Hf.
  simpl in *. subst f1. unfold pool_get in Hg. simpl.
  destruct (assoc name (p_mcpd f)) as [t'|] eqn:Ha; [by simplify_eq|].
  destruct (assoc name (targets (config f))) as [c|]; [|by simplify_eq].
  destruct (mcpd_of c) as [e|]; [|by destruct Hg].
  simplify_eq/=. rewrite assoc_app, Ha. simpl. by rewrite decide_True.
Qed.
Lemma run_op_keeps name op f t : op ≠ OpDrop name →
  assoc name (p_mcpd f) = Some t → assoc name (p_mcpd (run_op op f)) = Some t.
Proof.
  intros Hop Ha. destruct op as [n|n|n|n proc log|n]; simpl.
  - destruct (fleet_mcpd_spec n f) as ([t'|] & _ & ->); simpl; [|done]. by rewrite assoc_app, Ha.
  - by destruct (fleet_qmp_spec n f) as (o & _ & ->).
  - by destruct (fleet_gdb_spec n f) as (o & _ & ->).
  - by destruct log.
  - rewrite assoc_dict_del. case_decide; [|done]. congruence.
Qed.
Lemma run_ops_ok ops f : pool_ok f → pool_ok (run_ops ops f).
Proof.
  revert f. unfold run_ops. induction ops as [|op ops IH]; intros f Hf; [done|]. by apply IH, run_op_ok.
Qed.

(** a target has one MCPd transport: asking again gives the same object,
    whatever was asked for or registered in between, until the target's QEMU
    process is dropped; after that the next one is a new object. *)
Theorem mcpd_one_transport name f t f1 ops :
  pool_ok f → fleet_mcpd name f = (Ret t, f1) → OpDrop name ∉ ops →
  let f2 := run_ops ops f1 in
  fleet_mcpd name f2 = (Ret t, f2) ∧
  ∀ t' f3, fleet_mcpd name (run_op (OpDrop name) f2) = (Ret t', f3) → obj t' ≠ obj t.
Proof.
  intros Hok Hr Hops f2.
  assert (pool_ok f1) as Hok1.
  { replace f1 with (run_op (OpMcpd name) f) by (simpl; by rewrite Hr). by apply run_op_ok. }
  assert (assoc name (p_mcpd f2) = Some t) as Ha.
  { apply fleet_mcpd_ret in Hr. unfold f2, run_ops. clear f2 Hok Hok1. revert f1 Hr Hops.
    induction ops as [|op ops IH]; intros f1 Ha Hops; [done|]. simpl.
    apply IH; [apply run_op_keeps; [set_solver|done]|set_solver]. }
  split; [by apply fleet_mcpd_hit|]. intros t' f3 Hr'.
  assert (pool_ok f2) as (Hm & _) by by apply run_ops_ok.
  apply assoc_elem in Ha. rewrite Forall_forall in Hm. destruct (Hm _ Ha) as [Hlt _].
  destruct (fleet_mcpd_spec name (run_op (OpDrop name) f2)) as (o & Hg & _).
  rewrite Hr' in Hg. unfold pool_get in Hg. simpl in Hg.
  rewrite assoc_dict_del, decide_True in Hg by done.
  destruct (assoc name (targets (config f2))) as [c|]; [|by simplify_eq].
  destruct (mcpd_of c) as [e|]; [|by destruct Hg]. simplify_eq/=. lia.
Qed.

(* ------------------------------------------------------------------ *)
(** ** Shutdown *)

(** How children and transports behave: an exit status, once there, stays;
    [terminate] may fail with an [OSError]; [wait] ends with the child's exit
    or [TimeoutExpired]; a killed child can be waited for; closing returns. *)
Definition exits_stay {E} `{Outside E} : relation E := λ e e',
  ∀ p c, poll p e = Some c → poll p e' = Some c.
#[export] Instance exits_stay_preorder {E} `{Outside E} : PreOrder exits_stay.
Proof. split; [by intros ???|]. intros ?????. unfold exits_stay in *. auto. Qed.
Class Children (E : Type) `{Outside E} := {
  close_obj_ends t e : ∃ e', close_obj t e = (Ret tt, e') ∧ exits_stay e e';
  terminate_ends p e : ∃ r e', terminate p e = (r, e') ∧ exits_stay e e' ∧
    (r = Ret tt ∨ ∃ c s, r = Raise (EOS c s));
  wait_ends p t e : ∃ r e', wait p t e = (r, e') ∧ exits_stay e e' ∧
    (r = Ret tt ∧ is_Some (poll p e') ∨ r = Raise (EPy TimeoutExpired));
  kill_ends p e : ∃ e', kill p e = (Ret tt, e') ∧ exits_stay e e' ∧
    ∀ t, (wait p t e').1 = Ret tt }.

Section shutdown.
Context {E : Type} `{Children E}.

Lemma outside_run {A} (m : M E exn A) f e r e' :
  m e = (r, e') → outside m (f, e) = (r, (f, e')).
Proof. intros Hm. unfold outside. simpl. by rewrite Hm. Qed.

Lemma close_each_run ts f e : ∃ e', close_each ts (f, e) = (Ret tt, (f, e')) ∧ exits_stay e e'.
Proof.
  revert e. induction ts as [|[n t] ts IH]; intros e; simpl; [by exists e|].
  destruct (close_obj_ends t e) as (e1 & He1 & Hs1). destruct (IH e1) as (e2 & He2 & Hs2).
  exists e2. split; [|by etrans]. by erewrite bind_run by (by apply outside_run).
Qed.

(** One child: it has exited afterwards, and a running one is unregistered. *)
Lemma stop_one_run name p f e : ∃ f' e', stop_one name p (f, e) = (Ret tt, (f', e')) ∧
  exits_stay e e' ∧ is_Some (poll p e') ∧
  f' = (if poll p e is Some _ then f else set_procs (dict_del name (qemu_processes f)) f).
Proof.
  unfold stop_one. erewrite bind_run by done. simpl.
  destruct (poll p e) as [c|] eqn:Hp; [exists f, e; split_and!; [done..| |done]; by rewrite Hp|].
  destruct (terminate_ends p e) as (r1 & e1 & He1 & Hs1 & Hr1).
  assert (catch (outside (terminate p)) (λ e, if is_oserror e then mret tt else raise e) (f, e)
    = (Ret tt, (f, e1))) as Hterm.
  { destruct Hr1 as [->|(c & s & ->)]; [apply catch_run; by apply outside_run|].
    by erewrite catch_raise by (by apply outside_run). }
  erewrite bind_run by exact Hterm.
  destruct (wait_ends p 5000 e1) as (r2 & e2 & He2 & Hs2 & Hr2).
  eexists _. destruct Hr2 as [[-> Hx]| ->].
  - exists e2. split; [|by split_and!; [etrans| |]].
    by erewrite bind_run by (apply catch_run; by apply outside_run).
  - destruct (kill_ends p e2) as (e3 & He3 & Hs3 & Hw).
    destruct (wait_ends p 2000 e3) as (r4 & e4 & He4 & Hs4 & Hr4).
    specialize (Hw 2000). rewrite He4 in Hw. simpl in Hw. subst r4.
    destruct Hr4 as [[_ Hx]|[=]]. exists e4.
    split; [|split_and!; [by repeat (etrans; [eassumption|])|done|done]].
    eapply bind_then.
    + eapply catch_then; [by apply outside_run|]. simpl. apply catch_run.
      eapply bind_then; by apply outside_run.
    + done.
Qed.
Lemma stop_each_run ps f e : ∃ f' e', stop_each ps (f, e) = (Ret tt, (f', e')) ∧
  exits_stay e e' ∧ Forall (λ np, is_Some (poll np.2 e')) ps ∧
  (p_mcpd f', p_qmp f', p_gdb f', config f') = (p_mcpd f, p_qmp f, p_gdb f, config f) ∧
  qemu_processes f' ⊆ qemu_processes f.
Proof.
  revert f e. induction ps as [|[n p] ps IH]; intros f e; simpl; [by exists f, e|].
  destruct (stop_one_run n p f e) as (f1 & e1 & H1 & Hs1 & Hp1 & Hf1).
  destruct (IH f1 e1) as (f2 & e2 & H2 & Hs2 & Hp2 & Hc2 & Hq2).
  exists f2, e2. erewrite bind_run by exact H1. split_and!; [done|by etrans| | |].
  - constructor; [|done]. simpl. destruct Hp1 as [c Hc]. exists c. by apply Hs2.
  - rewrite Hc2, Hf1. by case_match.
  - etrans; [exact Hq2|]. rewrite Hf1. case_match; [done|]. simpl.
    intros x [_ ?]%list_elem_of_filter. done.
Qed.

Lemma close_all_run f e : ∃ f' e', close_all (f, e) = (Ret tt, (f', e')) ∧
  (p_mcpd f', p_qmp f', p_gdb f', config f') = ([], [], [], config f) ∧
  qemu_processes f' ⊆ qemu_processes f ∧ Forall (λ np, is_Some (poll np.2 e')) (qemu_processes f).
Proof.
  destruct (close_each_run (p_mcpd f) f e) as (e1 & H1 & _).
  set (f1 := set_mcpd [] (next_obj f) f).
  destruct (close_each_run (p_qmp f1) f1 e1) as (e2 & H2 & _).
  set (f2 := set_qmp [] (next_obj f1) f1).
  destruct (close_each_run (p_gdb f2) f2 e2) as (e3 & H3 & _).
  set (f3 := set_gdb [] (next_obj f2) f2).
  destruct (stop_each_run (qemu_processes f3) f3 e3) as (f4 & e4 & H4 & _ & Hp & Hc & Hq).
  exists f4, e4. split_and!; [|exact Hc|exact Hq|exact Hp].
  unfold close_all. erewrite bind_run by done. erewrite bind_run by exact H1.
  erewrite bind_run by done. erewrite bind_run by done. erewrite bind_run by exact H2.
  erewrite bind_run by done. erewrite bind_run by done. erewrite bind_run by exact H3.
  erewrite bind_run by done. by erewrite bind_run by done.
Qed.

(** C17: [close_all] terminates without an exception, leaves no pooled
    transport, and leaves no QEMU child running: a child that ignores
    [terminate] for five seconds is killed. *)
Theorem close_all_stops_everything f e : ∃ f' e',
  close_all (f, e) = (Ret tt, (f', e')) ∧
  p_mcpd f' = [] ∧ p_qmp f' = [] ∧ p_gdb f' = [] ∧ config f' = config f ∧
  qemu_processes f' ⊆ qemu_processes f ∧
  ∀ name p, (name, p) ∈ qemu_processes f → is_Some (poll p e').
Proof.
  destruct (close_all_run f e) as (f' & e' & Hrun & [= Hm Hq Hg Hc] & Hsub & Hp).
  exists f', e'. split_and!; try done. intros name p Hin. rewrite Forall_forall in Hp. by apply (Hp (name, p)).
Qed.
End shutdown.

(* ------------------------------------------------------------------ *)
(** ** Examples *)

(** Children as a table: exit status, and whether [terminate] is ignored. *)
Definition table : Type := nat → option Z * bool.
Definition exit_with (c : Z) (p : nat) (e : table) : table := λ q,
  if decide (q = p) then (match (e q).1 with Some x => Some x | None => Some c end, (e q).2) else e q.
#[export] Instance table_outside : Outside table := {|
  close_obj t := mret tt;
  poll p (e : table) := (e p).1;
  terminate p := λ e : table, (Ret tt, if (e p).2 then e else exit_with (-15) p e);
  wait p t := λ e : table, (if (e p).1 is Some _ then Ret tt else Raise (EPy TimeoutExpired), e);
  kill p := λ e : table, (Ret tt, exit_with (-9) p e) |}.
Lemma exit_with_stay c p e : exits_stay e (exit_with c p e).
Proof. intros q x. unfold exit_with. simpl. case_decide; [|done]. simpl. by intros ->. Qed.
#[export] Instance table_children : Children table.
Proof.
  split.
  - intros t e. by exists e.
  - intros p e. eexists _, _. split_and!; [done| |by left].
    destruct (e p).2; [done|apply exit_with_stay].
  - intros p t e. eexists _, _. split_and!; [done..|]. simpl.
    destruct (e p).1; [left; split; [done|by eexists]|by right].
  - intros p e. eexists. split_and!; [done|apply exit_with_stay|]. intros t. simpl.
    unfold exit_with. rewrite decide_True by done. by destruct (e p).1.
Defined.

Definition ex_target (ty : TargetType) (ts : list string) (ep : option string) : TargetConfig :=
  {| type := ty; display_name := None; machine := None; qemu_config := None; headless := true;
     tags := ts; sandbox := None; input := None;
     channels := {| mcpd := option_map (λ e, {| mcpd_enabled := true; mcpd_endpoint := e;
                                     discovery_port := None |}) ep;
                    qmp := None; gdb := None; uboot := None; mcu := None |} |}.
Definition ex_config : Config :=
  {| server := ServerConfig_default;
     paths := {| amiga_qemu_tests := None; qemu_binary := None; sandboxvm := None |};
     defaults := {| dest_volume := None; sources_dir := None; def_machine := None;
                    iso_filename := None; exec_priority := None |};
     targets := [("x5000", ex_target Remote ["lab"; "real"] (Some "10.0.0.5:4321"));
                 ("sam", ex_target Qemu ["lab"] (Some "127.0.0.1:4321"));
                 ("bare", ex_target Remote [] None)] |}.

Lemma list_targets_spec_witness :
  config_ok ex_config ∧
  list_targets (Fleet_init ex_config) (Some ["lab"]) = ["sam"; "x5000"] ∧
  NoDup (list_targets (Fleet_init ex_config) (Some ["lab"])).
Proof.
  assert (config_ok ex_config) as Hok.
  { unfold config_ok. apply (bool_decide_unpack _). vm_compute. exact I. }
  split; [exact Hok|]. split; [vm_compute; reflexivity|].
  apply (list_targets_spec (Fleet_init ex_config) (Some ["lab"]) Hok).
Defined.

Lemma mcpd_one_transport_witness :
  let f2 := run_ops [OpQmp "sam"; OpDrop "sam"] (fleet_mcpd "x5000" (Fleet_init ex_config)).2 in
  fleet_mcpd "x5000" f2 = (Ret (Pooled 0 "10.0.0.5:4321"), f2).
Proof.
  apply (mcpd_one_transport "x5000" (Fleet_init ex_config) (Pooled 0 "10.0.0.5:4321")
           (fleet_mcpd "x5000" (Fleet_init ex_config)).2 [OpQmp "sam"; OpDrop "sam"]).
  - repeat constructor.
  - vm_compute. reflexivity.
  - intros Hin. apply list_elem_of_In in Hin. simpl in Hin. intuition congruence.
Defined.

Lemma close_all_stops_everything_witness :
  let e : table := λ p, (None, bool_decide (p = 1%nat)) in
  let f := set_procs [("sam", 0%nat); ("stuck", 1%nat)] (Fleet_init ex_config) in
  ∃ f' e', close_all (f, e) = (Ret tt, (f', e')) ∧
    ∀ name p, (name, p) ∈ qemu_processes f → is_Some (poll p e').
Proof.
  destruct (close_all_stops_everything
    (set_procs [("sam", 0%nat); ("stuck", 1%nat)] (Fleet_init ex_config))
    (λ p, (None, bool_decide (p = 1%nat)))) as (f' & e' & H1 & _ & _ & _ & _ & _ & H2).
  exists f', e'. split; [exact H1|exact H2].
Defined.
