(* ===== verification/FleetTools.v ===== *)
(** * Fan-out tools: [tools/fleet.py]

    [fleet.run_on_all], [fleet.barrier] and [fleet.quorum_run].  The calls
    run concurrently; what each ends with, how long it takes, and in which
    groups the event loop reports completions are arbitrary inputs here. *)
From S2P Require Import Prelude Py Config Fleet.

(** [FanOutEntry]: [ok] and [error], both [None] by default. *)
Record FanOutEntry := { ok : option json; error : option json }.
Definition ok_entry (r : json) : FanOutEntry := {| ok := Some r; error := None |}.
Definition error_entry (e : json) : FanOutEntry := {| ok := None; error := Some e |}.
Definition is_ok (e : FanOutEntry) : bool := if error e is None then true else false.

Definition FANOUT : list string :=
  ["fs.list"; "fs.stat"; "fs.read"; "fs.write"; "fs.delete"; "fs.makedir"; "fs.rename";
   "fs.protect"; "fs.copy"; "exec.cmd"; "sys.version"; "sys.tasks"; "sys.libraries";
   "sys.devices"; "sys.ports"; "sys.lastalert"; "sys.debug_ring"; "wb.screens";
   "wb.windows"; "wb.screenshot"; "sandbox.probe"; "sandbox.deploy"; "sandbox.run_guest";
   "sandbox.run_driver"; "sandbox.run_batch"; "sandbox.last_trap"].
Definition fanout_methods : list string := merge_sort String.le FANOUT.

(** [_one]: what a finished call becomes.  [except JsonRpcError], then
    [except Exception]; a [CancelledError] goes through. *)
Definition one (r : res exn json) : res exn FanOutEntry :=
  match r with
  | Ret v => Ret (ok_entry v)
  | Raise (ERpc c d) => Ret (error_entry (JObj (to_dict c d)))
  | Raise ECancelled => Raise ECancelled
  | Raise _ => Ret (error_entry (JObj [("code", JNum (-32603))]))
  | Spin => Spin
  end.

(** [asyncio.gather], then [dict(pairs)]: in the order of the arguments. *)
Fixpoint gather (rs : list (string * res exn FanOutEntry)) (acc : list (string * FanOutEntry))
    : res exn (list (string * FanOutEntry)) :=
  match rs with
  | [] => Ret acc
  | (name, Ret e) :: rs => gather rs (dict_set name e acc)
  | (_, Raise x) :: _ => Raise x
  | (_, Spin) :: _ => Spin
  end.

Definition select (f : Fleet) (targets tags : option (list string)) : list string :=
  match targets with Some ts => ts | None => list_targets f tags end.
Definition unknown_method : exn :=
  ERpc InvalidParams (Some (JObj [("available", JArr (JStr <$> fanout_methods))])).

Section tools.
(** What call number [i], on target [t], ends with, and after how long. *)
Context (call : nat → string → Z * res exn json).

Definition run_on_all (f : Fleet) (method : string) (targets tags : option (list string))
    : res exn (list (string * FanOutEntry)) :=
  if decide (method ∈ FANOUT) then
    gather (imap (λ i t, (t, one (call i t).2)) (select f targets tags)) []
  else Raise unknown_method.

(** [asyncio.wait_for(c, timeout)] *)
Definition wait_for (timeout : Z) (c : Z * res exn json) : res exn json :=
  if timeout <? c.1 then Raise (EOS TimeoutError "") else c.2.
Definition barrier_timeout (name : string) (timeout : Z) : FanOutEntry :=
  error_entry (JObj [("code", JNum (-32002));
                     ("data", JObj [("target", JStr name); ("timeout_s", JNum timeout)])]).
Definition barrier_one (timeout : Z) (i : nat) (name : string) : res exn FanOutEntry :=
  match wait_for timeout (call i name) with
  | Raise (EOS TimeoutError _) => Ret (barrier_timeout name timeout)
  | r => one r
  end.
Definition barrier (f : Fleet) (method : string) (targets : option (list string))
    (timeout : Z) (tags : option (list string)) : res exn (list (string * FanOutEntry)) :=
  if decide (method ∈ FANOUT) then
    gather (imap (λ i t, (t, barrier_one timeout i t)) (select f targets tags)) []
  else Raise unknown_method.

(** ** quorum_run *)

(** One turn of the wait: the deadline has passed, or [asyncio.wait] reports
    the tasks in the list as done (in the set's iteration order). *)
Inductive event := Elapsed | Done (ts : list nat).
Record qstate := QState {
  tasks : list (nat * string);
  results : list (string * FanOutEntry);
  ok_count : Z }.

(** The [for t in done] loop. *)
Fixpoint collect (done : list (nat * string)) (s : qstate) : res exn qstate :=
  match done with
  | [] => Ret s
  | (i, name) :: done =>
      match one (call i name).2 with
      | Ret e => collect done
          (QState (filter (λ t, t.1 ≠ i) (tasks s)) (dict_set name e (results s))
                  (if is_ok e then ok_count s + 1 else ok_count s))
      | Raise x => Raise x
      | Spin => Spin
      end
  end.
(** The tasks named by an event, among those still pending. *)
Definition reported_done (ts : list nat) (s : qstate) : list (nat * string) :=
  ts ≫= λ i, filter (λ t, t.1 = i) (tasks s).
Fixpoint quorum_loop (quorum : Z) (events : list event) (s : qstate) : res exn qstate :=
  if (if tasks s is [] then true else false) || (quorum <=? ok_count s) then Ret s
  else match events with
       | [] | Elapsed :: _ => Ret s
       | Done ts :: events =>
           match reported_done (remove_dups ts) s with
           | [] => Ret s
           | d => match collect d s with
                  | Ret s => quorum_loop quorum events s
                  | r => r
                  end
           end
       end.
Definition cancelled_entry (name : string) : FanOutEntry :=
  error_entry (JObj [("code", JNum (-32002)); ("data", JObj [("target", JStr name)])]).
(** The entries for tasks that were cancelled. *)
Fixpoint fill (ts : list (nat * string)) (r : list (string * FanOutEntry)) :=
  match ts with
  | [] => r
  | (_, name) :: ts =>
      fill ts (if assoc name r is Some _ then r else dict_set name (cancelled_entry name) r)
  end.

Definition start (ts : list string) : qstate := QState (imap (λ i t, (i, t)) ts) [] 0.
Definition quorum_run (f : Fleet) (method : string) (quorum : Z)
    (targets tags : option (list string)) (events : list event)
    : res exn (bool * list (string * FanOutEntry)) :=
  if decide (method ∈ FANOUT) then
    if quorum <=? 0 then Raise (ERpc InvalidParams None)
    else
      let ts := select f targets tags in
      if Z.of_nat (length ts) <? quorum
      then Raise (ERpc InvalidParams (Some (JObj [("targets", JArr (JStr <$> ts))])))
      else match quorum_loop quorum events (start ts) with
           | Ret s => Ret (quorum <=? ok_count s, fill (tasks s) (results s))
           | Raise x => Raise x
           | Spin => Spin
           end
  else Raise unknown_method.
End tools.

(* ------------------------------------------------------------------ *)
(** ** Lemmas *)

Lemma assoc_dict_set_fresh {A} k (v : A) d : k ∉ d.*1 → dict_set k v d = d ++ [(k, v)].
Proof. intros Hk. apply dict_set_fresh. by apply assoc_None. Qed.

(** Gathering calls that all end, on distinct targets. *)
Lemma gather_all (g : nat → string → res exn FanOutEntry) (h : nat → string → FanOutEntry) ts acc :
  (∀ i t, g i t = Ret (h i t)) → NoDup (acc.*1 ++ ts) →
  gather (imap (λ i t, (t, g i t)) ts) acc = Ret (acc ++ imap (λ i t, (t, h i t)) ts).
Proof.
  revert g h acc. induction ts as [|t ts IH]; intros g h acc Hg Hnd; csimpl.
  { by rewrite app_nil_r. }
  rewrite Hg, assoc_dict_set_fresh.
  2:{ apply NoDup_app in Hnd as (_ & Hd & _). intros Hin. apply (Hd t Hin). by left. }
  rewrite (IH (g ∘ S) (h ∘ S)); [by rewrite <- (assoc_L (++))|intros; apply Hg|].
  rewrite fmap_app. simpl. by rewrite <- (assoc_L (++)).
Qed.
Lemma imap_keys {A} (h : nat → string → A) ts : (imap (λ i t, (t, h i t)) ts).*1 = ts.
Proof. revert h. induction ts as [|t ts IH]; intros h; csimpl; [done|]. f_equal. apply (IH (h ∘ S)). Qed.

(** A call that ends, by value or by exception, and is not cancelled. *)
Definition ends (r : res exn json) : Prop := r ≠ Spin ∧ r ≠ Raise ECancelled.
Lemma one_ends r : ends r → ∃ e, one r = Ret e.
Proof.
  intros [Hs Hc]. destruct r as [v|x|]; [by eexists| |done].
  destruct x; simpl; (done || by eexists).
Qed.
Definition entry_of (r : res exn FanOutEntry) : FanOutEntry :=
  match r with Ret e => e | _ => {| ok := None; error := None |} end.

Lemma filter_id {A} (P : A → Prop) `{∀ x, Decision (P x)} l : Forall P l → filter P l = l.
Proof. induction 1; [done|]. rewrite filter_cons_True by done. by f_equal. Qed.

Section properties.
Context (call : nat → string → Z * res exn json).

(** [run_on_all] never raises early: on distinct targets it returns one
    entry per target, in order, each saying what that target's call ended
    with -- the value, the JSON-RPC error, or an internal error. *)
Theorem run_on_all_entries f method ts tags :
  method ∈ FANOUT → NoDup ts → (∀ i t, ends (call i t).2) →
  ∃ r, run_on_all call f method (Some ts) tags = Ret r ∧ r.*1 = ts ∧
    ∀ i t, ts !! i = Some t → ∃ e, r !! i = Some (t, e) ∧ one (call i t).2 = Ret e.
Proof.
  intros Hm Hnd He. unfold run_on_all. rewrite decide_True by done. simpl.
  set (h := λ i t, entry_of (one (call i t).2)).
  assert (∀ i t, one (call i t).2 = Ret (h i t)) as Hh.
  { intros i t. unfold h. by destruct (one_ends _ (He i t)) as [e ->]. }
  rewrite (gather_all _ h) by done. eexists. split; [done|].
  split; [apply imap_keys|]. intros i t Hi. exists (h i t).
  split; [|apply Hh]. simpl. by rewrite list_lookup_imap, Hi.
Qed.

(** [barrier] is bounded per target: on distinct targets it returns one
    entry per target, a call longer than the limit is reported with code
    -32002 and its target, and every other entry is what [run_on_all] would
    report for the call (a [TimeoutError] of the call itself aside). *)
Theorem barrier_entries f method ts tags timeout :
  method ∈ FANOUT → NoDup ts → (∀ i t, ends (call i t).2) →
  ∃ r, barrier call f method (Some ts) timeout tags = Ret r ∧ r.*1 = ts ∧
    ∀ i t, ts !! i = Some t → ∃ e, r !! i = Some (t, e) ∧
      (timeout < (call i t).1 → e = barrier_timeout t timeout) ∧
      ((call i t).1 ≤ timeout → (∀ s, (call i t).2 ≠ Raise (EOS TimeoutError s)) →
       one (call i t).2 = Ret e).
Proof.
  intros Hm Hnd He. unfold barrier. rewrite decide_True by done. simpl.
  set (h := λ i t, entry_of (barrier_one call timeout i t)).
  assert (∀ i t, ∃ e, barrier_one call timeout i t = Ret e) as Hb.
  { intros i t. unfold barrier_one, wait_for. destruct (timeout <? (call i t).1); [by eexists|].
    destruct (one_ends _ (He i t)) as [e Hone].
    destruct (call i t).2 as [v|[]|]; simpl in *; try case_match; by eexists. }
  assert (∀ i t, barrier_one call timeout i t = Ret (h i t)) as Hh.
  { intros i t. unfold h. by destruct (Hb i t) as [e ->]. }
  rewrite (gather_all _ h) by done. eexists. split; [done|].
  split; [apply imap_keys|]. intros i t Hi. exists (h i t).
  split; [simpl; by rewrite list_lookup_imap, Hi|].
  specialize (Hh i t). unfold barrier_one, wait_for in Hh. split.
  - intros Hlt. rewrite (proj2 (Z.ltb_lt _ _) Hlt) in Hh. by injection Hh.
  - intros Hle Hnt. rewrite (proj2 (Z.ltb_ge _ _) Hle) in Hh. rewrite <- Hh.
    destruct (call i t).2 as [v|x|]; [done| |done].
    destruct x as [|cl s| | |]; try done. destruct cl; try done. by destruct (Hnt s).
Qed.

(** *** quorum_run *)

Definition oks (r : list (string * FanOutEntry)) : Z :=
  Z.of_nat (length (filter (λ ne, is_ok ne.2 = true) r)).
Lemma oks_app r1 r2 : oks (r1 ++ r2) = oks r1 + oks r2.
Proof. unfold oks. rewrite filter_app, length_app. lia. Qed.
Lemma oks_one n e : oks [(n, e)] = if is_ok e then 1 else 0.
Proof. unfold oks. rewrite filter_cons. simpl. by destruct (is_ok e). Qed.

(** Each target is either still running or has one entry, and [ok_count]
    counts the entries without an error. *)
Definition q_inv (ts : list string) (s : qstate) : Prop :=
  NoDup (tasks s).*1 ∧ (tasks s).*2 ++ (results s).*1 ≡ₚ ts ∧ ok_count s = oks (results s).

Lemma filter_out i name (l : list (nat * string)) : NoDup l.*1 → (i, name) ∈ l →
  l ≡ₚ (i, name) :: filter (λ t, t.1 ≠ i) l.
Proof.
  induction l as [|[j n] l IH]; csimpl; [set_solver|]. intros [Hj Hnd]%NoDup_cons Hin.
  rewrite filter_cons. simpl. destruct (decide (j ≠ i)) as [Hne|Heq%dec_stable].
  - apply elem_of_cons in Hin as [?|Hin]; [congruence|].
    rewrite (IH Hnd Hin) at 1. apply Permutation_swap.
  - subst j. apply elem_of_cons in Hin as [?|Hin]; simplify_eq.
    + rewrite filter_id; [done|]. apply Forall_forall. intros [k m] Hk; simpl; intros ->.
      destruct Hj. apply list_elem_of_fmap. by exists (i, m).
    + destruct Hj. apply list_elem_of_fmap. by exists (i, name).
Qed.

Lemma collect_inv ts done s :
  NoDup ts → NoDup done.*1 → done ⊆ tasks s → q_inv ts s →
  match collect call done s with Ret s' => q_inv ts s' | _ => True end.
Proof.
  intros Hts. revert s. induction done as [|[i name] done IH]; intros s Hnd Hsub Hinv; [done|].
  csimpl in *. apply NoDup_cons in Hnd as [Hi Hnd].
  destruct (one (call i name).2) as [e|x|]; [|done..].
  destruct Hinv as (Ht & Hperm & Hcount).
  pose proof (filter_out i name (tasks s) Ht ltac:(set_solver)) as Hout.
  assert (name ∉ (results s).*1) as Hfresh.
  { intros Hin. rewrite <- Hperm in Hts. apply NoDup_app in Hts as (_ & Hd & _).
    apply (Hd name); [|done]. apply list_elem_of_fmap. exists (i, name). set_solver. }
  apply IH; [done| |split_and!].
  - intros t Hin. apply list_elem_of_filter. split; [|set_solver].
    intros <-. apply Hi, list_elem_of_fmap. by eexists.
  - rewrite Hout in Ht. simpl in *. by apply NoDup_cons in Ht as [_ ?].
  - simpl. rewrite assoc_dict_set_fresh, fmap_app by done. rewrite <- Hperm.
    rewrite Hout at 2. simpl. rewrite (assoc_L (++)), <- Permutation_cons_append. done.
  - simpl. rewrite assoc_dict_set_fresh, oks_app, oks_one by done. destruct (is_ok e); lia.
Qed.

Lemma reported_done_sub rs s : reported_done rs s ⊆ tasks s.
Proof.
  intros t. unfold reported_done. rewrite list_elem_of_bind. intros (i & Ht & _).
  by apply list_elem_of_filter in Ht as [_ ?].
Qed.
Lemma reported_done_nodup rs s : NoDup rs → NoDup (tasks s).*1 → NoDup (reported_done rs s).*1.
Proof.
  intros Hrs Hnd. induction rs as [|i rs IH]; [constructor|].
  apply NoDup_cons in Hrs as [Hi Hrs]. unfold reported_done in *. csimpl. rewrite fmap_app.
  apply NoDup_app. split_and!; [|intros j|by apply IH].
  - clear -Hnd. induction (tasks s) as [|[j n] l IH]; csimpl in *; [constructor|].
    apply NoDup_cons in Hnd as [Hj Hnd]. rewrite filter_cons. simpl. case_decide; [|auto].
    csimpl. apply NoDup_cons. split; [|auto]. intros ([? ?] & ? & Hin)%list_elem_of_fmap.
    simplify_eq/=. apply Hj, list_elem_of_fmap. eexists. split; [|by apply list_elem_of_filter in Hin as [_ ?]].
    done.
  - intros (t & -> & Ht)%list_elem_of_fmap (t' & Heq & Ht')%list_elem_of_fmap.
    apply list_elem_of_filter in Ht as [<- _].
    apply list_elem_of_bind in Ht' as (k & Ht' & Hk).
    apply list_elem_of_filter in Ht' as [<- _]. congruence.
Qed.

Lemma quorum_loop_inv quorum events ts s : NoDup ts → q_inv ts s →
  match quorum_loop call quorum events s with Ret s' => q_inv ts s' | _ => True end.
Proof.
  intros Hts. revert s. induction events as [|ev events IH]; intros s Hinv; cbn [quorum_loop].
  { by destruct (_ || _). }
  destruct (_ || _); [done|]. destruct ev as [|rs]; [done|].
  pose proof (collect_inv ts (reported_done (remove_dups rs) s) s Hts) as Hc.
  destruct (reported_done (remove_dups rs) s) as [|d ds] eqn:Hd; [done|].
  assert (match collect call (d :: ds) s with Ret s' => q_inv ts s' | _ => True end) as Hc'.
  { apply Hc; [|rewrite <- Hd; apply reported_done_sub|done]. rewrite <- Hd.
    apply reported_done_nodup; [apply NoDup_remove_dups|apply Hinv]. }
  destruct (collect call (d :: ds) s) as [s'|x|]; [|done..]. by apply IH.
Qed.

Lemma fill_spec ts r : NoDup (ts.*2 ++ r.*1) →
  (fill ts r).*1 ≡ₚ ts.*2 ++ r.*1 ∧ oks (fill ts r) = oks r ∧
  ∀ n e, assoc n r = Some e → assoc n (fill ts r) = Some e.
Proof.
  revert r. induction ts as [|[i n] ts IH]; intros r Hnd; csimpl in *; [done|].
  apply NoDup_cons in Hnd as [Hn Hnd].
  assert (n ∉ r.*1) as Hr by set_solver.
  rewrite (proj2 (assoc_None n r) Hr), assoc_dict_set_fresh by done.
  destruct (IH (r ++ [(n, cancelled_entry n)])) as (Hp & Ho & Ha).
  { rewrite fmap_app. simpl. rewrite (assoc_L (++)).
    rewrite <- Permutation_cons_append. by apply NoDup_cons. }
  split_and!.
  - rewrite Hp, fmap_app. simpl. by rewrite (assoc_L (++)), <- Permutation_cons_append.
  - rewrite Ho, oks_app, oks_one. simpl. lia.
  - intros m e Hm. apply Ha. by rewrite assoc_app, Hm.
Qed.
Lemma imap_pairs (f : nat → nat) (ts : list string) :
  (imap (λ i t, (f i, t)) ts).*1 = f <$> seq 0 (length ts) ∧
  (imap (λ i t, (f i, t)) ts).*2 = ts.
Proof.
  revert f. induction ts as [|t ts IH]; intros f; csimpl; [done|].
  destruct (IH (f ∘ S)) as [H1 H2]. rewrite <- fmap_S_seq, <- list_fmap_compose.
  split; f_equal; [exact H1|exact H2].
Qed.
Lemma start_inv ts : q_inv ts (start ts).
Proof.
  destruct (imap_pairs (λ i, i) ts) as [H1 H2]. split_and!; [| |done]; simpl.
  - rewrite H1. apply NoDup_fmap_2; [by intros ??|apply NoDup_seq].
  - by rewrite H2, app_nil_r.
Qed.

(** when [quorum_run] returns, every one of the (distinct) targets has
    exactly one entry -- the result of a call that ended in time or a
    cancellation -- and [reached] says truthfully whether at least [quorum]
    targets answered without an error, however completions were grouped. *)
Theorem quorum_run_honest f method quorum ts tags events reached r :
  NoDup ts → quorum_run call f method quorum (Some ts) tags events = Ret (reached, r) →
  r.*1 ≡ₚ ts ∧ (reached = true ↔ quorum ≤ oks r) ∧ 0 < quorum ≤ Z.of_nat (length ts).
Proof.
  intros Hts. unfold quorum_run. simpl. case_decide as Hm; [|done].
  destruct (quorum <=? 0) eqn:Hq0; [done|].
  destruct (Z.of_nat (length ts) <? quorum) eqn:Hlen; [done|].
  pose proof (quorum_loop_inv quorum events ts (start ts) Hts (start_inv ts)) as Hinv.
  destruct (quorum_loop call quorum events (start ts)) as [s|x|]; [|done..].
  intros [= <- <-]. destruct Hinv as (_ & Hperm & Hcount).
  destruct (fill_spec (tasks s) (results s)) as (Hp & Ho & _); [by rewrite Hperm|].
  split_and!; [by rewrite Hp| |lia|lia].
  rewrite Ho, <- Hcount. by rewrite Z.leb_le.
Qed.
End properties.

(** Five targets of which two fail: a quorum of three is reached before the
    last one is done. *)
Definition ex_call (i : nat) (t : string) : Z * res exn json :=
  if decide (i < 2)%nat then (10, Raise (ERpc TargetError None)) else (20, Ret (JStr t)).
Definition ex_ts : list string := ["a"; "b"; "c"; "d"; "e"].
Definition q_summary (q : res exn (bool * list (string * FanOutEntry)))
    : option (bool * list (string * bool)) :=
  match q with
  | Ret (b, r) => Some (b, map (λ ne, (ne.1, is_ok ne.2)) r)
  | _ => None
  end.
Example quorum_run_ex :
  q_summary (quorum_run ex_call (Fleet_init ex_config) "sys.version" 3 (Some ex_ts) None
               [Done [1%nat]; Done [3; 2]%nat; Done [4%nat]; Done [0%nat]])
  = Some (true, [("b", false); ("d", true); ("c", true); ("e", true); ("a", false)]).
Proof. vm_compute. reflexivity. Qed.

Lemma ex_ts_distinct : NoDup ex_ts.
Proof. apply (bool_decide_unpack (NoDup ex_ts)). vm_compute. exact I. Qed.
Lemma ex_call_ends i t : ends (ex_call i t).2.
Proof. unfold ex_call, ends. by destruct (decide (i < 2)%nat). Qed.

Lemma run_on_all_entries_witness :
  ∃ r, run_on_all ex_call (Fleet_init ex_config) "sys.version" (Some ex_ts) None = Ret r ∧
       r.*1 = ex_ts ∧ r !! 4%nat = Some ("e", ok_entry (JStr "e")).
Proof.
  destruct (run_on_all_entries ex_call (Fleet_init ex_config) "sys.version" ex_ts None)
    as (r & H1 & H2 & _).
  - unfold FANOUT. set_solver.
  - apply ex_ts_distinct.
  - apply ex_call_ends.
  - exists r. split; [exact H1|]. split; [exact H2|]. injection H1 as <-. reflexivity.
Defined.
Lemma barrier_entries_witness :
  ∃ r, barrier ex_call (Fleet_init ex_config) "sys.version" (Some ex_ts) 15 None = Ret r ∧
       r.*1 = ex_ts ∧ ∃ e, r !! 2%nat = Some ("c", e) ∧ e = barrier_timeout "c" 15.
Proof.
  destruct (barrier_entries ex_call (Fleet_init ex_config) "sys.version" ex_ts None 15)
    as (r & H1 & H2 & H3).
  - unfold FANOUT. set_solver.
  - apply ex_ts_distinct.
  - apply ex_call_ends.
  - exists r. split; [exact H1|]. split; [exact H2|].
    destruct (H3 2%nat "c" eq_refl) as (e & He & Hslow & _). exists e. split; [exact He|].
    apply Hslow. vm_compute. reflexivity.
Defined.
Lemma quorum_run_honest_witness :
  ∃ r, quorum_run ex_call (Fleet_init ex_config) "sys.version" 3 (Some ex_ts) None
         [Done [2%nat]; Done [0; 3]%nat; Elapsed] = Ret (false, r) ∧
       r.*1 ≡ₚ ex_ts ∧ (false = true ↔ 3 ≤ oks r).
Proof.
  eexists. split; [vm_compute; reflexivity|].
  destruct (quorum_run_honest ex_call (Fleet_init ex_config) "sys.version" 3 ex_ts None
    [Done [2%nat]; Done [0; 3]%nat; Elapsed] false _ ex_ts_distinct eq_refl) as (H1 & H2 & _).
  split; [exact H1|exact H2].
Defined.

(** A target named twice answers twice: the quorum is counted in calls. *)
Example quorum_counts_calls :
  q_summary (quorum_run (λ _ t, (0, Ret (JStr t))) (Fleet_init ex_config) "sys.version" 2
               (Some ["sam"; "sam"]) None [Done [0; 1]%nat])
  = Some (true, [("sam", true)]).
Proof. vm_compute. reflexivity. Qed.
