(* ===== verification/Fs.v ===== *)
(** * File transfer: [tools/fs.py] and [upload.py]

    The [fs.*] calls, chunked upload and download with retries and resume,
    and the [fs.upload] / [fs.download] wrappers.  They are written against
    [Rpc], and their theorems proved against [FileService]: what a daemon's
    file methods promise.  [Daemon.v] shows that the daemon keeps it. *)
From S2P Require Import Prelude Py Bytes.

(* ------------------------------------------------------------------ *)
(** ** The services used *)

(** [fleet.mcpd(target).request(method, params, timeout)] and
    [asyncio.sleep]. *)
Class Rpc (S : Type) := {
  call : string → string → json → Z → M S exn json;
  pause : Z → M S exn unit }.

(** The host's own files beside the service's state. *)
Record host (S : Type) := Host { lfs : gmap string bytes; svc : S }.
Arguments Host {S}. Arguments lfs {S}. Arguments svc {S}.

Inductive compression := CNone | CZlib | CAuto.

(** [FsWriteChunkResult], [FsReadResult] and [FsHashResult], validated: a
    missing field or one of another type is a [ValidationError].  (The
    coercions of pydantic's lax mode are not modelled.) *)
Definition need_int (k : string) (j : json) : res exn Z :=
  match jget k j with Some (JNum z) => Ret z | _ => Raise (EPy ValidationError) end.
Definition need_str (k : string) (j : json) : res exn string :=
  match jget k j with Some (JStr s) => Ret s | _ => Raise (EPy ValidationError) end.

Record FsWriteChunkResult := {
  wc_path : string; wc_offset : Z; written : Z; total_so_far : Z }.
Record StatResult := { st_name : string; st_type : string; st_size : Z }.
Record FsHashResult := { h_path : string; algo : string; hash : string; h_size : Z }.

(** [UploadStats] and [DownloadStats]; elapsed times are not modelled. *)
Record UploadStats := {
  bytes_total : Z;
  bytes_sent_compressed : Z;
  chunks : Z;
  compressed_chunks : Z }.
Record DownloadStats := { d_bytes_total : Z; d_chunks : Z }.

Definition DEFAULT_CHUNK_RAW : Z := 24 * 1024 * 1024.
Definition DEFAULT_READ_RAW : Z := 24 * 1024 * 1024.

Definition opt_param (k : string) (v : option json) : list (string * json) :=
  match v with Some j => [(k, j)] | None => [] end.
Definition chunk_params (path : string) (offset : Z) (content_b64 : text) (zlib : bool)
    (raw_size : option Z) (truncate : option bool) (total_size : option Z) : json :=
  JObj ([("path", JStr path); ("offset", JNum offset); ("content_b64", JStr (str content_b64))] ++
        opt_param "compression" (if zlib then Some (JStr "zlib") else None) ++
        opt_param "raw_size" (JNum <$> raw_size) ++
        opt_param "truncate" (JBool <$> truncate) ++
        opt_param "total_size" (JNum <$> total_size)).
Definition read_params (path : string) (offset length : option Z) : json :=
  JObj ([("path", JStr path)] ++ opt_param "offset" (JNum <$> offset) ++
        opt_param "length" (JNum <$> length)).

Section tools.
Context {S : Type} `{Rpc S}.
(** [zlib.compress(raw, 6)] and [hashlib.sha256(b).hexdigest()]. *)
Context (compress : bytes → bytes) (sha256 : bytes → string).

Abbreviation MH := (M (host S) exn).
Definition on_svc {A} (m : M S exn A) : MH A := λ h,
  let '(r, s) := m (svc h) in (r, Host (lfs h) s).

Definition fs_write_chunk (target path : string) (offset : Z) (content_b64 : text) (zlib : bool)
    (raw_size : option Z) (truncate : option bool) (total_size : option Z)
    : M S exn FsWriteChunkResult :=
  raw ← call target "fs.write_chunk"
          (chunk_params path offset content_b64 zlib raw_size truncate total_size) 300000;
  p ← lift (need_str "path" raw);
  o ← lift (need_int "offset" raw);
  w ← lift (need_int "written" raw);
  t ← lift (need_int "total_so_far" raw);
  mret {| wc_path := p; wc_offset := o; written := w; total_so_far := t |}.
Definition fs_stat (target path : string) : M S exn StatResult :=
  raw ← call target "fs.stat" (JObj [("path", JStr path)]) 30000;
  n ← lift (need_str "name" raw);
  ty ← lift (need_str "type" raw);
  (if bool_decide (ty ∈ ["file"; "dir"]) then mret tt else raise (EPy ValidationError));;
  sz ← lift (match jget "size" raw with
             | None => Ret 0
             | Some (JNum z) => Ret z
             | Some _ => Raise (EPy ValidationError)
             end);
  (match jget "modified" raw with
   | None | Some JNull | Some (JStr _) => mret tt
   | Some _ => raise (EPy ValidationError)
   end);;
  mret {| st_name := n; st_type := ty; st_size := sz |}.
Definition fs_hash (target path alg : string) : M S exn FsHashResult :=
  raw ← call target "fs.hash" (JObj [("path", JStr path); ("algo", JStr alg)]) 120000;
  p ← lift (need_str "path" raw);
  a ← lift (need_str "algo" raw);
  h ← lift (need_str "hash" raw);
  n ← lift (need_int "size" raw);
  mret {| h_path := p; algo := a; hash := h; h_size := n |}.

(** [for attempt in range(retries + 1)] around one call: any [Exception] is
    kept for the report and followed by a growing pause; [None] says that
    every attempt failed. *)
Fixpoint retrying {A} (m : M S exn A) (attempt more : nat) : M S exn (option A) :=
  r ← catch (Some <$> m) (λ e, if is_exception e then mret None else raise e);
  match r with
  | Some a => mret (Some a)
  | None =>
      match more with
      | O => mret None
      | Datatypes.S more =>
          pause (500 * (Z.of_nat attempt + 1));;
          retrying m (Datatypes.S attempt) more
      end
  end.

(** *** chunked_upload *)

(** [fh.read(n)] at a position: everything for a negative [n]. *)
Definition read_at (n : Z) (rest : bytes) : bytes * bytes :=
  if n <? 0 then (rest, []) else (take (Z.to_nat n) rest, drop (Z.to_nat n) rest).
(** The compression decision: payload, and whether it is compressed.  For a
    file of less than 2^53 bytes [int(n * 0.95)] is [n * 19 // 20]. *)
Definition pick (c : compression) (raw : bytes) : bytes * bool :=
  match c with
  | CNone => (raw, false)
  | CZlib => (compress raw, true)
  | CAuto =>
      let cand := compress raw in
      if Z.of_nat (length cand) <=? Z.of_nat (length raw) * 19 / 20
      then (cand, true) else (raw, false)
  end.
Definition send_chunk (target remote : string) (c : compression) (retries : nat)
    (total : option Z) (raw : bytes) (offset : Z) : M S exn (option FsWriteChunkResult) :=
  let '(payload, zlib) := pick c raw in
  retrying (fs_write_chunk target remote offset (py_b64encode payload) zlib
              (if zlib then Some (Z.of_nat (length raw)) else None) None total) 0 retries.
Definition count (c : compression) (raw : bytes) (st : UploadStats) : UploadStats :=
  let '(payload, zlib) := pick c raw in
  {| bytes_total := bytes_total st;
     bytes_sent_compressed := bytes_sent_compressed st + Z.of_nat (length payload);
     chunks := chunks st + 1;
     compressed_chunks := compressed_chunks st + (if zlib then 1 else 0) |}.

(** The [while True] loop: [rest] is what [fh] has left. *)
Fixpoint upload_loop (fuel : nat) (target remote : string) (chunk_size : Z) (c : compression)
    (retries : nat) (hint : bool) (rest : bytes) (offset : Z) (first : bool) (st : UploadStats)
    : M S exn UploadStats :=
  match fuel with
  | O => spin
  | Datatypes.S fuel =>
      let '(raw, rest) := read_at chunk_size rest in
      match raw with
      | [] => mret st
      | _ =>
          r ← send_chunk target remote c retries
                (if first && hint then Some (bytes_total st) else None) raw offset;
          match r with
          | None => raise (EPy RuntimeError)
          | Some _ =>
              upload_loop fuel target remote chunk_size c retries hint rest
                (offset + Z.of_nat (length raw)) false (count c raw st)
          end
      end
  end.
Definition stats0 (total : Z) : UploadStats :=
  {| bytes_total := total; bytes_sent_compressed := 0; chunks := 0; compressed_chunks := 0 |}.
Definition chunked_upload (target local remote : string) (chunk_size : Z) (c : compression)
    (retries : nat) (resume_from : Z) (hint : bool) : MH UploadStats :=
  h ← get;
  match lfs h !! local with
  | None => raise (EOS FileNotFoundError "")
  | Some data =>
      let rest := if 0 <? resume_from then drop (Z.to_nat resume_from) data else data in
      on_svc (upload_loop (Datatypes.S (length rest)) target remote chunk_size c retries hint rest
                resume_from (resume_from =? 0) (stats0 (Z.of_nat (length data))))
  end.

(** *** chunked_download *)

Definition append_local (local : string) (b : bytes) : MH unit :=
  modify (λ h, Host (<[local := default [] (lfs h !! local) ++ b]> (lfs h)) (svc h)).
(** [base64.b64decode(raw["content_b64"])] *)
Definition payload_of (raw : json) : res exn bytes :=
  match jget "content_b64" raw with
  | None => Raise (EPy (if raw is JObj _ then KeyError else TypeError))
  | Some (JStr s) => match py_b64decode (txt s) with
                     | Some b => Ret b
                     | None => Raise (EPy ValueError)
                     end
  | Some _ => Raise (EPy TypeError)
  end.
Fixpoint download_loop (fuel : nat) (target remote local : string) (chunk_size : Z)
    (retries : nat) (total offset n : Z) : MH Z :=
  match fuel with
  | O => spin
  | Datatypes.S fuel =>
      if total <=? offset then mret n
      else
        r ← on_svc (retrying (call target "fs.read"
               (read_params remote (Some offset) (Some (Z.min chunk_size (total - offset)))) 120000)
               0 retries);
        match r with
        | None => raise (EPy RuntimeError)
        | Some raw =>
            payload ← lift (payload_of raw);
            append_local local payload;;
            if Z.of_nat (length payload) =? 0 then mret (n + 1)
            else download_loop fuel target remote local chunk_size retries total
                   (offset + Z.of_nat (length payload)) (n + 1)
        end
  end.
(** [int(stat_raw["size"])] *)
Definition size_of (raw : json) : res exn Z :=
  match jget "size" raw with
  | Some v => py_int v
  | None => Raise (EPy (if raw is JObj _ then KeyError else TypeError))
  end.
Definition chunked_download (target remote local : string) (chunk_size : Z) (retries : nat)
    (resume_from : Z) : MH DownloadStats :=
  raw ← on_svc (call target "fs.stat" (JObj [("path", JStr remote)]) 30000);
  total ← lift (size_of raw);
  (if 0 <? resume_from then append_local local []
   else modify (λ h, Host (<[local := []]> (lfs h)) (svc h)));;
  n ← download_loop (Datatypes.S (Z.to_nat (total - resume_from))) target remote local chunk_size
        retries total resume_from 0;
  mret {| d_bytes_total := total; d_chunks := n |}.

(** *** fs.upload and fs.download *)

Record UploadResult := {
  up_stats : UploadStats; resumed_from : Z; sha256_verified : bool; up_sha256 : option string }.
Definition lower_text (s : string) : text := map lower (txt s).
(** [remote_hash.hash.lower() != sha.lower()] *)
Definition verify_hash (target remote local : string) : MH string :=
  h ← get;
  match lfs h !! local with
  | None => raise (EOS FileNotFoundError "")
  | Some data =>
      let sha := sha256 data in
      r ← on_svc (fs_hash target remote "sha256");
      if bool_decide (lower_text (hash r) = lower_text sha) then mret sha
      else raise (EPy RuntimeError)
  end.
(** The [resume] probe: the remote size, [None] when there is nothing to
    resume or [fs.stat] fails. *)
Definition probe (target remote : string) (resume : bool) : MH (option Z) :=
  if resume then
    catch (st ← on_svc (fs_stat target remote); mret (Some (st_size st)))
          (λ e, if is_exception e then mret None else raise e)
  else mret None.
Definition verified (target remote local : string) (verify : bool) : MH (option string) :=
  if verify then Some <$> verify_hash target remote local else mret None.
Definition fs_upload (target local remote : string) (chunk_size : Z) (c : compression)
    (verify resume : bool) : MH UploadResult :=
  h ← get;
  match lfs h !! local with
  | None => raise (EOS FileNotFoundError "")
  | Some data =>
      let total := Z.of_nat (length data) in
      found ← probe target remote resume;
      let resume_from := default 0 found in
      if bool_decide (is_Some found) && (total <=? resume_from) then
        mret {| up_stats := stats0 total; resumed_from := resume_from;
                sha256_verified := false; up_sha256 := None |}
      else
        st ← chunked_upload target local remote chunk_size c 2 resume_from true;
        sha ← verified target remote local verify;
        mret {| up_stats := st; resumed_from := resume_from;
                sha256_verified := verify; up_sha256 := sha |}
  end.
Definition fs_download (target remote local : string) (chunk_size : Z) (verify resume : bool)
    : MH (DownloadStats * Z * option string) :=
  h ← get;
  let resume_from := if resume then default 0 (Z.of_nat <$> (length <$> lfs h !! local)) else 0 in
  st ← chunked_download target remote local chunk_size 2 resume_from;
  sha ← verified target remote local verify;
  mret (st, resume_from, sha).
End tools.

(* ------------------------------------------------------------------ *)
(** ** What a file service promises *)

(** [data] written over [c] from byte [off] on. *)
Definition splice (c : bytes) (off : nat) (data : bytes) : bytes :=
  take off c ++ data ++ drop (off + length data) c.
(** A chunk at offset 0 replaces the file; a later one is written over a file
    that reaches that far. *)
Definition stored (off : Z) (data : bytes) (old new : option bytes) : Prop :=
  if off =? 0 then new = Some data
  else ∀ c, old = Some c → off ≤ Z.of_nat (length c) → new = Some (splice c (Z.to_nat off) data).

(** The contract of the daemon's file methods as the transfer code relies on
    it: a chunk that is acknowledged is stored, a chunk that fails has stored
    none, some or all of itself and harmed nothing else; reading, [fs.stat]
    and [fs.hash] tell the truth and change nothing; every call ends. *)
Class FileService (S : Type) `{Rpc S} (compress : bytes → bytes) (sha256 : bytes → string) := {
  file : string → string → S → option bytes;
  chunk_law t p off raw (zlib : bool) total s : 0 ≤ off →
    let payload := if zlib then compress raw else raw in
    let size := if zlib then Some (Z.of_nat (length raw)) else None in
    let '(r, s') := call t "fs.write_chunk"
      (chunk_params p off (py_b64encode payload) zlib size None total) 300000 s in
    (∀ t' p', (t', p') ≠ (t, p) → file t' p' s' = file t' p' s) ∧
    match r with
    | Ret _ => stored off raw (file t p s) (file t p s')
    | Raise _ => file t p s' = file t p s ∨
                 ∃ k, stored off (take k raw) (file t p s) (file t p s')
    | Spin => False
    end;
  read_law t p off len s : 0 ≤ off → 0 ≤ len →
    let '(r, s') := call t "fs.read" (read_params p (Some off) (Some len)) 120000 s in
    (∀ t' p', file t' p' s' = file t' p' s) ∧
    match r with
    | Ret j => ∃ c b, file t p s = Some c ∧
        jget "content_b64" j = Some (JStr (str (py_b64encode b))) ∧
        let slice := take (Z.to_nat len) (drop (Z.to_nat off) c) in
        b `prefix_of` slice ∧ (b = [] → slice = [])
    | Raise _ => True
    | Spin => False
    end;
  stat_law t p s :
    let '(r, s') := call t "fs.stat" (JObj [("path", JStr p)]) 30000 s in
    (∀ t' p', file t' p' s' = file t' p' s) ∧
    match r with
    | Ret j => match file t p s with
               | Some c => jget "size" j = Some (JNum (Z.of_nat (length c)))
               | None => jget "size" j = None ∨ jget "size" j = Some (JNum 0)
               end
    | Raise _ => True
    | Spin => False
    end;
  hash_law t p s :
    let '(r, s') := call t "fs.hash"
      (JObj [("path", JStr p); ("algo", JStr "sha256")]) 120000 s in
    (∀ t' p', file t' p' s' = file t' p' s) ∧
    match r with
    | Ret j => ∀ c, file t p s = Some c → jget "hash" j = Some (JStr (sha256 c))
    | Raise _ => True
    | Spin => False
    end;
  pause_law n s : ∃ r s', pause n s = (r, s') ∧ r ≠ Spin ∧
    ∀ t' p', file t' p' s' = file t' p' s }.

Section transfer.
Context {S : Type} `{FileService S compress sha256}.

Definition same_files : relation S := λ s s', ∀ t p, file t p s' = file t p s.
#[local] Instance same_files_preorder : PreOrder same_files.
Proof. split; [by intros ???|]. intros s1 s2 s3 H1 H2 t p. by rewrite H2, H1. Qed.
(** Everything but one file is as it was. *)
Definition others (t p : string) : relation S := λ s s',
  ∀ t' p', (t', p') ≠ (t, p) → file t' p' s' = file t' p' s.
#[local] Instance others_preorder t p : PreOrder (others t p).
Proof.
  split; [by intros ????|]. intros s1 s2 s3 H1 H2 t' p' Hne. by rewrite H2, H1.
Qed.

(** ** Retries *)

(** An invariant that every failed attempt and every pause keeps. *)
Lemma retrying_spec {A} (I : S → Prop) (Q : A → S → Prop) (m : M S exn A) a n s :
  (∀ s, I s → wp m (λ r s', match r with
                            | Ret x => Q x s'
                            | Raise _ => I s'
                            | Spin => False
                            end) s) →
  (∀ s s', same_files s s' → I s → I s') → I s →
  wp (retrying m a n) (λ r s', match r with
                               | Ret (Some x) => Q x s'
                               | Spin => False
                               | _ => I s'
                               end) s.
Proof.
  intros Hm Hsame. revert a s. induction n as [|n IH]; intros a s HI; cbn [retrying].
  all: apply wp_bind, wp_catch, wp_fmap; eapply wp_mono; [by apply Hm|].
  all: intros [x|e|] s1 HQ; [by apply wp_ret| |done].
  all: destruct (is_exception e); [|by apply wp_raise]; apply wp_ret.
  - by apply wp_ret.
  - apply wp_bind. unfold wp. destruct (pause_law (500 * (Z.of_nat a + 1)) s1)
      as (r & s2 & -> & Hr & Hs). simpl.
    assert (I s2) by (by eapply Hsame; [intros ??; apply Hs|]).
    destruct r as [[]|x|]; [|done..]. by apply IH.
Qed.

(** ** Upload *)

(** Writing the next bytes of [full] at [o] over a file that holds at least
    the first [o] of them. *)
Lemma splice_take (full raw : bytes) (o n k : nat) :
  raw `prefix_of` drop o full → (o ≤ n ≤ length full)%nat →
  splice (take n full) o (take k raw) = take (max n (o + length (take k raw))) full.
Proof.
  intros [tl Hraw] Hn. set (j := length (take k raw)).
  assert (take k raw = take j (drop o full)) as Hj.
  { unfold j. rewrite Hraw, length_take. rewrite take_app_le by lia.
    destruct (decide (k ≤ length raw)%nat); [by rewrite Nat.min_l by lia|].
    rewrite !take_ge by lia. done. }
  assert (j ≤ length full - o)%nat as Hlen.
  { rewrite <- length_drop, Hraw, length_app. unfold j. rewrite length_take. lia. }
  unfold splice. fold j. rewrite Hj, take_take, Nat.min_l by lia.
  destruct (decide (n ≤ o + j)%nat).
  - rewrite Nat.max_r, (drop_ge (take n full)), app_nil_r by (rewrite ?length_take; lia).
    by rewrite take_take_drop.
  - rewrite Nat.max_l by lia. rewrite (assoc_L (++)), take_take_drop.
    rewrite <- (take_drop (o + j) (take n full)) at 2. by rewrite take_take, Nat.min_l by lia.
Qed.

Section upload.
Context (target remote : string) (full : bytes).

(** The first [n] bytes of [full] are there. *)
Definition holds (n : nat) (s : S) : Prop := file target remote s = Some (take n full).
(** Before an attempt at byte [o]: what a failed attempt may have left. *)
Definition partial (old : option bytes) (o len : nat) (s : S) : Prop :=
  (o = 0%nat ∧ file target remote s = old) ∨ ∃ n, (o ≤ n ≤ o + len)%nat ∧ holds n s.

Lemma stored_partial old o raw s s' k :
  raw `prefix_of` drop o full → (o ≤ length full)%nat → partial old o (length raw) s →
  stored (Z.of_nat o) (take k raw) (file target remote s) (file target remote s') →
  partial old o (length raw) s' ∧ (length raw ≤ k → holds (o + length raw) s')%nat.
Proof.
  intros Hraw Ho Hp Hst. unfold stored in Hst.
  assert (o + length raw ≤ length full)%nat as Hlen.
  { destruct Hraw as [tl Htl]. apply (f_equal length) in Htl.
    rewrite length_drop, length_app in Htl. lia. }
  assert (length (take k raw) ≤ length raw)%nat as Hk by (rewrite length_take; lia).
  destruct (Z.eqb_spec (Z.of_nat o) 0) as [Ho0|Ho0].
  - assert (o = 0%nat) as -> by lia.
    assert (holds (length (take k raw)) s') as Hh.
    { unfold holds. rewrite Hst. f_equal. destruct Hraw as [tl Htl].
      rewrite drop_0 in Htl. rewrite Htl, length_take. destruct (decide (k ≤ length raw)%nat).
      - by rewrite Nat.min_l, take_app_le by lia.
      - rewrite Nat.min_r, (take_ge raw) by lia. by rewrite take_app_length. }
    split; [right; eexists; split; [|exact Hh]; lia|]. intros Hle.
    by rewrite (take_ge raw) in Hh by lia.
  - destruct Hp as [[? _]|(n & Hn & Hh)]; [lia|]. unfold holds in Hh.
    specialize (Hst _ Hh). rewrite length_take, Nat2Z.id, splice_take in Hst by (done || lia).
    specialize (Hst ltac:(lia)). split.
    + right. eexists. split; [|exact Hst]. lia.
    + intros Hle. unfold holds. rewrite Hst. rewrite (take_ge raw) by lia. do 2 f_equal. lia.
Qed.

(** One chunk, with its retries. *)
Lemma send_chunk_spec c retries total raw o old s :
  raw `prefix_of` drop o full → (o ≤ length full)%nat → partial old o (length raw) s →
  wp (send_chunk compress target remote c retries total raw (Z.of_nat o))
     (λ r s', others target remote s s' ∧
              match r with
              | Ret (Some _) => holds (o + length raw) s'
              | Spin => False
              | _ => partial old o (length raw) s'
              end) s.
Proof.
  intros Hraw Ho Hp. unfold send_chunk. destruct (pick compress c raw) as [payload zlib] eqn:Hpick.
  assert (payload = if zlib then compress raw else raw) as ->.
  { unfold pick in Hpick. destruct c; simplify_eq; [done..|]. by case_match; simplify_eq. }
  eapply wp_mono.
  - apply (retrying_spec
      (λ s', others target remote s s' ∧ partial old o (length raw) s')
      (λ _ s', others target remote s s' ∧ holds (o + length raw) s')).
    + intros s1 [Hs1 Hp1]. unfold fs_write_chunk. apply wp_bind.
      pose proof (chunk_law target remote (Z.of_nat o) raw zlib total s1 ltac:(lia)) as Hlaw.
      simpl in Hlaw. unfold wp at 1.
      destruct (call target "fs.write_chunk" _ _ s1) as [r s2]. simpl.
      destruct Hlaw as [Hoth Hr].
      assert (others target remote s s2) by (etrans; [exact Hs1|exact Hoth]).
      destruct r as [j|x|]; [| |done].
      * rewrite <- (take_ge raw (length raw)) in Hr by lia.
        destruct (stored_partial old o raw s1 s2 (length raw) Hraw Ho Hp1 Hr) as [Hp2 Hh].
        specialize (Hh ltac:(lia)).
        unfold need_str, need_int.
        destruct (jget "path" j) as [[]|], (jget "offset" j) as [[]|],
          (jget "written" j) as [[]|], (jget "total_so_far" j) as [[]|]; by split.
      * destruct Hr as [Hsame|[k Hr]].
        -- split; [done|]. unfold partial, holds in *. by rewrite Hsame.
        -- by destruct (stored_partial old o raw s1 s2 k Hraw Ho Hp1 Hr).
    + intros s1 s2 Hsame [Hs1 Hp1]. split.
      * intros t' p' Hne. rewrite (Hsame t' p'). by apply Hs1.
      * unfold partial, holds in *. by rewrite (Hsame target remote).
    + by split.
  - intros [[x|]|x|] s' Hq; [| | |done]; destruct Hq; by split.
Qed.

(** Chunks needed for [n] bytes. *)
Definition chunks_for (cs : Z) (n : nat) : Z := (Z.of_nat n + cs - 1) / cs.
Lemma chunks_for_nil cs : 0 < cs → chunks_for cs 0 = 0.
Proof. intros. unfold chunks_for. apply Z.div_small. lia. Qed.
Lemma chunks_for_step cs n : 0 < cs → (0 < n)%nat →
  chunks_for cs n = 1 + chunks_for cs (n - Z.to_nat cs).
Proof.
  intros. unfold chunks_for. destruct (Z.le_gt_cases cs (Z.of_nat n)).
  - rewrite Nat2Z.inj_sub, Z2Nat.id by lia.
    replace (Z.of_nat n + cs - 1) with ((Z.of_nat n - cs + cs - 1) + 1 * cs) by lia.
    rewrite Z.div_add by lia. lia.
  - replace (n - Z.to_nat cs)%nat with 0%nat by lia. simpl.
    rewrite (Z.div_small (cs - 1)) by lia.
    replace (Z.of_nat n + cs - 1) with ((Z.of_nat n - 1) + 1 * cs) by lia.
    rewrite Z.div_add, Z.div_small by lia. lia.
Qed.

(** What the loop leaves when it starts at byte [o]. *)
Definition upload_post (old : option bytes) (cs : Z) (o : nat) (st : UploadStats) (s : S)
    (r : res exn UploadStats) (s' : S) : Prop :=
  others target remote s s' ∧
  match r with
  | Ret st' =>
      (if decide (o = length full) then file target remote s' = file target remote s
       else holds (length full) s') ∧
      bytes_total st' = bytes_total st ∧
      chunks st' = chunks st + chunks_for cs (length full - o)
  | Raise _ => partial old o (length full - o) s'
  | Spin => False
  end.
Lemma partial_widen old o n len len' s : (o ≤ n)%nat → (n + len ≤ o + len')%nat →
  partial old n len s → partial old o len' s.
Proof.
  intros Hon Hlen [[-> Hs]|(m & Hm & Hs)].
  - left. split; [lia|done].
  - right. exists m. split; [lia|done].
Qed.

Lemma upload_loop_spec fuel cs c retries hint o first st old s :
  0 < cs → (length full - o < fuel)%nat → (o ≤ length full)%nat →
  (o = 0%nat ∧ file target remote s = old ∨ holds o s) →
  wp (upload_loop compress fuel target remote cs c retries hint (drop o full) (Z.of_nat o) first st)
     (upload_post old cs o st s) s.
Proof.
  intros Hcs. revert o first st s.
  induction fuel as [|fuel IH]; intros o first st s Hfuel Ho Hpre; [lia|]. cbn [upload_loop].
  unfold read_at. rewrite (proj2 (Z.ltb_ge cs 0)) by lia.
  set (n := Z.to_nat cs). set (raw := take n (drop o full)).
  assert (length raw = min n (length full - o)) as Hlr by (unfold raw; by rewrite length_take, length_drop).
  destruct raw as [|b raw'] eqn:Hraw.
  { apply wp_ret. assert (o = length full) as Heq by (simpl in Hlr; lia).
    split; [done|]. rewrite decide_True by done.
    rewrite Heq, Nat.sub_diag, chunks_for_nil by done. split_and!; [done..|lia]. }
  assert (0 < length raw)%nat as Hpos by (rewrite Hraw; simpl; lia).
  rewrite <- Hraw in *. clear Hraw b raw'.
  assert (raw `prefix_of` drop o full) as Hpre' by apply prefix_take.
  apply wp_bind. eapply wp_mono; [apply (send_chunk_spec c retries _ raw o old s Hpre' Ho)|].
  { destruct Hpre as [?|Hh]; [by left|]. right. exists o. split; [lia|done]. }
  intros [[x|]|x|] s1 [Hoth Hr]; [| | |done].
  - rewrite drop_drop.
    replace (Z.of_nat o + Z.of_nat (length raw)) with (Z.of_nat (o + length raw)) by lia.
    assert (drop (o + n) full = drop (o + length raw) full) as ->.
    { destruct (decide (n ≤ length full - o)%nat); [f_equal; lia|]. by rewrite !drop_ge by lia. }
    eapply wp_mono; [apply (IH (o + length raw)%nat); [lia|lia|by right]|].
    intros r s2 [Hoth2 Hr2]. split; [by etrans|].
    destruct r as [st'|x'|]; [| |done].
    + destruct Hr2 as (Hf & Hb & Hc). rewrite decide_False by lia.
      rewrite Hb, Hc, (chunks_for_step cs (length full - o)) by lia.
      split_and!.
      * destruct (decide (o + length raw = length full)%nat) as [Heq|]; [|done].
        unfold holds in *. by rewrite Hf, Hr, Heq.
      * unfold count. by destruct (pick compress c raw).
      * unfold count. destruct (pick compress c raw). simpl.
        destruct (decide (n ≤ length full - o)%nat).
        -- replace (length full - (o + length raw))%nat with (length full - o - n)%nat by lia.
           fold n. lia.
        -- replace (length full - (o + length raw))%nat with 0%nat by lia.
           fold n. replace (length full - o - n)%nat with 0%nat by lia. lia.
    + eapply partial_widen; [| |exact Hr2]; lia.
  - apply wp_raise. split; [done|]. eapply partial_widen; [| |exact Hr]; lia.
  - split; [done|]. eapply partial_widen; [| |exact Hr]; lia.
Qed.
End upload.

(** Where [chunked_upload] leaves the remote file when it starts at byte
    [length R] of a file that holds [R] ([R] empty: from scratch, whatever is
    there). *)
Definition upload_outcome (t remote : string) (R L : bytes) (cs : Z) (s : S)
    (r : res exn UploadStats) (s' : S) : Prop :=
  let full := R ++ drop (length R) L in
  others t remote s s' ∧
  match r with
  | Ret st =>
      (if decide (length L ≤ length R)%nat then file t remote s' = file t remote s
       else file t remote s' = Some full) ∧
      bytes_total st = Z.of_nat (length L) ∧
      chunks st = chunks_for cs (length L - length R)
  | Raise _ => (R = [] ∧ file t remote s' = file t remote s) ∨
               ∃ n, (length R ≤ n)%nat ∧ file t remote s' = Some (take n full)
  | Spin => False
  end.
Lemma chunked_upload_spec t local remote cs c retries hint R L (h : host S) :
  0 < cs → lfs h !! local = Some L → (R = [] ∨ file t remote (svc h) = Some R) →
  wp (chunked_upload compress t local remote cs c retries (Z.of_nat (length R)) hint)
     (λ r h', lfs h' = lfs h ∧ upload_outcome t remote R L cs (svc h) r (svc h')) h.
Proof.
  intros Hcs HL HR. unfold chunked_upload, wp. erewrite bind_run by done. rewrite HL.
  set (full := R ++ drop (length R) L).
  assert ((if 0 <? Z.of_nat (length R) then drop (Z.to_nat (Z.of_nat (length R))) L else L)
    = drop (length R) full) as ->.
  { unfold full. rewrite drop_app_length, Nat2Z.id. destruct R; [done|]. by rewrite (proj2 (Z.ltb_lt _ _)). }
  assert (length full = length R + (length L - length R))%nat as Hfl.
  { unfold full. by rewrite length_app, length_drop. }
  assert (length full - length R = length L - length R)%nat as Hlen by lia.
  set (fuel := Datatypes.S (length (drop (length R) full))). set (st0 := stats0 (Z.of_nat (length L))).
  pose proof (upload_loop_spec t remote full fuel cs c retries hint (length R)
    (Z.of_nat (length R) =? 0) st0 (file t remote (svc h)) (svc h) Hcs) as Hspec.
  unfold wp, on_svc in *.
  destruct (upload_loop _ _ _ _ _ _ _ _ _ _ _ _ (svc h)) as [r s']. simpl in *.
  split; [done|]. destruct Hspec as [Hoth Hr].
  - unfold fuel. rewrite length_drop. lia.
  - unfold full. rewrite length_app. lia.
  - destruct HR as [->|HR]; [by left|]. right. unfold holds. rewrite HR. unfold full.
    by rewrite take_app_length.
  - split; [exact Hoth|]. destruct r as [st|x|]; [| |done].
    + destruct Hr as (Hf & Hb & Hc). rewrite Hc, Hlen. split_and!; [|done|simpl; lia].
      unfold holds in Hf. rewrite take_ge in Hf by done.
      case_decide as Hd1; case_decide as Hd2; try done; lia.
    + destruct Hr as [[Ho Hs]|(n & Hn & Hs)]; [left|right].
      * destruct R; [by split|done].
      * exists n. split; [lia|exact Hs].
Qed.

(** C5: [chunked_upload] ends.  When it returns and the local file has bytes
    beyond the resume point, the remote file holds what was there before that
    point followed by exactly those bytes (so an upload from scratch of a file
    that is not empty leaves exactly the local file); when the local file has
    none (it is empty, or no longer than the resume point), the remote file is
    left as it was, absent or old.  No other file of any
    target has changed, and the statistics count the chunks; when it raises,
    the remote file is the old one or a prefix of the intended one, so the
    upload can be resumed. *)
Theorem chunked_upload_exact t local remote cs c retries hint R L (h : host S) :
  0 < cs → lfs h !! local = Some L → (R = [] ∨ file t remote (svc h) = Some R) →
  wp (chunked_upload compress t local remote cs c retries (Z.of_nat (length R)) hint)
     (λ r h', lfs h' = lfs h ∧ upload_outcome t remote R L cs (svc h) r (svc h')) h.
Proof. apply chunked_upload_spec. Qed.

(** The remote file can be taken up where it ends: absent, or a prefix. *)
Definition resumable (t remote : string) (L : bytes) (s : S) : Prop :=
  ∀ c, file t remote s = Some c → c `prefix_of` L.
Lemma resumable_unchanged t remote L s s' :
  file t remote s' = file t remote s → resumable t remote L s → resumable t remote L s'.
Proof. intros Hf Hr c. rewrite Hf. apply Hr. Qed.

(** A call through [on_svc] that only reads. *)
Lemma wp_on_svc {A} (m : M S exn A) (Q : res exn A → host S → Prop) (h : host S) :
  wp m (λ r s', Q r (Host (lfs h) s')) (svc h) → wp (on_svc m) Q h.
Proof. unfold wp, on_svc. by destruct (m (svc h)) as [r s']. Qed.
Lemma fs_stat_spec t p s :
  wp (fs_stat t p) (λ r s', same_files s s' ∧
    match r with
    | Ret st => match file t p s with Some c => st_size st = Z.of_nat (length c) | None => st_size st = 0 end
    | Raise _ => True
    | Spin => False
    end) s.
Proof.
  unfold fs_stat. apply wp_bind. pose proof (stat_law t p s) as Hlaw. unfold wp at 1.
  destruct (call t "fs.stat" _ _ s) as [[j|x|] s1]; simpl in *; destruct Hlaw as [Hsame Hj]; [|by split|done].
  unfold need_str, wp, lift, mbind, M_bind.
  destruct (jget "name" j) as [[]|]; simpl; try by split.
  destruct (jget "type" j) as [[]|]; simpl; try by split.
  destruct (bool_decide _); simpl; try by split.
  destruct (file t p s) as [c|]; [rewrite Hj|destruct Hj as [->| ->]]; simpl;
    destruct (jget "modified" j) as [[]|]; simpl; by split.
Qed.

(** The verification step sends nothing and changes nothing. *)
Lemma verify_hash_spec t remote local L h : lfs h !! local = Some L →
  wp (verify_hash sha256 t remote local) (λ r h', lfs h' = lfs h ∧ same_files (svc h) (svc h') ∧
    match r with
    | Ret sha => sha = sha256 L
    | Raise _ => True
    | Spin => False
    end) h.
Proof.
  intros HL. unfold verify_hash, wp. erewrite bind_run by done. rewrite HL.
  apply wp_bind, wp_on_svc. unfold fs_hash. apply wp_bind.
  pose proof (hash_law t remote (svc h)) as Hlaw. unfold wp at 1.
  destruct (call t "fs.hash" _ _ (svc h)) as [[j|x|] s1]; simpl in *; destruct Hlaw as [Hsame Hj];
    [|by split_and!|done].
  unfold need_str, need_int, wp, lift, mbind, M_bind.
  destruct (jget "path" j) as [[]|], (jget "algo" j) as [[]|], (jget "hash" j) as [[]|],
    (jget "size" j) as [[]|]; simpl; try by split_and!.
  case_match; by split_and!.
Qed.

(** The probe finds the size of what is there, and changes nothing. *)
Lemma probe_spec t remote resume (h : host S) :
  wp (probe t remote resume) (λ r h', lfs h' = lfs h ∧ same_files (svc h) (svc h') ∧
    match r with
    | Ret (Some n) => n = Z.of_nat (length (default [] (file t remote (svc h))))
    | Spin => False
    | _ => True
    end) h.
Proof.
  unfold probe. destruct resume; [|by apply wp_ret].
  apply wp_catch, wp_bind, wp_on_svc. eapply wp_mono; [apply fs_stat_spec|].
  intros [st|x|] s1 [Hsame Hst]; [| |done].
  - apply wp_ret. split_and!; [done|done|]. by destruct (file t remote (svc h)).
  - destruct (is_exception x); [apply wp_ret|apply wp_raise]; by split_and!.
Qed.
Lemma verified_spec t remote local verify L h : lfs h !! local = Some L →
  wp (verified sha256 t remote local verify) (λ r h', lfs h' = lfs h ∧
    same_files (svc h) (svc h') ∧ r ≠ Spin) h.
Proof.
  intros HL. unfold verified. destruct verify; [|by apply wp_ret]. apply wp_fmap.
  eapply wp_mono; [by apply (verify_hash_spec t remote local L)|].
  intros [sha|x|] h' (Hl & Hs & Hr); [| |done]; by split_and!.
Qed.
(** What the upload step leaves of a resumable file. *)
Lemma upload_resumable t remote R L cs s r s' : L ≠ [] → R `prefix_of` L →
  (R = [] ∨ file t remote s = Some R) → resumable t remote L s →
  upload_outcome t remote R L cs s r s' →
  match r with
  | Ret _ => file t remote s' = Some L
  | Raise _ => resumable t remote L s'
  | Spin => False
  end.
Proof.
  intros Hne [tl ->] HR Hres [_ Hr]. rewrite drop_app_length in Hr.
  destruct r as [st|x|]; [| |done].
  - destruct Hr as [Hr _]. case_decide as Hle; [|done]. rewrite length_app in Hle.
    destruct tl; [|simpl in Hle; lia]. rewrite app_nil_r in *. rewrite Hr. by destruct HR.
  - destruct Hr as [[_ Hs]|(n & _ & Hs)]; [by eapply resumable_unchanged|].
    intros c0 Hc0. rewrite Hs in Hc0. injection Hc0 as <-. apply prefix_take.
Qed.

(** C18: [fs.upload] of a non-empty file, over a remote file that is absent
    or a prefix of it, ends; when it returns the remote file is exactly the
    local file, resumed or not; when it raises the remote file is still absent
    or a prefix, so calling it again with [resume=True], any number of times,
    can only end with an exact copy.  Nothing else changes on any target. *)
Theorem fs_upload_mirrors t local remote cs c verify resume L (h : host S) :
  0 < cs → lfs h !! local = Some L → L ≠ [] → resumable t remote L (svc h) →
  wp (fs_upload compress sha256 t local remote cs c verify resume)
     (λ r h', lfs h' = lfs h ∧ others t remote (svc h) (svc h') ∧
        match r with
        | Ret _ => file t remote (svc h') = Some L
        | Raise _ => resumable t remote L (svc h')
        | Spin => False
        end) h.
Proof.
  intros Hcs HL Hne Hres. unfold fs_upload, wp. erewrite bind_run by done. rewrite HL.
  apply wp_bind. eapply wp_mono; [apply probe_spec|]. intros found h1 (Hl1 & Hs1 & Hfound).
  assert (others t remote (svc h) (svc h1)) as Ho1 by (intros ???; apply Hs1).
  assert (resumable t remote L (svc h1)) as Hres1 by (eapply resumable_unchanged; [apply Hs1|done]).
  destruct found as [found|x|]; [|by split_and!|done].
  set (R := if found is Some _ then default [] (file t remote (svc h)) else []).
  assert (default 0 found = Z.of_nat (length R)) as -> by (unfold R; by destruct found).
  assert (R `prefix_of` L) as HR.
  { unfold R. destruct found; [|apply prefix_nil].
    destruct (file t remote (svc h)) as [c0|] eqn:Hf; [by apply Hres|apply prefix_nil]. }
  assert (R = [] ∨ file t remote (svc h1) = Some R) as HR1.
  { rewrite (Hs1 t remote). unfold R. destruct found; [|by left].
    destruct (file t remote (svc h)); [by right|by left]. }
  destruct (bool_decide (is_Some found) && (Z.of_nat (length L) <=? Z.of_nat (length R))) eqn:Hshort.
  { apply wp_ret. apply andb_true_iff in Hshort as [_ Hle%Z.leb_le]. split_and!; [done..|].
    destruct HR as [tl ->]. rewrite length_app in Hle. destruct tl; [|simpl in Hle; lia].
    rewrite app_nil_r in *. by destruct HR1. }
  apply wp_bind. eapply wp_mono.
  { apply (chunked_upload_spec t local remote cs c 2 true R L h1); [done|by rewrite Hl1|done]. }
  intros r h2 (Hl2 & Hout). rewrite Hl1 in Hl2.
  pose proof (upload_resumable _ _ _ _ _ _ _ _ Hne HR HR1 Hres1 Hout) as Hr2.
  assert (others t remote (svc h) (svc h2)) as Ho2 by (etrans; [exact Ho1|apply Hout]).
  destruct r as [st|x|]; [|by split_and!|done].
  apply wp_bind. eapply wp_mono; [apply (verified_spec t remote local verify L); by rewrite Hl2|].
  intros r h3 (Hl3 & Hs3 & Hspin). rewrite Hl2 in Hl3.
  assert (file t remote (svc h3) = Some L) as Hd3 by (by rewrite (Hs3 t remote)).
  assert (others t remote (svc h) (svc h3)) as Ho3 by (etrans; [exact Ho2|intros ???; apply Hs3]).
  destruct r as [sha|x|]; [by apply wp_ret|split_and!; [done..|]|done].
  intros c0 Hc0. rewrite Hd3 in Hc0. by injection Hc0 as <-.
Qed.

(** ** Download *)

Definition other_locals (local : string) (h h' : host S) : Prop :=
  same_files (svc h) (svc h') ∧ ∀ l, l ≠ local → lfs h' !! l = lfs h !! l.
Lemma other_locals_trans local h1 h2 h3 :
  other_locals local h1 h2 → other_locals local h2 h3 → other_locals local h1 h3.
Proof.
  intros [Hs1 Hl1] [Hs2 Hl2]. split; [by etrans|]. intros l Hl. by rewrite Hl2, Hl1.
Qed.

(** One slice, with its retries: a non-empty piece of what was asked for. *)
Definition slice_reply (c : bytes) (off len : Z) (j : json) : Prop :=
  ∃ b, jget "content_b64" j = Some (JStr (str (py_b64encode b))) ∧
    let slice := take (Z.to_nat len) (drop (Z.to_nat off) c) in
    b `prefix_of` slice ∧ (b = [] → slice = []).
Lemma read_slice_spec t remote c off len retries (s : S) :
  0 ≤ off → 0 ≤ len → file t remote s = Some c →
  wp (retrying (call t "fs.read" (read_params remote (Some off) (Some len)) 120000) 0 retries)
     (λ r s', same_files s s' ∧
              match r with Ret (Some j) => slice_reply c off len j | Spin => False | _ => True end) s.
Proof.
  intros Hoff Hlen Hc. eapply wp_mono.
  - apply (retrying_spec (same_files s) (λ j s', same_files s s' ∧ slice_reply c off len j));
      [|intros s1 s2 H12 Hs1; by etrans|done].
    intros s1 Hs1. pose proof (read_law t remote off len s1 Hoff Hlen) as Hlaw. unfold wp.
    destruct (call t "fs.read" _ _ s1) as [r s2]. simpl. destruct Hlaw as [Hs2 Hr].
    assert (same_files s s2) by (etrans; [exact Hs1|exact Hs2]).
    destruct r as [j|x|]; [|done..]. split; [done|].
    destruct Hr as (c' & b & Hc' & Hb). rewrite (Hs1 t remote), Hc in Hc'.
    injection Hc' as <-. exists b. exact Hb.
  - intros [[j|]|x|] s' Hr; simpl in *; [done|by split..|done].
Qed.
Lemma payload_of_b64 j b :
  jget "content_b64" j = Some (JStr (str (py_b64encode b))) → payload_of j = Ret b.
Proof. unfold payload_of. intros ->. by rewrite txt_str, py_b64decode_encode. Qed.

Lemma download_loop_spec fuel t remote local cs retries c X o n (h : host S) :
  0 < cs → file t remote (svc h) = Some c → lfs h !! local = Some X →
  (length c - o < fuel)%nat →
  wp (download_loop fuel t remote local cs retries (Z.of_nat (length c)) (Z.of_nat o) n)
     (λ r h', other_locals local h h' ∧
        match r with
        | Ret _ => lfs h' !! local = Some (X ++ drop o c)
        | Raise _ => ∃ k, lfs h' !! local = Some (X ++ take k (drop o c))
        | Spin => False
        end) h.
Proof.
  intros Hcs. revert X o n h.
  induction fuel as [|fuel IH]; intros X o n h Hc HX Hfuel; [lia|]. cbn [download_loop].
  destruct (Z.leb_spec (Z.of_nat (length c)) (Z.of_nat o)) as [Hle|Hlt].
  { apply wp_ret. split; [by split|]. by rewrite drop_ge, app_nil_r by lia. }
  apply wp_bind, wp_on_svc. eapply wp_mono.
  { by apply (read_slice_spec t remote c (Z.of_nat o) (Z.min cs (Z.of_nat (length c) - Z.of_nat o)));
      [lia|lia|]. }
  intros r s1 [Hs1 Hr].
  assert (other_locals local h (Host (lfs h) s1)) as Hol by (by split).
  destruct r as [[j|]|x|]; [| | |done].
  2-3: split; [done|]; exists 0%nat; by rewrite take_0, app_nil_r.
  destruct Hr as (b & Hj & [tl Htl] & Hb). rewrite Nat2Z.id in *.
  set (len := Z.to_nat (Z.min cs (Z.of_nat (length c) - Z.of_nat o))) in *.
  assert (0 < length (take len (drop o c)))%nat as Hpos by (rewrite length_take, length_drop; lia).
  assert (b = take (length b) (drop o c) ∧ (o + length b ≤ length c)%nat) as [Hbt Hbl].
  { assert (length b ≤ length (take len (drop o c)))%nat as Hle by (rewrite Htl, length_app; lia).
    rewrite length_take, length_drop in Hle. split; [|lia].
    rewrite <- (take_app_length b tl) at 1. rewrite <- Htl, take_take. f_equal. lia. }
  apply wp_bind. unfold wp at 1. simpl. rewrite (payload_of_b64 _ _ Hj).
  apply wp_bind, wp_modify. set (h2 := Host _ _).
  assert (lfs h2 !! local = Some (X ++ b)) as HX2 by (simpl; by rewrite lookup_insert_eq, HX).
  assert (other_locals local h h2) as Hol2.
  { split; [done|]. intros l Hl. simpl. by rewrite lookup_insert_ne. }
  destruct (Z.eqb_spec (Z.of_nat (length b)) 0) as [Hz|Hz].
  { destruct b; [|simpl in Hz; lia]. rewrite (Hb eq_refl) in Hpos. simpl in Hpos. lia. }
  rewrite <- Nat2Z.inj_add. eapply wp_mono; [apply (IH (X ++ b) (o + length b)%nat)|].
  - simpl. by rewrite (Hs1 t remote).
  - done.
  - lia.
  - intros r h3 [Hol3 Hr3]. split; [by eapply other_locals_trans|].
    assert (b ++ drop (o + length b) c = drop o c) as Hglue.
    { rewrite Hbt at 1. by rewrite <- drop_drop, take_drop. }
    destruct r as [m|x|]; [| |done].
    + by rewrite Hr3, <- (assoc_L (++)), Hglue.
    + destruct Hr3 as [k Hk]. exists (length b + k)%nat. rewrite Hk, <- (assoc_L (++)).
      by rewrite <- take_take_drop, drop_drop, <- Hbt.
Qed.
Lemma chunked_download_spec t remote local cs retries r c X (h : host S) :
  0 < cs → file t remote (svc h) = Some c →
  X = (if decide (r = 0%nat) then [] else default [] (lfs h !! local)) →
  wp (chunked_download t remote local cs retries (Z.of_nat r)) (λ x h', other_locals local h h' ∧
       match x with
       | Ret st => lfs h' !! local = Some (X ++ drop r c) ∧ d_bytes_total st = Z.of_nat (length c)
       | Raise _ => lfs h' !! local = lfs h !! local ∨
                    ∃ k, lfs h' !! local = Some (X ++ take k (drop r c))
       | Spin => False
       end) h.
Proof.
  intros Hcs Hc HX. unfold chunked_download. apply wp_bind, wp_on_svc.
  pose proof (stat_law t remote (svc h)) as Hlaw. unfold wp at 1.
  destruct (call t "fs.stat" _ _ (svc h)) as [q s1]. cbn [fst snd]. destruct Hlaw as [Hs1 Hq].
  destruct q as [j|x|]; [|split; [by split|by left]|done].
  rewrite Hc in Hq. apply wp_bind. unfold size_of. rewrite Hq. apply wp_lift. cbn [py_int].
  apply wp_bind. eapply (wp_mono _ (λ q h2, q = Ret tt ∧ lfs h2 !! local = Some X ∧
    other_locals local h h2)).
  { destruct (Z.ltb_spec 0 (Z.of_nat r)); apply wp_modify; simpl; (split; [done|]);
      (split; [rewrite lookup_insert_eq; f_equal; rewrite HX; case_decide; try lia;
               by rewrite ?app_nil_r|]);
      split; try done; intros l Hl; simpl; by rewrite lookup_insert_ne. }
  intros q h2 (-> & HX2 & Hol2). apply wp_bind. eapply wp_mono.
  { apply (download_loop_spec _ t remote local cs retries c X r 0 h2 Hcs); [|done|lia].
    by rewrite (proj1 Hol2 t remote). }
  intros [m|x|] h3 [Hol3 H3]; [| |done].
  - apply wp_ret. split; [by eapply other_locals_trans|]. by split.
  - split; [by eapply other_locals_trans|by right].
Qed.

(** The local file is absent or a prefix of what is to come. *)
Definition local_prefix (local : string) (c : bytes) (h : host S) : Prop :=
  ∀ X, lfs h !! local = Some X → X `prefix_of` c.
(** C19: [fs.download] ends; when it returns, the local file is exactly the
    remote file -- from scratch whatever was there, or resumed over a prefix
    of it -- and when it raises a resumable local file is still resumable;
    nothing on the target and no other local file has changed. *)
Theorem fs_download_mirrors t remote local cs verify resume c (h : host S) :
  0 < cs → file t remote (svc h) = Some c → (resume = true → local_prefix local c h) →
  wp (fs_download sha256 t remote local cs verify resume) (λ x h', other_locals local h h' ∧
       match x with
       | Ret (st, _, _) => lfs h' !! local = Some c ∧ d_bytes_total st = Z.of_nat (length c)
       | Raise _ => local_prefix local c h → local_prefix local c h'
       | Spin => False
       end) h.
Proof.
  intros Hcs Hc Hres. unfold fs_download, wp. erewrite bind_run by done.
  set (r := if resume then length (default [] (lfs h !! local)) else 0%nat).
  assert ((if resume then default 0 (Z.of_nat <$> (length <$> lfs h !! local)) else 0)
    = Z.of_nat r) as ->.
  { unfold r. destruct resume; [|done]. by destruct (lfs h !! local). }
  set (X := if decide (r = 0%nat) then [] else default [] (lfs h !! local)).
  assert (X ++ drop r c = c) as Heq.
  { unfold X. case_decide as Hr; [by rewrite Hr|]. unfold r in *. destruct resume; [|done].
    destruct (lfs h !! local) as [P|] eqn:HP; [|done]. simpl in *.
    destruct (Hres eq_refl P HP) as [tl ->]. by rewrite drop_app_length. }
  assert (∀ k, X ++ take k (drop r c) `prefix_of` c) as Hpre.
  { intros k. rewrite <- Heq at 2. apply prefix_app, prefix_take. }
  apply wp_bind. eapply wp_mono; [by apply (chunked_download_spec t remote local cs 2 r c X h)|].
  intros [st|x|] h1 [Hol1 H1]; [| |done].
  2:{ split; [done|]. intros Hlp Y HY. destruct H1 as [H1|[k H1]]; rewrite H1 in HY.
      - by apply Hlp.
      - injection HY as <-. apply Hpre. }
  destruct H1 as [H1 Hb]. rewrite Heq in H1.
  apply wp_bind. eapply wp_mono; [by apply (verified_spec t remote local verify c)|].
  intros q h2 (Hl2 & Hs2 & Hspin).
  assert (other_locals local h h2) as Hol2.
  { eapply other_locals_trans; [exact Hol1|]. split; [done|]. intros l _. by rewrite Hl2. }
  destruct q as [sha|x|]; [apply wp_ret; split; [done|by rewrite Hl2]|split; [done|]|done].
  intros _ Y HY. rewrite Hl2, H1 in HY. by injection HY as <-.
Qed.
End transfer.
