(* ===== verification/Daemon.v ===== *)
(** * The daemon's file methods: [mcpd/src/methods/fs.c], [rpc.c], [helpers.c]

    [fs.stat], [fs.read], [fs.write], [fs.write_chunk] and [fs.hash] over
    AmigaDOS, the method dispatch around them, and the proof that a daemon
    behind an unreliable connection keeps the [FileService] contract.
    AmigaDOS, [z.library] and the memory allocator are a [Dos] environment
    with their documented behaviour as [DosLaws]. *)
From S2P Require Import Prelude Py Bytes Mcpd Fs.

(* ------------------------------------------------------------------ *)
(** ** AmigaDOS *)

Inductive mode := MODE_OLDFILE | MODE_NEWFILE | MODE_READWRITE.
(** What [ExamineObjectTags] says of a path. *)
Record examined := { x_name : string; x_dir : bool; x_size : Z; x_date : option string }.

Class Dos (E : Type) := {
  dos_open : string → mode → E → option nat * E;
  dos_file_size : nat → E → option Z;
  dos_seek : nat → Z → E → bool * E;
  dos_read : nat → Z → E → (Z * bytes) * E;
  dos_write : nat → bytes → E → Z * E;
  dos_close : nat → E → E;
  dos_examine : string → E → option examined;
  alloc : Z → E → bool;
  inflate : bytes → Z → option bytes;          (** to exactly that many bytes *)
  inflate_stream : bytes → option bytes }.     (** the growing-buffer loop *)

Definition MCPD_ERR_INVPARAMS : Z := -32602.
Definition MCPD_ERR_TARGET : Z := -32001.
Definition MCPD_ERR_INTERNAL : Z := -32603.
Definition MCPD_ERR_NOTCAPABLE : Z := -32003.
Definition FS_READ_MAX_BYTES : Z := 32 * 1024 * 1024.
Definition FS_WRITE_DECOMPRESSED_MAX : Z := 128 * 1024 * 1024.

Section handlers.
Context {E : Type} `{Dos E}.
(** [sha256_init/update/final] and the hexadecimal of the digest; [Sha256] has
    the implementation. *)
Context (sha256 : bytes → string).

(** A handler sets [*out_result] or [*out_err]: the value, or an error's code
    and data. *)
Abbreviation MD := (M E (Z * option json)).
Definition dos {A} (f : E → A * E) : MD A := λ e, let '(a, e') := f e in (Ret a, e').

(** [rpc_make_error] with the code and message of [IoErr()]: the message text
    is not modelled. *)
Definition fs_error_for {A} (path : string) : MD A :=
  raise (MCPD_ERR_TARGET, Some (JObj [("path", JStr path)])).
Definition p_str (params : json) (name : string) : MD string :=
  match params with
  | JObj _ => match jget name params with
              | Some (JStr s) => mret s
              | _ => raise (MCPD_ERR_INVPARAMS, Some (JObj [("missing", JStr name)]))
              end
  | _ => raise (MCPD_ERR_INVPARAMS, None)
  end.
Definition p_int (params : json) (name : string) (fallback : Z) : Z :=
  match jget name params with Some (JNum z) => z | _ => fallback end.

(** [_decompress_zlib] *)
Definition decompress_zlib (compressed : bytes) (expected : Z) : MD (option bytes) :=
  match compressed with
  | [] => mret None
  | _ =>
      if 0 <? expected then
        if FS_WRITE_DECOMPRESSED_MAX <? expected then mret None
        else
          ok ← gets (alloc (expected + 1));
          mret (if (ok : bool) then
                  match inflate compressed expected with
                  | Some out => if Z.of_nat (length out) =? expected then Some out else None
                  | None => None
                  end
                else None)
      else mret (inflate_stream compressed)
  end.
(** [_decode_write_payload] *)
Definition decode_write_payload (params : json) : MD bytes :=
  content_b64 ← p_str params "content_b64";
  let is_zlib := if jget "compression" params is Some (JStr "zlib") then true else false in
  ok ← gets (alloc (Z.of_nat (String.length content_b64) + 1));
  match (if (ok : bool) then b64_decode (txt content_b64) else None) with
  | None => raise (MCPD_ERR_INVPARAMS, None)
  | Some decoded =>
      if is_zlib : bool then
        r ← decompress_zlib decoded (Z.max 0 (p_int params "raw_size" 0) mod 2 ^ 32);
        match r with
        | Some inflated => mret inflated
        | None => raise (MCPD_ERR_INVPARAMS, None)
        end
      else mret decoded
  end.

Definition fs_stat (params : json) : MD json :=
  path ← p_str params "path";
  ed ← gets (dos_examine path);
  match ed with
  | None => fs_error_for path
  | Some ed =>
      mret (JObj ([("name", JStr (x_name ed)); ("type", JStr (if x_dir ed then "dir" else "file"));
                   ("size", JNum (if x_dir ed then 0 else x_size ed))] ++
                  match x_date ed with Some d => [("modified", JStr d)] | None => [] end))
  end.

(** The slice of a file of [fsize] bytes that [fs.read] returns. *)
Definition slice_size (fsize offset length : Z) : Z :=
  let avail := Z.max 0 (fsize - offset) in
  if (0 <=? length) && (length <? avail) then length else avail.
Definition fs_read (params : json) : MD json :=
  path ← p_str params "path";
  let req_offset := Z.max 0 (p_int params "offset" 0) in
  let req_length := p_int params "length" (-1) in
  fh ← dos (dos_open path MODE_OLDFILE);
  match fh with
  | None => fs_error_for path
  | Some fh =>
      sz ← gets (dos_file_size fh);
      let fsize := Z.max 0 (default (-1) sz) in
      let to_read := slice_size fsize req_offset req_length in
      if FS_READ_MAX_BYTES <? to_read then
        modify (dos_close fh);;
        raise (MCPD_ERR_TARGET, Some (JObj [("path", JStr path); ("requested", JNum to_read);
                                            ("max", JNum FS_READ_MAX_BYTES)]))
      else
        sought ← (if (0 <? req_offset) && (0 <? to_read)
                  then dos (dos_seek fh req_offset) else mret true);
        if negb sought then modify (dos_close fh);; fs_error_for path
        else
          ok ← gets (alloc (to_read + 1));
          if negb ok then modify (dos_close fh);; raise (MCPD_ERR_INTERNAL, None)
          else
            got ← (if 0 <? to_read then dos (dos_read fh to_read) else mret (0, []));
            modify (dos_close fh);;
            if fst got <? 0 then fs_error_for path
            else
              let buf := take (Z.to_nat (fst got)) (snd got) in
              ok ← gets (alloc ((fst got + 2) / 3 * 4 + 1));
              if negb ok then raise (MCPD_ERR_INTERNAL, None)
              else mret (JObj [("path", JStr path); ("size", JNum (fst got));
                               ("offset", JNum req_offset); ("total_size", JNum fsize);
                               ("content_b64", JStr (str (b64_encode buf)))])
  end.

(** [Write] of the whole buffer; an empty buffer is not written. *)
Definition write_all (fh : nat) (data : bytes) : MD Z :=
  match data with [] => mret 0 | _ => dos (dos_write fh data) end.
Definition fs_write (params : json) : MD json :=
  path ← p_str params "path";
  data ← decode_write_payload params;
  fh ← dos (dos_open path MODE_NEWFILE);
  match fh with
  | None => fs_error_for path
  | Some fh =>
      wrote ← write_all fh data;
      modify (dos_close fh);;
      if negb (wrote =? Z.of_nat (length data)) then fs_error_for path
      else mret (JObj [("path", JStr path); ("size", JNum wrote)])
  end.
Definition fs_write_chunk (params : json) : MD json :=
  path ← p_str params "path";
  match jget "offset" params with
  | Some (JNum req_offset) =>
      if req_offset <? 0 then raise (MCPD_ERR_INVPARAMS, None)
      else
        let do_truncate := match jget "truncate" params with
                           | Some (JBool b) => b
                           | _ => req_offset =? 0
                           end in
        data ← decode_write_payload params;
        fh ← dos (dos_open path (if (req_offset =? 0) && do_truncate
                                 then MODE_NEWFILE else MODE_READWRITE));
        match fh with
        | None => fs_error_for path
        | Some fh =>
            sought ← (if 0 <? req_offset then dos (dos_seek fh req_offset) else mret true);
            if negb sought then modify (dos_close fh);; fs_error_for path
            else
              wrote ← write_all fh data;
              modify (dos_close fh);;
              if negb (wrote =? Z.of_nat (length data)) then fs_error_for path
              else mret (JObj [("path", JStr path); ("offset", JNum req_offset);
                               ("written", JNum wrote);
                               ("total_so_far", JNum (req_offset + wrote))])
        end
  | _ => raise (MCPD_ERR_INVPARAMS, None)
  end.

(** The read loop of [fs.hash], in blocks of 32 KiB. *)
Fixpoint hash_loop (fuel : nat) (fh : nat) (path : string) (acc : bytes) : MD bytes :=
  match fuel with
  | O => spin
  | Datatypes.S fuel =>
      got ← dos (dos_read fh 32768);
      if fst got <? 0 then modify (dos_close fh);; fs_error_for path
      else if fst got =? 0 then modify (dos_close fh);; mret acc
      else hash_loop fuel fh path (acc ++ take (Z.to_nat (fst got)) (snd got))
  end.
Definition fs_hash (params : json) : MD json :=
  path ← p_str params "path";
  let algo := match jget "algo" params with Some (JStr a) => a | _ => "sha256" end in
  if bool_decide (algo ≠ "sha256")
  then raise (MCPD_ERR_NOTCAPABLE, Some (JObj [("requested", JStr algo); ("supported", JStr "sha256")]))
  else
    fh ← dos (dos_open path MODE_OLDFILE);
    match fh with
    | None => fs_error_for path
    | Some fh =>
        ok ← gets (alloc 32768);
        if negb ok then modify (dos_close fh);; raise (MCPD_ERR_INTERNAL, None)
        else
          sz ← gets (dos_file_size fh);
          data ← hash_loop (Datatypes.S (Datatypes.S (Z.to_nat (default 0 sz)))) fh path [];
          mret (JObj [("path", JStr path); ("algo", JStr "sha256"); ("hash", JStr (sha256 data));
                      ("size", JNum (Z.of_nat (length data)))])
    end.

(** *** Dispatch *)

(** The method table: these file methods, and [others] for the other entries,
    the rest of [fs.*] in [FileMethods] among them. *)
Context (others : list (string * (json → MD json))).
Definition find_method (name : string) : option (json → MD json) :=
  assoc name ([("fs.stat", fs_stat); ("fs.read", fs_read); ("fs.write", fs_write);
               ("fs.write_chunk", fs_write_chunk); ("fs.hash", fs_hash)] ++ others).
Definition error_obj (code : Z) (data : option json) : json :=
  JObj (("code", JNum code) :: match data with Some d => [("data", d)] | None => [] end).
(** [rpc_dispatch] on a parsed request; [None] while a handler runs on. *)
Definition rpc_dispatch (root : json) : E → option json * E := λ e,
  let reply id (r : string * json) :=
    Some (JObj [("jsonrpc", JStr "2.0"); ("id", id); r]) in
  let id := default JNull (jget "id" root) in
  match root with
  | JObj _ =>
      match jget "method" root with
      | Some (JStr name) =>
          match find_method name with
          | None => (reply id ("error", error_obj (-32601) (Some (JObj [("method", JStr name)]))), e)
          | Some handler =>
              match handler (default JNull (jget "params" root)) e with
              | (Ret result, e) => (reply id ("result", result), e)
              | (Raise (code, data), e) => (reply id ("error", error_obj code data), e)
              | (Spin, e) => (None, e)
              end
          end
      | _ => (reply id ("error", error_obj (-32600) None), e)
      end
  | _ => (reply JNull ("error", error_obj (-32700) None), e)
  end.
End handlers.

(* ------------------------------------------------------------------ *)
(** ** AmigaDOS behaviour *)

(** [disk] is the contents of the files, [at_] the file and position of an
    open handle.  A failed call changes no contents; [Open] of a new file
    empties it, and for reading and writing creates a missing one;
    [ChangeFilePosition] goes where it was told within the file; [Write]
    stores what it says it wrote, a failed one some first part; [Read] of a
    file returns all that was asked for and is there; decompression never
    yields anything but what was compressed. *)
Class DosLaws (E : Type) `{Dos E} (compress : bytes → bytes) := {
  disk : E → gmap string bytes;
  at_ : nat → E → option (string * nat);
  open_law p m e :
    match dos_open p m e with
    | (None, e') => disk e' = disk e
    | (Some h, e') => at_ h e' = Some (p, 0%nat) ∧
        match m with
        | MODE_NEWFILE => disk e' = <[p := []]> (disk e)
        | MODE_READWRITE => disk e' = <[p := default [] (disk e !! p)]> (disk e)
        | MODE_OLDFILE => is_Some (disk e !! p) ∧ disk e' = disk e
        end
    end;
  size_law h p k c e : at_ h e = Some (p, k) → disk e !! p = Some c →
    dos_file_size h e = Some (Z.of_nat (length c));
  seek_law h p k n e : at_ h e = Some (p, k) → 0 ≤ n →
    let '(ok, e') := dos_seek h n e in
    disk e' = disk e ∧ ∃ k', at_ h e' = Some (p, k') ∧
      ∀ c, ok = true → disk e !! p = Some c → n ≤ Z.of_nat (length c) → k' = Z.to_nat n;
  read_law h p k c n e : at_ h e = Some (p, k) → disk e !! p = Some c → 0 < n →
    let '((got, b), e') := dos_read h n e in
    disk e' = disk e ∧ at_ h e' = Some (p, (k + Z.to_nat got)%nat) ∧
    (0 ≤ got → b = take (Z.to_nat n) (drop k c) ∧ got = Z.of_nat (length b));
  write_law h p k data e : at_ h e = Some (p, k) →
    let '(wrote, e') := dos_write h data e in
    (∀ p', p' ≠ p → disk e' !! p' = disk e !! p') ∧
    ∃ j, (wrote = Z.of_nat (length data) → j = length data) ∧
         ∀ c, disk e !! p = Some c → (k ≤ length c)%nat →
              disk e' !! p = Some (splice c k (take j data));
  close_law h e : disk (dos_close h e) = disk e;
  examine_law p ed e : dos_examine p e = Some ed →
    match disk e !! p with
    | Some c => x_dir ed = false ∧ x_size ed = Z.of_nat (length c)
    | None => x_dir ed = true
    end;
  inflate_law raw out n : inflate (compress raw) n = Some out → out = raw;
  inflate_stream_law raw out : inflate_stream (compress raw) = Some out → out = raw }.

Section specs.
Context {E : Type} `{DosLaws E compress}.
Context (sha256 : bytes → string).

(** A handler step that reads the disk's contents and leaves them alone. *)
Definition keeps_disk : relation E := λ e e', disk e' = disk e.
#[local] Instance keeps_disk_preorder : PreOrder keeps_disk.
Proof. split; [done|]. unfold keeps_disk. intros ???. congruence. Qed.

Lemma wp_dos {A} (f : E → A * E) (Q : res (Z * option json) A → E → Prop) e :
  (∀ a e', f e = (a, e') → Q (Ret a) e') → wp (dos f) Q e.
Proof. unfold wp, dos. destruct (f e) as [a e']. simpl. auto. Qed.
(** Closing before an error or an answer. *)
Lemma wp_close {A} h (m : M E (Z * option json) A) Q e :
  (∀ e', disk e' = disk e → wp m Q e') → wp (modify (dos_close h);; m) Q e.
Proof. intros Hm. apply wp_bind, wp_modify, Hm, close_law. Qed.

Lemma p_str_run params name s (e : E) :
  jget name params = Some (JStr s) → p_str params name e = (Ret s, e).
Proof. destruct params; simpl; try done. by intros ->. Qed.
Lemma decode_write_payload_spec p off raw (zlib : bool) total e :
  let payload := if zlib then compress raw else raw in
  let size := if zlib then Some (Z.of_nat (length raw)) else None in
  wp (decode_write_payload (chunk_params p off (py_b64encode payload) zlib size None total))
     (λ r e', e' = e ∧ match r with Ret d => d = raw | Raise _ => True | Spin => False end) e.
Proof.
  intros payload size.
  assert (∀ k, jget k (chunk_params p off (py_b64encode payload) zlib size None total) =
    if decide (k = "path") then Some (JStr p)
    else if decide (k = "offset") then Some (JNum off)
    else if decide (k = "content_b64") then Some (JStr (str (py_b64encode payload)))
    else if decide (k = "compression") then (if zlib then Some (JStr "zlib") else None)
    else if decide (k = "raw_size") then JNum <$> size
    else if decide (k = "total_size") then JNum <$> total else None) as Hget.
  { intros k. unfold chunk_params, size. destruct zlib, total; simpl;
      repeat case_decide; congruence. }
  revert Hget. generalize (chunk_params p off (py_b64encode payload) zlib size None total).
  intros params Hget. unfold decode_write_payload.
  apply wp_bind. eapply wp_run; [by apply p_str_run; rewrite Hget|].
  apply wp_bind, wp_gets. rewrite Hget, txt_str, b64_decode_py_encode. simpl.
  destruct (alloc _ e); [|by apply wp_raise].
  destruct zlib; simpl; [|by apply wp_ret]. subst payload.
  unfold p_int. rewrite Hget. simpl. rewrite Z.max_r by lia.
  apply wp_bind. unfold decompress_zlib.
  destruct (compress raw) as [|b0 bs] eqn:Hc; [apply wp_ret; by apply wp_raise|].
  rewrite <- Hc. set (expected := Z.of_nat (length raw) mod 2 ^ 32). destruct (Z.ltb_spec 0 expected).
  - destruct (_ <? _); [apply wp_ret; by apply wp_raise|]. apply wp_bind, wp_gets, wp_ret.
    destruct (alloc _ e); [|by apply wp_raise].
    destruct (inflate _ _) as [out|] eqn:Hi; [|by apply wp_raise].
    apply inflate_law in Hi. subst out. destruct (_ =? _); [by apply wp_ret|by apply wp_raise].
  - apply wp_ret. destruct (inflate_stream _) as [out|] eqn:Hi; [|by apply wp_raise].
    apply inflate_stream_law in Hi. subst out. by apply wp_ret.
Qed.

(** What a chunk does to the disk. *)
Definition chunk_post (p : string) (off : Z) (raw : bytes) (e : E)
    (r : res (Z * option json) json) (e' : E) : Prop :=
  (∀ p', p' ≠ p → disk e' !! p' = disk e !! p') ∧
  match r with
  | Ret _ => stored off raw (disk e !! p) (disk e' !! p)
  | Raise _ => disk e' !! p = disk e !! p ∨
               ∃ k, stored off (take k raw) (disk e !! p) (disk e' !! p)
  | Spin => False
  end.
(** After the open: the file a write at byte [off] goes into. *)
Definition opened (p : string) (off : Z) (e e1 : E) : Prop :=
  (∀ p', p' ≠ p → disk e1 !! p' = disk e !! p') ∧
  if off =? 0 then disk e1 !! p = Some []
  else disk e1 !! p = Some (default [] (disk e !! p)).

(** Writing at the opened position: [wrote] tells whether all of it is there. *)
Lemma write_all_spec p off fh raw e e1 : 0 ≤ off → opened p off e e1 →
  (∃ k, at_ fh e1 = Some (p, k) ∧
        ∀ c, disk e1 !! p = Some c → off ≤ Z.of_nat (length c) → k = Z.to_nat off) →
  wp (write_all fh raw) (λ r e2,
    ∃ w j, r = Ret w ∧ (w = Z.of_nat (length raw) → j = length raw) ∧
      (∀ p', p' ≠ p → disk e2 !! p' = disk e !! p') ∧
      stored off (take j raw) (disk e !! p) (disk e2 !! p)) e1.
Proof.
  intros Hoff [Hoth Hop] (k & Hat & Hk).
  assert (∀ j e2, (∀ c, disk e1 !! p = Some c → (k ≤ length c)%nat →
                        disk e2 !! p = Some (splice c k (take j raw))) →
                  stored off (take j raw) (disk e !! p) (disk e2 !! p)) as Hst.
  { intros j e2 He2. unfold stored. destruct (Z.eqb_spec off 0) as [->|Hne].
    - rewrite (Hk [] Hop) in He2 by (simpl; lia). rewrite (He2 [] Hop) by (simpl; lia).
      unfold splice. simpl. by rewrite drop_nil, app_nil_r.
    - intros c Hc Hle. rewrite Hc in Hop. simpl in Hop. rewrite (Hk c Hop Hle) in He2.
      apply He2; [done|lia]. }
  unfold write_all. destruct raw as [|b raw'] eqn:Hraw.
  - apply wp_ret. exists 0, 0%nat. split_and!; [done..|].
    unfold stored. destruct (Z.eqb_spec off 0); [exact Hop|].
    intros c Hc Hle. rewrite Hop, Hc. unfold splice. simpl.
    rewrite Nat.add_0_r. by rewrite take_drop.
  - rewrite <- Hraw in *. apply wp_dos. intros w e2 Hw.
    pose proof (write_law fh p k raw e1 Hat) as Hlaw. rewrite Hw in Hlaw.
    destruct Hlaw as [Hoth2 (j & Hj & Hd)]. exists w, j. split_and!; [done|done| |by apply Hst].
    intros p' Hp'. by rewrite Hoth2, Hoth.
Qed.

(** A failure after a successful open at a later position. *)
Lemma opened_error p off raw e e1 e2 d : opened p off e e1 → off ≠ 0 → disk e2 = disk e1 →
  chunk_post p off raw e (Raise d) e2.
Proof.
  intros [Hoth Hop] Hne He2. rewrite (proj2 (Z.eqb_neq off 0)) in Hop by done.
  split; [by rewrite He2|]. rewrite He2, Hop. destruct (disk e !! p) as [c|]; [by left|right].
  exists 0%nat. unfold stored. by rewrite (proj2 (Z.eqb_neq off 0)).
Qed.
Lemma seek_spec p fh off e1 : at_ fh e1 = Some (p, 0%nat) → 0 ≤ off →
  wp (if 0 <? off then dos (dos_seek fh off) else mret true) (λ r e2,
    ∃ ok, r = Ret ok ∧ disk e2 = disk e1 ∧
      (ok = true → ∃ k, at_ fh e2 = Some (p, k) ∧
         ∀ c, disk e2 !! p = Some c → off ≤ Z.of_nat (length c) → k = Z.to_nat off) ∧
      (ok = false → off ≠ 0)) e1.
Proof.
  intros Hat Hoff. destruct (Z.ltb_spec 0 off).
  - apply wp_dos. intros ok e2 Hseek. pose proof (seek_law fh p 0%nat off e1 Hat Hoff) as Hlaw.
    rewrite Hseek in Hlaw. destruct Hlaw as [He2 (k' & Hk' & Hpos)].
    exists ok. split_and!; [done|done| |lia]. intros ->. exists k'. split; [done|].
    intros c Hc Hle. apply (Hpos c); [done|by rewrite <- He2|done].
  - apply wp_ret. exists true. split_and!; [done..| |done]. intros _. exists 0%nat.
    split; [done|]. intros. lia.
Qed.
Lemma fs_write_chunk_spec p off raw (zlib : bool) total e : 0 ≤ off →
  let payload := if zlib then compress raw else raw in
  let size := if zlib then Some (Z.of_nat (length raw)) else None in
  wp (fs_write_chunk (chunk_params p off (py_b64encode payload) zlib size None total))
     (chunk_post p off raw e) e.
Proof.
  intros Hoff payload size.
  pose proof (decode_write_payload_spec p off raw zlib total e) as Hdec. simpl in Hdec.
  fold payload in Hdec. fold size in Hdec.
  assert (jget "path" (chunk_params p off (py_b64encode payload) zlib size None total)
            = Some (JStr p) ∧
          jget "offset" (chunk_params p off (py_b64encode payload) zlib size None total)
            = Some (JNum off) ∧
          jget "truncate" (chunk_params p off (py_b64encode payload) zlib size None total) = None)
    as (Hp & Ho & Ht) by (by destruct zlib, total).
  revert Hdec Hp Ho Ht.
  generalize (chunk_params p off (py_b64encode payload) zlib size None total).
  intros params Hdec Hp Ho Ht. unfold fs_write_chunk.
  assert (∀ e1 d, disk e1 = disk e → chunk_post p off raw e (Raise d) e1) as Herr.
  { intros e1 d He1. split; [by rewrite He1|]. left. by rewrite He1. }
  apply wp_bind. eapply wp_run; [by apply p_str_run|]. rewrite Ho.
  rewrite (proj2 (Z.ltb_ge off 0)) by lia. rewrite Ht.
  apply wp_bind. eapply wp_mono; [exact Hdec|]. intros r e0 [-> Hr].
  destruct r as [d|x|]; [subst d|by apply Herr|done].
  apply wp_bind, wp_dos. intros fh e1 Hopen.
  pose proof (open_law p (if (off =? 0) && (off =? 0) then MODE_NEWFILE else MODE_READWRITE) e)
    as Hlaw. rewrite Hopen in Hlaw. rewrite andb_diag in Hlaw.
  destruct fh as [fh|]; [|by apply wp_raise, Herr].
  destruct Hlaw as [Hat Hd].
  assert (opened p off e e1) as Hop.
  { unfold opened. destruct (off =? 0); rewrite Hd;
      (split; [intros p' Hp'; by rewrite lookup_insert_ne|by rewrite lookup_insert_eq]). }
  apply wp_bind. eapply wp_mono; [by apply (seek_spec p fh off)|].
  intros r e2 (ok & -> & He2 & Hok & Hbad). destruct ok; simpl.
  2:{ apply wp_close. intros e3 He3. apply wp_raise.
      apply (opened_error p off raw e e1); [done|by apply Hbad|congruence]. }
  assert (opened p off e e2) as Hop2 by (unfold opened in *; by rewrite He2).
  apply wp_bind. eapply wp_mono; [by apply (write_all_spec p off fh raw e e2 Hoff Hop2), Hok|].
  intros r e3 (w & j & -> & Hj & Hoth & Hst). apply wp_close. intros e4 He4.
  destruct (Z.eqb_spec w (Z.of_nat (length raw))) as [Hw|Hw]; simpl.
  - apply wp_ret. split; [by rewrite He4|]. rewrite He4.
    rewrite (Hj Hw), take_ge in Hst by done. exact Hst.
  - apply wp_raise. split; [by rewrite He4|]. right. exists j. by rewrite He4.
Qed.

(** [fs.write] of uncompressed content: the file is what was sent when it
    answers, else unchanged or some first part of it. *)
Lemma fs_write_spec p raw e :
  wp (fs_write (JObj [("path", JStr p); ("content_b64", JStr (str (py_b64encode raw)))]))
    (λ r e', (∀ p', p' ≠ p → disk e' !! p' = disk e !! p') ∧
      match r with
      | Ret j => disk e' !! p = Some raw ∧ j = JObj [("path", JStr p); ("size", JNum (Z.of_nat (length raw)))]
      | Raise _ => disk e' !! p = disk e !! p ∨ ∃ k, disk e' !! p = Some (take k raw)
      | Spin => False
      end) e.
Proof.
  unfold fs_write. apply wp_bind. eapply wp_run; [by apply p_str_run|].
  apply wp_bind. unfold decode_write_payload. apply wp_bind. eapply wp_run; [by apply p_str_run|].
  apply wp_bind, wp_gets. rewrite txt_str, b64_decode_py_encode. simpl.
  destruct (alloc _ e); [|by apply wp_raise; split; [|left]]. apply wp_ret.
  apply wp_bind, wp_dos. intros fh e1 Hopen. pose proof (open_law p MODE_NEWFILE e) as Hlaw.
  rewrite Hopen in Hlaw. destruct fh as [fh|]; [|by apply wp_raise; rewrite Hlaw; split; [|left]].
  destruct Hlaw as [Hat Hd]. apply wp_bind. eapply wp_mono.
  { apply (write_all_spec p 0 fh raw e e1); [done| |].
    - split; [intros p' Hp'; by rewrite Hd, lookup_insert_ne|]. by rewrite Hd, lookup_insert_eq.
    - exists 0%nat. by split. }
  intros r e2 (w & j & -> & Hj & Hoth & Hst). unfold stored in Hst. simpl in Hst.
  apply wp_close. intros e3 He3. destruct (Z.eqb_spec w (Z.of_nat (length raw))) as [Hw|Hw]; simpl.
  - apply wp_ret. rewrite He3. split; [done|]. rewrite (Hj Hw), take_ge in Hst by done. by rewrite Hst, Hw.
  - apply wp_raise. rewrite He3. split; [done|]. right. by exists j.
Qed.

(** Reading methods leave the disk alone.  What [fs.read] answers, for any
    parameters that name a file. *)
Definition read_answer (p : string) (off len : Z) (c : bytes) : json :=
  let b := take (Z.to_nat (slice_size (Z.of_nat (length c)) off len)) (drop (Z.to_nat off) c) in
  JObj [("path", JStr p); ("size", JNum (Z.of_nat (length b))); ("offset", JNum off);
        ("total_size", JNum (Z.of_nat (length c))); ("content_b64", JStr (str (b64_encode b)))].
Lemma fs_read_answers params p e : jget "path" params = Some (JStr p) →
  wp (fs_read params) (λ r e', disk e' = disk e ∧
    match r with
    | Ret j => ∃ c, disk e !! p = Some c ∧
        j = read_answer p (Z.max 0 (p_int params "offset" 0)) (p_int params "length" (-1)) c
    | Raise _ => True
    | Spin => False
    end) e.
Proof.
  intros Hp. unfold fs_read. apply wp_bind. eapply wp_run; [by apply p_str_run|].
  generalize (p_int params "length" (-1)) as len. intros len.
  assert (0 ≤ Z.max 0 (p_int params "offset" 0)) as Hoff by lia. revert Hoff.
  generalize (Z.max 0 (p_int params "offset" 0)) as off. intros off Hoff.
  apply wp_bind, wp_dos. intros fh e1 Hopen. pose proof (open_law p MODE_OLDFILE e) as Hlaw.
  rewrite Hopen in Hlaw. destruct fh as [fh|]; [|by apply wp_raise].
  destruct Hlaw as (Hat & [c Hc] & Hd1). apply wp_bind, wp_gets.
  rewrite (size_law fh p 0 c e1) by (done || by rewrite Hd1).
  assert (Z.max 0 (default (-1) (Some (Z.of_nat (length c)))) = Z.of_nat (length c)) as ->
    by (simpl; lia).
  unfold read_answer. set (n := slice_size (Z.of_nat (length c)) off len).
  assert (0 ≤ n ≤ Z.max 0 (Z.of_nat (length c) - off)) as Hn.
  { unfold n, slice_size. destruct (_ && _) eqn:Hb; lia. }
  destruct (FS_READ_MAX_BYTES <? n); [apply wp_close; intros; apply wp_raise; split; [congruence|done]|].
  apply wp_bind. eapply (wp_mono _ (λ r e2, ∃ ok, r = Ret ok ∧ disk e2 = disk e ∧
    (ok = true → 0 < n → at_ fh e2 = Some (p, Z.to_nat off)))).
  { destruct (Z.ltb_spec 0 off), (Z.ltb_spec 0 n); simpl.
    2-4: apply wp_ret; exists true; split_and!; [done|done|intros _ ?]; try lia.
    2: by replace (Z.to_nat off) with 0%nat by lia.
    apply wp_dos. intros ok e2 Hseek. pose proof (seek_law fh p 0 off e1 Hat Hoff) as Hlaw.
    rewrite Hseek in Hlaw. destruct Hlaw as [He2 (k' & Hk' & Hpos)]. exists ok.
    split_and!; [done|congruence|]. intros -> _. rewrite Hk'. do 2 f_equal.
    apply (Hpos c); [done|by rewrite Hd1|lia]. }
  intros r e2 (ok & -> & He2 & Hat2). destruct ok; simpl.
  2:{ apply wp_close. intros e3 He3. apply wp_raise. split; [congruence|done]. }
  apply wp_bind, wp_gets. destruct (alloc _ e2); simpl.
  2:{ apply wp_close. intros e3 He3. apply wp_raise. split; [congruence|done]. }
  set (b := take (Z.to_nat n) (drop (Z.to_nat off) c)).
  apply wp_bind. eapply (wp_mono _ (λ r e3, ∃ got b', r = Ret (got, b') ∧ disk e3 = disk e ∧
    (0 ≤ got → got = Z.of_nat (length b) ∧ take (Z.to_nat got) b' = b))).
  { destruct (Z.ltb_spec 0 n) as [Hpos|Hpos].
    - apply wp_dos. intros [got b'] e3 Hread.
      pose proof (read_law fh p _ c n e2 (Hat2 eq_refl Hpos) ltac:(by rewrite He2) Hpos) as Hlaw.
      rewrite Hread in Hlaw. destruct Hlaw as (He3 & _ & Hgot). exists got, b'.
      split_and!; [done|congruence|]. intros Hg. destruct (Hgot Hg) as [-> ->].
      by rewrite Nat2Z.id, firstn_all.
    - apply wp_ret. exists 0, []. split_and!; [done..|]. intros _.
      subst b. by replace (Z.to_nat n) with 0%nat by lia. }
  intros r e3 (got & b' & -> & He3 & Hgot). apply wp_close. intros e4 He4. simpl.
  destruct (Z.ltb_spec got 0) as [|Hg]; [apply wp_raise; split; [congruence|done]|].
  destruct (Hgot Hg) as [Hgl Hb].
  apply wp_bind, wp_gets. destruct (alloc _ e4); simpl.
  - apply wp_ret. split; [congruence|]. exists c. split; [done|]. by rewrite Hb, Hgl.
  - apply wp_raise. split; [congruence|done].
Qed.
Lemma fs_read_spec p off len e : 0 ≤ off → 0 ≤ len →
  wp (fs_read (read_params p (Some off) (Some len))) (λ r e', disk e' = disk e ∧
    match r with
    | Ret j => ∃ c b, disk e !! p = Some c ∧
        jget "content_b64" j = Some (JStr (str (b64_encode b))) ∧
        b = take (Z.to_nat len) (drop (Z.to_nat off) c)
    | Raise _ => True
    | Spin => False
    end) e.
Proof.
  intros Hoff Hlen. eapply wp_mono; [by apply (fs_read_answers _ p)|].
  intros [j|x|] e' [He' Hj]; (split; [done|]); [|done..]. destruct Hj as (c & Hc & ->).
  exists c. eexists. split_and!; [done|reflexivity|].
  change (p_int (read_params p (Some off) (Some len)) "offset" 0) with off.
  change (p_int (read_params p (Some off) (Some len)) "length" (-1)) with len.
  rewrite (Z.max_r 0 off) by lia. unfold slice_size. destruct (_ && _) eqn:Hb; [done|].
  rewrite !take_ge by (rewrite length_drop; lia). done.
Qed.

Lemma fs_stat_keeps p e :
  wp (fs_stat (JObj [("path", JStr p)])) (λ r e', e' = e ∧
    match r with
    | Ret j => match disk e !! p with
               | Some c => jget "size" j = Some (JNum (Z.of_nat (length c)))
               | None => jget "size" j = None ∨ jget "size" j = Some (JNum 0)
               end
    | Raise _ => True
    | Spin => False
    end) e.
Proof.
  unfold fs_stat. apply wp_bind. eapply wp_run; [by apply p_str_run|].
  apply wp_bind, wp_gets. destruct (dos_examine p e) as [ed|] eqn:Hed; [|by apply wp_raise].
  apply wp_ret. split; [done|]. apply examine_law in Hed. simpl.
  destruct (disk e !! p); [destruct Hed as [-> ->]; done|by rewrite Hed; right].
Qed.

Lemma hash_loop_spec fuel fh p c acc k e :
  at_ fh e = Some (p, k) → disk e !! p = Some c → (length c - k < fuel)%nat →
  wp (hash_loop fuel fh p acc) (λ r e', disk e' = disk e ∧
    match r with Ret b => b = acc ++ drop k c | Raise _ => True | Spin => False end) e.
Proof.
  revert acc k e. induction fuel as [|fuel IH]; intros acc k e Hat Hc Hfuel; [lia|]. simpl.
  apply wp_bind, wp_dos. intros [got b] e1 Hread.
  pose proof (read_law fh p k c 32768 e Hat Hc ltac:(lia)) as Hlaw. rewrite Hread in Hlaw.
  destruct Hlaw as (He1 & Hat1 & Hgot). simpl.
  destruct (Z.ltb_spec got 0) as [|Hg].
  { apply wp_close. intros e2 He2. apply wp_raise. split; [congruence|done]. }
  destruct (Hgot Hg) as [Hb Hlen]. destruct (Z.eqb_spec got 0) as [Hz|Hz].
  { apply wp_close. intros e2 He2. apply wp_ret. split; [congruence|].
    assert (length b = 0)%nat as Hb0 by lia. rewrite Hb, length_take, length_drop in Hb0.
    by rewrite drop_ge, app_nil_r by lia. }
  assert (length b ≤ length c - k)%nat as Hle.
  { rewrite Hb, length_take, length_drop. lia. }
  eapply wp_mono; [apply (IH _ (k + Z.to_nat got)%nat)|].
  - done.
  - by rewrite He1.
  - lia.
  - intros r e2 [He2 Hr]. split; [congruence|]. destruct r as [d|x|]; [|done..]. rewrite Hr.
    rewrite <- (assoc_L (++)). f_equal. rewrite <- drop_drop.
    rewrite Hlen, Nat2Z.id, firstn_all.
    assert (b = take (length b) (drop k c)) as Hbt.
    { rewrite Hb at 1. destruct (decide (length (drop k c) ≤ Z.to_nat 32768))%nat as [Hs|Hs].
      - rewrite take_ge by lia. rewrite take_ge; [done|]. rewrite Hb, length_take. lia.
      - f_equal. rewrite Hb, length_take. lia. }
    rewrite Hbt at 1. apply take_drop.
Qed.
#[local] Arguments hash_loop : simpl never.
Lemma fs_hash_spec p e :
  wp (fs_hash sha256 (JObj [("path", JStr p); ("algo", JStr "sha256")])) (λ r e',
    disk e' = disk e ∧
    match r with
    | Ret j => ∀ c, disk e !! p = Some c → jget "hash" j = Some (JStr (sha256 c))
    | Raise _ => True
    | Spin => False
    end) e.
Proof.
  unfold fs_hash. apply wp_bind. eapply wp_run; [by apply p_str_run|]. simpl.
  apply wp_bind, wp_dos. intros fh e1 Hopen. pose proof (open_law p MODE_OLDFILE e) as Hlaw.
  rewrite Hopen in Hlaw. destruct fh as [fh|]; [|by apply wp_raise].
  destruct Hlaw as (Hat & [c Hc] & Hd1). apply wp_bind, wp_gets.
  destruct (alloc 32768 e1); simpl.
  2:{ apply wp_close. intros e2 He2. apply wp_raise. split; [congruence|done]. }
  apply wp_bind, wp_gets. rewrite (size_law fh p 0 c e1) by (done || by rewrite Hd1).
  apply wp_bind. eapply wp_mono.
  { apply (hash_loop_spec _ fh p c [] 0 e1 Hat); [by rewrite Hd1|]. simpl. lia. }
  intros r e2 [He2 Hr]. destruct r as [d|x|]; [|split; [congruence|done]|done].
  apply wp_ret. split; [congruence|]. intros c' Hc'. rewrite Hc in Hc'. injection Hc' as <-.
  simpl. by rewrite Hr, drop_0.
Qed.
End specs.

(* ------------------------------------------------------------------ *)
(** ** Daemons behind unreliable connections *)

(** Each target runs a daemon; each exchange may lose its request or its
    reply (the caller then gets the transport's report), in any pattern. *)
Inductive fate := Deliver | LoseRequest | LoseReply.
Record lan (E : Type) := Lan { machine : string → E; fates : list fate }.
Arguments Lan {E}. Arguments machine {E}. Arguments fates {E}.

Section lan.
Context {E : Type} `{Dos E}.
Context (sha256 : bytes → string) (others : list (string * (json → M E (Z * option json) json))).

Definition lost (method : string) (ran : bool) : exn :=
  ERpc TargetError (Some (failure_data method ran)).
Definition lan_call (t method : string) (params : json) (timeout : Z) : M (lan E) exn json := λ n,
  let fs := tail (fates n) in
  match hd Deliver (fates n) with
  | LoseRequest => (Raise (lost method false), Lan (machine n) fs)
  | f =>
      let '(reply, e) := rpc_dispatch sha256 others (envelope 1 method (Some params)) (machine n t) in
      let n' := Lan (λ t', if decide (t' = t) then e else machine n t') fs in
      match f, reply with
      | Deliver, Some j => (response j, n')
      | _, _ => (Raise (lost method true), n')
      end
  end.
#[export] Instance lan_rpc : Rpc (lan E) := {| call := lan_call; pause _ := mret tt |}.

(** An exchange runs the method's handler or nothing; a value the caller gets
    is the handler's. *)
Lemma lan_call_spec t method handler params timeout n Q :
  find_method sha256 others method = Some handler →
  wp (handler params) Q (machine n t) →
  let '(r, n') := lan_call t method params timeout n in
  r ≠ Spin ∧ (∀ t', t' ≠ t → machine n' t' = machine n t') ∧
  ((machine n' t = machine n t ∧ ∃ x, r = Raise x) ∨
   ∃ r0, Q r0 (machine n' t) ∧ ∀ j, r = Ret j → r0 = Ret j).
Proof.
  intros Hm Hwp. unfold lan_call.
  assert (∀ f, f ≠ LoseRequest →
    let '(reply, e) := rpc_dispatch sha256 others (envelope 1 method (Some params)) (machine n t) in
    ∃ r0, Q r0 e ∧ match reply with
                   | Some j => response j ≠ Spin ∧ ∀ v, response j = Ret v → r0 = Ret v
                   | None => True
                   end) as Hdisp.
  { intros f _. unfold rpc_dispatch. simpl. rewrite Hm. unfold wp in Hwp.
    destruct (handler params (machine n t)) as [[j|[code data]|] e]; simpl in *.
    - exists (Ret j). split; [done|]. unfold response. simpl. split; [done|]. by intros v [= ->].
    - exists (Raise (code, data)). split; [done|]. unfold response. simpl. done.
    - by exists Spin. }
  destruct (hd Deliver (fates n)).
  2:{ simpl. split_and!; [done..|]. left. split; [done|by eexists]. }
  all: specialize (Hdisp Deliver ltac:(done));
    destruct (rpc_dispatch _ _ _ _) as [[j|] e]; destruct Hdisp as (r0 & HQ & Hr); simpl;
    (split_and!; [try apply Hr; try done|intros t' Hne; by rewrite decide_False|]);
    right; rewrite decide_True by done; exists r0; (split; [done|]); try done; apply Hr.
Qed.
End lan.

Section service.
Context {E : Type} `{DosLaws E compress}.
Context (sha256 : bytes → string) (others : list (string * (json → M E (Z * option json) json))).

Definition lan_file (t p : string) (n : lan E) : option bytes := disk (machine n t) !! p.
#[local] Existing Instance lan_rpc.
Lemma lan_reads t method handler params timeout n (P : json → Prop) :
  find_method sha256 others method = Some handler →
  wp (handler params) (λ r e', disk e' = disk (machine n t) ∧
    match r with Ret j => P j | Raise _ => True | Spin => False end) (machine n t) →
  let '(r, n') := lan_call sha256 others t method params timeout n in
  (∀ t' p', lan_file t' p' n' = lan_file t' p' n) ∧
  match r with Ret j => P j | Raise _ => True | Spin => False end.
Proof.
  intros Hm Hwp. pose proof (lan_call_spec sha256 others t method handler params timeout n _ Hm Hwp) as Hc.
  destruct (lan_call _ _ _ _ _ _ _) as [r n']. destruct Hc as (Hspin & Hoth & Hc).
  assert (disk (machine n' t) = disk (machine n t)) as Hd.
  { destruct Hc as [[-> _]|(r0 & [? _] & _)]; done. }
  split.
  - intros t' p'. unfold lan_file. destruct (decide (t' = t)) as [->|Hne]; [by rewrite Hd|].
    by rewrite Hoth.
  - destruct r as [j|x|]; [|done..]. destruct Hc as [[_ [x [=]]]|(r0 & [_ Hr0] & Hj)].
    by rewrite (Hj j eq_refl) in Hr0.
Qed.
#[export, refine] Instance lan_service : FileService (lan E) (H := lan_rpc sha256 others) compress sha256 :=
  {| file := lan_file |}.
Proof.
  - intros t p off raw zlib total n Hoff. simpl.
    pose proof (fs_write_chunk_spec p off raw zlib total (machine n t) Hoff) as Hwp.
    pose proof (lan_call_spec sha256 others t "fs.write_chunk" _ _ 300000 n _ eq_refl Hwp) as Hc.
    destruct (lan_call _ _ _ _ _ _ _) as [r n']. destruct Hc as (Hspin & Hoth & Hc).
    unfold lan_file. split.
    + intros t' p' Hne. destruct (decide (t' = t)) as [->|Ht]; [|by rewrite Hoth].
      destruct Hc as [[-> _]|(r0 & [Hp _] & _)]; [done|]. apply Hp. congruence.
    + destruct Hc as [[-> [x ->]]|(r0 & [_ Hr0] & Hj)]; [by left|].
      destruct r as [j|x|]; [by rewrite (Hj j eq_refl) in Hr0| |done].
      destruct r0 as [j|y|]; [|done..]. right. exists (length raw). by rewrite take_ge.
  - intros t p off len n Hoff Hlen. simpl.
    pose proof (lan_reads t "fs.read" _ (read_params p (Some off) (Some len)) 120000 n
      (λ j, ∃ c b, lan_file t p n = Some c ∧
        jget "content_b64" j = Some (JStr (str (py_b64encode b))) ∧
        b `prefix_of` take (Z.to_nat len) (drop (Z.to_nat off) c) ∧
        (b = [] → take (Z.to_nat len) (drop (Z.to_nat off) c) = [])) eq_refl) as Hr.
    apply Hr. eapply wp_mono; [by apply fs_read_spec|].
    intros [j|x|] e' [He' Hj]; (split; [done|]); [|done..].
    destruct Hj as (c & b & Hc & Hb & ->). exists c. eexists. by split_and!.
  - intros t p n. simpl. apply (lan_reads t "fs.stat" _ _ 30000 n
      (λ j, match lan_file t p n with
            | Some c => jget "size" j = Some (JNum (Z.of_nat (length c)))
            | None => jget "size" j = None ∨ jget "size" j = Some (JNum 0)
            end) eq_refl).
    eapply wp_mono; [apply fs_stat_keeps|]. by intros r e' [-> Hr].
  - intros t p n. simpl. apply (lan_reads t "fs.hash" _ _ 120000 n
      (λ j, ∀ c, lan_file t p n = Some c → jget "hash" j = Some (JStr (sha256 c))) eq_refl).
    apply fs_hash_spec.
  - intros ms n. exists (Ret tt), n. by split_and!.
Defined.

(** C6: the daemon's file methods, reached through the method dispatch over
    a connection that may lose any request or reply, implement the contract
    the transfer code was proved against, with the contents of the targets'
    disks as its files. *)
Theorem daemon_implements_file_service :
  ∃ fs : FileService (lan E) (H := lan_rpc sha256 others) compress sha256,
    ∀ t p n, file (FileService := fs) t p n = disk (machine n t) !! p.
Proof. by exists lan_service. Qed.
End service.
