(* ===== verification/FileMethods.v ===== *)
(** * The daemon's other file methods: [mcpd/src/methods/fs.c], [amigautil.c]

    [fs.list], [fs.delete], [fs.makedir], [fs.rename], [fs.protect], [fs.copy] and
    [fs.sync], and running a command with its output caught.  Together with
    [Daemon] these are all of [fs.*]. *)
From S2P Require Import Prelude Py Bytes Daemon.

(** An entry [ExamineDir] gives. *)
Record dirent := Entry { d_name : text; d_dir : bool; d_size : Z }.
(** What these methods use of [dos.library] besides [Dos]: locks are numbers, a
    directory is read as the list of its entries, and [dos_system] runs a command
    with its output going to an open file. *)
Class DosCalls (E : Type) `{Dos E} := {
  dos_lock : string → E → option nat;
  dos_lock_in : nat → text → E → option nat;
  dos_dir : nat → E → option (list dirent);
  dos_delete : string → E → bool * E;
  dos_create_dir : string → E → bool * E;
  dos_rename : string → string → E → bool * E;
  dos_set_protection : string → Z → E → bool * E;
  dos_system : string → nat → E → Z * E;
  dos_handler : string → E → option nat;
  dos_flush : nat → E → bool * E;
  find_task : E → Z }.

(** A C string ends at its first NUL; [snprintf] into [n] bytes keeps [n - 1]. *)
Fixpoint c_str (s : text) : text := match s with [] => [] | c :: s => if decide (ord c = 0) then [] else c :: c_str s end.
Definition snprintf (n : nat) (s : text) : text := take (n - 1) s.
Definition int32 (z : Z) : Z := (z + 2 ^ 31) mod 2 ^ 32 - 2 ^ 31.
Definition uint32 (z : Z) : Z := z mod 2 ^ 32.
Definition flag (params : json) (name : string) : bool := match jget name params with Some (JBool b) => b | _ => false end.
Definition dquote : text := ["034"%char].

Section methods.
Context {E : Type} `{DosCalls E}.
Abbreviation MD := (M E (Z * option json)).

(** *** fs.list *)

Definition relative (prefix name : text) : text :=
  match prefix with [] => name | _ => snprintf 512 (prefix ++ txt "/" ++ name) end.
Definition entry_json (name : text) (e : dirent) : json :=
  JObj ([("name", JStr (str name)); ("type", JStr (if d_dir e then "dir" else "file"))] ++
        (if d_dir e then [] else [("size", JNum (d_size e))])).
(** [child_prefix]: a top-level name is cut like the rest. *)
Definition child_prefix (prefix name : text) : text :=
  match prefix with [] => snprintf 512 name | _ => snprintf 512 (prefix ++ txt "/" ++ name) end.
(** [_list_emit] of the entries of [d]; [room] is how much deeper it goes. *)
Fixpoint list_emit (room : nat) (w : E) (recursive : bool) (prefix : text) (d : nat) (es : list dirent) : list json :=
  flat_map (λ e,
    entry_json (relative prefix (d_name e)) e ::
    (if recursive && d_dir e then
       match room with
       | O => []
       | S room =>
           match dos_lock_in d (d_name e) w with
           | None => []
           | Some sub =>
               match dos_dir sub w with
               | None => []
               | Some children => list_emit room w recursive (child_prefix prefix (d_name e)) sub children
               end
           end
       end
     else [])) es.
Definition clamp_depth (n : Z) : Z := let d := int32 n in if d <? 1 then 1 else if 16 <? d then 16 else d.
Definition fs_list (params : json) : MD json :=
  path ← p_str params "path";
  let recursive := flag params "recursive" in
  let max_depth := clamp_depth (p_int params "max_depth" 8) in
  lock ← gets (dos_lock path);
  match lock with
  | None => fs_error_for path
  | Some d =>
      es ← gets (dos_dir d);
      match es with
      | None => fs_error_for path
      | Some es => w ← get; mret (JArr (list_emit (Z.to_nat max_depth) w recursive [] d es))
      end
  end.

(** *** Commands *)

Definition AMIGA_CAP_MAX : Z := 2 ^ 20.
Definition hex8 (z : Z) : text := let h := show_base 16 z in repeat "0"%char (8 - length h) ++ h.
Definition temp_name (task : Z) : string := str (txt "T:mcpd_" ++ hex8 (uint32 task) ++ txt "_out").
(** [amiga_run_command]: the exit code and, unless something failed, what was
    printed.  Output is Latin-1, which JSON is given as UTF-8: the same text. *)
Definition amiga_run_command (cmd : string) : MD (Z * option text) :=
  tmp ← gets (λ e, temp_name (find_task e));
  out ← dos (dos_open tmp MODE_NEWFILE);
  match out with
  | None => mret (-1, None)
  | Some out =>
      rc ← dos (dos_system cmd out);
      modify (dos_close out);;
      input ← dos (dos_open tmp MODE_OLDFILE);
      match input with
      | None => dos (dos_delete tmp);; mret (rc, Some [])
      | Some input =>
          sz ← gets (dos_file_size input);
          let size := default 0 sz in
          if size <=? 0 then modify (dos_close input);; dos (dos_delete tmp);; mret (rc, Some [])
          else
            let size := if AMIGA_CAP_MAX <? size then AMIGA_CAP_MAX else size in
            ok ← gets (alloc (size + 1));
            if negb ok then modify (dos_close input);; dos (dos_delete tmp);; mret (rc, None)
            else
              got ← dos (dos_read input size);
              modify (dos_close input);;
              dos (dos_delete tmp);;
              mret (rc, Some (c_str (take (Z.to_nat (fst got)) (snd got))))
      end
  end.
(** A command of less than 1024 bytes, run and judged by its exit code. *)
Definition run_or_fail (cmd : text) (about : list (string * json)) : MD text :=
  if (1024 <=? length cmd)%nat then raise (MCPD_ERR_INVPARAMS, None)
  else
    r ← amiga_run_command (str cmd);
    match r with
    | (_, None) => raise (MCPD_ERR_INTERNAL, None)
    | (rc, Some out) =>
        if rc =? 0 then mret out
        else raise (MCPD_ERR_TARGET, Some (JObj (about ++ [("rc", JNum rc); ("output", JStr (str out))])))
    end.
Definition delete_command (path : string) : text := txt "Delete " ++ dquote ++ txt path ++ dquote ++ txt " ALL QUIET".
Definition copy_command (src dst : string) : text :=
  txt "Copy " ++ dquote ++ txt src ++ dquote ++ txt " TO " ++ dquote ++ txt dst ++ dquote ++ txt " CLONE".

(** *** The methods *)

Definition accepted (path : string) (ok : bool) (answer : json) : MD json :=
  if ok then mret answer else fs_error_for path.
Definition fs_delete (params : json) : MD json :=
  path ← p_str params "path";
  let recursive := flag params "recursive" in
  (if recursive then run_or_fail (delete_command path) [("path", JStr path)];; mret tt
   else ok ← dos (dos_delete path); if ok : bool then mret tt else fs_error_for path);;
  mret (JObj [("path", JStr path); ("ok", JBool true); ("recursive", JBool recursive)]).
Definition fs_makedir (params : json) : MD json :=
  path ← p_str params "path";
  ok ← dos (dos_create_dir path);
  accepted path ok (JObj [("path", JStr path); ("ok", JBool true)]).
Definition fs_rename (params : json) : MD json :=
  src ← p_str params "src";
  dst ← p_str params "dst";
  ok ← dos (dos_rename src dst);
  accepted src ok (JObj [("src", JStr src); ("dst", JStr dst); ("ok", JBool true)]).
Definition fs_protect (params : json) : MD json :=
  path ← p_str params "path";
  let bits := p_int params "bits" (-1) in
  if bits <? 0 then raise (MCPD_ERR_INVPARAMS, Some (JObj [("missing", JStr "bits")]))
  else
    ok ← dos (dos_set_protection path (uint32 bits));
    accepted path ok (JObj [("path", JStr path); ("bits", JNum (uint32 bits)); ("ok", JBool true)]).
Definition fs_copy (params : json) : MD json :=
  src ← p_str params "src";
  dst ← p_str params "dst";
  out ← run_or_fail (copy_command src dst) [("src", JStr src); ("dst", JStr dst)];
  mret (JObj [("src", JStr src); ("dst", JStr dst); ("output", JStr (str out)); ("ok", JBool true)]).
Definition fs_sync (params : json) : MD json :=
  let path := match jget "path" params with
              | Some (JStr p) => if bool_decide (p = ""%string) then "SYS:"%string else p
              | _ => "SYS:"%string
              end in
  port ← gets (dos_handler path);
  match port with
  | None => raise (MCPD_ERR_TARGET, Some (JObj [("path", JStr path)]))
  | Some port =>
      flushed ← dos (dos_flush port);
      mret (JObj [("path", JStr path); ("flushed", JBool flushed)])
  end.
(** Their rows of the method table: an instance of what [Daemon] leaves open. *)
Definition file_methods : list (string * (json → MD json)) :=
  [("fs.list", fs_list); ("fs.delete", fs_delete); ("fs.makedir", fs_makedir); ("fs.rename", fs_rename);
   ("fs.protect", fs_protect); ("fs.copy", fs_copy); ("fs.sync", fs_sync)]%string.
End methods.

(* ------------------------------------------------------------------ *)
(** ** What a listing holds *)

Section listing.
Context {E : Type} `{DosCalls E} (w : E).

(** [e] lies below the directory [d] of entries [es], at the path [names]; the
    directories on the way could be locked and read. *)
Inductive below : nat → list dirent → list text → dirent → Prop :=
| B_here d es e : e ∈ es → below d es [d_name e] e
| B_deeper d es e sub children names e' :
    e ∈ es → d_dir e = true → dos_lock_in d (d_name e) w = Some sub → dos_dir sub w = Some children →
    below sub children names e' → below d es (d_name e :: names) e'.
(** The name an entry is listed under. *)
Fixpoint shown (prefix : text) (names : list text) : text :=
  match names with
  | [] => prefix
  | [name] => relative prefix name
  | name :: names => shown (child_prefix prefix name) names
  end.
Lemma shown_cons prefix name names : names ≠ [] → shown prefix (name :: names) = shown (child_prefix prefix name) names.
Proof. by destruct names. Qed.
Lemma below_names d es names e : below d es names e → names ≠ [].
Proof. by destruct 1. Qed.

(** A recursive listing holds exactly what lies below, as deep as it goes. *)
Theorem list_exact room prefix d es j :
  j ∈ list_emit room w true prefix d es ↔
  ∃ names e, below d es names e ∧ (length names ≤ S room)%nat ∧ j = entry_json (shown prefix names) e.
Proof.
  revert prefix d es j. induction room as [|room IH]; intros prefix d es j.
  - cbn [list_emit]. rewrite list_elem_of_In, in_flat_map. split.
    + intros (e & He & [<-|Hin]); [|by destruct (true && d_dir e)]. exists [d_name e], e.
      split_and!; [constructor; by apply list_elem_of_In|done|done].
    + intros (names & e & Hb & Hl & ->). destruct Hb as [d es e He|d es e sub children names e' He Hd Hs Hc Hb].
      * exists e. split; [by apply list_elem_of_In|by left].
      * apply below_names in Hb. destruct names; [done|]. simpl in Hl. lia.
  - cbn [list_emit]. rewrite list_elem_of_In, in_flat_map. split.
    + intros (e & He%list_elem_of_In & [<-|Hin]); [exists [d_name e], e; split_and!; [by constructor|simpl; lia|done]|].
      destruct (d_dir e) eqn:Hd; cbn [andb] in Hin; [|done].
      destruct (dos_lock_in d (d_name e) w) as [sub|] eqn:Hs; [|done]. destruct (dos_dir sub w) as [children|] eqn:Hc; [|done].
      apply list_elem_of_In, IH in Hin as (names & e' & Hb & Hl & ->). exists (d_name e :: names), e'.
      split_and!; [by eapply B_deeper|simpl; lia|]. rewrite shown_cons; [done|by eapply below_names].
    + intros (names & e & Hb & Hl & ->). destruct Hb as [d es e He|d es e sub children names e' He Hd Hs Hc Hb].
      * exists e. split; [by apply list_elem_of_In|by left].
      * exists e. split; [by apply list_elem_of_In|right]. rewrite Hd. cbn [andb]. rewrite Hs, Hc.
        apply list_elem_of_In, IH. exists names, e'. rewrite shown_cons by (by eapply below_names).
        split_and!; [done|simpl in Hl; lia|done].
Qed.
(** A plain listing holds the entries of the drawer, in order. *)
Theorem list_plain room d es : list_emit room w false [] d es = map (λ e, entry_json (d_name e) e) es.
Proof. destruct room; (induction es as [|e es IH]; [done|exact (f_equal (cons _) IH)]). Qed.
(** Names are the paths, as long as they stay below 512 characters. *)
Lemma snprintf_whole n s : (length s < n)%nat → snprintf n s = s.
Proof. intros Hl. apply take_ge. lia. Qed.
Lemma shown_prefixed prefix names : prefix ≠ [] → names ≠ [] →
  (length (prefix ++ txt "/" ++ join (txt "/") names) < 512)%nat →
  shown prefix names = prefix ++ txt "/" ++ join (txt "/") names.
Proof.
  intros Hp Hn. revert prefix Hp. induction names as [|n [|n' names] IH]; intros prefix Hp Hl; [done|..].
  - destruct prefix; [done|]. by apply snprintf_whole.
  - rewrite shown_cons by done. assert (child_prefix prefix n = prefix ++ txt "/" ++ n) as ->.
    { destruct prefix as [|c prefix]; [done|]. apply snprintf_whole. cbn [join] in Hl. rewrite !length_app in *. lia. }
    change (join (txt "/") (n :: n' :: names)) with (n ++ txt "/" ++ join (txt "/") (n' :: names)) in *.
    rewrite IH, <-!(assoc_L (++)); [done|done|by destruct prefix|]. by rewrite <-!(assoc_L (++)).
Qed.
Theorem shown_path names : names ≠ [] → Forall (λ n, n ≠ []) names → (length (join (txt "/") names) < 512)%nat →
  shown [] names = join (txt "/") names.
Proof.
  intros Hn Hf Hl. destruct names as [|n [|n' names]]; [done..|]. rewrite shown_cons by done.
  apply Forall_cons in Hf as [Hne _]. cbn [join] in Hl.
  assert (child_prefix [] n = n) as -> by (apply snprintf_whole; rewrite length_app in Hl; lia).
  by apply shown_prefixed.
Qed.
End listing.

(* ------------------------------------------------------------------ *)
(** ** Commands and examples *)

(** A command that does not fit its buffer is refused before anything is done. *)
Lemma too_long_refused {E} `{DosCalls E} cmd about (e : E) : (1024 ≤ length cmd)%nat →
  run_or_fail cmd about e = (Raise (MCPD_ERR_INVPARAMS, None), e).
Proof. intros Hl. unfold run_or_fail. by replace (1024 <=? length cmd)%nat with true by (symmetry; by apply Nat.leb_le). Qed.
(** A path is put between quotes as it is: one with a quote in it ends them, and
    what follows is read as arguments of [Delete]. *)
Example ex_quote_in_path :
  delete_command (str (txt "RAM:x" ++ dquote ++ txt " SYS:Prefs " ++ dquote)) =
    txt "Delete " ++ dquote ++ txt "RAM:x" ++ dquote ++ txt " SYS:Prefs " ++ dquote ++ dquote ++ txt " ALL QUIET".
Proof. vm_compute. reflexivity. Qed.

(** A drawer with a file and a drawer that holds a file and an empty drawer. *)
#[local] Instance shelf_dos : Dos unit := {|
  dos_open _ _ := (None,.); dos_file_size _ _ := None; dos_seek _ _ := (false,.); dos_read _ _ := ((-1, []),.);
  dos_write _ _ := (-1,.); dos_close _ := id; dos_examine _ _ := None; alloc _ _ := true;
  inflate _ _ := None; inflate_stream _ := None |}.
#[local] Instance shelf : DosCalls unit := {|
  dos_lock p _ := if bool_decide (p = "RAM:"%string) then Some 0%nat else None;
  dos_lock_in d n _ := if bool_decide (n = txt "S") then Some 1%nat else if bool_decide (n = txt "T") then Some 2%nat else None;
  dos_dir d _ := match d with
                 | 0%nat => Some [Entry (txt "a") false 3; Entry (txt "S") true 0; Entry (txt "locked") true 0]
                 | 1%nat => Some [Entry (txt "b") false 0; Entry (txt "T") true 0]
                 | _ => Some []
                 end;
  dos_delete _ := (false,.); dos_create_dir _ := (true,.); dos_rename _ _ := (true,.); dos_set_protection _ _ := (true,.);
  dos_system _ _ := (0,.); dos_handler _ _ := Some 0%nat; dos_flush _ := (true,.); find_task _ := 0 |}.
Definition names_of (r : res (Z * option json) json) : list string :=
  match r with
  | Ret (JArr l) => map (λ j, match jget "name" j with Some (JStr s) => s | _ => "" end) l
  | _ => []
  end%string.
Definition ask_list (more : list (string * json)) : list string :=
  names_of (fs_list (JObj (("path"%string, JStr "RAM:") :: more)) tt).1.
(** A drawer that cannot be locked is an entry without contents. *)
Example ex_list :
  ask_list [] = ["a"; "S"; "locked"]%string ∧
  ask_list [("recursive", JBool true)]%string = ["a"; "S"; "S/b"; "S/T"; "locked"]%string.
Proof. vm_compute. by split. Qed.
Lemma shown_path_witness : shown [] [txt "S"; txt "b"] = txt "S/b".
Proof. apply (shown_path [txt "S"; txt "b"]); [done|by repeat constructor|vm_compute; lia]. Defined.
