(* ===== verification/Transfer.v ===== *)
(** * File transfer, put together

    A RAM disk as the AmigaDOS of the examples, whole transfers over a lossy
    connection, and the size of a default chunk against the frame limit. *)
From S2P Require Import Prelude Py Bytes Config Net Mcpd Fs Daemon.

(* ------------------------------------------------------------------ *)
(** ** A RAM disk *)

Record ramdisk := Ram {
  files : gmap string bytes;
  open_files : gmap nat (string * nat);
  next_fh : nat }.
(** A toy compressor: a marker byte in front. *)
Definition ex_compress (b : bytes) : bytes := "z"%char :: b.
Definition ex_inflate (b : bytes) : option bytes :=
  match b with c :: b => if decide (c = "z"%char) then Some b else None | [] => None end.

#[export] Instance ram_dos : Dos ramdisk := {|
  dos_open p m := λ e : ramdisk,
    let opened f := (Some (next_fh e), Ram f (<[next_fh e := (p, 0%nat)]> (open_files e)) (S (next_fh e))) in
    match m with
    | MODE_NEWFILE => opened (<[p := []]> (files e))
    | MODE_READWRITE => opened (<[p := default [] (files e !! p)]> (files e))
    | MODE_OLDFILE => match files e !! p with Some _ => opened (files e) | None => (None, e) end
    end;
  dos_file_size h := λ e : ramdisk,
    '(p, _) ← open_files e !! h; c ← files e !! p; Some (Z.of_nat (length c));
  dos_seek h n := λ e : ramdisk,
    match open_files e !! h with
    | Some (p, _) => (true, Ram (files e) (<[h := (p, Z.to_nat n)]> (open_files e)) (next_fh e))
    | None => (false, e)
    end;
  dos_read h n := λ e : ramdisk,
    match open_files e !! h with
    | Some (p, k) =>
        let b := take (Z.to_nat n) (drop k (default [] (files e !! p))) in
        ((Z.of_nat (length b), b),
         Ram (files e) (<[h := (p, (k + length b)%nat)]> (open_files e)) (next_fh e))
    | None => ((-1, []), e)
    end;
  dos_write h data := λ e : ramdisk,
    match open_files e !! h with
    | Some (p, k) =>
        (Z.of_nat (length data),
         Ram (<[p := splice (default [] (files e !! p)) k data]> (files e)) (open_files e) (next_fh e))
    | None => (-1, e)
    end;
  dos_close h := λ e : ramdisk, Ram (files e) (delete h (open_files e)) (next_fh e);
  dos_examine p := λ e : ramdisk,
    c ← files e !! p;
    Some {| x_name := p; x_dir := false; x_size := Z.of_nat (length c); x_date := None |};
  alloc n := λ e : ramdisk, true;
  inflate b n := ex_inflate b;
  inflate_stream := ex_inflate |}.
#[export, refine] Instance ram_laws : DosLaws ramdisk ex_compress :=
  {| disk := files; at_ h e := open_files e !! h |}.
Proof.
  - intros p [| |] e; simpl.
    + destruct (files e !! p) eqn:Hp; [|done]. simpl. by rewrite lookup_insert_eq.
    + by rewrite lookup_insert_eq.
    + by rewrite lookup_insert_eq.
  - intros h p k c e Hat Hc. simpl. by rewrite Hat; simpl; rewrite Hc.
  - intros h p k n e Hat Hn. simpl. rewrite Hat. split; [done|].
    exists (Z.to_nat n). simpl. by rewrite lookup_insert_eq.
  - intros h p k c n e Hat Hc Hn. simpl. rewrite Hat, Hc. simpl. split; [done|].
    rewrite lookup_insert_eq, Nat2Z.id. by split.
  - intros h p k data e Hat. simpl. rewrite Hat. split.
    + intros p' Hp'. simpl. by rewrite lookup_insert_ne.
    + exists (length data). split; [done|]. intros c Hc Hk. simpl.
      by rewrite lookup_insert_eq, Hc, firstn_all.
  - done.
  - intros p ed e. simpl. destruct (files e !! p) as [c|] eqn:Hc; [|done]. simpl.
    by intros [= <-].
  - by intros raw out n [= <-].
  - by intros raw out [= <-].
Defined.

(** A digest for the examples: the length in decimal. *)
Definition ex_sha (b : bytes) : string := str (show_int (Z.of_nat (length b))).
#[local] Existing Instance lan_rpc.
Definition ex_machine (f : gmap string bytes) : string → ramdisk := λ _, Ram f ∅ 0.
Definition ex_host (local remote : gmap string bytes) (fs : list fate) : host (lan ramdisk) :=
  Host local (Lan (ex_machine remote) fs).
Definition ex_data : bytes := txt "the quick brown fox".

(** Seven bytes at a time; the second reply and the fourth request are lost. *)
Example upload_run :
  let '(r, h') := chunked_upload (H := lan_rpc ex_sha []) ex_compress "sam" "src" "RAM:dst" 7 CNone 2 0 true
                    (ex_host {["src" := ex_data]} ∅ [Deliver; LoseReply; Deliver; LoseRequest]) in
  (r, files (machine (svc h') "sam") !! "RAM:dst")
  = (Ret {| bytes_total := 19; bytes_sent_compressed := 19; chunks := 3; compressed_chunks := 0 |},
     Some ex_data).
Proof. vm_compute. reflexivity. Qed.

(* ------------------------------------------------------------------ *)
(** ** The theorems at concrete transfers *)

Lemma chunked_upload_exact_witness :
  let h := ex_host {["src" := ex_data]} {["RAM:dst" := txt "the qui"]} [LoseReply; Deliver] in
  wp (chunked_upload (H := lan_rpc ex_sha []) ex_compress "sam" "src" "RAM:dst" 5 CZlib 2 7 true)
     (λ r h', lfs h' = lfs h ∧
        upload_outcome (H0 := lan_service ex_sha []) "sam" "RAM:dst" (txt "the qui") ex_data 5 (svc h) r (svc h')) h.
Proof.
  apply (chunked_upload_exact (H0 := lan_service ex_sha []) "sam" "src" "RAM:dst" 5 CZlib 2 true
           (txt "the qui") ex_data).
  - lia.
  - reflexivity.
  - right. reflexivity.
Defined.

Lemma fs_upload_mirrors_witness :
  let h := ex_host {["src" := ex_data]} {["RAM:dst" := txt "the q"]} [Deliver; LoseRequest; LoseReply] in
  wp (fs_upload (H := lan_rpc ex_sha []) ex_compress ex_sha "sam" "src" "RAM:dst" 4 CNone true true)
     (λ r h', lfs h' = lfs h ∧
        others (H0 := lan_service ex_sha []) "sam" "RAM:dst" (svc h) (svc h') ∧
        match r with
        | Ret _ => lan_file "sam" "RAM:dst" (svc h') = Some ex_data
        | Raise _ => resumable (H0 := lan_service ex_sha []) "sam" "RAM:dst" ex_data (svc h')
        | Spin => False
        end) h.
Proof.
  apply (fs_upload_mirrors (H0 := lan_service ex_sha []) "sam" "src" "RAM:dst" 4 CNone true true ex_data).
  - lia.
  - reflexivity.
  - discriminate.
  - intros c Hc. vm_compute in Hc. injection Hc as <-. by exists (drop 5 ex_data).
Defined.

Lemma fs_download_mirrors_witness :
  let h := ex_host {["dst" := txt "the"]} {["RAM:src" := ex_data]} [Deliver; LoseReply] in
  wp (fs_download (H := lan_rpc ex_sha []) ex_sha "sam" "RAM:src" "dst" 6 true true)
     (λ x h', other_locals (H0 := lan_service ex_sha []) "dst" h h' ∧
        match x with
        | Ret (st, _, _) => lfs h' !! "dst" = Some ex_data ∧ d_bytes_total st = Z.of_nat (length ex_data)
        | Raise _ => local_prefix "dst" ex_data h → local_prefix "dst" ex_data h'
        | Spin => False
        end) h.
Proof.
  apply (fs_download_mirrors (H0 := lan_service ex_sha []) "sam" "RAM:src" "dst" 6 true true ex_data).
  - lia.
  - reflexivity.
  - intros _ X HX. vm_compute in HX. injection HX as <-. by exists (drop 3 ex_data).
Defined.

Lemma daemon_implements_file_service_witness :
  ∃ fs : FileService (lan ramdisk) (H := lan_rpc ex_sha []) ex_compress ex_sha,
    ∀ t p n, file (FileService := fs) t p n = files (machine n t) !! p.
Proof. exact (daemon_implements_file_service (E := ramdisk) (compress := ex_compress) ex_sha []). Defined.

(* ------------------------------------------------------------------ *)
(** ** A default chunk against the frame limit *)

Section frame_limit.
Context {E : Type} `{Net E}.
Context (dumps : json → bytes).

(** an uncompressed chunk of the default size never leaves the host: its
    base64 alone is 32 MiB, the limit of a frame, so with any envelope around
    it (a request that is longer than the text it carries) [_send_frame] raises an internal error and nothing is sent. *)
Theorem default_chunk_exceeds_frame (w : world E) c raw rid path off total :
  writer (tr w) = Some c → Z.of_nat (length raw) = DEFAULT_CHUNK_RAW →
  let frame := dumps (envelope rid "fs.write_chunk"
    (Some (chunk_params path off (py_b64encode raw) false None None total))) in
  (length (py_b64encode raw) < length frame)%nat →
  send_frame frame w = (Raise (ERpc InternalError None), w).
Proof.
  intros Hc Hraw frame Hlen. unfold send_frame. erewrite bind_run by done. rewrite Hc.
  assert (Z.of_nat (length (py_b64encode raw)) = MAX_FRAME_BYTES) as Hb64.
  { unfold py_b64encode. rewrite length_b64_encode, Hraw. reflexivity. }
  assert ((MAX_FRAME_BYTES <? Z.of_nat (length frame)) = true) as -> by lia.
  by destruct w.
Qed.
End frame_limit.

(** A serializer that writes only a brace and the chunk's text. *)
Definition ex_wrap (j : json) : bytes :=
  match jget "params" j with
  | Some p => match jget "content_b64" p with
              | Some (JStr s) => "{"%char :: txt s
              | _ => []
              end
  | None => []
  end.
Lemma ex_wrap_chunk rid path off raw total :
  ex_wrap (envelope rid "fs.write_chunk"
    (Some (chunk_params path off (py_b64encode raw) false None None total)))
  = "{"%char :: py_b64encode raw.
Proof. unfold ex_wrap. simpl. by rewrite txt_str. Qed.
Lemma longer_cons {A} (x : A) l : (length l < length (x :: l))%nat.
Proof. simpl. lia. Qed.
Definition ex_full_chunk : bytes := replicate (Z.to_nat DEFAULT_CHUNK_RAW) "a"%char.

Lemma default_chunk_exceeds_frame_witness :
  let w := World (Transport (Some 0%nat) (Some 0%nat) 1 [] [] None (Some 0)) [] (Script [] 0 [] false) in
  send_frame (ex_wrap (envelope 1 "fs.write_chunk"
    (Some (chunk_params "RAM:big" 0 (py_b64encode ex_full_chunk) false None None None)))) w
  = (Raise (ERpc InternalError None), w).
Proof.
  apply (default_chunk_exceeds_frame ex_wrap _ 0%nat ex_full_chunk 1 "RAM:big" 0 None).
  - reflexivity.
  - unfold ex_full_chunk. rewrite length_replicate. apply Z2Nat.id. discriminate.
  - rewrite ex_wrap_chunk. apply longer_cons.
Defined.
