(* ===== verification/FleetStatus.v ===== *)
(** * What is there and how it is: [tools/fleet.py]

    [fleet.list_targets], [fleet.target_status] and [fleet.snapshot], and
    [fleet.relay], which copies a file from one machine to another.  The calls
    a snapshot makes run concurrently; what each ends with is arbitrary. *)
From S2P Require Import Prelude Py Bytes Config Net Schema System Fleet Mcpd Fs Daemon Transfer.

Record summary := Summary {
  sm_name : string; sm_type : TargetType; sm_display : option string; sm_machine : option string;
  sm_mcpd : option string; sm_qmp : option string; sm_running : option bool; sm_tags : list string }.
Record target_status := TargetStatus {
  ts_name : string; ts_type : TargetType; ts_running : option bool; ts_mcpd : option bool; ts_qmp : option bool }.
(** [free_ram] is the number of bytes that [free_ram_mb] is given in MiB. *)
Record snapshot := Snapshot {
  sn_name : string; sn_type : TargetType; sn_display : option string; sn_tags : list string;
  sn_running : option bool; sn_mcpd : option bool; sn_qmp : option bool;
  uptime : option Z; free_ram : option Z; last_alert : option Z; sn_error : option text }.

(** The endpoint of a channel that is there and enabled. *)
Definition mcpd_endpoint_of (t : TargetConfig) : option string :=
  ch ← mcpd (channels t); if mcpd_enabled ch then Some (mcpd_endpoint ch) else None.
Definition qmp_endpoint_of (t : TargetConfig) : option string :=
  ch ← qmp (channels t); if qmp_enabled ch then Some (qmp_endpoint ch) else None.

Section status.
Context {E : Type} `{Outside E, Tcp E} (fl : Fleet).
Abbreviation ME := (M E exn).

(** [proc is not None and proc.poll() is None], for a QEMU target. *)
Definition running_now (name : string) (e : E) : bool :=
  match assoc name (qemu_processes fl) with Some p => bool_decide (poll p e = None) | None => false end.
Definition qemu_running (name : string) (cfg : TargetConfig) (e : E) : option bool :=
  if decide (type cfg = Qemu) then Some (running_now name e) else None.
Fixpoint summaries (names : list string) : ME (list summary) :=
  match names with
  | [] => mret []
  | name :: names =>
      cfg ← lift (target_config fl name);
      up ← gets (qemu_running name cfg);
      rest ← summaries names;
      mret (Summary name (type cfg) (display_name cfg) (Config.machine cfg) (mcpd_endpoint_of cfg) (qmp_endpoint_of cfg) up
              (tags cfg) :: rest)
  end.
Definition fleet_list_targets (tags : option (list string)) : ME (list summary) := summaries (list_targets fl tags).

(** [_probe(ch.host, ch.port)] *)
Definition probe (ep : string) : ME bool :=
  port ← lift (endpoint_port ep);
  catch (tcp_connect (endpoint_host ep) port 1000;; mret true) (λ e, if is_oserror e then mret false else raise e).
Definition probe_channel (ep : option string) : ME (option bool) :=
  match ep with Some ep => Some <$> probe ep | None => mret None end.
Definition fleet_target_status (target : string) : ME target_status :=
  cfg ← lift (target_config fl target);
  up ← gets (qemu_running target cfg);
  m ← probe_channel (mcpd_endpoint_of cfg);
  q ← probe_channel (qmp_endpoint_of cfg);
  mret (TargetStatus target (type cfg) up m q).
End status.

(* ------------------------------------------------------------------ *)
(** ** Snapshots *)

(** [asyncio.gather] of calls that have ended: what each returned, or what one
    raised. *)
Fixpoint gather {A} (l : list (res exn A)) : res exn (list A) :=
  match l with
  | [] => Ret []
  | Ret s :: l => match gather l with Ret ss => Ret (s :: ss) | r => r end
  | Raise x :: _ => Raise x
  | Spin :: _ => Spin
  end.
Section snapshots.
(** [str(e)], and what each call about a target ends with: its status, and the
    answers of [sys.uptime], [sys.memory] and [sys.lastalert]. *)
Context (exn_text : exn → text).
Record probes := Probes { p_status : res exn target_status; p_uptime : res exn json; p_memory : res exn json; p_alert : res exn json }.
(** [_safe] *)
Definition safe (r : res exn json) : res exn (option json) :=
  match r with
  | Ret j => Ret (Some j)
  | Raise e => if is_exception e then Ret None else Raise e
  | Spin => Spin
  end.
Definition int_at (ks : list string) (j : json) : option Z :=
  match foldl (λ o k, o ≫= jget k) (Some j) ks with Some (JNum z) => Some z | _ => None end.
Definition filled (cfg : TargetConfig) (name : string) (st : option target_status) (up mem la : option json) (err : option text) : snapshot :=
  Snapshot name (type cfg) (display_name cfg) (tags cfg)
    (st ≫= ts_running) (st ≫= ts_mcpd) (st ≫= ts_qmp)
    (up ≫= int_at ["seconds"]) (mem ≫= int_at ["any"; "free"]) (la ≫= int_at ["alert_code"]) err.
Definition snapshot_one (fl : Fleet) (name : string) (p : probes) : res exn snapshot :=
  match target_config fl name with
  | Ret cfg =>
      match p_status p with
      | Ret st =>
          if default false (ts_mcpd st) then
            match safe (p_uptime p), safe (p_memory p), safe (p_alert p) with
            | Ret up, Ret mem, Ret la => Ret (filled cfg name (Some st) up mem la None)
            | Raise e, _, _ | Ret _, Raise e, _ | Ret _, Ret _, Raise e => Raise e
            | _, _, _ => Spin
            end
          else Ret (filled cfg name (Some st) None None None None)
      | Raise e => if is_exception e then Ret (filled cfg name None None None None (Some (txt "target_status: " ++ exn_text e)))
                   else Raise e
      | Spin => Spin
      end
  | Raise x => Raise x
  | Spin => Spin
  end.
Definition fleet_snapshot (fl : Fleet) (outcome : string → probes) (tags : option (list string)) : res exn (list snapshot) :=
  gather (map (λ t, snapshot_one fl t (outcome t)) (list_targets fl tags)).
End snapshots.

(* ------------------------------------------------------------------ *)
(** ** Relay *)

Record relay_result := RelayResult {
  rl_src_target : string; rl_src_path : string; rl_dst_target : string; rl_dst_path : string; rl_bytes : Z }.
(** [r.content_b64] and [r.size] of a validated result. *)
Definition field_str (k : string) (j : json) : string := match jget k j with Some (JStr s) => s | _ => ""%string end.
Definition field_int (k : string) (j : json) : Z := match jget k j with Some (JNum z) => z | _ => 0 end.
Section relay.
Context {E : Type} `{Wire E} `{Pydantic}.
Definition fleet_relay (src_target src_path dst_target dst_path : string) : M E exn relay_result :=
  rd ← System.fs_read src_target src_path None None;
  raw_bytes ← lift (match py_b64decode (txt (field_str "content_b64" rd)) with
                    | Some b => Ret b
                    | None => Raise (EPy ValueError)
                    end);
  wr ← System.fs_write dst_target dst_path (str (py_b64encode raw_bytes)) false None;
  mret (RelayResult src_target src_path dst_target dst_path (field_int "size" wr)).
End relay.

(* ------------------------------------------------------------------ *)
(** ** A snapshot has one entry per target *)

Lemma list_targets_configured f tags n : n ∈ list_targets f tags → ∃ cfg, target_config f n = Ret cfg.
Proof.
  intros Hn. assert (n ∈ (targets (config f)).*1) as Hin.
  { rewrite <-(merge_sort_Permutation String.le). unfold list_targets in Hn.
    destruct tags as [[|w ws]|]; [done| |done]. by apply list_elem_of_filter in Hn as [_ Hn]. }
  unfold target_config. destruct (assoc n (targets (config f))) as [cfg|] eqn:Ha; [by eexists|].
  by apply assoc_None in Ha.
Qed.
(** A call that ends and is not cancelled. *)
Definition ended {A} (r : res exn A) : Prop := r ≠ Spin ∧ r ≠ Raise ECancelled.
Definition all_ended (p : probes) : Prop :=
  ended (p_status p) ∧ ended (p_uptime p) ∧ ended (p_memory p) ∧ ended (p_alert p).
(** What [s] says of [p]: the name and the configuration always; the status when
    it was found, the error otherwise; of a machine whose daemon can be reached
    what each question answered, and nothing of any other. *)
Definition says (fl : Fleet) (n : string) (p : probes) (s : snapshot) : Prop :=
  sn_name s = n ∧ (∃ cfg, target_config fl n = Ret cfg ∧ sn_type s = type cfg) ∧
  (sn_error s = None ↔ ∃ st, p_status p = Ret st) ∧
  (∀ st, p_status p = Ret st → sn_running s = ts_running st ∧ sn_mcpd s = ts_mcpd st ∧ sn_qmp s = ts_qmp st) ∧
  (sn_mcpd s = Some true →
    (∀ z, uptime s = Some z ↔ ∃ j, p_uptime p = Ret j ∧ int_at ["seconds"] j = Some z) ∧
    (∀ z, free_ram s = Some z ↔ ∃ j, p_memory p = Ret j ∧ int_at ["any"; "free"] j = Some z) ∧
    (∀ z, last_alert s = Some z ↔ ∃ j, p_alert p = Ret j ∧ int_at ["alert_code"] j = Some z)) ∧
  (sn_mcpd s ≠ Some true → uptime s = None ∧ free_ram s = None ∧ last_alert s = None).
Lemma safe_ended r : ended r → ∃ o, safe r = Ret o ∧
  ∀ ks z, (o ≫= int_at ks) = Some z ↔ ∃ j, r = Ret j ∧ int_at ks j = Some z.
Proof.
  intros [Hs Hc]. destruct r as [j|x|]; [|destruct x; try done|done]; simpl; eexists; (split; [done|]); naive_solver.
Qed.
Lemma snapshot_one_says exn_text fl n p : (∃ cfg, target_config fl n = Ret cfg) → all_ended p →
  ∃ s, snapshot_one exn_text fl n p = Ret s ∧ says fl n p s.
Proof.
  intros [cfg Hcfg] ([Hs Hc] & Hu & Hm & Ha). unfold snapshot_one. rewrite Hcfg.
  destruct (safe_ended _ Hu) as (up & Hup & Hup'), (safe_ended _ Hm) as (mem & Hmem & Hmem'), (safe_ended _ Ha) as (la & Hla & Hla').
  destruct (p_status p) as [st|x|] eqn:Hst; [|destruct (is_exception x) eqn:Hx; [|by destruct x]|done].
  - rewrite Hup, Hmem, Hla.
    destruct (ts_mcpd st) as [[]|] eqn:Hr; simpl; (eexists; split; [done|]); unfold says; simpl; rewrite Hst, Hr;
      (split_and!; [done|by exists cfg|split; [by exists st|done]|by intros ? [= <-]| |done]); try done.
  - eexists. split; [done|]. unfold says. simpl. rewrite Hst.
    split_and!; [done|by exists cfg|by split; [|intros [? ?]]|done..].
Qed.
(** [fleet.snapshot] returns exactly one entry for each target that was
    asked for, in order, whatever the calls about the machines end with; each
    entry says what its own calls found, an error being reported in the entry
    and never instead of the others. *)
Theorem fleet_snapshot_complete exn_text fl outcome tags : (∀ t, all_ended (outcome t)) →
  ∃ ss, fleet_snapshot exn_text fl outcome tags = Ret ss ∧ Forall2 (λ n s, says fl n (outcome n) s) (list_targets fl tags) ss.
Proof.
  intros Ho. unfold fleet_snapshot. assert (∀ n, n ∈ list_targets fl tags → ∃ cfg, target_config fl n = Ret cfg) as Hin
    by (intros; by eapply list_targets_configured).
  induction (list_targets fl tags) as [|n ns IH]; simpl; [by exists []|].
  destruct (snapshot_one_says exn_text fl n (outcome n)) as (s & -> & Hs); [apply Hin; by left|done|].
  destruct IH as (ss & -> & Hss); [intros; apply Hin; by right|]. exists (s :: ss). split; [done|]. by constructor.
Qed.

(** [x5000] answers two of three questions, [sam] not even whether it is there. *)
Definition ex_probes (t : string) : probes :=
  if decide (t = "x5000"%string) then
    Probes (Ret (TargetStatus t Remote None (Some true) None)) (Ret (JObj [("seconds"%string, JNum 7)]))
      (Raise (ERpc TargetError None)) (Ret (JObj [("alert_code"%string, JNum 5)]))
  else Probes (Raise (EPy ValueError)) (Ret JNull) (Ret JNull) (Ret JNull).
Lemma fleet_snapshot_complete_witness :
  match fleet_snapshot (λ _, txt "no") (Fleet_init ex_config) ex_probes (Some ["lab"%string]) with
  | Ret ss => map (λ s, (sn_name s, uptime s, free_ram s, last_alert s, sn_error s)) ss
  | _ => []
  end
  = [("sam"%string, None, None, None, Some (txt "target_status: no"));
         ("x5000"%string, Some 7, None, Some 5, None)] ∧
  ∃ ss, fleet_snapshot (λ _, txt "no") (Fleet_init ex_config) ex_probes (Some ["lab"%string]) = Ret ss ∧
    Forall2 (λ n s, says (Fleet_init ex_config) n (ex_probes n) s) (list_targets (Fleet_init ex_config) (Some ["lab"%string])) ss.
Proof.
  split; [vm_compute; reflexivity|]. apply (fleet_snapshot_complete (λ _, txt "no")).
  intros t. unfold ex_probes. destruct (decide (t = "x5000"%string)); repeat split; discriminate.
Defined.

(* ------------------------------------------------------------------ *)
(** ** A relayed file *)

Section relay_spec.
Context {E : Type} `{DosLaws E compress} `{Pydantic}.
Context (sha256 : bytes → string) (others : list (string * (json → M E (Z * option json) json))).
(** The daemons of the targets, behind connections that lose requests and
    replies. *)
#[export] Instance lan_wire : Wire (lan E) := {|
  ask_daemon t m p timeout := lan_call sha256 others t m (default JNull p) timeout |}.

Lemma read_answer_valid p c : ∃ v,
  model_validate FsReadResult (read_answer p 0 (-1) c) = Ret v ∧ field_str "content_b64" v = str (b64_encode c).
Proof.
  eexists. split; [by apply arranged_model_validate|]. unfold field_str. simpl.
  unfold slice_size. simpl. do 2 f_equal. rewrite drop_0, take_ge; [done|lia].
Qed.
Lemma lan_reads_whole src p timeout n :
  let '(r, n') := lan_call sha256 others src "fs.read" (JObj [("path"%string, JStr p)]) timeout n in
  (∀ t f, lan_file t f n' = lan_file t f n) ∧
  match r with Ret j => ∃ c, lan_file src p n = Some c ∧ j = read_answer p 0 (-1) c | Raise _ => True | Spin => False end.
Proof.
  apply (lan_reads sha256 others src "fs.read" _ _ timeout n (λ j, ∃ c, lan_file src p n = Some c ∧ j = read_answer p 0 (-1) c) eq_refl).
  by apply fs_read_answers.
Qed.
Lemma lan_writes dst q raw timeout n :
  let '(r, n') := lan_call sha256 others dst "fs.write"
      (JObj [("path", JStr q); ("content_b64", JStr (str (py_b64encode raw)))]%string) timeout n in
  (∀ t f, (t, f) ≠ (dst, q) → lan_file t f n' = lan_file t f n) ∧
  match r with
  | Ret j => lan_file dst q n' = Some raw ∧ j = JObj [("path", JStr q); ("size", JNum (Z.of_nat (length raw)))]%string
  | Raise _ => lan_file dst q n' = lan_file dst q n ∨ ∃ k, lan_file dst q n' = Some (take k raw)
  | Spin => False
  end.
Proof.
  pose proof (lan_call_spec sha256 others dst "fs.write" _ _ timeout n _ eq_refl (fs_write_spec q raw (machine n dst))) as Hc.
  destruct (lan_call _ _ _ _ _ _ _) as [r n']. destruct Hc as (Hspin & Hoth & Hc). unfold lan_file. split.
  - intros t f Hne. destruct (decide (t = dst)) as [->|Ht]; [|by rewrite Hoth].
    destruct Hc as [[-> _]|(r0 & [Hq _] & _)]; [done|]. apply Hq. congruence.
  - destruct Hc as [[-> [x ->]]|(r0 & [_ Hr0] & Hj)]; [by left|].
    destruct r as [j|x|]; [by rewrite (Hj j eq_refl) in Hr0| |done].
    destruct r0 as [j|y|]; [|done..]. right. exists (length raw). rewrite take_ge by done. apply Hr0.
Qed.
(** a relay over connections that lose requests and replies: when it
    returns, the destination's file is what the source's file was and the number
    of bytes is its length; when it raises, the destination's file is as it was
    or some first part of the source's; no other file of any machine has
    changed, the source's included. *)
Theorem fleet_relay_copies src p dst q (n : lan E) :
  wp (fleet_relay src p dst q) (λ r n',
    (∀ t f, (t, f) ≠ (dst, q) → lan_file t f n' = lan_file t f n) ∧
    match r with
    | Ret a => ∃ c, lan_file src p n = Some c ∧ lan_file dst q n' = Some c ∧ rl_bytes a = Z.of_nat (length c)
    | Raise _ => lan_file dst q n' = lan_file dst q n ∨
                 ∃ c k, lan_file src p n = Some c ∧ lan_file dst q n' = Some (take k c)
    | Spin => False
    end) n.
Proof.
  unfold fleet_relay. apply wp_bind. unfold System.fs_read, ask. apply wp_bind.
  pose proof (lan_reads_whole src p 120000 n) as Hr.
  unfold wp at 1. unfold ask_daemon, lan_wire. simpl. destruct (lan_call _ _ src _ _ _ _) as [r n1].
  destruct Hr as [Hsame Hr]. destruct r as [j|x|]; [|by split; [intros; apply Hsame|left; apply Hsame]|done].
  destruct Hr as (c & Hc & ->).
  destruct (read_answer_valid p c) as (v & Hv & Hcontent). apply wp_lift. rewrite Hv.
  apply wp_bind, wp_lift. rewrite Hcontent, txt_str, py_b64decode_encode.
  apply wp_bind. unfold System.fs_write, ask. apply wp_bind.
  pose proof (lan_writes dst q c 120000 n1) as Hw. unfold wp at 1. unfold ask_daemon, lan_wire. simpl.
  destruct (lan_call _ _ dst _ _ _ _) as [r n2]. destruct Hw as [Hoth Hw]. rewrite <-(Hsame dst q).
  assert (∀ t f, (t, f) ≠ (dst, q) → lan_file t f n2 = lan_file t f n) as Hall by (intros; by rewrite Hoth, Hsame).
  destruct r as [j|x|]; [|split; [done|]|done].
  - destruct Hw as [Hq ->]. apply wp_lift. erewrite arranged_model_validate by reflexivity.
    apply wp_ret. split; [done|]. by exists c.
  - destruct Hw as [Hq|(k & Hk)]; [by left|right; by exists c, k].
Qed.
End relay_spec.

(** The RAM disks of [Transfer.v] and strict models. *)
Definition ex_lan (fs : list fate) : lan ramdisk := Lan (ex_machine {["RAM:a"%string := ex_data]}) fs.
Abbreviation ex_file := (lan_file (compress := ex_compress)).
Definition ex_relay : M (lan ramdisk) exn relay_result :=
  fleet_relay (H := lan_wire (E := ramdisk) ex_sha []) (H0 := strict) "sam" "RAM:a" "bare" "RAM:b".
Example relay_request_lost : (ex_relay (ex_lan [LoseRequest])).1 = Raise (lost "fs.read" false).
Proof. vm_compute. reflexivity. Qed.
Lemma fleet_relay_copies_witness :
  let n := ex_lan [] in
  let o := ex_relay n in
  (o.1 = Ret (RelayResult "sam" "RAM:a" "bare" "RAM:b" 19) ∧ ex_file "bare" "RAM:b" o.2 = Some ex_data) ∧
  wp ex_relay (λ r n',
    (∀ t f, (t, f) ≠ ("bare"%string, "RAM:b"%string) → ex_file t f n' = ex_file t f n) ∧
    match r with
    | Ret a => ∃ c, ex_file "sam" "RAM:a" n = Some c ∧ ex_file "bare" "RAM:b" n' = Some c ∧ rl_bytes a = Z.of_nat (length c)
    | Raise _ => ex_file "bare" "RAM:b" n' = ex_file "bare" "RAM:b" n ∨
                 ∃ c k, ex_file "sam" "RAM:a" n = Some c ∧ ex_file "bare" "RAM:b" n' = Some (take k c)
    | Spin => False
    end) n.
Proof.
  split; [vm_compute; split; reflexivity|].
  exact (fleet_relay_copies (E := ramdisk) (compress := ex_compress) (H1 := strict) ex_sha [] "sam" "RAM:a" "bare" "RAM:b" (ex_lan [])).
Defined.
