(* ===== verification/Gdb.v ===== *)
(** * The GDB stub client: [transports/gdb.py] and [tools/debug.py]

    Remote Serial Protocol packets over one connection, the exchange with its
    resend rule, memory and register reads, and the stack walk of
    [debug.backtrace]. *)
From S2P Require Import Prelude Py Bytes Config Net.

Definition GDB_TIMEOUT : Z := 5000.
Definition PACKET_MAX : Z := 2 * 1024 * 1024.

Definition checksum (data : bytes) : Z := Z.land (foldr (λ c a, ord c + a) 0 data) 255.
Definition packet (payload : bytes) : bytes :=
  "$"%char :: payload ++ "#"%char :: hex2 (checksum payload).

(** The attributes of [GdbTransport]; [out] and [acked] are ghosts: the
    payloads whose packet went out, and those the stub acknowledged. *)
Record gdb (E : Type) := Gdb {
  g_reader : option nat; g_writer : option nat;
  out : list bytes; acked : list bytes; g_env : E }.
Arguments Gdb {E}. Arguments g_reader {E}. Arguments g_writer {E}.
Arguments out {E}. Arguments acked {E}. Arguments g_env {E}.

(** [b.decode("ascii")], and with [errors="replace"] (the replacement
    character is byte 255 here). *)
Definition is_ascii (b : bytes) : bool := forallb (λ c, ord c <? 128) b.
Definition ascii_decode (b : bytes) : res exn text :=
  if is_ascii b then Ret b else Raise (EPy ValueError).
Definition ascii_replace (b : bytes) : text := map (λ c, if ord c <? 128 then c else chr 255) b.
Definition hexz (z : Z) : text := if z <? 0 then "-"%char :: hex (- z) else hex z.

Section gdb.
Context {E : Type} `{Net E}.
Context (channel : GdbChannel).

Abbreviation MG := (M (gdb E) exn).
Definition g_io {A} (m : M E io_exn A) : MG A := λ w,
  match m (g_env w) with
  | (Ret a, e) => (Ret a, Gdb (g_reader w) (g_writer w) (out w) (acked w) e)
  | (Raise x, e) => (Raise (io_to_exn x), Gdb (g_reader w) (g_writer w) (out w) (acked w) e)
  | (Spin, e) => (Spin, Gdb (g_reader w) (g_writer w) (out w) (acked w) e)
  end.
Definition g_set (r wr : option nat) : MG unit :=
  modify (λ w, Gdb r wr (out w) (acked w) (g_env w)).
Definition log_out (p : bytes) : MG unit :=
  modify (λ w, Gdb (g_reader w) (g_writer w) (out w ++ [p]) (acked w) (g_env w)).
Definition log_acked (p : bytes) : MG unit :=
  modify (λ w, Gdb (g_reader w) (g_writer w) (out w) (acked w ++ [p]) (g_env w)).

Definition g_close_locked : MG unit :=
  w ← get;
  g_set None None;;
  match g_writer w with
  | None => mret tt
  | Some c => catch (g_io (close_wait c None)) (λ e, if is_oserror e then mret tt else raise e)
  end.

(** The two ends, or the failing [assert]. *)
Definition ends_of : MG (nat * nat) :=
  w ← get;
  match g_reader w, g_writer w with
  | Some r, Some wr => mret (r, wr)
  | _, _ => raise (EPy AssertionError)
  end.
Definition g_send (payload : bytes) (timeout : Z) : MG unit :=
  c ← ends_of;
  g_io (write_drain c.2 (packet payload));;
  log_out payload;;
  ack ← g_io (readexactly c.1 1 timeout);
  ack ← (if bool_decide (ack = ["-"%char]) then
           g_io (write_drain c.2 (packet payload));;
           log_out payload;;
           g_io (readexactly c.1 1 timeout)
         else mret ack);
  if bool_decide (ack = ["+"%char]) then log_acked payload else raise (ERpc InternalError None).

(** One read of [_recv].  [by_] is the moment at which an [asyncio.wait_for]
    around the whole receive gives up, which ends the read under way. *)
Definition g_read (r : nat) (n timeout : Z) (by_ : option Z) : MG bytes :=
  match by_ with
  | None => g_io (readexactly r n timeout)
  | Some deadline =>
      w ← get;
      g_io (readexactly r n (Z.min timeout (deadline - monotonic (g_env w))))
  end.
(** The leading loop of [_recv] ends at the first dollar sign. *)
Fixpoint skip_to_dollar (fuel : nat) (r : nat) (timeout : Z) (by_ : option Z) : MG unit :=
  match fuel with
  | O => spin
  | S fuel =>
      b ← g_read r 1 timeout by_;
      if bool_decide (b = ["$"%char]) then mret tt else skip_to_dollar fuel r timeout by_
  end.
Fixpoint read_body (fuel : nat) (r : nat) (timeout : Z) (by_ : option Z) (buf : bytes) : MG bytes :=
  match fuel with
  | O => spin
  | S fuel =>
      b ← g_read r 1 timeout by_;
      if bool_decide (b = ["#"%char]) then mret buf
      else
        let buf := buf ++ b in
        if PACKET_MAX <? Z.of_nat (length buf) then raise (ERpc InternalError None)
        else read_body fuel r timeout by_ buf
  end.
Definition recv_by (fuel : nat) (timeout : Z) (by_ : option Z) : MG bytes :=
  c ← ends_of;
  skip_to_dollar fuel c.1 timeout by_;;
  buf ← read_body fuel c.1 timeout by_ [];
  cs_bytes ← g_read c.1 2 timeout by_;
  cs ← lift (match ascii_decode cs_bytes with
             | Ret t => match int16 t with Some v => Ret v | None => Raise (EPy ValueError) end
             | Raise x => Raise x
             | Spin => Spin
             end);
  if cs =? checksum buf then
    g_io (write_drain c.2 ["+"%char]);;
    mret buf
  else
    g_io (write_drain c.2 ["-"%char]);;
    raise (ERpc InternalError None).
Definition g_recv (fuel : nat) (timeout : Z) : MG bytes := recv_by fuel timeout None.
(** [asyncio.wait_for(self._recv(timeout), limit)], which gives up at once when
    [limit] is not positive. *)
Definition recv_within (fuel : nat) (timeout limit : Z) : MG bytes :=
  if limit <=? 0 then raise (EOS TimeoutError "")
  else
    w ← get;
    recv_by fuel timeout (Some (monotonic (g_env w) + limit)).

Definition g_ensure_connected (fuel : nat) : MG unit :=
  w ← get;
  match g_reader w, g_writer w with
  | Some _, Some _ => mret tt
  | _, _ =>
      c ← catch
            (port ← lift (endpoint_port (gdb_endpoint channel));
             g_io (open_connection (endpoint_host (gdb_endpoint channel)) port None))
            (λ e, match e with
                  | EOS _ m => raise (ERpc TargetError (Some (JObj
                      [("endpoint", JStr (gdb_endpoint channel)); ("error", JStr m)])))
                  | _ => raise e
                  end);
      g_set (Some c) (Some c);;
      g_send (txt "qSupported:swbreak+;hwbreak+") GDB_TIMEOUT;;
      _ ← g_recv fuel GDB_TIMEOUT;
      mret tt
  end.

Definition g_failure (payload : bytes) (sent : bool) : json :=
  JObj [("payload", JStr (str (ascii_replace (take 80 payload)))); ("may_have_run", JBool sent)].
Definition g_on_failure (attempt : nat) (payload : bytes) (sent : bool) (e : exn)
    : MG (option bytes) :=
  if is_timeout e then
    g_close_locked;; raise (ERpc TargetError (Some (g_failure payload sent)))
  else if is_oserror e || (if e is EIncompleteRead then true else false) then
    g_close_locked;;
    if bool_decide (attempt = 0%nat) && negb sent then mret None
    else raise (ERpc TargetError (Some (g_failure payload sent)))
  else raise e.
(** One pass of [_exchange]; [None] is [continue].  [sent] becomes true when
    [_send] has returned. *)
Definition g_attempt (fuel attempt : nat) (payload : bytes) (timeout : Z) : MG (option bytes) :=
  sent ← catch (g_ensure_connected fuel;; g_send payload timeout;; mret (inl tt))
               (λ e, inr <$> g_on_failure attempt payload false e);
  match sent with
  | inr r => mret r
  | inl _ => catch (Some <$> g_recv fuel timeout) (g_on_failure attempt payload true)
  end.
Definition exchange (fuel : nat) (payload : bytes) (timeout : Z) : MG bytes :=
  r ← g_attempt fuel 0 payload timeout;
  match r with
  | Some b => mret b
  | None =>
      r ← g_attempt fuel 1 payload timeout;
      match r with Some b => mret b | None => raise (ERpc InternalError None) end
  end.

(** *** Requests *)

(** [resp.startswith(b"E") and len(resp) <= 4] *)
Definition is_error_reply (resp : bytes) : bool :=
  startswith (txt "E") resp && (length resp <=? 4)%nat.
(** The error branch, whose message decodes the reply. *)
Definition error_reply {A} (resp : bytes) (data : option json) : MG A :=
  t ← lift (ascii_decode resp);
  raise (ERpc TargetError data).
(** [bytes.fromhex(resp.decode("ascii"))], a [ValueError] becoming an
    [InternalError]. *)
Definition from_hex_reply (resp : bytes) : res exn bytes :=
  match ascii_decode resp with
  | Ret t => match fromhex t with Some b => Ret b | None => Raise (ERpc InternalError None) end
  | _ => Raise (ERpc InternalError None)
  end.

Definition read_registers (fuel : nat) : MG bytes :=
  resp ← exchange fuel (txt "g") GDB_TIMEOUT;
  if is_error_reply resp then error_reply resp None else lift (from_hex_reply resp).
Definition read_one_register (fuel : nat) (regnum : Z) : MG Z :=
  resp ← exchange fuel ("p"%char :: hexz regnum) GDB_TIMEOUT;
  let data := Some (JObj [("regnum", JNum regnum)]) in
  if is_error_reply resp then error_reply resp data
  else if resp is [] then raise (ERpc TargetError data)
  else
    b ← lift (from_hex_reply resp);
    if bool_decide (length b = 4%nat) || bool_decide (length b = 8%nat) then mret (be_val b)
    else raise (ERpc TargetError (Some (JObj [("regnum", JNum regnum);
                                              ("bytes", JNum (Z.of_nat (length b)))]))).
Definition read_memory (fuel : nat) (addr length : Z) : MG bytes :=
  if length <=? 0 then mret []
  else if 65536 <? length then raise (ERpc TargetError (Some (JObj [("requested", JNum length)])))
  else
    resp ← exchange fuel ("m"%char :: hexz addr ++ ","%char :: hexz length) GDB_TIMEOUT;
    if is_error_reply resp
    then error_reply resp (Some (JObj [("addr", JNum addr); ("length", JNum length)]))
    else lift (from_hex_reply resp).
Definition stop_reason (fuel : nat) : MG text :=
  ascii_replace <$> exchange fuel (txt "?") GDB_TIMEOUT.
Definition breakpoint (fuel : nat) (op : string) (addr kind : Z) (hardware : bool) : MG text :=
  resp ← exchange fuel (txt op ++ (if hardware then "1"%char else "0"%char) :: ","%char ::
                        hexz addr ++ ","%char :: hexz kind) GDB_TIMEOUT;
  if is_error_reply resp
  then error_reply resp (Some (JObj [("addr", JNum addr); ("kind", JNum kind);
                                     ("hardware", JBool hardware)]))
  else mret (ascii_replace resp).
Definition set_breakpoint (fuel : nat) := breakpoint fuel "Z".
Definition clear_breakpoint (fuel : nat) := breakpoint fuel "z".
Definition step (fuel : nat) : MG text := ascii_replace <$> exchange fuel (txt "s") 10000.
(** The out-of-band byte; the ghost [out] lists it as a payload. *)
Definition ctrl_c : bytes := [chr 3].
Definition interrupt : MG unit :=
  w ← get;
  match g_writer w with
  | Some wr => g_io (write_drain wr ctrl_c);; log_out ctrl_c
  | None => raise (EPy AttributeError)
  end.
Definition cont (fuel : nat) (timeout : Z) : MG text :=
  g_ensure_connected fuel;;
  g_send (txt "c") GDB_TIMEOUT;;
  resp ← catch (recv_within fuel (timeout + 5000) timeout) (λ e,
    if is_timeout e then
      interrupt;;
      catch (recv_within fuel 10000 10000) (λ e,
        if is_timeout e then g_close_locked;; raise (ERpc TargetError None) else raise e)
    else raise e);
  mret (ascii_replace resp).
(** The clauses of the two [try]s of [detach]. *)
Definition detach (fuel : nat) : MG unit :=
  w ← get;
  match g_reader w, g_writer w with
  | Some _, Some _ =>
      catch (g_send (txt "D") GDB_TIMEOUT;;
             catch (recv_within fuel GDB_TIMEOUT 1000;; mret tt) (λ e,
               if is_oserror e || (if e is EIncompleteRead then true else false) then mret tt else raise e))
        (λ e, if is_exception e then mret tt else raise e);;
      g_close_locked
  | _, _ => mret tt
  end.
Definition g_close : MG unit := g_close_locked.
End gdb.

(* ------------------------------------------------------------------ *)
(** ** [debug.*] *)

(** [_parse_gprs]: up to 32 big-endian words. *)
Fixpoint words_be (n : nat) (blob : bytes) : list Z :=
  match n with O => [] | S n => be_val (take 4 blob) :: words_be n (drop 4 blob) end.
Definition parse_gprs (blob : bytes) : list Z := words_be (min 32 (length blob / 4)) blob.

Record frame := Frame { index : Z; pc : Z; sp : Z }.
Record backtrace := {
  frames : list frame; truncated : bool; raw_pc : Z; raw_sp : Z; raw_lr : Z }.
Definition no_frame (a : Z) : bool := (a =? 0) || (a =? 4294967295).

Section debug.
(** The stub: [gdb.read_one_register] and [gdb.read_memory]. *)
Context {W : Type} (reg : Z → M W exn Z) (mem : Z → Z → M W exn bytes).

(** A word of guest memory; [None] is [break]. *)
Definition mem_word (a : Z) : M W exn (option Z) :=
  b ← catch (Some <$> mem a 4) (λ e, if is_exception e then mret None else raise e);
  mret (match b with
        | Some b => if bool_decide (length b = 4%nat) then Some (be_val b) else None
        | None => None
        end).
(** [for i in range(1, max_frames)]: [more] iterations to go; the flag is the
    loop's [else]. *)
Fixpoint walk (more : nat) (i cur_sp : Z) : M W exn (list frame * bool) :=
  match more with
  | O => mret ([], true)
  | S more =>
      if no_frame cur_sp then mret ([], false)
      else
        back ← mem_word cur_sp;
        match back with
        | None => mret ([], false)
        | Some back_sp =>
            if no_frame back_sp || (back_sp <=? cur_sp) then mret ([], false)
            else
              lr ← mem_word (back_sp + 4);
              match lr with
              | None => mret ([], false)
              | Some saved_lr =>
                  rest ← walk more (i + 1) back_sp;
                  mret (Frame i saved_lr back_sp :: rest.1, rest.2)
              end
        end
  end.
Definition debug_backtrace (max_frames : Z) : M W exn backtrace :=
  pc ← reg 64;
  sp ← reg 1;
  lr ← reg 67;
  rest ← walk (Z.to_nat (max_frames - 1)) 1 sp;
  mret {| frames := Frame 0 pc sp :: rest.1; truncated := rest.2;
          raw_pc := pc; raw_sp := sp; raw_lr := lr |}.
End debug.

(* ------------------------------------------------------------------ *)
(** ** Lemmas *)

Definition hello : bytes := txt "qSupported:swbreak+;hwbreak+".

Section acked.
Context {E : Type} `{Net E}.
Context (channel : GdbChannel).
Implicit Types w : gdb E.

Definition same_acked : relation (gdb E) := λ w w', acked w' = acked w.
#[local] Instance same_acked_preorder : PreOrder same_acked.
Proof. split; [done|]. unfold same_acked. intros ???. congruence. Qed.
Lemma g_io_same {A} (m : M E io_exn A) w :
  wp (g_io m) (λ _ w', acked w' = acked w ∧ out w' = out w ∧
                       g_reader w' = g_reader w ∧ g_writer w' = g_writer w) w.
Proof. unfold wp, g_io. by destruct (m (g_env w)) as [[] e]. Qed.
Lemma same_acked_io {A} (m : M E io_exn A) : respects same_acked (g_io m).
Proof. intros w. apply (g_io_same m w). Qed.
Lemma same_acked_set r wr : respects same_acked (g_set r wr : M (gdb E) exn unit).
Proof. done. Qed.
Lemma same_acked_log p : respects same_acked (log_out p : M (gdb E) exn unit).
Proof. done. Qed.
#[local] Hint Resolve same_acked_io same_acked_set same_acked_log : respects.
Lemma respects_get {W X} (R : relation W) `{!PreOrder R} : respects R (get : M W X W).
Proof. intros w. reflexivity. Qed.
#[local] Hint Resolve respects_get : respects.
Lemma same_acked_ends : respects same_acked (ends_of : M (gdb E) exn _).
Proof. unfold ends_of. apply (respects_bind _); [apply (respects_get _)|]. intros. respects_tac. Qed.
Lemma same_acked_close : respects same_acked (g_close_locked : M (gdb E) exn unit).
Proof.
  unfold g_close_locked. apply (respects_bind _); [apply (respects_get _)|]. intros. respects_tac.
Qed.
#[local] Hint Resolve same_acked_ends same_acked_close : respects.
Lemma same_acked_read r n t d : respects same_acked (g_read r n t d : M (gdb E) exn _).
Proof. destruct d; simpl; [|respects_tac]. apply (respects_bind _); [apply (respects_get _)|]. intros. respects_tac. Qed.
#[local] Hint Resolve same_acked_read : respects.
Lemma same_acked_skip fuel r t d : respects same_acked (skip_to_dollar fuel r t d : M (gdb E) exn _).
Proof. induction fuel; simpl; respects_tac. Qed.
Lemma same_acked_body fuel r t d buf : respects same_acked (read_body fuel r t d buf : M (gdb E) exn _).
Proof. revert buf. induction fuel; intros buf; simpl; respects_tac. Qed.
#[local] Hint Resolve same_acked_skip same_acked_body : respects.
Lemma same_acked_recv_by fuel t d : respects same_acked (recv_by fuel t d : M (gdb E) exn _).
Proof. unfold recv_by. respects_tac. Qed.
Lemma same_acked_recv fuel t : respects same_acked (g_recv fuel t : M (gdb E) exn _).
Proof. apply same_acked_recv_by. Qed.
#[local] Hint Resolve same_acked_recv same_acked_recv_by : respects.

(** A packet counts as acknowledged exactly when [_send] returns. *)
Lemma g_send_acked p t w :
  wp (g_send p t) (λ r w',
    acked w' = acked w ++ (if r is Ret _ then [p] else [])) w.
Proof.
  assert (∀ w', acked w' = acked w → acked w' = acked w ++ []) as Hnil
    by (intros w' ->; by rewrite app_nil_r).
  unfold g_send. apply wp_bind. eapply wp_mono; [apply wp_respects, same_acked_ends|].
  intros [c|x|] w1 H1; [|by apply Hnil..]. unfold same_acked in H1.
  apply wp_bind. eapply wp_mono; [apply wp_respects, same_acked_io|].
  intros [[]|x|] w2 H2; unfold same_acked in H2; [|by apply Hnil; congruence..].
  apply wp_bind, wp_modify. simpl.
  apply wp_bind. eapply wp_mono; [apply wp_respects, same_acked_io|].
  intros [ack|x|] w3 H3; unfold same_acked in H3; simpl in H3; [|by apply Hnil; congruence..].
  apply wp_bind. eapply (wp_mono _ (λ _ w', acked w' = acked w3)).
  { apply (wp_respects same_acked). respects_tac. }
  intros [ack2|x|] w4 H4; [|by apply Hnil; congruence..].
  case_bool_decide; [apply wp_modify; simpl; congruence|apply wp_raise, Hnil; congruence].
Qed.

(** [_close_locked] forgets both ends before anything can fail. *)
Lemma g_close_ends w :
  wp g_close_locked (λ r w', acked w' = acked w ∧ g_reader w' = None ∧ g_writer w' = None) w.
Proof.
  unfold g_close_locked. apply wp_bind. unfold wp at 1, get. simpl.
  apply wp_bind, wp_modify. destruct (g_writer w) as [c|]; [|done].
  apply wp_catch. eapply wp_mono; [apply g_io_same|].
  intros [[]|x|] w' (? & _ & ? & ?); simpl in *; [done| |done].
  by destruct (is_oserror x).
Qed.

(** An exception that says nothing about whether the request ran. *)
Definition no_claim (x : exn) : Prop :=
  ∀ d, x = ERpc TargetError (Some d) → jget "may_have_run" d = None.
Lemma g_io_no_claim {A} (m : M E io_exn A) : raises no_claim (g_io m).
Proof.
  intros w x. unfold g_io. destruct (m (g_env w)) as [[a|[]|] e]; simpl; intros [= <-] d; done.
Qed.
Lemma no_claim_modify f : raises no_claim (modify f : M (gdb E) exn unit).
Proof. done. Qed.
Lemma no_claim_internal : no_claim (ERpc InternalError None).
Proof. by intros d. Qed.
Lemma no_claim_py c : no_claim (EPy c).
Proof. by intros d. Qed.
#[local] Hint Resolve g_io_no_claim no_claim_modify no_claim_internal no_claim_py : raises.
Lemma g_close_no_claim : raises no_claim (g_close_locked : M (gdb E) exn unit).
Proof.
  unfold g_close_locked, g_set. apply raises_bind; [by intros ???|]. intros. raises_tac.
  apply (raises_catch_from _ no_claim); [raises_tac|]. intros. raises_tac.
Qed.
Lemma ends_no_claim : raises no_claim (ends_of : M (gdb E) exn _).
Proof. unfold ends_of. apply raises_bind; [by intros ???|]. intros. raises_tac. Qed.
#[local] Hint Resolve ends_no_claim : raises.
Lemma g_send_no_claim p t : raises no_claim (g_send p t : M (gdb E) exn _).
Proof. unfold g_send, log_out, log_acked. raises_tac. Qed.
Lemma g_read_no_claim r n t d : raises no_claim (g_read r n t d : M (gdb E) exn _).
Proof. destruct d; simpl; [|raises_tac]. apply raises_bind; [by intros ???|]. intros. raises_tac. Qed.
#[local] Hint Resolve g_read_no_claim : raises.
Lemma g_skip_no_claim fuel r t d : raises no_claim (skip_to_dollar fuel r t d : M (gdb E) exn _).
Proof. induction fuel; simpl; raises_tac. Qed.
Lemma g_body_no_claim fuel r t d buf : raises no_claim (read_body fuel r t d buf : M (gdb E) exn _).
Proof. revert buf. induction fuel; intros; simpl; raises_tac. Qed.
Lemma raises_lift {W A} (P : exn → Prop) (r : res exn A) :
  (∀ x, r = Raise x → P x) → raises P (lift r : M W exn A).
Proof. intros Hr w x Hx. by apply Hr. Qed.
#[local] Hint Resolve g_send_no_claim g_skip_no_claim g_body_no_claim : raises.
Lemma g_recv_no_claim fuel t : raises no_claim (g_recv fuel t : M (gdb E) exn _).
Proof.
  unfold g_recv, recv_by. raises_tac. apply raises_lift. unfold ascii_decode.
  intros x. repeat case_match; naive_solver eauto with raises.
Qed.
#[local] Hint Resolve g_recv_no_claim : raises.
Lemma g_ensure_no_claim fuel : raises no_claim (g_ensure_connected channel fuel : M (gdb E) exn _).
Proof.
  unfold g_ensure_connected, g_set. apply raises_bind; [by intros ???|]. intros w.
  raises_tac; (apply (raises_catch_from _ no_claim); [|intros x Hx; raises_tac; by intros d [= <-]]).
  all: raises_tac; apply raises_lift; unfold endpoint_port; intros x;
    repeat case_match; naive_solver eauto with raises.
Qed.
#[local] Hint Resolve g_ensure_no_claim : raises.

(** The handshake adds at most its own packet to what the stub acknowledged. *)
Lemma g_ensure_acked fuel w :
  wp (g_ensure_connected channel fuel) (λ _ w',
    acked w' = acked w ∨ acked w' = acked w ++ [hello]) w.
Proof.
  unfold g_ensure_connected. apply wp_bind. unfold wp at 1, get. simpl.
  assert (wp (c ← catch
            (port ← lift (endpoint_port (gdb_endpoint channel));
             g_io (open_connection (endpoint_host (gdb_endpoint channel)) port None))
            (λ e, match e with
                  | EOS _ m => raise (ERpc TargetError (Some (JObj
                      [("endpoint", JStr (gdb_endpoint channel)); ("error", JStr m)])))
                  | _ => raise e
                  end);
      g_set (Some c) (Some c);;
      g_send hello GDB_TIMEOUT;;
      _ ← g_recv fuel GDB_TIMEOUT;
      mret tt) (λ _ w', acked w' = acked w ∨ acked w' = acked w ++ [hello]) w) as Hnew.
  { apply wp_bind. eapply wp_mono; [apply (wp_respects same_acked); respects_tac|].
    intros [c|x|] w1 H1; unfold same_acked in H1; [|by left..].
    apply wp_bind, wp_modify. simpl. apply wp_bind. eapply wp_mono; [apply g_send_acked|].
    simpl. intros [[]|x|] w2 H2; rewrite H1 in H2; [|left; by rewrite app_nil_r in H2..].
    eapply wp_mono; [apply (wp_respects same_acked); respects_tac|].
    intros r w3 H3. right. unfold same_acked in H3. congruence. }
  destruct (g_reader w), (g_writer w); [|exact Hnew..]. apply wp_ret. by left.
Qed.

(** What an exchange leaves behind: [hs] are the handshakes the stub
    acknowledged and [own] the acknowledged copies of the payload. *)
Definition claims (p : bytes) (own : list bytes) (x : exn) w' : Prop :=
  ∀ d b, x = ERpc TargetError (Some d) → jget "may_have_run" d = Some (JBool b) →
    g_reader w' = None ∧ g_writer w' = None ∧ (b = true ↔ own = [p]).
Lemma no_claim_claims p own x w' : no_claim x → claims p own x w'.
Proof. intros Hx d b Hd Hb. by rewrite (Hx _ Hd) in Hb. Qed.

Lemma g_on_failure_spec attempt p sent x w :
  no_claim x →
  wp (g_on_failure attempt p sent x) (λ r w', acked w' = acked w ∧
    match r with
    | Ret v => v = None ∧ attempt = 0%nat ∧ sent = false
    | Raise y => claims p (if sent then [p] else []) y w'
    | Spin => True
    end) w.
Proof.
  intros Hx.
  assert (wp (g_close_locked;; raise (ERpc TargetError (Some (g_failure p sent))) : M _ _ (option bytes))
    (λ r w', acked w' = acked w ∧ match r with
      | Ret v => False | Raise y => claims p (if sent then [p] else []) y w' | Spin => True end) w) as Hgo.
  { apply wp_bind. eapply wp_mono; [apply wp_conj; [apply g_close_ends|apply (wp_raises no_claim), g_close_no_claim]|].
    intros [[]|y|] w' [(Ha & Hr & Hw) Hy]; [|by eauto using no_claim_claims..].
    apply wp_raise. split; [done|]. intros d b [= <-]. simpl. intros [= <-].
    split_and!; [done..|]. by destruct sent. }
  unfold g_on_failure. destruct (is_timeout x).
  { eapply wp_mono; [exact Hgo|]. intros [] w'; naive_solver. }
  destruct (is_oserror x || _); [|apply wp_raise; eauto using no_claim_claims].
  destruct (bool_decide (attempt = 0%nat) && negb sent) eqn:Hagain.
  - apply andb_true_iff in Hagain as [?%bool_decide_eq_true_1 ?%negb_true_iff].
    apply wp_bind. eapply wp_mono; [apply wp_conj; [apply g_close_ends|apply (wp_raises no_claim), g_close_no_claim]|].
    intros [[]|y|] w' [(Ha & Hr & Hw) Hy]; [|by eauto using no_claim_claims..].
    by apply wp_ret.
  - eapply wp_mono; [exact Hgo|]. intros [] w'; naive_solver.
Qed.

(** What one pass, and then the whole exchange, leaves behind. *)
Definition left_behind (p : bytes) (n : nat) w {A} (r : res exn A) w' (own : list bytes) : Prop :=
  ∃ hs, acked w' = acked w ++ hs ++ own ∧ Forall (eq hello) hs ∧ (length hs ≤ n)%nat ∧
    (own = [] ∨ own = [p]) ∧
    match r with Raise x => claims p own x w' | _ => True end.

Definition handshaken w w1 : Prop := acked w1 = acked w ∨ acked w1 = acked w ++ [hello].
Lemma left_intro p own w w1 w' {A} (r : res exn A) :
  handshaken w w1 → acked w' = acked w1 ++ own → own = [] ∨ own = [p] →
  match r with Raise x => claims p own x w' | _ => True end →
  left_behind p 1 w r w' own.
Proof.
  intros Hh Ha Hown Hr.
  destruct Hh as [Hh|Hh]; rewrite Hh in Ha; [exists []|exists [hello]];
    rewrite ?app_nil_l; (split_and!; [by rewrite ?(assoc_L (++))| | |done..]); simpl; auto.
Qed.
Lemma g_reply_spec fuel attempt p t w w1 w2 :
  handshaken w w1 → acked w2 = acked w1 ++ [p] →
  wp (catch (Some <$> g_recv fuel t) (g_on_failure attempt p true)) (λ r w',
    left_behind p 1 w r w' [p] ∧ (∀ v, r = Ret v → v ≠ None)) w2.
Proof.
  intros Hh H2. apply wp_catch, wp_fmap.
  eapply wp_mono; [apply wp_conj; [apply (wp_respects same_acked), same_acked_recv|
    apply (wp_raises no_claim), g_recv_no_claim]|].
  unfold same_acked. intros [b|x|] w3 [H3 Hx3].
  2: eapply wp_mono; [by apply g_on_failure_spec|]; intros [v|y|] w4 [H4 Hr];
       [by destruct Hr as (? & ? & ?)|..].
  all: split; [apply (left_intro _ _ _ w1); [done|congruence|by right|done]|naive_solver].
Qed.
(** A pass that fails before the payload is acknowledged. *)
Lemma g_unsent_spec attempt p x w w1 w2 :
  handshaken w w1 → acked w2 = acked w1 → no_claim x →
  wp (g_on_failure attempt p false x) (λ r w',
    left_behind p 1 w r w' [] ∧ ∀ v, r = Ret v → v = None ∧ attempt = 0%nat) w2.
Proof.
  intros Hh H2 Hx. eapply wp_mono; [by apply g_on_failure_spec|].
  intros r w3 [H3 Hr]. split; [|intros v ->; naive_solver].
  apply (left_intro _ _ _ w1); [done|by rewrite app_nil_r, H3|by left|by destruct r].
Qed.

Definition pass_post p (attempt : nat) w (r : res exn (option bytes)) w' : Prop :=
  ∃ own, left_behind p 1 w r w' own ∧
    match r with
    | Ret (Some _) => own = [p]
    | Ret None => attempt = 0%nat ∧ own = []
    | _ => True
    end.
Lemma g_attempt_spec fuel attempt p t w :
  wp (g_attempt channel fuel attempt p t) (pass_post p attempt w) w.
Proof.
  unfold g_attempt. apply wp_bind, wp_catch, wp_bind.
  eapply wp_mono; [apply wp_conj; [apply g_ensure_acked|apply (wp_raises no_claim), g_ensure_no_claim]|].
  intros r1 w1 [Hh Hx1].
  assert (∀ x w2, no_claim x → acked w2 = acked w1 →
    wp (inr <$> g_on_failure attempt p false x : M _ _ (() + option bytes))
       (λ s w3, match s with
                | Ret s => wp (match s with
                               | inr r => mret r
                               | inl _ => catch (Some <$> g_recv fuel t) (g_on_failure attempt p true)
                               end) (pass_post p attempt w) w3
                | Raise y => pass_post p attempt w (Raise y) w3
                | Spin => pass_post p attempt w Spin w3
                end) w2) as Hunsent.
  { intros x w2 Hx Ha. apply wp_fmap. eapply wp_mono; [by eapply g_unsent_spec|].
    intros [v|y|] w3 [Hl Hv]; [|by exists []..]. destruct (Hv v eq_refl) as [-> ->].
    apply wp_ret. by exists []. }
  destruct r1 as [[]|x|]; [|by apply Hunsent|].
  - apply wp_bind.
    eapply wp_mono; [apply wp_conj; [apply g_send_acked|apply (wp_raises no_claim), g_send_no_claim]|].
    intros [[]|x|] w2 [H2 Hx2]; simpl.
    + apply wp_ret. eapply wp_mono; [by eapply g_reply_spec|].
      intros [[v|]|y|] w3 [Hl Hv]; exists [p]; [done| |done..]. by destruct (Hv _ eq_refl).
    + rewrite app_nil_r in H2. by apply Hunsent.
    + exists []. split; [|done]. by apply (left_intro _ _ _ w1); [..|left|].
  - exists []. split; [|done]. apply (left_intro _ _ _ w1); [done|by rewrite app_nil_r|by left|done].
Qed.

(** C15: however an exchange ends, the stub has acknowledged, beyond the
    handshakes of new connections, the payload at most once -- exactly once
    when a reply is returned -- and a [TargetError] with [may_have_run] says
    truthfully whether it did, with the connection closed. *)
Theorem exchange_at_most_once fuel p t w :
  wp (exchange channel fuel p t) (λ r w', ∃ own, left_behind p 2 w r w' own ∧
    ∀ b, r = Ret b → own = [p]) w.
Proof.
  unfold exchange. apply wp_bind. eapply wp_mono; [apply g_attempt_spec|].
  intros r w1 (own & (hs & Ha & Hall & Hlen & Hown & Hr) & Hpost).
  destruct r as [[b|]|x|].
  2: { destruct Hpost as [_ ->]. rewrite app_nil_r in Ha. apply wp_bind.
       eapply wp_mono; [apply g_attempt_spec|].
       intros r w2 (own2 & (hs2 & Ha2 & Hall2 & Hlen2 & Hown2 & Hr2) & Hpost2).
       assert (acked w2 = acked w ++ (hs ++ hs2) ++ own2) as Ha'
         by (rewrite Ha2, Ha; by rewrite <-!(assoc_L (++))).
       assert (length (hs ++ hs2) ≤ 2)%nat by (rewrite length_app; lia).
       destruct r as [[b|]|x|]; [apply wp_ret|by destruct Hpost2|..];
         (exists own2; split; [|naive_solver]; exists (hs ++ hs2); split_and!; by auto using Forall_app_2). }
  all: [> apply wp_ret|..]; exists own; (split; [|naive_solver]); exists hs; split_and!; auto; lia.
Qed.
End acked.

(** *** A reply on the stream *)

Lemma hex2_plain z : 0 ≤ z < 256 → is_ascii (hex2 z) = true.
Proof.
  intros Hz. pose proof (nibbles z Hz) as (? & ? & _).
  assert (Forall (λ d, (ord (digit_char d) <? 128) = true) (seqZ 0 16)) as Hd
    by (apply (bool_decide_unpack _); by vm_compute).
  rewrite Forall_forall in Hd. unfold is_ascii, hex2. simpl.
  rewrite !Hd by (apply elem_of_seqZ; lia). done.
Qed.
Lemma tohex_digits b : Forall (λ c, ∃ d, 0 ≤ d < 16 ∧ c = digit_char d) (tohex b).
Proof.
  unfold tohex. apply Forall_forall. intros x (c & Hx & _)%list_elem_of_bind.
  pose proof (nibbles _ (ord_range c)) as (? & ? & _).
  unfold hex2 in Hx. set_solver.
Qed.
Lemma checksum_range b : 0 ≤ checksum b < 256.
Proof.
  unfold checksum. change 255 with (Z.ones 8). rewrite Z.land_ones by lia.
  apply Z.mod_pos_bound. lia.
Qed.

Section stream.
Context {E : Type} `{StreamNet E}.
Context (channel : GdbChannel).
Implicit Types w : gdb E.
Definition at_env w (e : E) : gdb E := Gdb (g_reader w) (g_writer w) (out w) (acked w) e.

Lemma g_read_run c n t w (a : bytes) rest :
  pending c (g_env w) = a ++ rest → length a = Z.to_nat n → 0 ≤ n →
  ∃ e, g_io (readexactly c n t) w = (Ret a, at_env w e) ∧ pending c e = rest.
Proof.
  intros Hp Hn Hn0. destruct (readexactly_take c n t (g_env w)) as (e & He & Hp').
  { rewrite Hp, length_app. lia. }
  exists e. unfold g_io. rewrite He, Hp' , decide_True, Hp by done.
  rewrite <-Hn, take_app_length, drop_app_length. done.
Qed.
Lemma skip_run c t noise rest fuel w :
  "$"%char ∉ noise → (length noise < fuel)%nat →
  pending c (g_env w) = noise ++ "$"%char :: rest →
  ∃ e, skip_to_dollar fuel c t None w = (Ret tt, at_env w e) ∧ pending c e = rest.
Proof.
  revert fuel w. induction noise as [|b noise IH]; intros [|fuel] w Hd Hf Hp; simpl in Hf; try lia.
  - destruct (g_read_run c 1 t w ["$"%char] rest) as (e & He & Hpe); [done..|].
    exists e. split; [|done]. simpl. erewrite bind_run by done. by rewrite bool_decide_true.
  - destruct (g_read_run c 1 t w [b] (noise ++ "$"%char :: rest)) as (e & He & Hpe); [done..|].
    destruct (IH fuel (at_env w e)) as (e' & He' & Hpe'); [set_solver|lia|done|].
    exists e'. split; [|done]. simpl. erewrite bind_run by done.
    rewrite bool_decide_false by set_solver. exact He'.
Qed.
Lemma body_run c t buf b rest fuel w :
  "#"%char ∉ b → (length b < fuel)%nat → Z.of_nat (length (buf ++ b)) ≤ PACKET_MAX →
  pending c (g_env w) = b ++ "#"%char :: rest →
  ∃ e, read_body fuel c t None buf w = (Ret (buf ++ b), at_env w e) ∧ pending c e = rest.
Proof.
  revert buf fuel w. induction b as [|x b IH]; intros buf [|fuel] w Hd Hf Hmax Hp; simpl in Hf; try lia.
  - destruct (g_read_run c 1 t w ["#"%char] rest) as (e & He & Hpe); [done..|].
    exists e. split; [|done]. simpl. erewrite bind_run by done.
    rewrite bool_decide_true by done. by rewrite app_nil_r.
  - destruct (g_read_run c 1 t w [x] (b ++ "#"%char :: rest)) as (e & He & Hpe); [done..|].
    rewrite !length_app in *. simpl in Hmax.
    destruct (IH (buf ++ [x]) fuel (at_env w e)) as (e' & He' & Hpe');
      [set_solver|lia|rewrite !length_app; simpl; lia|done|].
    exists e'. split; [|done]. simpl. erewrite bind_run by done.
    rewrite bool_decide_false by set_solver.
    replace (PACKET_MAX <? _) with false by (symmetry; apply Z.ltb_ge; rewrite length_app; simpl; lia).
    rewrite <-(assoc_L (++)) in He'. exact He'.
Qed.

(** A reply acknowledged: the write goes out and leaves the stream alone. *)
Definition quiet_write (c : nat) (b : bytes) : Prop :=
  ∀ e : E, ∃ e', write_drain c b e = (Ret tt, e') ∧ pending c e' = pending c e.

Lemma recv_run c t noise b rest fuel w :
  g_reader w = Some c → g_writer w = Some c → quiet_write c ["+"%char] →
  "$"%char ∉ noise → "#"%char ∉ b → Z.of_nat (length b) ≤ PACKET_MAX →
  (length noise < fuel)%nat → (length b < fuel)%nat →
  pending c (g_env w) = noise ++ packet b ++ rest →
  ∃ e, g_recv fuel t w = (Ret b, at_env w e) ∧ pending c e = rest.
Proof.
  intros Hr Hw Hq Hn Hb Hmax Hf1 Hf2 Hp. unfold g_recv, recv_by.
  assert (ends_of w = (Ret (c, c), w)) as Hends.
  { unfold ends_of. erewrite bind_run by done. by rewrite Hr, Hw. }
  erewrite bind_run by done. simpl.
  unfold packet in Hp. simpl in Hp. rewrite <-(assoc_L (++)) in Hp. simpl in Hp.
  destruct (skip_run c t noise _ fuel w Hn Hf1 Hp) as (e1 & He1 & Hp1).
  erewrite bind_run by done.
  destruct (body_run c t [] b _ fuel (at_env w e1) Hb Hf2 Hmax Hp1) as (e2 & He2 & Hp2).
  erewrite bind_run by done. simpl in Hp2.
  destruct (g_read_run c 2 t (at_env w e2) (hex2 (checksum b)) rest Hp2) as (e3 & He3 & Hp3); [done..|].
  erewrite bind_run by exact He3. unfold ascii_decode.
  rewrite hex2_plain, int16_hex2 by apply checksum_range.
  erewrite bind_run by done. rewrite Z.eqb_refl.
  destruct (Hq e3) as (e4 & He4 & Hp4). exists e4. split; [|congruence].
  unfold g_io. unfold mbind, M_bind. simpl. by rewrite He4.
Qed.

(** Sending a packet the stub acknowledges at once. *)
Lemma send_run c p t rest w e1 :
  g_reader w = Some c → g_writer w = Some c →
  write_drain c (packet p) (g_env w) = (Ret tt, e1) → pending c e1 = "+"%char :: rest →
  ∃ e, g_send p t w = (Ret tt, Gdb (g_reader w) (g_writer w) (out w ++ [p]) (acked w ++ [p]) e) ∧
       pending c e = rest.
Proof.
  intros Hr Hw Hwrite Hp. unfold g_send.
  assert (ends_of w = (Ret (c, c), w)) as Hends.
  { unfold ends_of. erewrite bind_run by done. by rewrite Hr, Hw. }
  erewrite bind_run by done. simpl.
  assert (g_io (write_drain c (packet p)) w = (Ret tt, at_env w e1)) as Hio
    by (unfold g_io; by rewrite Hwrite).
  erewrite bind_run by done. erewrite bind_run by done. simpl.
  destruct (g_read_run c 1 t (Gdb (g_reader w) (g_writer w) (out w ++ [p]) (acked w) e1) ["+"%char] rest)
    as (e2 & He2 & Hp2); [done..|].
  exists e2. split; [|done]. erewrite bind_run by exact He2.
  by erewrite bind_run by done.
Qed.
(** One exchange over an open connection. *)
Lemma exchange_run c p t noise b rest fuel w e1 :
  g_reader w = Some c → g_writer w = Some c → quiet_write c ["+"%char] →
  write_drain c (packet p) (g_env w) = (Ret tt, e1) →
  pending c e1 = "+"%char :: noise ++ packet b ++ rest →
  "$"%char ∉ noise → "#"%char ∉ b → Z.of_nat (length b) ≤ PACKET_MAX →
  (length noise < fuel)%nat → (length b < fuel)%nat →
  ∃ e, exchange channel fuel p t w =
         (Ret b, Gdb (g_reader w) (g_writer w) (out w ++ [p]) (acked w ++ [p]) e) ∧
       pending c e = rest.
Proof.
  intros Hr Hw Hq Hwrite Hp Hn Hb Hmax Hf1 Hf2.
  destruct (send_run c p t _ w e1 Hr Hw Hwrite Hp) as (e2 & He2 & Hp2).
  destruct (recv_run c t noise b rest fuel
    (Gdb (g_reader w) (g_writer w) (out w ++ [p]) (acked w ++ [p]) e2)) as (e3 & He3 & Hp3); [done..|].
  exists e3. split; [|done].
  assert (g_ensure_connected channel fuel w = (Ret tt, w)) as Hens.
  { unfold g_ensure_connected. erewrite bind_run by done. by rewrite Hr, Hw. }
  assert (g_attempt channel fuel 0 p t w =
    (Ret (Some b), Gdb (g_reader w) (g_writer w) (out w ++ [p]) (acked w ++ [p]) e3)) as Hatt.
  { unfold g_attempt. erewrite bind_run.
    2: { apply catch_run. erewrite bind_run by done. by erewrite bind_run by done. }
    apply catch_run. unfold fmap, M_map. by rewrite He3. }
  unfold exchange. by erewrite bind_run by done.
Qed.

Definition mem_request (addr len : Z) : bytes := "m"%char :: hexz addr ++ ","%char :: hexz len.

(** C20: over a connection on which the stub acknowledges the request and
    sends, after any bytes that are not a packet, the packet of the hex of
    [data], [read_memory] returns [data], puts one request out, and leaves
    the stream at the byte after the packet. *)
Theorem read_memory_answers fuel addr len data noise rest c w e1 :
  g_reader w = Some c → g_writer w = Some c → quiet_write c ["+"%char] →
  0 < len ≤ 65536 →
  write_drain c (packet (mem_request addr len)) (g_env w) = (Ret tt, e1) →
  pending c e1 = "+"%char :: noise ++ packet (tohex data) ++ rest →
  "$"%char ∉ noise → 2 * Z.of_nat (length data) ≤ PACKET_MAX →
  (length noise < fuel)%nat → (2 * length data < fuel)%nat →
  ∃ w', read_memory channel fuel addr len w = (Ret data, w') ∧
    g_reader w' = Some c ∧ out w' = out w ++ [mem_request addr len] ∧
    acked w' = acked w ++ [mem_request addr len] ∧ pending c (g_env w') = rest.
Proof.
  intros Hr Hw Hq Hlen Hwrite Hp Hn Hmax Hf1 Hf2.
  pose proof (tohex_digits data) as Hdig.
  assert (length (tohex data) = (2 * length data)%nat) as Hl.
  { unfold tohex. clear. induction data as [|x d IH]; [done|]. csimpl. rewrite IH. lia. }
  assert (Forall (λ c, c ≠ "#"%char ∧ c ≠ "E"%char ∧ (ord c <? 128) = true) (tohex data)) as Hplain.
  { eapply Forall_impl; [exact Hdig|]. intros x (d & Hd & ->).
    assert (Forall (λ d, digit_char d ≠ "#"%char ∧ digit_char d ≠ "E"%char ∧
      (ord (digit_char d) <? 128) = true) (seqZ 0 16)) as Hall
      by (apply (bool_decide_unpack _); by vm_compute).
    rewrite Forall_forall in Hall. apply Hall, elem_of_seqZ. lia. }
  destruct (exchange_run c (mem_request addr len) GDB_TIMEOUT noise (tohex data) rest fuel w e1)
    as (e2 & He2 & Hp2); [done..| |rewrite Hl; lia|done|rewrite Hl; lia|].
  { intros Hin. rewrite Forall_forall in Hplain. by destruct (Hplain _ Hin). }
  exists (Gdb (g_reader w) (g_writer w) (out w ++ [mem_request addr len])
              (acked w ++ [mem_request addr len]) e2).
  split; [|done]. unfold read_memory.
  replace (len <=? 0) with false by lia. replace (65536 <? len) with false by lia.
  erewrite bind_run by exact He2.
  assert (is_error_reply (tohex data) = false) as ->.
  { unfold is_error_reply. destruct (tohex data) as [|x h]; [done|].
    apply Forall_cons in Hplain as [(_ & HE & _) _]. simpl. by rewrite bool_decide_false by congruence. }
  assert (is_ascii (tohex data) = true) as Hascii.
  { unfold is_ascii. apply forallb_forall. rewrite Forall_forall in Hplain.
    intros x Hx. apply Hplain. by apply list_elem_of_In. }
  unfold lift, from_hex_reply, ascii_decode. by rewrite Hascii, fromhex_tohex.
Qed.
End stream.

(* ------------------------------------------------------------------ *)
(** ** The stack walk on a memory that answers the same each time *)

Section chain.
Context {W : Type} (peek : Z → option Z) (regs : Z → Z).
Context (reg : Z → M W exn Z) (mem : Z → Z → M W exn bytes).
Definition reads_peek : Prop :=
  (∀ n w, reg n w = (Ret (regs n), w)) ∧
  (∀ a w, mem a 4 w = (match peek a with
                       | Some v => Ret (be_bytes 4 v)
                       | None => Raise (ERpc TargetError None)
                       end, w)) ∧
  (∀ a v, peek a = Some v → 0 ≤ v < 4294967296).

(** The caller of the frame at [sp], when its back chain is a sane stack
    pointer and its saved LR can be read: the caller's SP and return address. *)
Definition caller (sp : Z) : option (Z * Z) :=
  if no_frame sp then None
  else back ← peek sp;
       if no_frame back || (back <=? sp) then None else lr ← peek (back + 4); Some (back, lr).
(** The frames from index [i] up, each the caller of the one before; [ends]
    says the last of them has no caller. *)
Inductive chain : Z → Z → list frame → bool → Prop :=
| chain_more i sp : chain i sp [] true
| chain_end i sp : caller sp = None → chain i sp [] false
| chain_cons i sp back lr fs trunc :
    caller sp = Some (back, lr) → chain (i + 1) back fs trunc →
    chain i sp (Frame i lr back :: fs) trunc.

Lemma mem_word_run a w : reads_peek → mem_word mem a w = (Ret (peek a), w).
Proof.
  intros (_ & Hmem & Hrange). unfold mem_word, catch, fmap, M_map, mbind, M_bind.
  rewrite Hmem. destruct (peek a) as [v|] eqn:Hv; [|done].
  rewrite bool_decide_true by (by rewrite length_be_bytes).
  rewrite be_val_bytes; [done|]. change (256 ^ Z.of_nat 4) with 4294967296. eauto.
Qed.
Lemma walk_run more i sp w : reads_peek → ∃ fs trunc,
  walk mem more i sp w = (Ret (fs, trunc), w) ∧ chain i sp fs trunc ∧
  (length fs ≤ more)%nat ∧ (trunc = true ↔ length fs = more).
Proof.
  intros Hp. revert i sp. induction more as [|more IH]; intros i sp.
  { exists [], true. split_and!; [done|constructor|done|done]. }
  assert (caller sp = None → chain i sp [] false ∧ (length (@nil frame) ≤ S more)%nat ∧
    (false = true ↔ length (@nil frame) = S more)) as Hend
    by (intros; split_and!; [by constructor|simpl; lia|done]).
  simpl. destruct (no_frame sp) eqn:Hsp.
  { exists [], false. split; [done|]. apply Hend. unfold caller. by rewrite Hsp. }
  unfold caller in Hend. rewrite Hsp in Hend.
  erewrite bind_run by (by apply mem_word_run).
  destruct (peek sp) as [back|] eqn:Hback; [|exists [], false; by split; [|apply Hend]].
  csimpl in Hend. destruct (no_frame back || (back <=? sp)) eqn:Hsane;
    [exists [], false; by split; [|apply Hend]|].
  erewrite bind_run by (by apply mem_word_run).
  destruct (peek (back + 4)) as [lr|] eqn:Hlr; [|exists [], false; by split; [|apply Hend]].
  destruct (IH (i + 1) back) as (fs & trunc & Hrun & Hc & Hle & Htr).
  exists (Frame i lr back :: fs), trunc. erewrite bind_run by done.
  split; [done|]. split; [|simpl; split; [lia|rewrite Htr; lia]].
  econstructor; [|done]. unfold caller. rewrite Hsp, Hback. csimpl. by rewrite Hsane, Hlr.
Qed.

(** Along a chain the stack pointers only grow, so no frame is listed twice. *)
Lemma chain_grows i sp fs trunc : chain i sp fs trunc →
  Forall (λ f, sp < Gdb.sp f) fs ∧ StronglySorted (λ f g, Gdb.sp f < Gdb.sp g) fs.
Proof.
  induction 1 as [| |i sp back lr fs trunc Hc Hch [IH1 IH2]]; [by split; constructor..|].
  assert (sp < back) as Hlt.
  { unfold caller in Hc. destruct (no_frame sp); [done|]. destruct (peek sp) as [b|]; [|done].
    csimpl in Hc. destruct (no_frame b || (b <=? sp)) eqn:Hb; [done|].
    destruct (peek (b + 4)); simplify_eq/=. lia. }
  split; [constructor; [done|]; eapply Forall_impl; [exact IH1|]; simpl; lia|].
  by constructor.
Qed.
(** with a readable stack [debug.backtrace] returns, after the frame of
    the registers, exactly the callers that follow from one another along the
    back chain, in order and numbered; it stops at the first frame without a
    caller or at [max_frames] frames, [truncated] says which, and the stack
    pointers listed only grow. *)
Theorem debug_backtrace_chain max_frames w :
  reads_peek → ∃ bt fs,
    debug_backtrace reg mem max_frames w = (Ret bt, w) ∧
    frames bt = Frame 0 (regs 64) (regs 1) :: fs ∧ chain 1 (regs 1) fs (truncated bt) ∧
    Z.of_nat (length (frames bt)) ≤ Z.max 1 max_frames ∧
    (truncated bt = true ↔ Z.of_nat (length (frames bt)) = Z.max 1 max_frames) ∧
    StronglySorted (λ f g, sp f < sp g) (frames bt).
Proof.
  intros Hp. pose proof Hp as [Hreg _]. unfold debug_backtrace.
  do 3 (erewrite bind_run by apply Hreg).
  destruct (walk_run (Z.to_nat (max_frames - 1)) 1 (regs 1) w Hp) as (fs & trunc & Hrun & Hc & Hle & Htr).
  erewrite bind_run by done. do 2 eexists. split; [done|]. simpl.
  destruct (chain_grows _ _ _ _ Hc).
  split_and!; [done|done|lia|rewrite Htr; lia|by constructor].
Qed.

End chain.

(* ------------------------------------------------------------------ *)
(** ** Examples *)

(** A stub: a packet takes the next of the answers (bytes that then arrive,
    or a connection reset after the packet was read), an acknowledgement
    takes none. *)
Record stub := Stub { s_in : bytes; answers : list (option bytes) }.
Definition stub_pending (c : nat) (e : stub) : bytes := if decide (c = 0%nat) then s_in e else [].
#[export] Instance stub_net : Net stub := {|
  open_connection host port t := λ e, (Ret 0%nat, Stub [] (answers e));
  at_eof c e := false;
  readexactly c n t := λ e,
    if decide (n ≤ Z.of_nat (length (stub_pending c e)))
    then (Ret (take (Z.to_nat n) (stub_pending c e)),
          Stub (if decide (c = 0%nat) then drop (Z.to_nat n) (s_in e) else s_in e) (answers e))
    else (Raise IoEof, Stub [] (answers e));
  write_drain c b := λ e,
    if bool_decide (b = ["+"%char]) then (Ret tt, e)
    else match answers e with
         | [] => (Ret tt, e)
         | Some r :: rs => (Ret tt, Stub (s_in e ++ r) rs)
         | None :: rs => (Ret tt, Stub [] rs)
         end;
  close_wait c t := λ e, (Ret tt, Stub [] (answers e));
  monotonic e := 0;
  sleep t := mret tt;
  run_handler h j := mret tt |}.
#[export, refine] Instance stub_stream : StreamNet stub := {| pending := stub_pending |}.
Proof.
  - intros c n t e Hn. eexists. simpl. rewrite decide_True by lia. split; [done|].
    intros c'. unfold stub_pending. simpl.
    repeat case_decide; subst; try done; by rewrite drop_nil.
  - intros h j e. exists (Ret tt), e. by split_and!.
Defined.
Definition ex_gdb_channel : GdbChannel := {| gdb_enabled := true; gdb_endpoint := "127.0.0.1:1234" |}.
Definition reply (b : bytes) : option bytes := Some ("+"%char :: packet b).
Definition fresh_gdb (l : list (option bytes)) : gdb stub := Gdb None None [] [] (Stub [] l).
Definition open_gdb (l : list (option bytes)) : gdb stub :=
  Gdb (Some 0%nat) (Some 0%nat) [] [] (Stub [] l).

Example read_registers_run :
  (read_registers ex_gdb_channel 100 (fresh_gdb [reply (txt "PacketSize=1000"); reply (txt "deadbeef")])).1
  = Ret [chr 222; chr 173; chr 190; chr 239].
Proof. vm_compute. reflexivity. Qed.

(** A stub that read the packet and lost the connection before its [+]
    reached the client gets the step a second time. *)
Example step_sent_twice :
  out (step ex_gdb_channel 100 (Gdb (Some 0%nat) (Some 0%nat) [] []
         (Stub [] [None; reply (txt "OK"); reply (txt "T05")]))).2
  = [txt "s"; hello; txt "s"].
Proof. vm_compute. reflexivity. Qed.

Lemma read_memory_answers_witness :
  let data := [chr 0; chr 255; chr 16; chr 66] in
  ∃ w', read_memory ex_gdb_channel 100 4096 4 (open_gdb [reply (tohex data)]) = (Ret data, w') ∧
    g_reader w' = Some 0%nat ∧ out w' = [txt "m1000,4"] ∧ acked w' = [txt "m1000,4"] ∧
    pending 0 (g_env w') = [].
Proof.
  intros data.
  destruct (read_memory_answers ex_gdb_channel 100 4096 4 data [] [] 0 (open_gdb [reply (tohex data)])
    (Stub ("+"%char :: packet (tohex data)) [])) as (w' & Hrun & Hr & Ho & Ha & Hp).
  - reflexivity.
  - reflexivity.
  - intros e. exists e. split; reflexivity.
  - lia.
  - vm_compute. reflexivity.
  - vm_compute. reflexivity.
  - set_solver.
  - unfold PACKET_MAX. simpl. lia.
  - simpl. lia.
  - simpl. lia.
  - exists w'. split_and!; assumption.
Defined.

(** A guest stack of two frames above the current one. *)
Definition ex_stack (a : Z) : option Z :=
  assoc (str (hex a)) [("1000", 4160); ("1040", 4224); ("1044", 28672); ("1080", 0); ("1084", 32768)].
Definition ex_regs (n : Z) : Z := if n =? 1 then 4096 else if n =? 64 then 24576 else 25600.
Definition ex_reg (n : Z) : M unit exn Z := mret (ex_regs n).
Definition ex_mem (a n : Z) : M unit exn bytes :=
  match ex_stack a with Some v => mret (be_bytes 4 v) | None => raise (ERpc TargetError None) end.
Lemma ex_reads_peek : reads_peek ex_stack ex_regs ex_reg ex_mem.
Proof.
  split_and!; [done|intros a w; unfold ex_mem; by destruct (ex_stack a)|].
  intros a v Hv%assoc_elem. repeat (apply elem_of_cons in Hv as [?|Hv]; [simplify_eq; lia|]).
  set_solver.
Qed.
Lemma debug_backtrace_chain_witness : ∃ bt fs,
  debug_backtrace ex_reg ex_mem 16 tt = (Ret bt, tt) ∧
  frames bt = Frame 0 24576 4096 :: fs ∧ chain ex_stack 1 4096 fs (truncated bt) ∧
  Z.of_nat (length (frames bt)) ≤ 16 ∧
  (truncated bt = true ↔ Z.of_nat (length (frames bt)) = 16) ∧
  StronglySorted (λ f g, sp f < sp g) (frames bt).
Proof. exact (debug_backtrace_chain ex_stack ex_regs ex_reg ex_mem 16 tt ex_reads_peek). Defined.
Example backtrace_run :
  frames <$> (match (debug_backtrace ex_reg ex_mem 16 tt).1 with Ret b => Some b | _ => None end)
  = Some [Frame 0 24576 4096; Frame 1 28672 4160; Frame 2 32768 4224].
Proof. vm_compute. reflexivity. Qed.
