(* ===== verification/Debug.v ===== *)
(** * The debug tools: [tools/debug.py]

    Each tool over the GDB stub client of its target, and what resuming a
    machine with [debug.continue] leaves behind.  Times are in milliseconds. *)
From S2P Require Import Prelude Py Bytes Config Net Gdb.

(** The methods of a [GdbTransport] that the tools call. *)
Record stub_client (W : Type) := StubClient {
  c_registers : M W exn bytes;
  c_register : Z → M W exn Z;
  c_memory : Z → Z → M W exn bytes;
  c_stop_reason : M W exn text;
  c_set : Z → Z → bool → M W exn text;
  c_clear : Z → Z → bool → M W exn text;
  c_step : M W exn text;
  c_cont : Z → M W exn text;
  c_detach : M W exn unit }.
Arguments StubClient {W}. Arguments c_registers {W}. Arguments c_register {W}. Arguments c_memory {W}.
Arguments c_stop_reason {W}. Arguments c_set {W}. Arguments c_clear {W}. Arguments c_step {W}.
Arguments c_cont {W}. Arguments c_detach {W}.
Definition transport {E} `{Net E} (channel : GdbChannel) (fuel : nat) : stub_client (gdb E) := {|
  c_registers := read_registers channel fuel; c_register := read_one_register channel fuel;
  c_memory := read_memory channel fuel; c_stop_reason := stop_reason channel fuel;
  c_set := set_breakpoint channel fuel; c_clear := clear_breakpoint channel fuel;
  c_step := step channel fuel; c_cont := cont channel fuel; c_detach := detach fuel |}.

Record registers_result := RegistersResult { dr_target : string; raw_size : Z; raw_b64 : text; gpr : list Z; dr_pc : option Z }.
Record memory_result := MemoryResult { dm_target : string; dm_addr : Z; dm_length : Z; content_b64 : text }.
Record reply_result := ReplyResult { sr_target : string; sr_reply : text }.
Record detach_result := DetachResult { dd_target : string; detached : bool }.
Record breakpoint_result := BreakpointResult { bp_target : string; bp_addr : Z; bp_hardware : bool; bp_reply : text }.
Record continue_result := ContinueResult { dc_target : string; dc_reply : text; interrupted : bool }.

Section tools.
(** [fleet.gdb(target)] and [time.monotonic()]. *)
Context {W : Type} (fleet_gdb : string → M W exn (stub_client W)) (now : W → Z).
Abbreviation MD := (M W exn).

Definition debug_read_registers (target : string) : MD registers_result :=
  g ← fleet_gdb target;
  blob ← c_registers g;
  mret (RegistersResult target (Z.of_nat (length blob)) (py_b64encode blob) (parse_gprs blob) None).
Definition debug_read_memory (target : string) (addr len : Z) : MD memory_result :=
  g ← fleet_gdb target;
  data ← c_memory g addr len;
  mret (MemoryResult target addr (Z.of_nat (length data)) (py_b64encode data)).
Definition debug_stop_reason (target : string) : MD reply_result :=
  g ← fleet_gdb target;
  r ← c_stop_reason g;
  mret (ReplyResult target r).
Definition debug_detach (target : string) : MD detach_result :=
  g ← fleet_gdb target;
  c_detach g;;
  mret (DetachResult target true).
Definition debug_set_breakpoint (target : string) (addr kind : Z) (hardware : bool) : MD breakpoint_result :=
  g ← fleet_gdb target;
  r ← c_set g addr kind hardware;
  mret (BreakpointResult target addr hardware r).
Definition debug_clear_breakpoint (target : string) (addr kind : Z) (hardware : bool) : MD breakpoint_result :=
  g ← fleet_gdb target;
  r ← c_clear g addr kind hardware;
  mret (BreakpointResult target addr hardware r).
Definition debug_step (target : string) : MD reply_result :=
  g ← fleet_gdb target;
  r ← c_step g;
  mret (ReplyResult target r).
Definition debug_continue (target : string) (timeout : Z) : MD continue_result :=
  g ← fleet_gdb target;
  t0 ← gets now;
  r ← c_cont g timeout;
  t1 ← gets now;
  mret (ContinueResult target r (timeout <=? t1 - t0)).
End tools.

(* ------------------------------------------------------------------ *)
(** ** Resuming a machine *)

(** A clock that does not run backwards, and reads that give up no sooner than
    asked; a write does not time out. *)
Class ClockedNet (E : Type) `{Net E} : Prop := {
  open_clock h p t e : monotonic e ≤ monotonic (open_connection h p t e).2;
  read_clock c n t e : monotonic e ≤ monotonic (readexactly c n t e).2;
  write_clock c b e : monotonic e ≤ monotonic (write_drain c b e).2;
  close_clock c t e : monotonic e ≤ monotonic (close_wait c t e).2;
  read_timeout c n t e m e' : readexactly c n t e = (Raise (IoOS TimeoutError m), e') → monotonic e + t ≤ monotonic e';
  write_timeout c b e m : (write_drain c b e).1 ≠ Raise (IoOS TimeoutError m) }.

Section resume.
Context {E : Type} `{ClockedNet E} (channel : GdbChannel).
Implicit Types w : gdb E.
Abbreviation MG := (M (gdb E) exn).
Definition time w : Z := monotonic (g_env w).

(** What listening leaves alone. *)
Definition listening : relation (gdb E) := λ w w', out w' = out w ∧ acked w' = acked w ∧ time w ≤ time w'.
#[local] Instance listening_preorder : PreOrder listening.
Proof. split; [by intros w|]. intros w1 w2 w3 (? & ? & ?) (? & ? & ?). split_and!; [congruence..|lia]. Qed.
(** ... and what talking does besides: no interrupt goes out. *)
Definition talking : relation (gdb E) := λ w w', (∃ os, out w' = out w ++ os ∧ ctrl_c ∉ os) ∧ time w ≤ time w'.
#[local] Instance talking_preorder : PreOrder talking.
Proof.
  split; [by intros w; split; [exists []; rewrite app_nil_r; split; [|apply not_elem_of_nil]|]|].
  intros w1 w2 w3 [(o1 & Ho1 & ?) ?] [(o2 & Ho2 & ?) ?]. split; [|lia].
  exists (o1 ++ o2). rewrite Ho2, Ho1, <-(assoc_L (++)). split; [done|]. by apply not_elem_of_app.
Qed.
Lemma listening_talking {A} (m : MG A) : respects listening m → respects talking m.
Proof.
  intros Hm w. destruct (Hm w) as (Ho & _ & ?). split; [|done]. exists []. rewrite app_nil_r.
  split; [done|apply not_elem_of_nil].
Qed.
Lemma listening_io {A} (m : M E io_exn A) : (∀ e, monotonic e ≤ monotonic (m e).2) → respects listening (g_io m).
Proof.
  intros Hm w. unfold listening, g_io, time. specialize (Hm (g_env w)).
  by destruct (m (g_env w)) as [[a|x|] e].
Qed.
Lemma listening_get : respects listening (get : MG _).
Proof. intros w. reflexivity. Qed.
Lemma listening_set r wr : respects listening (g_set r wr : MG unit).
Proof. done. Qed.
#[local] Hint Resolve listening_get listening_set open_clock read_clock write_clock close_clock listening_io : respects.
Lemma listening_ends : respects listening (ends_of : MG _).
Proof. unfold ends_of. apply (respects_bind _); [apply listening_get|]. intros. respects_tac. Qed.
Lemma listening_read r n t d : respects listening (g_read r n t d : MG _).
Proof.
  destruct d; simpl; [apply (respects_bind _); [apply listening_get|intros w]|];
    apply listening_io; intros; apply read_clock.
Qed.
#[local] Hint Resolve listening_ends listening_read : respects.
Lemma listening_skip fuel r t d : respects listening (skip_to_dollar fuel r t d : MG _).
Proof. induction fuel; simpl; respects_tac. Qed.
Lemma listening_body fuel r t d buf : respects listening (read_body fuel r t d buf : MG _).
Proof. revert buf. induction fuel; intros; simpl; respects_tac. Qed.
#[local] Hint Resolve listening_skip listening_body : respects.
Lemma listening_write c b : respects listening (g_io (write_drain c b) : MG _).
Proof. apply listening_io. intros. apply write_clock. Qed.
#[local] Hint Resolve listening_write : respects.
Lemma listening_recv fuel t d : respects listening (recv_by fuel t d : MG _).
Proof. unfold recv_by. respects_tac. Qed.
#[local] Hint Resolve listening_recv : respects.
Lemma listening_within fuel t l : respects listening (recv_within fuel t l : MG _).
Proof.
  unfold recv_within. destruct (l <=? 0); [respects_tac|]. apply (respects_bind _); [apply listening_get|].
  intros. respects_tac.
Qed.
Lemma listening_close : respects listening (g_close_locked : MG _).
Proof.
  unfold g_close_locked. apply (respects_bind _); [apply listening_get|]. intros w.
  respects_tac.
Qed.
Lemma talking_log p : p ≠ ctrl_c → respects talking (log_out p : MG _).
Proof.
  intros Hp w. split; [|simpl; reflexivity]. exists [p]. split; [done|]. by intros ?%list_elem_of_singleton.
Qed.
Lemma talking_acked p : respects talking (log_acked p : MG _).
Proof.
  intros w. split; [|simpl; reflexivity]. exists []. simpl. rewrite app_nil_r. split; [done|apply not_elem_of_nil].
Qed.
#[local] Hint Resolve listening_talking talking_acked listening_within listening_close : respects.
Lemma talking_send p t : p ≠ ctrl_c → respects talking (g_send p t : MG _).
Proof.
  intros Hp. pose proof (talking_log p Hp). unfold g_send. respects_tac;
    apply listening_talking, listening_io; intros; apply read_clock.
Qed.
Lemma talking_ensure fuel : respects talking (g_ensure_connected channel fuel : MG _).
Proof.
  assert (respects talking (g_send hello GDB_TIMEOUT : MG _)) by (by apply talking_send).
  unfold g_ensure_connected. apply (respects_bind _); [apply listening_talking, listening_get|]. intros w.
  respects_tac.
Qed.

(** A receive under a deadline that times out has reached it. *)
Definition late (d : Z) {A} (r : res exn A) w' : Prop := ∀ x, r = Raise x → is_timeout x = true → d ≤ time w'.
Lemma read_late r n t d w : d ≤ time w + t → wp (g_read r n t (Some d) : MG _) (λ res w', late d res w') w.
Proof.
  intros Hd. unfold g_read. apply wp_bind. unfold wp at 1, get. simpl. unfold wp, g_io.
  set (t' := Z.min t (d - monotonic (g_env w))). destruct (readexactly r n t' (g_env w)) as [[a|x|] e] eqn:Hr; try done.
  intros y [= <-]. destruct x as [c m| |]; try done. destruct c; try done. intros _.
  apply read_timeout in Hr. unfold time in *. simpl. lia.
Qed.
Lemma late_then {A B} d (m : MG A) (k : A → MG B) w t : respects listening m → d ≤ time w + t →
  wp m (late d) w → (∀ a w', d ≤ time w' + t → wp (k a) (late d) w') → wp (m ≫= k) (late d) w.
Proof.
  intros Hm Hd Hl Hk. apply wp_bind. eapply wp_mono; [apply wp_conj; [exact Hl|exact (wp_respects _ _ _ Hm)]|].
  intros [a|x|] w' [Hx (_ & _ & Ht)]; [apply Hk; lia| |done]. intros y [= <-]. by apply Hx.
Qed.
Lemma skip_late fuel r t d w : d ≤ time w + t → wp (skip_to_dollar fuel r t (Some d) : MG _) (late d) w.
Proof.
  revert w. induction fuel as [|fuel IH]; intros w Hd; [done|]. cbn [skip_to_dollar].
  eapply late_then; [apply listening_read|done|by apply read_late|]. intros b w' Hd'. case_match; [done|by apply IH].
Qed.
Lemma body_late fuel r t d buf w : d ≤ time w + t → wp (read_body fuel r t (Some d) buf : MG _) (late d) w.
Proof.
  revert buf w. induction fuel as [|fuel IH]; intros buf w Hd; [done|]. cbn [read_body].
  eapply late_then; [apply listening_read|done|by apply read_late|]. intros b w' Hd'.
  case_match; [done|]. case_match; [|by apply IH]. by intros x [= <-].
Qed.
Lemma write_late c b d w : wp (g_io (write_drain c b) : MG _) (late d) w.
Proof.
  unfold wp, g_io. pose proof (write_timeout c b (g_env w)) as Hx.
  destruct (write_drain c b (g_env w)) as [[a|x|] e]; simpl in *; try done.
  intros y [= <-]. destruct x as [k m| |]; [|done..]. destruct k; try done. by destruct (Hx m).
Qed.
Lemma recv_late fuel t d w : d ≤ time w + t → wp (recv_by fuel t (Some d) : MG _) (late d) w.
Proof.
  intros Hd. unfold recv_by.
  eapply late_then; [apply listening_ends|done| |intros c w1 H1].
  { unfold wp, ends_of, mbind, M_bind, get. simpl. destruct (g_reader w), (g_writer w); by intros ? [= <-]. }
  eapply late_then; [apply listening_skip|done|by apply skip_late|intros [] w2 H2].
  eapply late_then; [apply listening_body|done|by apply body_late|intros buf w3 H3'].
  eapply late_then; [apply listening_read|done|by apply read_late|intros cs w4 H4].
  eapply late_then; [apply (respects_lift _)|done| |intros z w5 H5].
  { apply wp_lift. unfold ascii_decode. destruct (is_ascii cs); [destruct (int16 cs)|]; by intros ? [= <-]. }
  case_match; (eapply late_then; [apply listening_write|done|apply write_late|]); [done|]. by intros [] w6 _ x [= <-].
Qed.
Lemma within_late fuel t l w : l ≤ t → wp (recv_within fuel t l : MG _) (late (time w + l)) w.
Proof.
  intros Hl. unfold recv_within. destruct (Z.leb_spec l 0); [intros x [= <-] _; unfold time; simpl; lia|].
  apply wp_bind. unfold wp at 1, get. simpl. apply recv_late. unfold time. lia.
Qed.

(** What [cont] leaves behind, however it ends. *)
Definition resumed (t : Z) w (r : res exn text) w' : Prop := ∃ hs own os ints,
  acked w' = acked w ++ hs ++ own ∧ out w' = out w ++ os ++ ints ∧
  (hs = [] ∨ hs = [hello]) ∧ (own = [] ∨ own = [txt "c"]) ∧ (∀ v, r = Ret v → own = [txt "c"]) ∧
  (ctrl_c ∉ os) ∧ (ints = [] ∨ (ints = [ctrl_c] ∧ own = [txt "c"] ∧ time w + t ≤ time w')).
Definition sent_c w w' : Prop := ∃ hs os, acked w' = acked w ++ hs ++ [txt "c"] ∧ out w' = out w ++ os ∧
  (hs = [] ∨ hs = [hello]) ∧ (ctrl_c ∉ os) ∧ time w ≤ time w'.
Lemma resumed_quietly t w w1 w2 r : sent_c w w1 → listening w1 w2 → resumed t w r w2.
Proof.
  intros (hs & os & Ha & Ho & Hh & Hc & _) (Ho' & Ha' & _). exists hs, [txt "c"], os, [].
  rewrite app_nil_r. split_and!; try done; try congruence; [by right|by left].
Qed.
Lemma resumed_broken t w w1 w2 r : sent_c w w1 → time w + t ≤ time w2 → out w2 = out w1 ++ [ctrl_c] →
  acked w2 = acked w1 → resumed t w r w2.
Proof.
  intros (hs & os & Ha & Ho & Hh & Hc & _) Ht Ho' Ha'. exists hs, [txt "c"], os, [ctrl_c].
  rewrite Ho', Ho, <-(assoc_L (++)). split_and!; try done; try congruence; [by right|right; by split_and!; try lia].
Qed.
Lemma interrupt_spec w : wp (interrupt : MG unit) (λ r w', time w ≤ time w' ∧ acked w' = acked w ∧
  out w' = out w ++ match r with Ret _ => [ctrl_c] | _ => [] end) w.
Proof.
  unfold interrupt. apply wp_bind. unfold wp at 1, get. simpl. destruct (g_writer w) as [wr|].
  - apply wp_bind. eapply wp_mono; [apply (wp_respects listening), listening_write|].
    intros [[]|x|] w1 (Ho & Ha & Ht); [|by rewrite app_nil_r..]. apply wp_modify. simpl. by rewrite Ho.
  - apply wp_raise. rewrite app_nil_r. by split_and!.
Qed.
Lemma sending_spec fuel w : wp (g_ensure_connected channel fuel;; g_send (txt "c") GDB_TIMEOUT : MG _) (λ r w',
  match r with Ret _ => sent_c w w' | _ => ∀ t r', (∀ v, r' ≠ Ret v) → resumed t w r' w' end) w.
Proof.
  apply wp_bind. eapply wp_mono; [apply wp_conj; [apply g_ensure_acked|apply (wp_respects talking), talking_ensure]|].
  intros r w1 [Ha [(os & Ho & Hc) Ht]].
  assert (∃ hs, acked w1 = acked w ++ hs ∧ (hs = [] ∨ hs = [hello])) as (hs & Hhs & Hh).
  { destruct Ha as [Ha|Ha]; [exists []|exists [hello]]; rewrite Ha, ?app_nil_r; auto. }
  assert (∀ w2 t (r' : res exn text), acked w2 = acked w1 → talking w1 w2 → (∀ v, r' ≠ Ret v) → resumed t w r' w2) as Hend.
  { intros w2 t r' Ha2 [(os2 & Ho2 & Hc2) _] Hr. exists hs, [], (os ++ os2), [].
    rewrite !app_nil_r, Ho2, Ho, Ha2, <-(assoc_L (++)). split_and!; try done; [by left|naive_solver| |by left].
    by apply not_elem_of_app. }
  destruct r as [[]|x|]; [|intros t r'; by apply Hend..].
  eapply wp_mono; [apply wp_conj; [apply g_send_acked|apply (wp_respects talking); by apply talking_send]|].
  intros r w2 [Ha2 Hk2]. destruct r as [[]|x|]; [|rewrite app_nil_r in Ha2; intros t r'; by apply Hend..].
  destruct Hk2 as [(os2 & Ho2 & Hc2) Ht2]. exists hs, (os ++ os2).
  rewrite Ha2, Hhs, Ho2, Ho, <-!(assoc_L (++)). split_and!; [done..|by apply not_elem_of_app|unfold talking in *; lia].
Qed.
(** The wait for the answer to the interrupt. *)
Lemma after_interrupt fuel t w w1 w2 : sent_c w w1 → time w + t ≤ time w2 → out w2 = out w1 ++ [ctrl_c] →
  acked w2 = acked w1 → wp (catch (recv_within fuel 10000 10000) (λ e,
    if is_timeout e then g_close_locked;; raise (ERpc TargetError None) else raise e) : MG bytes)
    (λ r w', ∀ r' : res exn text, resumed t w r' w') w2.
Proof.
  intros Hs Ht Ho Ha.
  assert (∀ w' (r' : res exn text), listening w2 w' → resumed t w r' w') as Hend.
  { intros w' r' (Ho' & Ha' & Ht'). apply (resumed_broken _ _ w1); [done|lia|congruence..]. }
  apply wp_catch. eapply wp_mono; [apply (wp_respects listening), listening_within|].
  intros [b|x|] w3 H3'; [intros; by apply Hend| |intros; by apply Hend].
  destruct (is_timeout x); [|apply wp_raise; intros; by apply Hend].
  apply wp_bind. eapply wp_mono; [apply (wp_respects listening), listening_close|].
  intros [[]|y|] w4 H4; [apply wp_raise|..]; intros r'; apply Hend; by etrans.
Qed.
Lemma wp_assoc {A B C} (m : MG A) (f : A → MG B) (g : B → MG C) Q w :
  wp ((m ≫= f) ≫= g) Q w → wp (m ≫= λ a, f a ≫= g) Q w.
Proof. unfold wp, mbind, M_bind. by destruct (m w) as [[a|x|] w1]. Qed.
Lemma cont_spec fuel t w : wp (cont channel fuel t) (resumed t w) w.
Proof.
  unfold cont. apply wp_assoc, wp_bind. eapply wp_mono; [apply sending_spec|].
  intros [[]|x|] w1 Hs; [|by apply Hs..].
  apply wp_bind, wp_catch.
  eapply wp_mono; [apply wp_conj; [apply (wp_respects listening), listening_within|apply (within_late _ _ t); lia]|].
  intros [b|x|] w2 [Hl Hx]; [by apply wp_ret, (resumed_quietly _ _ w1)| |by apply (resumed_quietly _ _ w1)].
  destruct (is_timeout x) eqn:Ht; [|by apply wp_raise, (resumed_quietly _ _ w1)].
  specialize (Hx x eq_refl Ht). assert (time w ≤ time w1) as Hw by (by destruct Hs as (? & ? & _ & _ & _ & _ & ?)).
  apply wp_bind. eapply wp_mono; [apply interrupt_spec|]. intros r w3 (Ht3 & Ha3 & Ho3).
  destruct Hl as (Ho & Ha & Ht2).
  destruct r as [[]|y|]; [|by rewrite app_nil_r in Ho3; apply (resumed_quietly _ _ w1); [|split_and!; [congruence..|lia]]..].
  eapply wp_mono; [apply (after_interrupt _ t w w1); [done|lia|congruence..]|].
  intros [b|y|] w4 Hr; [apply wp_ret|..]; apply Hr.
Qed.
(** [debug.continue] resumes the machine at most once, whatever happens to
    the connection: beyond the handshake of a new connection the stub has
    acknowledged one [c] when a reply is returned and at most one otherwise.
    At most one interrupt is sent, after the [c] was acknowledged and not
    before the given time has passed, and a reply to it is reported as one of
    an interrupted machine. *)
Theorem debug_continue_honest fuel target t w :
  wp (debug_continue (λ _, mret (transport channel fuel)) time target t) (λ r w',
    ∃ hs own os ints, acked w' = acked w ++ hs ++ own ∧ out w' = out w ++ os ++ ints ∧
      (hs = [] ∨ hs = [hello]) ∧ (own = [] ∨ own = [txt "c"]) ∧ (ctrl_c ∉ os) ∧
      (ints = [] ∨ (ints = [ctrl_c] ∧ own = [txt "c"] ∧ time w + t ≤ time w')) ∧
      ∀ v, r = Ret v → own = [txt "c"] ∧ (ints = [ctrl_c] → interrupted v = true)) w.
Proof.
  unfold debug_continue. apply wp_bind, wp_ret, wp_bind, wp_gets, wp_bind.
  eapply wp_mono; [apply cont_spec|].
  intros r w1 (hs & own & os & ints & Ha & Ho & Hh & Hown & Hr & Hc & Hi).
  destruct r as [v|x|]; [apply wp_bind, wp_gets, wp_ret|..]; exists hs, own, os, ints; split_and!; try done.
  intros v' [= <-]. split; [by apply (Hr v)|]. intros ->. destruct Hi as [?|(_ & _ & Ht)]; [done|].
  simpl. apply Z.leb_le. lia.
Qed.
End resume.

(* ------------------------------------------------------------------ *)
(** ** A stub with a clock *)

(** The bytes still to arrive with their times, the clock, and for each packet
    or interrupt to come what it makes arrive, each part with its delay. *)
Record line := Line { due : list (Z * ascii); l_now : Z; will_say : list (list (Z * bytes)) }.
Definition schedule (now : Z) (l : list (Z * bytes)) : list (Z * ascii) :=
  l ≫= λ '(d, b), map (λ c, (now + d, c)) b.
Definition arrival (now : Z) (l : list (Z * ascii)) : Z := foldr Z.max now l.*1.
#[export] Instance line_net : Net line := {|
  open_connection host port t := mret 0%nat;
  at_eof c e := false;
  readexactly c n t := λ e,
    let l := take (Z.to_nat n) (due e) in
    if decide (length l = Z.to_nat n ∧ arrival (l_now e) l ≤ l_now e + t)
    then (Ret l.*2, Line (drop (Z.to_nat n) (due e)) (arrival (l_now e) l) (will_say e))
    else (Raise (IoOS TimeoutError ""), Line (due e) (l_now e + Z.max 0 t) (will_say e));
  write_drain c b := λ e,
    if decide (b = ["+"%char]) then (Ret tt, e)
    else match will_say e with
         | [] => (Ret tt, e)
         | l :: ls => (Ret tt, Line (due e ++ schedule (l_now e) l) (l_now e) ls)
         end;
  close_wait c t := λ e, (Ret tt, Line [] (l_now e) (will_say e));
  monotonic := l_now;
  sleep t := λ e, (Ret tt, Line (due e) (l_now e + Z.max 0 t) (will_say e));
  run_handler h j := mret tt |}.
Lemma arrival_later now l : now ≤ arrival now l.
Proof. unfold arrival. induction l; csimpl; lia. Qed.
#[export] Instance line_clocked : ClockedNet line.
Proof.
  split; simpl; try done.
  - intros c n t e. case_decide; simpl; [apply arrival_later|lia].
  - intros c b e. case_decide; [done|]. by destruct (will_say e).
  - intros c n t e m e'. case_decide; [done|]. intros [= _ <-]. simpl. lia.
  - intros c b e m. case_decide; [done|]. by destruct (will_say e).
Qed.
Definition ack_then (d : Z) (b : bytes) : list (Z * bytes) := [(0, ["+"%char]); (d, packet b)].
Definition attached (l : list (list (Z * bytes))) : gdb line := Gdb (Some 0%nat) (Some 0%nat) [] [] (Line [] 0 l).
Abbreviation ex_continue t w := (debug_continue (λ _, mret (transport ex_gdb_channel 100)) (time (E:=line)) "vm" t w).

(** A machine that stops by itself, and one that has to be interrupted. *)
Example continue_stops : (ex_continue 5000 (attached [ack_then 300 (txt "T05")])).1 =
  Ret (ContinueResult "vm" (txt "T05") false).
Proof. vm_compute. reflexivity. Qed.
Lemma debug_continue_honest_witness :
  let w := attached [[(0, ["+"%char])]; [(5, packet (txt "T02"))]] in
  (ex_continue 5000 w).1 = Ret (ContinueResult "vm" (txt "T02") true) ∧
  acked (ex_continue 5000 w).2 = [txt "c"] ∧ out (ex_continue 5000 w).2 = [txt "c"; ctrl_c].
Proof.
  intros w. assert ((ex_continue 5000 w).1 = Ret (ContinueResult "vm" (txt "T02") true)) as Hr by (vm_compute; reflexivity).
  destruct (debug_continue_honest ex_gdb_channel 100 "vm" 5000 w) as (hs & own & os & ints & _ & _ & _ & _ & _ & _ & Hv).
  rewrite Hr in Hv. destruct (Hv _ eq_refl) as [_ _].
  split; [exact Hr|]. split; vm_compute; reflexivity.
Defined.
(** The handshake of a slow connection counts as time the machine ran. *)
Example interrupted_by_handshake :
  let w := ex_continue 1000 (Gdb None None [] [] (Line [] 0 [ack_then 2000 (txt "OK"); ack_then 10 (txt "T05")])) in
  w.1 = Ret (ContinueResult "vm" (txt "T05") true) ∧ out w.2 = [hello; txt "c"].
Proof. vm_compute. done. Qed.
(** An acknowledgement that comes after five seconds: the tool fails with the
    connection left open, and the late [+] and stop reply are taken for those
    of the next request. *)
Example late_ack_misread :
  let w := ex_continue 60000 (attached [[(6000, ["+"%char]); (6500, packet (txt "T05"))]; ack_then 10 (txt "deadbeef")]) in
  w.1 = Raise (EOS TimeoutError "") ∧ g_reader w.2 = Some 0%nat ∧
  (stop_reason ex_gdb_channel 100 w.2).1 = Ret (txt "T05").
Proof. vm_compute. done. Qed.
Example registers_misread :
  let w := ex_continue 60000 (attached [[(6000, ["+"%char]); (6500, packet (txt "05"))]; ack_then 10 (txt "deadbeef")]) in
  (debug_read_registers (λ _, mret (transport ex_gdb_channel 100)) "vm" w.2).1 =
  Ret (RegistersResult "vm" 1 (py_b64encode [chr 5]) [] None).
Proof. vm_compute. reflexivity. Qed.
