(* ===== verification/Lines.v ===== *)
(** * Lines of text: [str.splitlines]

    Shared by the components that edit files or read command output. *)
From S2P Require Import Prelude Py.

(** [l[-n:]] *)
Definition last_n {A} (n : nat) (l : list A) : list A := drop (length l - n) l.

(** The characters [splitlines] ends a line at. *)
Definition is_break (c : ascii) : bool := in_range c 10 13 || in_range c 28 30 || (ord c =? 133).
Definition cr : ascii := "013"%char.
Definition lf : ascii := "010"%char.
(** Each line with its ending; a carriage return and a line feed are one
    ending, and a last line without one has the empty ending. *)
Fixpoint lines_of (t cur : text) : list (text * text) :=
  match t with
  | [] => if cur is [] then [] else [(reverse cur, [])]
  | c :: t' =>
      if is_break c then
        match t' with
        | d :: t'' => if decide (c = cr ∧ d = lf) then (reverse cur, [c; d]) :: lines_of t'' []
                      else (reverse cur, [c]) :: lines_of t' []
        | [] => [(reverse cur, [c])]
        end
      else lines_of t' (c :: cur)
  end.
Definition splitlines (t : text) : list text := (lines_of t []).*1.
Definition splitlines_keepends (t : text) : list text := map (λ '(l, e), l ++ e) (lines_of t []).

Lemma lines_of_cons c t cur : lines_of (c :: t) cur =
  if is_break c then
    match t with
    | d :: t'' => if decide (c = cr ∧ d = lf) then (reverse cur, [c; d]) :: lines_of t'' []
                  else (reverse cur, [c]) :: lines_of t []
    | [] => [(reverse cur, [c])]
    end
  else lines_of t (c :: cur).
Proof. reflexivity. Qed.
Lemma mjoin_cons {A} (x : list A) xs : mjoin (x :: xs) = x ++ mjoin xs.
Proof. reflexivity. Qed.

(** Joining the lines with their endings gives the text back. *)
Lemma splitlines_keepends_concat t : mjoin (splitlines_keepends t) = t.
Proof.
  unfold splitlines_keepends.
  enough (∀ n t cur, (length t ≤ n)%nat →
    mjoin (map (λ '(l, e), l ++ e) (lines_of t cur)) = reverse cur ++ t) as H
    by (rewrite (H (length t)) by done; done).
  clear t. induction n as [|n IH]; intros [|c t] cur Hn; simpl in Hn; try lia.
  - by destruct cur; csimpl; rewrite ?app_nil_r.
  - by destruct cur; csimpl; rewrite ?app_nil_r.
  - rewrite lines_of_cons. destruct (is_break c).
    + destruct t as [|d t]; [by csimpl; rewrite !app_nil_r|].
      case_decide; cbn [map]; rewrite mjoin_cons, IH by (simpl in *; lia); by rewrite <-(assoc_L (++)).
    + rewrite IH by lia. by rewrite reverse_cons, <-(assoc_L (++)).
Qed.
Lemma lines_of_body b cur t : Forall (λ c, is_break c = false) b →
  lines_of (b ++ t) cur = lines_of t (reverse b ++ cur).
Proof.
  intros Hb. revert cur. induction Hb as [|c b Hc _ IH]; intros cur; [done|].
  change ((c :: b) ++ t) with (c :: (b ++ t)). rewrite lines_of_cons, Hc, IH.
  by rewrite reverse_cons, <-(assoc_L (++)).
Qed.
(** Lines that each end with a line feed. *)
Lemma splitlines_lf ls : Forall (Forall (λ c, is_break c = false)) ls →
  splitlines (mjoin (map (λ l, l ++ [lf]) ls)) = ls.
Proof.
  unfold splitlines. induction 1 as [|l ls Hl _ IH]; [done|].
  cbn [map]. rewrite mjoin_cons, <-(assoc_L (++)), lines_of_body by done.
  cbn [app]. rewrite lines_of_cons.
  replace (is_break lf) with true by done. rewrite app_nil_r, reverse_involutive.
  destruct (mjoin (map (λ l, l ++ [lf]) ls)) as [|d t] eqn:Ht.
  - by rewrite <-IH.
  - rewrite decide_False by (by intros [? _]). cbn [fmap list_fmap fst]. by rewrite IH.
Qed.
