(* ===== verification/Monitor.v ===== *)
(** * Watching a machine: [tools/sys.py]

    The board controller's replies, the debug ring, and the notifications that
    go to one machine, to all of them, or with a crash.  Times are in
    milliseconds. *)
From S2P Require Import Prelude Py Bytes Fleet Lines Schema System.

(* ------------------------------------------------------------------ *)
(** ** The board controller *)

(** A reading; a [float] that was rounded is kept as a whole number of its last
    place. *)
Inductive quantity := Whole (z : Z) | Tenths (z : Z) | Hundredths (z : Z).
Definition readings := list (string * quantity).
Definition VOLT_RAILS : list string :=
  ["cpld"; "xorro_3v3"; "idt_1v0"; "xorro_1v0"; "main_3v3"; "main_2v5"; "eth_1v2"; "platform_1v0";
   "core_a"; "core_b"; "ddr3_io"; "serdes_1v8"].
(** [int(reply[i:i+n], 16)] *)
Definition hex_at (i n : nat) (reply : text) : option Z := int16 (take n (drop i reply)).
(** A sign and two digits. *)
Definition signed_at (i : nat) (reply : text) : option Z :=
  t ← hex_at (i + 1) 2 reply;
  Some (if bool_decide (reply !! i = Some "-"%char) then - t else t).
Fixpoint rails (names : list string) (base : nat) (reply : text) : option readings :=
  match names with
  | [] => Some []
  | name :: names =>
      whole ← hex_at base 2 reply;
      cents ← hex_at (base + 2) 2 reply;
      rest ← rails names (base + 4) reply;
      Some (((name +:+ "_v")%string, Hundredths (100 * whole + cents)) :: rest)
  end.
(** [round(pwm / 255.0 * 100, 1)]: no byte gives a tie. *)
Definition percent_of_255 (pwm : Z) : Z := (2000 * pwm + 255) / 510.
(** [reply[0] == "$"] and [reply[1] == c], with [need] characters at least. *)
Definition announces (c : ascii) (need : nat) (reply : text) : bool :=
  bool_decide (reply !! 1%nat = Some c) && (need <=? length reply)%nat.
Definition parse_mcu_reply (cmd : string) (reply : text) : option readings :=
  if (length reply <? 2)%nat || negb (bool_decide (head reply = Some "$"%char)) then None
  else if decide (cmd = "t"%string) then
    if announces "t" 11 reply then
      t1 ← signed_at 2 reply; t2 ← signed_at 5 reply; t3 ← signed_at 8 reply;
      Some [("pcb_c", Whole t1); ("cpu_c", Whole t2); ("pcie_c", Whole t3)]%string
    else None
  else if decide (cmd = "v"%string) then
    if announces "v" 50 reply then rails VOLT_RAILS 2 reply else None
  else if decide (cmd = "f"%string) then
    if announces "f" 8 reply then
      pwm ← hex_at 2 2 reply; rpm ← hex_at 4 4 reply;
      Some [("pwm", Whole pwm); ("pwm_pct", Tenths (percent_of_255 pwm)); ("rpm", Whole rpm)]%string
    else None
  else None.

Record mcu_result := McuResult {
  mc_target : string; mc_cmd : text; mc_unit : Z; mc_baud : Z; tx_len : Z; mc_reply : text; reply_len : Z;
  timed_out : bool; aborted : bool; parsed : option readings }.
(** [s.rstrip] of line feeds *)
Definition rstrip_newlines (t : text) : text := rstrip_of (λ c, bool_decide (c = chr 10)) t.

Section monitor.
Context {E : Type} `{Wire E} `{Pydantic} (repr : json → text).
Abbreviation ME := (M E exn).

Definition sys_mcu_cmd (target cmd : string) (unit : Z) (confirm : bool) : ME mcu_result :=
  raw ← ask_daemon target "sys.mcu_cmd"
    (params ([("cmd", JStr cmd); ("unit", JNum unit)] ++ if confirm then [("confirm", JBool true)] else [])) TIMEOUT;
  r ← lift (item "reply" raw);
  let reply := rstrip_newlines (py_str repr r) in
  late ← lift (get_or "timed_out" JNull raw);
  let parsed := if json_truth late then None else parse_mcu_reply cmd reply in
  c ← lift (item "cmd" raw);
  u ← int_item "unit" raw;
  b ← int_item "baud" raw;
  tx ← int_item "tx_len" raw;
  n ← int_item "reply_len" raw;
  late ← lift (item "timed_out" raw);
  ab ← lift (item "aborted" raw);
  mret (McuResult target (py_str repr c) u b tx reply n (json_truth late) (json_truth ab) parsed).

(* ------------------------------------------------------------------ *)
(** ** The debug ring *)

Record ring_result := RingResult {
  rr_target : string; rr_lines : list text; rr_truncated : bool; raw_size : Z; captured_at : text }.
(** [strftime] of the host's clock. *)
Context (timestamp : E → text).
Definition debug_ring (target : string) (max_lines : Z) : ME ring_result :=
  let max_lines := Z.max 1 max_lines in
  raw ← ask_daemon target "exec.cmd"
    (params [("command", JStr "C:DumpDebugBuffer"); ("timeout_ms", JNum 30000)]%string) 35000;
  o ← lift (get_or "output" (JStr "") raw);
  let output := py_str repr o in
  let all_lines := splitlines output in
  let truncated := max_lines <? Z.of_nat (length all_lines) in
  now ← gets timestamp;
  mret (RingResult target (if truncated then last_n (Z.to_nat max_lines) all_lines else all_lines) truncated
          (Z.of_nat (length output)) now).

(* ------------------------------------------------------------------ *)
(** ** Notifications *)

Record notify_entry := NotifyEntry { ne_target : string; ne_ok : bool; result_code : Z; ne_error : option text }.
(** The two fields of a [NotifyResult]. *)
Definition queued_of (r : json) : bool := match jget "queued" r with Some (JBool b) => b | _ => false end.
Definition code_of (r : json) : Z := match jget "result_code" r with Some (JNum z) => z | _ => 0 end.
Context (exn_text : exn → text).
(** [_one]: what [app_notify] on target [name] ends with becomes. *)
Definition notify_one (name : string) (r : res exn json) : res exn notify_entry :=
  match r with
  | Ret r => Ret (NotifyEntry name (queued_of r) (code_of r) None)
  | Raise e => if is_exception e then Ret (NotifyEntry name false 0 (Some (exn_text e))) else Raise e
  | Spin => Spin
  end.
(** [asyncio.gather]: the entries in order, or the first exception. *)
Fixpoint gather_all (l : list (res exn notify_entry)) : res exn (list notify_entry) :=
  match l with
  | [] => Ret []
  | Ret e :: l => match gather_all l with Ret es => Ret (e :: es) | r => r end
  | Raise x :: _ => Raise x
  | Spin :: _ => Spin
  end.
(** [outcome i t] is what the call for the [i]-th target ends with. *)
Definition notify_fleet (f : Fleet) (outcome : nat → string → res exn json) (targets tags : option (list string))
    : res exn (list notify_entry) :=
  let ts := match targets with Some ts => ts | None => list_targets f tags end in
  gather_all (imap (λ i t, notify_one t (outcome i t)) ts).

Record alert_result := AlertResult {
  al_target : string; notified : bool; al_elapsed : Z; alert_code : option Z; alert_name : option string;
  notify_code : option Z; al_timeout : bool }.
Context (clock : E → Z).
(** [events[0]] of a list that is not empty, or of another value. *)
Definition first_item (j : json) : res exn json :=
  match j with
  | JArr (e :: _) => Ret e
  | JArr [] => Raise (EPy IndexError)
  | JStr s => match txt s with c :: _ => Ret (JStr (str [c])) | [] => Raise (EPy IndexError) end
  | JObj _ => Raise (EPy KeyError)
  | _ => Raise (EPy TypeError)
  end.
(** [f"{code:08x}"] *)
Definition pad8 (neg : bool) (t : text) : text :=
  if neg then "-"%char :: replicate (7 - length t) "0"%char ++ t else replicate (8 - length t) "0"%char ++ t.
Definition format_code (j : json) : res exn text :=
  match j with
  | JNum z => Ret (pad8 (z <? 0) (hex (Z.abs z)))
  | JBool b => Ret (pad8 false (hex (Z.b2z b)))
  | JStr _ => Raise (EPy ValueError)
  | _ => Raise (EPy TypeError)
  end.
Definition or_alert (j : json) : json := if json_truth j then j else JStr "alert".
Definition alert_body (code subsystem name : text) : text :=
  txt "code=0x" ++ code ++ [chr 10] ++ txt "subsystem=" ++ subsystem ++ [chr 10] ++ txt "name=" ++ name.
Definition opt_z (t : option json) : option Z := match t with Some (JNum z) => Some z | _ => None end.
Definition opt_s (t : option json) : option string := match t with Some (JStr s) => Some s | _ => None end.
Definition NotifyOnAlertResult : ty := Model [opt "alert_code" Int; opt "alert_name" Str].
Definition notify_on_alert (target : string) (timeout_ms : Z) (title : string) : ME alert_result :=
  t0 ← gets clock;
  raw ← ask_daemon target "events.wait"
    (params [("topics", JArr [JStr "debug.exception"]); ("timeout_ms", JNum timeout_ms)]%string) (wait_timeout timeout_ms);
  t1 ← gets clock;
  events ← lift (get_or "events" (JArr []) raw);
  if negb (json_truth events) then mret (AlertResult target false (t1 - t0) None None None true)
  else
    ev ← lift (first_item events);
    data ← lift (get_or "data" (JObj []) ev);
    decoded ← lift (get_or "decoded" (JObj []) data);
    code ← lift (get_or "alert_code" JNull data);
    name ← lift (get_or "name" JNull decoded);
    let name := or_alert name in
    c ← lift (format_code code);
    sub ← lift (get_or "subsystem" (JStr "?") decoded);
    nf ← app_notify target title (str (alert_body c (py_str repr sub) (py_str repr name))) 2;
    v ← lift (model_validate NotifyOnAlertResult (JObj [("alert_code", code); ("alert_name", name)]%string));
    mret (AlertResult target (queued_of nf) (t1 - t0) (opt_z (jget "alert_code" v)) (opt_s (jget "alert_name" v))
            (Some (code_of nf)) false).
End monitor.

(** [host_capabilities] *)
Record capabilities := Capabilities { cap_server : string; cap_version : string; cap_methods : list string; cap_targets : list string }.
Definition host_capabilities (f : Fleet) (version : string) (methods : list string) : capabilities :=
  Capabilities "amiga-fleet-mcp" version (merge_sort String.le methods) (list_targets f None).

(* ------------------------------------------------------------------ *)
(** ** Lemmas *)

(** What the controller sends for a temperature, a voltage and a speed. *)
Definition fmt_signed (z : Z) : text := (if z <? 0 then "-"%char else "+"%char) :: hex2 (Z.abs z).
Definition fmt_temps (a b c : Z) : text := txt "$t" ++ fmt_signed a ++ fmt_signed b ++ fmt_signed c.
Definition fmt_volts (vs : list (Z * Z)) : text := txt "$v" ++ (vs ≫= λ v, hex2 v.1 ++ hex2 v.2).
Definition fmt_fan (pwm rpm : Z) : text := txt "$f" ++ hex2 pwm ++ hex2 (rpm / 256) ++ hex2 (rpm mod 256).
Definition is_byte (z : Z) : Prop := 0 ≤ z < 256.
Lemma hex_at_hex2 a z b i : is_byte z → length a = i → hex_at i 2 (a ++ hex2 z ++ b) = Some z.
Proof. intros Hz <-. unfold hex_at. rewrite drop_app_length. by apply int16_hex2. Qed.
Lemma int16_hex4 a b : is_byte a → is_byte b → int16 (hex2 a ++ hex2 b) = Some (256 * a + b).
Proof.
  unfold is_byte. intros Ha Hb. destruct (nibbles a Ha) as (H1 & H2 & H3), (nibbles b Hb) as (H4 & H5 & H6).
  assert (Forall (λ c, ∃ d, 0 ≤ d < 16 ∧ c = digit_char d) (hex2 a ++ hex2 b)) as Hd.
  { unfold hex2. simpl. repeat constructor; eauto. }
  unfold int16, int_of_text. rewrite strip_id.
  2: { eapply Forall_impl; [exact Hd|]. intros c (d & ? & ->). by apply digit_char_plain. }
  unfold hex2. simpl. destruct (digit_char_plain (a / 16)) as (_ & ? & ? & _); [done|].
  rewrite !decide_False by done. unfold parse_base. simpl.
  rewrite !digit_val_char by done. simpl. f_equal. lia.
Qed.
Lemma signed_at_fmt a z b i : is_byte (Z.abs z) → length a = i → signed_at i (a ++ fmt_signed z ++ b) = Some z.
Proof.
  intros Hz Hi. unfold signed_at, fmt_signed. simpl.
  assert (hex_at (i + 1) 2 (a ++ (if z <? 0 then "-"%char else "+"%char) :: hex2 (Z.abs z) ++ b) = Some (Z.abs z)) as Hh.
  { rewrite cons_middle, (assoc_L (++)). apply hex_at_hex2; [done|]. rewrite length_app. simpl. lia. }
  unfold hex2 in Hh. simpl in Hh. rewrite Hh. simpl. rewrite lookup_app_r by lia. replace (i - length a)%nat with 0%nat by lia.
  simpl. f_equal. destruct (Z.ltb_spec z 0); [rewrite bool_decide_true by done|rewrite bool_decide_false by done]; lia.
Qed.
Lemma rails_fmt names a vs b : length vs = length names → Forall (λ v, is_byte v.1 ∧ is_byte v.2) vs →
  rails names (length a) (a ++ (vs ≫= λ v, hex2 v.1 ++ hex2 v.2) ++ b) =
  Some (zip_with (λ n v, ((n +:+ "_v")%string, Hundredths (100 * v.1 + v.2))) names vs).
Proof.
  revert a vs. induction names as [|n names IH]; intros a [|[x y] vs] Hl Hv; try done.
  apply Forall_cons in Hv as [[Hx Hy] Hv]. cbn [rails]. simpl in Hx, Hy.
  change (((x, y) :: vs) ≫= λ v : Z * Z, hex2 v.1 ++ hex2 v.2) with ((hex2 x ++ hex2 y) ++ (vs ≫= λ v : Z * Z, hex2 v.1 ++ hex2 v.2)).
  rewrite <-!(assoc_L (++)). rewrite (hex_at_hex2 a x _ (length a)) by done. cbn [mbind option_bind].
  rewrite (assoc_L (++) a (hex2 x)). rewrite (hex_at_hex2 (a ++ hex2 x) y _ (length a + 2)) by (done || (rewrite length_app; simpl; lia)).
  cbn [mbind option_bind]. rewrite (assoc_L (++) (a ++ hex2 x) (hex2 y)).
  replace (length a + 4)%nat with (length ((a ++ hex2 x) ++ hex2 y)) by (rewrite !length_app; simpl; lia).
  rewrite IH; [done|by injection Hl|done].
Qed.
Lemma fmt_volts_length (vs : list (Z * Z)) : length (vs ≫= λ v, hex2 v.1 ++ hex2 v.2) = (4 * length vs)%nat.
Proof. induction vs as [|v vs IH]; [done|]. rewrite bind_cons, !length_app, IH. simpl. lia. Qed.

(** [sys.mcu_cmd] reads the controller's replies back: the three signed
    temperatures, the twelve voltages in the order of the rails, and the fan's
    duty and speed come out as the controller wrote them, whatever follows. *)
Theorem mcu_replies_read a b c vs pwm rpm rest :
  is_byte (Z.abs a) → is_byte (Z.abs b) → is_byte (Z.abs c) →
  length vs = 12%nat → Forall (λ v, is_byte v.1 ∧ is_byte v.2) vs → is_byte pwm → 0 ≤ rpm < 65536 →
  parse_mcu_reply "t" (fmt_temps a b c ++ rest) = Some [("pcb_c", Whole a); ("cpu_c", Whole b); ("pcie_c", Whole c)]%string ∧
  parse_mcu_reply "v" (fmt_volts vs ++ rest) =
    Some (zip_with (λ n v, ((n +:+ "_v")%string, Hundredths (100 * v.1 + v.2))) VOLT_RAILS vs) ∧
  parse_mcu_reply "f" (fmt_fan pwm rpm ++ rest) =
    Some [("pwm", Whole pwm); ("pwm_pct", Tenths (percent_of_255 pwm)); ("rpm", Whole rpm)]%string.
Proof.
  intros Ha Hb Hc Hl Hv Hp Hr. split_and!.
  - pose proof (signed_at_fmt (txt "$t") a (fmt_signed b ++ fmt_signed c ++ rest) 2 Ha eq_refl) as H1.
    pose proof (signed_at_fmt (txt "$t" ++ fmt_signed a) b (fmt_signed c ++ rest) 5 Hb eq_refl) as H2.
    pose proof (signed_at_fmt (txt "$t" ++ fmt_signed a ++ fmt_signed b) c rest 8 Hc eq_refl) as H3.
    unfold fmt_temps. rewrite <-!(assoc_L (++)) in *. unfold parse_mcu_reply. rewrite H1, H2, H3. reflexivity.
  - pose proof (rails_fmt VOLT_RAILS (txt "$v") vs rest Hl Hv) as H1. pose proof (fmt_volts_length vs) as Hn.
    unfold fmt_volts. rewrite <-!(assoc_L (++)) in *. unfold parse_mcu_reply.
    change (length (txt "$v")) with 2%nat in H1. rewrite H1.
    assert (announces "v" 50 (txt "$v" ++ (vs ≫= λ v, hex2 v.1 ++ hex2 v.2) ++ rest) = true) as ->; [|reflexivity].
    unfold announces. apply andb_true_iff. split; [reflexivity|]. apply Nat.leb_le. rewrite !length_app, Hn, Hl. simpl. lia.
  - pose proof (hex_at_hex2 (txt "$f") pwm (hex2 (rpm / 256) ++ hex2 (rpm mod 256) ++ rest) 2 Hp eq_refl) as H1.
    assert (hex_at 4 4 (txt "$f" ++ hex2 pwm ++ hex2 (rpm / 256) ++ hex2 (rpm mod 256) ++ rest) = Some rpm) as H2.
    { change (int16 (hex2 (rpm / 256) ++ hex2 (rpm mod 256)) = Some rpm).
      rewrite int16_hex4; unfold is_byte; [f_equal| |]; Z.to_euclidean_division_equations; lia. }
    unfold fmt_fan. rewrite <-!(assoc_L (++)). unfold parse_mcu_reply. rewrite H1, H2. reflexivity.
Qed.

(** The ring's lines, when each is ended by a line feed: the most recent ones,
    and the flag says whether any were left out. *)
Lemma debug_ring_recent {E} `{Wire E} repr stamp target n ls (s : E) e :
  Forall (Forall (λ c, is_break c = false)) ls →
  ask_daemon target "exec.cmd" (params [("command", JStr "C:DumpDebugBuffer"); ("timeout_ms", JNum 30000)]%string) 35000 s =
    (Ret (JObj [("output"%string, JStr (str (mjoin (map (λ l, l ++ [lf]) ls))))]), e) →
  ∃ r, debug_ring repr stamp target n s = (Ret r, e) ∧ rr_truncated r = (Z.max 1 n <? Z.of_nat (length ls)) ∧
    rr_lines r `suffix_of` ls ∧ Z.of_nat (length (rr_lines r)) = Z.min (Z.max 1 n) (Z.of_nat (length ls)).
Proof.
  intros Hls Ha. unfold debug_ring. erewrite bind_run by exact Ha. erewrite bind_run by reflexivity.
  erewrite bind_run by reflexivity. eexists. split; [reflexivity|]. simpl. rewrite txt_str, (splitlines_lf ls Hls).
  split; [done|]. destruct (Z.ltb_spec (Z.max 1 n) (Z.of_nat (length ls))).
  - unfold last_n. split; [exists (take (length ls - Z.to_nat (Z.max 1 n)) ls); by rewrite take_drop|].
    rewrite length_drop. lia.
  - split; [by exists []|lia].
Qed.

(** [notify_fleet] gives every target one entry, in order, whatever happens to
    the others: what its own call ended with. *)
Lemma gather_all_ret l es : gather_all l = Ret es → l = map Ret es.
Proof.
  revert es. induction l as [|[e|x|] l IH]; simpl; intros es; [by intros [= <-]| |done..].
  destruct (gather_all l) as [es'|x|]; [|done..]. intros [= <-]. simpl. by rewrite (IH es').
Qed.
Lemma gather_all_map es : gather_all (map Ret es) = Ret es.
Proof. induction es as [|e es IH]; simpl; [done|]. by rewrite IH. Qed.
Lemma notify_fleet_entries exn_text f outcome ts :
  (∀ i t, outcome i t ≠ Spin ∧ outcome i t ≠ Raise ECancelled) →
  ∃ es, notify_fleet exn_text f outcome (Some ts) None = Ret es ∧ ne_target <$> es = ts ∧
    ∀ i t, ts !! i = Some t → ∃ e, es !! i = Some e ∧ notify_one exn_text t (outcome i t) = Ret e ∧
      (ne_ok e = true ↔ ∃ r, outcome i t = Ret r ∧ queued_of r = true).
Proof.
  intros Ho. unfold notify_fleet.
  assert (∀ i t, ∃ e, notify_one exn_text t (outcome i t) = Ret e ∧ ne_target e = t ∧
    (ne_ok e = true ↔ ∃ r, outcome i t = Ret r ∧ queued_of r = true)) as Hone.
  { intros i t. destruct (Ho i t) as [H1 H2]. destruct (outcome i t) as [r|x|]; [|destruct x; try done|done]; simpl;
      eexists; (split; [done|]); simpl; (split; [done|]); naive_solver. }
  clear Ho. revert outcome Hone. induction ts as [|t ts IH]; intros outcome Hone; csimpl; [by exists []|].
  destruct (Hone 0%nat t) as (e & He & Ht & Hok). rewrite He.
  destruct (IH (outcome ∘ S)) as (es & Hes & Hts & Hall); [intros; apply (Hone (S i))|].
  change (imap ((λ i t0, notify_one exn_text t0 (outcome i t0)) ∘ S) ts) with
    (imap (λ i t0, notify_one exn_text t0 ((outcome ∘ S) i t0)) ts). rewrite Hes.
  exists (e :: es). split; [done|]. csimpl. split; [by rewrite Ht, Hts|].
  intros [|i] t'; simpl; [intros [= <-]; by exists e|]. intros Hi. apply (Hall i t' Hi).
Qed.

(* ------------------------------------------------------------------ *)
(** ** Examples *)

Lemma mcu_replies_read_witness :
  length (replicate 12 (3, 30)) = 12%nat ∧
  parse_mcu_reply "t" (txt "$t+1f-05+2a") = Some [("pcb_c", Whole 31); ("cpu_c", Whole (-5)); ("pcie_c", Whole 42)]%string ∧
  parse_mcu_reply "f" (txt "$f800bb8") = Some [("pwm", Whole 128); ("pwm_pct", Tenths 502); ("rpm", Whole 3000)]%string.
Proof.
  destruct (mcu_replies_read 31 (-5) 42 (replicate 12 (3, 30)) 128 3000 []) as (H1 & _ & H3);
    [unfold is_byte; lia..|done|apply Forall_replicate; unfold is_byte; simpl; lia|unfold is_byte; lia|lia|].
  split; [done|]. split; [exact H1|exact H3].
Defined.
(** Fields the slices leave out are not looked at: a sign that is neither, and
    a thirteenth rail. *)
Example mcu_odd : parse_mcu_reply "t" (txt "$t?1f*05#2a") = parse_mcu_reply "t" (txt "$t+1f+05+2a").
Proof. vm_compute. reflexivity. Qed.
Example mcu_short : parse_mcu_reply "t" (txt "$t+1f-05") = None ∧ parse_mcu_reply "v" (txt "$t+1f-05+2a") = None.
Proof. vm_compute. done. Qed.

(** A daemon that has an alert to tell, then takes the notification. *)
#[local] Instance alerting_daemon : Wire (list json) := {|
  ask_daemon target m p t s := match s with [] => (Raise (ERpc NotCapable None), []) | a :: s => (Ret a, s) end |}.
Definition alert_event (data : list (string * json)) : json :=
  JObj [("events", JArr [JObj [("topic", JStr "debug.exception"); ("data", JObj data)]]); ("elapsed_ms", JNum 3)]%string.
Definition queued : json := JObj [("result_code", JNum 0); ("queued", JBool true)]%string.
Definition watch (l : list json) : res exn alert_result :=
  (notify_on_alert (H0:=strict) (λ _, []) (λ _, 0) "sam" 60000 "alert" l).1.
Example alert_notified :
  watch [alert_event [("alert_code", JNum 16777221); ("decoded", JObj [("name", JStr "AN_MemCorrupt")])]%string; queued] =
  Ret (AlertResult "sam" true 0 (Some 16777221) (Some "AN_MemCorrupt"%string) (Some 0) false).
Proof. vm_compute. reflexivity. Qed.
Example alert_none : watch [JObj [("events", JArr [])]%string] = Ret (AlertResult "sam" false 0 None None None true).
Proof. vm_compute. reflexivity. Qed.
(** An event without a code ends the tool before anything is posted. *)
Example alert_without_code : watch [alert_event []; queued] = Raise (EPy TypeError).
Proof. vm_compute. reflexivity. Qed.
