(* ===== verification/Live.v ===== *)
(** * The live resources: [server.py]

    The resources a client reads instead of calling a tool: the configured
    targets, three answers of a target's daemon, the tail of a guest's serial
    log; and [proto.capabilities], the list of what is registered. *)
From S2P Require Import Prelude Py Config Schema System Fleet FleetStatus Monitor.

(** A row of [amiga://fleet/targets]. *)
Record target_row := TargetRow {
  tr_name : string; tr_type : TargetType; tr_display : option string; tr_machine : option string;
  tr_mcpd : option string; tr_qmp : option string; tr_gdb : option string; tr_running : option bool }.
Definition gdb_endpoint_of (t : TargetConfig) : option string :=
  ch ← gdb (channels t); if gdb_enabled ch then Some (gdb_endpoint ch) else None.

Section live.
Context {E : Type} `{Outside E} (fl : Fleet).
Abbreviation ME := (M E exn).

(** [fleet_targets] *)
Fixpoint target_rows (names : list string) : ME (list target_row) :=
  match names with
  | [] => mret []
  | name :: names =>
      cfg ← lift (target_config fl name);
      up ← gets (qemu_running fl name cfg);
      rest ← target_rows names;
      mret (TargetRow name (type cfg) (display_name cfg) (Config.machine cfg) (mcpd_endpoint_of cfg)
              (qmp_endpoint_of cfg) (gdb_endpoint_of cfg) up :: rest)
  end.
Definition fleet_targets : ME (list target_row) := target_rows (list_targets fl None).

(** [per_target_sys_version], [per_target_proto_capabilities] and
    [per_target_sys_tasks]: an error of the daemon is an answer, any other
    exception is not. *)
Context `{Wire E} `{Pydantic}.
Definition or_error (m : ME json) : ME json :=
  catch m (λ e, match e with
                | ERpc c data => mret (JObj [("error"%string, JObj (to_dict c data))])
                | _ => raise e
                end).
Definition resolved (target : option string) : ME string := lift (resolve_target (config fl) target).
Definition per_target_sys_version (target : option string) : ME json :=
  or_error (t ← resolved target; sys_version t).
Definition per_target_proto_capabilities (target : option string) : ME json :=
  or_error (t ← resolved target; ask_daemon t "proto.capabilities" None TIMEOUT).
Definition per_target_sys_tasks (target : option string) : ME json :=
  or_error (t ← resolved target; sys_tasks t).

(** [per_target_serial_log]; [file] is what the log's path holds, [None] when it
    is not there. *)
Context (utf8_replace : bytes → text) (file : string → option bytes).
Definition LOG_CAP : Z := 1024 * 1024.
Definition per_target_serial_log (target : string) : text :=
  match serial_log_paths fl !! target with
  | None => []
  | Some path =>
      match file path with
      | None => []
      | Some content =>
          let size := Z.of_nat (length content) in
          if size <=? LOG_CAP then utf8_replace content
          else txt "# truncated: " ++ show_int size ++ txt " bytes total; last " ++ show_int LOG_CAP ++ txt " shown" ++ ["010"%char] ++
               utf8_replace (drop (Z.to_nat (size - LOG_CAP)) content)
      end
  end.
(** [proto_capabilities] over the registered tools: name and title. *)
Definition advertised (t : string * option string) : string :=
  match truthy t.2 with Some title => title | None => t.1 end.
Definition proto_capabilities (version : string) (registered : list (string * option string)) : capabilities :=
  host_capabilities fl version (map advertised registered).

(* ------------------------------------------------------------------ *)
(** ** What they say *)

(** The resource and the tool [fleet.list_targets] agree about every target. *)
Definition same_target (a : target_row) (b : summary) : Prop :=
  (tr_name a, tr_type a, tr_display a, tr_machine a, tr_mcpd a, tr_qmp a, tr_running a) =
  (sm_name b, sm_type b, sm_display b, sm_machine b, sm_mcpd b, sm_qmp b, sm_running b).
Theorem targets_agree e :
  match (fleet_targets e).1, (fleet_list_targets fl None e).1 with
  | Ret rows, Ret l => Forall2 same_target rows l
  | Raise x, Raise y => x = y
  | _, _ => False
  end ∧ (fleet_targets e).2 = e.
Proof.
  unfold fleet_targets, fleet_list_targets. induction (list_targets fl None) as [|n ns IH]; [by split; [constructor|]|].
  cbn [target_rows summaries]. unfold mbind, M_bind, lift, gets. destruct (target_config fl n) as [cfg|x|] eqn:Hc; [|done|].
  - destruct (target_rows ns e) as [[rows|x|] e1], (summaries fl ns e) as [[l|y|] e2]; cbn in *; try by destruct IH as [[] _].
    + destruct IH as [IH ->]. split; [|done]. by constructor.
    + done.
  - unfold target_config in Hc. by repeat case_match.
Qed.
(** A daemon's error is an answer; an unknown target is not one. *)
Theorem per_target_answers target e :
  let r := (per_target_sys_version target e).1 in
  (∀ c d, r ≠ Raise (ERpc c d)) ∧
  (∀ x, resolve_target (config fl) target = Raise x → r = Raise x).
Proof.
  cbv zeta. split.
  - intros c d. unfold per_target_sys_version, or_error, catch.
    destruct ((t ← resolved target; sys_version t) e) as [[j|x|] e1]; [done| |done]. by destruct x.
  - intros x Hx. unfold per_target_sys_version, or_error, catch, mbind, M_bind, resolved, lift. rewrite Hx.
    unfold resolve_target in Hx. repeat case_match; simplify_eq; done.
Qed.
(** Of a long log, the last 1 MiB: no byte more is decoded. *)
Theorem serial_log_tail target path content :
  serial_log_paths fl !! target = Some path → file path = Some content → LOG_CAP < Z.of_nat (length content) →
  ∃ head tail, content = head ++ tail ∧ Z.of_nat (length tail) = LOG_CAP ∧
    per_target_serial_log target =
      txt "# truncated: " ++ show_int (Z.of_nat (length content)) ++ txt " bytes total; last " ++ show_int LOG_CAP ++ txt " shown" ++
      ["010"%char] ++ utf8_replace tail.
Proof.
  intros Hp Hf Hl. set (n := Z.to_nat (Z.of_nat (length content) - LOG_CAP)). exists (take n content), (drop n content).
  split_and!; [by rewrite take_drop|rewrite length_drop; unfold LOG_CAP in *; lia|].
  unfold per_target_serial_log. rewrite Hp, Hf. cbv zeta.
  by replace (Z.of_nat (length content) <=? LOG_CAP) with false by lia.
Qed.
End live.
