(* ===== verification/SandboxText.v ===== *)
(** * Command lines and debug output of [tools/sandbox.py]

    The pure half of the sandbox tools: the SandboxVM command lines and their
    quoting, names and paths, and the scanners that read versions, trap dumps
    and per-guest exit codes out of text.  The regular expressions are written
    as functions; each is deterministic, so the leftmost match is unique. *)
From S2P Require Import Prelude Py Bytes Lines.

(* ------------------------------------------------------------------ *)
(** ** Scanning *)

Fixpoint span (f : ascii → bool) (t : text) : text * text :=
  match t with
  | [] => ([], [])
  | c :: t' => if f c then let '(a, b) := span f t' in (c :: a, b) else ([], t)
  end.
(** A non-empty run, as [x+] matches. *)
Definition span1 (f : ascii → bool) (t : text) : option (text * text) :=
  match span f t with ([], _) => None | r => Some r end.
(** A literal, and a literal under [(?i)] (given in lower case). *)
Fixpoint lit (p t : text) : option text :=
  match p, t with
  | [], _ => Some t
  | c :: p', d :: t' => if decide (d = c) then lit p' t' else None
  | _ :: _, [] => None
  end.
Definition liti (p t : text) : option text :=
  match lit p (map lower (take (length p) t)) with Some _ => Some (drop (length p) t) | None => None end.
(** The leftmost position at which [at_] matches; it is told whether the
    character before is a word character. *)
Fixpoint search_from {A} (at_ : bool → text → option A) (prev : bool) (t : text) : option A :=
  match at_ prev t with
  | Some a => Some a
  | None => match t with [] => None | c :: t' => search_from at_ (is_word c) t' end
  end.
Definition search {A} (at_ : bool → text → option A) (t : text) : option A :=
  search_from at_ false t.
Definition skip_spaces (t : text) : text := snd (span is_space t).
Definition spaces1 (t : text) : option text := snd <$> span1 is_space t.

(* ------------------------------------------------------------------ *)
(** ** Command lines *)

Definition dq : ascii := "034"%char.
Definition quoted (t : text) : text := dq :: t ++ [dq].
Definition num (z : Z) : text := show_int z.

(** [_shell_safe] *)
Definition shell_meta (c : ascii) : bool :=
  bool_decide (c ∈ [" "%char; "009"%char; dq; "<"%char; ">"%char; "|"%char; ";"%char]).
Definition shell_safe (token : text) : text :=
  match token with
  | [] => [dq; dq]
  | _ => if existsb shell_meta token
         then quoted (token ≫= λ c, if decide (c = dq) then ["*"%char; dq] else [c])
         else token
  end.

(** [_build_command]; a time limit of 0 is none. *)
Definition build_command (sandboxvm_path guest : text) (args : list text)
    (extmem_mb window_mb : Z) (deny_libs : list text) (name : text) (resident_driver : bool)
    (test_elf : option text) (time_limit_s : option Z) : text :=
  join [" "%char] (
    [quoted sandboxvm_path; txt "-m"; num extmem_mb; txt "-w"; num window_mb;
     txt "-n"; shell_safe name] ++
    (deny_libs ≫= λ lib, [txt "-x"; shell_safe lib]) ++
    match time_limit_s with Some z => if z =? 0 then [] else [txt "-T"; num z] | None => [] end ++
    (if resident_driver then [txt "-r"] else []) ++
    match test_elf with Some (c :: t) => [txt "-t"; quoted (c :: t)] | _ => [] end ++
    [quoted guest] ++
    (if args is [] then [] else txt "--" :: map shell_safe args)).
(** [_build_batch_command] *)
Definition build_batch_command (sandboxvm_path : text) (guests : list text)
    (extmem_mb window_mb : Z) (deny_libs : list text) (name : text) : text :=
  join [" "%char] (
    [quoted sandboxvm_path; txt "-m"; num extmem_mb; txt "-w"; num window_mb;
     txt "-n"; shell_safe name] ++
    (deny_libs ≫= λ lib, [txt "-x"; shell_safe lib]) ++
    map quoted guests).

(** [_derive_guest_name] *)
Definition after_last (sep : ascii) (t : text) : text :=
  match rpartition sep t with Some (_, b) => b | None => t end.
Definition derive_guest_name (guest : text) : text :=
  let base := after_last ":"%char (after_last "/"%char guest) in
  let base := match rpartition "."%char base with Some (a, _) => a | None => base end in
  match base with [] => txt "guest" | _ => base end.

(** [_aos_parent_dir] *)
Definition aos_parent_dir (path : text) : option text :=
  match partition ":"%char path with
  | None | Some (_, []) => None
  | Some (assign, rest) =>
      let parts := split_on "/"%char (rstrip_of (λ c, bool_decide (c = "/"%char)) rest) in
      if (length parts <=? 1)%nat then None
      else Some (assign ++ ":"%char :: join ["/"%char] (removelast parts))
  end.

(* ------------------------------------------------------------------ *)
(** ** Versions and exit codes *)

(** [re.search(r"(\d+)\.(\d+)", text)] *)
Definition version_at (_ : bool) (t : text) : option (Z * Z) :=
  '(a, r) ← span1 is_decimal t;
  r ← lit ["."%char] r;
  '(b, _) ← span1 is_decimal r;
  x ← parse_base 10 a;
  y ← parse_base 10 b;
  Some (x, y).
Definition parse_version (t : text) : option (Z * Z) := search version_at t.

Definition SANDBOXVM_ABORT_MIN_VERSION : Z * Z := (1, 1).
(** Tuples compare lexicographically. *)
Definition abort_supported (version : option (Z * Z)) : bool :=
  match version with
  | Some (a, b) => let '(m, n) := SANDBOXVM_ABORT_MIN_VERSION in
                   (m <? a) || ((m =? a) && (n <=? b))
  | None => false
  end.

Definition SANDBOXVM_RC_TRAP : Z := 50.
Definition SANDBOXVM_RC_ABORTED : Z := 51.
Definition SANDBOXVM_RC_TIMEOUT : Z := 52.
Definition TRAP_KIND_BY_EXIT_CODE (rc : Z) : option text :=
  if rc =? - 768 then Some (txt "DSI")
  else if rc =? - 1024 then Some (txt "ISI")
  else if rc =? - 1536 then Some (txt "alignment")
  else if rc =? - 1792 then Some (txt "program")
  else if rc =? - 2048 then Some (txt "fp_unavailable")
  else None.
Definition KMOD_LIBCALL_NULL4_HINTS : list text :=
  [txt "Traptype=0x300"; txt "dar=0x4"; txt "dsisr=0x00800000"].
Definition kmod_fingerprint (t : text) : option text :=
  if forallb (λ h, contains h t) KMOD_LIBCALL_NULL4_HINTS
  then Some (txt "kmod_libcall_null4") else None.
(** [_classify_exit] *)
Definition classify_exit (exit_code : Z) (stderr : text) : option text * option text :=
  (TRAP_KIND_BY_EXIT_CODE exit_code, kmod_fingerprint stderr).
(** The [end_reason] of [sandbox_job_result]. *)
Definition end_reason_of (exit_code : Z) : text :=
  if exit_code =? 0 then txt "exit"
  else if exit_code =? SANDBOXVM_RC_TRAP then txt "trap"
  else if exit_code =? SANDBOXVM_RC_ABORTED then txt "aborted"
  else if exit_code =? SANDBOXVM_RC_TIMEOUT then txt "timeout"
  else txt "exit".

(* ------------------------------------------------------------------ *)
(** ** The debug ring *)

(** [_RE_TRAPTYPE]: [\btrap[_ ]?type\s*=\s*0x([0-9a-f]+)] under [(?i)]. *)
Definition is_hex (c : ascii) : bool :=
  is_decimal c || in_range c 97 102 || in_range c 65 70.
Definition traptype_at (prev : bool) (t : text) : option text :=
  if prev then None
  else
    r ← liti (txt "trap") t;
    r ← liti (txt "type") (match r with
                           | c :: r' => if bool_decide (c = "_"%char ∨ c = " "%char) then r' else r
                           | [] => []
                           end);
    r ← lit ["="%char] (skip_spaces r);
    r ← liti (txt "0x") (skip_spaces r);
    fst <$> span1 is_hex r.
(** [_RE_TRAP_LINE]: one of the words, under [(?i)]. *)
Definition trap_words : list text :=
  map txt ["trap"; "dsi"; "isi"; "alignment"; "illegal"; "privilege"; "fault"].
Definition word_ends (t : text) : bool := if t is c :: _ then negb (is_word c) else true.
Definition trap_word_at (prev : bool) (t : text) : option unit :=
  if prev then None
  else if existsb (λ w, match liti w t with Some r => word_ends r | None => false end) trap_words
  then Some tt else None.
(** [_RE_SANDBOXVM_LINE] *)
Definition sandboxvm_at (_ : bool) (t : text) : option unit :=
  match liti (txt "[sandbox]") t, liti (txt "[sandboxvm]") t with
  | None, None => None
  | _, _ => Some tt
  end.
Definition is_anchor (line : text) : bool :=
  bool_decide (is_Some (search traptype_at line)) || bool_decide (is_Some (search trap_word_at line)).
Definition is_block_member (line : text) : bool :=
  is_anchor line || bool_decide (is_Some (search sandboxvm_at line)).

(** [_ring_reports_daemon] *)
Definition ring_reports_daemon (lines : list text) : bool :=
  existsb (λ ln, contains (txt "[MCPd]") ln || contains (txt "[sandboxvm]") ln) lines.

Definition trap_kind_by_hex (h : text) : option text :=
  txt <$> assoc (str h) [("300", "DSI"); ("400", "ISI"); ("600", "alignment");
                         ("700", "program"); ("800", "fp_unavailable")].
Definition holds (f : text → bool) (lines : list text) (i : nat) : bool :=
  match lines !! i with Some l => f l | None => false end.
(** The three loops of [_extract_trap]: the last anchor below [i], then the
    growth of the block backwards from [s] and forwards from [e]. *)
Fixpoint last_anchor (lines : list text) (i : nat) : option nat :=
  match i with
  | O => None
  | S k => if holds is_anchor lines k then Some k else last_anchor lines k
  end.
Fixpoint grow_back (lines : list text) (s : nat) : nat :=
  match s with
  | O => O
  | S k => if holds is_block_member lines k then grow_back lines k else s
  end.
Fixpoint grow_forward (fuel : nat) (lines : list text) (e : nat) : nat :=
  match fuel with
  | O => e
  | S fuel => if holds is_block_member lines (S e) then grow_forward fuel lines (S e) else e
  end.
Definition newline : ascii := "010"%char.
Definition extract_trap (lines : list text)
    : option text * option text * option text * list text :=
  match last_anchor lines (length lines) with
  | None => (None, None, None, [])
  | Some i =>
      let s := grow_back lines i in
      let e := grow_forward (length lines) lines i in
      let block := take (S e - s) (drop s lines) in
      let block_text := join [newline] block in
      let hex := (λ h, let h := dropwhile (λ c, bool_decide (c = "0"%char)) (map lower h) in
                       if h is [] then txt "0" else h) <$> search traptype_at block_text in
      (hex ≫= trap_kind_by_hex, kmod_fingerprint block_text, app (txt "0x") <$> hex, block)
  end.

(** [(-?\d+)], as an integer. *)
Definition signed_at (t : text) : option Z :=
  let '(neg, r) := match t with
                   | c :: r => if decide (c = "-"%char) then (true, r) else (false, t)
                   | [] => (false, [])
                   end in
  '(ds, _) ← span1 is_decimal r;
  n ← parse_base 10 ds;
  Some (if neg : bool then - n else n).
(** [_RE_GUEST_EXIT]: the guest's path and its exit code. *)
Definition guest_exit_at (_ : bool) (t : text) : option (text * Z) :=
  r ← lit (txt "[sandboxvm]") t;
  r ← spaces1 r;
  r ← lit (txt "guest_run_elf") r;
  r ← spaces1 r;
  '(path, r) ← span1 (λ c, negb (is_space c)) r;
  r ← spaces1 r;
  r ← lit (txt "returned") r;
  r ← spaces1 r;
  n ← signed_at r;
  Some (path, n).
Definition guest_exits (ring_lines : list text) : list (text * Z) :=
  omap (search guest_exit_at) ring_lines.
(** [_parse_per_guest_exits] *)
Definition parse_per_guest_exits (ring_lines : list text) (expected : nat) : list (text * Z) :=
  if (0 <? expected)%nat then last_n expected (guest_exits ring_lines) else [].

Example extract_trap_run :
  let lines := map txt ["[gpu] ready"; "[sandboxvm] guest 0 up"; "Traptype=0x300 ip=0x100";
                        "dar=0x4 fault"; "[sandboxvm] bye"; "[gpu] idle"] in
  extract_trap lines = (Some (txt "DSI"), None, Some (txt "0x300"), take 4 (drop 1 lines)).
Proof. vm_compute. reflexivity. Qed.
Example guest_exits_run :
  guest_exits (map txt ["[sandboxvm] guest_run_elf RAM:a returned -768; calling guest_destroy"; "x"])
  = [(txt "RAM:a", -768)].
Proof. vm_compute. reflexivity. Qed.
Example command_run :
  build_command (txt "C:sandboxvm") (txt "RAM:my test") [txt "a b"; txt "c"] 1024 256 [] (txt "t") true
    (Some (txt "RAM:x")) None
  = txt "'C:sandboxvm' -m 1024 -w 256 -n t -r -t 'RAM:x' 'RAM:my test' -- 'a b' c" ≫=
    λ c, [if decide (c = "'"%char) then dq else c].
Proof. vm_compute. reflexivity. Qed.

(* ------------------------------------------------------------------ *)
(** ** Lemmas *)

(** *** The trap block *)

Lemma holds_lookup f lines i l : lines !! i = Some l → holds f lines i = f l.
Proof. unfold holds. by intros ->. Qed.
Lemma holds_elim f lines i l b : holds f lines i = b → lines !! i = Some l → f l = b.
Proof. unfold holds. intros Hb Hl. by rewrite Hl in Hb. Qed.
Lemma holds_lt f lines i : holds f lines i = true → (i < length lines)%nat.
Proof. unfold holds. destruct (lines !! i) eqn:Hi; [|done]. intros _. by eapply lookup_lt_Some. Qed.
Lemma last_anchor_spec lines i :
  match last_anchor lines i with
  | Some k => (k < i)%nat ∧ holds is_anchor lines k = true ∧
              ∀ j, (k < j < i)%nat → holds is_anchor lines j = false
  | None => ∀ j, (j < i)%nat → holds is_anchor lines j = false
  end.
Proof.
  induction i as [|i IH]; simpl; [lia|].
  destruct (holds is_anchor lines i) eqn:Hi; [split_and!; [lia|done|lia]|].
  destruct (last_anchor lines i) as [k|].
  - destruct IH as (? & ? & IH). split_and!; [lia|done|]. intros j Hj.
    destruct (decide (j = i)) as [->|]; [done|]. apply IH. lia.
  - intros j Hj. destruct (decide (j = i)) as [->|]; [done|]. apply IH. lia.
Qed.
Lemma grow_back_spec lines s :
  (grow_back lines s ≤ s)%nat ∧
  (∀ j, (grow_back lines s ≤ j < s)%nat → holds is_block_member lines j = true) ∧
  (∀ k, grow_back lines s = S k → holds is_block_member lines k = false).
Proof.
  induction s as [|s IH]; simpl; [split_and!; [lia..|done]|].
  destruct (holds is_block_member lines s) eqn:Hs; [|split_and!; [lia..|by intros k [= ->]]].
  destruct IH as (? & IH & ?). split_and!; [lia| |done]. intros j Hj.
  destruct (decide (j = s)) as [->|]; [done|]. apply IH. lia.
Qed.
Lemma grow_forward_spec fuel lines e :
  (length lines ≤ e + fuel)%nat →
  let e' := grow_forward fuel lines e in
  (e ≤ e')%nat ∧ (∀ j, (e < j ≤ e')%nat → holds is_block_member lines j = true) ∧
  holds is_block_member lines (S e') = false.
Proof.
  revert e. induction fuel as [|fuel IH]; intros e Hlen; simpl.
  - split_and!; [lia..|]. apply not_true_is_false. intros ?%holds_lt. lia.
  - destruct (holds is_block_member lines (S e)) eqn:He; [|split_and!; [lia..|done]].
    destruct (IH (S e)) as (? & IH1 & ?); [lia|]. split_and!; [lia| |done]. intros j Hj.
    destruct (decide (j = S e)) as [->|]; [done|]. apply IH1. lia.
Qed.
Lemma anchor_member line : is_anchor line = true → is_block_member line = true.
Proof. unfold is_block_member. by intros ->. Qed.

(** The block of the last trap: its lines are members, one of them is the
    last anchor of the ring, and it cannot be extended either way. *)
Definition trap_block (lines pre block post : list text) : Prop :=
  lines = pre ++ block ++ post ∧ Forall (λ l, is_block_member l = true) block ∧
  (∃ b1 a b2, block = b1 ++ a :: b2 ∧ is_anchor a = true ∧
              Forall (λ l, is_anchor l = false) (b2 ++ post)) ∧
  (∀ l, last pre = Some l → is_block_member l = false) ∧
  (∀ l, head post = Some l → is_block_member l = false).

Lemma slice_app {A} (l : list A) s e : (s ≤ e ≤ length l)%nat →
  l = take s l ++ take (e - s) (drop s l) ++ drop e l.
Proof.
  intros H. rewrite <-(take_drop s l) at 1. f_equal.
  rewrite <-(take_drop (e - s) (drop s l)) at 1. rewrite drop_drop. do 2 f_equal. lia.
Qed.

Lemma trap_block_slice lines s i e :
  (s ≤ i ≤ e)%nat → (e < length lines)%nat → holds is_anchor lines i = true →
  (∀ j, (i < j < length lines)%nat → holds is_anchor lines j = false) →
  (∀ j, (s ≤ j < i)%nat → holds is_block_member lines j = true) →
  (∀ j, (i < j ≤ e)%nat → holds is_block_member lines j = true) →
  (∀ k, s = S k → holds is_block_member lines k = false) →
  holds is_block_member lines (S e) = false →
  trap_block lines (take s lines) (take (S e - s) (drop s lines)) (drop (S e) lines).
Proof.
  intros Hi Hlt Hanchor Hafter Hback Hfwd Hstop Hend.
  assert (∀ j, (j < S e - s)%nat → take (S e - s) (drop s lines) !! j = lines !! (s + j)%nat) as Hlk.
  { intros j Hj. rewrite lookup_take_lt by lia. by rewrite lookup_drop. }
  destruct (lookup_lt_is_Some_2 lines i) as [a Ha]; [lia|].
  pose proof (holds_elim _ _ _ _ _ Hanchor Ha) as Haa.
  split_and!.
  - apply slice_app. lia.
  - apply Forall_lookup_2. intros j l Hj. pose proof (lookup_lt_Some _ _ _ Hj) as Hjl.
    rewrite length_take in Hjl. rewrite Hlk in Hj by lia.
    destruct (decide (s + j = i)%nat) as [Heq|]; [apply anchor_member; congruence|].
    eapply holds_elim; [|exact Hj]. destruct (decide (s + j < i)%nat); [apply Hback|apply Hfwd]; lia.
  - exists (take (i - s) (drop s lines)), a, (take (e - i) (drop (S i) lines)). split_and!; [|done|].
    + rewrite <-(take_drop (i - s) (take (S e - s) (drop s lines))).
      rewrite take_take, Nat.min_l by lia. f_equal. rewrite skipn_firstn_comm, drop_drop.
      replace (s + (i - s))%nat with i by lia. rewrite (drop_S _ _ _ Ha).
      by replace (S e - s - (i - s))%nat with (S (e - i)) by lia.
    + assert (take (e - i) (drop (S i) lines) ++ drop (S e) lines = drop (S i) lines) as ->.
      { rewrite <-(take_drop (e - i) (drop (S i) lines)) at 2. rewrite drop_drop. do 2 f_equal. lia. }
      apply Forall_lookup_2. intros j l Hj. rewrite lookup_drop in Hj.
      pose proof (lookup_lt_Some _ _ _ Hj).
      eapply holds_elim; [|exact Hj]. apply Hafter. lia.
  - intros l Hl. destruct s as [|k]; [done|].
    rewrite last_lookup, length_take, Nat.min_l in Hl by lia. simpl in Hl.
    rewrite lookup_take_lt in Hl by lia. by apply (holds_elim _ _ _ _ _ (Hstop k eq_refl) Hl).
  - intros l Hl. rewrite head_lookup, lookup_drop, Nat.add_0_r in Hl.
    by apply (holds_elim _ _ _ _ _ Hend Hl).
Qed.

(** [_extract_trap] finds a trap exactly when some line of the ring
    carries a trap marker; what it returns is then the maximal run of trap
    and SandboxVM lines around the last such line, and the classification is
    that of the run's text. *)
Theorem extract_trap_block lines :
  match extract_trap lines with
  | (kind, fp, hex, []) => kind = None ∧ fp = None ∧ hex = None ∧
                           Forall (λ l, is_anchor l = false) lines
  | (kind, fp, hex, block) =>
      (∃ pre post, trap_block lines pre block post) ∧
      fp = kmod_fingerprint (join [newline] block) ∧
      (is_Some hex ↔ is_Some (search traptype_at (join [newline] block))) ∧
      (is_Some kind → is_Some hex)
  end.
Proof.
  unfold extract_trap. pose proof (last_anchor_spec lines (length lines)) as Hlast.
  destruct (last_anchor lines (length lines)) as [i|]; cycle 1.
  { split_and!; [done..|]. apply Forall_lookup_2. intros j l Hj.
    rewrite <-(holds_lookup is_anchor _ _ _ Hj). apply Hlast. by eapply lookup_lt_Some. }
  destruct Hlast as (Hi & Hanchor & Hafter).
  destruct (grow_back_spec lines i) as (Hs & Hback & Hstop).
  destruct (grow_forward_spec (length lines) lines i) as (He & Hfwd & Hend); [lia|].
  set (s := grow_back lines i) in *. set (e := grow_forward (length lines) lines i) in *.
  assert (e < length lines)%nat as Hlt.
  { destruct (decide (e = i)) as [->|]; [done|]. apply (holds_lt is_block_member), Hfwd. lia. }
  assert (trap_block lines (take s lines) (take (S e - s) (drop s lines)) (drop (S e) lines)) as Hblock
    by (apply (trap_block_slice _ _ i); done || lia).
  assert (length (take (S e - s) (drop s lines)) ≠ 0%nat) as Hlen
    by (rewrite length_take, length_drop; lia).
  destruct (take (S e - s) (drop s lines)) as [|b bs] eqn:Hb; [done|]. rewrite <-Hb in *.
  split_and!; [by eauto|done|by rewrite !fmap_is_Some|].
  intros [k Hk]. by apply bind_Some in Hk as (h & -> & _).
Qed.

(** *** Exit lines *)

Lemma span_app f a c b :
  Forall (λ x, f x = true) a → f c = false → span f (a ++ c :: b) = (a, c :: b).
Proof. intros Ha Hc. induction Ha as [|x a Hx Ha IH]; simpl; [by rewrite Hc|]. by rewrite Hx, IH. Qed.
Lemma search_here {A} (at_ : bool → text → option A) t a :
  at_ false t = Some a → search at_ t = Some a.
Proof. intros Ha. unfold search. destruct t; cbn [search_from]; by rewrite Ha. Qed.
Lemma span1_app f a c b :
  a ≠ [] → Forall (λ x, f x = true) a → f c = false → span1 f (a ++ c :: b) = Some (a, c :: b).
Proof. intros Hne Ha Hc. unfold span1. rewrite span_app by done. by destruct a. Qed.
Lemma lit_app p t : lit p (p ++ t) = Some t.
Proof. induction p as [|c p IH]; simpl; [done|]. by rewrite decide_True. Qed.
Lemma spaces1_one t c : is_space c = false → spaces1 (" "%char :: c :: t) = Some (c :: t).
Proof. intros Hc. unfold spaces1, span1. simpl. by rewrite Hc. Qed.
Lemma show_base_decimal z : 0 ≤ z → Forall (λ c, is_decimal c = true) (show_base 10 z).
Proof.
  intros Hz. eapply Forall_impl; [by apply show_base_digits|]. intros c (d & Hd & ->).
  unfold is_decimal, in_range, digit_char. destruct (d <? 10) eqn:?; [|lia]. rewrite ord_chr; lia.
Qed.
Lemma show_base_cons z : 0 ≤ z → show_base 10 z ≠ [].
Proof. intros Hz Hnil. pose proof (parse_show 10 z ltac:(lia) Hz) as H. by rewrite Hnil in H. Qed.

(** The line SandboxVM writes when a guest of a batch ends. *)
Definition exit_line (path : text) (rc : Z) : text :=
  txt "[sandboxvm] guest_run_elf " ++ path ++ txt " returned " ++ num rc ++
  txt "; calling guest_destroy".
Definition is_path (path : text) : Prop := path ≠ [] ∧ Forall (λ c, is_space c = false) path.

Lemma signed_show rc c rest : is_decimal c = false → signed_at (num rc ++ c :: rest) = Some rc.
Proof.
  intros Hc. unfold num, show_int, signed_at. destruct (Z.ltb_spec rc 0) as [Hrc|Hrc].
  - simpl. rewrite span1_app; [|apply show_base_cons; lia|apply show_base_decimal; lia|done].
    csimpl. rewrite parse_show by lia. csimpl. f_equal. lia.
  - pose proof (show_base_decimal rc Hrc) as Hd. pose proof (show_base_cons rc Hrc) as Hne.
    destruct (show_base 10 rc) as [|x ds] eqn:Hs; [done|]. csimpl. rewrite decide_False.
    + rewrite app_comm_cons, span1_app by done. rewrite <-Hs. csimpl. by rewrite parse_show by lia.
    + apply Forall_cons in Hd as [Hx _]. by intros ->.
Qed.
Lemma num_cons rc : ∃ c t, num rc = c :: t ∧ is_space c = false.
Proof.
  unfold num, show_int. destruct (Z.ltb_spec rc 0) as [Hrc|Hrc]; [by eexists _, _|].
  pose proof (show_base_digits 10 rc ltac:(lia) Hrc) as Hd. pose proof (show_base_cons rc Hrc).
  destruct (show_base 10 rc) as [|c t]; [done|]. exists c, t. split; [done|].
  apply Forall_cons in Hd as [(d & Hd & ->) _]. apply digit_char_plain. lia.
Qed.
Lemma exit_line_parts path rc : exit_line path rc =
  txt "[sandboxvm]" ++ " "%char :: txt "guest_run_elf" ++ " "%char :: path ++ " "%char ::
  txt "returned" ++ " "%char :: num rc ++ ";"%char :: txt " calling guest_destroy".
Proof. reflexivity. Qed.
Lemma guest_exit_line path rc : is_path path →
  search guest_exit_at (exit_line path rc) = Some (path, rc).
Proof.
  intros [Hne Hsp].
  assert (guest_exit_at false (exit_line path rc) = Some (path, rc)) as Hat.
  { destruct path as [|c p]; [done|]. pose proof Hsp as [Hc _]%Forall_cons.
    destruct (num_cons rc) as (x & t & Hx & Hxs).
    unfold guest_exit_at. rewrite exit_line_parts, lit_app. cbn [mbind option_bind].
    assert (∀ w r, w ∈ ["guest_run_elf"; "returned"] →
      spaces1 (" "%char :: txt w ++ r) = Some (txt w ++ r)) as Hword
      by (intros w r Hw; repeat (apply elem_of_cons in Hw as [->|Hw]; [done|]); set_solver).
    rewrite Hword by set_solver. cbn [mbind option_bind]. rewrite lit_app. cbn [mbind option_bind].
    rewrite <-app_comm_cons, (spaces1_one _ c) by done. cbn [mbind option_bind].
    rewrite app_comm_cons, span1_app; [|done| |done].
    2: { eapply Forall_impl; [exact Hsp|]. simpl. by intros y ->. }
    cbn [mbind option_bind].
    rewrite Hword by set_solver.
    cbn [mbind option_bind]. rewrite lit_app. cbn [mbind option_bind].
    rewrite Hx, <-app_comm_cons, (spaces1_one _ x) by done. cbn [mbind option_bind].
    by rewrite app_comm_cons, <-Hx, signed_show. }
  by apply search_here.
Qed.
