(* ===== verification/Sandbox.v ===== *)
(** * The sandbox tools: [tools/sandbox.py]

    Probing a target for SandboxVM and caching the answer, deploying it, and
    running guests under it one at a time, as jobs or in batches.  The text
    these operations build and read is in [SandboxText.v]. *)
From S2P Require Import Prelude Py Bytes Config Fleet Fs Lines SandboxText.

(** ** Records *)

(** [SandboxProbeResult]; the hint text is not modelled. *)
Record probe_result := Probe {
  pr_target : string; available : bool; code : option string; path : option string;
  searched : list string; version_banner : option text; pr_machine : option string;
  machine_ok : option bool; sandboxvm_version : option text; abort_ok : bool }.
Record deploy_result := Deployed {
  dp_source : string; dp_dest : string; dp_bytes : Z; dp_sha256 : option string;
  probe_after : probe_result }.
Record guest_result := GuestRun {
  gr_guest : text; gr_name : text; gr_command : text; exit_code : Z;
  trap_kind : option text; trap_fingerprint : option text;
  stdout : text; stderr : text; capture_paths : list text }.
(** [LastTrapResult], without the capture time. *)
Record last_trap := LastTrap {
  found : bool; ring_usable : bool; lt_kind : option text; lt_fingerprint : option text;
  traptype_hex : option text; raw_lines : list text; attempts : Z }.
(** [SandboxJobInfo] of [tools/exec.py]. *)
Record job_info := JobInfo {
  ji_name : text; end_reason : option text; ji_kind : option text; ji_fingerprint : option text;
  trap_lines : list text; ji_ring_usable : option bool; ji_stdout : text; ji_stderr : text;
  ji_paths : list text }.
Record batch_spec := Spec { bs_guest : text; bs_name : option text }.
Record batch_entry := Entry {
  be_guest : text; be_name : text; be_exit : Z; exit_code_known : bool;
  be_kind : option text; be_fingerprint : option text; be_stdout : text; be_stderr : text;
  be_paths : list text }.
Record batch_result := Batch {
  batch_name : text; br_command : text; aggregate_exit_code : Z; br_ring_usable : bool;
  all_clean : bool; entries : list batch_entry }.

(** The module's probe cache (expiry and result per target) and the service;
    [issued] is a ghost: the requests sent to daemons, in order, leaving out
    those [fs.upload] sends; [answered], another, says at which positions of
    [issued] a result came back. *)
Record sbx (S : Type) := Sbx {
  probes : list (string * (Z * probe_result));
  issued : list (string * (string * json));
  answered : list nat;
  hst : host S }.
Arguments Sbx {S}. Arguments probes {S}. Arguments issued {S}. Arguments answered {S}. Arguments hst {S}.

Definition PROBE_CACHE_TTL : Z := 60000.
Definition DEFAULT_AOS_SEARCH : list string :=
  ["SYS:Tools/sandboxvm"; "SYS:Utilities/sandboxvm"; "C:sandboxvm"].
Definition DEFAULT_DEPLOY_PATH : string := "SYS:Tools/sandboxvm".
Definition INCOMPATIBLE_MACHINES : list string := ["pegasos2"].
Definition SANDBOXVM_MAX_GUESTS : nat := 16.
(** [DEFAULT_TIMEOUT_S] of the transport. *)
Definition default_timeout : Z := 30000.

(** [_is_transport_error] *)
Definition is_transport_error (e : exn) : bool :=
  match e with
  | ERpc TargetError (Some (JObj l)) => bool_decide (is_Some (assoc "endpoint" l))
  | ERpc TargetError _ => false
  | _ => true
  end.
Definition truthy_text (t : option text) : option text :=
  match t with Some [] => None | _ => t end.
Definition out_path (name : text) : text := txt "T:sandboxvm-" ++ name ++ txt ".out".
Definition err_path (name : text) : text := txt "T:sandboxvm-" ++ name ++ txt ".err".

Section sandbox.
Context {S : Type} `{Rpc S}.
(** The registry; [fleet.mcpd(target)], which raises for a target without the
    channel; [time.monotonic()] in milliseconds; [secrets.token_hex]. *)
Context (fl : Fleet) (mcpd_for : string → M S exn unit) (now : S → Z) (token_hex : nat → M S exn text).
(** [zlib.compress], [hashlib.sha256], [Path(p).expanduser().resolve()],
    [str] of a list or dict, and [bytes.decode("utf-8", errors="replace")]. *)
Context (compress : bytes → bytes) (sha256 : bytes → string) (resolve : string → string)
  (repr : json → text) (utf8_replace : bytes → text).

Abbreviation MB := (M (sbx S) exn).
Definition on_host {A} (m : M (host S) exn A) : MB A := λ w,
  let '(r, h) := m (hst w) in (r, Sbx (probes w) (issued w) (answered w) h).
Definition on_service {A} (m : M S exn A) : MB A := on_host (on_svc m).
Definition rpc (target method : string) (params : json) (timeout : Z) : MB json :=
  n ← gets (λ w, length (issued w));
  modify (λ w, Sbx (probes w) (issued w ++ [(target, (method, params))]) (answered w) (hst w));;
  r ← on_service (call target method params timeout);
  modify (λ w, Sbx (probes w) (issued w) (answered w ++ [n]) (hst w));;
  mret r.
Definition mcpd_of (target : string) : MB unit := on_service (mcpd_for target).
Definition clock_now : MB Z := gets (λ w, now (svc (hst w))).
Definition set_probes (f : list (string * (Z * probe_result)) → list (string * (Z * probe_result)))
    : MB unit := modify (λ w, Sbx (f (probes w)) (issued w) (answered w) (hst w)).
(** [try: m except Exception: pass] *)
Definition try_some {A} (m : MB A) : MB (option A) :=
  catch (Some <$> m) (λ e, if is_exception e then mret None else raise e).
Definition exec_params (command : text) (timeout_ms : Z) (more : list (string * json)) : json :=
  JObj ([("command", JStr (str command)); ("timeout_ms", JNum timeout_ms)] ++ more).
Definition path_params (p : text) : json := JObj [("path", JStr (str p))].

(** ** Probing *)

(** [_resolve_target_machine] *)
Definition lower_str (s : string) : string := str (map lower (txt s)).
Definition known_machines : list string := ["x5000"; "x1000"; "a1222"; "amigaone"; "sam460ex"].
Fixpoint tag_machine (tags : list string) : option string :=
  match tags with
  | [] => None
  | t :: ts => let low := lower_str t in
               if bool_decide (low ∈ INCOMPATIBLE_MACHINES ∨ low ∈ known_machines)
               then Some low else tag_machine ts
  end.
Definition resolve_target_machine (target : string) : res exn (option string) :=
  match target_config fl target with
  | Ret cfg => Ret (match truthy (machine cfg) with
                    | Some m => Some (lower_str m)
                    | None => tag_machine (tags cfg)
                    end)
  | Raise e => Raise e
  | Spin => Spin
  end.
Definition incompatible (m : option string) : bool :=
  match m with Some m => bool_decide (m ∈ INCOMPATIBLE_MACHINES) | None => false end.
Definition configured_path (cfg : TargetConfig) : option string :=
  sb ← sandbox cfg; truthy (sb_path sb).
(** [_candidate_target_paths] *)
Definition candidate_target_paths (cfg : TargetConfig) : list string :=
  let own := match configured_path cfg with Some p => [p] | None => [] end in
  own ++ filter (λ p, p ∉ own) DEFAULT_AOS_SEARCH.

(** [_execute_banner_probe] *)
Definition execute_banner_probe (target p : string) : MB (bool * option text) :=
  mcpd_of target;;
  r ← try_some (rpc target "exec.cmd" (exec_params (quoted (txt p)) 5000 []) 10000);
  match r with
  | None => mret (false, None)
  | Some raw =>
      o ← lift (get_or "output" (JStr "") raw);
      mret (true, head (splitlines (strip (py_str repr o))))
  end.
(** [_read_version] *)
Definition read_version (target p : string) : MB (option (Z * Z)) :=
  r ← try_some (mcpd_of target;;
        rpc target "exec.cmd" (exec_params (txt "Version " ++ quoted (txt p)) 5000 []) 10000);
  match r with
  | None => mret None
  | Some raw => o ← lift (get_or "output" (JStr "") raw); mret (parse_version (py_str repr o))
  end.
(** The [fs.stat] loop: a transport failure ends it ([inl]), any other
    [TargetError] moves on to the next candidate. *)
Fixpoint stat_walk (target : string) (ps : list string) : MB (unit + option string) :=
  match ps with
  | [] => mret (inr None)
  | p :: ps =>
      r ← catch (rpc target "fs.stat" (path_params (txt p)) default_timeout;; mret None)
            (λ e, if is_exception e then mret (Some (is_transport_error e)) else raise e);
      match r with
      | None => mret (inr (Some p))
      | Some true => mret (inl tt)
      | Some false => stat_walk target ps
      end
  end.
Definition unavailable (target c : string) (p : option string) (srch : list string)
    (m : option string) (ok : option bool) : probe_result :=
  Probe target false (Some c) p srch None m ok None false.
Definition machine_okay (m : option string) : option bool := (λ _, true) <$> m.
Definition cache_probe (target : string) (r : probe_result) : MB unit :=
  n ← clock_now;
  set_probes (dict_set target (n + PROBE_CACHE_TTL, r)).
(** [sandbox_probe] *)
Definition sandbox_probe (target : string) : MB probe_result :=
  m ← lift (resolve_target_machine target);
  if incompatible m then
    let r := unavailable target "SANDBOXVM_INCOMPATIBLE_TARGET" None [] m (Some false) in
    cache_probe target r;;
    mret r
  else
    cfg ← lift (target_config fl target);
    let candidates := candidate_target_paths cfg in
    mcpd_of target;;
    hit ← stat_walk target candidates;
    match hit with
    | inl _ => mret (unavailable target "SANDBOXVM_TARGET_UNREACHABLE" None candidates m (machine_okay m))
    | inr None => mret (unavailable target "SANDBOXVM_MISSING" None candidates m (machine_okay m))
    | inr (Some p) =>
        '(ran, banner) ← execute_banner_probe target p;
        if (ran : bool) then
          v ← read_version target p;
          let r := Probe target true None (Some p) candidates banner m (machine_okay m)
                     ((λ '(a, b), num a ++ "."%char :: num b) <$> v) (abort_supported v) in
          cache_probe target r;;
          mret r
        else mret (unavailable target "SANDBOXVM_BROKEN" (Some p) candidates m (machine_okay m))
    end.
(** [_probe_specific_path] *)
Definition probe_specific_path (target p : string) : MB probe_result :=
  m ← lift (resolve_target_machine target);
  if incompatible m then
    mret (unavailable target "SANDBOXVM_INCOMPATIBLE_TARGET" None [] m (Some false))
  else
    mcpd_of target;;
    r ← catch (rpc target "fs.stat" (path_params (txt p)) default_timeout;; mret None)
          (λ e, if is_exception e then mret (Some (is_transport_error e)) else raise e);
    match r with
    | Some true => mret (unavailable target "SANDBOXVM_TARGET_UNREACHABLE" None [p] m (machine_okay m))
    | Some false => mret (unavailable target "SANDBOXVM_MISSING" None [p] m (machine_okay m))
    | None =>
        '(ran, banner) ← execute_banner_probe target p;
        mret (if (ran : bool) then Probe target true None (Some p) [p] banner m (machine_okay m) None false
              else unavailable target "SANDBOXVM_BROKEN" (Some p) [p] m (machine_okay m))
    end.
Definition not_usable (target : string) (r : probe_result) : exn :=
  let c := match code r with Some c => JStr c | None => JNull end in
  if bool_decide (code r = Some "SANDBOXVM_INCOMPATIBLE_TARGET") then
    ERpc NotCapable (Some (JObj [("code", c); ("target", JStr target);
      ("machine", match pr_machine r with Some m => JStr m | None => JNull end)]))
  else if bool_decide (code r = Some "SANDBOXVM_TARGET_UNREACHABLE") then
    ERpc NotCapable (Some (JObj [("code", c); ("target", JStr target)]))
  else ERpc InvalidParams (Some (JObj [("code", c); ("target", JStr target);
         ("searched", JArr (map JStr (searched r)))])).
(** [_ensure_available] *)
Definition ensure_available (target : string) : MB probe_result :=
  w ← get;
  let probe :=
    res ← sandbox_probe target;
    if available res then mret res else raise (not_usable target res) in
  match assoc target (probes w) with
  | Some (expiry, r) =>
      if (now (svc (hst w)) <? expiry) && available r then mret r else probe
  | None => probe
  end.

(** ** Deploying *)

(** [_resolve_source] *)
Definition resolve_source (source : option string) : MB string :=
  w ← get;
  match truthy source with
  | Some s => let p := resolve s in
              if bool_decide (is_Some (lfs (hst w) !! p)) then mret p else raise (ERpc InvalidParams None)
  | None =>
      match sandboxvm (paths (config fl)) with
      | Some s => let p := resolve s in
                  if bool_decide (is_Some (lfs (hst w) !! p)) then mret p
                  else raise (ERpc InvalidParams None)
      | None => raise (ERpc InvalidParams None)
      end
  end.
(** [_resolve_dest_path] *)
Definition resolve_dest_path (target : string) (dest : option string) : res exn string :=
  match truthy dest with
  | Some d => Ret d
  | None => match target_config fl target with
            | Ret cfg => Ret (default DEFAULT_DEPLOY_PATH (configured_path cfg))
            | Raise e => Raise e
            | Spin => Spin
            end
  end.
(** [sandbox_deploy] *)
Definition sandbox_deploy (target : string) (source dest : option string) (confirm : bool)
    : MB deploy_result :=
  if negb confirm then raise (ERpc InvalidParams None)
  else
    src ← resolve_source source;
    dst ← lift (resolve_dest_path target dest);
    (match aos_parent_dir (txt dst) with
     | Some parent =>
         try_some (mcpd_of target;;
           rpc target "exec.cmd" (exec_params (txt "MakeDir >NIL: " ++ quoted parent) 5000 []) 10000);;
         mret tt
     | None => mret tt
     end);;
    up ← on_host (fs_upload compress sha256 target src dst (24 * 1024 * 1024) CAuto true false);
    set_probes (dict_del target);;
    after ← probe_specific_path target dst;
    (if available after then cache_probe target after else mret tt);;
    mret (Deployed src dst (bytes_total (up_stats up)) (up_sha256 up) after).

(** ** Captures and the debug ring *)

(** [_read_capture]: the text, and whether the file was there. *)
Definition read_capture (target : string) (p : text) : MB (text * bool) :=
  r ← catch (Some <$> (mcpd_of target;; rpc target "fs.read" (path_params p) default_timeout))
        (λ e, if is_target_error e then mret None else raise e);
  match r with
  | None => mret ([], false)
  | Some raw =>
      c ← lift (get_or "content_b64" (JStr "") raw);
      mret (match c with
            | JStr s => match py_b64decode (txt s) with Some b => utf8_replace b | None => [] end
            | _ => []
            end, true)
  end.
(** [_delete_capture] *)
Definition delete_capture (target : string) (p : text) : MB unit :=
  try_some (mcpd_of target;; rpc target "fs.delete" (path_params p) default_timeout);;
  mret tt.
(** Both captures of a guest are read, then deleted. *)
Definition collect (target : string) (name : text) : MB ((text * bool) * (text * bool)) :=
  o ← read_capture target (out_path name);
  e ← read_capture target (err_path name);
  delete_capture target (out_path name);;
  delete_capture target (err_path name);;
  mret (o, e).
Definition present (name : text) (o e : bool) : list text :=
  (if o then [out_path name] else []) ++ (if e then [err_path name] else []).

(** [sys_debug_ring] of [tools/sys.py]: the last [max_lines] lines. *)
Definition sys_debug_ring (target : string) (max_lines : nat) : MB (list text) :=
  let max_lines := Nat.max 1 max_lines in
  mcpd_of target;;
  raw ← rpc target "exec.cmd" (exec_params (txt "C:DumpDebugBuffer") 30000 []) 35000;
  o ← lift (get_or "output" (JStr "") raw);
  let all_lines := splitlines (py_str repr o) in
  mret (if (max_lines <? length all_lines)%nat then last_n max_lines all_lines else all_lines).
(** The attempts of [sandbox_last_trap]: [attempt] is 0 for the first. *)
Fixpoint trap_attempts (target : string) (max_lines : nat) (delay : Z) (attempt more : nat) : MB last_trap :=
  lines ← sys_debug_ring target max_lines;
  let '(kind, fp, hex, block) := extract_trap lines in
  match block with
  | _ :: _ => mret (LastTrap true true kind fp hex block (Z.of_nat attempt + 1))
  | [] =>
      match more with
      | O => mret (LastTrap false (ring_reports_daemon lines) None None None [] (Z.of_nat attempt + 1))
      | Datatypes.S more =>
          on_service (pause delay);;
          trap_attempts target max_lines delay (Datatypes.S attempt) more
      end
  end.
Definition sandbox_last_trap (target : string) (max_lines : nat) (retry_count retry_delay : Z)
    : MB last_trap :=
  trap_attempts target max_lines (Z.max 0 retry_delay) 0 (Z.to_nat (Z.max 1 retry_count - 1)).
(** The report in the ring, when it names the run. *)
Definition trap_of_run (t : last_trap) (name : text) : bool :=
  found t && existsb (contains name) (raw_lines t).

(** ** Running guests *)

(** The config-driven defaults. *)
Definition extmem_of (cfg : option SandboxTargetConfig) (v : option Z) : Z :=
  default (match cfg with Some c => default_extmem_mb c | None => 1024 end) v.
Definition window_of (cfg : option SandboxTargetConfig) (v : option Z) : Z :=
  default (match cfg with Some c => default_window_mb c | None => 256 end) v.
Fixpoint merge_deny (merged libs : list text) : list text :=
  match libs with
  | [] => merged
  | l :: ls => merge_deny (if bool_decide (l ∈ merged) then merged else merged ++ [l]) ls
  end.
Definition merged_deny (cfg : option SandboxTargetConfig) (libs : list text) : list text :=
  merge_deny (match cfg with Some c => map txt (cfg_deny_libs c) | None => [] end) libs.
Definition probe_path (r : probe_result) : MB string :=
  match path r with Some p => mret p | None => raise (EPy AssertionError) end.

(** The [async with lock] block of [_run_sandboxvm]: exit code, SandboxVM's
    own output and the captures.  The per-target lock makes runs on one target
    follow one another, as they do here. *)
Definition run_locked (target : string) (cmd run_name : text) (timeout : Z)
    : MB (Z * text * ((text * bool) * (text * bool))) :=
  mcpd_of target;;
  raw ← catch (rpc target "exec.cmd" (exec_params cmd timeout []) (Z.max (timeout + 5000) 30000))
          (λ e, if is_exception e then collect target run_name;; raise e else raise e);
  c ← lift (get_or "exit_code" (JNum 0) raw);
  rc ← lift (py_int c);
  o ← lift (get_or "output" (JStr "") raw);
  caps ← collect target run_name;
  mret (rc, py_str repr o, caps).
(** [_run_sandboxvm]; [sandbox_run_guest] and [sandbox_run_driver] are it with
    and without the resident-driver arguments. *)
Definition run_sandboxvm (target : string) (guest : text) (args : list text)
    (extmem window : option Z) (deny : list text) (name : option text) (timeout : Z)
    (resident_driver : bool) (test_elf : option text) : MB guest_result :=
  probe ← ensure_available target;
  p ← probe_path probe;
  cfg ← lift (target_config fl target);
  let run_name := default (derive_guest_name guest) (truthy_text name) in
  let cmd := build_command (txt p) guest args (extmem_of (sandbox cfg) extmem)
               (window_of (sandbox cfg) window) (merged_deny (sandbox cfg) deny) run_name
               resident_driver test_elf None in
  '(rc, wrapper, ((out, out_there), (err, err_there))) ← run_locked target cmd run_name timeout;
  let out := if negb (bool_decide (wrapper = [])) && negb (out_there || err_there)
             then wrapper else out in
  let '(kind, fp) := classify_exit rc err in
  '(kind, fp) ← (if bool_decide (kind = None) && (rc =? SANDBOXVM_RC_TRAP) then
                   t ← sandbox_last_trap target 500 3 200;
                   mret (if trap_of_run t run_name
                         then (lt_kind t, from_option Some (lt_fingerprint t) fp) else (kind, fp))
                 else mret (kind, fp));
  mret (GuestRun guest run_name cmd rc kind fp out err (present run_name out_there err_there)).
Definition sandbox_run_guest (target : string) (guest : text) (args : list text)
    (extmem window : option Z) (deny : list text) (name : option text) (timeout : Z) :=
  run_sandboxvm target guest args extmem window deny name timeout false None.
Definition sandbox_run_driver (target : string) (driver : text) (test : option text)
    (args : list text) (extmem window : option Z) (deny : list text) (name : option text) (timeout : Z) :=
  run_sandboxvm target driver args extmem window deny name timeout true test.

(** [sandbox_job_command]: the command line and the unique name. *)
Definition sandbox_job_command (target : string) (guest : text) (args : list text)
    (extmem window : option Z) (deny : list text) (time_limit : option Z) : MB (text * text) :=
  probe ← ensure_available target;
  p ← probe_path probe;
  cfg ← lift (target_config fl target);
  suffix ← on_service (token_hex 3);
  let name := derive_guest_name guest ++ "-"%char :: suffix in
  mret (build_command (txt p) guest args (extmem_of (sandbox cfg) extmem)
          (window_of (sandbox cfg) window) (merged_deny (sandbox cfg) deny) name false None time_limit,
        name).
(** [sandbox_job_result] *)
Definition sandbox_job_result (target : string) (name : text) (rc : option Z) : MB job_info :=
  match rc with
  | None => mret (JobInfo name None None None [] None [] [] [out_path name; err_path name])
  | Some rc =>
      '((out, out_there), (err, err_there)) ← collect target name;
      let '(kind, fp) := classify_exit rc err in
      let paths := present name out_there err_there in
      if (rc =? SANDBOXVM_RC_TRAP) && bool_decide (kind = None) then
        t ← sandbox_last_trap target 500 3 200;
        mret (if trap_of_run t name then
                JobInfo name (Some (end_reason_of rc)) (lt_kind t) (from_option Some (lt_fingerprint t) fp)
                  (filter (λ ln, startswith (txt "[sandboxvm/trap]") ln) (raw_lines t))
                  (Some (ring_usable t)) out err paths
              else JobInfo name (Some (end_reason_of rc)) kind fp [] (Some (ring_usable t)) out err paths)
      else mret (JobInfo name (Some (end_reason_of rc)) kind fp [] None out err paths)
  end.

(** ** Batches *)

(** [exec.job_priority] *)
Definition job_priority (priority : option Z) : option Z :=
  match priority with Some p => Some p | None => exec_priority (defaults (config fl)) end.
(** The exit code of guest [idx] of [n], and whether the ring told it. *)
Definition exit_of (exits : list (text * Z)) (usable : bool) (n idx : nat) : Z * bool :=
  let offset := (n - length exits)%nat in
  if usable && (offset <=? idx)%nat
  then (match exits !! (idx - offset)%nat with Some e => snd e | None => 0 end, true)
  else (0, false).
Definition guest_name (batch : text) (idx : nat) (s : batch_spec) : text :=
  default (batch ++ "."%char :: num (Z.of_nat idx)) (truthy_text (bs_name s)).
Fixpoint batch_entries (target : string) (batch : text) (exits : list (text * Z)) (usable : bool)
    (n idx : nat) (specs : list batch_spec) : MB (list batch_entry) :=
  match specs with
  | [] => mret []
  | s :: specs =>
      let gname := guest_name batch idx s in
      '((out, out_there), (err, err_there)) ← collect target gname;
      let '(rc, known) := exit_of exits usable n idx in
      let '(kind, fp) := classify_exit rc err in
      rest ← batch_entries target batch exits usable n (Datatypes.S idx) specs;
      mret (Entry (bs_guest s) gname rc known kind fp out err (present gname out_there err_there) :: rest)
  end.
(** [sandbox_run_batch] *)
Definition sandbox_run_batch (target : string) (guests : list batch_spec) (extmem window : option Z)
    (deny : list text) (name : option text) (timeout : Z) (priority : option Z) : MB batch_result :=
  if bool_decide (guests = []) then raise (ERpc InvalidParams None)
  else if (SANDBOXVM_MAX_GUESTS <? length guests)%nat then
    raise (ERpc InvalidParams (Some (JObj [("max", JNum (Z.of_nat SANDBOXVM_MAX_GUESTS));
                                           ("got", JNum (Z.of_nat (length guests)))])))
  else
    probe ← ensure_available target;
    p ← probe_path probe;
    cfg ← lift (target_config fl target);
    let batch := default (txt "batch") (truthy_text name) in
    let cmd := build_batch_command (txt p) (map bs_guest guests) (extmem_of (sandbox cfg) extmem)
                 (window_of (sandbox cfg) window) (merged_deny (sandbox cfg) deny) batch in
    mcpd_of target;;
    raw ← rpc target "exec.cmd"
            (exec_params cmd timeout (opt_param "priority" (JNum <$> job_priority priority)))
            (Z.max (timeout + 5000) 30000);
    c ← lift (get_or "exit_code" (JNum 0) raw);
    aggregate ← lift (py_int c);
    ring ← sys_debug_ring target 2000;
    let exits := parse_per_guest_exits ring (length guests) in
    let usable := ring_reports_daemon ring in
    es ← batch_entries target batch exits usable (length guests) 0 guests;
    mret (Batch batch cmd aggregate usable
            ((aggregate =? 0) && forallb (λ e, be_exit e =? 0) es) es).
End sandbox.

(* ------------------------------------------------------------------ *)
(** ** Which requests an operation sends, and what it leaves in the cache *)

Definition request : Type := string * (string * json).
Definition probe_request (t : string) (q : request) : Prop :=
  (∃ p, q = (t, ("fs.stat", path_params p))) ∨
  (∃ p, q = (t, ("exec.cmd", exec_params (quoted p) 5000 []))) ∨
  (∃ p, q = (t, ("exec.cmd", exec_params (txt "Version " ++ quoted p) 5000 []))).
Definition capture_requests (t : string) (name : text) : list request :=
  [(t, ("fs.read", path_params (out_path name))); (t, ("fs.read", path_params (err_path name)));
   (t, ("fs.delete", path_params (out_path name))); (t, ("fs.delete", path_params (err_path name)))].
Definition ring_request (t : string) : request :=
  (t, ("exec.cmd", exec_params (txt "C:DumpDebugBuffer") 30000 [])).

Section lemmas.
Context {S : Type} `{Rpc S}.
Context (fl : Fleet) (mcpd_for : string → M S exn unit) (now : S → Z) (token_hex : nat → M S exn text).
Context (compress : bytes → bytes) (sha256 : bytes → string) (resolve : string → string)
  (repr : json → text) (utf8_replace : bytes → text).
Abbreviation W := (sbx S).
Abbreviation MB := (M (sbx S) exn).
Implicit Types w : sbx S.

(** The cache untouched, and no answer forgotten. *)
Definition quiet : relation (sbx S) := λ w w',
  probes w' = probes w ∧ answered w `prefix_of` answered w'.
#[export] Instance quiet_preorder : PreOrder quiet.
Proof.
  split; [by intros w|]. intros w1 w2 w3 [Hp1 Ha1] [Hp2 Ha2]. split; [congruence|by etrans].
Qed.
(** The cache untouched, and only requests of [P] sent. *)
Definition sends (P : request → Prop) : relation (sbx S) := λ w w',
  quiet w w' ∧ ∃ l, issued w' = issued w ++ l ∧ Forall P l.
#[export] Instance sends_preorder P : PreOrder (sends P).
Proof.
  split; [intros w; split; [done|]; exists []; by rewrite app_nil_r|].
  intros w1 w2 w3 [Hp1 (l1 & Hl1 & HP1)] [Hp2 (l2 & Hl2 & HP2)].
  split; [by etrans|]. exists (l1 ++ l2). rewrite Hl2, Hl1, (assoc_L (++)).
  split; [done|]. by apply Forall_app_2.
Qed.
Lemma sends_mono (P Q : request → Prop) {A} (m : MB A) :
  (∀ q, P q → Q q) → respects (sends P) m → respects (sends Q) m.
Proof.
  intros HPQ Hm w. destruct (Hm w) as [Hp (l & Hl & HP)]. split; [done|]. exists l.
  split; [done|]. eapply Forall_impl; eauto.
Qed.
Lemma sends_host {A} P (m : M (host S) exn A) : respects (sends P) (on_host m).
Proof.
  intros w. unfold on_host. destruct (m (hst w)) as [r h]. split; [done|]. exists [].
  by rewrite app_nil_r.
Qed.
Lemma sends_service {A} P (m : M S exn A) : respects (sends P) (on_service m).
Proof. apply sends_host. Qed.
(** A request came back with a result after [w]. *)
Definition answered_since w w' (q : request) : Prop :=
  ∃ i, (length (issued w) ≤ i)%nat ∧ issued w' !! i = Some q ∧ i ∈ answered w'.
Lemma rpc_answered t m j to w :
  wp (rpc t m j to) (λ r w', quiet w w' ∧ issued w' = issued w ++ [(t, (m, j))] ∧
    ∀ a, r = Ret a → answered_since w w' (t, (m, j))) w.
Proof.
  unfold rpc. apply wp_bind, wp_gets, wp_bind, wp_modify, wp_bind. unfold wp at 1, on_service, on_host.
  simpl. destruct (on_svc _ _) as [[a|x|] h]; [|by split_and!..].
  apply wp_bind, wp_modify, wp_ret. split_and!; [|done|].
  - split; [done|]. by apply prefix_app_r.
  - intros _ _. exists (length (issued w)). simpl. split_and!; [done|by apply list_lookup_middle|].
    apply elem_of_app; right; by left.
Qed.
Lemma rpc_spec t m j to w :
  wp (rpc t m j to) (λ _ w', quiet w w' ∧ issued w' = issued w ++ [(t, (m, j))]) w.
Proof. eapply wp_mono; [apply rpc_answered|]. by intros r w' (? & ? & _). Qed.
Lemma answered_later w w1 w2 q :
  answered_since w w1 q → answered w1 `prefix_of` answered w2 → issued w1 `prefix_of` issued w2 →
  answered_since w w2 q.
Proof.
  intros (i & Hi & Hq & Ha) [l Hl] Hp. exists i. split_and!; [done|by eapply prefix_lookup_Some|].
  rewrite Hl. apply elem_of_app; by left.
Qed.
Lemma answered_before w0 w w' q :
  answered_since w w' q → issued w0 `prefix_of` issued w → answered_since w0 w' q.
Proof. intros (i & Hi & Hq) Hp%prefix_length. exists i. split; [lia|done]. Qed.
Lemma sends_rpc (P : request → Prop) t m j to : P (t, (m, j)) → respects (sends P) (rpc t m j to).
Proof. intros HP w. destruct (rpc_spec t m j to w) as [Hp Hi]. split; [done|]. eauto. Qed.
Lemma sends_mcpd P t : respects (sends P) (mcpd_of mcpd_for t).
Proof. apply sends_service. Qed.
Lemma sends_clock P : respects (sends P) (clock_now now).
Proof. apply (respects_gets _). Qed.
Lemma sends_get P : respects (sends P) (get : MB _).
Proof. intros w. reflexivity. Qed.
#[local] Hint Resolve sends_host sends_service sends_mcpd sends_clock sends_get : respects.
Lemma sends_try {A} P (m : MB A) : respects (sends P) m → respects (sends P) (try_some m).
Proof. intros Hm. unfold try_some. respects_tac. Qed.

(** Probing sends only probe requests. *)
Lemma sends_banner t p : respects (sends (probe_request t)) (execute_banner_probe mcpd_for repr t p).
Proof.
  unfold execute_banner_probe. apply (respects_bind _); [respects_tac|]. intros _.
  apply (respects_bind _); [|intros ?; respects_tac].
  apply sends_try, sends_rpc. right. left. eauto.
Qed.
Lemma sends_version t p : respects (sends (probe_request t)) (read_version mcpd_for repr t p).
Proof.
  unfold read_version. apply (respects_bind _); [|intros ?; respects_tac].
  apply sends_try. apply (respects_bind _); [respects_tac|]. intros _. apply sends_rpc.
  right. right. eauto.
Qed.
Lemma sends_stat t p {A B} (k : json → MB A) (h : exn → MB A) (g : A → MB B) :
  (∀ j, respects (sends (probe_request t)) (k j)) → (∀ e, respects (sends (probe_request t)) (h e)) →
  (∀ a, respects (sends (probe_request t)) (g a)) →
  respects (sends (probe_request t))
    (catch (rpc t "fs.stat" (path_params p) default_timeout ≫= k) h ≫= g).
Proof.
  intros Hk Hh Hg. apply (respects_bind _); [|done]. apply (respects_catch _); [|done].
  apply (respects_bind _); [|done]. apply sends_rpc. left. eauto.
Qed.
Lemma sends_walk t ps : respects (sends (probe_request t)) (stat_walk t ps).
Proof.
  induction ps as [|p ps IH]; simpl; [apply (respects_ret _)|].
  apply sends_stat; intros; respects_tac.
Qed.
Lemma sends_specific t p :
  respects (sends (probe_request t)) (probe_specific_path fl mcpd_for repr t p).
Proof.
  unfold probe_specific_path. apply (respects_bind _); [respects_tac|]. intros m.
  destruct (incompatible m); [respects_tac|]. apply (respects_bind _); [respects_tac|]. intros _.
  apply sends_stat; intros; respects_tac. apply sends_banner.
Qed.

(** A probe result as the callers rely on it, and a cache of such results. *)
Definition sound_probe (t : string) (r : probe_result) : Prop :=
  pr_target r = t ∧
  if available r then is_Some (path r) ∧ code r = None else is_Some (code r).
Definition stat_request (t sv : string) : request := (t, ("fs.stat", path_params (txt sv))).
Definition banner_request (t sv : string) : request :=
  (t, ("exec.cmd", exec_params (quoted (txt sv)) 5000 [])).
(** The target has answered a run of the binary a result names. *)
Definition ran_once (t : string) (r : probe_result) w : Prop := ∀ sv,
  available r = true → path r = Some sv →
  ∃ i, issued w !! i = Some (banner_request t sv) ∧ i ∈ answered w.
Definition cache_ok w : Prop := ∀ t e r, assoc t (probes w) = Some (e, r) →
  sound_probe t r ∧ (available r = true ∨ code r = Some "SANDBOXVM_INCOMPATIBLE_TARGET") ∧
  ran_once t r w.
(** What a probe that finds [sv] has seen since [w]: the machine is not one
    SandboxVM cannot run on, [sv] is a candidate, and the target answered both
    the [fs.stat] of [sv] and the run of it. *)
Definition probed_since t (sv : string) w w' : Prop :=
  (∃ m, resolve_target_machine fl t = Ret m ∧ incompatible m = false) ∧
  (∃ cfg, target_config fl t = Ret cfg ∧ sv ∈ candidate_target_paths cfg) ∧
  answered_since w w' (stat_request t sv) ∧ answered_since w w' (banner_request t sv).
Definition sent (P : request → Prop) w w' : Prop := ∃ l, issued w' = issued w ++ l ∧ Forall P l.

Lemma sends_sent P w w' : sends P w w' → sent P w w'.
Proof. by intros [_ ?]. Qed.
Lemma sent_refl P w w' : issued w' = issued w → sent P w w'.
Proof. intros Hi. exists []. by rewrite app_nil_r. Qed.
Lemma sent_trans P w1 w2 w3 : sent P w1 w2 → sent P w2 w3 → sent P w1 w3.
Proof.
  intros (l1 & H1 & HP1) (l2 & H2 & HP2). exists (l1 ++ l2).
  rewrite H2, H1, (assoc_L (++)). split; [done|]. by apply Forall_app_2.
Qed.
Lemma cache_ok_quiet w w' :
  cache_ok w → quiet w w' → issued w `prefix_of` issued w' → cache_ok w'.
Proof.
  intros Hc [Hp [la Ha]] [l Hl] t e r Hr. rewrite Hp in Hr.
  destruct (Hc t e r Hr) as (? & ? & Hran). split_and!; [done..|]. intros sv Hv Hsv.
  destruct (Hran sv Hv Hsv) as (i & Hi & Hin). exists i. rewrite Ha, Hl.
  split; [by apply lookup_app_l_Some|apply elem_of_app; by left].
Qed.
Lemma sends_issued P w w' : sends P w w' → issued w `prefix_of` issued w'.
Proof. intros [_ (l & -> & _)]. by apply prefix_app_r. Qed.
Lemma cache_ok_sends P w w' : cache_ok w → sends P w w' → cache_ok w'.
Proof. intros Hc Hs. eapply cache_ok_quiet; [done|apply Hs|by eapply sends_issued]. Qed.
Lemma sends_later P w w1 w2 q : answered_since w w1 q → sends P w1 w2 → answered_since w w2 q.
Proof.
  intros Hq [[_ Ha] (l & Hl & _)]. eapply answered_later; [done..|]. rewrite Hl. by apply prefix_app_r.
Qed.
Lemma sends_before P w w1 w2 q : answered_since w1 w2 q → sends P w w1 → answered_since w w2 q.
Proof. intros Hq Hs%sends_issued. by eapply answered_before. Qed.
Lemma cache_probe_spec t r w :
  cache_ok w → sound_probe t r →
  available r = true ∨ code r = Some "SANDBOXVM_INCOMPATIBLE_TARGET" → ran_once t r w →
  wp (cache_probe now t r) (λ x w', x = Ret tt ∧ cache_ok w' ∧ issued w' = issued w ∧
    answered w' = answered w) w.
Proof.
  intros Hc Hr Ha Hran. unfold cache_probe. apply wp_bind, wp_gets, wp_modify. split_and!; [done| |done..].
  intros t' e' r'. simpl. rewrite assoc_dict_set. case_decide; [|apply Hc].
  intros [= <- <-]. by subst.
Qed.
(** What the walk over the candidates and the banner run of a probe show. *)
Lemma walk_found t ps w :
  wp (stat_walk t ps) (λ r w', ∀ p, r = Ret (inr (Some p)) →
    p ∈ ps ∧ answered_since w w' (stat_request t p)) w.
Proof.
  revert w. induction ps as [|p ps IH]; intros w; [done|]. cbn [stat_walk].
  apply wp_bind, wp_catch, wp_bind. eapply wp_mono; [apply rpc_answered|].
  intros [a|x|] w1 (Hq & Hi & Ha); [| |done].
  - apply wp_ret. intros p' [= <-]. split; [by left|]. by eapply Ha.
  - destruct (is_exception x); [|done]. apply wp_ret.
    destruct (is_transport_error x); [done|]. eapply wp_mono; [apply IH|].
    intros r w2 Hr p' Hp. destruct (Hr p' Hp) as [? ?]. split; [by right|].
    eapply answered_before; [done|]. rewrite Hi. by apply prefix_app_r.
Qed.
Lemma banner_answered t p w :
  wp (execute_banner_probe mcpd_for repr t p) (λ r w', ∀ b, r = Ret (true, b) →
    answered_since w w' (banner_request t p)) w.
Proof.
  unfold execute_banner_probe. apply wp_bind.
  eapply wp_mono; [apply (wp_respects (sends (λ _, False))); respects_tac|].
  intros [[]|x|] w1 Hw1; [|done..]. apply wp_bind. unfold try_some. apply wp_catch, wp_fmap.
  eapply wp_mono; [apply rpc_answered|]. intros [a|x|] w2 (_ & _ & Ha); [| |done].
  - apply wp_bind. eapply wp_mono; [apply (wp_respects (sends (λ _, False))); respects_tac|].
    intros [o|x|] w3 Hw3; [|done..]. apply wp_ret. intros b _.
    eapply sends_before; [|exact Hw1]. eapply sends_later; [|exact Hw3]. by eapply Ha.
  - destruct (is_exception x); [|done]. by repeat apply wp_ret.
Qed.
(** Leaving out the steps that only send probe requests. *)
Lemma wp_sends {A B} P (m : MB A) (k : A → MB B) (Q : res exn B → sbx S → Prop) w :
  respects (sends P) m →
  (∀ w' x, sends P w w' → Q (Raise x) w') → (∀ w', sends P w w' → Q Spin w') →
  (∀ w' a, sends P w w' → wp (k a) Q w') → wp (m ≫= k) Q w.
Proof.
  intros Hm Hx Hs Hk. apply wp_bind. eapply wp_mono; [apply (wp_respects (sends P)), Hm|].
  intros [a|x|] w' Hw; auto.
Qed.
Definition probe_post t w (r : res exn probe_result) w' : Prop :=
  cache_ok w' ∧ sent (probe_request t) w w' ∧ answered w `prefix_of` answered w' ∧
  ∀ p, r = Ret p → sound_probe t p ∧
    ∀ sv, available p = true → path p = Some sv → probed_since t sv w w'.
Lemma probed_before P t sv w w1 w2 : probed_since t sv w1 w2 → sends P w w1 → probed_since t sv w w2.
Proof. intros (? & ? & ? & ?) Hs. split_and!; [done..| |]; by eapply sends_before. Qed.
Lemma probe_post_after t w w1 r w' :
  sends (probe_request t) w w1 → probe_post t w1 r w' → probe_post t w r w'.
Proof.
  intros H1 (Hc & Hs & Ha & Hr). split_and!; [done|..].
  - eapply sent_trans; [|done]. by eapply sends_sent.
  - etrans; [apply H1|done].
  - intros p Hp. destruct (Hr p Hp) as [? Hsv]. split; [done|]. intros sv Hv Hpath.
    eapply probed_before; [by apply Hsv|done].
Qed.
(** The end of a probe that has sent the requests up to [w']. *)
Lemma probe_post_end t w r w' :
  cache_ok w' → sends (probe_request t) w w' → (∀ p, r = Ret p → sound_probe t p ∧
    ∀ sv, available p = true → path p = Some sv → probed_since t sv w w') → probe_post t w r w'.
Proof. intros Hc Hs Hr. split_and!; [done|by apply sends_sent|apply Hs|done]. Qed.
Lemma probe_post_cut t w r w' :
  cache_ok w → sends (probe_request t) w w' → (∀ p, r ≠ Ret p) → probe_post t w r w'.
Proof.
  intros Hc Hs Hr. apply probe_post_end; [by eapply cache_ok_sends|done|]. by intros p Hp%Hr.
Qed.
Lemma wp_probe_step {A} (m : MB A) (k : A → MB probe_result) t w :
  respects (sends (probe_request t)) m → cache_ok w →
  (∀ w' a, cache_ok w' → wp (k a) (probe_post t w') w') →
  wp (m ≫= k) (probe_post t w) w.
Proof.
  intros Hm Hc Hk. apply (wp_sends (probe_request t)); [done|..].
  - intros w' x Hw. by eapply probe_post_cut.
  - intros w' Hw. by eapply probe_post_cut.
  - intros w' a Hw. eapply wp_mono; [apply Hk; by eapply cache_ok_sends|].
    intros r w2. by apply probe_post_after.
Qed.
Lemma wp_unavailable t c p l m ok w w0 :
  cache_ok w → sends (probe_request t) w0 w →
  wp (mret (unavailable t c p l m ok)) (probe_post t w0) w.
Proof.
  intros Hc Hs. apply wp_ret, probe_post_end; [done..|]. intros r [= <-]. split; [|done].
  split; [done|]. by eexists.
Qed.
Lemma wp_cached t r w w0 :
  cache_ok w → sends (probe_request t) w0 w → sound_probe t r →
  available r = true ∨ code r = Some "SANDBOXVM_INCOMPATIBLE_TARGET" →
  (∀ sv, available r = true → path r = Some sv → probed_since t sv w0 w) →
  wp (cache_probe now t r;; mret r) (probe_post t w0) w.
Proof.
  intros Hc Hs Hr Ha Hp. apply wp_bind. eapply wp_mono; [apply cache_probe_spec; [done..|]|].
  - intros sv Hv Hsv. destruct (Hp sv Hv Hsv) as (_ & _ & _ & i & _ & Hi). by exists i.
  - intros x w' (-> & Hc' & Hi & Hans). apply wp_ret. split_and!; [done|..].
    + eapply sent_trans; [by apply sends_sent|by apply sent_refl].
    + rewrite Hans. apply Hs.
    + intros p [= <-]. split; [done|]. intros sv Hv Hsv.
      destruct (Hp sv Hv Hsv) as (? & ? & ? & ?). split_and!; [done..| |];
        (eapply answered_later; [done|by rewrite Hans|by rewrite Hi]).
Qed.
Lemma sandbox_probe_spec t w :
  cache_ok w → wp (sandbox_probe fl mcpd_for now repr t) (probe_post t w) w.
Proof.
  intros Hc. unfold sandbox_probe. apply wp_bind, wp_lift.
  destruct (resolve_target_machine fl t) as [m|x|] eqn:Hm; [|by eapply probe_post_cut..].
  destruct (incompatible m) eqn:Him.
  { by apply wp_cached; [..|split; [|eexists]|right|]. }
  apply wp_bind, wp_lift. destruct (target_config fl t) as [cfg|x|] eqn:Hcfg; [|by eapply probe_post_cut..].
  apply wp_probe_step; [respects_tac|done|]. clear w Hc. intros w _ Hc.
  apply wp_bind. eapply wp_mono; [apply wp_conj; [apply walk_found|apply wp_respects, (sends_walk t)]|].
  intros [hit|x|] w1 [Hstat Hw1]; [|by eapply probe_post_cut..].
  assert (cache_ok w1) as Hc1 by by eapply cache_ok_sends.
  destruct hit as [|[p|]]; [by apply wp_unavailable| |by apply wp_unavailable].
  destruct (Hstat p eq_refl) as [Hin Hst].
  apply wp_bind. eapply wp_mono; [apply wp_conj; [apply banner_answered|apply wp_respects, sends_banner]|].
  intros rb w2 [Hban Hw2]. cbv beta in Hw2.
  assert (sends (probe_request t) w w2) as Hw02 by by etrans.
  destruct rb as [[ran banner]|x|]; [|by eapply probe_post_cut..].
  assert (cache_ok w2) as Hc2 by by eapply cache_ok_sends.
  destruct ran; [|by apply wp_unavailable].
  pose proof (Hban banner eq_refl) as Hbn.
  apply wp_bind. eapply wp_mono; [apply wp_respects, sends_version|].
  intros rv w3 Hw3. cbv beta in Hw3. assert (sends (probe_request t) w w3) as Hw by by etrans.
  destruct rv as [v|x|]; [|by eapply probe_post_cut..].
  apply wp_cached; [by eapply cache_ok_sends|done|by split; [|split; [eexists|]]|by left|].
  intros sv _ [= <-]. split_and!; [by exists m|by exists cfg|..].
  - eapply sends_later; [|exact Hw3]. by eapply sends_later.
  - eapply sends_later; [|exact Hw3]. by eapply sends_before.
Qed.
(** What [_ensure_available] returns: a cached result that has not expired, at
    no request, or the result of a probe it made. *)
Definition cached_now t (sv : string) w : Prop :=
  ∃ e p, assoc t (probes w) = Some (e, p) ∧ now (svc (hst w)) < e ∧ available p = true ∧
    path p = Some sv.
Definition ensured t w (r : res exn probe_result) w' : Prop :=
  cache_ok w' ∧ sent (probe_request t) w w' ∧ ∀ p, r = Ret p →
    sound_probe t p ∧ available p = true ∧ ∀ sv, path p = Some sv →
      cached_now t sv w ∧ issued w' = issued w ∨ probed_since t sv w w'.
Lemma ensure_spec t w :
  cache_ok w → wp (ensure_available fl mcpd_for now repr t) (ensured t w) w.
Proof.
  intros Hc. unfold ensure_available. apply wp_bind. unfold wp at 1, get. simpl.
  assert (wp (res ← sandbox_probe fl mcpd_for now repr t;
              if available res then mret res else raise (not_usable t res)) (ensured t w) w) as Hprobe.
  { apply wp_bind. eapply wp_mono; [by apply sandbox_probe_spec|].
    intros [p|x|] w' (Hc' & Hs & _ & Hp); [|by split_and!..].
    destruct (Hp p eq_refl) as [Hsound Hsv].
    destruct (available p) eqn:Ha; [apply wp_ret|by apply wp_raise; split_and!].
    split_and!; [done..|]. intros p' [= <-]. split_and!; [done..|]. intros sv Hpath. right. by apply Hsv. }
  destruct (assoc t (probes w)) as [[e r]|] eqn:Hr; [|done].
  destruct (_ && available r) eqn:Ha; [|done]. apply andb_true_iff in Ha as [Hlt%Z.ltb_lt Ha].
  apply wp_ret. split_and!; [done|by apply sent_refl|]. intros p [= <-].
  split_and!; [by destruct (Hc _ _ _ Hr)|done|]. intros sv Hpath. left. split; [|done]. by exists e, r.
Qed.

(** *** Runs *)

(** Requests sent one after the other, possibly cut short. *)
Definition steps (l : list request) w w' : Prop :=
  quiet w w' ∧ ∃ l', issued w' = issued w ++ l' ∧ l' `prefix_of` l.
Definition all_steps (l : list request) w w' : Prop :=
  quiet w w' ∧ issued w' = issued w ++ l.
(** A result [m] reaches only after all of [l]. *)
Definition does {A} (l : list request) (m : MB A) : Prop := ∀ w,
  wp m (λ r w', match r with Ret _ => all_steps l w w' | _ => steps l w w' end) w.

Lemma steps_all l w w' : all_steps l w w' → steps l w w'.
Proof. intros [Hp Hi]. split; [done|]. by exists l. Qed.
Lemma does_ret {A} (a : A) : does [] (mret a).
Proof. intros w. split; [done|]. by rewrite app_nil_r. Qed.
Lemma does_raise {A} l x : does l (raise x : MB A).
Proof. intros w. split; [done|]. exists []. rewrite app_nil_r. split; [done|apply prefix_nil]. Qed.
Lemma does_lift {A} (r : res exn A) : does [] (lift r).
Proof.
  intros w. destruct r; (split; [done|]); try exists []; rewrite ?app_nil_r; try done.
Qed.
Lemma does_bind {A B} l1 l2 (m : MB A) (k : A → MB B) :
  does l1 m → (∀ a, does l2 (k a)) → does (l1 ++ l2) (m ≫= k).
Proof.
  intros Hm Hk w. apply wp_bind. eapply wp_mono; [apply Hm|]. intros [a|x|] w1 H1.
  - eapply wp_mono; [apply Hk|]. destruct H1 as [Hp1 Hi1].
    intros [b|x|] w2; [intros [Hp2 Hi2]|intros [Hp2 (l' & Hi2 & Hl')]..].
    + split; [by etrans|]. by rewrite Hi2, Hi1, (assoc_L (++)).
    + split; [by etrans|]. exists (l1 ++ l'). split; [by rewrite Hi2, Hi1, (assoc_L (++))|].
      by apply prefix_app.
    + split; [by etrans|]. exists (l1 ++ l'). split; [by rewrite Hi2, Hi1, (assoc_L (++))|].
      by apply prefix_app.
  - destruct H1 as [Hp (l' & Hi & Hl)]. split; [done|]. exists l'. split; [done|].
    by apply prefix_app_r.
  - destruct H1 as [Hp (l' & Hi & Hl)]. split; [done|]. exists l'. split; [done|].
    by apply prefix_app_r.
Qed.
Lemma does_service {A} (m : M S exn A) : does [] (on_service m).
Proof.
  intros w. unfold wp, on_service, on_host. destruct (on_svc m (hst w)) as [[a|x|] h];
    (split; [done|]); try exists []; simpl; by rewrite ?app_nil_r.
Qed.
Lemma does_rpc t m j to : does [(t, (m, j))] (rpc t m j to).
Proof.
  intros w. eapply wp_mono; [apply rpc_spec|].
  intros [a|x|] w' [Hp Hi]; (split; [done|]); try (by exists [(t, (m, j))]). done.
Qed.
(** A [try] whose body sends everything or nothing still does it all. *)
Lemma does_catch {A} l (m : MB A) h :
  (∀ w, wp m (λ _ w', all_steps l w w') w) → (∀ e, does [] (h e)) → does l (catch m h).
Proof.
  intros Hm Hh w. apply wp_catch. eapply wp_mono; [apply Hm|].
  intros [a|x|] w1 H1; [done| |by apply steps_all]. destruct H1 as [Hp1 Hi1].
  eapply wp_mono; [apply Hh|].
  intros [b|y|] w2; [intros [Hp2 Hi2]|intros [Hp2 (l' & Hi2 & Hl')]..].
  - split; [by etrans|]. by rewrite Hi2, Hi1, app_nil_r.
  - apply prefix_nil_inv in Hl'. subst. apply steps_all. split; [by etrans|].
    by rewrite Hi2, Hi1, app_nil_r.
  - apply prefix_nil_inv in Hl'. subst. apply steps_all. split; [by etrans|].
    by rewrite Hi2, Hi1, app_nil_r.
Qed.
(** The target has an enabled MCPd channel: [fleet.mcpd] returns. *)
Definition has_mcpd (t : string) : Prop := ∀ s, (mcpd_for t s).1 = Ret tt.
Lemma mcpd_run t w : has_mcpd t →
  wp (mcpd_of mcpd_for t) (λ r w', r = Ret tt ∧ all_steps [] w w') w.
Proof.
  intros Ht. unfold wp, mcpd_of, on_service, on_host, on_svc. pose proof (Ht (svc (hst w))) as Hr.
  destruct (mcpd_for t (svc (hst w))) as [r s]. simpl in *. subst.
  by split_and!; [|split; [|rewrite app_nil_r]].
Qed.
Lemma mcpd_rpc_all {A} t m j to (k : json → A) w : has_mcpd t →
  wp (k <$> (mcpd_of mcpd_for t;; rpc t m j to)) (λ _ w', all_steps [(t, (m, j))] w w') w.
Proof.
  intros Ht. apply wp_fmap, wp_bind. eapply wp_mono; [by apply mcpd_run|].
  intros r w1 (-> & Hp1 & Hi1). eapply wp_mono; [apply rpc_spec|].
  rewrite app_nil_r in Hi1. intros [a|x|] w2 [Hp2 Hi2]; (split; [by etrans|congruence]).
Qed.
Lemma does_mcpd t : has_mcpd t → does [] (mcpd_of mcpd_for t).
Proof. intros Ht w. eapply wp_mono; [by apply mcpd_run|]. by intros r w' (-> & Hw). Qed.
Lemma does_read t p : has_mcpd t →
  does [(t, ("fs.read", path_params p))] (read_capture mcpd_for utf8_replace t p).
Proof.
  intros Ht. unfold read_capture. apply (does_bind [_] []).
  - apply does_catch; [intros; by apply mcpd_rpc_all|]. intros e.
    destruct (is_target_error e); [apply does_ret|apply does_raise].
  - intros [raw|]; [|apply does_ret]. apply (does_bind [] []); [apply does_lift|].
    intros c. apply does_ret.
Qed.
Lemma does_delete t p : has_mcpd t →
  does [(t, ("fs.delete", path_params p))] (delete_capture mcpd_for t p).
Proof.
  intros Ht. unfold delete_capture, try_some. apply (does_bind [_] []); [|intros; apply does_ret].
  apply does_catch; [intros; by apply mcpd_rpc_all|]. intros e.
  destruct (is_exception e); [apply does_ret|apply does_raise].
Qed.
Lemma does_collect t name : has_mcpd t →
  does (capture_requests t name) (collect mcpd_for utf8_replace t name).
Proof.
  intros Ht. unfold collect, capture_requests.
  apply (does_bind [_] [_; _; _]); [by apply does_read|]. intros o.
  apply (does_bind [_] [_; _]); [by apply does_read|]. intros e.
  apply (does_bind [_] [_]); [by apply does_delete|]. intros _.
  apply (does_bind [_] []); [by apply does_delete|]. intros _. apply does_ret.
Qed.
Lemma sends_ring t n : respects (sends (eq (ring_request t))) (sys_debug_ring mcpd_for repr t n).
Proof.
  unfold sys_debug_ring. apply (respects_bind _); [respects_tac|]. intros _.
  apply (respects_bind _); [by apply sends_rpc|]. intros raw. respects_tac.
Qed.
Lemma sends_trap_attempts t n d i more :
  respects (sends (eq (ring_request t))) (trap_attempts mcpd_for repr t n d i more).
Proof.
  revert i. induction more as [|more IH]; intros i; simpl;
    (apply (respects_bind _); [apply sends_ring|]; intros lines;
     destruct (extract_trap lines) as [[[kind fp] hex] block]; destruct block; respects_tac).
Qed.
Lemma sends_last_trap t n k d :
  respects (sends (eq (ring_request t))) (sandbox_last_trap mcpd_for repr t n k d).
Proof. apply sends_trap_attempts. Qed.

(** The request [q] is one of [ps], sent right after [w], and a result came
    back for it. *)
Definition answered_in w w' (ps : list request) (q : request) : Prop :=
  ∃ i, ps !! i = Some q ∧ (length (issued w) + i)%nat ∈ answered w'.
(** The probe [ps] of this run found [sv] on a machine SandboxVM runs on: both
    the [fs.stat] of this candidate and the run of it were answered. *)
Definition probed_in t (sv : string) w w' (ps : list request) : Prop :=
  (∃ m, resolve_target_machine fl t = Ret m ∧ incompatible m = false) ∧
  (∃ cfg, target_config fl t = Ret cfg ∧ sv ∈ candidate_target_paths cfg) ∧
  answered_in w w' ps (stat_request t sv) ∧ answered_in w w' ps (banner_request t sv).
(** What a guest run leaves: probe requests, then the run, in this order and
    possibly cut short, then readings of the debug ring. *)
Definition run_requests (t : string) (cmd name : text) (timeout : Z) : list request :=
  (t, ("exec.cmd", exec_params cmd timeout [])) :: capture_requests t name.
Definition run_trace (t : string) (timeout : Z) w (r : res exn guest_result) w' : Prop :=
  cache_ok w' ∧
  ∃ ps run rings cmd name, issued w' = issued w ++ ps ++ run ++ rings ∧
    Forall (probe_request t) ps ∧ run `prefix_of` run_requests t cmd name timeout ∧
    Forall (eq (ring_request t)) rings ∧ (rings ≠ [] → run = run_requests t cmd name timeout) ∧
    (run ≠ [] → ∃ sv rest, cmd = quoted (txt sv) ++ rest ∧
       (cached_now t sv w ∧ ps = [] ∨ probed_in t sv w w' ps)) ∧
    ∀ g, r = Ret g → run = run_requests t cmd name timeout ∧ gr_command g = cmd ∧ gr_name g = name.
Lemma does_locked t cmd name timeout : has_mcpd t →
  does (run_requests t cmd name timeout) (run_locked mcpd_for repr utf8_replace t cmd name timeout).
Proof.
  intros Ht. unfold run_locked. apply (does_bind [] (_ :: _)); [by apply does_mcpd|]. intros _ w.
  apply wp_bind, wp_catch. eapply wp_mono; [apply rpc_spec|].
  assert (∀ w1 w2, all_steps [(t, ("exec.cmd", exec_params cmd timeout []))] w w1 →
    steps (capture_requests t name) w1 w2 → steps (run_requests t cmd name timeout) w w2) as Hsteps.
  { intros w1 w2 [Hp1 Hi1] [Hp2 (l & Hi2 & Hl)]. split; [by etrans|].
    exists ((t, ("exec.cmd", exec_params cmd timeout [])) :: l). split.
    - rewrite Hi2, Hi1. by rewrite <-(assoc_L (++)).
    - by apply prefix_cons. }
  assert (∀ w1 w2, all_steps [(t, ("exec.cmd", exec_params cmd timeout []))] w w1 →
    all_steps (capture_requests t name) w1 w2 → all_steps (run_requests t cmd name timeout) w w2) as Hall.
  { intros w1 w2 [Hp1 Hi1] [Hp2 Hi2]. split; [by etrans|].
    rewrite Hi2, Hi1. by rewrite <-(assoc_L (++)). }
  pose proof (does_collect t name Ht) as Hcol.
  intros [raw|x|] w1 H1.
  - assert (does (capture_requests t name) (c ← lift (get_or "exit_code" (JNum 0) raw);
      rc ← lift (py_int c); o ← lift (get_or "output" (JStr "") raw);
      caps ← collect mcpd_for utf8_replace t name; mret (rc, py_str repr o, caps))) as Hrest.
    { apply (does_bind [] (capture_requests t name)); [apply does_lift|]. intros c.
      apply (does_bind [] (capture_requests t name)); [apply does_lift|]. intros rc.
      apply (does_bind [] (capture_requests t name)); [apply does_lift|]. intros o.
      rewrite <-(app_nil_r (capture_requests t name)).
      apply does_bind; [done|]. intros caps. apply does_ret. }
    eapply wp_mono; [apply Hrest|]. intros [a|y|] w2 H2; eauto.
  - assert (steps (run_requests t cmd name timeout) w w1) as Hcut.
    { eapply Hsteps; [exact H1|]. split; [done|]. exists []. rewrite app_nil_r.
      split; [done|apply prefix_nil]. }
    destruct (is_exception x); [|by apply wp_raise].
    apply wp_bind. eapply wp_mono; [apply Hcol|]. intros [caps|y|] w2 H2; [apply wp_raise|..]; eauto.
    eapply Hsteps; [done|]. by apply steps_all.
  - eapply Hsteps; [exact H1|]. split; [done|]. exists []. rewrite app_nil_r.
    split; [done|apply prefix_nil].
Qed.

Lemma answered_since_in w w1 w' ps q :
  issued w1 = issued w ++ ps → answered_since w w1 q → answered w1 `prefix_of` answered w' →
  answered_in w w' ps q.
Proof.
  intros Hi (i & Hle & Hq & Hin) [l Ha]. exists (i - length (issued w))%nat. split.
  - rewrite Hi, lookup_app_r in Hq by done. done.
  - rewrite Ha. replace (_ + _)%nat with i by lia. apply elem_of_app; by left.
Qed.
(** The gate of a run, from what [_ensure_available] returned. *)
Lemma gate_later t sv w w1 w2 ps :
  cached_now t sv w ∧ issued w1 = issued w ∨ probed_since t sv w w1 →
  issued w1 = issued w ++ ps → quiet w1 w2 →
  cached_now t sv w ∧ ps = [] ∨ probed_in t sv w w2 ps.
Proof.
  intros [[Hc Hi]|(Hm & Hcand & Hst & Hbn)] Hps [_ Ha].
  - left. split; [done|]. rewrite Hps in Hi. apply (f_equal length) in Hi.
    rewrite length_app in Hi. destruct ps; [done|simpl in Hi; lia].
  - right. split_and!; [done..| |]; by eapply answered_since_in.
Qed.
Lemma run_trace_gate t timeout w r0 w1 (r : res exn guest_result) :
  ensured t w r0 w1 → (∀ g, r ≠ Ret g) → run_trace t timeout w r w1.
Proof.
  intros (Hc & (ps & Hi & Hps) & _) Hr. split; [done|].
  exists ps, [], [], [], []. rewrite !app_nil_r. split_and!; [done|done|apply prefix_nil|done|done|done|].
  intros g ->. by destruct (Hr g).
Qed.
Lemma run_trace_cut t timeout w w1 w2 cmd name ps sv rest (r : res exn guest_result) :
  cache_ok w1 → issued w1 = issued w ++ ps → Forall (probe_request t) ps →
  cached_now t sv w ∧ issued w1 = issued w ∨ probed_since t sv w w1 → cmd = quoted (txt sv) ++ rest →
  steps (run_requests t cmd name timeout) w1 w2 → (∀ g, r ≠ Ret g) →
  run_trace t timeout w r w2.
Proof.
  intros Hc Hi Hps Hgate Hcmd [Hpr (l & Hi2 & Hl)] Hr. split.
  { eapply cache_ok_quiet; [done..|]. rewrite Hi2. by apply prefix_app_r. }
  exists ps, l, [], cmd, name. rewrite app_nil_r.
  split_and!; [by rewrite Hi2, Hi, (assoc_L (++))|done|done|done|done| |].
  - intros _. exists sv, rest. split; [done|]. by eapply gate_later.
  - intros g ->. by destruct (Hr g).
Qed.
Lemma run_trace_done t timeout w w1 w2 w3 cmd name ps sv rest (r : res exn guest_result) :
  cache_ok w1 → issued w1 = issued w ++ ps → Forall (probe_request t) ps →
  cached_now t sv w ∧ issued w1 = issued w ∨ probed_since t sv w w1 → cmd = quoted (txt sv) ++ rest →
  all_steps (run_requests t cmd name timeout) w1 w2 → sends (eq (ring_request t)) w2 w3 →
  (∀ g, r = Ret g → gr_command g = cmd ∧ gr_name g = name) →
  run_trace t timeout w r w3.
Proof.
  intros Hc Hi Hps Hgate Hcmd [Hpr Hi2] [Hpr3 (rings & Hi3 & Hrings)] Hr.
  assert (quiet w1 w3) as Hq by by etrans. split.
  { eapply cache_ok_quiet; [done..|]. rewrite Hi3, Hi2, <-(assoc_L (++)). by apply prefix_app_r. }
  exists ps, (run_requests t cmd name timeout), rings, cmd, name.
  split_and!; [|done|done|done|done| |].
  - rewrite Hi3, Hi2, Hi. by rewrite <-!(assoc_L (++)).
  - intros _. exists sv, rest. split; [done|]. by eapply gate_later.
  - intros g Hg. split; [done|]. by apply Hr.
Qed.

(** C3: a guest run starts only behind the gate: with the command line of a
    binary for which either the cache held, for this target and not yet
    expired, an available result (and then nothing is asked first), or the
    probe this very run made had, from the target, an answer to the [fs.stat]
    of that candidate and an answer to a run of it, on a machine that is not
    one SandboxVM cannot run on.  The run sends nothing but probe requests
    before that, then the command, the two capture reads and the two capture
    deletions in this order (cut short only when one of them raises), and
    reads the debug ring only afterwards; a result is returned only when both
    captures were read and deleted; the cache keeps only results for the
    target they are stored under, and an available one only for a binary the
    target has answered a run of. *)
Theorem run_sandboxvm_gated t guest args extmem window deny name timeout resident test w :
  has_mcpd t → cache_ok w →
  wp (run_sandboxvm fl mcpd_for now repr utf8_replace t guest args extmem window deny name timeout
        resident test) (run_trace t timeout w) w.
Proof.
  intros Ht Hc. unfold run_sandboxvm. apply wp_bind. eapply wp_mono; [by apply ensure_spec|].
  intros [p|x|] w1 Hens; [|by eapply run_trace_gate..].
  pose proof Hens as (Hc1 & (ps & Hi1 & Hps) & Hp).
  destruct (Hp p eq_refl) as (Hsound & Hav & Hgate).
  destruct (path p) as [sv|] eqn:Hsv.
  2: { destruct Hsound as [_ Hs]. rewrite Hav, Hsv in Hs. by destruct Hs as [[? ?] _]. }
  specialize (Hgate sv eq_refl). assert (probe_path p = (mret sv : MB string)) as -> by (unfold probe_path; by rewrite Hsv).
  apply wp_bind, wp_ret, wp_bind, wp_lift.
  destruct (target_config fl t) as [cfg|x|]; [|by eapply run_trace_gate..].
  set (run_name := default (derive_guest_name guest) (truthy_text name)).
  set (cmd := build_command _ _ _ _ _ _ _ _ _ _).
  assert (∃ rest, cmd = quoted (txt sv) ++ rest) as [rest Hcmd]
    by (unfold cmd, build_command; simpl; eexists; reflexivity).
  apply wp_bind. eapply wp_mono; [by apply does_locked|].
  intros [[[rc wrapper] [[o ot] [e et]]]|x|] w2 H2; [|by eapply run_trace_cut..].
  eapply wp_mono; [apply wp_conj; [apply (wp_respects (sends (eq (ring_request t))))|]|].
  - destruct (classify_exit rc e) as [kind fp].
    apply (respects_bind _); [|intros [? ?]; respects_tac].
    destruct (_ && _); [|respects_tac].
    apply (respects_bind _); [apply sends_last_trap|intros ?; respects_tac].
  - instantiate (1 := λ r _, ∀ g, r = Ret g → gr_command g = cmd ∧ gr_name g = run_name).
    destruct (classify_exit rc e) as [kind fp]. apply wp_bind.
    eapply (wp_mono _ (λ _ _, True)); [done|]. intros [[k f]|y|] w3 _; [|done..].
    apply wp_ret. by intros g [= <-].
  - intros r w3 [Hrings Hg]. by eapply run_trace_done.
Qed.

(** *** Batches *)

Lemma batch_entries_spec t batch exits usable n idx specs w :
  wp (batch_entries mcpd_for utf8_replace t batch exits usable n idx specs) (λ r _, ∀ es, r = Ret es →
    length es = length specs ∧
    ∀ i s e, specs !! i = Some s → es !! i = Some e →
      be_guest e = bs_guest s ∧ be_name e = guest_name batch (idx + i) s ∧
      (be_exit e, exit_code_known e) = exit_of exits usable n (idx + i) ∧
      (be_kind e, be_fingerprint e) = classify_exit (be_exit e) (be_stderr e)) w.
Proof.
  revert idx w. induction specs as [|s specs IH]; intros idx w; cbn [batch_entries].
  { apply wp_ret. intros es [= <-]. by split. }
  apply wp_bind. eapply (wp_mono _ (λ _ _, True)); [done|].
  intros [[[o ot] [e et]]|x|] w1 _; [|done..].
  destruct (exit_of exits usable n idx) as [rc known] eqn:Hx.
  apply wp_bind. eapply wp_mono; [apply (IH (Datatypes.S idx))|].
  intros [es|x|] w2 Hes; [|done..]. apply wp_ret. intros es' [= <-].
  destruct (Hes es eq_refl) as [Hlen Hall]. split; [simpl; by rewrite Hlen|].
  intros [|i] s' e' Hs He; simplify_eq/=.
  - by rewrite Nat.add_0_r, Hx.
  - rewrite Nat.add_succ_r. by apply (Hall i).
Qed.

(** a batch reports one entry per guest, in order and under the name its
    captures have; exit codes come from the last exit lines of the debug ring
    as [exit_of] aligns them, and are marked unknown, for every guest, when
    the ring does not report on the daemon; [all_clean] requires SandboxVM's
    own status and every reported code to be 0. *)
Theorem run_batch_entries t guests extmem window deny name timeout priority w :
  wp (sandbox_run_batch fl mcpd_for now repr utf8_replace t guests extmem window deny name timeout
        priority) (λ r _, ∀ b, r = Ret b →
    (0 < length guests ≤ 16)%nat ∧ length (entries b) = length guests ∧
    (∃ ring, br_ring_usable b = ring_reports_daemon ring ∧
       ∀ i s e, guests !! i = Some s → entries b !! i = Some e →
         be_guest e = bs_guest s ∧ be_name e = guest_name (batch_name b) i s ∧
         (be_exit e, exit_code_known e) =
           exit_of (parse_per_guest_exits ring (length guests)) (br_ring_usable b) (length guests) i) ∧
    (br_ring_usable b = false → Forall (λ e, exit_code_known e = false) (entries b)) ∧
    (all_clean b = true ↔ aggregate_exit_code b = 0 ∧ Forall (λ e, be_exit e = 0) (entries b))) w.
Proof.
  unfold sandbox_run_batch. case_bool_decide as Hne; [done|].
  destruct (SANDBOXVM_MAX_GUESTS <? length guests)%nat eqn:Hmax; [done|].
  apply Nat.ltb_ge in Hmax.
  assert (0 < length guests)%nat as Hpos by (destruct guests; [done|simpl; lia]).
  do 7 (apply wp_bind; eapply (wp_mono _ (λ _ _, True)); [done|]; intros [?|?|] ? _; [|done..]).
  apply wp_bind. eapply (wp_mono _ (λ _ _, True)); [done|]. intros [ring|x|] w1 _; [|done..].
  apply wp_bind. eapply wp_mono; [apply batch_entries_spec|]. intros [es|x|] w2 Hes; [|done..].
  apply wp_ret. intros b [= <-]. simpl. destruct (Hes es eq_refl) as [Hlen Hall].
  split_and!; [done|done|done|..].
  - exists ring. split; [done|]. intros i s e Hs He. destruct (Hall i s e Hs He) as (? & ? & ? & _).
    by split_and!.
  - intros Husable. apply Forall_lookup_2. intros i e He.
    destruct (lookup_lt_is_Some_2 guests i) as [s Hs].
    { rewrite <-Hlen. by eapply lookup_lt_Some. }
    destruct (Hall i s e Hs He) as (_ & _ & Hx & _). unfold exit_of in Hx.
    rewrite Husable in Hx. by simplify_eq/=.
  - rewrite andb_true_iff, Z.eqb_eq.
    assert (forallb (λ e, be_exit e =? 0) es = true ↔ Forall (λ e, be_exit e = 0) es) as ->; [|done].
    clear. induction es as [|e es IH]; simpl; [by split|].
    rewrite andb_true_iff, Forall_cons, IH, Z.eqb_eq. done.
Qed.
End lemmas.
#[export] Hint Resolve sends_host sends_service sends_mcpd sends_clock sends_get : respects.

(** The exit lines a ring shows, among other lines. *)
Inductive ring_shows : list text → list (text * Z) → Prop :=
| shows_nil : ring_shows [] []
| shows_noise l ring es : search guest_exit_at l = None → ring_shows ring es →
    ring_shows (l :: ring) es
| shows_exit p rc ring es : is_path p → ring_shows ring es →
    ring_shows (exit_line p rc :: ring) ((p, rc) :: es).
Lemma ring_shows_exits ring es : ring_shows ring es → guest_exits ring = es.
Proof.
  unfold guest_exits. induction 1 as [|l ring es Hl _ IH|p rc ring es Hp _ IH]; [done|..];
    cbn [omap list_omap].
  - by rewrite Hl.
  - rewrite guest_exit_line by done. by f_equal.
Qed.
Lemma ring_shows_usable ring es : ring_shows ring es → es ≠ [] → ring_reports_daemon ring = true.
Proof.
  unfold ring_reports_daemon.
  induction 1 as [|l ring es Hl _ IH|p rc ring es Hp _ IH]; intros Hne; [done|..]; cbn [existsb];
    apply orb_true_iff; [right; by apply IH|left].
  apply orb_true_iff. by right.
Qed.

(** when the ring shows the exit lines of this batch's guests, all of
    them (whatever came before) or all but the first [k] that it lost (and
    then nothing older), every code it shows is attributed to the guest it
    belongs to and marked known, and every lost one is marked unknown. *)
Theorem batch_exits_exact ring old batch k idx e :
  ring_shows ring (old ++ drop k batch) → (k ≤ length batch)%nat → k = 0%nat ∨ old = [] →
  batch !! idx = Some e →
  exit_of (parse_per_guest_exits ring (length batch)) (ring_reports_daemon ring) (length batch) idx =
    if decide (k ≤ idx)%nat then (e.2, true) else (0, false).
Proof.
  intros Hring Hk Hold He. pose proof (lookup_lt_Some _ _ _ He) as Hidx.
  assert (parse_per_guest_exits ring (length batch) = drop k batch) as Hexits.
  { unfold parse_per_guest_exits, last_n. rewrite (proj2 (Nat.ltb_lt 0 (length batch))) by lia.
    rewrite (ring_shows_exits _ _ Hring). destruct Hold as [->| ->].
    - rewrite drop_0, drop_app_length'; [done|]. rewrite length_app. lia.
    - simpl. rewrite length_drop. replace (_ - _ - _)%nat with 0%nat by lia. done. }
  unfold exit_of. rewrite Hexits, length_drop.
  replace (length batch - (length batch - k))%nat with k by lia. case_decide as Hki.
  - rewrite (ring_shows_usable _ _ Hring).
    2: { intros [_ Hnil]%app_eq_nil. apply (f_equal length) in Hnil. rewrite length_drop in Hnil.
         simpl in Hnil. lia. }
    rewrite (proj2 (Nat.leb_le k idx)) by done. simpl. rewrite lookup_drop.
    replace (k + (idx - k))%nat with idx by lia. by rewrite He.
  - rewrite (proj2 (Nat.leb_gt k idx)) by lia. by rewrite andb_false_r.
Qed.

(** An older batch's line still in the ring is taken for the code of a guest
    whose own line is missing. *)
Example stale_exit :
  exit_of (parse_per_guest_exits [exit_line (txt "RAM:old") 5; exit_line (txt "RAM:b") 0] 2) true 2 0
  = (5, true).
Proof. vm_compute. reflexivity. Qed.
Lemma batch_exits_exact_witness :
  exit_of (parse_per_guest_exits [txt "[gpu] ready"; exit_line (txt "RAM:b") (- 768)] 2) true 2 1
  = (- 768, true).
Proof.
  apply (batch_exits_exact [txt "[gpu] ready"; exit_line (txt "RAM:b") (- 768)] []
    [(txt "RAM:a", 0); (txt "RAM:b", - 768)] 1 1 (txt "RAM:b", - 768)).
  - apply shows_noise; [vm_compute; reflexivity|]. apply shows_exit; [|constructor].
    split; [discriminate|]. repeat constructor.
  - simpl. lia.
  - by right.
  - reflexivity.
Defined.

(* ------------------------------------------------------------------ *)
(** ** Examples *)

(** A target where every method answers, and one whose requests time out. *)
Definition ex_call (_ method : string) (_ : json) (_ : Z) : M unit exn json :=
  if bool_decide (method = "exec.cmd"%string) then
    mret (JObj [("exit_code", JNum 0); ("output", JStr "sandboxvm 1.1 (05.05.2026)")])
  else if bool_decide (method = "fs.read"%string) then
    mret (JObj [("content_b64", JStr (str (py_b64encode (txt "hello"))))])
  else mret (JObj []).
#[local] Instance ex_rpc : Rpc unit := {| call := ex_call; pause _ := mret tt |}.
Definition ex_mcpd (_ : string) : M unit exn unit := mret tt.
Definition ex_fleet : Fleet := Fleet_init ex_config.
Definition ex_now (_ : unit) : Z := 1000.
Definition ex_w : sbx unit := Sbx [] [] [] (Host ∅ tt).
Lemma ex_cache_ok : cache_ok ex_w.
Proof. intros t e r. done. Qed.
Lemma run_sandboxvm_gated_witness :
  wp (run_sandboxvm ex_fleet ex_mcpd ex_now (λ _, []) id "x5000" (txt "RAM:tests/hello.elf") [] None None
        [] None 120000 false None) (run_trace ex_fleet ex_now "x5000" 120000 ex_w) ex_w.
Proof.
  apply (run_sandboxvm_gated ex_fleet ex_mcpd ex_now (λ _, []) id "x5000" (txt "RAM:tests/hello.elf")
    [] None None [] None 120000 false None ex_w).
  - intros s. reflexivity.
  - exact ex_cache_ok.
Defined.
Example run_guest_output :
  (λ g, (gr_name g, exit_code g, stdout g)) <$>
    match (run_sandboxvm ex_fleet ex_mcpd ex_now (λ _, []) id "x5000" (txt "RAM:tests/hello.elf") [] None
             None [] None 120000 false None ex_w).1 with Ret g => Some g | _ => None end
  = Some (txt "hello", 0, txt "hello").
Proof. vm_compute. reflexivity. Qed.

(** The report of a request that timed out carries no endpoint, so a target
    that does not answer at all is reported as one without the binary. *)
Definition ex_timeout : exn :=
  ERpc TargetError (Some (JObj [("method", JStr "fs.stat"); ("may_have_run", JBool true)])).
Example timeout_reads_as_missing :
  code <$> match (sandbox_probe (H := {| call _ _ _ _ := raise ex_timeout; pause _ := mret tt |})
                    ex_fleet ex_mcpd ex_now (λ _, []) "x5000" ex_w).1 with Ret p => Some p | _ => None end
  = Some (Some "SANDBOXVM_MISSING"%string).
Proof. vm_compute. reflexivity. Qed.
(** A trap reported through the exit code is not an [exit]. *)
Example trap_ends_as_exit :
  (end_reason_of (- 768), (classify_exit (- 768) []).1) = (txt "exit", Some (txt "DSI")).
Proof. reflexivity. Qed.
