(* ===== verification/Exec.v ===== *)
(** * Jobs: [tools/exec.py]

    Running AmigaDOS commands as tracked jobs, plain or under SandboxVM, and
    reading, listing and stopping them. *)
From S2P Require Import Prelude Py Bytes Config Fleet Fs Lines SandboxText Sandbox.

(** [ExecResult], [JobStatus], [JobOutput] and [KillResult], with the fields
    callers branch on. *)
Record exec_result := ExecRes {
  output : string; x_exit_code : option Z; x_truncated : bool; x_job_id : option Z; x_state : string;
  result2 : option Z; pid : option Z; x_priority : option Z; elapsed_ms : option Z;
  x_sandbox : option job_info }.
Record job_status := JobStatus { js_job_id : Z; js_state : string; js_exit_code : option Z }.
Record job_output := JobOutput {
  jo_job_id : Z; jo_state : string; jo_exit_code : option Z; jo_output : string; jo_offset : Z;
  jo_bytes : Z; total_bytes : Z; eof : bool }.
Record kill_result := KillResult {
  k_job_id : Z; k_state : string; k_exit_code : option Z; signal : string; k_sent : bool;
  exited : bool; forced : bool }.

(** Validated fields: required, with a default, and optional ones. *)
Definition need_bool (k : string) (j : json) : res exn bool :=
  match jget k j with Some (JBool b) => Ret b | _ => Raise (EPy ValidationError) end.
Definition dflt_bool (k : string) (d : bool) (j : json) : res exn bool :=
  match jget k j with None => Ret d | Some (JBool b) => Ret b | _ => Raise (EPy ValidationError) end.
Definition dflt_str (k d : string) (j : json) : res exn string :=
  match jget k j with None => Ret d | Some (JStr s) => Ret s | _ => Raise (EPy ValidationError) end.
Definition opt_int (k : string) (d : option Z) (j : json) : res exn (option Z) :=
  match jget k j with
  | None => Ret d
  | Some JNull => Ret None
  | Some (JNum z) => Ret (Some z)
  | _ => Raise (EPy ValidationError)
  end.

(** The sandbox arguments of [exec_cmd]. *)
Record sandbox_args := SandboxArgs {
  sa_extmem : option Z; sa_window : option Z; sa_deny : list text; sa_time_limit : option Z }.

Section exec.
Context {S : Type} `{Rpc S}.
Context (fl : Fleet) (mcpd_for : string → M S exn unit) (now : S → Z) (token_hex : nat → M S exn text).
Context (repr : json → text) (utf8_replace : bytes → text).
Abbreviation MB := (M (sbx S) exn).

Definition exec_validate (raw : json) : MB exec_result :=
  o ← lift (need_str "output" raw);
  c ← lift (opt_int "exit_code" (Some 0) raw);
  t ← lift (dflt_bool "truncated" false raw);
  i ← lift (opt_int "job_id" None raw);
  s ← lift (dflt_str "state" "exited" raw);
  r2 ← lift (opt_int "result2" None raw);
  p ← lift (opt_int "pid" None raw);
  pr ← lift (opt_int "priority" None raw);
  el ← lift (opt_int "elapsed_ms" None raw);
  mret (ExecRes o c t i s r2 p pr el None).
Definition with_sandbox (r : exec_result) (j : job_info) : exec_result :=
  ExecRes (output r) (x_exit_code r) (x_truncated r) (x_job_id r) (x_state r) (result2 r) (pid r)
    (x_priority r) (elapsed_ms r) (Some j).
(** The [exec.cmd] parameters, in the order they are set. *)
Definition cmd_params (command : text) (timeout : Z) (sandboxed : bool) (args : list text)
    (cwd : option string) (pri : option Z) (return_running : bool) : json :=
  exec_params command timeout (
    opt_param "sandboxed" (if sandboxed then Some (JBool true) else None) ++
    opt_param "args" (if args is [] then None else Some (JArr (map (λ a, JStr (str a)) args))) ++
    opt_param "cwd" (JStr <$> truthy cwd) ++
    opt_param "priority" (JNum <$> pri) ++
    opt_param "return_running" (if return_running then Some (JBool true) else None)).
(** [exec_cmd]; [sandboxed] holds the sandbox arguments of [sandbox=True]. *)
Definition exec_cmd (target : string) (command : text) (args : list text) (cwd : option string)
    (timeout : Z) (priority : option Z) (return_running : bool) (sandboxed : option sandbox_args)
    : MB exec_result :=
  mcpd_of mcpd_for target;;
  job ← (match sandboxed with
         | Some a => Some <$> sandbox_job_command fl mcpd_for now token_hex repr target command args
                                (sa_extmem a) (sa_window a) (sa_deny a) (sa_time_limit a)
         | None => mret None
         end);
  let cmd := match job with Some j => fst j | None => command end in
  raw ← rpc target "exec.cmd"
          (cmd_params cmd timeout (bool_decide (is_Some sandboxed))
             (if job is Some _ then [] else args) cwd (job_priority fl priority) return_running)
          (Z.max (timeout + 5000) 30000);
  result ← exec_validate raw;
  match job with
  | None => mret result
  | Some j =>
      info ← sandbox_job_result mcpd_for repr utf8_replace target (snd j)
               (if bool_decide (x_state result = "exited"%string) then x_exit_code result else None);
      mret (with_sandbox result info)
  end.

Definition exec_status (target : string) (job_id : Z) : MB job_status :=
  mcpd_of mcpd_for target;;
  raw ← rpc target "exec.status" (JObj [("job_id", JNum job_id)]) default_timeout;
  i ← lift (need_int "job_id" raw);
  s ← lift (need_str "state" raw);
  c ← lift (opt_int "exit_code" None raw);
  mret (JobStatus i s c).
Definition exec_output (target : string) (job_id offset max_bytes : Z) : MB job_output :=
  mcpd_of mcpd_for target;;
  raw ← rpc target "exec.output" (JObj [("job_id", JNum job_id); ("offset", JNum offset);
                                        ("max_bytes", JNum max_bytes)]) default_timeout;
  i ← lift (need_int "job_id" raw);
  s ← lift (need_str "state" raw);
  c ← lift (opt_int "exit_code" None raw);
  o ← lift (need_str "output" raw);
  off ← lift (need_int "offset" raw);
  n ← lift (need_int "bytes" raw);
  tot ← lift (need_int "total_bytes" raw);
  e ← lift (need_bool "eof" raw);
  mret (JobOutput i s c o off n tot e).
Definition kill_params (job_id : Z) (sig : string) (wait : Z) (force : bool) : json :=
  JObj ([("job_id", JNum job_id); ("signal", JStr sig); ("wait_ms", JNum wait)] ++
        opt_param "force" (if force then Some (JBool true) else None)).
(** The [force=True] gate of [exec_kill]. *)
Definition force_gate (target : string) : MB unit :=
  p ← sandbox_probe fl mcpd_for now repr target;
  if negb (available p) then
    raise (ERpc InvalidParams (Some (JObj
      [("code", match code p with Some c => JStr c | None => JNull end); ("target", JStr target)])))
  else if negb (abort_ok p) then
    raise (ERpc NotCapable (Some (JObj
      [("target", JStr target);
       ("sandboxvm_version", match sandboxvm_version p with Some v => JStr (str v) | None => JNull end)])))
  else mret tt.
Definition exec_kill (target : string) (job_id : Z) (sig : string) (wait : Z) (force : bool)
    : MB kill_result :=
  (if force then force_gate target else mret tt);;
  mcpd_of mcpd_for target;;
  raw ← rpc target "exec.kill" (kill_params job_id sig wait force) (Z.max (wait + 10000) 30000);
  i ← lift (need_int "job_id" raw);
  s ← lift (need_str "state" raw);
  c ← lift (opt_int "exit_code" None raw);
  sg ← lift (need_str "signal" raw);
  st ← lift (need_bool "sent" raw);
  ex ← lift (need_bool "exited" raw);
  fo ← lift (dflt_bool "forced" false raw);
  mret (KillResult i s c sg st ex fo).

(** ** Properties *)

Implicit Types w : sbx S.

Lemma lift_none {A} (m : res exn A) w : wp (lift m) (λ _ w', w' = w) w.
Proof. done. Qed.
(** What is left of an operation after its last request. *)
Lemma wp_quiet {A B} (m : MB A) (k : A → MB B) (Q : res exn B → sbx S → Prop) w :
  wp m (λ _ w', w' = w) w → (∀ x, Q (Raise x) w) → Q Spin w → (∀ a, wp (k a) Q w) →
  wp (m ≫= k) Q w.
Proof.
  intros Hm Hx Hs Hk. apply wp_bind. eapply wp_mono; [exact Hm|].
  intros [a|x|] w' ->; auto.
Qed.
Lemma validate_quiet raw w : wp (exec_validate raw) (λ _ w', w' = w) w.
Proof.
  unfold exec_validate. repeat (apply wp_quiet; [apply lift_none|done|done|intros ?]). done.
Qed.

(** How a forced kill may have gone: probe requests, then the kill request only
    after [probe] said that a guest can be aborted. *)
Definition kill_trace (t : string) (kill : json) (probe : res exn probe_result) w
    (r : res exn kill_result) w' : Prop :=
  cache_ok w' ∧
  ∃ ps ks, issued w' = issued w ++ ps ++ ks ∧ Forall (probe_request t) ps ∧
    (ks = [] ∨ ks = [(t, ("exec.kill", kill))] ∧
       ∃ p, probe = Ret p ∧ sound_probe t p ∧ available p = true ∧ abort_ok p = true) ∧
    (∀ k, r = Ret k → ks ≠ []).
Lemma kill_trace_none t kill probe w w' (r : res exn kill_result) :
  cache_ok w' → sent (probe_request t) w w' → (∀ k, r ≠ Ret k) → kill_trace t kill probe w r w'.
Proof.
  intros Hc (ps & Hi & Hps) Hr. split; [done|]. exists ps, []. rewrite app_nil_r.
  split_and!; [done|done|by left|]. intros k ->. by destruct (Hr k).
Qed.
Lemma mcpd_silent t w :
  wp (mcpd_of mcpd_for t) (λ _ w', quiet w w' ∧ issued w' = issued w) w.
Proof.
  pose proof (sends_mcpd mcpd_for (λ _, False) t w) as [Hp (l & Hi & Hl)].
  destruct l as [|q l]; [|by apply Forall_cons in Hl as [[] _]]. rewrite app_nil_r in Hi. by split.
Qed.

(** [exec.kill force=True] asks the daemon to abort a guest only after a
    probe, made in the same call, found a SandboxVM that supports it; every
    other way the call ends, it has sent probe requests only. *)
Theorem exec_kill_force_gated t job sig wait w :
  cache_ok w →
  wp (exec_kill t job sig wait true)
     (kill_trace t (kill_params job sig wait true) (sandbox_probe fl mcpd_for now repr t w).1 w) w.
Proof.
  intros Hc. unfold exec_kill, force_gate. apply wp_bind, wp_bind.
  pose proof (sandbox_probe_spec fl mcpd_for now repr t w Hc) as Hpost. unfold wp at 1. unfold wp in Hpost.
  destruct (sandbox_probe fl mcpd_for now repr t w) as [[p|x|] w1]; simpl in *;
    destruct Hpost as (Hc1 & Hs1 & _ & Hsound); [|by apply kill_trace_none..].
  destruct (available p) eqn:Ha; simpl; [|by apply wp_raise, kill_trace_none].
  destruct (abort_ok p) eqn:Hab; simpl; [|by apply wp_raise, kill_trace_none].
  apply wp_ret, wp_bind. eapply wp_mono; [apply mcpd_silent|]. intros rm w2 [Hp2 Hi2].
  assert (cache_ok w2) as Hc2 by (eapply cache_ok_quiet; [done..|by rewrite Hi2]).
  destruct rm as [[]|x|]; [|by apply kill_trace_none; [|eapply sent_trans, sent_refl|]..].
  apply wp_bind. eapply wp_mono; [apply rpc_spec|]. intros raw w3 [Hp3 Hi3].
  assert (∀ r, kill_trace t (kill_params job sig wait true) (Ret p) w r w3) as Hsent.
  { intros r. split; [eapply cache_ok_quiet; [done..|]; rewrite Hi3; by apply prefix_app_r|]. destruct Hs1 as (ps & Hi1 & Hps).
    exists ps, [(t, ("exec.kill", kill_params job sig wait true))].
    split_and!; [by rewrite Hi3, Hi2, Hi1, (assoc_L (++))|done| |done].
    right. split; [done|]. exists p. by split_and!; [|by apply Hsound|..]. }
  destruct raw as [raw|x|]; [|by apply Hsent..].
  repeat (apply wp_quiet; [apply lift_none|intros; by apply Hsent|by apply Hsent|intros ?]).
  apply wp_ret, Hsent.
Qed.

(** *** Sandboxed jobs *)

Lemma job_command_spec t guest args e wd deny tl w :
  cache_ok w →
  wp (sandbox_job_command fl mcpd_for now token_hex repr t guest args e wd deny tl)
     (λ _ w', cache_ok w' ∧ sent (probe_request t) w w') w.
Proof.
  intros Hc. unfold sandbox_job_command. apply wp_bind.
  eapply wp_mono; [by apply ensure_spec|]. intros r w1 (Hc1 & Hs1 & _).
  destruct r as [p|x|]; [|done..].
  assert (∀ A (m : MB A) Q, respects (sends (probe_request t)) m →
    (∀ w2, cache_ok w2 ∧ sent (probe_request t) w w2 → Q w2) → wp m (λ _ w2, Q w2) w1) as Hrest.
  { intros A m Q Hm HQ. eapply wp_mono; [by apply (wp_respects (sends (probe_request t)))|].
    intros r w2 Hw. cbv beta in Hw. apply HQ. split; [by eapply cache_ok_sends|].
    eapply sent_trans; [done|]. by apply sends_sent. }
  apply Hrest; [|done]. unfold probe_path.
  apply (respects_bind _); [destruct (path p); respects_tac|]. intros sv.
  apply (respects_bind _); [respects_tac|]. intros cfg.
  apply (respects_bind _); [apply sends_service|]. intros sfx. respects_tac.
Qed.
Lemma job_result_spec t name rc w : has_mcpd mcpd_for t →
  wp (sandbox_job_result mcpd_for repr utf8_replace t name rc) (λ r w', ∀ i, r = Ret i →
    ∃ rings, issued w' = issued w ++ (if rc is Some _ then capture_requests t name else []) ++ rings ∧
             Forall (eq (ring_request t)) rings ∧ (rc = None → rings = [])) w.
Proof.
  intros Ht. unfold sandbox_job_result. destruct rc as [rc|]; cycle 1.
  { apply wp_ret. intros i _. exists []. by rewrite app_nil_r. }
  apply wp_bind. eapply wp_mono; [by apply does_collect|].
  intros [[[o ot] [e et]]|x|] w1 Hw1; [|done..]. destruct Hw1 as [_ Hi1].
  assert (∀ (m : MB job_info), respects (sends (eq (ring_request t))) m → wp m (λ r w', ∀ i, r = Ret i →
    ∃ rings, issued w' = issued w ++ capture_requests t name ++ rings ∧
             Forall (eq (ring_request t)) rings ∧ (Some rc = None → rings = [])) w1) as Hrest.
  { intros m Hm. eapply wp_mono; [by apply (wp_respects (sends (eq (ring_request t))))|].
    intros r w2 [_ (rings & Hi2 & Hr)] i _. exists rings.
    split_and!; [by rewrite Hi2, Hi1, (assoc_L (++))|done|done]. }
  apply Hrest. destruct (classify_exit rc e) as [kind fp]. destruct (_ && _); [|respects_tac].
  apply (respects_bind _); [apply sends_last_trap|]. intros tr. respects_tac.
Qed.

(** a command run with [sandbox=True] is sent once, as a sandboxed job
    and only after the probe gate; the guest's captures are read and deleted
    exactly when the job has exited with a code, and left alone while it
    still runs. *)
Theorem exec_cmd_sandboxed t command args cwd timeout pri running a w :
  has_mcpd mcpd_for t → cache_ok w →
  wp (exec_cmd t command args cwd timeout pri running (Some a)) (λ r w', ∀ x, r = Ret x →
    is_Some (x_sandbox x) ∧
    ∃ ps cmd name rings,
      issued w' = issued w ++ ps ++
        [(t, ("exec.cmd", cmd_params cmd timeout true [] cwd (job_priority fl pri) running))] ++
        (if bool_decide (x_state x = "exited"%string) && bool_decide (is_Some (x_exit_code x))
         then capture_requests t name else []) ++ rings ∧
      Forall (probe_request t) ps ∧ Forall (eq (ring_request t)) rings) w.
Proof.
  intros Ht Hc. unfold exec_cmd. apply wp_bind. eapply wp_mono; [by apply mcpd_run|].
  intros r0 w0 (-> & Hp0 & Hi0). rewrite app_nil_r in Hi0.
  assert (cache_ok w0) as Hc0 by (eapply cache_ok_quiet; [done..|by rewrite Hi0]).
  apply wp_bind, wp_fmap. eapply wp_mono; [by apply job_command_spec|].
  intros [[cmd name]|x|] w1 [Hc1 (ps & Hi1 & Hps)]; [|done..].
  cbn zeta. rewrite (bool_decide_eq_true_2 (is_Some (Some a))) by done.
  apply wp_bind. eapply wp_mono; [apply rpc_spec|].
  intros [raw|x|] w2 [Hp2 Hi2]; [|done..].
  apply wp_quiet; [apply validate_quiet|done|done|]. intros result.
  apply wp_bind. eapply wp_mono; [by apply job_result_spec|].
  intros [info|x|] w3 Hinfo; [|done..].
  apply wp_ret. intros x [= <-]. split; [by eexists|].
  destruct (Hinfo info eq_refl) as (rings & Hi3 & Hr & _). exists ps, cmd, name, rings.
  split_and!; [|done|done]. rewrite Hi3, Hi2, Hi1, Hi0. simpl.
  rewrite <-!(assoc_L (++)). do 3 f_equal. f_equal.
  case_bool_decide; simpl; [|done]. by destruct (x_exit_code result).
Qed.
End exec.

(* ------------------------------------------------------------------ *)
(** ** Examples *)

#[local] Existing Instance ex_rpc.
Lemma exec_kill_force_gated_witness :
  wp (exec_kill ex_fleet ex_mcpd ex_now (λ _, []) "x5000" 7 "c" 2000 true)
     (kill_trace "x5000" (kill_params 7 "c" 2000 true)
        (sandbox_probe ex_fleet ex_mcpd ex_now (λ _, []) "x5000" ex_w).1 ex_w) ex_w.
Proof.
  apply (exec_kill_force_gated ex_fleet ex_mcpd ex_now (λ _, []) "x5000" 7 "c" 2000 ex_w).
  exact ex_cache_ok.
Defined.
Definition ex_token (_ : nat) : M unit exn text := mret (txt "a1b2c3").
Definition ex_args : sandbox_args := SandboxArgs None None [] (Some 60).
Definition ex_job : M (sbx unit) exn exec_result :=
  exec_cmd ex_fleet ex_mcpd ex_now ex_token (λ _, []) id "x5000" (txt "RAM:t.elf") [txt "-v"] None
    30000 None false (Some ex_args).
Lemma exec_cmd_sandboxed_witness :
  wp ex_job (λ r w', ∀ x, r = Ret x → is_Some (x_sandbox x) ∧
    ∃ ps cmd name rings,
      issued w' = issued ex_w ++ ps ++
        [("x5000"%string, ("exec.cmd"%string, cmd_params cmd 30000 true [] None None false))] ++
        (if bool_decide (x_state x = "exited"%string) && bool_decide (is_Some (x_exit_code x))
         then capture_requests "x5000" name else []) ++ rings ∧
      Forall (probe_request "x5000") ps ∧ Forall (eq (ring_request "x5000")) rings) ex_w.
Proof.
  apply (exec_cmd_sandboxed ex_fleet ex_mcpd ex_now ex_token (λ _, []) id "x5000" (txt "RAM:t.elf")
    [txt "-v"] None 30000 None false ex_args ex_w).
  - intros s. reflexivity.
  - exact ex_cache_ok.
Defined.
Example job_run :
  (λ x, ji_name <$> x_sandbox x) <$> match (ex_job ex_w).1 with Ret x => Some x | _ => None end
  = Some (Some (txt "t-a1b2c3")).
Proof. vm_compute. reflexivity. Qed.
