(* ===== verification/Suites.v ===== *)
(** * Test suites: [tools/tests.py]

    The suites of the AmigaQemuTests checkout, listed and run against a target,
    the reading of a report, and the standard DOS tests: ten checks over the
    file, job and system tools.  Reading a suite's JSON file is a parameter, and
    so is the report parser, which is that repository's. *)
From S2P Require Import Prelude Py Bytes Config Fleet Fs Lines Schema System SandboxText Sandbox Exec FleetStatus.

Record parse_entry := ParseEntry { pe_name : text; pe_passed : bool }.
Record parse_result := ParseResult { pr_entries : list parse_entry; pass_count : Z; fail_count : Z }.
Record dos_result := DosResult { do_target : string; do_passed : Z; do_total : Z; do_entries : list parse_entry }.
Record suite_entry := SuiteEntry {
  se_name : text; se_passed : bool; se_detail : option text; se_duration : Z; se_excerpt : option text }.
Record suite_run := SuiteRun {
  sr_suite : string; sr_target : string; sr_passed : Z; sr_total : Z; sr_entries : list suite_entry }.
Record suite_summary := SuiteSummary {
  ss_name : string; ss_project : option string; ss_machines : list string; ss_tests : Z }.

(** A suite file; a key that is not there is [None]. *)
Record upload_spec := Upload { up_src : option string; up_dst : option string }.
Record test_spec := TestSpec {
  t_name : option text; t_command : option text; t_timeout : option Z; t_markers : option (list text); t_passfail : option bool }.
Record suite := Suite {
  s_name : option string; s_project : option string; s_machines : option (list string);
  s_uploads : option (list upload_spec); s_tests : option (list test_spec) }.

(** [sum(1 for e in l if f(e))] *)
Definition tally {A} (f : A → bool) (l : list A) : Z := Z.of_nat (length (List.filter f l)).
Lemma tally_cons {A} (f : A → bool) a l : tally f (a :: l) = Z.b2z (f a) + tally f l.
Proof. unfold tally. simpl. destruct (f a); simpl; lia. Qed.
Lemma b2z_bound b : 0 ≤ Z.b2z b ≤ 1.
Proof. by destruct b. Qed.
Definition key {A} (v : option A) : res exn A := match v with Some a => Ret a | None => Raise (EPy KeyError) end.

(* ------------------------------------------------------------------ *)
(** ** Listing suites and reading reports *)

Section listing.
(** [json.load] of a suite file. *)
Context (load_json : bytes → res exn suite).
(** [jf.stem] of a name that ends in [.json]. *)
Definition stem (name : string) : string :=
  let t := txt name in
  if decide (name = ".json"%string) then name else str (take (length t - 5) t).
Fixpoint summaries (files : list (string * bytes)) : res exn (list suite_summary) :=
  match files with
  | [] => Ret []
  | (name, content) :: files =>
      match load_json content with
      | Ret s =>
          match summaries files with
          | Ret l => Ret (SuiteSummary (default (stem name) (s_name s)) (s_project s) (default [] (s_machines s))
                            (Z.of_nat (length (default [] (s_tests s)))) :: l)
          | r => r
          end
      | Raise x => Raise x
      | Spin => Spin
      end
  end.
Definition file_le : relation (string * bytes) := λ a b, String.le a.1 b.1.
#[export] Instance file_le_dec a b : Decision (file_le a b).
Proof. unfold file_le. apply _. Defined.
(** [tests_list_suites]; [projects] is the directory of that name, [None] when
    there is none. *)
Definition tests_list_suites (f : Fleet) (projects : option (list (string * bytes))) : res exn (list suite_summary) :=
  match amiga_qemu_tests (paths (config f)) with
  | None => Raise (ERpc InvalidParams None)
  | Some _ =>
      match projects with
      | None => Raise (ERpc InternalError None)
      | Some files => summaries (merge_sort file_le (List.filter (λ f, endswith (txt ".json") (txt f.1)) files))
      end
  end.
(** [_aqt_results]: the module that was loaded before, else the one of the
    configured checkout. *)
Definition aqt_results (f : Fleet) (cached : option (text → list (text * bool))) (loaded : res exn (text → list (text * bool)))
    : res exn (text → list (text * bool)) :=
  match cached with
  | Some parse => Ret parse
  | None => match amiga_qemu_tests (paths (config f)) with None => Raise (ERpc InternalError None) | Some _ => loaded end
  end.
(** [tests_parse_output]: strict base64, then UTF-8 with replacements, then the
    parser, which may be missing. *)
Context (b64_validated : string → option bytes) (utf8_replace : bytes → text)
  (results : res exn (text → list (text * bool))).
Definition tests_parse_output (output_b64 : string) : res exn parse_result :=
  match b64_validated output_b64 with
  | None => Raise (ERpc InvalidParams None)
  | Some b =>
      match results with
      | Ret parse =>
          let entries := map (λ p, ParseEntry p.1 p.2) (parse (utf8_replace b)) in
          Ret (ParseResult entries (tally pe_passed entries) (tally (λ e, negb (pe_passed e)) entries))
      | Raise x => Raise x
      | Spin => Spin
      end
  end.
End listing.

(* ------------------------------------------------------------------ *)
(** ** Running *)

Definition TEST_DIR : string := "RAM:_aqt_test".
Definition marker_path : string := "RAM:_aqt_test/marker.txt".
Definition copy_path : string := "RAM:_aqt_test/marker_copy.txt".
Definition payload : bytes := txt "AmigaQemuTests marker 2026 " ++ map chr [0; 1; 2; 3; 255; 10].
Definition copy_command : text :=
  txt "Copy " ++ quoted (txt marker_path) ++ txt " TO " ++ quoted (txt copy_path) ++ txt " CLONE".
(** [any(getattr(e, "name", "") == name for e in lst)] over a result model: a
    model iterates over its fields as pairs, and a pair has no [name]. *)
Definition pair_name (_ : string * json) : string := "".
Definition model_fields (j : json) : list (string * json) := match j with JObj l => l | _ => [] end.
Definition lists (name : string) (lst : json) : bool :=
  existsb (λ e, bool_decide (pair_name e = name)) (model_fields lst).

Section running.
Context {S : Type} `{Rpc S} `{Pydantic}.
Context (fl : Fleet) (mcpd_for : string → M S exn unit) (now : S → Z) (token_hex : nat → M S exn text).
Context (repr : json → text) (utf8_replace : bytes → text).
Abbreviation MB := (M (sbx S) exn).
Implicit Types w : sbx S.

(** [fleet.mcpd(target).request]; no parameters are [JNull]. *)
#[export] Instance target_wire : Wire (sbx S) := {|
  ask_daemon t m p timeout := mcpd_of mcpd_for t;; rpc t m (default JNull p) timeout |}.
#[export] Instance target_rpc : Rpc (sbx S) := {|
  call t m p timeout := mcpd_of mcpd_for t;; rpc t m p timeout;
  pause ms := on_service (pause ms) |}.
Definition run_cmd (target : string) (command : text) (timeout : Z) (priority : option Z) : MB exec_result :=
  exec_cmd fl mcpd_for now token_hex repr utf8_replace target command [] None timeout priority false None.
Definition fs_stat (target path : string) : MB StatResult := Fs.fs_stat target path.

(** [tests_run_standard_dos_tests]; [try_some] is [_safe]. *)
Definition ok {A} (r : option A) : bool := bool_decide (is_Some r).
Definition written_whole (r : option json) : bool :=
  match r with Some wr => field_int "size" wr =? Z.of_nat (length payload) | None => false end.
Definition is_marker (st : option StatResult) : bool :=
  match st with
  | Some st => bool_decide (st_type st = "file"%string) && (st_size st =? Z.of_nat (length payload))
  | None => false
  end.
Definition read_back (rd : option json) : res exn bool :=
  match rd with
  | Some rd => match py_b64decode (txt (field_str "content_b64" rd)) with
               | Some b => Ret (bool_decide (b = payload))
               | None => Raise (EPy ValueError)
               end
  | None => Ret false
  end.
Definition shows (name : string) (lst : option json) : bool :=
  match lst with Some lst => lists name lst | None => false end.
Definition kickstart (v : option json) : bool :=
  match v with
  | Some v => (if default JNull (jget "kickstart" v) is JNull then false else true) ||
              contains (txt "Kickstart") (txt (field_str "raw" v))
  | None => false
  end.
Definition dos_names : list text :=
  map txt ["DOS: List RAM:"; "DOS: MakeDir _aqt_test"; "DOS: Write file (binary clean)"; "DOS: Stat uploaded file";
           "DOS: Read + verify content integrity"; "DOS: List shows uploaded file"; "DOS: exec.cmd Copy"; "DOS: Delete file";
           "DOS: Delete directory"; "DOS: sys.version"].
Definition dos_report (target : string) (oks : list bool) : dos_result :=
  let entries := zip_with ParseEntry dos_names oks in
  DosResult target (tally pe_passed entries) (Z.of_nat (length entries)) entries.
Definition tests_run_standard_dos_tests (target : string) : MB dos_result :=
  listed ← try_some (System.fs_list target "RAM:" false 8);
  try_some (System.fs_delete target TEST_DIR false);;
  made ← try_some (System.fs_makedir target TEST_DIR);
  wr ← try_some (System.fs_write target marker_path (str (py_b64encode payload)) false None);
  st ← try_some (fs_stat target marker_path);
  rd ← try_some (System.fs_read target marker_path None None);
  same ← lift (read_back rd);
  lst ← try_some (System.fs_list target TEST_DIR false 8);
  copied ← try_some (run_cmd target copy_command 30000 None);
  lst2 ← try_some (System.fs_list target TEST_DIR false 8);
  gone ← try_some (System.fs_delete target marker_path false);
  try_some (System.fs_delete target copy_path false);;
  cleared ← try_some (System.fs_delete target TEST_DIR false);
  v ← try_some (System.sys_version target);
  mret (dos_report target
    [ok listed; ok made; written_whole wr; is_marker st; same; shows "marker.txt" lst;
     ok copied && shows "marker_copy.txt" lst2; ok gone; ok cleared; kickstart v]).

(** *** A suite *)

(** [json.load] of a file, the report parser, the clock of the event loop and
    the [message] of an error. *)
Context (load_json : bytes → res exn suite) (results : res exn (text → list (text * bool))) (loop_time : sbx S → Z)
  (message : exn → text).
Definition host_file (p : string) : MB (option bytes) := gets (λ w, lfs (hst w) !! p).
Definition suite_path (aqt name : string) : string :=
  path_join (path_join (path_join aqt "config") "projects") (name +:+ ".json").
Definition load_suite (name : string) : MB suite :=
  match amiga_qemu_tests (paths (config fl)) with
  | None => raise (ERpc InvalidParams None)
  | Some aqt =>
      f ← host_file (suite_path aqt name);
      match f with
      | None => raise (ERpc InvalidParams (Some (JObj [("file"%string, JStr (suite_path aqt name))])))
      | Some content => lift (load_json content)
      end
  end.
(** [except TargetError as e] *)
Definition on_target_error {A} (m : MB A) : MB (A + exn) :=
  catch (inl <$> m) (λ e, if is_target_error e then mret (inr e) else raise e).
Definition from_project (project : option string) (src : string) : string :=
  match truthy project with Some p => path_join p src | None => src end.
Definition upload_entry (dst : string) (passed : bool) (detail : text) : suite_entry :=
  SuiteEntry (txt "upload " ++ txt dst) passed (Some detail) 0 None.
Definition run_upload (target : string) (project : option string) (u : upload_spec) : MB suite_entry :=
  src ← lift (key (up_src u));
  dst ← lift (key (up_dst u));
  let src := from_project project src in
  content ← host_file src;
  match content with
  | None => mret (upload_entry dst false (txt "host file missing: " ++ txt src))
  | Some content =>
      r ← on_target_error (System.fs_write target dst (str (py_b64encode content)) false None);
      mret (match r with
            | inl _ => upload_entry dst true (show_int (Z.of_nat (length content)) ++ txt " bytes")
            | inr e => upload_entry dst false (message e)
            end)
  end.
(** All the markers are there, and of the report's lines, when they count, one
    passed and none failed. *)
Definition verdict (parse : text → list (text * bool)) (t : test_spec) (out : text) : bool :=
  forallb (λ m, contains m out) (default [] (t_markers t)) &&
  (if default false (t_passfail t)
   then (tally (λ p, negb p.2) (parse out) =? 0) && (0 <? tally snd (parse out))
   else true).
Definition excerpt (out : text) : option text := match out with [] => None | _ => Some (take 600 out) end.
Definition run_test (target : string) (priority : option Z) (parse : text → list (text * bool)) (t : test_spec) : MB suite_entry :=
  let name := default (default (txt "test") (t_command t)) (t_name t) in
  cmd ← lift (key (t_command t));
  t0 ← gets loop_time;
  r ← on_target_error (run_cmd target cmd (default 30000 (t_timeout t)) priority);
  t1 ← gets loop_time;
  mret (match r with
        | inr e => SuiteEntry name false (Some (message e)) (t1 - t0) None
        | inl r => SuiteEntry name (verdict parse t (txt (output r))) None (t1 - t0) (excerpt (txt (output r)))
        end).
Fixpoint each {A B} (f : A → MB B) (l : list A) : MB (list B) :=
  match l with
  | [] => mret []
  | a :: l => b ← f a; bs ← each f l; mret (b :: bs)
  end.
Definition tests_run_suite (target name : string) (skip_uploads : bool) (priority : option Z) : MB suite_run :=
  data ← load_suite name;
  ups ← (if skip_uploads then mret [] else each (run_upload target (s_project data)) (default [] (s_uploads data)));
  parse ← lift results;
  ts ← each (run_test target priority parse) (default [] (s_tests data));
  let entries := ups ++ ts in
  mret (SuiteRun (default name (s_name data)) target (tally se_passed entries) (Z.of_nat (length entries)) entries).
End running.

(* ------------------------------------------------------------------ *)
(** ** What the standard tests ask and report *)

Section requests.
Context {S : Type} `{Rpc S}.
Abbreviation MB := (M (sbx S) exn).
#[export] Instance all_steps_nil : PreOrder (all_steps (S := S) []).
Proof.
  split; [intros w; unfold all_steps; by rewrite app_nil_r|]. intros w1 w2 w3 [Hp1 Hi1] [Hp2 Hi2].
  rewrite app_nil_r in Hi1, Hi2. split; [by etrans|rewrite app_nil_r; congruence].
Qed.
(** [m] sends [q] and nothing else, also when it fails. *)
Definition asks {A} (q : request) (m : MB A) : Prop := ∀ w, wp m (λ _ w', all_steps [q] w w') w.
Lemma asks_bind {A B} q (m : MB A) (k : A → MB B) :
  asks q m → (∀ a, respects (all_steps []) (k a)) → asks q (m ≫= k).
Proof.
  intros Hm Hk w. apply wp_bind. eapply wp_mono; [apply Hm|]. intros [a|x|] w1 H1; [|done..].
  eapply wp_mono; [apply (wp_respects _ _ _ (Hk a))|]. intros r w2 [Hp Hi]. destruct H1 as [Hp1 Hi1].
  rewrite app_nil_r in Hi. split; [by etrans|congruence].
Qed.
Lemma asks_try {A} q (m : MB A) : asks q m → does [q] (try_some m).
Proof.
  intros Hm. unfold try_some. apply does_catch.
  - intros w. apply wp_fmap. eapply wp_mono; [apply Hm|]. by intros [a|x|] w' Hw.
  - intros e. destruct (is_exception e); [apply does_ret|apply does_raise].
Qed.
Lemma raises_try {A} (m : MB A) : raises (λ x, is_exception x = false) (try_some m).
Proof. unfold try_some. apply raises_catch. intros x. destruct (is_exception x) eqn:Hx; [raises_tac|]. by apply raises_raise. Qed.

(** What [m] can return. *)
Definition yields {A} (P : A → Prop) (m : MB A) : Prop := ∀ w a, (m w).1 = Ret a → P a.
Lemma can_return_bind {A B} P (m : MB A) (k : A → MB B) : (∀ a, yields P (k a)) → yields P (m ≫= k).
Proof. intros Hk w b. unfold mbind, M_bind. destruct (m w) as [[a|x|] w']; [apply Hk|done..]. Qed.
Lemma does_step {A B} l1 l2 l (m : MB A) (k : A → MB B) :
  l = l1 ++ l2 → does l1 m → (∀ a, does l2 (k a)) → does l (m ≫= k).
Proof. intros ->. apply does_bind. Qed.
End requests.

Section standard.
Context {S : Type} `{Rpc S} `{Pydantic}.
Context (fl : Fleet) (mcpd_for : string → M S exn unit) (now : S → Z) (token_hex : nat → M S exn text).
Context (repr : json → text) (utf8_replace : bytes → text) (t : string) (Ht : has_mcpd mcpd_for t).
Abbreviation MB := (M (sbx S) exn).
Abbreviation W := (target_wire mcpd_for).
Abbreviation run := (tests_run_standard_dos_tests fl mcpd_for now token_hex repr utf8_replace t).

(** The requests of the standard tests, whatever is answered. *)
Definition dos_requests : list request :=
  let dir p := JObj [("path"%string, JStr p)] in
  [(t, ("fs.list", dir "RAM:")); (t, ("fs.delete", dir TEST_DIR)); (t, ("fs.makedir", dir TEST_DIR));
   (t, ("fs.write", JObj [("path", JStr marker_path); ("content_b64", JStr (str (py_b64encode payload)))]));
   (t, ("fs.stat", dir marker_path)); (t, ("fs.read", dir marker_path)); (t, ("fs.list", dir TEST_DIR));
   (t, ("exec.cmd", cmd_params copy_command 30000 false [] None (job_priority fl None) false));
   (t, ("fs.list", dir TEST_DIR)); (t, ("fs.delete", dir marker_path)); (t, ("fs.delete", dir copy_path));
   (t, ("fs.delete", dir TEST_DIR)); (t, ("sys.version", JNull))]%string.

Lemma asks_rpc m j to : asks (t, (m, j)) (mcpd_of mcpd_for t;; rpc t m j to : MB json).
Proof. intros w. apply (wp_mono _ (λ _ w', all_steps [(t, (m, j))] w w')); [|done].
  apply wp_bind. eapply wp_mono; [by apply mcpd_run|]. intros r w1 (-> & Hp1 & Hi1).
  eapply wp_mono; [apply rpc_spec|]. rewrite app_nil_r in Hi1. intros [a|x|] w2 [Hp2 Hi2]; (split; [by etrans|congruence]).
Qed.
Lemma quiet_answer {A} (r : res exn A) : respects (all_steps []) (lift r : MB A).
Proof. apply (respects_lift _). Qed.
Lemma asks_ask m p to model q : q = (t, (m, default JNull p)) → asks q (ask (H:=W) t m p to model).
Proof. intros ->. apply asks_bind; [apply asks_rpc|]. intros. apply quiet_answer. Qed.
Lemma asks_list p : asks (t, ("fs.list", JObj [("path"%string, JStr p)])) (System.fs_list (H:=W) t p false 8).
Proof. apply asks_bind; [apply asks_rpc|]. intros raw. respects_tac. Qed.
Lemma asks_delete p : asks (t, ("fs.delete", JObj [("path"%string, JStr p)])) (System.fs_delete (H:=W) t p false).
Proof. apply asks_bind; [apply asks_rpc|]. intros raw. respects_tac. Qed.
Lemma asks_makedir p : asks (t, ("fs.makedir", JObj [("path"%string, JStr p)])) (System.fs_makedir (H:=W) t p).
Proof. apply asks_bind; [apply asks_rpc|]. intros raw. respects_tac. Qed.
Lemma asks_stat p : asks (t, ("fs.stat", JObj [("path"%string, JStr p)])) (fs_stat mcpd_for t p).
Proof. apply asks_bind; [apply asks_rpc|]. intros raw. respects_tac. Qed.
Lemma asks_cmd cmd timeout pri :
  asks (t, ("exec.cmd", cmd_params cmd timeout false [] None (job_priority fl pri) false))
    (run_cmd fl mcpd_for now token_hex repr utf8_replace t cmd timeout pri).
Proof.
  intros w. unfold run_cmd, exec_cmd. apply wp_bind. eapply wp_mono; [by apply mcpd_run|].
  intros r w1 (-> & Hp1 & Hi1). rewrite app_nil_r in Hi1. apply wp_bind, wp_ret. cbn zeta.
  rewrite bool_decide_eq_false_2 by (by intros [? ?]). eapply wp_mono.
  { refine (asks_bind _ _ _ _ _ w1); [intros w2; apply rpc_spec|]. intros raw. unfold exec_validate. respects_tac. }
  intros r w2 [Hp2 Hi2]. split; [by etrans|congruence].
Qed.

Ltac asks_tac :=
  lazymatch goal with
  | |- asks _ (System.fs_list _ _ _ _) => apply asks_list
  | |- asks _ (System.fs_delete _ _ _) => apply asks_delete
  | |- asks _ (System.fs_makedir _ _) => apply asks_makedir
  | |- asks _ (fs_stat _ _ _) => apply asks_stat
  | |- asks _ (run_cmd _ _ _ _ _ _ _ _ _ _) => apply asks_cmd
  | |- _ => by apply asks_ask
  end.
Lemma does_standard : does dos_requests run.
Proof.
  unfold tests_run_standard_dos_tests, dos_requests. cbn zeta.
  repeat (refine (does_step [_] _ _ _ _ eq_refl _ _);
    [apply asks_try; asks_tac|];
    intros ?; try (refine (does_step [] _ _ _ _ eq_refl _ _); [apply does_lift|intros ?])).
  apply does_ret.
Qed.
Lemma raises_standard : raises (λ x, is_exception x = false ∨ x = EPy ValueError) run.
Proof.
  assert (∀ A (m : MB A), raises (λ x, is_exception x = false ∨ x = EPy ValueError) (try_some m)) as Htry.
  { intros A m. eapply raises_mono; [apply raises_try|]. by left. }
  unfold tests_run_standard_dos_tests.
  repeat (apply raises_bind; [try apply Htry|intros ?]); [|apply raises_ret].
  intros w x. simpl. unfold read_back. repeat case_match; intros [= <-]; by right.
Qed.
Lemma shows_nothing name lst : name ≠ ""%string → shows name lst = false.
Proof.
  intros Hn. destruct lst as [lst|]; [|done]. simpl. unfold lists. induction (model_fields lst) as [|p l IH]; [done|]. simpl.
  rewrite IH. unfold pair_name. by rewrite bool_decide_eq_false_2.
Qed.
Context (Hcall : ∀ m j to, halts (call t m j to : M S exn json)).
Lemma ends_service {A} (m : M S exn A) : halts m → halts (on_service m).
Proof.
  intros Hm w. unfold on_service, on_host, on_svc. specialize (Hm (svc (hst w))).
  by destruct (m (svc (hst w))) as [[a|x|] s].
Qed.
Lemma ends_call m j to : halts (rpc t m j to).
Proof.
  do 2 (apply ends_bind; [done|]; intros ?). apply ends_bind; [apply ends_service, Hcall|]. intros ?.
  by apply ends_bind.
Qed.
Lemma ends_rpc m j to : halts (mcpd_of mcpd_for t;; rpc t m j to).
Proof. apply ends_bind; [apply ends_service; intros s; by rewrite Ht|]. intros _. apply ends_call. Qed.
Lemma ends_validate k raw : halts (lift (model_validate k raw) : MB json).
Proof. apply ends_lift. unfold model_validate. by destruct (validate k raw). Qed.
Lemma ends_try {A} (m : MB A) : halts m → halts (try_some m).
Proof.
  intros Hm. unfold try_some. apply ends_catch; [|intros x; by destruct (is_exception x)].
  intros w. specialize (Hm w). unfold fmap, M_map. by destruct (m w) as [[a|x|] w'].
Qed.
Ltac halts_step :=
  lazymatch goal with
  | |- halts (mbind _ (rpc _ _ _ _)) => apply ends_bind; [apply ends_call|intros ?]
  | |- halts (mbind _ (mcpd_of _ _)) => apply ends_bind; [apply ends_service; intros ?; by rewrite Ht|intros ?]
  | |- halts (mbind _ _) => apply ends_bind; [|intros ?]
  | |- halts (lift (model_validate _ _)) => apply ends_validate
  | |- halts (lift _) => apply ends_lift
  | |- halts (match ?x with _ => _ end) => destruct x
  | |- halts _ => done
  end.
Lemma ends_ask m p to model : halts (ask (H:=W) t m p to model).
Proof. unfold ask. apply ends_bind; [apply ends_rpc|]. intros. apply ends_validate. Qed.
Lemma ends_list p : halts (System.fs_list (H:=W) t p false 8).
Proof.
  apply ends_bind; [apply ends_rpc|]. intros raw.
  repeat halts_step; [apply py_iter_ends|apply validate_all_ends].
Qed.
Lemma ends_echoed m args to fields model : halts (echoed (H:=W) t m args to fields model).
Proof. apply ends_bind; [apply ends_rpc|]. intros raw. repeat halts_step. Qed.
Lemma ends_stat p : halts (fs_stat mcpd_for t p).
Proof.
  apply ends_bind; [apply ends_rpc|]. intros raw. repeat halts_step;
    (intros Hs; unfold need_str, need_int in Hs; repeat case_match; done).
Qed.
Lemma ends_cmd cmd timeout pri : halts (run_cmd fl mcpd_for now token_hex repr utf8_replace t cmd timeout pri).
Proof.
  unfold run_cmd, exec_cmd, exec_validate. halts_step.
  match goal with |- halts (mbind ?k (mret None)) => change (halts (k None)) end. cbv beta iota zeta. repeat halts_step;
    (intros Hs; unfold need_str, opt_int, dflt_bool, dflt_str in Hs; repeat case_match; done).
Qed.
Ltac ends_dos :=
  lazymatch goal with
  | |- halts (try_some (System.fs_list _ _ _ _)) => apply ends_try, ends_list
  | |- halts (try_some (System.fs_delete _ _ _)) => apply ends_try, ends_echoed
  | |- halts (try_some (System.fs_makedir _ _)) => apply ends_try, ends_echoed
  | |- halts (try_some (fs_stat _ _ _)) => apply ends_try, ends_stat
  | |- halts (try_some (run_cmd _ _ _ _ _ _ _ _ _ _)) => apply ends_try, ends_cmd
  | |- halts (try_some _) => apply ends_try, ends_ask
  | |- _ => idtac
  end.
Lemma ends_standard : halts run.
Proof.
  unfold tests_run_standard_dos_tests. repeat (apply ends_bind; [|intros ?]); [..|done]; ends_dos.
  apply ends_lift. unfold read_back. by repeat case_match.
Qed.

Lemma shows_marker lst : shows "marker.txt" lst = false.
Proof. by apply shows_nothing. Qed.
Lemma shows_copy lst : shows "marker_copy.txt" lst = false.
Proof. by apply shows_nothing. Qed.
Lemma yields_standard : yields (λ d, ∃ b1 b2 b3 b4 b5 b8 b9 b10,
  d = dos_report t [b1; b2; b3; b4; b5; false; false; b8; b9; b10]) run.
Proof.
  unfold tests_run_standard_dos_tests. repeat (apply can_return_bind; intros ?). intros w d [= <-].
  rewrite shows_marker, shows_copy, andb_false_r. by do 8 eexists.
Qed.

(** the standard DOS tests send the same thirteen requests in the same
    order, the three that clean up included, whatever the machine answers to any
    of them; they end, with ten entries of fixed names and the number of those
    that passed, unless they are cancelled or the content read back is no base64.
    The two entries about listings never pass, so no machine gets more than
    eight of the ten. *)
Theorem standard_dos_report w :
  wp run (λ r w', match r with
    | Ret d => issued w' = issued w ++ dos_requests ∧ map pe_name (do_entries d) = dos_names ∧
        do_total d = 10 ∧ do_passed d = tally pe_passed (do_entries d) ∧ do_passed d ≤ 8 ∧
        ∀ e, e ∈ do_entries d → pe_name e ∈ map txt ["DOS: List shows uploaded file"; "DOS: exec.cmd Copy"] → pe_passed e = false
    | Raise x => is_exception x = false ∨ x = EPy ValueError
    | Spin => False
    end) w.
Proof.
  pose proof (does_standard w) as Hd. pose proof (wp_raises _ _ w raises_standard) as Hr.
  pose proof (yields_standard w) as Hy. pose proof (ends_standard w) as He. unfold wp in *.
  destruct (run w) as [[d|x|] w']; simpl in *; [|done..]. destruct Hd as [_ Hi].
  destruct (Hy d eq_refl) as (b1 & b2 & b3 & b4 & b5 & b8 & b9 & b10 & ->).
  split_and!; [done|done|done|done| |].
  - unfold dos_report. simpl. rewrite !tally_cons. simpl.
    repeat match goal with |- context [Z.b2z ?b] => pose proof (b2z_bound b); generalize dependent (Z.b2z b); intros end.
    change (tally pe_passed []) with 0. lia.
  - intros e Hin Hn. simpl in Hin, Hn.
    repeat (apply elem_of_cons in Hin as [->|Hin];
      [first [reflexivity|exfalso; clear -Hn; repeat (apply elem_of_cons in Hn as [Hn|Hn]; [discriminate Hn|]); by apply elem_of_nil in Hn]|]).
    by apply elem_of_nil in Hin.
Qed.
End standard.

(* ------------------------------------------------------------------ *)
(** ** What running a suite asks and reports *)

Section suite_runs.
Context {S : Type} `{Rpc S} `{Pydantic}.
Context (fl : Fleet) (mcpd_for : string → M S exn unit) (now : S → Z) (token_hex : nat → M S exn text).
Context (repr : json → text) (utf8_replace : bytes → text) (t : string) (Ht : has_mcpd mcpd_for t).
Context (load_json : bytes → res exn suite) (results : res exn (text → list (text * bool))) (loop_time : sbx S → Z)
  (message : exn → text).
Abbreviation MB := (M (sbx S) exn).
Implicit Types w : sbx S.

(** The files of the host are only read. *)
Definition keeps_files : relation (sbx S) := λ w w', lfs (hst w') = lfs (hst w).
#[local] Instance keeps_files_preorder : PreOrder keeps_files.
Proof. split; [done|]. unfold keeps_files. intros ???. congruence. Qed.
Lemma keeps_service {A} (m : M S exn A) : respects keeps_files (on_service m).
Proof. intros w. unfold on_service, on_host, on_svc, keeps_files. by destruct (m (svc (hst w))). Qed.
Lemma keeps_rpc m j to : respects keeps_files (rpc t m j to).
Proof.
  do 2 (apply (respects_bind _); [done|]; intros ?).
  apply (respects_bind _); [apply keeps_service|]. intros ?. by apply (respects_bind _).
Qed.
Lemma keeps_mcpd : respects keeps_files (mcpd_of mcpd_for t).
Proof. apply keeps_service. Qed.
#[local] Hint Resolve keeps_service keeps_rpc keeps_mcpd : respects.

(** One request, whose [TargetError] becomes a value. *)
Lemma on_target_error_spec {A} q (m : MB A) w : asks q m → respects keeps_files m →
  wp (on_target_error m) (λ r w', ∀ v, r = Ret v → lfs (hst w') = lfs (hst w) ∧ issued w' = issued w ++ [q]) w.
Proof.
  intros Hm Hk. unfold on_target_error. apply wp_catch, wp_fmap.
  eapply wp_mono; [apply wp_conj; [apply Hm|exact (wp_respects _ _ _ Hk)]|].
  intros [a|x|] w' [[_ Hi] Hl]; simpl; [by intros v _| |done].
  destruct (is_target_error x); [|done]. by intros v _.
Qed.
Lemma each_spec {A B} (f : A → MB B) (q : A → list request) (R : A → B → Prop) L l w :
  (∀ a w, lfs (hst w) = L → wp (f a) (λ r w', ∀ b, r = Ret b → lfs (hst w') = L ∧ issued w' = issued w ++ q a ∧ R a b) w) →
  lfs (hst w) = L →
  wp (each f l) (λ r w', ∀ bs, r = Ret bs → lfs (hst w') = L ∧ issued w' = issued w ++ concat (map q l) ∧ Forall2 R l bs) w.
Proof.
  intros Hf. revert w. induction l as [|a l IH]; intros w Hw; simpl.
  { apply wp_ret. intros bs [= <-]. rewrite app_nil_r. by split_and!; [| |constructor]. }
  apply wp_bind. eapply wp_mono; [by apply Hf|]. intros [b|x|] w1 H1; [|done..].
  destruct (H1 b eq_refl) as (Hl1 & Hi1 & HR). apply wp_bind. eapply wp_mono; [by apply IH|].
  intros [bs|x|] w2 H2; [|done..]. destruct (H2 bs eq_refl) as (Hl2 & Hi2 & HRs).
  apply wp_ret. intros bs' [= <-]. rewrite Hi2, Hi1, (assoc_L (++)). by split_and!; [| |constructor].
Qed.

(** The write of an upload whose file is there, and what its entry says. *)
Definition upload_request (L : gmap string bytes) (project : option string) (u : upload_spec) : list request :=
  match up_src u, up_dst u with
  | Some src, Some dst =>
      match L !! from_project project src with
      | Some c => [(t, ("fs.write", JObj [("path", JStr dst); ("content_b64", JStr (str (py_b64encode c)))]))]%string
      | None => []
      end
  | _, _ => []
  end.
Definition upload_reported (L : gmap string bytes) (project : option string) (u : upload_spec) (e : suite_entry) : Prop :=
  ∃ src dst, up_src u = Some src ∧ up_dst u = Some dst ∧ se_name e = txt "upload " ++ txt dst ∧
    (se_passed e = true → is_Some (L !! from_project project src)).
Definition test_request (pri : option Z) (s : test_spec) : list request :=
  match t_command s with
  | Some cmd => [(t, ("exec.cmd", cmd_params cmd (default 30000 (t_timeout s)) false [] None (job_priority fl pri) false))]%string
  | None => []
  end.
Definition test_reported (parse : text → list (text * bool)) (s : test_spec) (e : suite_entry) : Prop :=
  ∃ cmd, t_command s = Some cmd ∧ se_name e = default cmd (t_name s) ∧
    (se_passed e = true → ∃ out, verdict parse s out = true ∧ se_excerpt e = excerpt out).
Lemma wp_key {A B} (o : option A) (k : A → MB B) (Q : res exn B → sbx S → Prop) w :
  (∀ a, o = Some a → wp (k a) Q w) → (∀ x, Q (Raise x) w) → wp (lift (key o) ≫= k) Q w.
Proof. intros Hs Hr. apply wp_bind, wp_lift. destruct o as [a|]; [by apply Hs|apply Hr]. Qed.
Lemma run_upload_spec L project u w : lfs (hst w) = L →
  wp (run_upload mcpd_for message t project u) (λ r w', ∀ e, r = Ret e →
    lfs (hst w') = L ∧ issued w' = issued w ++ upload_request L project u ∧ upload_reported L project u e) w.
Proof.
  intros HL. unfold run_upload. apply wp_key; [intros src Hsrc|done]. apply wp_key; [intros dst Hdst|done].
  cbn zeta. apply wp_bind, wp_gets. unfold upload_request, upload_reported. rewrite Hsrc, Hdst, HL.
  destruct (L !! from_project project src) as [c|] eqn:Hc.
  - apply wp_bind. eapply wp_mono.
    { apply (on_target_error_spec (t, ("fs.write", JObj [("path", JStr dst); ("content_b64", JStr (str (py_b64encode c)))]))%string).
      - by apply asks_ask.
      - unfold System.fs_write, ask. simpl. respects_tac. }
    intros [v|x|] w1 H1; [|done..]. destruct (H1 v eq_refl) as [Hl Hi]. apply wp_ret. intros e [= <-].
    split_and!; [congruence|done|]. exists src, dst. rewrite Hc. destruct v; split_and!; done.
  - apply wp_ret. intros e [= <-]. rewrite app_nil_r. split_and!; [done..|]. by exists src, dst.
Qed.
Lemma run_test_spec L pri parse s w : lfs (hst w) = L →
  wp (run_test fl mcpd_for now token_hex repr utf8_replace loop_time message t pri parse s) (λ r w', ∀ e, r = Ret e →
    lfs (hst w') = L ∧ issued w' = issued w ++ test_request pri s ∧ test_reported parse s e) w.
Proof.
  intros HL. unfold run_test. apply wp_key; [intros cmd Hcmd|done]. apply wp_bind, wp_gets, wp_bind.
  unfold test_request, test_reported. rewrite Hcmd. eapply wp_mono.
  { apply (on_target_error_spec _ _ w (asks_cmd fl mcpd_for now token_hex repr utf8_replace t Ht _ _ _)).
    unfold run_cmd, exec_cmd. apply (respects_bind _); [apply keeps_mcpd|]. intros _.
    match goal with |- respects _ (mbind ?k (mret None)) => change (respects keeps_files (k None)) end. cbv beta iota zeta.
    unfold exec_validate. respects_tac. }
  intros [v|x|] w1 H1; [|done..]. destruct (H1 v eq_refl) as [Hl Hi]. apply wp_bind, wp_gets, wp_ret. intros e [= <-].
  split_and!; [congruence|done|]. exists cmd. split_and!; [done|by destruct v|]. destruct v as [o|y]; [|done].
  intros Hv. by exists (txt (output o)).
Qed.

(** when running a suite returns, the requests that went out are the
    uploads of the files that were there, in the order of the suite, and then
    its commands, each once and in order; there is an entry for every upload and
    every test, in order; an upload passes only when its file is there, a test
    only when the command's output has all of its markers and, where the report
    counts, at least one pass and no failure; and the counts are of the entries. *)
Theorem suite_runs_in_order name skip pri w :
  wp (tests_run_suite fl mcpd_for now token_hex repr utf8_replace load_json results loop_time message t name skip pri)
    (λ r w', ∀ o, r = Ret o → ∃ s parse ups ts, results = Ret parse ∧
      (∃ aqt c, amiga_qemu_tests (paths (config fl)) = Some aqt ∧ lfs (hst w) !! suite_path aqt name = Some c ∧ load_json c = Ret s) ∧
      let us := if skip : bool then [] else default [] (s_uploads s) in
      issued w' = issued w ++ concat (map (upload_request (lfs (hst w)) (s_project s)) us) ++
                              concat (map (test_request pri) (default [] (s_tests s))) ∧
      sr_entries o = ups ++ ts ∧ Forall2 (upload_reported (lfs (hst w)) (s_project s)) us ups ∧
      Forall2 (test_reported parse) (default [] (s_tests s)) ts ∧
      sr_passed o = tally se_passed (ups ++ ts) ∧ sr_total o = Z.of_nat (length us + length (default [] (s_tests s)))) w.
Proof.
  unfold tests_run_suite, load_suite. destruct (amiga_qemu_tests _) as [aqt|] eqn:Haqt; [|by apply wp_bind, wp_raise].
  apply wp_bind. unfold host_file. apply wp_bind, wp_gets. set (L := lfs (hst w)).
  destruct (L !! suite_path aqt name) as [c|] eqn:Hc; [|by apply wp_raise].
  apply wp_lift. destruct (load_json c) as [s|x|] eqn:Hs; [|done..].
  apply wp_bind. set (us := if skip : bool then [] else default [] (s_uploads s)).
  apply (wp_mono _ (λ r w', ∀ ups, r = Ret ups → lfs (hst w') = L ∧
    issued w' = issued w ++ concat (map (upload_request L (s_project s)) us) ∧ Forall2 (upload_reported L (s_project s)) us ups)).
  { subst us. destruct skip.
    - apply wp_ret. intros ups [= <-]. rewrite app_nil_r. by split_and!; [| |constructor].
    - apply each_spec; [|done]. intros u w1. apply run_upload_spec. }
  intros [ups|x|] w1 H1; [|done..]. destruct (H1 ups eq_refl) as (Hl1 & Hi1 & Hu).
  apply wp_bind, wp_lift. destruct results as [parse|x|]; [|done..].
  apply wp_bind. eapply wp_mono.
  { apply (each_spec _ (test_request pri) (test_reported parse) L); [|done]. intros ts w2. apply run_test_spec. }
  intros [ts|x|] w2 H2; [|done..]. destruct (H2 ts eq_refl) as (Hl2 & Hi2 & Ht2).
  apply wp_ret. intros o [= <-]. exists s, parse, ups, ts. cbn zeta.
  split_and!; [done|by exists aqt, c|by rewrite Hi2, Hi1, (assoc_L (++))|done..|].
  simpl. by rewrite length_app, <-(Forall2_length _ _ _ Hu), <-(Forall2_length _ _ _ Ht2).
Qed.
End suite_runs.

(** A machine that does what it is asked, and one that answers nothing. *)
Definition good_answer (method : string) (params : json) : res exn json :=
  let has m := bool_decide (method = m%string) in
  if has "fs.list" then Ret (JArr [JObj [("name", JStr "marker.txt"); ("type", JStr "file"); ("size", JNum 33)];
                                   JObj [("name", JStr "marker_copy.txt"); ("type", JStr "file"); ("size", JNum 33)]])%string
  else if has "fs.write" then Ret (JObj [("path", JStr marker_path); ("size", JNum 33)])%string
  else if has "fs.stat" then Ret (JObj [("name", JStr "marker.txt"); ("type", JStr "file"); ("size", JNum 33)])%string
  else if has "fs.read" then Ret (JObj [("path", JStr marker_path); ("size", JNum 33); ("content_b64", JStr (str (py_b64encode payload)))])%string
  else if has "exec.cmd" then Ret (JObj [("output", JStr "")])%string
  else if has "sys.version" then Ret (JObj [("raw", JStr "Kickstart 54.30")])%string
  else Ret params.
#[local] Instance good_rpc : Rpc unit := {| call _ m p _ := lift (good_answer m p); pause _ := mret tt |}.
#[local] Instance dead_rpc : Rpc (option unit) := {| call _ _ _ _ := raise (ERpc TargetError None); pause _ := mret tt |}.
Lemma good_ends t m j to : halts (call (Rpc:=good_rpc) t m j to).
Proof. intros w. simpl. unfold good_answer. by repeat case_match. Qed.
Abbreviation dos_good := (tests_run_standard_dos_tests (H:=good_rpc) (H0:=strict) ex_fleet ex_mcpd ex_now (λ _, mret []) (λ _, []) id "x5000").
(** Everything works, and eight of ten pass. *)
Lemma standard_dos_report_witness :
  match (dos_good ex_w).1 with Ret d => (do_passed d, map pe_passed (do_entries d)) | _ => (0, []) end
    = (8, [true; true; true; true; true; false; false; true; true; true]) ∧
  wp dos_good (λ r w', match r with
    | Ret d => issued w' = issued ex_w ++ dos_requests ex_fleet "x5000" ∧ map pe_name (do_entries d) = dos_names ∧
        do_total d = 10 ∧ do_passed d = tally pe_passed (do_entries d) ∧ do_passed d ≤ 8 ∧
        ∀ e, e ∈ do_entries d → pe_name e ∈ map txt ["DOS: List shows uploaded file"; "DOS: exec.cmd Copy"]%string → pe_passed e = false
    | Raise x => is_exception x = false ∨ x = EPy ValueError
    | Spin => False
    end) ex_w.
Proof.
  split; [vm_compute; reflexivity|].
  apply (standard_dos_report (H:=good_rpc) (H0:=strict) ex_fleet ex_mcpd ex_now (λ _, mret []) (λ _, []) id "x5000").
  - intros s. reflexivity.
  - intros m j to. apply good_ends.
Defined.
Example dos_dead :
  match (tests_run_standard_dos_tests (H:=dead_rpc) (H0:=strict) ex_fleet (λ _, mret tt) (λ _, 0) (λ _, mret []) (λ _, []) id "x5000"
           (Sbx [] [] [] (Host ∅ None))).1 with
  | Ret d => (do_passed d, do_total d) | _ => (1, 1) end = (0, 10).
Proof. vm_compute. reflexivity. Qed.

(** A suite of one upload whose file is missing and two commands. *)
Definition ex_suite : suite :=
  Suite (Some "demo") (Some "/proj") None (Some [Upload (Some "a.bin") (Some "RAM:a"); Upload (Some "/b.bin") (Some "RAM:b")])
    (Some [TestSpec (Some (txt "one")) (Some (txt "RAM:b")) None (Some [txt "done"]) None;
           TestSpec None (Some (txt "Version")) (Some 5000) None (Some true)]).
Definition ex_suite_world : sbx unit :=
  Sbx [] [] [] (Host {["/aqt/config/projects/demo.json"%string := []; "/b.bin"%string := txt "xyz"]} tt).
Definition ex_suite_config : Config :=
  {| server := server ex_config; paths := {| amiga_qemu_tests := Some "/aqt"%string; qemu_binary := None; sandboxvm := None |};
     defaults := defaults ex_config; targets := targets ex_config |}.
Definition said (_ : json) : M unit exn json := mret (JObj [("output", JStr "all done")])%string.
#[local] Instance talking_rpc : Rpc unit := {|
  call _ m p _ := if bool_decide (m = "fs.write"%string) then mret (JObj [("path", JStr "RAM:b"); ("size", JNum 3)])%string else said p;
  pause _ := mret tt |}.
Abbreviation ex_suite_run := (tests_run_suite (H:=talking_rpc) (H0:=strict) (Fleet_init ex_suite_config) ex_mcpd ex_now (λ _, mret []) (λ _, []) id
  (λ _, Ret ex_suite) (Ret (λ _, [(txt "t1", true); (txt "t2", false)])) (λ _, 0) (λ _, []) "x5000" "demo" false None).
Lemma suite_runs_in_order_witness :
  match (ex_suite_run ex_suite_world).1 with Ret o => map (λ e, (str (se_name e), se_passed e)) (sr_entries o) | _ => [] end
    = [("upload RAM:a", false); ("upload RAM:b", true); ("one", true); ("Version", false)]%string ∧
  wp ex_suite_run (λ r w', ∀ o, r = Ret o → ∃ s parse ups ts, Ret (λ _, [(txt "t1", true); (txt "t2", false)]) = Ret (X:=exn) parse ∧
      (∃ aqt c, amiga_qemu_tests (paths (config (Fleet_init ex_suite_config))) = Some aqt ∧
        lfs (hst ex_suite_world) !! suite_path aqt "demo" = Some c ∧ Ret ex_suite = Ret (X:=exn) s) ∧
      let us := default [] (s_uploads s) in
      issued w' = issued ex_suite_world ++ concat (map (upload_request "x5000" (lfs (hst ex_suite_world)) (s_project s)) us) ++
                              concat (map (test_request (Fleet_init ex_suite_config) "x5000" None) (default [] (s_tests s))) ∧
      sr_entries o = ups ++ ts ∧ Forall2 (upload_reported (lfs (hst ex_suite_world)) (s_project s)) us ups ∧
      Forall2 (test_reported parse) (default [] (s_tests s)) ts ∧
      sr_passed o = tally se_passed (ups ++ ts) ∧ sr_total o = Z.of_nat (length us + length (default [] (s_tests s)))) ex_suite_world.
Proof.
  split; [vm_compute; reflexivity|].
  apply (suite_runs_in_order (H:=talking_rpc) (H0:=strict) (Fleet_init ex_suite_config) ex_mcpd ex_now (λ _, mret []) (λ _, []) id "x5000"
    (λ s, eq_refl) (λ _, Ret ex_suite) (Ret (λ _, [(txt "t1", true); (txt "t2", false)])) (λ _, 0) (λ _, []) "demo" false None).
Defined.
