(* ===== verification/Serial.v ===== *)
(** * Serial captures: [transports/serial_capture.py] and [tools/serial.py]

    Background captures of a serial port into a log file, the registry that
    keeps them, and the tools that start, stop and read them. *)
From S2P Require Import Prelude Py Bytes Config Fleet.

(** pyserial, the clocks and sleeping; times in milliseconds.  An open port is
    named by a number; opening can raise, and so can reading an open one. *)
Class SerialDev (E : Type) := {
  ser_open : string → Z → M E exn nat;
  ser_reset : nat → M E exn unit;
  in_waiting : nat → M E exn Z;
  ser_read : nat → Z → M E exn bytes;
  ser_write : nat → bytes → M E exn unit;
  ser_flush : nat → M E exn unit;
  ser_close : nat → M E exn unit;
  wall_clock : E → Z;
  ticks : E → Z;
  nap : Z → M E exn unit }.

(** [SerialCapture]: [thread] is the thread object and whether it is alive;
    [got] is a ghost, the bytes reads of the port returned since the last start
    (or since the log was cleared); [port_read] keeps it. *)
Record capture := Cap {
  c_target : string; c_channel : string; c_port : string; c_baud : Z; log_path : string;
  stop_set : bool; thread : option bool; c_ser : option nat;
  total : Z; started_at : Z; c_error : option string; got : bytes }.
Definition new_capture (target channel port : string) (baud : Z) (log : string) : capture :=
  Cap target channel port baud log false None None 0 0 None [].
(** Assignments to the attributes. *)
Definition set_stop (b : bool) (c : capture) : capture :=
  Cap (c_target c) (c_channel c) (c_port c) (c_baud c) (log_path c) b (thread c) (c_ser c)
    (total c) (started_at c) (c_error c) (got c).
Definition set_thread (t : option bool) (c : capture) : capture :=
  Cap (c_target c) (c_channel c) (c_port c) (c_baud c) (log_path c) (stop_set c) t (c_ser c)
    (total c) (started_at c) (c_error c) (got c).
Definition set_ser (h : option nat) (c : capture) : capture :=
  Cap (c_target c) (c_channel c) (c_port c) (c_baud c) (log_path c) (stop_set c) (thread c) h
    (total c) (started_at c) (c_error c) (got c).
Definition set_got (b : bytes) (c : capture) : capture :=
  Cap (c_target c) (c_channel c) (c_port c) (c_baud c) (log_path c) (stop_set c) (thread c) (c_ser c)
    (Z.of_nat (length b)) (started_at c) (c_error c) b.
Definition set_started (t : Z) (c : capture) : capture :=
  Cap (c_target c) (c_channel c) (c_port c) (c_baud c) (log_path c) (stop_set c) (thread c) (c_ser c)
    (total c) t (c_error c) (got c).
Definition set_error (e : option string) (c : capture) : capture :=
  Cap (c_target c) (c_channel c) (c_port c) (c_baud c) (log_path c) (stop_set c) (thread c) (c_ser c)
    (total c) (started_at c) e (got c).
Definition set_port (port : string) (baud : Z) (c : capture) : capture :=
  Cap (c_target c) (c_channel c) port baud (log_path c) (stop_set c) (thread c) (c_ser c)
    (total c) (started_at c) (c_error c) (got c).
(** [self._total += len(data)] *)
Definition count_data (data : bytes) (c : capture) : capture :=
  Cap (c_target c) (c_channel c) (c_port c) (c_baud c) (log_path c) (stop_set c) (thread c) (c_ser c)
    (total c + Z.of_nat (length data)) (started_at c) (c_error c) (got c).
(** The ghost: the port has delivered [data]. *)
Definition hear (data : bytes) (c : capture) : capture :=
  Cap (c_target c) (c_channel c) (c_port c) (c_baud c) (log_path c) (stop_set c) (thread c) (c_ser c)
    (total c) (started_at c) (c_error c) (got c ++ data).
Definition running (c : capture) : bool := match thread c with Some alive => alive | None => false end.

(** [SerialCaptureRegistry], the log files and the environment. *)
Record ports (E : Type) := Ports {
  log_root : string; captures : list ((string * string) * capture);
  logs : gmap string bytes; dev : E }.
Arguments Ports {E}. Arguments log_root {E}. Arguments captures {E}.
Arguments logs {E}. Arguments dev {E}.

Fixpoint find_cap (k : string * string) (l : list ((string * string) * capture)) : option capture :=
  match l with
  | [] => None
  | (k', c) :: l => if decide (k' = k) then Some c else find_cap k l
  end.
Fixpoint put_cap (k : string * string) (c : capture) (l : list ((string * string) * capture)) :=
  match l with
  | [] => [(k, c)]
  | (k', c') :: l => if decide (k' = k) then (k, c) :: l else (k', c') :: put_cap k c l
  end.
Lemma find_put k k' c l : find_cap k' (put_cap k c l) = if decide (k = k') then Some c else find_cap k' l.
Proof.
  induction l as [|[k0 c0] l IH]; simpl; [done|].
  destruct (decide (k0 = k)) as [->|]; simpl; repeat case_decide; congruence.
Qed.

Section serial.
Context {E : Type} `{SerialDev E}.
Abbreviation MP := (M (ports E) exn).
Definition on_dev {A} (m : M E exn A) : MP A := λ w,
  let '(r, e) := m (dev w) in (r, Ports (log_root w) (captures w) (logs w) e).
Definition set_caps (f : list ((string * string) * capture) → list ((string * string) * capture)) : MP unit :=
  modify (λ w, Ports (log_root w) (f (captures w)) (logs w) (dev w)).
Definition set_logs (f : gmap string bytes → gmap string bytes) : MP unit :=
  modify (λ w, Ports (log_root w) (captures w) (f (logs w)) (dev w)).
(** An attribute assignment on the capture under [k]. *)
Definition upd_cap (k : string * string) (f : capture → capture) : MP unit :=
  set_caps (λ l, match find_cap k l with Some c => put_cap k (f c) l | None => l end).

(** ** Captures *)

(** [SerialCapture.start] *)
Definition cap_start (k : string * string) (c : capture) (truncate : bool) : MP unit :=
  if running c then mret tt
  else
    upd_cap k (λ c, set_got [] (set_error None (set_stop false c)));;
    (if truncate then set_logs (delete (log_path c)) else mret tt);;
    h ← on_dev (ser_open (c_port c) (c_baud c));
    upd_cap k (set_ser (Some h));;
    on_dev (ser_reset h);;
    t ← gets (λ w, wall_clock (dev w));
    upd_cap k (λ c, set_thread (Some true) (set_started t c));;
    (* the thread opens the log for appending *)
    set_logs (λ l, <[log_path c := default [] (l !! log_path c)]> l).

(** The thread's [finally]: the port is closed and the thread is over. *)
Definition thread_over (err : option string) (c : capture) : capture :=
  let c := set_ser None (set_thread (match thread c with Some _ => Some false | None => None end) c) in
  match err with Some e => set_error (Some e) c | None => c end.
Definition reader_end (k : string * string) (h : nat) (err : option string) : MP unit :=
  catch (on_dev (ser_close h)) (λ e, if is_exception e then mret tt else raise e);;
  upd_cap k (thread_over err).
Definition os_text (e : exn) : string := match e with EOS _ s => s | _ => "" end.
(** [fh.write(data)] and the count. *)
Definition append_log (k : string * string) (c : capture) (data : bytes) : MP unit :=
  set_logs (λ l, <[log_path c := default [] (l !! log_path c) ++ data]> l);;
  upd_cap k (count_data data).
(** [ser.read(n)]: what comes back is what the port delivered, whatever the
    reader does with it. *)
Definition port_read (k : string * string) (h : nat) (n : Z) : MP bytes :=
  data ← on_dev (ser_read h n);
  upd_cap k (hear data);;
  mret data.
(** A call of the port that ends the thread when it raises; [OSError] is noted,
    anything else is left to the thread's exception hook. *)
Definition or_end {A} (k : string * string) (h : nat) (what : string) (m : MP A)
    (more : A → MP unit) : MP unit :=
  r ← catch (inl <$> m) (λ e, mret (inr e));
  match r with
  | inl a => more a
  | inr e => reader_end k h (if is_oserror e then Some (what +:+ os_text e) else None)
  end.
(** One pass of the loop of [_run]. *)
Definition reader_step (k : string * string) (c : capture) (h : nat) : MP unit :=
  if stop_set c then reader_end k h None
  else
    or_end k h "in_waiting: " (on_dev (in_waiting h)) (λ n,
      if n =? 0 then on_dev (nap 50)
      else
        or_end k h "read: " (port_read k h n) (λ data,
          match data with [] => mret tt | _ => append_log k c data end)).
(** [SerialCapture.stop]: a live reader sees the flag and ends before [join]
    returns.  (One that is stuck for the two seconds [join] waits is not
    modelled.) *)
Definition cap_stop (k : string * string) (c : capture) : MP unit :=
  upd_cap k (set_stop true);;
  (match running c, c_ser c with
   | true, Some h => reader_end k h None
   | _, _ => mret tt
   end);;
  upd_cap k (set_thread None).
(** [read_at], [file_size] and [clear_log]. *)
Definition log_slice (l : bytes) (offset n : Z) : bytes :=
  take (Z.to_nat (Z.max 0 n)) (drop (Z.to_nat (Z.max 0 offset)) l).
Definition read_log (c : capture) (offset max_bytes : Z) : MP bytes :=
  gets (λ w, match logs w !! log_path c with Some l => log_slice l offset max_bytes | None => [] end).
Definition file_size (c : capture) : MP Z :=
  gets (λ w, match logs w !! log_path c with Some l => Z.of_nat (length l) | None => 0 end).
Definition clear_log (k : string * string) (c : capture) : MP unit :=
  if running c then raise (EPy RuntimeError)
  else
    set_logs (delete (log_path c));;
    upd_cap k (set_got []).

(** ** The registry *)

Definition log_path_for (root target channel : string) : string :=
  root +:+ "/serial/" +:+ target +:+ "_" +:+ channel +:+ ".log".
Definition get_cap (target channel : string) : MP (option capture) :=
  gets (λ w, find_cap (target, channel) (captures w)).
(** [get_or_create] *)
Definition get_or_create (target channel port : string) (baud : Z) : MP capture :=
  w ← get;
  let k := (target, channel) in
  match find_cap k (captures w) with
  | None =>
      let c := new_capture target channel port baud (log_path_for (log_root w) target channel) in
      set_caps (λ l, l ++ [(k, c)]);;
      mret c
  | Some c =>
      let c := set_port port baud c in
      set_caps (put_cap k c);;
      mret c
  end.
(** [stop_all]: the captures are looked at when their turn comes. *)
Fixpoint stop_each (ks : list (string * string)) : MP unit :=
  match ks with
  | [] => mret tt
  | k :: ks =>
      w ← get;
      (match find_cap k (captures w) with
       | Some c => catch (cap_stop k c) (λ e, if is_exception e then mret tt else raise e)
       | None => mret tt
       end);;
      stop_each ks
  end.
Definition stop_all : MP unit := w ← get; stop_each (captures w).*1.

(** ** [serial.*] *)

Context (fl : Fleet).
(** [_channel_config]; the channels of a target are [uboot] and [mcu]. *)
Definition serial_channel (cfg : TargetConfig) (channel : string) : option SerialChannel :=
  if decide (channel = "uboot"%string) then uboot (channels cfg)
  else if decide (channel = "mcu"%string) then mcu (channels cfg) else None.
Definition configured_channels (cfg : TargetConfig) : list json :=
  map JStr (filter (λ n, bool_decide (is_Some (serial_channel cfg n))) ["uboot"; "mcu"]%string).
Definition channel_config (target channel : string) : res exn SerialChannel :=
  match target_config fl target with
  | Ret cfg =>
      match serial_channel cfg channel with
      | Some ch =>
          if ser_enabled ch then
            if bool_decide (ser_port ch = ""%string)
            then Raise (ERpc InvalidParams (Some (JObj [("target", JStr target); ("channel", JStr channel)])))
            else Ret ch
          else Raise (ERpc NotCapable (Some (JObj [("target", JStr target); ("channel", JStr channel);
                       ("configured_channels", JArr (configured_channels cfg))])))
      | None => Raise (ERpc NotCapable (Some (JObj [("target", JStr target); ("channel", JStr channel);
                       ("configured_channels", JArr (configured_channels cfg))])))
      end
  | Raise e => Raise e
  | Spin => Spin
  end.
Record start_result := Started { s_port : string; s_baud : Z; s_log : string; was_running : bool; truncated : bool }.
Record stop_result := Stopped { stopped : bool; sp_total : Z; duration : Z }.
Record read_result := ReadRes {
  bytes_b64 : text; r_offset : Z; next_offset : Z; r_size : Z; r_running : bool }.

Definition serial_start (target channel : string) (truncate : bool) : MP start_result :=
  ch ← lift (channel_config target channel);
  c ← get_or_create target channel (ser_port ch) (ser_baud ch);
  let was := running c in
  (if was : bool then mret tt else cap_start (target, channel) c truncate);;
  mret (Started (ser_port ch) (ser_baud ch) (log_path c) was (truncate && negb was)).
Definition serial_stop (target channel : string) : MP stop_result :=
  c ← get_cap target channel;
  match c with
  | None => mret (Stopped false 0 0)
  | Some c =>
      if negb (running c) then mret (Stopped false (total c) 0)
      else
        cap_stop (target, channel) c;;
        t ← gets (λ w, wall_clock (dev w));
        mret (Stopped true (total c) (Z.max 0 (t - started_at c)))
  end.
(** The capture a reading tool uses. *)
Definition cap_for (target channel : string) : MP capture :=
  c ← get_cap target channel;
  match c with
  | Some c => mret c
  | None => ch ← lift (channel_config target channel);
            get_or_create target channel (ser_port ch) (ser_baud ch)
  end.
Definition clamp_bytes (max_bytes dflt : Z) : Z :=
  if (max_bytes <=? 0) || (4 * 1024 * 1024 <? max_bytes) then dflt else max_bytes.
Definition serial_read (target channel : string) (offset max_bytes : Z) : MP read_result :=
  c ← cap_for target channel;
  data ← read_log c offset (clamp_bytes max_bytes 65536);
  size ← file_size c;
  mret (ReadRes (py_b64encode data) offset (offset + Z.of_nat (length data)) size (running c)).
Definition serial_tail (target channel : string) (max_bytes : Z) : MP read_result :=
  c ← cap_for target channel;
  size ← file_size c;
  let n := clamp_bytes max_bytes 8192 in
  let start := Z.max 0 (size - n) in
  data ← read_log c start n;
  mret (ReadRes (py_b64encode data) start (start + Z.of_nat (length data)) size (running c)).
Definition serial_clear (target channel : string) : MP unit :=
  c ← cap_for target channel;
  if running c then
    raise (ERpc InvalidParams (Some (JObj [("target", JStr target); ("channel", JStr channel)])))
  else clear_log (target, channel) c.
(** [info] with the size of the log, and [serial_status]. *)
Record channel_info := Info {
  i_target : string; i_channel : string; i_port : string; i_baud : Z; i_log : string;
  i_running : bool; i_started : Z; i_total : Z; i_size : Z; i_error : option string }.
Definition info (c : capture) : MP channel_info :=
  size ← file_size c;
  mret (Info (c_target c) (c_channel c) (c_port c) (c_baud c) (log_path c) (running c)
         (started_at c) (total c) size (c_error c)).
Definition wanted (want : option string) (have : string) : bool :=
  match want with
  | Some s => bool_decide (s = ""%string) || bool_decide (have = s)
  | None => true
  end.
Fixpoint infos (target channel : option string) (l : list ((string * string) * capture)) : MP (list channel_info) :=
  match l with
  | [] => mret []
  | (_, c) :: l =>
      if wanted target (c_target c) && wanted channel (c_channel c) then
        i ← info c; r ← infos target channel l; mret (i :: r)
      else infos target channel l
  end.
Definition serial_status (target channel : option string) : MP (list channel_info) :=
  w ← get; infos target channel (captures w).
End serial.

(* ------------------------------------------------------------------ *)
(** ** What the registry keeps *)

Definition serial_channels : list string := ["uboot"; "mcu"]%string.
(** Two captures never share a log file. *)
Lemma log_path_inj root t1 t2 c1 c2 :
  c1 ∈ serial_channels → c2 ∈ serial_channels →
  log_path_for root t1 c1 = log_path_for root t2 c2 → t1 = t2 ∧ c1 = c2.
Proof.
  intros H1 H2 Heq. apply (f_equal txt) in Heq. unfold log_path_for in Heq.
  rewrite !txt_app in Heq. do 2 apply app_inv_head in Heq.
  assert (∀ (a b s1 s2 : text), a ++ s1 = b ++ s2 → length s1 = length s2 → s1 ≠ s2 → False) as Hend
    by (intros a b s1 s2 H Hl Hne; by apply app_inj_2 in H as [_ ?]).
  assert (∀ a b : text, a ++ txt "_uboot.log" = b ++ txt "_mcu.log" → False) as Hmix.
  { intros a b H. apply (Hend (a ++ txt "_uboo") (b ++ txt "_mc") (txt "t.log") (txt "u.log"));
      [by rewrite <-!(assoc_L (++))|done|done]. }
  unfold serial_channels in *. rewrite !list_elem_of_In in H1, H2.
  destruct H1 as [<-|[<-|[]]], H2 as [<-|[<-|[]]]; simpl in Heq.
  - apply (app_inj_2 _ _ (txt "_uboot.log") (txt "_uboot.log")) in Heq as [Ht _]; [|done]. naive_solver.
  - by apply Hmix in Heq.
  - symmetry in Heq. by apply Hmix in Heq.
  - apply (app_inj_2 _ _ (txt "_mcu.log") (txt "_mcu.log")) in Heq as [Ht _]; [|done]. naive_solver.
Qed.

(** A capture as it stands under its key: it owns the key's log file, the log
    ends with what the port delivered since the last start, and a live reader
    has the port open. *)
Definition cap_ok (root : string) (l : gmap string bytes) (k : string * string) (c : capture) : Prop :=
  k.2 ∈ serial_channels ∧ log_path c = log_path_for root k.1 k.2 ∧
  total c = Z.of_nat (length (got c)) ∧ (∃ old, default [] (l !! log_path c) = old ++ got c) ∧
  (running c = true → is_Some (c_ser c)).

Section invariant.
Context {E : Type} `{SerialDev E}.
Context (fl : Fleet).
Abbreviation MP := (M (ports E) exn).
Implicit Types w : ports E.

Definition at_cap w k c : Prop := find_cap k (captures w) = Some c.
Definition caps_ok w : Prop := ∀ k c, at_cap w k c → cap_ok (log_root w) (logs w) k c.
(** The registry as it was. *)
Definition untouched w w' : Prop :=
  log_root w' = log_root w ∧ captures w' = captures w ∧ logs w' = logs w.
Lemma caps_ok_untouched w w' : untouched w w' → caps_ok w → caps_ok w'.
Proof. intros (Hr & Hc & Hl) Hw k c. unfold at_cap. rewrite Hr, Hc, Hl. apply Hw. Qed.
Lemma at_cap_untouched w w' k c : untouched w w' → at_cap w k c → at_cap w' k c.
Proof. intros (Hr & Hc & Hl). unfold at_cap. by rewrite Hc. Qed.
Lemma on_dev_spec {A} (m : M E exn A) w : wp (on_dev m) (λ _ w', untouched w w') w.
Proof. unfold wp, on_dev. by destruct (m (dev w)) as [r e]. Qed.
Definition good w k c : Prop := caps_ok w ∧ at_cap w k c.
Lemma upd_spec k f c w :
  good w k c → cap_ok (log_root w) (logs w) k (f c) →
  wp (upd_cap k f : MP unit) (λ r w', r = Ret tt ∧ good w' k (f c) ∧ log_root w' = log_root w ∧
                                      logs w' = logs w) w.
Proof.
  intros [Hw Hc] Hf. unfold upd_cap, set_caps. apply wp_modify. simpl. rewrite Hc.
  assert (∀ k', find_cap k' (put_cap k (f c) (captures w)) =
                if decide (k = k') then Some (f c) else find_cap k' (captures w)) as Hput
    by (intros; apply find_put).
  split_and!; [done|split|done|done].
  - intros k' c'. unfold at_cap. simpl. rewrite Hput. case_decide; [|apply Hw].
    intros [= <-]. by subst.
  - unfold at_cap. simpl. rewrite Hput. by rewrite decide_True.
Qed.
(** A change of one capture's log leaves the others as they are. *)
Lemma others_ok w k c k' c' (l' : gmap string bytes) :
  good w k c → at_cap w k' c' → k' ≠ k → (∀ p, p ≠ log_path c → l' !! p = logs w !! p) →
  cap_ok (log_root w) l' k' c'.
Proof.
  intros [Hw Hc] Hc' Hne Hl. destruct (Hw k' c' Hc') as (H1 & H2 & H3 & [old H4] & H5).
  split_and!; [done..| |done]. exists old. rewrite Hl; [done|]. intros Heq.
  destruct (Hw k c Hc) as (H1' & H2' & _).
  rewrite H2, H2' in Heq. apply log_path_inj in Heq as [Ht Hch]; [|done..].
  destruct k, k'. simpl in *. congruence.
Qed.
Lemma logs_spec k g c w :
  good w k c → (∀ p, p ≠ log_path c → g (logs w) !! p = logs w !! p) →
  cap_ok (log_root w) (g (logs w)) k c →
  wp (set_logs g : MP unit) (λ r w', r = Ret tt ∧ good w' k c ∧ log_root w' = log_root w ∧
                                     logs w' = g (logs w)) w.
Proof.
  intros Hg Hl Hok. pose proof Hg as [Hw Hc]. unfold set_logs. apply wp_modify.
  split_and!; [done|split|done|done]; [|done]. intros k' c' Hc'. simpl.
  destruct (decide (k' = k)) as [->|Hne]; [|by eapply others_ok].
  unfold at_cap in *. simpl in Hc'. rewrite Hc in Hc'. by injection Hc' as <-.
Qed.
Lemma cap_ok_keep root l k c c' :
  cap_ok root l k c → log_path c' = log_path c → total c' = total c → got c' = got c →
  (running c' = true → is_Some (c_ser c')) → cap_ok root l k c'.
Proof. intros (H1 & H2 & H3 & H4 & _) Hp Ht Hgot Hr. unfold cap_ok. rewrite Hp, Ht, Hgot. by split_and!. Qed.
Lemma good_ok w k c : good w k c → cap_ok (log_root w) (logs w) k c.
Proof. intros [Hw Hc]. by apply Hw. Qed.
Lemma good_untouched w w' k c : untouched w w' → good w k c → good w' k c.
Proof. intros Hu [Hw Hc]. split; [by eapply caps_ok_untouched|by eapply at_cap_untouched]. Qed.

(** [Q] holds however the operation ends. *)
Abbreviation always P := (λ _ w', P w').
(** The port has delivered [data] for the capture of [k] in [w]. *)
Definition heard w k c (data : bytes) : ports E :=
  Ports (log_root w) (put_cap k (hear data c) (captures w)) (logs w) (dev w).
Lemma heard_nothing w k c : good w k c → caps_ok (heard w k c []).
Proof.
  intros [Hw Hc] k' c'. unfold at_cap, heard. simpl. rewrite find_put. case_decide as Hk; [|apply Hw].
  intros [= <-]. subst k'. eapply cap_ok_keep; [by apply Hw|done|done|apply app_nil_r|].
  by destruct (Hw k c Hc) as (_ & _ & _ & _ & ?).
Qed.
Lemma append_ok k c data w :
  good w k c → wp (append_log k c data : MP unit) (always caps_ok) (heard w k c data).
Proof.
  intros Hg. pose proof Hg as [Hw Hc]. unfold append_log, set_logs, upd_cap, set_caps, heard.
  apply wp_bind, wp_modify, wp_modify. intros k' c' Hc'. unfold at_cap in Hc'. simpl in *.
  rewrite find_put, decide_True, !find_put in Hc' by done. case_decide as Hk.
  - injection Hc' as <-. subst k'. destruct (Hw k c Hc) as (H1 & H2 & H3 & [old H4] & H5).
    split_and!; [done|done| | |done]; simpl.
    + rewrite H3, length_app. lia.
    + exists old. rewrite lookup_insert, decide_True by done. simpl. by rewrite H4, (assoc_L (++)).
  - eapply others_ok; [exact Hg|exact Hc'|congruence|]. intros p Hp. by rewrite lookup_insert_ne.
Qed.
Lemma reader_end_ok k h err c w :
  good w k c → wp (reader_end k h err : MP unit) (λ r w', caps_ok w' ∧
    (r = Ret tt → good w' k (thread_over err c))) w.
Proof.
  intros Hg. unfold reader_end. apply wp_bind, wp_catch. eapply wp_mono; [apply on_dev_spec|].
  intros r w1 Hu. pose proof (good_untouched _ _ _ _ Hu Hg) as Hg1.
  assert (cap_ok (log_root w1) (logs w1) k (thread_over err c)) as Hok.
  { eapply cap_ok_keep; [by apply good_ok|by destruct err..|].
    destruct err; simpl; by destruct (thread c). }
  assert (wp (upd_cap k (thread_over err) : MP unit) (λ r w', caps_ok w' ∧
    (r = Ret tt → good w' k (thread_over err c))) w1) as Hupd.
  { eapply wp_mono; [by apply upd_spec|]. intros r' w2 (_ & [Hw2 Hc2] & _). by split. }
  destruct r as [[]|x|]; [exact Hupd| |by split; [apply Hg1|]].
  destruct (is_exception x); [apply wp_ret, Hupd|apply wp_raise]. by split; [apply Hg1|].
Qed.
Lemma or_end_ok {A} k h what (m : MP A) (more : A → MP unit) c w :
  wp m (λ r w', match r with Ret a => wp (more a) (always caps_ok) w' | _ => good w' k c end) w →
  wp (or_end k h what m more) (always caps_ok) w.
Proof.
  intros Hm. unfold or_end. apply wp_bind, wp_catch, wp_fmap.
  eapply wp_mono; [exact Hm|]. intros [a|x|] w1 Hr; [exact Hr| |apply Hr].
  apply wp_ret. eapply wp_mono; [by apply reader_end_ok|]. by intros r w2 [? _].
Qed.
Lemma dev_ok {A} k c (m : M E exn A) w : good w k c → wp (on_dev m) (λ _ w', good w' k c) w.
Proof. intros Hg. eapply wp_mono; [apply on_dev_spec|]. intros r w1 Hu. exact (good_untouched _ _ _ _ Hu Hg). Qed.
Lemma port_read_ok k c h n w : good w k c →
  wp (port_read k h n) (λ r w', match r with
    | Ret data => ∃ w0, good w0 k c ∧ w' = heard w0 k c data
    | _ => good w' k c
    end) w.
Proof.
  intros Hg. unfold port_read. apply wp_bind. eapply wp_mono; [by apply dev_ok|].
  intros [data|x|] w1 Hg1; [|done..]. unfold upd_cap, set_caps. apply wp_bind, wp_modify, wp_ret.
  exists w1. split; [done|]. unfold heard. destruct Hg1 as [_ Hc]. unfold at_cap in Hc. by rewrite Hc.
Qed.
Lemma reader_step_ok k c h w : good w k c → wp (reader_step k c h : MP unit) (always caps_ok) w.
Proof.
  intros Hg. unfold reader_step. destruct (stop_set c).
  { eapply wp_mono; [by apply reader_end_ok|]. by intros r w2 [? _]. }
  apply or_end_ok with c. eapply wp_mono; [by apply dev_ok|]. intros [n|x|] w1 Hg1; [|done..].
  destruct (n =? 0); [eapply wp_mono; [by apply dev_ok|]; by intros r w2 [? _]|].
  apply or_end_ok with c. eapply wp_mono; [by apply port_read_ok|]. intros [data|x|] w2; [|done..].
  intros (w0 & Hg0 & ->). destruct data as [|b data]; [by apply wp_ret, heard_nothing|by apply append_ok].
Qed.
Lemma cap_start_ok k c truncate w :
  good w k c → wp (cap_start k c truncate : MP unit) (always caps_ok) w.
Proof.
  intros Hg. unfold cap_start. destruct (running c) eqn:Hrun; [by apply wp_ret, Hg|].
  set (c1 := set_got [] (set_error None (set_stop false c))).
  assert (∀ root l, cap_ok root l k c → cap_ok root l k c1) as Hc1.
  { intros root l (H1 & H2 & H3 & H4 & H5).
    split_and!; [done|done|done|by eexists; symmetry; apply app_nil_r|done]. }
  apply wp_bind. eapply wp_mono; [apply (upd_spec _ _ c); [done|]; by apply Hc1, good_ok|].
  intros r w1 (-> & Hg1 & _ & _). apply wp_bind.
  eapply (wp_mono _ (λ r w2, r = Ret tt ∧ good w2 k c1)).
  { destruct truncate; [|by apply wp_ret].
    eapply wp_mono; [eapply logs_spec; [exact Hg1|intros p Hp; by rewrite lookup_delete_ne|]|].
    - destruct (good_ok _ _ _ Hg1) as (H1 & H2 & H3 & H4 & H5).
      split_and!; [done|done|done|by eexists; symmetry; apply app_nil_r|done].
    - by intros r w2 (-> & Hg2 & _). }
  intros r w2 (-> & Hg2). apply wp_bind. eapply wp_mono; [apply on_dev_spec|].
  intros [h|x|] w3 Hu3; [|by eapply caps_ok_untouched; [|apply Hg2]..].
  pose proof (good_untouched _ _ _ _ Hu3 Hg2) as Hg3.
  apply wp_bind. eapply wp_mono; [apply (upd_spec _ _ c1); [done|]|].
  { eapply cap_ok_keep; [by apply good_ok|done..]. }
  intros r w4 (-> & Hg4 & _). apply wp_bind. eapply wp_mono; [apply on_dev_spec|].
  intros r w5 Hu5. pose proof (good_untouched _ _ _ _ Hu5 Hg4) as Hg5.
  destruct r as [[]|x|]; [|apply Hg5..].
  apply wp_bind, wp_gets, wp_bind.
  eapply wp_mono; [apply (upd_spec _ _ (set_ser (Some h) c1)); [done|]|].
  { eapply cap_ok_keep; [by apply good_ok|done..]. }
  intros r w6 (-> & Hg6 & _). eapply wp_mono; [eapply logs_spec; [exact Hg6|..]|].
  - intros p Hp. by rewrite lookup_insert_ne.
  - destruct (good_ok _ _ _ Hg6) as (H1 & H2 & H3 & [old H4] & H5).
    split_and!; [done|done|done| |done]. exists old.
    change (log_path c) with (log_path (set_thread (Some true) (set_started (wall_clock (dev w5))
      (set_ser (Some h) c1)))). by rewrite lookup_insert, decide_True.
  - by intros r w7 (_ & [Hw7 _] & _).
Qed.
Lemma cap_stop_ok k c w :
  good w k c → wp (cap_stop k c : MP unit) (λ r w', caps_ok w' ∧
    (r = Ret tt → ∃ c', at_cap w' k c' ∧ running c' = false)) w.
Proof.
  intros Hg. unfold cap_stop. apply wp_bind.
  eapply wp_mono; [apply (upd_spec _ _ c); [done|]|].
  { eapply cap_ok_keep; [by apply good_ok|done..|]. by destruct (good_ok _ _ _ Hg) as (_&_&_&_&?). }
  intros r w1 (-> & Hg1 & _). apply wp_bind.
  eapply (wp_mono _ (λ r w2, caps_ok w2 ∧ (r = Ret tt → ∃ c2, good w2 k c2))).
  { assert (wp (mret tt : MP unit) (λ r w2, caps_ok w2 ∧ (r = Ret tt → ∃ c2, good w2 k c2)) w1) as Hskip
      by (apply wp_ret; split; [apply Hg1|by eexists]).
    destruct (running c), (c_ser c) as [h|]; [|exact Hskip..].
    eapply wp_mono; [by apply reader_end_ok|]. intros r w2 [Hw2 Hc2]. split; [done|].
    intros Hr. eexists. by apply Hc2. }
  intros r w2 [Hw2 Hc2]. destruct r as [[]|x|]; [|by split..].
  destruct (Hc2 eq_refl) as [c2 Hg2].
  eapply wp_mono; [apply (upd_spec _ _ c2); [done|]|].
  { eapply cap_ok_keep; [by apply good_ok|done..]. }
  intros r w3 (_ & [Hw3 Hc3] & _). split; [done|]. intros _. by eexists.
Qed.
Lemma clear_log_ok k c w : good w k c → wp (clear_log k c : MP unit) (always caps_ok) w.
Proof.
  intros Hg. unfold clear_log. destruct (running c) eqn:Hrun; [by apply wp_raise, Hg|].
  (* the log goes first: nothing of it is left to account for *)
  unfold set_logs, upd_cap, set_caps. apply wp_bind, wp_modify, wp_modify.
  pose proof Hg as [Hw Hc]. intros k' c' Hc'. unfold at_cap in Hc', Hc. simpl in *.
  rewrite Hc, find_put in Hc'. case_decide as Hk.
  - injection Hc' as <-. subst k'. destruct (Hw k c Hc) as (H1 & H2 & H3 & H4 & H5).
    split_and!; [done|done|done|by eexists; symmetry; apply app_nil_r|exact H5].
  - eapply others_ok; [exact Hg|exact Hc'|congruence|]. intros p Hp. by rewrite lookup_delete_ne.
Qed.
Lemma channel_config_ok t ch cfg : channel_config fl t ch = Ret cfg → ch ∈ serial_channels.
Proof.
  unfold channel_config, serial_channel, serial_channels. destruct (target_config fl t) as [c|x|]; [|done..].
  rewrite list_elem_of_In. simpl. repeat case_decide; subst; try done; auto.
Qed.
Lemma find_app k k' c l :
  find_cap k' (l ++ [(k, c)]) =
    match find_cap k' l with Some c' => Some c' | None => if decide (k = k') then Some c else None end.
Proof. induction l as [|[k0 c0] l IH]; simpl; [done|]. by destruct (decide (k0 = k')). Qed.
Lemma get_or_create_ok t ch port baud w :
  caps_ok w → ch ∈ serial_channels →
  wp (get_or_create t ch port baud : MP capture) (λ r w', caps_ok w' ∧
    ∀ c, r = Ret c → good w' (t, ch) c) w.
Proof.
  intros Hw Hch. unfold get_or_create. apply wp_bind. unfold wp at 1, get. simpl.
  destruct (find_cap (t, ch) (captures w)) as [c|] eqn:Hc.
  - apply wp_bind. unfold set_caps. apply wp_modify, wp_ret.
    assert (caps_ok (Ports (log_root w) (put_cap (t, ch) (set_port port baud c) (captures w)) (logs w) (dev w)))
      as Hok.
    { intros k' c'. unfold at_cap. simpl. rewrite find_put. case_decide as Hk; [|apply Hw].
      intros [= <-]. subst k'. eapply cap_ok_keep; [by apply Hw|done..|]. by destruct (Hw _ _ Hc) as (_&_&_&_&?). }
    split; [done|]. intros c' [= <-]. split; [done|]. unfold at_cap. simpl.
    rewrite find_put. by rewrite decide_True.
  - apply wp_bind. unfold set_caps. apply wp_modify, wp_ret.
    set (c := new_capture t ch port baud (log_path_for (log_root w) t ch)).
    assert (caps_ok (Ports (log_root w) (captures w ++ [((t, ch), c)]) (logs w) (dev w))) as Hok.
    { intros k' c'. unfold at_cap. simpl. rewrite find_app. destruct (find_cap k' (captures w)) eqn:Hk'.
      { intros [= <-]. by apply Hw. }
      case_decide as Hk; [|done]. intros [= <-]. subst k'.
      split_and!; [done|done|done|by eexists; symmetry; apply app_nil_r|done]. }
    split; [done|]. intros c' [= <-]. split; [done|]. unfold at_cap. simpl.
    rewrite find_app, Hc. by rewrite decide_True.
Qed.
Lemma cap_for_ok t ch w : caps_ok w →
  wp (cap_for fl t ch : MP capture) (λ r w', caps_ok w' ∧ ∀ c, r = Ret c → good w' (t, ch) c) w.
Proof.
  intros Hw. unfold cap_for, get_cap. apply wp_bind, wp_gets.
  destruct (find_cap (t, ch) (captures w)) as [c|] eqn:Hc.
  { apply wp_ret. split; [done|]. by intros c' [= <-]. }
  apply wp_bind, wp_lift. destruct (channel_config fl t ch) as [cfg|x|] eqn:Hcfg; [|by split..].
  apply get_or_create_ok; [done|]. by eapply channel_config_ok.
Qed.

(** ** Any sequence of operations *)

(** What a client or a reader thread can do. *)
Inductive serial_op :=
  | OStart (target channel : string) (truncate : bool) | OStop (target channel : string)
  | ORead (target channel : string) (offset max_bytes : Z) | OTail (target channel : string) (max_bytes : Z)
  | OClear (target channel : string) | OStatus (target channel : option string)
  | OReader (key : string * string) | OStopAll.
(** A pass of the reader under [k], when it is alive. *)
Definition reader_pass (k : string * string) : MP unit :=
  w ← get;
  match find_cap k (captures w) with
  | Some c => match running c, c_ser c with true, Some h => reader_step k c h | _, _ => mret tt end
  | None => mret tt
  end.
Definition run_op (o : serial_op) : MP unit :=
  match o with
  | OStart t ch b => const tt <$> serial_start fl t ch b
  | OStop t ch => const tt <$> serial_stop t ch
  | ORead t ch off n => const tt <$> serial_read fl t ch off n
  | OTail t ch n => const tt <$> serial_tail fl t ch n
  | OClear t ch => serial_clear fl t ch
  | OStatus t ch => const tt <$> serial_status t ch
  | OReader k => reader_pass k
  | OStopAll => stop_all
  end.
(** The registry after the operations, whatever they answered. *)
Fixpoint run_ops (os : list serial_op) (w : ports E) : ports E :=
  match os with
  | [] => w
  | o :: os => run_ops os (run_op o w).2
  end.

Lemma wp_keep {A} (m : MP A) w : caps_ok w → respects untouched m → wp m (always caps_ok) w.
Proof. intros Hw Hm. eapply caps_ok_untouched; [apply Hm|done]. Qed.
#[local] Instance untouched_preorder : PreOrder untouched.
Proof. split; [done|]. intros w1 w2 w3 (?&?&?) (?&?&?). split_and!; congruence. Qed.
Lemma start_ok t ch b w : caps_ok w → wp (serial_start fl t ch b) (always caps_ok) w.
Proof.
  intros Hw. unfold serial_start. apply wp_bind, wp_lift.
  destruct (channel_config fl t ch) as [cfg|x|] eqn:Hcfg; [|done..].
  apply wp_bind. eapply wp_mono; [apply get_or_create_ok; [done|by eapply channel_config_ok]|].
  intros r w1 [Hw1 Hg1]. destruct r as [c|x|]; [|done..]. specialize (Hg1 c eq_refl).
  apply wp_bind. destruct (running c); [by apply wp_ret|].
  eapply wp_mono; [by apply cap_start_ok|]. intros r w2 Hw2. by destruct r.
Qed.
Lemma stop_ok t ch w : caps_ok w → wp (serial_stop t ch) (always caps_ok) w.
Proof.
  intros Hw. unfold serial_stop, get_cap. apply wp_bind, wp_gets.
  destruct (find_cap (t, ch) (captures w)) as [c|] eqn:Hc; [|done].
  destruct (running c); simpl; [|done]. apply wp_bind.
  eapply wp_mono; [by apply cap_stop_ok|]. intros r w1 [Hw1 _]. by destruct r.
Qed.
Lemma with_cap_ok {A} t ch (k : capture → MP A) w :
  caps_ok w → (∀ c w', good w' (t, ch) c → wp (k c) (always caps_ok) w') →
  wp (cap_for fl t ch ≫= k) (always caps_ok) w.
Proof.
  intros Hw Hk. apply wp_bind. eapply wp_mono; [by apply cap_for_ok|].
  intros r w1 [Hw1 Hg]. destruct r as [c|x|]; [|done..]. apply Hk. by apply Hg.
Qed.
Lemma stop_each_ok ks w : caps_ok w → wp (stop_each ks) (always caps_ok) w.
Proof.
  revert w. induction ks as [|k ks IH]; intros w Hw; [done|].
  simpl. apply wp_bind. unfold wp at 1, get. simpl. apply wp_bind.
  destruct (find_cap k (captures w)) as [c|] eqn:Hc; [|by apply wp_ret, IH].
  apply wp_catch. eapply wp_mono; [by apply cap_stop_ok|]. intros r w1 [Hw1 _].
  destruct r as [[]|x|]; [by apply IH| |done]. destruct (is_exception x); [by apply IH|done].
Qed.
Lemma serial_op_ok o w : caps_ok w → wp (run_op o) (always caps_ok) w.
Proof.
  intros Hw.
  assert (∀ A (m : MP A), wp m (always caps_ok) w → wp (const tt <$> m : MP unit) (always caps_ok) w) as Hf.
  { intros A m Hm. apply wp_fmap. eapply wp_mono; [exact Hm|]. intros r w'. by destruct r. }
  destruct o as [t ch b|t ch|t ch off n|t ch n|t ch|t ch|k|]; simpl.
  - by apply Hf, start_ok.
  - by apply Hf, stop_ok.
  - apply Hf, with_cap_ok; [done|]. intros c w1 [Hw1 _]. apply wp_keep; [done|]. unfold read_log, file_size. respects_tac.
  - apply Hf, with_cap_ok; [done|]. intros c w1 [Hw1 _]. apply wp_keep; [done|]. unfold read_log, file_size. respects_tac.
  - apply with_cap_ok; [done|]. intros c w1 Hg. destruct (running c); [apply wp_raise, Hg|by apply clear_log_ok].
  - apply Hf, wp_keep; [done|]. unfold serial_status. intros w1. unfold mbind, M_bind, get. simpl.
    generalize (captures w1). intros l. revert w1. change (respects untouched (infos t ch l)).
    induction l as [|[k c] l IH]; simpl; [respects_tac|]. destruct (_ && _); [|exact IH].
    unfold info, file_size. respects_tac.
  - unfold reader_pass. apply wp_bind. unfold wp at 1, get. simpl.
    destruct (find_cap k (captures w)) as [c|] eqn:Hc; [|done].
    destruct (running c), (c_ser c); [by apply reader_step_ok|done..].
  - unfold stop_all. apply wp_bind. unfold wp at 1, get. simpl. by apply stop_each_ok.
Qed.


(** ** Following a log *)

Definition log_of w (p : string) : bytes := default [] (logs w !! p).
(** No log loses or changes a byte it has. *)
Definition grows w w' : Prop := log_root w' = log_root w ∧ ∀ p, log_of w p `prefix_of` log_of w' p.
#[local] Instance grows_preorder : PreOrder grows.
Proof. split; [done|]. intros w1 w2 w3 [? H1] [? H2]. split; [congruence|]. intros p. transitivity (log_of w2 p); [apply H1|apply H2]. Qed.
Lemma grows_dev {A} (m : M E exn A) : respects grows (on_dev m).
Proof. intros w. unfold on_dev. by destruct (m (dev w)). Qed.
Lemma grows_caps f : respects grows (set_caps f : MP unit).
Proof. by apply (respects_modify _). Qed.
Lemma grows_upd k f : respects grows (upd_cap k f : MP unit).
Proof. apply grows_caps. Qed.
Lemma grows_append p b : respects grows (set_logs (λ l, <[p := default [] (l !! p) ++ b]> l) : MP unit).
Proof.
  apply (respects_modify _). intros w. split; [done|]. intros q. unfold log_of. simpl.
  destruct (decide (q = p)) as [->|]; [|by rewrite lookup_insert_ne].
  rewrite lookup_insert, decide_True by done. by exists b.
Qed.
Lemma grows_touch p : respects grows (set_logs (λ l, <[p := default [] (l !! p)]> l) : MP unit).
Proof.
  intros w. pose proof (grows_append p [] w) as Hg. unfold set_logs, modify in *. simpl in *.
  by rewrite app_nil_r in Hg.
Qed.
Lemma grows_read : respects grows (get : MP (ports E)).
Proof. intros w. reflexivity. Qed.
Lemma grows_get {A} (k : ports E → MP A) : (∀ w, respects grows (k w)) → respects grows (get ≫= k).
Proof. intros Hk w. apply Hk. Qed.
#[local] Hint Resolve grows_dev grows_caps grows_upd grows_append grows_touch grows_read : respects.
Lemma grows_or_end {A} k h what (m : MP A) (more : A → MP unit) :
  respects grows m → (∀ a, respects grows (more a)) → respects grows (or_end k h what m more).
Proof. intros Hm Hmore. unfold or_end, reader_end. respects_tac. Qed.
Lemma grows_reader k : respects grows (reader_pass k).
Proof.
  apply grows_get. intros w. respects_tac. unfold reader_step, reader_end. respects_tac.
  apply grows_or_end; [respects_tac|]. intros m. respects_tac.
  apply grows_or_end; [unfold port_read; respects_tac|]. intros data. unfold append_log. respects_tac.
Qed.
Lemma grows_stop k c : respects grows (cap_stop k c : MP unit).
Proof. unfold cap_stop, reader_end. respects_tac. Qed.
Lemma grows_cap_for t ch : respects grows (cap_for fl t ch : MP capture).
Proof. unfold cap_for, get_cap, get_or_create. respects_tac. Qed.
#[local] Hint Resolve grows_reader grows_stop grows_cap_for : respects.

(** The operations that only add to logs: everything but clearing and
    starting afresh. *)
Definition only_adds (o : serial_op) : bool :=
  match o with OStart _ _ truncate => negb truncate | OClear _ _ => false | _ => true end.
Lemma run_op_grows o : only_adds o = true → respects grows (run_op o).
Proof.
  destruct o as [t ch []|t ch|t ch off n|t ch n|t ch|t ch|k|]; intros Ho; try done; clear Ho; simpl.
  - unfold serial_start, get_or_create, cap_start. simpl. respects_tac.
  - unfold serial_stop, get_cap. respects_tac.
  - unfold serial_read, read_log, file_size. respects_tac.
  - unfold serial_tail, read_log, file_size. respects_tac.
  - unfold serial_status. apply (respects_fmap _), grows_get. intros w. generalize (captures w). clear w.
    intros l. induction l as [|[k c] l IH]; simpl; [respects_tac|]. destruct (_ && _); [|exact IH].
    unfold info, file_size. respects_tac.
  - apply grows_reader.
  - unfold stop_all. apply grows_get. intros w. generalize (captures w).*1. clear w.
    intros ks. induction ks as [|k ks IH]; simpl; respects_tac.
Qed.
Lemma run_ops_grows os w : forallb only_adds os = true → grows w (run_ops os w).
Proof.
  revert w. induction os as [|o os IH]; intros w; simpl; [done|]. intros [Ho Hos]%andb_true_iff.
  etrans; [by apply run_op_grows|]. by apply IH.
Qed.
(** No operation moves the log directory. *)
Definition same_root w w' : Prop := log_root w' = log_root w.
#[local] Instance same_root_preorder : PreOrder same_root.
Proof. split; [done|]. unfold same_root. intros w1 w2 w3. congruence. Qed.
Lemma root_dev {A} (m : M E exn A) : respects same_root (on_dev m).
Proof. intros w. unfold on_dev. by destruct (m (dev w)). Qed.
Lemma root_caps f : respects same_root (set_caps f : MP unit).
Proof. by apply (respects_modify _). Qed.
Lemma root_logs f : respects same_root (set_logs f : MP unit).
Proof. by apply (respects_modify _). Qed.
Lemma root_read : respects same_root (get : MP (ports E)).
Proof. intros w. reflexivity. Qed.
#[local] Hint Resolve root_dev root_caps root_logs root_read : respects.
Lemma run_op_root o : respects same_root (run_op o).
Proof.
  destruct (only_adds o) eqn:Ho; [intros w; by apply run_op_grows|].
  destruct o as [t ch []|t ch|t ch off n|t ch n|t ch|t ch|k|]; try done; simpl.
  - unfold serial_start, get_or_create, cap_start, upd_cap. simpl. respects_tac.
  - unfold serial_clear, cap_for, get_cap, get_or_create, clear_log, upd_cap. respects_tac.
Qed.
Lemma run_ops_root os w : log_root (run_ops os w) = log_root w.
Proof.
  revert w. induction os as [|o os IH]; intros w; simpl; [done|]. rewrite IH. apply run_op_root.
Qed.
Lemma serial_ops_ok os w : caps_ok w → caps_ok (run_ops os w).
Proof. revert w. induction os as [|o os IH]; [done|]. intros w Hw. apply IH. by apply serial_op_ok. Qed.

(** A client that follows [next_offset]: other operations, then a read. *)
Definition chunk_of (r : read_result) : bytes := default [] (py_b64decode (bytes_b64 r)).
Fixpoint follow (t ch : string) (max_bytes : Z) (rounds : list (list serial_op)) (offset : Z)
    (w : ports E) : res exn bytes * ports E :=
  match rounds with
  | [] => (Ret [], w)
  | os :: rounds =>
      match serial_read fl t ch offset max_bytes (run_ops os w) with
      | (Ret r, w) =>
          match follow t ch max_bytes rounds (next_offset r) w with
          | (Ret b, w) => (Ret (chunk_of r ++ b), w)
          | failed => failed
          end
      | (Raise x, w) => (Raise x, w)
      | (Spin, w) => (Spin, w)
      end
  end.
Lemma same_logs_cap_for t ch w :
  (cap_for fl t ch w).2 = Ports (log_root w) (captures (cap_for fl t ch w).2) (logs w) (dev w).
Proof.
  unfold cap_for, get_cap, gets, get_or_create, set_caps, modify, get, lift, mbind, M_bind. simpl.
  destruct (find_cap _ _) eqn:Hf; simpl; [by destruct w|].
  destruct (channel_config fl t ch); simpl; [|by destruct w..]. by rewrite Hf.
Qed.
Lemma cap_for_returns t ch cfg w :
  channel_config fl t ch = Ret cfg → ∃ c, (cap_for fl t ch w).1 = Ret c.
Proof.
  intros Hcfg. unfold cap_for, get_cap, gets, get_or_create, set_caps, modify, get, lift, mbind, M_bind. simpl.
  destruct (find_cap _ _) eqn:Hf; simpl; [by eexists|]. rewrite Hcfg. simpl. rewrite Hf. by eexists.
Qed.
Lemma serial_read_returns t ch cfg offset max_bytes w :
  channel_config fl t ch = Ret cfg → ∃ x, (serial_read fl t ch offset max_bytes w).1 = Ret x.
Proof.
  intros Hcfg. destruct (cap_for_returns t ch cfg w Hcfg) as [c Hc]. unfold serial_read, mbind, M_bind.
  destruct (cap_for fl t ch w) as [r w1]. simpl in Hc. subst r. by eexists.
Qed.
Lemma serial_read_spec t ch offset max_bytes w :
  caps_ok w → wp (serial_read fl t ch offset max_bytes) (λ r w', caps_ok w' ∧
    logs w' = logs w ∧ log_root w' = log_root w ∧ ∀ x, r = Ret x →
      chunk_of x = log_slice (log_of w (log_path_for (log_root w) t ch)) offset (clamp_bytes max_bytes 65536) ∧
      next_offset x = offset + Z.of_nat (length (chunk_of x))) w.
Proof.
  intros Hw. unfold serial_read. apply wp_bind.
  pose proof (same_logs_cap_for t ch w) as Hsame. pose proof (cap_for_ok t ch w Hw) as Hg.
  unfold wp at 1. unfold wp in Hg. destruct (cap_for fl t ch w) as [r w1]. simpl in *.
  assert (log_root w1 = log_root w ∧ logs w1 = logs w) as [Hr Hl] by by rewrite Hsame.
  clear Hsame. destruct Hg as [Hw1 Hg]. destruct r as [c|x|]; [|by split_and!..].
  specialize (Hg c eq_refl). destruct (good_ok _ _ _ Hg) as (_ & Hp & _). simpl in Hp.
  unfold read_log, file_size. apply wp_bind, wp_gets, wp_bind, wp_gets, wp_ret.
  split_and!; [done..|]. intros x [= <-]. unfold chunk_of, py_b64encode. simpl.
  rewrite py_b64decode_encode. simpl. split; [|done].
  rewrite Hp, Hr, Hl. unfold log_of. destruct (logs w !! _); [done|]. simpl.
  unfold log_slice. by rewrite drop_nil, take_nil.
Qed.
Lemma clamp_pos m d : 0 < d → 0 < clamp_bytes m d.
Proof. unfold clamp_bytes. destruct (m <=? 0) eqn:?, (4 * 1024 * 1024 <? m); simpl; lia. Qed.
Lemma slice_ahead (a b c : bytes) off n :
  0 ≤ off ≤ Z.of_nat (length a) → a `prefix_of` b → 0 ≤ n →
  let d := log_slice b off n in
  take (Z.to_nat off) b ++ d = take (Z.to_nat (off + Z.of_nat (length d))) b ∧
  Z.min n (Z.of_nat (length a) - off) ≤ Z.of_nat (length d) ∧
  off + Z.of_nat (length d) ≤ Z.of_nat (length b).
Proof.
  intros Hoff Hab Hn d. apply prefix_length in Hab. unfold d, log_slice.
  rewrite !Z.max_r by lia. rewrite length_take, length_drop. split; [|lia].
  rewrite take_take_drop. destruct (decide (Z.to_nat n ≤ length b - Z.to_nat off)%nat).
  - f_equal. lia.
  - rewrite !take_ge by lia. done.
Qed.
Lemma slice_split (l : bytes) off a b :
  0 ≤ off → 0 ≤ a → 0 ≤ b → log_slice l off (a + b) = log_slice l off a ++ log_slice l (off + a) b.
Proof.
  intros. unfold log_slice. rewrite !Z.max_r by lia. rewrite !Z2Nat.inj_add by lia.
  by rewrite <-drop_drop, take_take_drop.
Qed.
(** What was read stays where it was read. *)
Lemma slice_kept (l l' : bytes) off n :
  l `prefix_of` l' → log_slice l off n = log_slice l' off (Z.of_nat (length (log_slice l off n))).
Proof.
  intros [k ->]. unfold log_slice. set (o := Z.to_nat (Z.max 0 off)). set (m := Z.to_nat (Z.max 0 n)).
  rewrite length_take, length_drop, Z.max_r by lia. rewrite Nat2Z.id.
  destruct (decide (o ≤ length l)%nat).
  - rewrite drop_app_le, take_app_le by (rewrite ?length_drop; lia).
    destruct (decide (m ≤ length l - o)%nat); [by rewrite Nat.min_l by lia|].
    rewrite Nat.min_r by lia. by rewrite !take_ge by (rewrite length_drop; lia).
  - replace (m `min` (length l - o))%nat with 0%nat by lia. rewrite drop_ge by lia. by rewrite take_nil.
Qed.
Lemma follow_spec t ch max_bytes rounds root : ∀ off w b w',
  let p := log_path_for root t ch in
  log_root w = root → caps_ok w → forallb (forallb only_adds) rounds = true →
  0 ≤ off ≤ Z.of_nat (length (log_of w p)) →
  follow t ch max_bytes rounds off w = (Ret b, w') →
  grows w w' ∧ b = log_slice (log_of w' p) off (Z.of_nat (length b)) ∧
  off + Z.of_nat (length b) ≤ Z.of_nat (length (log_of w' p)) ∧
  Z.min (Z.of_nat (length rounds) * clamp_bytes max_bytes 65536) (Z.of_nat (length (log_of w p)) - off)
    ≤ Z.of_nat (length b).
Proof.
  induction rounds as [|os rounds IH]; intros off w b w' p Hroot Hw Hadd Hoff; simpl in *.
  { intros [= <- <-]. split_and!; [done|by unfold log_slice|simpl; lia|simpl; lia]. }
  apply andb_true_iff in Hadd as [Hos Hadd].
  destruct (run_ops_grows os w Hos) as [Hr1 Hg1]. pose proof (serial_ops_ok os w Hw) as Hw1.
  set (w1 := run_ops os w) in *.
  pose proof (serial_read_spec t ch off max_bytes w1 Hw1) as Hread. unfold wp in Hread.
  destruct (serial_read fl t ch off max_bytes w1) as [[r|x|] w2]; simpl in *; [|done..].
  destruct Hread as (Hw2 & Hl2 & Hr2 & Hx). destruct (Hx r eq_refl) as [Hchunk Hnext]. clear Hx.
  destruct (follow t ch max_bytes rounds (next_offset r) w2) as [[b2|x|] w3] eqn:Hf; [|done..].
  intros [= <- <-].
  assert (log_of w2 p = log_of w1 p) as Hsame by (unfold log_of; by rewrite Hl2).
  pose proof (clamp_pos max_bytes 65536 ltac:(lia)) as Hn. set (n := clamp_bytes max_bytes 65536) in *.
  destruct (slice_ahead (log_of w p) (log_of w1 p) [] off n Hoff (Hg1 p) ltac:(lia)) as (Hs1 & Hs2 & Hs3).
  rewrite Hr1, Hroot in Hchunk. fold p in Hchunk. rewrite <-Hchunk in Hs1, Hs2, Hs3.
  apply IH in Hf; [|congruence|done|done|rewrite Hnext; fold p; rewrite Hsame; lia].
  fold p in Hf. destruct Hf as ([Hr3 Hg3] & Hb & Hle & Hmin). rewrite Hnext, Hsame in *.
  pose proof (prefix_length _ _ (Hg1 p)) as Hlen1. pose proof (Hg3 p) as Hpre. rewrite Hsame in Hpre.
  split_and!.
  - split; [congruence|]. intros q. transitivity (log_of w1 q); [done|].
    replace (log_of w1 q) with (log_of w2 q) by (unfold log_of; by rewrite Hl2). done.
  - rewrite length_app, Nat2Z.inj_add, slice_split by lia. f_equal; [|done].
    rewrite Hchunk at 1. rewrite Hchunk. by apply slice_kept.
  - rewrite length_app. lia.
  - rewrite length_app. lia.
Qed.
Lemma follow_returns t ch cfg max_bytes rounds : channel_config fl t ch = Ret cfg →
  ∀ off w, ∃ b, (follow t ch max_bytes rounds off w).1 = Ret b.
Proof.
  intros Hcfg. induction rounds as [|os rounds IH]; intros off w; simpl; [by eexists|].
  destruct (serial_read_returns t ch cfg off max_bytes (run_ops os w) Hcfg) as [r Hr].
  destruct (serial_read _ _ _ _ _ _) as [r' w1]. simpl in Hr. subst r'.
  destruct (IH (next_offset r) w1) as [b Hb]. destruct (follow _ _ _ _ _ _) as [r2 w2].
  simpl in Hb. subst r2. by eexists.
Qed.
(** C21: whatever clients and reader threads do, in any order, from the empty
    registry on: captures of different channels never share a log file, each
    log ends with exactly the bytes the reads of its port returned since the
    capture was last started (or its log cleared), [total_bytes] counts those bytes, and a
    live reader has its port open. *)
Theorem serial_log_exact os root l0 e k c w :
  w = run_ops os (Ports root [] l0 e) → find_cap k (captures w) = Some c →
  total c = Z.of_nat (length (got c)) ∧
  (∃ old, default [] (logs w !! log_path c) = old ++ got c) ∧
  (running c = true → is_Some (c_ser c)) ∧
  (∀ k' c', find_cap k' (captures w) = Some c' → log_path c' = log_path c → k' = k).
Proof.
  intros -> Hc. assert (caps_ok (run_ops os (Ports root [] l0 e))) as Hw by by apply serial_ops_ok.
  destruct (Hw k c Hc) as (H1 & H2 & H3 & H4 & H5). split_and!; [done..|].
  intros k' c' Hc' Heq. destruct (Hw k' c' Hc') as (H1' & H2' & _).
  rewrite H2, H2' in Heq. apply log_path_inj in Heq as [Ht Hch]; [|done..].
  destruct k, k'. simpl in *. congruence.
Qed.

(** A client that reads from offset 0 and passes each [next_offset] back,
    while readers deliver data and clients do anything but clear or truncate
    logs, always gets its answers, and the pieces put together are a prefix of
    the log as it is in the end, without a gap or a repeated byte; [n] reads
    catch up with everything that was in the log when it began, or get [n]
    full chunks of it. *)
Theorem serial_follow_exact before root l0 e t ch cfg max_bytes rounds w :
  w = run_ops before (Ports root [] l0 e) → channel_config fl t ch = Ret cfg →
  forallb (forallb only_adds) rounds = true →
  ∃ b w', follow t ch max_bytes rounds 0 w = (Ret b, w') ∧
    b `prefix_of` log_of w' (log_path_for root t ch) ∧
    Z.min (Z.of_nat (length rounds) * clamp_bytes max_bytes 65536)
          (Z.of_nat (length (log_of w (log_path_for root t ch)))) ≤ Z.of_nat (length b).
Proof.
  intros -> Hcfg Hadd. set (w := run_ops before _).
  assert (caps_ok w) as Hw by by apply serial_ops_ok.
  assert (log_root w = root) as Hroot by apply run_ops_root.
  destruct (follow_returns t ch cfg max_bytes rounds Hcfg 0 w) as [b Hb].
  destruct (follow t ch max_bytes rounds 0 w) as [r w'] eqn:Hf. simpl in Hb. subst r.
  apply (follow_spec _ _ _ _ root) in Hf as (_ & Hs & _ & Hmin); [|done..|lia].
  exists b, w'. split_and!; [done| |lia].
  rewrite Hs. unfold log_slice. simpl. rewrite drop_0. by eexists; symmetry; apply take_drop.
Qed.
End invariant.

(* ------------------------------------------------------------------ *)
(** ** Examples *)

(** A device that delivers the chunks of a list. *)
#[local] Instance ex_serial : SerialDev (list bytes) := {|
  ser_open _ _ := mret 1%nat;
  ser_reset _ := mret tt;
  in_waiting _ := gets (λ q, match q with b :: _ => Z.of_nat (length b) | [] => 0 end);
  ser_read _ n := λ q, match q with
                       | b :: q => (Ret (take (Z.to_nat n) b), q)
                       | [] => (Raise (EOS OSError "gone"), [])
                       end;
  ser_write _ _ := mret tt;
  ser_flush _ := mret tt;
  ser_close _ := mret tt;
  wall_clock _ := 1000; ticks _ := 0; nap _ := mret tt |}.
Definition ex_ports_config : Config :=
  {| server := ServerConfig_default; targets := [("x5000", {| type := Remote; display_name := None; machine := None; qemu_config := None;
       headless := false; tags := []; sandbox := None; input := None;
       channels := {| mcpd := None; qmp := None; gdb := None; mcu := None;
                      uboot := Some {| ser_enabled := true; ser_port := "COM7"; ser_baud := 115200 |} |} |})];
     paths := paths ex_config; defaults := defaults ex_config |}%string.
Definition ex_ports : Fleet := Fleet_init ex_ports_config.
Definition ex_start : list serial_op := [OStart "x5000" "uboot" false].
Definition ex_pass : serial_op := OReader ("x5000", "uboot")%string.
Definition ex_cap : capture :=
  Cap "x5000" "uboot" "COM7" 115200 "logs/serial/x5000_uboot.log" false (Some true) (Some 1%nat)
    5 1000 None (txt "ready").
Lemma serial_log_exact_witness :
  let w := run_ops ex_ports (ex_start ++ [ex_pass; OStop "x5000" "uboot"; OStart "x5000" "uboot" false; ex_pass])
             (Ports "logs" [] ∅ [txt "U-Boot 2"; txt "ready"]) in
  find_cap ("x5000", "uboot")%string (captures w) = Some ex_cap ∧
    ∃ old, default [] (logs w !! log_path ex_cap) = old ++ txt "ready".
Proof.
  intros w. assert (find_cap ("x5000", "uboot")%string (captures w) = Some ex_cap) as Hc
    by (vm_compute; reflexivity).
  split; [exact Hc|].
  destruct (serial_log_exact ex_ports (ex_start ++ [ex_pass; OStop "x5000" "uboot";
      OStart "x5000" "uboot" false; ex_pass]) "logs" ∅ [txt "U-Boot 2"; txt "ready"]
      ("x5000", "uboot")%string ex_cap w eq_refl Hc) as (_ & Hlog & _).
  exact Hlog.
Defined.
Lemma serial_follow_exact_witness :
  let w := run_ops ex_ports (ex_start ++ [ex_pass]) (Ports "logs" [] ∅ [txt "U-Boot 2"; txt "ready"]) in
  (∃ b w', follow ex_ports "x5000" "uboot" 6 [[]; [ex_pass]; []] 0 w = (Ret b, w') ∧
    b `prefix_of` log_of w' "logs/serial/x5000_uboot.log" ∧ 8 ≤ Z.of_nat (length b)) ∧
  (follow ex_ports "x5000" "uboot" 6 [[]; [ex_pass]; []] 0 w).1 = Ret (txt "U-Boot 2ready").
Proof.
  intros w. split; [|vm_compute; reflexivity].
  destruct (serial_follow_exact ex_ports (ex_start ++ [ex_pass]) "logs" ∅ [txt "U-Boot 2"; txt "ready"]
    "x5000" "uboot" {| ser_enabled := true; ser_port := "COM7"; ser_baud := 115200 |} 6
    [[]; [ex_pass]; []] w eq_refl eq_refl eq_refl) as (b & w' & Hf & Hp & Hl).
  exists b, w'. split; [exact Hf|]. split; [exact Hp|]. exact Hl.
Defined.

(** A read with a negative offset starts at the front of the log but reports
    where it would have started: the next read repeats what this one gave. *)
Example negative_offset :
  let w := run_ops ex_ports (ex_start ++ [ex_pass]) (Ports "logs" [] ∅ [txt "U-Boot 2"]) in
  match (serial_read ex_ports "x5000" "uboot" (-4) 65536 w).1 with
  | Ret r => next_offset r = 4 ∧ chunk_of r = txt "U-Boot 2"
  | _ => False
  end.
Proof. vm_compute. done. Qed.
