(* ===== verification/Power.v ===== *)
(** * The MCU debug shell: [transports/p18.py] and [tools/power.py]

    The tools that drive a board's power controller over a serial cable, with
    the guards in front of them. *)
From S2P Require Import Prelude Py Bytes Config Net Fleet Serial.

(* ------------------------------------------------------------------ *)
(** ** [p18.py] *)

Section shell.
Context {E : Type} `{SerialDev E}.
Abbreviation ME := (M E exn).

(** [_drain]: reads until the line has been silent for [idle] milliseconds. *)
Fixpoint drain_loop (fuel : nat) (h : nat) (idle last : Z) (buf : bytes) : ME bytes :=
  match fuel with
  | O => spin
  | S fuel =>
      t ← gets ticks;
      if t - last <? idle then
        chunk ← ser_read h 4096;
        match chunk with
        | [] => nap 50;; drain_loop fuel h idle last buf
        | _ => t ← gets ticks; drain_loop fuel h idle t (buf ++ chunk)
        end
      else mret buf
  end.
Definition drain (fuel : nat) (h : nat) (idle : Z) : ME bytes :=
  t ← gets ticks; drain_loop fuel h idle t [].
(** The capture loop of [_stream_capture_blocking]. *)
Fixpoint watch_loop (fuel : nat) (h : nat) (t0 watch : Z) (buf : bytes) : ME bytes :=
  match fuel with
  | O => spin
  | S fuel =>
      t ← gets ticks;
      if t - t0 <? watch then
        chunk ← ser_read h 4096;
        match chunk with
        | [] => nap 50;; watch_loop fuel h t0 watch buf
        | _ => watch_loop fuel h t0 watch (buf ++ chunk)
        end
      else mret buf
  end.
(** [ser.write(b); ser.flush()] *)
Definition put (h : nat) (b : bytes) : ME unit := ser_write h b;; ser_flush h.
Definition cr : bytes := [chr 13].
(** What the two drivers do to an open port. *)
Definition wake (fuel : nat) (h : nat) : ME unit :=
  drain fuel h 300;;
  put h cr;;
  drain fuel h 500;;
  mret tt.
Definition ask (fuel : nat) (h : nat) (shell_cmd : text) (idle : Z) : ME bytes :=
  wake fuel h;;
  cmd ← lift (encode_ascii shell_cmd);
  put h (cmd ++ cr);;
  drain fuel h idle.
Definition watch_stream (fuel : nat) (h : nat) (watch : Z) : ME bytes :=
  wake fuel h;;
  put h (txt "q" ++ cr);;
  drain fuel h 500;;
  t0 ← gets ticks;
  buf ← watch_loop fuel h t0 watch [];
  put h (txt "q" ++ cr);;
  drain fuel h 500;;
  mret buf.
(** [_send_blocking] and [_stream_capture_blocking] *)
Definition with_port {A} (port : string) (baud : Z) (body : nat → ME A) : ME A :=
  h ← ser_open port baud;
  finally (body h) (ser_close h).
Definition send_blocking (fuel : nat) (port : string) (baud : Z) (shell_cmd : text) (idle : Z) : ME bytes :=
  with_port port baud (λ h, ask fuel h shell_cmd idle).
Definition stream_capture_blocking (fuel : nat) (port : string) (baud : Z) (watch : Z) : ME bytes :=
  with_port port baud (λ h, watch_stream fuel h watch).
End shell.

(* ------------------------------------------------------------------ *)
(** ** [power.*] *)

Record shell_reply := Reply {
  rp_target : string; rp_cmd : text; rp_port : string; rp_baud : Z; rp_reply : text; rp_len : Z }.
Record stream_result := Stream {
  st_target : string; st_port : string; st_baud : Z; st_watch : Z; captured_bytes : Z; captured : text }.

Section power.
Context {E : Type} `{SerialDev E, Tcp E} (fl : Fleet) (fuel : nat) (ascii_replace : bytes → text).
Abbreviation MP := (M (ports E) exn).

(** [_resolve_mcu_channel]; [serial_captures.get] has no effect. *)
Definition capturing (target channel : string) (w : ports E) : bool :=
  match find_cap (target, channel) (captures w) with Some c => running c | None => false end.
Definition resolve_mcu_channel (target : string) : MP SerialChannel :=
  cfg ← lift (target_config fl target);
  match mcu (channels cfg) with
  | Some ch =>
      if negb (ser_enabled ch) || bool_decide (ser_port ch = ""%string)
      then raise (ERpc NotCapable (Some (JObj [("target", JStr target)])))
      else
        busy ← gets (capturing target "mcu");
        if busy : bool
        then raise (ERpc NotCapable (Some (JObj [("target", JStr target); ("channel", JStr "mcu")])))
        else mret ch
  | None => raise (ERpc NotCapable (Some (JObj [("target", JStr target)])))
  end.
Definition require_confirm (confirm : bool) : MP unit :=
  if confirm then mret tt
  else raise (ERpc InvalidParams
         (Some (JObj [("hint", JStr "pass confirm=True to acknowledge")]))).
Definition mk_reply (target : string) (cmd : text) (ch : SerialChannel) (reply : text) : shell_reply :=
  Reply target cmd (ser_port ch) (ser_baud ch) reply (Z.of_nat (length reply)).
(** [_daemon_reachable] *)
Definition daemon_reachable (host : string) (port : Z) : M E exn bool :=
  catch (tcp_connect host port 1000;; mret true)
        (λ e, if is_oserror e then mret false else raise e).
(** [_refuse_if_board_cold] *)
Definition refuse_if_board_cold (target op : string) (force : bool) : MP unit :=
  if force then mret tt
  else
    cfg ← lift (target_config fl target);
    match mcpd (channels cfg) with
    | Some ch =>
        if negb (mcpd_enabled ch) then mret tt
        else
          port ← lift (endpoint_port (mcpd_endpoint ch));
          up ← on_dev (daemon_reachable (endpoint_host (mcpd_endpoint ch)) port);
          if up : bool then mret tt
          else raise (ERpc NotCapable (Some (JObj [("target", JStr target); ("op", JStr op);
                                                   ("reason", JStr "board_presumed_off")])))
    | None => mret tt
    end.
(** [p18.send] and [p18.stream_capture] *)
Definition p18_send (ch : SerialChannel) (cmd : text) (idle : Z) : MP text :=
  ascii_replace <$> on_dev (send_blocking fuel (ser_port ch) (ser_baud ch) cmd idle).
Definition p18_stream (ch : SerialChannel) (watch : Z) : MP text :=
  ascii_replace <$> on_dev (stream_capture_blocking fuel (ser_port ch) (ser_baud ch) watch).

(** The four query tools are this one with [help], [id], [id date] and [v]. *)
Definition power_query (target op : string) (cmd : text) (force : bool) : MP shell_reply :=
  ch ← resolve_mcu_channel target;
  refuse_if_board_cold target op force;;
  reply ← p18_send ch cmd 1000;
  mret (mk_reply target cmd ch reply).
Definition power_help (target : string) (force : bool) := power_query target "help" (txt "help") force.
Definition power_identify (target : string) (force : bool) := power_query target "identify" (txt "id") force.
Definition power_identify_dates (target : string) (force : bool) :=
  power_query target "identify_dates" (txt "id date") force.
Definition power_sensors (target : string) (force : bool) := power_query target "sensors" (txt "v") force.

Definition power_toggle_stream (target : string) (watch : Z) (confirm force : bool) :
    MP (shell_reply + stream_result) :=
  require_confirm confirm;;
  ch ← resolve_mcu_channel target;
  refuse_if_board_cold target "toggle_stream" force;;
  if 0 <? watch then
    captured ← p18_stream ch watch;
    mret (inr (Stream target (ser_port ch) (ser_baud ch) watch (Z.of_nat (length captured)) captured))
  else
    reply ← p18_send ch (txt "q") 1000;
    mret (inl (mk_reply target (txt "q") ch reply)).
(** [power_on] and [power_off] are this one with [p] and [s]. *)
Definition power_switch (target : string) (cmd : text) (confirm : bool) : MP shell_reply :=
  require_confirm confirm;;
  ch ← resolve_mcu_channel target;
  reply ← p18_send ch cmd 2000;
  mret (mk_reply target cmd ch reply).
Definition power_on (target : string) (confirm : bool) := power_switch target (txt "p") confirm.
Definition power_off (target : string) (confirm : bool) := power_switch target (txt "s") confirm.
(** [cmd.strip().lower() in ("p", "s")] *)
Definition cold_safe (cmd : text) : bool :=
  bool_decide (map lower (strip cmd) = txt "p") || bool_decide (map lower (strip cmd) = txt "s").
Definition power_shell (target : string) (cmd : text) (confirm force : bool) : MP shell_reply :=
  require_confirm confirm;;
  match strip cmd with
  | [] => raise (ERpc InvalidParams None)
  | _ =>
      ch ← resolve_mcu_channel target;
      (if cold_safe cmd then mret tt else refuse_if_board_cold target "shell" force);;
      reply ← p18_send ch cmd 1000;
      mret (mk_reply target cmd ch reply)
  end.
End power.

(* ------------------------------------------------------------------ *)
(** ** What reaches the port *)

(** The device under the tools, with what it is told kept beside it. *)
Inductive line_event := EvOpen (port : string) | EvWrite (h : nat) (b : bytes) | EvClose (h : nat).
Section recorded.
Context {E : Type} `{SerialDev E, Tcp E}.
Abbreviation R := (E * list line_event)%type.
Definition under {A} (evs : list line_event) (m : M E exn A) : M R exn A := λ w,
  let '(r, e) := m w.1 in (r, (e, w.2 ++ evs)).
#[export] Instance recorded : SerialDev R := {|
  ser_open port baud := under [EvOpen port] (ser_open port baud);
  ser_reset h := under [] (ser_reset h);
  in_waiting h := under [] (in_waiting h);
  ser_read h n := under [] (ser_read h n);
  ser_write h b := under [EvWrite h b] (ser_write h b);
  ser_flush h := under [] (ser_flush h);
  ser_close h := under [EvClose h] (ser_close h);
  wall_clock w := wall_clock w.1;
  ticks w := ticks w.1;
  nap t := under [] (nap t) |}.
#[export] Instance recorded_tcp : Tcp R := λ host port timeout, under [] (tcp_connect host port timeout).

(** [m] writes [ws] to [h], or a prefix of it when it does not return. *)
Definition writes {A} (h : nat) (ws : list bytes) (m : M R exn A) : Prop := ∀ w, ∃ pre,
  pre `prefix_of` ws ∧ (m w).2.2 = w.2 ++ map (EvWrite h) pre ∧ ∀ a, (m w).1 = Ret a → pre = ws.
Lemma writes_under {A} h b ws (m : M E exn A) : map (EvWrite h) ws = b → writes h ws (under b m).
Proof. intros <- w. exists ws. unfold under. by destruct (m w.1). Qed.
Lemma writes_quiet {A} h (m : M E exn A) : writes h [] (under [] m).
Proof. by apply writes_under. Qed.
Lemma writes_ret {A} h (a : A) : writes h [] (mret a : M R exn A).
Proof. intros w. exists []. simpl. by rewrite app_nil_r. Qed.
Lemma writes_lift {A} h (r : res exn A) : writes h [] (lift r : M R exn A).
Proof. intros w. exists []. simpl. by rewrite app_nil_r. Qed.
Lemma writes_gets {A} h (f : R → A) : writes h [] (gets f : M R exn A).
Proof. intros w. exists []. simpl. by rewrite app_nil_r. Qed.
Lemma writes_spin {A} h : writes h [] (spin : M R exn A).
Proof. intros w. exists []. simpl. by rewrite app_nil_r. Qed.
Lemma writes_bind {A B} h a b (m : M R exn A) (k : A → M R exn B) :
  writes h a m → (∀ x, writes h b (k x)) → writes h (a ++ b) (m ≫= k).
Proof.
  intros Hm Hk w. destruct (Hm w) as (pre & Hp & He & Hr). unfold mbind, M_bind.
  destruct (m w) as [[x|x|] w1]; simpl in *.
  - destruct (Hk x w1) as (pre' & Hp' & He' & Hr'). exists (a ++ pre'). split_and!.
    + by apply prefix_app.
    + by rewrite He', He, map_app, (assoc_L (++)), (Hr x eq_refl).
    + intros y Hy. by rewrite (Hr' y Hy).
  - exists pre. split_and!; [by apply prefix_app_r|done|done].
  - exists pre. split_and!; [by apply prefix_app_r|done|done].
Qed.
(** Steps that write nothing. *)
Lemma writes_skip {A B} h b (m : M R exn A) (k : A → M R exn B) :
  writes h [] m → (∀ x, writes h b (k x)) → writes h b (m ≫= k).
Proof. apply (writes_bind h []). Qed.
Lemma writes_drain_loop fuel h idle : ∀ last buf, writes h [] (drain_loop fuel h idle last buf : M R exn bytes).
Proof.
  induction fuel as [|fuel IH]; intros last buf; simpl; [apply writes_spin|].
  apply writes_skip; [apply writes_gets|]. intros t. destruct (_ <? _); [|apply writes_ret].
  apply writes_skip; [apply writes_quiet|]. intros [|c chunk].
  - apply writes_skip; [apply writes_quiet|]. intros _. apply IH.
  - apply writes_skip; [apply writes_gets|]. intros t'. apply IH.
Qed.
Lemma writes_drain fuel h idle : writes h [] (drain fuel h idle : M R exn bytes).
Proof. apply writes_skip; [apply writes_gets|]. intros t. apply writes_drain_loop. Qed.
Lemma writes_watch fuel h t0 watch : ∀ buf, writes h [] (watch_loop fuel h t0 watch buf : M R exn bytes).
Proof.
  induction fuel as [|fuel IH]; intros buf; simpl; [apply writes_spin|].
  apply writes_skip; [apply writes_gets|]. intros t. destruct (_ <? _); [|apply writes_ret].
  apply writes_skip; [apply writes_quiet|]. intros [|c chunk]; [|apply IH].
  apply writes_skip; [apply writes_quiet|]. intros _. apply IH.
Qed.
Lemma writes_put h b : writes h [b] (put h b : M R exn unit).
Proof. apply (writes_bind h [b] []); [by apply writes_under|]. intros _. apply writes_quiet. Qed.
Lemma writes_wake fuel h : writes h [cr] (wake fuel h : M R exn unit).
Proof.
  apply writes_skip; [apply writes_drain|]. intros _. apply (writes_bind h [cr] []); [apply writes_put|].
  intros _. apply writes_skip; [apply writes_drain|]. intros _. apply writes_ret.
Qed.
Lemma writes_raise {A} h ws (x : exn) : writes h ws (raise x : M R exn A).
Proof. intros w. exists []. simpl. rewrite app_nil_r. split_and!; [apply prefix_nil|done|done]. Qed.
Lemma writes_ask fuel h cmd idle : writes h [cr; cmd ++ cr] (ask fuel h cmd idle : M R exn bytes).
Proof.
  apply (writes_bind h [cr] [_]); [apply writes_wake|]. intros _. unfold encode_ascii.
  destruct (forallb _ cmd); [|apply (writes_raise h [_])].
  change (writes h [cmd ++ cr] (put h (cmd ++ cr);; drain fuel h idle : M R exn bytes)).
  apply (writes_bind h [_] []); [apply writes_put|]. intros _. apply writes_drain.
Qed.
Lemma writes_stream fuel h watch :
  writes h [cr; txt "q" ++ cr; txt "q" ++ cr] (watch_stream fuel h watch : M R exn bytes).
Proof.
  apply (writes_bind h [cr] [_; _]); [apply writes_wake|]. intros _.
  apply (writes_bind h [_] [_]); [apply writes_put|]. intros _.
  apply writes_skip; [apply writes_drain|]. intros _. apply writes_skip; [apply writes_gets|]. intros t.
  apply writes_skip; [apply writes_watch|]. intros buf. apply (writes_bind h [_] []); [apply writes_put|].
  intros _. apply writes_skip; [apply writes_drain|]. intros _. apply writes_ret.
Qed.
End recorded.

(* ------------------------------------------------------------------ *)
(** ** The guards *)

Section guards.
Context {E : Type} `{SerialDev E, Tcp E} (fl : Fleet) (fuel : nat) (ascii_replace : bytes → text).
Abbreviation R := (E * list line_event)%type.
Abbreviation MP := (M (ports R) exn).
Implicit Types w : ports R.

(** One session on a port: opened, [ws] written as far as it went, closed
    again unless the driver is still at it. *)
Definition session {A} (port : string) (ws : list bytes) (r : res exn A) (evs : list line_event) : Prop :=
  match r with
  | Ret _ => ∃ h, evs = EvOpen port :: map (EvWrite h) ws ++ [EvClose h]
  | Raise _ => evs = [EvOpen port] ∨
               ∃ h pre, evs = EvOpen port :: map (EvWrite h) pre ++ [EvClose h] ∧ pre `prefix_of` ws
  | Spin => evs = [EvOpen port] ∨
            ∃ h pre, pre `prefix_of` ws ∧ (evs = EvOpen port :: map (EvWrite h) pre ∨
                                           evs = EvOpen port :: map (EvWrite h) pre ++ [EvClose h])
  end.
Lemma under_run {A} evs (m : M E exn A) (s : R) : ∃ r e, under evs m s = (r, (e, s.2 ++ evs)) ∧ r = (m s.1).1.
Proof. unfold under. destruct (m s.1) as [r e]. by exists r, e. Qed.
Lemma close_session {A} port h ws (m : M R exn A) (s : R) evs :
  writes h ws m → s.2 = evs ++ [EvOpen port] →
  wp (finally m (ser_close h)) (λ r s', ∃ evs', s'.2 = evs ++ evs' ∧ session port ws r evs') s.
Proof.
  intros Hm Hs. destruct (Hm s) as (pre & Hp & He & Hr). unfold wp, finally.
  destruct (m s) as [r s1]. simpl in Hp, He, Hr. rewrite Hs, <-(assoc_L (++)) in He. simpl in He.
  destruct (under_run [EvClose h] (ser_close h) s1) as (rc & e & Hc & _).
  change (under [EvClose h] (ser_close h) s1) with ((ser_close h : M R exn unit) s1) in Hc.
  destruct r as [a|x|]; rewrite ?Hc; simpl; rewrite He, <-?(assoc_L (++)); simpl;
  [rewrite (Hr a eq_refl) in *| |]; [destruct rc as [[]|y|]..|];
    (eexists; split; [done|]); simpl; eauto 10.
Qed.
Lemma with_port_session {A} port baud ws (body : nat → M R exn A) (s : R) :
  (∀ h, writes h ws (body h)) →
  wp (with_port port baud body) (λ r s', ∃ evs, s'.2 = s.2 ++ evs ∧ session port ws r evs) s.
Proof.
  intros Hb. unfold with_port. apply wp_bind.
  destruct (under_run [EvOpen port] (ser_open port baud) s) as (r & e & Ho & _). eapply wp_run; [exact Ho|].
  destruct r as [h|x|]; [by apply close_session| |]; exists [EvOpen port]; simpl; auto.
Qed.

(** The tools. *)
Inductive power_op :=
  | OQuery (op : string) (cmd : text) (force : bool) | OStream (watch : Z) (confirm force : bool)
  | OSwitch (cmd : text) (confirm : bool) | OShell (cmd : text) (confirm force : bool).
Definition power_run (t : string) (o : power_op) : MP unit :=
  match o with
  | OQuery op cmd force => const tt <$> power_query fl fuel ascii_replace t op cmd force
  | OStream watch confirm force => const tt <$> power_toggle_stream fl fuel ascii_replace t watch confirm force
  | OSwitch cmd confirm => const tt <$> power_switch fl fuel ascii_replace t cmd confirm
  | OShell cmd confirm force => const tt <$> power_shell fl fuel ascii_replace t cmd confirm force
  end.
(** What a tool means to write: a wake-up, then its command. *)
Definition words (o : power_op) : list bytes :=
  match o with
  | OQuery _ cmd _ | OSwitch cmd _ | OShell cmd _ _ => [cr; cmd ++ cr]
  | OStream watch _ _ => if 0 <? watch then [cr; txt "q" ++ cr; txt "q" ++ cr] else [cr; txt "q" ++ cr]
  end.
Definition confirmed (o : power_op) : bool :=
  match o with OQuery _ _ _ => true | OStream _ c _ | OSwitch _ c | OShell _ c _ => c end.
(** The daemon of the board answers, or there is none to ask. *)
Definition board_up (cfg : TargetConfig) (e : E) : Prop :=
  match mcpd (channels cfg) with
  | Some ch => mcpd_enabled ch = false ∨ ∃ port, endpoint_port (mcpd_endpoint ch) = Ret port ∧
      (tcp_connect (endpoint_host (mcpd_endpoint ch)) port 1000 e).1 = Ret tt
  | None => True
  end.
Definition warm_enough (o : power_op) (cfg : TargetConfig) (e : E) : Prop :=
  match o with
  | OQuery _ _ force | OStream _ _ force => force = true ∨ board_up cfg e
  | OSwitch _ _ => True
  | OShell cmd _ force => cold_safe cmd = true ∨ force = true ∨ board_up cfg e
  end.
(** [ch] is the target's MCU channel, set up and not being captured. *)
Definition usable (t : string) w (cfg : TargetConfig) (ch : SerialChannel) : Prop :=
  target_config fl t = Ret cfg ∧ mcu (channels cfg) = Some ch ∧ ser_enabled ch = true ∧
  ser_port ch ≠ ""%string ∧ capturing t "mcu" w = false.
(** The registry and what was told to ports stay as they are. *)
Definition idle w w' : Prop :=
  log_root w' = log_root w ∧ captures w' = captures w ∧ logs w' = logs w ∧ (dev w').2 = (dev w).2.
Lemma resolve_spec t w : wp (resolve_mcu_channel fl t : MP SerialChannel) (λ r w', w' = w ∧
  ∀ ch, r = Ret ch → ∃ cfg, usable t w cfg ch) w.
Proof.
  unfold resolve_mcu_channel. apply wp_bind, wp_lift.
  destruct (target_config fl t) as [cfg|x|] eqn:Hcfg; [|done..].
  destruct (mcu (channels cfg)) as [ch|] eqn:Hch; [|by apply wp_raise].
  destruct (ser_enabled ch) eqn:Hen; simpl; [|by apply wp_raise].
  case_bool_decide; [by apply wp_raise|]. apply wp_bind, wp_gets.
  destruct (capturing t "mcu" w) eqn:Hcap; [by apply wp_raise|].
  apply wp_ret. split; [done|]. intros ch' [= <-]. by exists cfg.
Qed.
Lemma reachable_spec host port (s : R) :
  wp (daemon_reachable host port : M R exn bool) (λ r s', s'.2 = s.2 ∧
    (r = Ret true → (tcp_connect host port 1000 s.1).1 = Ret tt)) s.
Proof.
  unfold daemon_reachable. apply wp_catch, wp_bind.
  destruct (under_run [] (tcp_connect host port 1000) s) as (r & e & Ht & Hr).
  rewrite app_nil_r in Ht. eapply wp_run; [exact Ht|].
  destruct r as [[]|x|]; [by apply wp_ret| |done]. by destruct (is_oserror x).
Qed.
Lemma wp_on_dev {A} (m : M R exn A) Q w :
  wp m Q (dev w) → wp (on_dev m) (λ r w', ∃ e, w' = Ports (log_root w) (captures w) (logs w) e ∧ Q r e) w.
Proof. unfold wp, on_dev. destruct (m (dev w)) as [r e]. simpl. by exists e. Qed.
Lemma refuse_spec t op force cfg w : target_config fl t = Ret cfg →
  wp (refuse_if_board_cold fl t op force : MP unit) (λ r w', idle w w' ∧
    (r = Ret tt → force = true ∨ board_up cfg (dev w).1)) w.
Proof.
  intros Hcfg. unfold refuse_if_board_cold, board_up. destruct force; [apply wp_ret; by split; [|auto]|].
  rewrite Hcfg. apply wp_bind, wp_lift.
  destruct (mcpd (channels cfg)) as [ch|]; [|apply wp_ret; split; [done|auto]].
  destruct (mcpd_enabled ch) eqn:Hen; simpl; [|apply wp_ret; split; [done|auto]].
  apply wp_bind, wp_lift. destruct (endpoint_port (mcpd_endpoint ch)) as [port|x|] eqn:Hp; [|by split..].
  apply wp_bind. eapply wp_mono; [apply wp_on_dev, reachable_spec|].
  intros r w' (e & -> & He & Hr).
  assert (idle w (Ports (log_root w) (captures w) (logs w) e)) as Hidle by done.
  destruct r as [[]|x|]; [apply wp_ret|apply wp_raise|..]; (split; [done|]); [|done..].
  intros _. right. right. exists port. split; [done|]. by apply Hr.
Qed.

(** Everything [r] and [w'] say about a tool run in [w]. *)
Definition told {A} (t : string) (o : power_op) w (r : res exn A) w' : Prop :=
  log_root w' = log_root w ∧ captures w' = captures w ∧ logs w' = logs w ∧
  ∃ evs, (dev w').2 = (dev w).2 ++ evs ∧
    (evs = [] ∧ (∀ a, r ≠ Ret a) ∨
     ∃ cfg ch, usable t w cfg ch ∧ confirmed o = true ∧ warm_enough o cfg (dev w).1 ∧
               session (ser_port ch) (words o) r evs).
Lemma told_idle {A} t o w (r : res exn A) w' : idle w w' → (∀ a, r ≠ Ret a) → told t o w r w'.
Proof.
  intros (H1 & H2 & H3 & H4) Hr. split_and!; [done..|]. exists []. rewrite H4, app_nil_r. auto.
Qed.
Lemma told_raise {A B} t o w (x : exn) w' :
  told t o w (Raise x : res exn A) w' → told t o w (Raise x : res exn B) w'.
Proof.
  intros (H1 & H2 & H3 & evs & He & Hs). split_and!; [done..|]. exists evs.
  split; [done|]. destruct Hs as [[-> _]|Hs]; [by left|by right].
Qed.
Lemma told_spin {A B} t o w w' :
  told t o w (Spin : res exn A) w' → told t o w (Spin : res exn B) w'.
Proof.
  intros (H1 & H2 & H3 & evs & He & Hs). split_and!; [done..|]. exists evs.
  split; [done|]. destruct Hs as [[-> _]|Hs]; [by left|by right].
Qed.
Lemma told_ret {A B} t o w (a : A) (b : B) w' : told t o w (Ret a) w' → told t o w (Ret b) w'.
Proof.
  intros (H1 & H2 & H3 & evs & He & Hs). split_and!; [done..|]. exists evs.
  split; [done|]. destruct Hs as [[_ Hr]|Hs]; [by destruct (Hr a)|by right].
Qed.
(** The result is only dressed up after the session. *)
Lemma told_then {A B} t o w (m : MP A) (f : A → B) w1 :
  wp m (told t o w) w1 → wp (a ← m; mret (f a)) (told t o w) w1.
Proof.
  intros Hm. apply wp_bind. eapply wp_mono; [exact Hm|]. intros [a|x|] w2 Ht.
  - apply wp_ret. by eapply told_ret.
  - by eapply told_raise.
  - by eapply told_spin.
Qed.
Lemma told_fmap {A B} t o w (m : MP A) (f : A → B) w1 :
  wp m (told t o w) w1 → wp (f <$> m) (told t o w) w1.
Proof.
  intros Hm. apply wp_fmap. eapply wp_mono; [exact Hm|]. intros [a|x|] w2 Ht.
  - by eapply told_ret.
  - by eapply told_raise.
  - by eapply told_spin.
Qed.
Lemma told_session t o cfg ch w w1 baud (body : nat → M R exn bytes) :
  idle w w1 → usable t w cfg ch → confirmed o = true → warm_enough o cfg (dev w).1 →
  (∀ h, writes h (words o) (body h)) →
  wp (ascii_replace <$> on_dev (with_port (ser_port ch) baud body) : MP text) (told t o w) w1.
Proof.
  intros (H1 & H2 & H3 & H4) Hu Hc Hw Hb. apply told_fmap.
  eapply wp_mono; [by eapply wp_on_dev, with_port_session|]. intros r w2 (e & -> & evs & He & Hs).
  split_and!; [done..|]. simpl. exists evs. rewrite He, H4. split; [done|]. right. by exists cfg, ch.
Qed.
(** A guard, and then the rest. *)
Lemma told_resolve {B} t o w (k : SerialChannel → MP B) :
  (∀ cfg ch, usable t w cfg ch → wp (k ch) (told t o w) w) →
  wp (resolve_mcu_channel fl t ≫= k) (told t o w) w.
Proof.
  intros Hk. apply wp_bind. eapply wp_mono; [apply resolve_spec|]. intros r w1 [-> Hr].
  destruct r as [ch|x|]; [|by apply told_idle..].
  destruct (Hr ch eq_refl) as [cfg Hu]. by apply (Hk cfg).
Qed.
Lemma told_refuse {B} t o cfg ch op force w (k : MP B) :
  usable t w cfg ch →
  (∀ w1, idle w w1 → force = true ∨ board_up cfg (dev w).1 → wp k (told t o w) w1) →
  wp (refuse_if_board_cold fl t op force;; k) (told t o w) w.
Proof.
  intros Hu Hk. apply wp_bind. eapply wp_mono; [by apply refuse_spec, Hu|]. intros r w1 [Hi Hr].
  destruct r as [[]|x|]; [|by apply told_idle..]. apply Hk; [done|]. by apply Hr.
Qed.
Lemma told_confirm {B} t o (c : bool) w (k : MP B) :
  (c = true → wp k (told t o w) w) → wp (require_confirm c;; k) (told t o w) w.
Proof.
  intros Hk. apply wp_bind. unfold require_confirm. destruct c; [by apply wp_ret, Hk|].
  apply wp_raise. by apply told_idle.
Qed.
(** C8: a power tool tells the port something only when the target has an
    enabled MCU channel with a port that is not being captured, the caller
    confirmed a destructive tool, and - for anything but switching on or off -
    the board is known to be up (its daemon accepts a connection, it has none,
    or the caller forces it).  What it then tells the port is one session: the
    port is opened, a wake-up and the command are written in order and nothing
    else, the port is closed again whatever goes wrong, and a tool that
    answers has written all of it. *)
Theorem power_gated t o w : wp (power_run t o) (told t o w) w.
Proof.
  destruct o as [op cmd force|watch c force|cmd c|cmd c force]; simpl; apply told_fmap.
  - apply told_resolve. intros cfg ch Hu. eapply told_refuse; [done|]. intros w1 Hi Hf.
    apply told_then. eapply told_session; [done..|]. intros h. apply writes_ask.
  - apply told_confirm. intros Hc. apply told_resolve. intros cfg ch Hu.
    eapply told_refuse; [done|]. intros w1 Hi Hf.
    destruct (0 <? watch) eqn:Hwatch; apply told_then; (eapply told_session; [done..|]);
      unfold words; rewrite Hwatch; intros h; [apply writes_stream|apply (writes_ask _ _ (txt "q"))].
  - apply told_confirm. intros Hc. apply told_resolve. intros cfg ch Hu.
    apply told_then. eapply told_session; [done..|]. intros h. apply writes_ask.
  - apply told_confirm. intros Hc. destruct (strip cmd); [by apply told_idle|].
    apply told_resolve. intros cfg ch Hu. destruct (cold_safe cmd) eqn:Hcold.
    + apply wp_bind, wp_ret. apply told_then. eapply told_session; [done..|by left|].
      intros h. apply writes_ask.
    + eapply told_refuse; [done|]. intros w1 Hi Hf. apply told_then.
      eapply told_session; [done..|by right|]. intros h. apply writes_ask.
Qed.
End guards.

(* ------------------------------------------------------------------ *)
(** ** A line that does not fall silent *)

Section busy.
Context {E : Type} `{SerialDev E}.
Abbreviation R := (E * list line_event)%type.
(** Every read finds something, as on a line the MCU streams on with pauses
    shorter than the 0.2 seconds a read waits. *)
Definition busy (h : nat) : Prop := ∀ e : E, ∃ b e', ser_read h 4096 e = (Ret b, e') ∧ b ≠ [].
Lemma drain_busy fuel h idle (s : R) :
  busy h → 0 < idle → ∃ s', drain fuel h idle s = (Spin, s') ∧ s'.2 = s.2.
Proof.
  intros Hb Hi. unfold drain.
  change ((t ← gets ticks; drain_loop fuel h idle t []) s) with (drain_loop fuel h idle (ticks s) [] s).
  generalize ([] : bytes). revert s. induction fuel as [|fuel IH]; intros s buf; simpl; [by eexists|].
  unfold mbind, M_bind, gets. simpl. replace (ticks s.1 - ticks s.1 <? idle) with true by lia.
  destruct (Hb s.1) as (b & e & Hr & Hne). unfold under. rewrite Hr. simpl.
  destruct b as [|c b]; [done|]. rewrite app_nil_r. apply (IH (e, s.2)).
Qed.
(** No command gets through, not even the one that would end the stream: both
    drivers wait for silence before they write anything. *)
Lemma busy_line_no_command fuel h (s : R) (cmd : text) idle watch :
  busy h →
  (∃ s', ask fuel h cmd idle s = (Spin, s') ∧ s'.2 = s.2) ∧
  (∃ s', watch_stream fuel h watch s = (Spin, s') ∧ s'.2 = s.2).
Proof.
  intros Hb. destruct (drain_busy fuel h 300 s Hb ltac:(lia)) as (s' & Hd & Hs).
  unfold ask, watch_stream, wake, mbind, M_bind. rewrite Hd. split; by exists s'.
Qed.
End busy.

(* ------------------------------------------------------------------ *)
(** ** Examples *)

(** A board that answers [ok] to everything written, on a clock in
    milliseconds. *)
Definition ex_line : SerialDev (Z * list bytes) := {|
  ser_open _ _ := mret 1%nat;
  ser_reset _ := mret tt;
  in_waiting _ := mret 0;
  ser_read _ _ := λ s, match s.2 with
                       | b :: q => (Ret b, (s.1 + 10, q))
                       | [] => (Ret [], (s.1 + 200, []))
                       end;
  ser_write _ b := λ s, (Ret tt, (s.1, s.2 ++ [txt "ok "]));
  ser_flush _ := mret tt;
  ser_close _ := mret tt;
  wall_clock s := s.1; ticks s := s.1;
  nap t := λ s, (Ret tt, (s.1 + t, s.2)) |}.
Definition ex_power_config : Config :=
  {| server := ServerConfig_default;
     targets := [("x5000", {| type := Remote; display_name := None; machine := None; qemu_config := None;
       headless := false; tags := []; sandbox := None; input := None;
       channels := {| mcpd := Some {| mcpd_enabled := true; mcpd_endpoint := "10.0.0.5:4321"; discovery_port := None |};
                      qmp := None; gdb := None; uboot := None;
                      mcu := Some {| ser_enabled := true; ser_port := "COM5"; ser_baud := 38400 |} |} |})];
     paths := paths ex_config; defaults := defaults ex_config |}%string.
(** The daemon does not answer: a query is refused before the port is opened,
    switching on is not, and asks the MCU. *)
#[local] Existing Instance ex_line.
#[local] Instance ex_down : Tcp (Z * list bytes) := λ _ _ _, raise (EOS ConnectionRefusedError "refused").
Definition ex_board : ports ((Z * list bytes) * list line_event) := Ports "logs" [] ∅ ((0, []), []).
Example power_on_cold :
  let fl := Fleet_init ex_power_config in
  (dev (power_run fl 100 id "x5000" (OQuery "sensors" (txt "v") false) ex_board).2).2 = [] ∧
  (power_run fl 100 id "x5000" (OSwitch (txt "p") true) ex_board).1 = Ret tt ∧
  (dev (power_run fl 100 id "x5000" (OSwitch (txt "p") true) ex_board).2).2 =
    [EvOpen "COM5"; EvWrite 1 cr; EvWrite 1 (txt "p" ++ cr); EvClose 1].
Proof. vm_compute. done. Qed.
Example busy_line : @busy Z {|
    ser_open _ _ := mret 1%nat; ser_reset _ := mret tt; in_waiting _ := mret 1;
    ser_read _ _ := λ t, (Ret (txt "$"), t + 100); ser_write _ _ := mret tt; ser_flush _ := mret tt;
    ser_close _ := mret tt; wall_clock t := t; ticks t := t; nap d := λ t, (Ret tt, t + d) |} 1.
Proof. intros e. by eexists _, _. Qed.
