(* ===== verification/Archive.v ===== *)
(** * The call archive: [archive/store.py] and the [archived] decorator

    What is recorded of each tool call, how oversized payloads are kept out,
    and how old runs and serial logs are pruned. *)
From S2P Require Import Prelude Py Bytes.

(* ------------------------------------------------------------------ *)
(** ** Scrubbing *)

(** The Python values a log entry is made of: [None], booleans, numbers and
    paths are [VAtom]s that only [json.dumps] looks into. *)
#[local] Unset Elimination Schemes.
Inductive pyval : Type :=
| VAtom (repr : text)
| VBytes (b : bytes)
| VStr (s : text)
| VDict (l : list (text * pyval))
| VList (l : list pyval).
#[local] Set Elimination Schemes.
Section pyval_ind.
Context (P : pyval → Prop) (HAtom : ∀ a, P (VAtom a)) (HBytes : ∀ b, P (VBytes b)) (HStr : ∀ s, P (VStr s))
  (HDict : ∀ l, Forall (λ kv, P kv.2) l → P (VDict l)) (HList : ∀ l, Forall P l → P (VList l)).
Fixpoint pyval_ind (v : pyval) : P v :=
  match v with
  | VAtom a => HAtom a
  | VBytes b => HBytes b
  | VStr s => HStr s
  | VDict l => HDict l ((fix go l : Forall (λ kv, P kv.2) l := match l with
                         | [] => Forall_nil_2 _
                         | kv :: l' => Forall_cons_2 _ _ _ (pyval_ind kv.2) (go l')
                         end) l)
  | VList l => HList l ((fix go l : Forall P l := match l with
                         | [] => Forall_nil_2 _
                         | x :: l' => Forall_cons_2 _ _ _ (pyval_ind x) (go l')
                         end) l)
  end.
End pyval_ind.
Definition VTrue : pyval := VAtom (txt "True").
Definition VInt (z : Z) : pyval := VAtom (show_int z).

Definition MAX_LOGGED_STR : nat := 4096.
(** [_scrub] *)
Fixpoint scrub (v : pyval) : pyval :=
  match v with
  | VBytes b => VDict [(txt "$bytes", VTrue); (txt "len", VInt (Z.of_nat (length b)));
                       (txt "head_b64", VStr (py_b64encode (take 256 b)))]
  | VStr s =>
      if bool_decide (MAX_LOGGED_STR < length s)%nat
      then VDict [(txt "$str", VTrue); (txt "len", VInt (Z.of_nat (length s))); (txt "head", VStr (take 256 s))]
      else VStr s
  | VDict l => VDict (map (λ kv, (kv.1, scrub kv.2)) l)
  | VList l => VList (map scrub l)
  | VAtom a => VAtom a
  end.
(** A value an entry may hold: no bytes, no string over the limit. *)
Fixpoint loggable (v : pyval) : bool :=
  match v with
  | VAtom _ => true
  | VBytes _ => false
  | VStr s => bool_decide (length s ≤ MAX_LOGGED_STR)%nat
  | VDict l => forallb (λ kv, loggable kv.2) l
  | VList l => forallb loggable l
  end.

(** what is recorded of parameters and results never holds raw bytes or a
    string over 4096 characters, and a value without either is recorded as it
    is; so scrubbing twice is scrubbing once. *)
Theorem scrub_bounded v :
  loggable (scrub v) = true ∧ (loggable v = true → scrub v = v) ∧ scrub (scrub v) = scrub v.
Proof.
  assert (∀ v, loggable v = true → scrub v = v) as Hid.
  { clear v. induction v as [a|b|s|l IH|l IH] using pyval_ind; simpl; intros Hl; [done..| | |].
    - apply bool_decide_eq_true in Hl. by rewrite bool_decide_eq_false_2 by lia.
    - f_equal. rewrite forallb_forall in Hl. rewrite Forall_forall in IH.
      rewrite <-(map_id l) at 2. apply map_ext_in. intros [k v] Hin. simpl. f_equal.
      apply (IH (k, v)); [by apply list_elem_of_In|]. by apply (Hl (k, v)).
    - f_equal. rewrite forallb_forall in Hl. rewrite Forall_forall in IH.
      rewrite <-(map_id l) at 2. apply map_ext_in. intros v Hin.
      apply IH; [by apply list_elem_of_In|]. by apply Hl. }
  assert (loggable (scrub v) = true) as Hok.
  { induction v as [a|b|s|l IH|l IH] using pyval_ind; simpl.
    - done.
    - rewrite andb_true_r. apply bool_decide_eq_true_2. unfold MAX_LOGGED_STR, py_b64encode.
      pose proof (length_b64_encode (take 256 b)) as Hlen. rewrite length_take in Hlen.
      enough (Z.of_nat (length (b64_encode (take 256 b))) ≤ 4096) by lia. rewrite Hlen.
      enough ((Z.of_nat (256 `min` length b) + 2) / 3 ≤ 86) by lia.
      apply Z.div_le_upper_bound; lia.
    - case_bool_decide as Hs; simpl; [|by apply bool_decide_eq_true_2; lia].
      rewrite andb_true_r. apply bool_decide_eq_true_2. rewrite length_take. unfold MAX_LOGGED_STR. lia.
    - induction IH as [|kv l Hkv _ IHl]; simpl; [done|]. by rewrite Hkv, IHl.
    - induction IH as [|x l Hx _ IHl]; simpl; [done|]. by rewrite Hx, IHl. }
  split_and!; [done|apply Hid|by apply Hid].
Qed.

(* ------------------------------------------------------------------ *)
(** ** Recording calls *)

(** The file of the run, the clocks (milliseconds and the timestamps of
    entries), [json.dumps] and the texts of exceptions. *)
Class RunLog (E : Type) := {
  append_file : text → M E exn unit;
  perf_counter : E → Z;
  utc_now : E → text;
  dumps : pyval → res exn text;
  str_exn : exn → text;
  message : exn → text;
  value_of_json : json → pyval }.

Section archive.
Context {E : Type} `{RunLog E}.
Abbreviation ME := (M E exn).

(** The entry of [log_call]; [duration] is in milliseconds. *)
Definition entry (ts tool : text) (target : option text) (params : pyval) (outcome : pyval + pyval)
    (duration : option Z) : pyval :=
  VDict ([(txt "ts", VStr ts); (txt "tool", VStr tool);
          (txt "target", match target with Some t => VStr t | None => VAtom (txt "None") end);
          (txt "params", scrub params)] ++
         match outcome with
         | inl error => [(txt "error", error)]
         | inr result => [(txt "result", scrub result)]
         end ++
         match duration with Some d => [(txt "duration_ms", VInt d)] | None => [] end).
Definition log_call (tool : text) (target : option text) (params : pyval) (outcome : pyval + pyval)
    (duration : option Z) : ME unit :=
  ts ← gets utc_now;
  line ← lift (dumps (entry ts tool target params outcome duration));
  append_file (line ++ ["010"%char]).

(** [kwargs.get(k)] and the other parameters. *)
Definition dict_get (k : text) (l : list (text * pyval)) : option pyval :=
  snd <$> find (λ kv, bool_decide (kv.1 = k)) l.
Definition without (k : text) (l : list (text * pyval)) : list (text * pyval) :=
  filter (λ kv, kv.1 ≠ k) l.
Definition as_str (v : option pyval) : option text :=
  match v with Some (VStr s) => Some s | _ => None end.
(** [e.to_dict()] *)
Definition error_dict (c : rpc_class) (data : option json) (message : text) : pyval :=
  VDict ([(txt "code", VInt (rpc_code c)); (txt "message", VStr message)] ++
         match data with Some d => [(txt "data", value_of_json d)] | None => [] end).
Definition elapsed (t0 t1 : option Z) : Z :=
  match t0, t1 with Some t0, Some t1 => t1 - t0 | _, _ => 0 end.
(** The decorated call of [fn]; [serialise] is [_serialise_result].  The
    parameters are references, so what is recorded of them is what they hold when
    the call is over.  [Timer.elapsed] is 0 until the [with] block is left, and
    the handlers run inside it. *)
Definition archived_by {A} (tool : text) (target : option text) (params : E → pyval) (serialise : A → pyval)
    (fn : ME A) : ME A :=
  let log o d := p ← gets params; log_call tool target p o (Some d) in
  t0 ← gets perf_counter;
  result ← catch fn (λ e,
    match e with
    | ERpc c data => log (inl (error_dict c data (message e))) (elapsed (Some t0) None);; raise e
    | ECancelled => raise e
    | _ => log (inl (VDict [(txt "code", VInt (-32603)); (txt "message", VStr (str_exn e))])) (elapsed (Some t0) None);;
           raise (ERpc InternalError None)
    end);
  t1 ← gets perf_counter;
  log (inr (serialise result)) (elapsed (Some t0) (Some t1));;
  mret result.
(** ... with [kwargs] that the call leaves alone. *)
Definition archived {A} (tool target_arg : text) (serialise : A → pyval)
    (kwargs : list (text * pyval)) (fn : ME A) : ME A :=
  archived_by tool (as_str (dict_get target_arg kwargs)) (λ _, VDict (without target_arg kwargs)) serialise fn.

(** What the decorator makes of an exception. *)
Definition reported (e : exn) : exn :=
  match e with ERpc _ _ | ECancelled => e | _ => ERpc InternalError None end.
(** The entry a call that ended with [r] leaves behind, if any. *)
Definition outcome_of (r : res exn pyval) : option (pyval + pyval) :=
  match r with
  | Ret a => Some (inr a)
  | Raise (ERpc c data) => Some (inl (error_dict c data (message (ERpc c data))))
  | Raise ECancelled | Spin => None
  | Raise e => Some (inl (VDict [(txt "code", VInt (-32603)); (txt "message", VStr (str_exn e))]))
  end.
Definition passed_on (r : res exn pyval) : res exn pyval :=
  match r with Raise e => Raise (reported e) | _ => r end.
End archive.

(** ** The file of a run *)

(** A file that grows beside an environment; [json.dumps] writes no line feed
    outside escapes, and the entries are values it can encode. *)
Section ndjson.
Context {E : Type} `{RunLog E}.
Abbreviation F := (E * text)%type.
Definition nl : ascii := "010"%char.
#[export] Instance file_log : RunLog F := {|
  append_file t := λ w, (Ret tt, (w.1, w.2 ++ t));
  perf_counter w := perf_counter w.1; utc_now w := utc_now w.1;
  dumps := dumps; str_exn := str_exn; message := message; value_of_json := value_of_json |}.
Definition in_file {A} (m : M E exn A) : M F exn A := λ w, let '(r, e) := m w.1 in (r, (e, w.2)).

(** A call of a registered tool: its name, arguments and function. *)
Record call := Call { c_tool : text; c_kwargs : list (text * pyval); c_fn : M E exn pyval }.
Fixpoint run_calls (cs : list call) (w : F) : list (res exn pyval) * F :=
  match cs with
  | [] => ([], w)
  | c :: cs =>
      let '(r, w) := archived (c_tool c) (txt "target") id (c_kwargs c) (in_file (c_fn c)) w in
      let '(rs, w) := run_calls cs w in (r :: rs, w)
  end.
(** The specification: the calls on their own, with the entry each one is
    worth. *)
Definition entry_of (c : call) (r : res exn pyval) (e e1 : E) : list pyval :=
  match outcome_of (E := E) r with
  | Some o =>
      [entry (utc_now e1) (c_tool c) (as_str (dict_get (txt "target") (c_kwargs c)))
         (VDict (without (txt "target") (c_kwargs c))) o
         (Some (match r with Ret _ => perf_counter e1 - perf_counter e | _ => 0 end))]
  | None => []
  end.
Fixpoint history (cs : list call) (e : E) : list (res exn pyval) * list pyval * E :=
  match cs with
  | [] => ([], [], e)
  | c :: cs =>
      let '(r, e1) := c_fn c e in
      let '(rs, es, e2) := history cs e1 in
      (passed_on r :: rs, entry_of c r e e1 ++ es, e2)
  end.
Context (enc : pyval → text) (Henc : ∀ v, dumps (E := E) v = Ret (enc v)) (Hnl : ∀ v, nl ∉ enc v).
Lemma log_call_run tool target params o d (w : F) :
  log_call tool target params o d w =
    (Ret tt, (w.1, w.2 ++ enc (entry (utc_now w.1) tool target params o d) ++ [nl])).
Proof.
  unfold log_call, mbind, M_bind, gets, lift. cbv beta iota.
  change (@dumps F file_log) with (@dumps E H). rewrite Henc. reflexivity.
Qed.
Lemma in_file_run {A} (m : M E exn A) e f : in_file m (e, f) = ((m e).1, ((m e).2, f)).
Proof. unfold in_file. simpl. by destruct (m e). Qed.
Definition duration_of (r : res exn pyval) (e e1 : E) : Z :=
  match r with Ret _ => perf_counter e1 - perf_counter e | _ => 0 end.
Lemma archived_by_run tool target (params : F → pyval) (fn : M E exn pyval) e f :
  let '(r, e1) := fn e in
  archived_by tool target params id (in_file fn) (e, f) =
    (passed_on r,
     (e1, f ++ match outcome_of (E := E) r with
               | Some o => enc (entry (utc_now e1) tool target (params (e1, f)) o (Some (duration_of r e e1))) ++ [nl]
               | None => []
               end)).
Proof.
  pose proof (in_file_run fn e f) as Hf.
  destruct (fn e) as [r e1] eqn:He. eapply bind_then; [reflexivity|].
  destruct r as [a|x|]; cbn [fst snd outcome_of] in *.
  - eapply bind_then; [by eapply catch_run|].
    eapply bind_then; [reflexivity|]. eapply bind_then; [eapply bind_then; [reflexivity|apply log_call_run]|done].
  - destruct x as [code d|k s|k| |].
    all: eapply bind_raise, catch_then; [exact Hf|].
    all: try (eapply bind_then; [eapply bind_then; [reflexivity|apply log_call_run]|done]).
    simpl. by rewrite app_nil_r.
  - unfold mbind, M_bind, catch. rewrite Hf. simpl. by rewrite app_nil_r.
Qed.
Lemma archived_run c e f :
  archived (c_tool c) (txt "target") id (c_kwargs c) (in_file (c_fn c)) (e, f) =
    (passed_on (c_fn c e).1,
     ((c_fn c e).2, f ++ mjoin (map (λ v, enc v ++ [nl]) (entry_of c (c_fn c e).1 e (c_fn c e).2)))).
Proof.
  unfold archived, entry_of; epose proof (archived_by_run _ _ _ (c_fn c) e f) as R; destruct (c_fn c e) as [r e1].
  rewrite R; simpl; unfold duration_of; destruct (outcome_of r); simpl; by rewrite ?app_nil_r.
Qed.
Lemma split_on_lines (ls : list text) (t : text) : Forall (λ l, nl ∉ l) ls →
  split_on nl (mjoin (map (λ l, l ++ [nl]) ls) ++ t) = ls ++ split_on nl t.
Proof.
  induction 1 as [|l ls Hl _ IH]; [done|].
  change (mjoin (map (λ l, l ++ [nl]) (l :: ls))) with ((l ++ [nl]) ++ mjoin (map (λ l, l ++ [nl]) ls)).
  rewrite <-!(assoc_L (++)). simpl. rewrite <-IH. generalize (mjoin (map (λ l, l ++ [nl]) ls) ++ t). clear IH.
  intros u. induction l as [|c l IH]; simpl; [done|].
  apply not_elem_of_cons in Hl as [Hc Hl]. rewrite decide_False by done. by rewrite IH.
Qed.

Lemma run_calls_file cs e f : let '(rs, es, e') := history cs e in
  run_calls cs (e, f) = (rs, (e', f ++ mjoin (map (λ v, enc v ++ [nl]) es))).
Proof.
  revert e f. induction cs as [|c cs IH]; intros e f; simpl; [by rewrite app_nil_r|].
  rewrite archived_run. destruct (c_fn c e) as [r e1]. simpl.
  specialize (IH e1 (f ++ mjoin (map (λ v, enc v ++ [nl]) (entry_of c r e e1)))).
  destruct (history cs e1) as [[rs es] e2]. rewrite IH.
  by rewrite map_app, join_app, <-(assoc_L (++)).
Qed.

(** over any sequence of calls the archive is invisible to callers - each
    gets its result or its error, an unexpected exception as an
    [InternalError] - and the run's file gains exactly one line per call that
    was not cancelled, in order: split at line feeds it is the encoded
    entries, and each entry holds what its call ended with. *)
Theorem archive_line_per_call cs e :
  let '(rs, es, e') := history cs e in
  ∃ file, run_calls cs (e, []) = (rs, (e', file)) ∧ split_on nl file = map enc es ++ [[]].
Proof.
  pose proof (run_calls_file cs e []) as Hrun. destruct (history cs e) as [[rs es] e']. eexists. split; [exact Hrun|].
  simpl. rewrite <-(app_nil_r (mjoin _)).
  replace (map (λ v, enc v ++ [nl]) es) with (map (λ l, l ++ [nl]) (map enc es)) by by rewrite map_map.
  rewrite split_on_lines; [done|]. apply Forall_map, Forall_true. apply Hnl.
Qed.
End ndjson.

(* ------------------------------------------------------------------ *)
(** ** Pruning *)

(** A directory in the order it is listed; deleting a [locked] entry fails. *)
Record file := File { is_dir : bool; st_mtime : Z; st_size : Z }.
Definition folder := list (string * file).
Section prune.
Context (locked : string → bool).
Abbreviation MD := (M folder exn).
Definition delete_entry (n : string) : MD unit :=
  if locked n then raise (EOS OSError "") else modify (filter (λ e, e.1 ≠ n)).
(** The deletion loop: what could not be deleted is left and not reported. *)
Fixpoint delete_each (ns : list string) : MD (list string) :=
  match ns with
  | [] => mret []
  | n :: ns =>
      gone ← catch (delete_entry n;; mret true) (λ e, if is_oserror e then mret false else raise e);
      rest ← delete_each ns;
      mret (if gone : bool then n :: rest else rest)
  end.
(** [l[:-n]] for a positive [n] *)
Definition but_last {A} (n : Z) (l : list A) : list A := take (length l - Z.to_nat n) l.

(** [len(d.name) == 16 and d.name.endswith("Z")] of a directory *)
Definition is_run (e : string * file) : bool :=
  is_dir e.2 && bool_decide (String.length e.1 = 16)%nat && endswith (txt "Z") (txt e.1).
Definition runs (d : folder) : list string := merge_sort String.le (filter (λ e, is_run e = true) d).*1.
Definition old_runs (keep : Z) (d : folder) : list string :=
  let rs := runs d in if keep <? Z.of_nat (length rs) then but_last keep rs else [].
(** [prune_runs]; a root that does not exist is an empty one. *)
Definition prune_runs (keep : Z) : MD (list string) :=
  if keep <=? 0 then mret []
  else d ← get; delete_each (old_runs keep d).

(** [sorted(..., key=mtime)]: stable. *)
Fixpoint insert_by {A} (key : A → Z) (x : A) (l : list A) : list A :=
  match l with
  | [] => [x]
  | y :: l => if key x <=? key y then x :: y :: l else y :: insert_by key x l
  end.
Fixpoint sort_by {A} (key : A → Z) (l : list A) : list A :=
  match l with [] => [] | x :: l => insert_by key x (sort_by key l) end.
Definition sum_sizes (l : list (string * file)) : Z := fold_right (λ e z, st_size e.2 + z) 0 l.
(** The size loop: [survivors[:-1]] oldest first. *)
Fixpoint over_budget (budget total : Z) (l : list (string * file)) : list (string * file) :=
  match l with
  | [] => []
  | f :: l => if total <=? budget then [] else f :: over_budget budget (total - st_size f.2) l
  end.
Definition logs_of (glob : string → bool) (d : folder) : list (string * file) :=
  sort_by (λ e, st_mtime e.2) (filter (λ e, glob e.1 && negb (is_dir e.2) = true) d).
Definition doomed (keep : Z) (budget : option Z) (files : list (string * file)) : list (string * file) :=
  let by_count := if (0 <? keep) && (keep <? Z.of_nat (length files)) then but_last keep files else [] in
  match budget with
  | None => by_count
  | Some b =>
      let survivors := filter (λ f, f.1 ∉ by_count.*1) files in
      by_count ++ over_budget b (sum_sizes survivors) (but_last 1 survivors)
  end.
Definition prune_logs (keep : Z) (glob : string → bool) (budget : option Z) : MD (list string) :=
  match budget with
  | None => if keep <=? 0 then mret []
            else d ← get; delete_each (doomed keep None (logs_of glob d)).*1
  | Some b => d ← get; delete_each (doomed keep (Some b) (logs_of glob d)).*1
  end.

(** ** What is deleted *)

Definition unlocked (ns : list string) : list string := filter (λ n, locked n = false) ns.
Lemma keep_all (ns : list string) (d : folder) : (∀ e, e ∈ d → e.1 ∉ ns) → filter (λ e, e.1 ∉ ns) d = d.
Proof.
  unfold folder in *. induction d as [|e d IH]; intros Hns; [done|].
  rewrite filter_cons_True by (apply Hns; set_solver). f_equal. apply IH. intros e' He'. apply Hns. set_solver.
Qed.
Lemma delete_each_spec ns d :
  delete_each ns d = (Ret (unlocked ns), filter (λ e, e.1 ∉ unlocked ns) d).
Proof.
  revert d. induction ns as [|n ns IH]; intros d; cbn [delete_each].
  { unfold mret, M_ret. by rewrite keep_all by set_solver. }
  unfold mbind, M_bind, catch, delete_entry, unlocked. rewrite filter_cons.
  destruct (locked n) eqn:Hn; cbn -[filter].
  - rewrite IH. by rewrite decide_False by done.
  - rewrite IH. rewrite decide_True by done. unfold mret, M_ret. f_equal. fold (unlocked ns).
    unfold folder. rewrite list_filter_filter. apply list_filter_iff. intros e. rewrite not_elem_of_cons. tauto.
Qed.
Lemma but_last_spec {A} n (l : list A) : 0 < n →
  ∃ r, l = but_last n l ++ r ∧ Z.of_nat (length r) = Z.min n (Z.of_nat (length l)).
Proof.
  intros Hn. exists (drop (length l - Z.to_nat n) l). unfold but_last.
  rewrite take_drop, length_drop. split; [done|lia].
Qed.
Lemma old_runs_spec keep d : 0 < keep →
  ∃ kept, runs d = old_runs keep d ++ kept ∧ Z.of_nat (length kept) = Z.min keep (Z.of_nat (length (runs d))).
Proof.
  intros Hk. unfold old_runs. destruct (keep <? _) eqn:Hlt; [by apply but_last_spec|].
  exists (runs d). split; [done|lia].
Qed.
(** Pruning run directories deletes the oldest ones, by name, and nothing
    else: at most [keep] runs remain besides those that cannot be deleted,
    every deleted run is older than every one that was kept, exactly the
    deletions that worked are reported, and no other entry is touched. *)
Theorem prune_runs_oldest keep d :
  0 < keep → NoDup d.*1 →
  ∃ old kept d', prune_runs keep d = (Ret (unlocked old), d') ∧
    old ++ kept ≡ₚ (filter (λ e, is_run e = true) d).*1 ∧
    Z.of_nat (length kept) = Z.min keep (Z.of_nat (length (old ++ kept))) ∧
    (∀ a b, a ∈ old → b ∈ kept → String.le a b) ∧
    d' = filter (λ e, e.1 ∉ unlocked old) d.
Proof.
  intros Hk Hnd. destruct (old_runs_spec keep d Hk) as (kept & Hruns & Hlen).
  unfold prune_runs. replace (keep <=? 0) with false by lia.
  change ((d0 ← get; delete_each (old_runs keep d0)) d) with (delete_each (old_runs keep d) d).
  rewrite delete_each_spec. exists (old_runs keep d), kept. eexists.
  rewrite <-Hruns. split_and!; [done|apply merge_sort_Permutation|done| |done].
  assert (StronglySorted String.le (runs d)) as Hs by apply (StronglySorted_merge_sort String.le).
  rewrite Hruns in Hs. intros a b Ha Hb. by eapply StronglySorted_app_1_elem_of.
Qed.

Lemma insert_by_Permutation {A} (key : A → Z) x l : insert_by key x l ≡ₚ x :: l.
Proof. induction l as [|y l IH]; simpl; [done|]. case_match; [done|]. rewrite IH. constructor. Qed.
Lemma sort_by_Permutation {A} (key : A → Z) l : sort_by key l ≡ₚ l.
Proof. induction l as [|x l IH]; simpl; [done|]. by rewrite insert_by_Permutation, IH. Qed.
Lemma sort_by_sorted {A} (key : A → Z) l : StronglySorted (λ a b, key a ≤ key b) (sort_by key l).
Proof.
  induction l as [|x l IH]; simpl; [constructor|]. generalize dependent (sort_by key l). clear l.
  induction 1 as [|y l Hl IH Hy]; simpl; [by repeat constructor|]. case_match.
  - repeat constructor; [done..|lia|]. eapply Forall_impl; [done|]. simpl. lia.
  - constructor; [done|]. rewrite insert_by_Permutation. constructor; [lia|done].
Qed.
Lemma sum_sizes_app l1 l2 : sum_sizes (l1 ++ l2) = sum_sizes l1 + sum_sizes l2.
Proof. induction l1; simpl; lia. Qed.
Lemma exists_last_or_nil {A} (l : list A) : l = [] ∨ ∃ o f, l = o ++ [f].
Proof. destruct l using rev_ind; [by left|right; eauto]. Qed.
Lemma over_budget_spec b tail l : ∃ k, l = over_budget b (sum_sizes l + tail) l ++ k ∧
  (sum_sizes k + tail ≤ b ∨ k = []) ∧
  ∀ o f, over_budget b (sum_sizes l + tail) l = o ++ [f] → b < st_size f.2 + sum_sizes k + tail.
Proof.
  induction l as [|f l IH]; simpl.
  { exists []. split_and!; [done|by right|]. by intros [] f. }
  destruct (_ <=? b) eqn:Hle.
  { exists (f :: l). split_and!; [done|left; simpl; lia|]. by intros [] f'. }
  replace (st_size f.2 + sum_sizes l + tail - st_size f.2) with (sum_sizes l + tail) by lia.
  destruct IH as (k & Hl & Hk & Hmin). exists k. split_and!; [by rewrite Hl at 1|done|].
  intros [|f0 o] f' Heq; simpl in Heq.
  - injection Heq as <- Hnil. rewrite Hnil in Hl. simpl in Hl. subst k. lia.
  - injection Heq as <- Heq. by apply (Hmin o).
Qed.
Lemma by_count_spec {A} keep (l : list A) : ∃ r,
  l = (if (0 <? keep) && (keep <? Z.of_nat (length l)) then but_last keep l else []) ++ r ∧
  (0 < keep → Z.of_nat (length r) = Z.min keep (Z.of_nat (length l))) ∧
  (keep ≤ 0 → r = l).
Proof.
  destruct (_ && _) eqn:Hc.
  - destruct (but_last_spec keep l) as (r & Hl & Hr); [lia|]. exists r. split_and!; [done|done|lia].
  - exists l. split_and!; [done|lia|done].
Qed.
(** The bounds asked for; one file is always allowed. *)
Definition within (keep : Z) (budget : option Z) (l : list (string * file)) : Prop :=
  (0 < keep → Z.of_nat (length l) ≤ keep) ∧
  (∀ b, budget = Some b → sum_sizes l ≤ b ∨ (length l ≤ 1)%nat).
Lemma survivors_rest (a r : list (string * file)) :
  NoDup (a ++ r).*1 → filter (λ f, f.1 ∉ a.*1) (a ++ r) = r.
Proof.
  rewrite fmap_app, NoDup_app. intros (_ & Hd & _). rewrite filter_app.
  replace (filter (λ f, f.1 ∉ a.*1) a) with ([] : list (string * file)).
  - simpl. apply keep_all. intros e He Hin. apply (Hd e.1 Hin). by apply list_elem_of_fmap_2.
  - symmetry. enough (∀ l, l ⊆ a → filter (λ f, f.1 ∉ a.*1) l = []) as H by by apply H.
    induction l as [|x l IH]; intros Hs; [done|].
    rewrite filter_cons_False; [apply IH; set_solver|].
    intros Hn. apply Hn. apply list_elem_of_fmap_2, Hs. set_solver.
Qed.
Lemma doomed_spec keep budget files : NoDup files.*1 → files ≠ [] → ∃ kept,
  files = doomed keep budget files ++ kept ∧ kept ≠ [] ∧ within keep budget kept ∧
  ∀ o f, doomed keep budget files = o ++ [f] → ¬ within keep budget (f :: kept).
Proof.
  intros Hnd Hne. unfold doomed. destruct (by_count_spec keep files) as (r & Hf & Hr & Hall).
  set (bc := if _ && _ then _ else _) in *.
  assert (r ≠ []) as Hrne.
  { intros ->. destruct (decide (0 < keep)) as [Hk|Hk]; [|by apply Hne; rewrite <-Hall by lia].
    specialize (Hr Hk). destruct files; [done|simpl in Hr; lia]. }
  assert (0 < keep → ∀ o f, bc = o ++ [f] → ¬ within keep budget (f :: r)) as Hcount.
  { intros Hk o f Hbc [Hw _]. specialize (Hw Hk). specialize (Hr Hk). apply (f_equal length) in Hf.
    rewrite Hbc, !length_app in Hf. simpl in *. lia. }
  assert (∀ o f, bc = o ++ [f] → 0 < keep) as Hpos.
  { intros o f Hbc. unfold bc in Hbc. destruct (0 <? keep) eqn:?; [lia|]. by destruct o. }
  destruct budget as [b|].
  2: { exists r. split_and!; [done|done| |].
       - split; [|done]. intros Hk. rewrite Hr by done. lia.
       - intros o f Hbc. by eapply Hcount; eauto. }
  assert (filter (λ f, f.1 ∉ bc.*1) files = r) as Hsurv
    by (rewrite Hf in Hnd |- *; by apply survivors_rest).
  rewrite Hsurv. destruct (exists_last Hrne) as (l & x & ->).
  assert (but_last 1 (l ++ [x]) = l) as Hbut.
  { unfold but_last. rewrite length_app. simpl. by rewrite take_app_le, take_ge by lia. }
  rewrite Hbut, sum_sizes_app. simpl. rewrite Z.add_0_r.
  destruct (over_budget_spec b (st_size x.2) l) as (k & Hl & Hk & Hmin).
  set (over := over_budget _ _ _) in *. exists (k ++ [x]). split_and!.
  - rewrite Hf at 1. rewrite Hl at 1. by rewrite <-!(assoc_L (++)).
  - by destruct k.
  - split.
    + intros Hkeep. specialize (Hr Hkeep). rewrite Hl, !length_app in Hr. rewrite length_app. simpl in *. lia.
    + intros b' [= <-]. rewrite sum_sizes_app. simpl. destruct Hk as [Hk| ->]; [left; lia|by right].
  - intros o f. destruct (exists_last_or_nil over) as [-> |(o' & f' & ->)].
    + rewrite app_nil_r. intros Hbc. assert (k = l) as -> by done. by eapply Hcount; eauto.
    + intros Heq [_ Hw]. rewrite (assoc_L (++)) in Heq. apply app_inj_2 in Heq as [_ [= ->]]; [|done].
      specialize (Hmin o' f eq_refl). destruct (Hw b eq_refl) as [Hs|Hs].
      * simpl in Hs. rewrite sum_sizes_app in Hs. simpl in Hs. lia.
      * simpl in Hs. rewrite length_app in Hs. simpl in Hs. lia.
Qed.
Lemma logs_of_spec glob d : NoDup d.*1 →
  NoDup (logs_of glob d).*1 ∧ StronglySorted (λ a b, st_mtime a.2 ≤ st_mtime b.2) (logs_of glob d) ∧
  logs_of glob d ≡ₚ filter (λ e, glob e.1 && negb (is_dir e.2) = true) d.
Proof.
  intros Hnd. unfold logs_of. split_and!; [|apply sort_by_sorted|apply sort_by_Permutation].
  rewrite sort_by_Permutation. eapply sublist_NoDup; [exact Hnd|]. apply fmap_sublist, sublist_filter.
Qed.
(** pruning the serial logs of a directory, with a count, a byte budget
    or both, deletes a run of the oldest files, stops as soon as what is left
    is within the bounds, and never takes the newest file; what is left is
    within the bounds or is that one file; deletions that fail are skipped,
    and no other entry of the directory is touched. *)
Theorem prune_logs_minimal keep glob budget d :
  NoDup d.*1 → 0 < keep ∨ is_Some budget → logs_of glob d ≠ [] →
  ∃ gone kept, logs_of glob d = gone ++ kept ∧
    prune_logs keep glob budget d =
      (Ret (unlocked gone.*1), filter (λ e, e.1 ∉ unlocked gone.*1) d) ∧
    kept ≠ [] ∧ within keep budget kept ∧
    (∀ o f, gone = o ++ [f] → ¬ within keep budget (f :: kept)) ∧
    (∀ a b, a ∈ gone → b ∈ kept → st_mtime a.2 ≤ st_mtime b.2).
Proof.
  intros Hnd Hb Hne. destruct (logs_of_spec glob d Hnd) as (Hnd' & Hs & _).
  destruct (doomed_spec keep budget _ Hnd' Hne) as (kept & Hl & Hk & Hw & Hmin).
  exists (doomed keep budget (logs_of glob d)), kept. split_and!; [done| |done..|].
  - unfold prune_logs.
    assert (∀ bs, (d0 ← get; delete_each (doomed keep bs (logs_of glob d0)).*1) d =
      (Ret (unlocked (doomed keep bs (logs_of glob d)).*1),
       filter (λ e, e.1 ∉ unlocked (doomed keep bs (logs_of glob d)).*1) d)) as Hrun
      by (intros bs; apply delete_each_spec).
    destruct budget as [b|]; [apply Hrun|]. destruct Hb as [Hb|[? ?]]; [|done].
    replace (keep <=? 0) with false by lia. apply Hrun.
  - intros a b Ha Hb'. rewrite Hl in Hs. by eapply (StronglySorted_app_1_elem_of _ _ _ a b) in Hs.
Qed.
End prune.

(* ------------------------------------------------------------------ *)
(** ** Examples *)

Definition ex_log (mtime size : Z) : file := File false mtime size.
Definition ex_logs : folder :=
  [("3.log", ex_log 3 40); ("1.log", ex_log 1 50); ("2.log", ex_log 2 60); ("keep.txt", ex_log 0 9);
   ("4.log", ex_log 4 70)]%string.
Definition is_log (n : string) : bool := endswith (txt ".log") (txt n).
Lemma prune_logs_minimal_witness :
  (∃ gone kept, logs_of is_log ex_logs = gone ++ kept ∧ kept ≠ [] ∧ within 3 (Some 100) kept) ∧
  prune_logs (λ n, bool_decide (n = "1.log"%string)) 3 is_log (Some 100) ex_logs =
    (Ret ["2.log"; "3.log"]%string,
     [("1.log", ex_log 1 50); ("keep.txt", ex_log 0 9); ("4.log", ex_log 4 70)]%string).
Proof.
  split; [|vm_compute; reflexivity].
  destruct (prune_logs_minimal (λ n, bool_decide (n = "1.log"%string)) 3 is_log (Some 100) ex_logs)
    as (gone & kept & H1 & _ & H2 & H3 & _).
  - apply (bool_decide_unpack _). vm_compute. exact I.
  - left. lia.
  - vm_compute. discriminate.
  - exists gone, kept. split; [exact H1|]. split; [exact H2|exact H3].
Defined.
Definition ex_runs : folder :=
  map (λ n, (n, File true 0 0)) ["20260103T000000Z"; "20260101T000000Z"; "notes"; "20260102T000000Z"]%string.
Example prune_runs_example :
  (∃ old kept d', prune_runs (λ _, false) 2 ex_runs = (Ret (unlocked (λ _, false) old), d') ∧
     Z.of_nat (length kept) = Z.min 2 (Z.of_nat (length (old ++ kept)))) ∧
  (prune_runs (λ _, false) 2 ex_runs).1 = Ret ["20260101T000000Z"%string].
Proof.
  split; [|vm_compute; reflexivity].
  destruct (prune_runs_oldest (λ _, false) 2 ex_runs) as (old & kept & d' & H1 & _ & H2 & _).
  - lia.
  - apply (bool_decide_unpack _). vm_compute. exact I.
  - exists old, kept, d'. split; [exact H1|exact H2].
Defined.

(** A serialiser that writes what kind of entry it is given. *)
Definition ex_enc (v : pyval) : text :=
  match v with
  | VDict l => match dict_get (txt "error") l with Some _ => txt "{error}" | None => txt "{result}" end
  | _ => txt "null"
  end.
#[local] Instance ex_log_env : RunLog Z := {|
  append_file _ := mret tt; perf_counter t := t; utc_now _ := txt "now"; dumps v := Ret (ex_enc v);
  str_exn _ := txt "failed"; message _ := txt "failed"; value_of_json _ := VAtom (txt "data") |}.
Definition ex_calls : list call :=
  [Call (txt "fs.stat") [(txt "target", VStr (txt "x5000"))] (λ t, (Ret (VAtom (txt "1")), t + 5));
   Call (txt "fs.read") [] (λ t, (Raise (EPy KeyError), t + 7));
   Call (txt "wait") [] (λ t, (Raise ECancelled, t + 9))].
Lemma archive_line_per_call_witness :
  let '(rs, es, e') := history ex_calls 0 in
  (∃ file, run_calls ex_calls (0, []) = (rs, (e', file)) ∧ split_on nl file = map ex_enc es ++ [[]]) ∧
  (run_calls ex_calls (0, [])).2.2 = txt "{result}" ++ [nl] ++ txt "{error}" ++ [nl].
Proof.
  split; [|vm_compute; reflexivity].
  refine (archive_line_per_call ex_enc _ _ ex_calls 0).
  - intros v. reflexivity.
  - intros v. unfold ex_enc, nl. destruct v as [| | |l|]; try (apply (bool_decide_unpack _); vm_compute; exact I).
    destruct (dict_get (txt "error") l); apply (bool_decide_unpack _); vm_compute; exact I.
Defined.
