(* ===== verification/Toml.v ===== *)
(** * TOML as the wizard writes it: [setup_wizard.py]

    The writer of [config.toml], and a reader of the part of TOML 1.0 it writes -
    [tomllib] reads the file back - with the round trip between the two. *)
From S2P Require Import Prelude Py Bytes.

#[local] Unset Elimination Schemes.
Inductive toml : Type :=
| TBool (b : bool)
| TInt (z : Z)
| TStr (s : text)
| TArr (l : list toml)
| TTable (d : list (string * toml)).
#[local] Set Elimination Schemes.
Abbreviation dict := (list (string * toml)).

Section toml_ind.
Context (P : toml → Prop) (HBool : ∀ b, P (TBool b)) (HInt : ∀ z, P (TInt z)) (HStr : ∀ s, P (TStr s))
  (HArr : ∀ l, Forall P l → P (TArr l)) (HTable : ∀ d, Forall (λ kv, P kv.2) d → P (TTable d)).
Fixpoint toml_ind (v : toml) : P v :=
  match v with
  | TBool b => HBool b
  | TInt z => HInt z
  | TStr s => HStr s
  | TArr l => HArr l ((fix go l : Forall P l := match l with
                       | [] => Forall_nil_2 _
                       | x :: l' => Forall_cons_2 _ _ _ (toml_ind x) (go l')
                       end) l)
  | TTable d => HTable d ((fix go l : Forall (λ kv, P kv.2) l := match l with
                           | [] => Forall_nil_2 _
                           | kv :: l' => Forall_cons_2 _ _ _ (toml_ind kv.2) (go l')
                           end) d)
  end.
End toml_ind.

(* ------------------------------------------------------------------ *)
(** ** Writing *)

Definition nl : ascii := chr 10.
Definition dq : ascii := chr 34.
Definition bs : ascii := chr 92.
(** [_TOML_SAFE_KEY] *)
Definition safe_key (c : ascii) : bool :=
  in_range c 97 122 || in_range c 65 90 || in_range c 48 57 || (ord c =? 95) || (ord c =? 45).
(** [_toml_str] *)
Definition escape (c : ascii) : text :=
  if decide (c = dq) then [bs; dq]
  else if decide (c = bs) then [bs; bs]
  else if ord c =? 10 then [bs; "n"%char]
  else if ord c =? 9 then [bs; "t"%char]
  else if ord c <? 32 then bs :: "u"%char :: "0"%char :: "0"%char :: hex2 (ord c)
  else [c].
Definition toml_str (s : text) : text := dq :: (s ≫= escape) ++ [dq].
(** [_toml_key] *)
Definition toml_key (name : text) : text :=
  if (if name is [] then false else true) && forallb safe_key name then name else toml_str name.
(** [_toml_value]; a table raises [TypeError]. *)
Fixpoint seq_res {A} (l : list (res exn A)) : res exn (list A) :=
  match l with
  | [] => Ret []
  | Ret a :: l => match seq_res l with Ret as_ => Ret (a :: as_) | r => r end
  | Raise x :: _ => Raise x
  | Spin :: _ => Spin
  end.
Fixpoint toml_value (v : toml) : res exn text :=
  match v with
  | TBool b => Ret (txt (if b then "true" else "false"))
  | TInt z => Ret (show_int z)
  | TStr s => Ret (toml_str s)
  | TArr l => match seq_res (map toml_value l) with
              | Ret ts => Ret ("["%char :: join (txt ", ") ts ++ ["]"%char])
              | Raise x => Raise x
              | Spin => Spin
              end
  | TTable _ => Raise (EPy TypeError)
  end.
Definition is_table (v : toml) : bool := if v is TTable _ then true else false.
Definition scalars (d : dict) : dict := filter (λ kv, is_table kv.2 = false) d.
Definition tables (d : dict) : dict := filter (λ kv, is_table kv.2 = true) d.
Definition pair_line (kv : string * toml) : res exn text :=
  match toml_value kv.2 with Ret t => Ret (toml_key (txt kv.1) ++ txt " = " ++ t) | r => r end.
Definition header (path : list string) : text :=
  "["%char :: join ["."%char] (map (λ p, toml_key (txt p)) path) ++ ["]"%char].
(** [_emit_table]: the lines it appends. *)
Definition then_lines (a b : res exn (list text)) : res exn (list text) :=
  match a, b with
  | Ret x, Ret y => Ret (x ++ y)
  | Raise e, _ | Ret _, Raise e => Raise e
  | _, _ => Spin
  end.
(** The heading of a table and its own pairs. *)
Definition opening (path : list string) (d : dict) : res exn (list text) :=
  match path, scalars d with
  | [], [] => Ret []
  | _, ps => then_lines (Ret (if path is [] then [] else [header path]))
               (then_lines (seq_res (map pair_line ps)) (Ret (if tables d is [] then [] else [[]])))
  end.
Fixpoint emit_table (path : list string) (v : toml) : res exn (list text) :=
  match v with
  | TTable d =>
      then_lines (opening path d)
        (foldr then_lines (Ret [])
          (map (λ kv, if is_table kv.2 then then_lines (emit_table (path ++ [kv.1]) kv.2) (Ret [[]]) else Ret []) d))
  | _ => Ret []
  end.
(** [while lines and lines[-1] == "": lines.pop()] *)
Definition drop_blank (lines : list text) : list text := reverse (dropwhile (λ l : text, if l is [] then true else false) (reverse lines)).
(** [render_toml] *)
Definition render_toml (d : dict) : res exn text :=
  match emit_table [] (TTable d) with
  | Ret lines => Ret (join [nl] (drop_blank lines) ++ [nl])
  | Raise x => Raise x
  | Spin => Spin
  end.

(* ------------------------------------------------------------------ *)
(** ** Reading *)

(** A basic string, after its opening quote: control characters other than a tab
    are not allowed in it. *)
Definition is_control (c : ascii) : bool := (ord c <? 32) && negb (ord c =? 9) || (ord c =? 127).
Definition hex4 (a b c d : ascii) : option Z :=
  a ← digit_val 16 a; b ← digit_val 16 b; c ← digit_val 16 c; d ← digit_val 16 d;
  let n := ((a * 16 + b) * 16 + c) * 16 + d in
  if n <? 256 then Some n else None.
Definition put (c : ascii) (r : option (text * text)) : option (text * text) := (λ '(s, t), (c :: s, t)) <$> r.
Fixpoint basic_string (t : text) : option (text * text) :=
  match t with
  | [] => None
  | c :: t =>
      if decide (c = dq) then Some ([], t)
      else if decide (c = bs) then
        match t with
        | e :: t =>
            if decide (e = dq) then put dq (basic_string t)
            else if decide (e = bs) then put bs (basic_string t)
            else if decide (e = "n"%char) then put nl (basic_string t)
            else if decide (e = "t"%char) then put (chr 9) (basic_string t)
            else if decide (e = "u"%char) then
              match t with
              | h1 :: h2 :: h3 :: h4 :: t => n ← hex4 h1 h2 h3 h4; put (chr n) (basic_string t)
              | _ => None
              end
            else None
        | [] => None
        end
      else if is_control c then None
      else put c (basic_string t)
  end.
Fixpoint takewhile {A} (f : A → bool) (l : list A) : list A :=
  match l with [] => [] | x :: l => if f x then x :: takewhile f l else [] end.
Definition simple_key (t : text) : option (string * text) :=
  match t with
  | c :: t' =>
      if decide (c = dq) then '(s, r) ← basic_string t'; Some (str s, r)
      else let k := takewhile safe_key t in
           if k is [] then None else Some (str k, drop (length k) t)
  | [] => None
  end.
(** The keys of a header up to its closing bracket. *)
Fixpoint header_keys (fuel : nat) (t : text) : option (list string) :=
  match fuel with
  | O => None
  | S fuel =>
      '(k, r) ← simple_key t;
      match r with
      | c :: r => if decide (c = "."%char) then ks ← header_keys fuel r; Some (k :: ks)
                  else if decide (c = "]"%char ∧ r = []) then Some [k] else None
      | [] => None
      end
  end.
Definition numeral (c : ascii) : bool := in_range c 48 57 || (ord c =? 45).
Definition after (p t : text) : option text := if startswith p t then Some (drop (length p) t) else None.
(** The values of an array that is not empty, by a reader of values. *)
Fixpoint read_items (rd : text → option (toml * text)) (n : nat) (t : text) : option (list toml * text) :=
  match n with
  | O => None
  | S n =>
      '(v, r) ← rd t;
      match after (txt ", ") r with
      | Some r => '(vs, r) ← read_items rd n r; Some (v :: vs, r)
      | None => r ← after (txt "]") r; Some ([v], r)
      end
  end.
(** A value, and the text after it. *)
Fixpoint read_value (fuel : nat) (t : text) : option (toml * text) :=
  match fuel with
  | O => None
  | S fuel =>
      match t with
      | c :: t' =>
          if decide (c = dq) then '(s, r) ← basic_string t'; Some (TStr s, r)
          else if decide (c = "["%char) then
            match after (txt "]") t' with
            | Some r => Some (TArr [], r)
            | None => '(vs, r) ← read_items (read_value fuel) (length t) t'; Some (TArr vs, r)
            end
          else match after (txt "true") t, after (txt "false") t with
               | Some r, _ => Some (TBool true, r)
               | _, Some r => Some (TBool false, r)
               | None, None =>
                   let w := takewhile numeral t in
                   z ← int_of_text 10 w; Some (TInt z, drop (length w) t)
               end
      | [] => None
      end
  end.

Inductive item := Blank | Header (path : list string) | Pair (k : string) (v : toml).
Definition read_line (t : text) : option item :=
  match t with
  | [] => Some Blank
  | c :: t' =>
      if decide (c = "["%char) then Header <$> header_keys (length t) t'
      else '(k, r) ← simple_key t;
           r ← after (txt " = ") r;
           '(v, r) ← read_value (length r) r;
           if r is [] then Some (Pair k v) else None
  end.
(** Going down to the table at [path], whose tables are made when they are not
    there, and changing it. *)
Fixpoint put_at (path : list string) (f : dict → option dict) (d : dict) : option dict :=
  match path with
  | [] => f d
  | k :: path =>
      sub ← match assoc k d with Some (TTable s) => Some s | Some _ => None | None => Some [] end;
      sub ← put_at path f sub;
      Some (dict_set k (TTable sub) d)
  end.
(** Defining a key or a table twice is an error. *)
Definition define (k : string) (v : toml) (d : dict) : option dict :=
  if decide (k ∈ d.*1) then None else Some (d ++ [(k, v)]).
Record reading := Reading { tree : dict; current : list string }.
Definition read_item (s : reading) (i : item) : option reading :=
  match i with
  | Blank => Some s
  | Header path =>
      k ← last path;
      d ← put_at (take (length path - 1) path) (define k (TTable [])) (tree s);
      Some (Reading d path)
  | Pair k v => d ← put_at (current s) (define k v) (tree s); Some (Reading d (current s))
  end.
Fixpoint read_lines (s : reading) (ls : list text) : option reading :=
  match ls with [] => Some s | l :: ls => i ← read_line l; s ← read_item s i; read_lines s ls end.
Definition toml_loads (t : text) : option dict := tree <$> read_lines (Reading [] []) (split_on nl t).

(* ------------------------------------------------------------------ *)
(** ** Strings and keys *)

Lemma basic_string_escape c r : c ≠ chr 127 → basic_string (escape c ++ r) = put c (basic_string r).
Proof.
  assert (c = chr 127 ∨ basic_string (escape c ++ r) = put c (basic_string r)) as [|] by
    (destruct c as [[] [] [] [] [] [] [] []]; first [by left|right; reflexivity]); done.
Qed.
(** No DEL, which TOML does not allow in a string and the writer does not escape. *)
Definition plain (s : text) : bool := forallb (λ c, bool_decide (c ≠ chr 127)) s.
Lemma plain_cons c s : plain (c :: s) = true → c ≠ chr 127 ∧ plain s = true.
Proof. unfold plain; simpl; intros [C ?]%andb_true_iff; by apply bool_decide_eq_true_1 in C. Qed.
Lemma basic_string_toml_str s r : plain s = true → basic_string ((s ≫= escape) ++ dq :: r) = Some (s, r).
Proof.
  induction s as [|c s IH]; [done|]; intros [C P]%plain_cons; csimpl.
  by rewrite <- (assoc_L (++)), basic_string_escape, IH.
Qed.
Lemma escape_nl c : nl ∉ escape c.
Proof. apply (bool_decide_eq_true_1 _); by destruct c as [[] [] [] [] [] [] [] []]. Qed.
Lemma toml_str_nl s : nl ∉ toml_str s.
Proof.
  unfold toml_str; rewrite not_elem_of_cons, not_elem_of_app, not_elem_of_cons; split_and!; [done| |done|apply not_elem_of_nil].
  intros (c & C & _)%list_elem_of_bind; by apply escape_nl in C.
Qed.
Lemma safe_key_nl s : forallb safe_key s = true → nl ∉ s.
Proof. rewrite forallb_forall; intros F N%list_elem_of_In; by apply F in N. Qed.
Lemma toml_key_nl s : nl ∉ toml_key s.
Proof. unfold toml_key; destruct (_ && _) eqn:F; [apply safe_key_nl; by apply andb_true_iff in F as [_ F]|apply toml_str_nl]. Qed.

(** A text that does not go on with a character of [f]. *)
Definition breaks (f : ascii → bool) (t : text) : bool := match t with c :: _ => negb (f c) | [] => true end.
Lemma takewhile_app f s t : forallb f s = true → breaks f t = true → takewhile f (s ++ t) = s.
Proof.
  induction s as [|c s IH]; simpl.
  { intros _; destruct t as [|d t]; [done|]; simpl; by destruct (f d). }
  intros [-> F]%andb_true_iff B; by rewrite IH.
Qed.
Lemma simple_key_toml_key k t : plain (txt k) = true → breaks safe_key t = true → simple_key (toml_key (txt k) ++ t) = Some (k, t).
Proof.
  intros P B; unfold toml_key; destruct (txt k) as [|c s] eqn:K.
  { rewrite <- (str_txt k), K; reflexivity. }
  destruct (_ && _) eqn:F.
  - apply andb_true_iff in F as [_ F]; unfold simple_key; pose proof (takewhile_app safe_key (c :: s) t F B) as T.
    change ((c :: s) ++ t) with (c :: s ++ t) in *; cbv beta iota; rewrite decide_False, T; cbv zeta iota.
    + rewrite <- K, str_txt; do 2 f_equal; rewrite K; change (c :: s ++ t) with ((c :: s) ++ t); by rewrite drop_app_length.
    + intros ->; by simpl in F.
  - unfold simple_key, toml_str; simpl; rewrite <- !(assoc_L (++)).
    rewrite (assoc_L (++)); change ((escape c ++ list_bind ascii ascii escape s) ++ [dq] ++ t) with (((c :: s) ≫= escape) ++ dq :: t).
    rewrite basic_string_toml_str by done; cbn [mbind option_bind]; by rewrite <- K, str_txt.
Qed.

Lemma toml_key_cons k : ∃ c s, toml_key k = c :: s ∧ (c = dq ∨ safe_key c = true).
Proof.
  unfold toml_key; destruct (_ && _) eqn:F; [|eexists _, _; split; [done|by left]].
  apply andb_true_iff in F as [N F]; destruct k as [|c s]; [done|]; exists c, s; split; [done|right].
  by apply andb_true_iff in F as [F _].
Qed.
Definition header_end : text := ["]"%char].
Lemma header_keys_join path fuel : (length path ≤ fuel)%nat → path ≠ [] → Forall (λ k, plain (txt k) = true) path →
  header_keys fuel (join ["."%char] (map (λ p, toml_key (txt p)) path) ++ header_end) = Some path.
Proof.
  intros L N P; revert fuel L N; induction P as [|k path P F IH]; [done|]; intros [|fuel] L N; simpl in L; [lia|].
  destruct path as [|k' path]; cbn [map header_keys].
  - cbn [join]; by rewrite simple_key_toml_key.
  - rewrite join_cons by done; cbn [map] in IH; rewrite <- (assoc_L (++)); cbn [app].
    rewrite simple_key_toml_key by done; cbn [mbind option_bind]; rewrite decide_True by done.
    by rewrite IH by (simpl in *; auto with lia).
Qed.
Lemma header_line path : path ≠ [] → Forall (λ k, plain (txt k) = true) path →
  read_line (header path) = Some (Header path).
Proof.
  intros N P; unfold read_line, header; rewrite decide_True by done.
  rewrite header_keys_join; [done| |done..].
  clear; simpl; rewrite length_app; cbn [length]; induction path as [|k [|k' path] IH]; cbn [map join] in *; simpl; try lia.
  change (join ["."%char] (toml_key (txt k') :: map (λ p, toml_key (txt p)) path)) with
    (join ["."%char] (map (λ p, toml_key (txt p)) (k' :: path))) in *.
  rewrite !length_app; simpl in *; lia.
Qed.

(* ------------------------------------------------------------------ *)
(** ** Values *)

(** What may be written: no table in an array, no key twice, no DEL. *)
Fixpoint fine (v : toml) : bool :=
  match v with
  | TBool _ | TInt _ => true
  | TStr s => plain s
  | TArr l => forallb (λ v, negb (is_table v) && fine v) l
  | TTable d => bool_decide (NoDup d.*1) && forallb (λ kv, plain (txt kv.1) && fine kv.2) d
  end.
Definition value_break (t : text) : bool := breaks (λ c, negb (bool_decide (c ∈ [","%char; "]"%char]))) t.

Lemma show_int_numeral z : forallb numeral (show_int z) = true.
Proof.
  assert (∀ z, 0 ≤ z → forallb numeral (show_base 10 z) = true) as N.
  { intros n Hn; apply forallb_forall; intros c C%list_elem_of_In.
    pose proof (show_base_digits 10 n ltac:(lia) Hn) as D; rewrite Forall_forall in D; destruct (D c C) as (d & Hd & ->).
    unfold digit_char, numeral, in_range; rewrite (proj2 (Z.ltb_lt d 10)), ord_chr by lia.
    by replace ((48 <=? 48 + d) && (48 + d <=? 57)) with true by lia. }
  unfold show_int; destruct (Z.ltb_spec z 0); [simpl; apply N; lia|by apply N].
Qed.
Lemma show_int_cons z : ∃ c t, show_int z = c :: t ∧ numeral c = true.
Proof.
  pose proof (show_int_numeral z) as N; pose proof (int_of_show_int z) as I.
  destruct (show_int z) as [|c t]; [done|]; exists c, t; split; [done|]; by apply andb_true_iff in N as [? _].
Qed.
Lemma numeral_start c : numeral c = true → c ≠ dq ∧ c ≠ "["%char ∧ c ≠ "t"%char ∧ c ≠ "f"%char ∧ c ≠ "]"%char.
Proof. intros N; split_and!; intros ->; done. Qed.
Lemma after_app p t : after p (p ++ t) = Some t.
Proof. unfold after; rewrite drop_app_length. enough (startswith p (p ++ t) = true) as -> by done. by induction p as [|c p IH]; simpl; rewrite ?bool_decide_eq_true_2. Qed.
Lemma after_other c p d t : c ≠ d → after (c :: p) (d :: t) = None.
Proof. intros N; unfold after; simpl; by rewrite bool_decide_eq_false_2 by done. Qed.

(** A written value: what it is read back as, before anything that may follow. *)
Definition reads_back (v : toml) (s : text) : Prop :=
  toml_value v = Ret s ∧ (nl ∉ s) ∧ (∃ c s', s = c :: s' ∧ (c ≠ "]"%char)) ∧
  ∀ fuel t, (length s ≤ fuel)%nat → value_break t = true → read_value fuel (s ++ t) = Some (v, t).

Lemma join_more sep p ps : ps ≠ [] → join sep (p :: ps) = p ++ sep ++ join sep ps.
Proof. by destruct ps. Qed.
Lemma after_close t : after (txt ", ") ("]"%char :: t) = None.
Proof. done. Qed.
Lemma read_items_back rd l ts n t : Forall2 (λ v s, ∀ t, value_break t = true → rd (s ++ t) = Some (v, t)) l ts →
  l ≠ [] → (length l ≤ n)%nat → read_items rd n (join (txt ", ") ts ++ "]"%char :: t) = Some (l, t).
Proof.
  intros F; revert n; induction F as [|v s l ts R F IH]; [done|]; intros [|n] N L; simpl in L; [lia|]; cbn [read_items].
  destruct F as [|v' s' l ts R' F].
  - cbn [join]; rewrite R by done; cbn [mbind option_bind]; rewrite after_close.
    by change ("]"%char :: t) with (txt "]" ++ t); rewrite after_app.
  - rewrite join_more, <- !(assoc_L (++)), R by done; cbn [mbind option_bind].
    by rewrite after_app, IH by (done || simpl in *; lia).
Qed.
Lemma read_string s : plain s = true → reads_back (TStr s) (toml_str s).
Proof.
  intros P; split_and!; [done|apply toml_str_nl|by eexists _, _|]; intros [|fuel] t L B; simpl in L; [lia|].
  unfold toml_str; cbn [read_value app]; rewrite decide_True, <- (assoc_L (++)) by done; cbn [app].
  by rewrite basic_string_toml_str.
Qed.
Lemma read_int z : reads_back (TInt z) (show_int z).
Proof.
  pose proof (show_int_numeral z) as N; destruct (show_int_cons z) as (c & s & S & C).
  destruct (numeral_start c C) as (Q & O & T & F & K).
  split_and!; [done| |by exists c, s|].
  - rewrite forallb_forall in N; intros I%list_elem_of_In; by apply N in I.
  - intros [|fuel] t L B; rewrite S in *; simpl in L; [lia|]; cbn [read_value app]; rewrite !decide_False by done.
    change (txt "true") with ("t"%char :: txt "rue"); change (txt "false") with ("f"%char :: txt "alse").
    rewrite !after_other by done; change (c :: s ++ t) with ((c :: s) ++ t); rewrite takewhile_app; [|done|].
    + rewrite <- S, int_of_show_int; cbn [mbind option_bind]; by rewrite drop_app_length.
    + destruct t as [|d t]; [done|]; unfold value_break, breaks in *; apply negb_true_iff.
      destruct (bool_decide_reflect (d ∈ [","%char; "]"%char])) as [D|]; [|done].
      apply elem_of_cons in D as [-> |D%list_elem_of_singleton]; [done|by subst].
Qed.
Lemma read_bool b : reads_back (TBool b) (txt (if b then "true" else "false")).
Proof.
  split_and!; [done|by apply (bool_decide_eq_true_1 _); destruct b|by destruct b; eexists _, _|].
  intros [|fuel] t L B; destruct b; simpl in L; try lia; reflexivity.
Qed.
Lemma length_join sep ts : (Forall (λ s : text, (length s ≤ length (join sep ts))%nat) ts ∧
  (Forall (λ s, s ≠ []) ts → length ts ≤ length (join sep ts)))%nat.
Proof.
  induction ts as [|s [|s' ts] IH]; [split; [constructor|simpl; lia]|split; [by apply Forall_singleton|]|].
  - intros N; apply Forall_inv in N; destruct s; simpl in *; [congruence|lia].
  - rewrite join_more, !length_app by done; destruct IH as [IH IH']; split.
    + constructor; [lia|]; eapply Forall_impl; [exact IH|]; simpl; lia.
    + intros [N Ns]%Forall_cons; specialize (IH' Ns); destruct s; simpl in *; [congruence|lia].
Qed.
Lemma seq_res_all {A B} (f : A → res exn B) (P : A → B → Prop) l :
  Forall (λ a, ∃ b, f a = Ret b ∧ P a b) l → ∃ bs, seq_res (map f l) = Ret bs ∧ Forall2 P l bs.
Proof.
  induction 1 as [|a l (b & F & Pb) _ (bs & Fs & Ps)]; simpl; [by exists []|].
  rewrite F, Fs; exists (b :: bs); split; [done|by constructor].
Qed.
Lemma join_nl sep ts : nl ∉ sep → Forall (λ s : text, nl ∉ s) ts → nl ∉ join sep ts.
Proof.
  intros S; induction 1 as [|s ts N F IH]; [apply not_elem_of_nil|]; destruct ts as [|s' ts]; [done|].
  by rewrite join_more, !not_elem_of_app.
Qed.
Lemma Forall2_both {A B} (P : A → B → Prop) (Q : B → Prop) l k :
  Forall2 P l k → Forall Q k → Forall2 (λ a b, P a b ∧ Q b) l k.
Proof. induction 1; [constructor|]; intros [? ?]%Forall_cons; constructor; auto. Qed.
Lemma read_array l ts : Forall2 reads_back l ts → reads_back (TArr l) ("["%char :: join (txt ", ") ts ++ header_end).
Proof.
  intros F; destruct (length_join (txt ", ") ts) as [Each Count].
  split_and!.
  - simpl; enough (seq_res (map toml_value l) = Ret ts) as -> by done.
    clear - F; induction F as [|v s l ts (E & _) _ IH]; simpl; [done|by rewrite E, IH].
  - rewrite not_elem_of_cons, not_elem_of_app; split_and!; [done| |by apply (bool_decide_eq_true_1 _)].
    apply join_nl; [by apply (bool_decide_eq_true_1 _)|]; eapply Forall2_Forall_r; [exact F|]; by apply Forall_true; intros ? ? (_ & ? & _).
  - by eexists _, _.
  - intros [|fuel] t L B; cbn [length] in L; [lia|]; rewrite length_app in L; cbn [read_value app]; rewrite decide_False, decide_True by done.
    rewrite <- (assoc_L (++)); unfold header_end; cbn [app].
    destruct F as [|v s l ts R F]; [done|].
    assert (after (txt "]") (join (txt ", ") (s :: ts) ++ "]"%char :: t) = None) as ->.
    { destruct R as (_ & _ & (c & s' & -> & N) & _); destruct ts; cbn [join]; by apply after_other. }
    rewrite (read_items_back _ (v :: l)); [done| |done|].
    + assert (Forall2 reads_back (v :: l) (s :: ts)) as G by (by constructor).
      eapply Forall2_impl; [apply (Forall2_both _ _ _ _ G Each)|]; intros v' s' [(_ & _ & _ & Rd) Le] t' B'; apply Rd; [|done].
      cbv beta in Le; unfold header_end in L; cbn [length] in L; lia.
    + rewrite (Forall2_length _ (v :: l) (s :: ts)) by (by constructor). etrans; [apply Count|simpl; rewrite length_app; lia].
      eapply Forall2_Forall_r; [constructor; [exact R|exact F]|]; apply Forall_true; by intros ? ? (_ & _ & (? & ? & -> & _) & _).
Qed.
Lemma value_back v : fine v = true → is_table v = false → ∃ s, reads_back v s.
Proof.
  induction v as [b|z|s|l IH|d _] using toml_ind; intros F T; [..|done].
  - eexists; apply read_bool.
  - eexists; apply read_int.
  - eexists; by apply read_string.
  - simpl in F; rewrite forallb_forall in F; rewrite Forall_forall in IH.
    enough (∃ ts, Forall2 reads_back l ts) as [ts Ts] by (eexists; by apply read_array).
    clear T; induction l as [|v l IHl]; [by exists []|].
    destruct IHl as [ts Ts]; [intros x X; apply IH; by right|intros x X; apply F; by right|].
    destruct (andb_prop _ _ (F v ltac:(by left))) as [N Fv]; apply negb_true_iff in N.
    destruct (IH v ltac:(by left) Fv N) as [s S]; exists (s :: ts); by constructor.
Qed.
Definition line_of (kv : string * toml) (l : text) : Prop := (nl ∉ l) ∧ read_line l = Some (Pair kv.1 kv.2).
Lemma pair_line_back kv : plain (txt kv.1) = true → fine kv.2 = true → is_table kv.2 = false →
  ∃ l, pair_line kv = Ret l ∧ line_of kv l.
Proof.
  destruct kv as [k v]; simpl; intros P F T; destruct (value_back v F T) as (s & W & N & _ & R).
  unfold pair_line, line_of; cbn [fst snd]; rewrite W; eexists; split; [done|]; split.
  - rewrite !not_elem_of_app; split_and!; [apply toml_key_nl|by apply (bool_decide_eq_true_1 _)|done].
  - destruct (toml_key_cons (txt k)) as (c & t & K & C); unfold read_line.
    pose proof (simple_key_toml_key k (txt " = " ++ s) P eq_refl) as S; rewrite K in *; cbn [app] in *; rewrite decide_False.
    + rewrite S; cbn [mbind option_bind]; rewrite after_app; cbn [mbind option_bind].
      specialize (R (length s) [] ltac:(lia) eq_refl); rewrite app_nil_r in R; by rewrite R.
    + intros ->; by destruct C.
Qed.

(* ------------------------------------------------------------------ *)
(** ** Tables *)

(** The table at a path, and another in its place. *)
Fixpoint get_at (path : list string) (d : dict) : option dict :=
  match path with
  | [] => Some d
  | k :: path => match assoc k d with Some (TTable s) => get_at path s | _ => None end
  end.
Fixpoint graft (path : list string) (x d : dict) : dict :=
  match path with
  | [] => x
  | k :: path => match assoc k d with Some (TTable s) => dict_set k (TTable (graft path x s)) d | _ => d end
  end.
Lemma put_at_get path f d s : get_at path d = Some s → put_at path f d = (λ x, graft path x d) <$> f s.
Proof.
  revert d; induction path as [|k path IH]; simpl; intros d G; [injection G as ->; by destruct (f s)|].
  destruct (assoc k d) as [[]|] eqn:A; try done; simpl; rewrite (IH _ G); by destruct (f s).
Qed.
Lemma get_graft path x d s : get_at path d = Some s → get_at path (graft path x d) = Some x.
Proof.
  revert d; induction path as [|k path IH]; simpl; intros d G; [done|].
  destruct (assoc k d) as [[]|] eqn:A; try done; rewrite assoc_dict_set, decide_True by done; by apply IH.
Qed.
Lemma dict_set_twice k (v v' : toml) d : dict_set k v' (dict_set k v d) = dict_set k v' d.
Proof. induction d as [|[k' w] d IH]; simpl; [by rewrite decide_True|]. case_decide; simpl; [by rewrite decide_True|]. by rewrite decide_False, IH. Qed.
Lemma graft_graft path x y d s : get_at path d = Some s → graft path y (graft path x d) = graft path y d.
Proof.
  revert d; induction path as [|k path IH]; simpl; intros d G; [done|].
  destruct (assoc k d) as [[]|] eqn:A; try done; rewrite assoc_dict_set, decide_True by done.
  by rewrite dict_set_twice, IH.
Qed.
Lemma get_at_app p q d s : get_at p d = Some s → get_at (p ++ q) d = get_at q s.
Proof.
  revert d; induction p as [|k p IH]; simpl; intros d G; [by simplify_eq|].
  destruct (assoc k d) as [[]|]; try done; by apply IH.
Qed.
Lemma graft_app p q x d s : get_at p d = Some s → graft (p ++ q) x d = graft p (graft q x s) d.
Proof.
  revert d; induction p as [|k p IH]; simpl; intros d G; [by simplify_eq|].
  destruct (assoc k d) as [[]|]; try done; by rewrite (IH _ G).
Qed.
Lemma dict_set_last k (v w : toml) s : k ∉ s.*1 → dict_set k w (s ++ [(k, v)]) = s ++ [(k, w)].
Proof.
  induction s as [|[k' u] s IH]; simpl; [by rewrite decide_True|]; intros [N M]%not_elem_of_cons.
  by rewrite decide_False, IH.
Qed.
Lemma assoc_last k (v : toml) s : k ∉ s.*1 → assoc k (s ++ [(k, v)]) = Some v.
Proof.
  induction s as [|[k' u] s IH]; simpl; [by rewrite decide_True|]; intros [N M]%not_elem_of_cons.
  by rewrite decide_False, IH.
Qed.

(** Scalars first, which is the order of keys only. *)
Fixpoint canon (v : toml) : toml :=
  match v with
  | TTable d => TTable (scalars d ++ tables (map (λ kv, (kv.1, canon kv.2)) d))
  | _ => v
  end.
Definition canon_dict (d : dict) : dict := scalars d ++ tables (map (λ kv, (kv.1, canon kv.2)) d).

Lemma read_lines_app s a b : read_lines s (a ++ b) = read_lines s a ≫= λ s', read_lines s' b.
Proof.
  revert s; induction a as [|l a IH]; simpl; intros s; [done|].
  destruct (read_line l) as [i|]; [|done]; simpl; destruct (read_item s i); [apply IH|done].
Qed.
Lemma graft_same p d s : get_at p d = Some s → graft p s d = d.
Proof.
  revert d; induction p as [|k p IH]; simpl; intros d G; [by simplify_eq|].
  destruct (assoc k d) as [[]|] eqn:A; try done; rewrite (IH _ G).
  revert A; clear; induction d as [|[k' v] d IH]; simpl; [done|]; case_decide; [intros; by simplify_eq|intros; by rewrite IH].
Qed.
Lemma read_pairs p T s ps ls : get_at p T = Some s → Forall2 line_of ps ls → NoDup (s ++ ps).*1 →
  read_lines (Reading T p) ls = Some (Reading (graft p (s ++ ps) T) p).
Proof.
  intros G F; revert T s G; induction F as [|[k v] l ps ls [_ R] F IH]; intros T s G N; simpl.
  - by rewrite app_nil_r, (graft_same _ _ _ G).
  - simpl in R; rewrite R; simpl; rewrite (put_at_get _ _ _ _ G); unfold define.
    rewrite fmap_app, fmap_cons, NoDup_app in N; destruct N as (Ns & Ni & Np); apply NoDup_cons in Np as [Nk Np].
    rewrite decide_False by (intros K; apply (Ni k K); by left); simpl.
    rewrite (IH _ (s ++ [(k, v)])); [by rewrite (graft_graft _ _ _ _ _ G), <- (assoc_L (++))|by eapply get_graft|].
    rewrite <- (assoc_L (++)); simpl; rewrite fmap_app, fmap_cons, NoDup_app, NoDup_cons; split_and!; auto.
Qed.

(* ------------------------------------------------------------------ *)
(** ** The round trip *)

Definition plain_path (p : list string) : Prop := Forall (λ k, plain (txt k) = true) p.
Definition unbroken (ls : list text) : Prop := Forall (λ l, nl ∉ l) ls.
(** The lines of [v] at [q ++ [k]] define that table, wherever [q] leads to one
    without a [k]. *)
Definition defines (v : toml) : Prop := ∀ q k, plain_path (q ++ [k]) → fine v = true → is_table v = true →
  ∃ ls, emit_table (q ++ [k]) v = Ret ls ∧ unbroken ls ∧
    ∀ T cur s, get_at q T = Some s → k ∉ s.*1 →
      ∃ cur', read_lines (Reading T cur) ls = Some (Reading (graft q (s ++ [(k, canon v)]) T) cur').

Lemma is_table_canon v : is_table (canon v) = is_table v.
Proof. by destruct v. Qed.
Lemma header_nl p : nl ∉ header p.
Proof.
  unfold header; rewrite not_elem_of_cons, not_elem_of_app; split_and!; [done| |by apply (bool_decide_eq_true_1 _)].
  apply join_nl; [by apply (bool_decide_eq_true_1 _)|]; apply Forall_map, Forall_true; intros; apply toml_key_nl.
Qed.
Lemma fine_pairs d : fine (TTable d) = true →
  NoDup d.*1 ∧ ∀ kv, kv ∈ d → plain (txt kv.1) = true ∧ fine kv.2 = true.
Proof.
  simpl; intros [N F]%andb_true_iff; split; [by apply bool_decide_eq_true_1 in N|].
  intros kv K%list_elem_of_In; rewrite forallb_forall in F; by apply andb_true_iff, F.
Qed.
Lemma NoDup_keys_filter (P : string * toml → Prop) `{∀ kv, Decision (P kv)} (d : dict) : NoDup d.*1 → NoDup (filter P d).*1.
Proof.
  induction d as [|kv d IH]; [done|]; simpl; intros [Nk N]%NoDup_cons; rewrite filter_cons; case_decide; [|auto].
  simpl; constructor; [|auto]; intros (x & E & [_ X]%list_elem_of_filter)%list_elem_of_fmap; apply Nk; rewrite E.
  by apply list_elem_of_fmap_2.
Qed.
Lemma table_key_apart d k : NoDup d.*1 → k ∈ (tables d).*1 → k ∉ (scalars d).*1.
Proof.
  intros N ([k1 v1] & -> & [T1 K1]%list_elem_of_filter)%list_elem_of_fmap ([k2 v2] & E & [T2 K2]%list_elem_of_filter)%list_elem_of_fmap.
  simpl in *; subst k2; apply (elem_assoc _ _ _ N) in K1, K2; congruence.
Qed.
Lemma scalar_lines d : fine (TTable d) = true →
  ∃ ls, seq_res (map pair_line (scalars d)) = Ret ls ∧ Forall2 line_of (scalars d) ls.
Proof.
  intros [_ F]%fine_pairs; apply seq_res_all, Forall_forall; intros kv [T K]%list_elem_of_filter.
  destruct (F kv K); by apply pair_line_back.
Qed.
Lemma table_lines p d : plain_path p → fine (TTable d) = true → Forall (λ kv, defines kv.2) d →
  ∃ ls, foldr then_lines (Ret [])
          (map (λ kv, if is_table kv.2 then then_lines (emit_table (p ++ [kv.1]) kv.2) (Ret [[]]) else Ret []) d) = Ret ls ∧
    unbroken ls ∧
    ∀ T cur s, get_at p T = Some s → (∀ k, k ∈ (tables d).*1 → k ∉ s.*1) →
      ∃ cur', read_lines (Reading T cur) ls =
        Some (Reading (graft p (s ++ tables (map (λ kv, (kv.1, canon kv.2)) d)) T) cur').
Proof.
  intros P [N F]%fine_pairs D; induction D as [|[k v] d Dv D IH]; simpl.
  { exists []; split_and!; [done|constructor|]; intros T cur s G _; exists cur; simpl.
    by rewrite app_nil_r, (graft_same _ _ _ G). }
  simpl in N; apply NoDup_cons in N as [Nk N]; destruct (F (k, v) ltac:(by left)) as [Pk Fv]; simpl in Pk, Fv, Dv.
  destruct IH as (ls & -> & U & R); [done|intros kv K; apply F; by right|].
  unfold tables in *; rewrite !filter_cons; cbn [snd]; rewrite is_table_canon.
  destruct (is_table v) eqn:T; cycle 1.
  { exists ls; split_and!; [done..|]; intros T' cur s G A; by apply R. }
  destruct (Dv p k) as (ls1 & -> & U1 & R1); [by apply Forall_app; split; [|apply Forall_singleton]|done..|].
  exists ((ls1 ++ [[]]) ++ ls); split_and!; [done| |].
  - repeat apply Forall_app_2; [done| |done]; apply Forall_singleton, not_elem_of_nil.
  - intros T' cur s G A; destruct (R1 T' cur s G) as [cur1 E1]; [apply A; by left|].
    destruct (R (graft p (s ++ [(k, canon v)]) T') cur1 (s ++ [(k, canon v)])) as [cur2 E2]; [by eapply get_graft| |].
    { intros k' K'; rewrite fmap_app, not_elem_of_app; split; [apply A; by right|]; simpl.
      intros ->%list_elem_of_singleton; apply Nk; apply list_elem_of_fmap in K' as (x & -> & [_ X]%list_elem_of_filter).
      by apply list_elem_of_fmap_2. }
    exists cur2; rewrite !read_lines_app, E1; cbn [mbind option_bind read_lines read_line read_item].
    rewrite E2, (graft_graft _ _ _ _ _ G), <- (assoc_L (++)); done.
Qed.
Lemma tables_define v : defines v.
Proof.
  induction v as [| | | |d IH] using toml_ind; intros q k P F T; try done.
  destruct (scalar_lines d F) as (ps & Ps & Lp), (table_lines (q ++ [k]) d P F IH) as (ts & Ts & Ut & Rt).
  assert (opening (q ++ [k]) d = Ret ((header (q ++ [k]) :: ps) ++ if tables d is [] then [] else [[]])) as Op.
  { unfold opening; destruct (q ++ [k]) as [|p ps'] eqn:E; [by destruct q|]; destruct (scalars d); by rewrite Ps. }
  cbn [emit_table]; rewrite Op, Ts; eexists; split; [done|]; split.
  - apply Forall_app_2; [|done]; apply Forall_app_2; [constructor; [apply header_nl|]|].
    + eapply Forall2_Forall_r; [exact Lp|]; by apply Forall_true; intros ? ? [? _].
    + case_match; repeat constructor; apply not_elem_of_nil.
  - intros T' cur s G K; rewrite <- (assoc_L (++)), read_lines_app; cbn [read_lines app].
    rewrite header_line by (done || by destruct q); cbn [mbind option_bind read_item].
    rewrite last_snoc; cbn [mbind option_bind]; rewrite length_app, Nat.add_sub, take_app_length.
    cbn [tree]; rewrite (put_at_get _ _ _ _ G); unfold define; rewrite decide_False by done; cbn [fmap option_fmap option_map].
    set (T1 := graft q (s ++ [(k, TTable [])]) T').
    assert (get_at (q ++ [k]) T1 = Some []) as G1.
    { rewrite (get_at_app _ _ _ (s ++ [(k, TTable [])])) by (by eapply get_graft); simpl; by rewrite assoc_last. }
    destruct (fine_pairs d F) as [N _].
    assert (read_lines (Reading T1 (q ++ [k])) ps = Some (Reading (graft (q ++ [k]) (scalars d) T1) (q ++ [k]))) as E1.
    { apply (read_pairs (q ++ [k]) T1 [] (scalars d)); [done..|]; by apply NoDup_keys_filter. }
    cbn [mbind option_bind]; rewrite E1; cbn [mbind option_bind]; rewrite read_lines_app.
    assert (∀ st, read_lines st (if tables d is [] then [] else [[]]) = Some st) as -> by (intros; by destruct (tables d)).
    cbn [mbind option_bind].
    destruct (Rt (graft (q ++ [k]) (scalars d) T1) (q ++ [k]) (scalars d)) as [cur' E2].
    { by eapply get_graft. }
    { intros k' K'; by apply table_key_apart. }
    exists cur'; rewrite E2, (graft_graft _ _ _ _ _ G1); do 2 f_equal; unfold T1.
    rewrite (graft_app q [k] _ _ (s ++ [(k, TTable [])])) by (by eapply get_graft); simpl.
    by rewrite assoc_last, dict_set_last, (graft_graft _ _ _ _ _ G).
Qed.

Lemma drop_blank_spec ls : ∃ n, ls = drop_blank ls ++ replicate n [].
Proof.
  unfold drop_blank; enough (∀ r : list text, ∃ n, reverse r =
    reverse (dropwhile (λ l : text, if l is [] then true else false) r) ++ replicate n []) as R
    by (specialize (R (reverse ls)); by rewrite reverse_involutive in R).
  induction r as [|[|c l] r [n E]]; [by exists 0%nat|..]; cbn [dropwhile].
  - exists (S n); rewrite reverse_cons, E, <- (assoc_L (++)); f_equal; symmetry; apply replicate_S_end.
  - exists 0%nat; by rewrite app_nil_r.
Qed.
Lemma read_blanks s n : read_lines s (replicate n []) = Some s.
Proof. induction n; simpl; [done|]; done. Qed.
Lemma read_drop_blank s ls : read_lines s (drop_blank ls) = read_lines s ls.
Proof.
  destruct (drop_blank_spec ls) as [n E]; rewrite E at 2; rewrite read_lines_app.
  destruct (read_lines s (drop_blank ls)); [|done]; simpl; by rewrite read_blanks.
Qed.

Lemma loads_lines ls st : unbroken ls → read_lines (Reading [] []) ls = Some st →
  toml_loads (join [nl] (drop_blank ls) ++ [nl]) = Some (tree st).
Proof.
  intros U R; rewrite <- read_drop_blank in R; unfold toml_loads; rewrite split_on_app, read_lines_app.
  assert (read_lines (Reading [] []) (split_on nl (join [nl] (drop_blank ls))) = Some st) as ->; [|done].
  destruct (drop_blank_spec ls) as [n E]; rewrite E in U; apply Forall_app in U as [U _].
  destruct (decide (drop_blank ls = [])) as [D|D]; [by rewrite D in *|by rewrite split_on_join].
Qed.
Lemma canon_dict_spec d : NoDup d.*1 →
  (canon_dict d).*1 ≡ₚ d.*1 ∧ ∀ k, assoc k (canon_dict d) = canon <$> assoc k d.
Proof.
  intros N; assert ((canon_dict d).*1 ≡ₚ d.*1) as P.
  { unfold canon_dict; rewrite fmap_app; clear N; induction d as [|[k v] d IH]; [done|].
    unfold scalars, tables in *; cbn [map]; rewrite !filter_cons; cbn [snd]; rewrite is_table_canon.
    destruct (is_table v); simpl; rewrite <- IH; [by rewrite Permutation_middle|done]. }
  split; [done|]; intros k; assert (NoDup (canon_dict d).*1) as N' by by rewrite P.
  destruct (assoc k d) as [v|] eqn:A; simpl.
  - apply elem_assoc; [done|]; apply assoc_elem in A; unfold canon_dict; rewrite elem_of_app.
    unfold scalars, tables; rewrite !list_elem_of_filter; cbn [snd]; rewrite is_table_canon.
    destruct (is_table v) eqn:T; [right; split; [done|]; by apply (list_elem_of_fmap_2 (λ kv, (kv.1, canon kv.2)) d (k, v))|].
    left; split; [by destruct v|]; by destruct v.
  - apply assoc_None; rewrite P; by apply assoc_None.
Qed.

Lemma render_reads d : fine (TTable d) = true → ∃ t, render_toml d = Ret t ∧ toml_loads t = Some (canon_dict d).
Proof.
  intros F; destruct (fine_pairs d F) as [N P].
  assert (Forall (λ kv, defines kv.2) d) as D by (apply Forall_true; intros; apply tables_define).
  destruct (scalar_lines d F) as (ps & Ps & Lp), (table_lines [] d ltac:(constructor) F D) as (ts & Ts & Ut & Rt).
  set (mid := if scalars d is [] then [] else if tables d is [] then [] else [[]] : list text).
  assert (opening [] d = Ret (ps ++ mid)) as Op.
  { unfold opening, mid; destruct (scalars d) eqn:S; [by inversion Lp|]; by rewrite Ps. }
  destruct (Rt (scalars d) [] (scalars d) eq_refl) as [cur E]; [intros; by apply table_key_apart|].
  assert (unbroken ((ps ++ mid) ++ ts)) as U.
  { apply Forall_app_2; [apply Forall_app_2|done].
    - eapply Forall2_Forall_r; [exact Lp|]; by apply Forall_true; intros ? ? [? _].
    - unfold mid; repeat case_match; repeat constructor; apply not_elem_of_nil. }
  assert (read_lines (Reading [] []) ((ps ++ mid) ++ ts) = Some (Reading (canon_dict d) cur)) as Rd.
  { rewrite !read_lines_app, (read_pairs [] [] [] (scalars d)) by (done || by apply NoDup_keys_filter); cbn [mbind option_bind graft app].
    assert (∀ st, read_lines st mid = Some st) as -> by (intros; unfold mid; by repeat case_match).
    cbn [mbind option_bind]; exact E. }
  unfold render_toml; cbn [emit_table]; rewrite Op, Ts; cbn [then_lines]; eexists; split; [done|]; by rewrite (loads_lines _ _ U Rd).
Qed.

(** C26: What the wizard writes is what the server reads.  Any nested dict whose keys
    are distinct, whose lists hold no dicts and whose texts hold no DEL can be
    written; the text is TOML, and read back it gives the same dict, each table's
    own pairs before its tables. *)
Theorem render_toml_reads_back d : fine (TTable d) = true →
  ∃ t, render_toml d = Ret t ∧ toml_loads t = Some (canon_dict d) ∧
    (canon_dict d).*1 ≡ₚ d.*1 ∧ ∀ k, assoc k (canon_dict d) = canon <$> assoc k d.
Proof.
  intros F; destruct (render_reads d F) as (t & E & R); exists t; split_and!; [done..| |];
    by apply canon_dict_spec, (fine_pairs d F).
Qed.

(** A name that needs quotes, a list, an empty table. *)
Definition ex_dict : dict :=
  [("server", TTable [("default_target", TStr (txt "x5000 lab"))]);
   ("targets", TTable [("x5000 lab", TTable [("channels", TTable []); ("tags", TArr [TStr (txt "a"); TStr [dq; bs; nl]]);
                                               ("baud", TInt (-5)); ("enabled", TBool true)])])]%string.
Lemma render_toml_reads_back_witness :
  fine (TTable ex_dict) = true ∧
  ∃ t, render_toml ex_dict = Ret t ∧ toml_loads t = Some (canon_dict ex_dict) ∧ contains (txt "[targets.") t = true.
Proof.
  split; [reflexivity|].
  destruct (render_toml_reads_back ex_dict) as (t & W & R & _); [reflexivity|].
  exists t; split; [exact W|]; split; [exact R|].
  assert (match render_toml ex_dict with Ret t => contains (txt "[targets.") t | _ => false end = true) as C by (vm_compute; reflexivity).
  rewrite W in C; exact C.
Defined.
(** A DEL is written as it is, which no TOML reader accepts. *)
Example del_not_read : ∃ t, render_toml [("a"%string, TStr [chr 127])] = Ret t ∧ toml_loads t = None.
Proof. eexists; split; vm_compute; reflexivity. Qed.
