(* ===== verification/Validate.v ===== *)
(** * What a configuration file means: the models of [config.py]

    The fields of each section with their types and defaults, as pydantic reads them
    from TOML; [default_config_path] and [load_config].  How pydantic coerces a
    scalar that is not of the field's type, and how [pathlib] writes a path, are
    parameters; what is never coerced - a table or a list where a scalar is meant, a
    number where a text is - is refused. *)
From S2P Require Import Prelude Py Bytes Config Toml.
#[local] Open Scope string_scope.
#[local] Open Scope list_scope.
#[local] Open Scope Z_scope.

Section validate.
Context (lax_bool : toml → option bool) (lax_int : toml → option Z) (path_str : text → string).

(** Scalars *)
Definition is_scalar (v : toml) : bool := match v with TArr _ | TTable _ => false | _ => true end.
Definition as_str (v : toml) : option string := match v with TStr s => Some (str s) | _ => None end.
Definition as_path (v : toml) : option string := match v with TStr s => Some (path_str s) | _ => None end.
Definition as_bool (v : toml) : option bool := match v with TBool b => Some b | _ => if is_scalar v then lax_bool v else None end.
Definition as_int (v : toml) : option Z := match v with TInt z => Some z | _ => if is_scalar v then lax_int v else None end.
Definition as_int_in (lo hi : Z) (v : toml) : option Z := z ← as_int v; if (lo <=? z) && (z <=? hi) then Some z else None.
Definition as_list {A} (f : toml → option A) (v : toml) : option (list A) := match v with TArr l => mapM f l | _ => None end.
(** [Literal[...]] *)
Definition literal {A} (choices : list (string * A)) (v : toml) : option A := s ← as_str v; assoc s choices.
(** A field with a default, one that may be [None], one that must be given. *)
Definition field {A} (k : string) (f : toml → option A) (dflt : A) (d : dict) : option A :=
  match assoc k d with Some v => f v | None => Some dflt end.
Definition optional {A} (k : string) (f : toml → option A) (d : dict) : option (option A) :=
  match assoc k d with Some v => Some <$> f v | None => Some None end.
Definition required {A} (k : string) (f : toml → option A) (d : dict) : option A := assoc k d ≫= f.
(** A section is a table; keys it does not know are ignored. *)
Definition section {A} (f : dict → option A) (v : toml) : option A := match v with TTable d => f d | _ => None end.

Definition log_levels : list (string * LogLevel) := [("debug", Ldebug); ("info", Linfo); ("warn", Lwarn); ("error", Lerror)].
Definition transports : list (string * McpTransport) := [("stdio", Stdio); ("sse", Sse); ("streamable-http", StreamableHttp)].
Definition read_server (d : dict) : option ServerConfig :=
  ll ← field "log_level" (literal log_levels) Linfo d;
  ld ← field "log_dir" as_path "logs" d;
  ar ← field "archive_root" as_path "archive" d;
  kr ← field "archive_keep_runs" (λ v, Some <$> as_int v) (Some 50) d;
  sk ← field "serial_log_keep" (λ v, Some <$> as_int v) (Some 20) d;
  sm ← field "serial_log_max_total_mb" (λ v, Some <$> as_int v) (Some 512) d;
  tr ← field "mcp_transport" (literal transports) Stdio d;
  ad ← field "mcp_http_addr" as_str "127.0.0.1:7180" d;
  dt ← optional "default_target" as_str d;
  Some {| log_level := ll; log_dir := ld; archive_root := ar; archive_keep_runs := kr; serial_log_keep := sk;
          serial_log_max_total_mb := sm; mcp_transport := tr; mcp_http_addr := ad; default_target := dt |}.
Definition as_endpoint (v : toml) : option string :=
  s ← as_str v; match check_endpoint s with Ret e => Some e | _ => None end.
Definition read_qmp (d : dict) : option QmpChannel :=
  en ← field "enabled" as_bool true d; ep ← field "endpoint" as_endpoint "127.0.0.1:14422" d;
  Some {| qmp_enabled := en; qmp_endpoint := ep |}.
Definition read_mcpd (d : dict) : option McpdChannel :=
  en ← field "enabled" as_bool true d; ep ← field "endpoint" as_endpoint "127.0.0.1:4322" d;
  dp ← optional "discovery_port" as_int d;
  Some {| mcpd_enabled := en; mcpd_endpoint := ep; discovery_port := dp |}.
Definition read_gdb (d : dict) : option GdbChannel :=
  en ← field "enabled" as_bool true d; ep ← field "endpoint" as_endpoint "127.0.0.1:1234" d;
  Some {| gdb_enabled := en; gdb_endpoint := ep |}.
Definition read_serial (d : dict) : option SerialChannel :=
  en ← field "enabled" as_bool true d; po ← field "port" as_str "" d; ba ← field "baud" as_int 115200 d;
  Some {| ser_enabled := en; ser_port := po; ser_baud := ba |}.
Definition read_input (d : dict) : option InputConfig :=
  en ← field "enabled" as_bool false d; tl ← field "max_text_len" as_int 128 d; me ← field "max_events" as_int 256 d;
  dd ← field "default_delay_ms" as_int 15 d; dr ← field "allow_drag" as_bool true d;
  Some {| in_enabled := en; max_text_len := tl; max_events := me; default_delay_ms := dd; allow_drag := dr |}.
Definition read_channels (d : dict) : option TargetChannels :=
  mc ← optional "mcpd" (section read_mcpd) d; qm ← optional "qmp" (section read_qmp) d; gd ← optional "gdb" (section read_gdb) d;
  ub ← optional "uboot" (section read_serial) d; mu ← optional "mcu" (section read_serial) d;
  Some {| mcpd := mc; qmp := qm; gdb := gd; uboot := ub; mcu := mu |}.
Definition no_channels : TargetChannels := {| mcpd := None; qmp := None; gdb := None; uboot := None; mcu := None |}.
Definition read_sandbox (d : dict) : option SandboxTargetConfig :=
  pa ← optional "path" as_str d; em ← field "default_extmem_mb" as_int 1024 d; wm ← field "default_window_mb" as_int 256 d;
  dl ← field "deny_libs" (as_list as_str) [] d;
  Some {| sb_path := pa; default_extmem_mb := em; default_window_mb := wm; cfg_deny_libs := dl |}.
Definition read_target (d : dict) : option TargetConfig :=
  ty ← required "type" (literal [("qemu", Qemu); ("remote", Remote)]) d;
  dn ← optional "display_name" as_str d; ma ← optional "machine" as_str d; qc ← optional "qemu_config" as_path d;
  hl ← field "headless" as_bool false d; tg ← field "tags" (as_list as_str) [] d;
  ch ← field "channels" (section read_channels) no_channels d;
  sb ← optional "sandbox" (section read_sandbox) d; ip ← optional "input" (section read_input) d;
  Some {| type := ty; display_name := dn; machine := ma; qemu_config := qc; headless := hl; tags := tg; channels := ch;
          sandbox := sb; input := ip |}.
Definition read_paths (d : dict) : option PathsConfig :=
  aq ← optional "amiga_qemu_tests" as_path d; qb ← optional "qemu_binary" as_path d; sv ← optional "sandboxvm" as_path d;
  Some {| amiga_qemu_tests := aq; qemu_binary := qb; sandboxvm := sv |}.
Definition read_defaults (d : dict) : option DefaultsConfig :=
  dv ← optional "dest_volume" as_str d; sd ← optional "sources_dir" as_str d; ma ← optional "machine" as_str d;
  iso ← optional "iso_filename" as_str d; ep ← optional "exec_priority" (as_int_in (-128) 127) d;
  Some {| dest_volume := dv; sources_dir := sd; def_machine := ma; iso_filename := iso; exec_priority := ep |}.
Definition no_paths : PathsConfig := {| amiga_qemu_tests := None; qemu_binary := None; sandboxvm := None |}.
Definition no_defaults : DefaultsConfig :=
  {| dest_volume := None; sources_dir := None; def_machine := None; iso_filename := None; exec_priority := None |}.
Definition read_targets (d : dict) : option (list (string * TargetConfig)) :=
  mapM (λ kv, (kv.1,.) <$> section read_target kv.2) d.
(** [Config.model_validate]; [None] is a validation error. *)
Definition model_validate (d : dict) : option Config :=
  s ← field "server" (section read_server) ServerConfig_default d;
  p ← field "paths" (section read_paths) no_paths d;
  f ← field "defaults" (section read_defaults) no_defaults d;
  t ← field "targets" (section read_targets) [] d;
  Some {| server := s; paths := p; defaults := f; targets := t |}.

(** [default_config_path], of the environment's [AMIGA_FLEET_CONFIG] and [APPDATA],
    the home directory and whether the host runs Windows. *)
Definition default_config_path (env appdata : option string) (home : string) (windows : bool) : string :=
  match truthy env with
  | Some e => e
  | None =>
      if windows then path_join (path_join (default (path_join (path_join home "AppData") "Roaming") appdata) "amiga-fleet-mcp") "config.toml"
      else path_join (path_join (path_join home ".config") "amiga-fleet-mcp") "config.toml"
  end.
(** [load_config], of a path given as a text; [tomllib] is the reader of TOML, whose errors and those of UTF-8
    are [ValueError]s. *)
Context (tomllib : text → option dict) (exists_ : string → bool) (read_file : string → res exn text).
Definition load_from (p : string) : res exn Config :=
  if negb (exists_ p) then Raise (EOS FileNotFoundError ("config not found: " +:+ p))
  else match read_file p with
       | Ret t =>
           match tomllib t with
           | Some d => match model_validate d with Some c => Ret c | None => Raise (EPy ValidationError) end
           | None => Raise (EPy ValueError)
           end
       | Raise e => Raise e
       | Spin => Spin
       end.
Definition load_config (default_path : string) (path : option string) : res exn Config := load_from (default default_path (truthy path)).
End validate.

(* ------------------------------------------------------------------ *)
(** ** What is written and what is read *)

Section steady.
Context (lax_bool : toml → option bool) (lax_int : toml → option Z) (path_str : text → string).

(** A reader that does not mind the order of the keys. *)
Definition steady {A} (f : toml → option A) : Prop := ∀ v, fine v = true → f (canon v) = f v.
Definition steady_dict {A} (f : dict → option A) : Prop := ∀ d, fine (TTable d) = true → f (canon_dict d) = f d.
Lemma steady_scalar {A} (f : toml → option A) : (∀ d d', f (TTable d) = f (TTable d')) → steady f.
Proof. intros T [] _; simpl; [done..|apply T]. Qed.
Lemma assoc_fine k d v : fine (TTable d) = true → assoc k d = Some v → fine v = true.
Proof. intros [_ F]%fine_pairs A; apply assoc_elem in A; by apply F in A as [_ ?]. Qed.
Lemma assoc_canon k d : fine (TTable d) = true → assoc k (canon_dict d) = canon <$> assoc k d.
Proof. intros [N _]%fine_pairs; by apply canon_dict_spec. Qed.
Lemma field_steady {A} k (f : toml → option A) x d : steady f → fine (TTable d) = true → field k f x (canon_dict d) = field k f x d.
Proof.
  intros S F; unfold field; rewrite assoc_canon by done; destruct (assoc k d) eqn:E; simpl; [|done]; apply S; by apply (assoc_fine k d).
Qed.
Lemma optional_steady {A} k (f : toml → option A) d : steady f → fine (TTable d) = true → optional k f (canon_dict d) = optional k f d.
Proof.
  intros S F; unfold optional; rewrite assoc_canon by done; destruct (assoc k d) eqn:E; simpl; [|done]; rewrite S; [done|]; by apply (assoc_fine k d).
Qed.
Lemma required_steady {A} k (f : toml → option A) d : steady f → fine (TTable d) = true → required k f (canon_dict d) = required k f d.
Proof.
  intros S F; unfold required; rewrite assoc_canon by done; destruct (assoc k d) eqn:E; simpl; [|done]; apply S; by apply (assoc_fine k d).
Qed.
Lemma section_steady {A} (f : dict → option A) : steady_dict f → steady (section f).
Proof. intros S [] F; simpl; [done..|]; by apply S. Qed.

Create HintDb steady.
#[local] Hint Extern 1 (steady (section _)) => apply section_steady : steady.
#[local] Hint Extern 2 (steady _) => by apply steady_scalar : steady.
#[local] Ltac steady_fields :=
  let d := fresh "d" in let F := fresh "F" in intros d F;
  repeat first [rewrite (field_steady _ _ _ d) by eauto with steady | rewrite (optional_steady _ _ d) by eauto with steady
               |rewrite (required_steady _ _ d) by eauto with steady]; reflexivity.
Lemma read_server_steady : steady_dict (read_server lax_int path_str).
Proof. unfold read_server; steady_fields. Qed.
Lemma read_qmp_steady : steady_dict (read_qmp lax_bool).
Proof. unfold read_qmp; steady_fields. Qed.
Lemma read_mcpd_steady : steady_dict (read_mcpd lax_bool lax_int).
Proof. unfold read_mcpd; steady_fields. Qed.
Lemma read_gdb_steady : steady_dict (read_gdb lax_bool).
Proof. unfold read_gdb; steady_fields. Qed.
Lemma read_serial_steady : steady_dict (read_serial lax_bool lax_int).
Proof. unfold read_serial; steady_fields. Qed.
Lemma read_input_steady : steady_dict (read_input lax_bool lax_int).
Proof. unfold read_input; steady_fields. Qed.
Lemma read_sandbox_steady : steady_dict (read_sandbox lax_int).
Proof. unfold read_sandbox; steady_fields. Qed.
#[local] Hint Resolve read_server_steady read_qmp_steady read_mcpd_steady read_gdb_steady read_serial_steady read_input_steady read_sandbox_steady : steady.
Lemma read_channels_steady : steady_dict (read_channels lax_bool lax_int).
Proof. unfold read_channels; steady_fields. Qed.
#[local] Hint Resolve read_channels_steady : steady.
Lemma read_target_steady : steady_dict (read_target lax_bool lax_int path_str).
Proof. unfold read_target; steady_fields. Qed.
Lemma read_paths_steady : steady_dict (read_paths path_str).
Proof. unfold read_paths; steady_fields. Qed.
Lemma read_defaults_steady : steady_dict (read_defaults lax_int).
Proof. unfold read_defaults; steady_fields. Qed.
(** The targets are tables, and keep their order. *)
Lemma read_targets_steady : steady_dict (read_targets lax_bool lax_int path_str).
Proof.
  intros d F; unfold read_targets; destruct (decide (Forall (λ kv, is_table kv.2 = true) d)) as [T|T].
  - assert (canon_dict d = map (λ kv, (kv.1, canon kv.2)) d) as ->.
    { unfold canon_dict; clear F; assert (scalars d = [] ∧ tables (map (λ kv, (kv.1, canon kv.2)) d) = map (λ kv, (kv.1, canon kv.2)) d) as [-> ->]; [|done].
      induction T as [|[k v] d T _ [IH1 IH2]]; [done|]; unfold scalars, tables in *; cbn [map snd] in *.
      rewrite filter_cons_False, filter_cons_True by (cbn [snd]; rewrite ?is_table_canon; congruence); split; [done|by rewrite IH2]. }
    apply fine_pairs in F as [_ F]; clear T; induction d as [|[k v] d IH]; [done|]; simpl; rewrite IH by (intros; apply F; by right).
    rewrite (section_steady _ read_target_steady v); [done|]; by apply (F (k, v)); left.
  - assert (∀ d, (∃ kv, kv ∈ d ∧ is_table kv.2 = false) → mapM (λ kv : string * toml, (kv.1,.) <$> section (read_target lax_bool lax_int path_str) kv.2) d = None) as N.
    { clear; intros d; induction d as [|[k v] d IH]; intros (kv & K & T); [by apply not_elem_of_nil in K|]; simpl.
      apply elem_of_cons in K as [->|K]; [by destruct v|]; rewrite IH by eauto; by destruct (section _ v). }
    apply not_Forall_Exists in T; [|intros ?; apply _]; apply Exists_exists in T as (kv & K & T); apply not_true_is_false in T.
    rewrite !N; [done|eauto|]; exists kv; split; [|done]; apply elem_of_app; left; by apply list_elem_of_filter.
Qed.
#[local] Hint Resolve read_target_steady read_paths_steady read_defaults_steady read_targets_steady : steady.
Lemma model_validate_steady : steady_dict (model_validate lax_bool lax_int path_str).
Proof. unfold model_validate; steady_fields. Qed.
End steady.

(* ------------------------------------------------------------------ *)
(** ** What a configuration that was accepted can be relied on for *)

Section accepted.
Context (lax_bool : toml → option bool) (lax_int : toml → option Z) (path_str : text → string).

Definition endpoints_of (t : TargetConfig) : list string :=
  let ch := channels t in
  match mcpd ch with Some c => [mcpd_endpoint c] | None => [] end ++ match qmp ch with Some c => [qmp_endpoint c] | None => [] end ++
  match gdb ch with Some c => [gdb_endpoint c] | None => [] end.
Definition endpoint_ok (e : string) : Prop := check_endpoint e = Ret e.
Lemma field_spec {A} k (f : toml → option A) x d y : field k f x d = Some y → (assoc k d = None ∧ y = x) ∨ ∃ v, assoc k d = Some v ∧ f v = Some y.
Proof. unfold field; destruct (assoc k d); intros; simplify_eq; eauto. Qed.
Lemma optional_spec {A} k (f : toml → option A) d y : optional k f d = Some (Some y) → ∃ v, assoc k d = Some v ∧ f v = Some y.
Proof. unfold optional; destruct (assoc k d) as [v|]; [|done]; destruct (f v) eqn:E; intros; simplify_eq/=; eauto. Qed.
Lemma section_spec {A} (f : dict → option A) v y : section f v = Some y → ∃ d, v = TTable d ∧ f d = Some y.
Proof. destruct v; simpl; intros; simplify_eq; eauto. Qed.
Lemma check_endpoint_same s e : check_endpoint s = Ret e → e = s.
Proof.
  unfold check_endpoint; destruct (negb _); [done|]; destruct (rpartition _ _) as [[h p]|]; [|done]; destruct (_ || _); [done|]; congruence.
Qed.
Lemma endpoint_checked x d e : endpoint_ok x → field "endpoint" as_endpoint x d = Some e → endpoint_ok e.
Proof.
  intros X [[_ ->]|(v & _ & E)]%field_spec; [done|]; unfold as_endpoint in E; destruct (as_str v) as [s|]; [|done]; simpl in E.
  destruct (check_endpoint s) as [s'| |] eqn:C; [|done..]; injection E as ->; pose proof (check_endpoint_same s e C) as ->; exact C.
Qed.
(** Taking a reader apart. *)
#[local] Ltac opened := repeat match goal with
  | H : (_ ≫= _) = Some _ |- _ => apply bind_Some in H as (? & ? & H)
  end; simplify_eq/=.
Lemma read_channels_ok d ch : read_channels lax_bool lax_int d = Some ch →
  Forall endpoint_ok (match mcpd ch with Some c => [mcpd_endpoint c] | None => [] end ++ match qmp ch with Some c => [qmp_endpoint c] | None => [] end ++
    match gdb ch with Some c => [gdb_endpoint c] | None => [] end).
Proof.
  intros R; unfold read_channels in R; opened; cbn [mcpd qmp gdb]; repeat apply Forall_app_2.
  - match goal with H : optional "mcpd" _ _ = Some ?o |- _ => destruct o as [c|]; [|constructor] end.
    match goal with H : optional "mcpd" _ _ = _ |- _ => apply optional_spec in H as (v & _ & (dm & _ & H)%section_spec); unfold read_mcpd in H end.
    opened; apply Forall_singleton; eapply endpoint_checked; [|eassumption]; reflexivity.
  - match goal with H : optional "qmp" _ _ = Some ?o |- _ => destruct o as [c|]; [|constructor] end.
    match goal with H : optional "qmp" _ _ = _ |- _ => apply optional_spec in H as (v & _ & (dm & _ & H)%section_spec); unfold read_qmp in H end.
    opened; apply Forall_singleton; eapply endpoint_checked; [|eassumption]; reflexivity.
  - match goal with H : optional "gdb" _ _ = Some ?o |- _ => destruct o as [c|]; [|constructor] end.
    match goal with H : optional "gdb" _ _ = _ |- _ => apply optional_spec in H as (v & _ & (dm & _ & H)%section_spec); unfold read_gdb in H end.
    opened; apply Forall_singleton; eapply endpoint_checked; [|eassumption]; reflexivity.
Qed.
Lemma read_target_ok d t : read_target lax_bool lax_int path_str d = Some t → Forall endpoint_ok (endpoints_of t).
Proof.
  intros R; unfold read_target in R; opened; unfold endpoints_of; cbn [channels].
  match goal with H : field "channels" _ _ _ = _ |- _ => apply field_spec in H as [[_ ->]|(v & _ & (dm & _ & H)%section_spec)]; [constructor|by apply read_channels_ok in H] end.
Qed.
Lemma read_targets_ok d l : read_targets lax_bool lax_int path_str d = Some l → l.*1 = d.*1 ∧ Forall (λ nt, Forall endpoint_ok (endpoints_of nt.2)) l.
Proof.
  unfold read_targets; rewrite mapM_Some; induction 1 as [|[k v] [n t] d l E F [IH1 IH2]]; [done|]; simpl in *.
  destruct (section _ v) as [t'|] eqn:S; simplify_eq/=; split; [by f_equal|]; constructor; [|done].
  apply section_spec in S as (dt & _ & S); by apply read_target_ok in S.
Qed.
Lemma read_server_keeps d s : read_server lax_int path_str d = Some s →
  is_Some (archive_keep_runs s) ∧ is_Some (serial_log_keep s) ∧ is_Some (serial_log_max_total_mb s).
Proof.
  intros R; unfold read_server in R; opened; cbn [archive_keep_runs serial_log_keep serial_log_max_total_mb].
  repeat match goal with H : field _ (λ v, Some <$> as_int lax_int v) _ _ = Some _ |- _ => apply field_spec in H as [[_ ->]|(? & _ & H)];
    [|destruct (as_int lax_int _); simplify_eq/=] end; split_and!; by eexists.
Qed.

(** The document has no such setting of the server. *)
Definition left_out (k : string) (d : dict) : Prop :=
  match assoc "server" d with Some (TTable s) => assoc k s = None | None => True | _ => False end.
Lemma server_left_out d s : field "server" (section (read_server lax_int path_str)) ServerConfig_default d = Some s →
  (left_out "archive_keep_runs" d → archive_keep_runs s = Some 50) ∧
  (left_out "serial_log_keep" d → serial_log_keep s = Some 20) ∧
  (left_out "serial_log_max_total_mb" d → serial_log_max_total_mb s = Some 512).
Proof.
  unfold left_out; intros F; apply field_spec in F as [[_ ->]|(v & A & (ds & -> & R)%section_spec)]; [done|]; rewrite A.
  unfold read_server in R; opened; cbn [archive_keep_runs serial_log_keep serial_log_max_total_mb].
  unfold field in *; split_and!; intros N; rewrite N in *; by simplify_eq.
Qed.
(** C36: what the rest of the server takes for granted of its configuration: the
    targets' names differ, every endpoint has the form the validator asks for, the
    default priority fits a signed byte - and what the comments of [config.py] offer
    cannot be had from a file: no retention limit is ever [None], and one that is
    left out has its default (50 runs; 20 serial logs, of 512 megabytes in all). *)
Theorem accepted_config d c : fine (TTable d) = true → model_validate lax_bool lax_int path_str d = Some c →
  config_ok c ∧
  Forall (λ nt, Forall endpoint_ok (endpoints_of nt.2)) (targets c) ∧
  (∀ p, exec_priority (defaults c) = Some p → -128 ≤ p ≤ 127) ∧
  (is_Some (archive_keep_runs (server c)) ∧ is_Some (serial_log_keep (server c)) ∧ is_Some (serial_log_max_total_mb (server c))) ∧
  (left_out "archive_keep_runs" d → archive_keep_runs (server c) = Some 50) ∧
  (left_out "serial_log_keep" d → serial_log_keep (server c) = Some 20) ∧
  (left_out "serial_log_max_total_mb" d → serial_log_max_total_mb (server c) = Some 512).
Proof.
  intros F V; unfold model_validate in V; apply bind_Some in V as (s & Fs & V); apply bind_Some in V as (p & _ & V).
  apply bind_Some in V as (de & Fd & V); apply bind_Some in V as (ts & Ft & V); simplify_eq/=; split_and!.
  - unfold config_ok; cbn [targets]; apply field_spec in Ft as [[_ ->]|(v & A & (dt & -> & R)%section_spec)]; [constructor|].
    apply read_targets_ok in R as [-> _]; pose proof (assoc_fine _ _ _ F A) as Fv; by apply fine_pairs in Fv as [? _].
  - apply field_spec in Ft as [[_ ->]|(v & A & (dt & -> & R)%section_spec)]; [constructor|]; by apply read_targets_ok in R as [_ ?].
  - intros q Q; apply field_spec in Fd as [[_ ->]|(v & A & (dd & -> & R)%section_spec)]; [done|]; unfold read_defaults in R; opened.
    match goal with H : optional "exec_priority" _ _ = _ |- _ => apply optional_spec in H as (v & _ & H); unfold as_int_in in H end; opened.
    match goal with H : (if ?b then _ else _) = _ |- _ => destruct b eqn:B; [|done] end; simplify_eq; lia.
  - apply field_spec in Fs as [[_ ->]|(v & A & (ds & -> & R)%section_spec)]; [by eexists|]; by apply read_server_keeps in R as (? & _).
  - apply field_spec in Fs as [[_ ->]|(v & A & (ds & -> & R)%section_spec)]; [by eexists|]; by apply read_server_keeps in R as (_ & ? & _).
  - apply field_spec in Fs as [[_ ->]|(v & A & (ds & -> & R)%section_spec)]; [by eexists|]; by apply read_server_keeps in R as (_ & _ & ?).
  - intros Nk; by apply (proj1 (server_left_out _ _ Fs)).
  - intros Nk; by apply (proj1 (proj2 (server_left_out _ _ Fs))).
  - intros Nk; by apply (proj2 (proj2 (server_left_out _ _ Fs))).
Qed.
End accepted.

(** A guest with a discovery port, a machine whose only channel is the default one,
    an unknown key. *)
Definition ex_config_dict : dict :=
  [("server", TTable [("log_dir", TStr (txt "/var/log")); ("unknown", TBool true)]);
   ("targets", TTable
     [("vm", TTable [("type", TStr (txt "qemu")); ("channels", TTable [("mcpd", TTable [("endpoint", TStr (txt "127.0.0.1:4432")); ("discovery_port", TInt 4423)])])]);
      ("x5000", TTable [("type", TStr (txt "remote")); ("tags", TArr [TStr (txt "real")]); ("channels", TTable [("mcpd", TTable [])])])]);
   ("defaults", TTable [("exec_priority", TInt (-2))])].
Definition ex_model : dict → option Config := model_validate (λ _, None) (λ _, None) str.
Lemma accepted_config_witness : ∃ c, ex_model ex_config_dict = Some c ∧ map fst (targets c) = ["vm"; "x5000"] ∧ config_ok c ∧ archive_keep_runs (server c) = Some 50.
Proof.
  eexists; split; [vm_compute; reflexivity|]; split; [reflexivity|].
  match goal with |- config_ok ?c ∧ _ => destruct (accepted_config (λ _, None) (λ _, None) str ex_config_dict c) as (K & _ & _ & _ & D & _) end;
    [vm_compute; reflexivity|vm_compute; reflexivity|]; split; [exact K|apply D; reflexivity].
Defined.
Example bad_port : ex_model [("targets", TTable [("a", TTable [("type", TStr (txt "remote"));
  ("channels", TTable [("mcpd", TTable [("endpoint", TStr (txt "10.0.0.7:port"))])])])])] = None.
Proof. vm_compute. reflexivity. Qed.
Example no_type : ex_model [("targets", TTable [("a", TTable [])])] = None.
Proof. reflexivity. Qed.
(** A port of superscript digits is accepted, and is no number. *)
Example superscript_port : endpoint_ok (str (txt "10.0.0.7:" ++ [chr 178])) ∧ endpoint_port (str (txt "10.0.0.7:" ++ [chr 178])) = Raise (EPy ValueError).
Proof. split; reflexivity. Qed.
