(* ===== verification/Wizard.v ===== *)
(** * The setup wizard: [setup_wizard.py]

    [--init]: questions, the configuration made of the answers, and the file it is
    written to.  A question takes the next of the answers there are; when there is
    none left it raises [EOFError], as [input] does. *)
From S2P Require Import Prelude Py Bytes Toml.
#[local] Open Scope string_scope.
#[local] Open Scope list_scope.
#[local] Open Scope Z_scope.

Definition answers := list text.
Abbreviation MP := (M answers exn).

(** [_ask] *)
Fixpoint ask_from (d : option text) (l : answers) : res exn text * answers :=
  match l with
  | [] => (Raise (EPy EOFError), [])
  | a :: l =>
      match strip a, d with
      | [], Some d => (Ret d, l)
      | [], None => ask_from None l
      | ans, _ => (Ret ans, l)
      end
  end.
Definition ask (d : option text) : MP text := ask_from d.
(** [s.lower()] of the letters there are in Latin-1. *)
Definition lower (t : text) : text :=
  map (λ c, if in_range c 65 90 || in_range c 192 214 || in_range c 216 222 then chr (ord c + 32) else c) t.
(** [_ask_bool] *)
Fixpoint ask_bool_from (d : bool) (l : answers) : res exn bool * answers :=
  match l with
  | [] => (Raise (EPy EOFError), [])
  | a :: l =>
      let ans := lower (strip a) in
      if ans is [] then (Ret d, l)
      else if bool_decide (ans ∈ [txt "y"; txt "yes"]) then (Ret true, l)
      else if bool_decide (ans ∈ [txt "n"; txt "no"]) then (Ret false, l)
      else ask_bool_from d l
  end.
Definition ask_bool (d : bool) : MP bool := ask_bool_from d.
(** [_ask_choice] *)
Fixpoint ask_choice_from (choices : list text) (d : text) (l : answers) : res exn text * answers :=
  match l with
  | [] => (Raise (EPy EOFError), [])
  | a :: l =>
      let ans := if strip a is [] then d else strip a in
      if bool_decide (ans ∈ choices) then (Ret ans, l) else ask_choice_from choices d l
  end.
Definition ask_choice (choices : list text) (d : text) : MP text := ask_choice_from choices d.
(** [_ask_optional] *)
Definition ask_optional : MP (option text) := λ l,
  match l with
  | [] => (Raise (EPy EOFError), [])
  | a :: l => (Ret (if strip a is [] then None else Some (strip a)), l)
  end.

(** The configuration being made. *)
Record draft := Draft { d_server : dict; d_paths : dict; d_defaults : dict; d_targets : dict }.
Definition T (s : string) : toml := TStr (txt s).
(** [_stub_config]; [base] is the directory for logs and archives. *)
Definition stub_config (base : text) : draft :=
  Draft [("log_level", T "info"); ("log_dir", TStr (base ++ txt "/logs")); ("archive_root", TStr (base ++ txt "/archive"));
         ("mcp_transport", T "stdio")] [] [] [].
Definition text_at (k : string) (d : dict) : text := match assoc k d with Some (TStr s) => s | _ => [] end.

(** [_wizard_server] *)
Definition wizard_server (s : dict) : MP dict :=
  v ← ask (Some (text_at "log_dir" s));
  let s := dict_set "log_dir" (TStr v) s in
  v ← ask (Some (text_at "archive_root" s));
  let s := dict_set "archive_root" (TStr v) s in
  v ← ask_choice (map txt ["debug"; "info"; "warn"; "error"]) (text_at "log_level" s);
  let s := dict_set "log_level" (TStr v) s in
  v ← ask_choice (map txt ["stdio"; "sse"; "streamable-http"]) (text_at "mcp_transport" s);
  let s := dict_set "mcp_transport" (TStr v) s in
  if decide (v = txt "stdio") then mret s
  else v ← ask (Some (txt "127.0.0.1:7180")); mret (dict_set "mcp_http_addr" (TStr v) s).
(** [_suggest], under the directory of projects. *)
Definition suggest (exists_path : text → bool) (projects name : text) : option text :=
  List.find exists_path [projects ++ txt "/" ++ name; projects ++ txt "/Testing/" ++ name].
(** [_wizard_paths]; [suggested] is what [_suggest] finds. *)
Definition wizard_paths (suggested : option text) (p : dict) : MP dict :=
  given ← ask_optional;
  let p := match (match given with Some g => Some g | None => suggested end) with
           | Some q => dict_set "amiga_qemu_tests" (TStr q) p
           | None => p
           end in
  qb ← ask_optional;
  mret (match qb with Some q => dict_set "qemu_binary" (TStr q) p | None => p end).

Definition channel (endpoint : text) : toml := TTable [("enabled", TBool true); ("endpoint", TStr endpoint)].
Definition local (port : text) : text := txt "127.0.0.1:" ++ port.
(** A channel that is asked for first. *)
Definition local_channel (name : string) (d : bool) (port : text) (channels : dict) : MP dict :=
  yes ← ask_bool d;
  if yes : bool then p ← ask (Some port); mret (dict_set name (channel (local p)) channels) else mret channels.
Definition qemu_target (t : dict) : MP dict :=
  machine ← ask_choice (map txt ["pegasos2"; "amigaone"; "sam460ex"]) (txt "pegasos2");
  config ← ask None;
  port ← ask (Some (txt "4422"));
  channels ← local_channel "qmp" true (txt "14422") [("mcpd", channel (local port))];
  channels ← local_channel "gdb" false (txt "1234") channels;
  mret (dict_set "qemu_config" (TStr config) (dict_set "machine" (TStr machine) (dict_set "channels" (TTable channels) t))).
Definition remote_target (windows : bool) (t : dict) : MP dict :=
  ip ← ask None;
  port ← ask (Some (txt "4322"));
  let channels := [("mcpd", channel (ip ++ txt ":" ++ port))] in
  cable ← ask_bool false;
  if cable : bool then
    port ← ask (Some (txt (if windows then "COM5" else "/dev/ttyUSB1")));
    mret (dict_set "channels" (TTable (dict_set "mcu"
            (TTable [("enabled", TBool true); ("port", TStr port); ("baud", TInt 38400)]) channels)) t)
  else mret (dict_set "channels" (TTable channels) t).
(** [_wizard_target] *)
Definition wizard_target (windows : bool) : MP (string * dict) :=
  name ← ask None;
  ttype ← ask_choice (map txt ["qemu"; "remote"]) (txt "remote");
  raw_tags ← ask (Some ttype);
  display ← ask (Some name);
  let tags := filter (λ t, t ≠ []) (map strip (split_on ","%char raw_tags)) in
  let t := [("type", TStr ttype); ("display_name", TStr display); ("tags", TArr (TStr <$> tags)); ("channels", TTable [])] in
  t ← (if decide (ttype = txt "qemu") then qemu_target t else remote_target windows t);
  input ← ask_bool false;
  mret (str name, if input : bool then dict_set "input" (TTable [("enabled", TBool true)]) t else t).
(** [_wizard_targets]: every turn asks at least once. *)
Fixpoint wizard_targets (fuel : nat) (windows : bool) (ts : dict) : MP dict :=
  match fuel with
  | O => spin
  | S fuel =>
      more ← ask_bool (if ts is [] then true else false);
      if more : bool then
        '(name, t) ← wizard_target windows;
        wizard_targets fuel windows (dict_set name (TTable t) ts)
      else mret ts
  end.
(** [_wizard_default_target] *)
Definition wizard_default_target (ts s : dict) : MP dict :=
  match map txt ts.*1 with
  | [] => mret s
  | [t] => mret (dict_set "default_target" (TStr t) s)
  | (t :: _) as names =>
      yes ← ask_bool true;
      if yes : bool then n ← ask_choice names t; mret (dict_set "default_target" (TStr n) s) else mret s
  end.
(** [_wizard_defaults] *)
Fixpoint ask_each (keys : list string) (d : dict) : MP dict :=
  match keys with
  | [] => mret d
  | k :: keys =>
      v ← ask_optional;
      ask_each keys (match v with Some v => dict_set k (TStr v) d | None => d end)
  end.
Definition wizard_defaults (d : dict) : MP dict :=
  yes ← ask_bool false;
  if yes : bool then ask_each ["dest_volume"; "sources_dir"; "machine"] d else mret d.

(** [_strip_empty] of the whole *)
Definition strip_empty (d : dict) : dict := filter (λ kv, match kv.2 with TTable [] => false | _ => true end = true) d.
Definition config_of (c : draft) : dict :=
  strip_empty [("server", TTable (d_server c)); ("paths", TTable (d_paths c)); ("defaults", TTable (d_defaults c));
               ("targets", TTable (d_targets c))].

Section run_init.
(** [Config.model_validate], the directory of the stub, the paths that exist, the
    directory of projects, and whether the host runs Windows. *)
Context (validate : dict → bool) (base : text) (exists_path : text → bool) (projects : text) (windows : bool).
(** What [mkdir] of the destination's directory or [write_text] raises for a
    text, if they do, and what is at the destination then. *)
Context (write_fault : text → option text → option (exn * option text)).
(** The interview; the number of answers left bounds the targets. *)
Definition interview : MP draft :=
  let c := stub_config base in
  s ← wizard_server (d_server c);
  p ← wizard_paths (suggest exists_path projects (txt "AmigaQemuTests")) (d_paths c);
  left_ ← gets length;
  ts ← wizard_targets (S left_) windows (d_targets c);
  s ← wizard_default_target ts s;
  d ← wizard_defaults (d_defaults c);
  mret (Draft s p d ts).

(** The answers, and the file at the destination. *)
Abbreviation W := (answers * option text)%type.
Definition on_answers {A} (m : MP A) : M W exn A := λ w, let '(r, l) := m w.1 in (r, (l, w.2)).
(** Whether to stop, and with what code. *)
Definition before_init (force non_interactive : bool) : M W exn (option Z) :=
  there ← gets (λ w, if w.2 is Some _ then true else false);
  if there && negb force then
    if non_interactive then mret (Some 65)
    else yes ← on_answers (ask_bool false); mret (if yes : bool then None else Some 0)
  else mret None.
Definition write_text (body : text) : M W exn unit :=
  w ← get;
  match write_fault body w.2 with
  | Some (e, left_) => modify (λ w, (w.1, left_));; raise e
  | None => modify (λ w, (w.1, Some body))
  end.
Definition write_config (cfg : dict) : M W exn Z :=
  if validate cfg then
    body ← lift (render_toml cfg);
    write_text body;;
    mret 0
  else mret 70.
Definition the_draft (non_interactive : bool) : M W exn draft :=
  if non_interactive then mret (stub_config base) else on_answers interview.
Definition run_init (force non_interactive : bool) : M W exn Z :=
  stop ← before_init force non_interactive;
  match stop with
  | Some code => mret code
  | None => c ← the_draft non_interactive; write_config (config_of c)
  end.
End run_init.

(* ------------------------------------------------------------------ *)
(** ** What the interview makes of plain answers *)

Definition good (d : dict) : Prop := fine (TTable d) = true.
Lemma plain_spec s : plain s = true ↔ chr 127 ∉ s.
Proof.
  unfold plain; rewrite forallb_forall; split.
  - intros F D%list_elem_of_In; by apply F, bool_decide_eq_true_1 in D.
  - intros N c C%list_elem_of_In; apply bool_decide_eq_true_2; by intros ->.
Qed.
Lemma plain_sub s t : s ⊆ t → plain t = true → plain s = true.
Proof. rewrite !plain_spec; intros S N D; by apply N, S. Qed.
Lemma plain_app s t : plain s = true → plain t = true → plain (s ++ t) = true.
Proof. rewrite !plain_spec, elem_of_app; tauto. Qed.
Lemma dropwhile_subset (f : ascii → bool) t : dropwhile f t ⊆ t.
Proof. induction t as [|c t IH]; simpl; [done|]; destruct (f c); [|done]; intros x X; right; by apply IH. Qed.
Lemma reverse_subset (t : text) : reverse t ⊆ t.
Proof. intros x; by rewrite elem_of_reverse. Qed.
Lemma plain_strip t : plain t = true → plain (strip t) = true.
Proof.
  apply plain_sub; unfold strip, rstrip, rstrip_of, lstrip.
  etrans; [apply reverse_subset|]; etrans; [apply dropwhile_subset|]; etrans; [apply reverse_subset|]; apply dropwhile_subset.
Qed.
Lemma plain_split c t : plain t = true → Forall (λ p, plain p = true) (split_on c t).
Proof.
  induction t as [|d t IH]; simpl; [by repeat constructor|]; intros [D P]%plain_cons; case_decide; [by constructor; auto|].
  specialize (IH P); destruct (split_on c t) as [|p ps]; [apply Forall_singleton|apply Forall_cons in IH as [Pp Ps]; constructor; [|done]];
    (unfold plain in *; simpl; by rewrite bool_decide_eq_true_2).
Qed.
Lemma dict_set_elem {A} k (v : A) d kv : kv ∈ dict_set k v d → kv = (k, v) ∨ kv ∈ d.
Proof.
  induction d as [|[k' w] d IH]; simpl; [by intros ->%list_elem_of_singleton; left|].
  case_decide; intros [->|K]%elem_of_cons; [by left|by right; right|by right; left|].
  destruct (IH K); [by left|by right; right].
Qed.
Lemma good_intro d : NoDup d.*1 → (∀ kv, kv ∈ d → plain (txt kv.1) = true ∧ fine kv.2 = true) → good d.
Proof.
  intros N F; unfold good; simpl; rewrite bool_decide_eq_true_2 by done; simpl; apply forallb_forall.
  intros kv K%list_elem_of_In; by apply andb_true_iff, F.
Qed.
Lemma good_set k v d : good d → plain (txt k) = true → fine v = true → good (dict_set k v d).
Proof.
  intros [N F]%fine_pairs P V; apply good_intro; [by apply dict_set_NoDup|].
  by intros kv [->|K]%dict_set_elem; [|apply F].
Qed.
Lemma good_nil : good [].
Proof. done. Qed.
Lemma good_filter (P : string * toml → Prop) `{∀ kv, Decision (P kv)} d : good d → good (filter P d).
Proof.
  intros [N F]%fine_pairs; apply good_intro; [by apply NoDup_keys_filter|].
  by intros kv [_ K]%list_elem_of_filter; apply F.
Qed.
Lemma text_at_plain k d : good d → plain (text_at k d) = true.
Proof.
  intros [_ F]%fine_pairs; unfold text_at; destruct (assoc k d) as [[]|] eqn:A; try done.
  apply assoc_elem in A; by apply F in A as [_ ?].
Qed.

(** A part of the interview that, given plain answers, ends, leaves plain answers
    and, if it gives something, something of [P]. *)
Definition plain_answers (l : answers) : Prop := Forall (λ a, plain a = true) l.
Definition gives {A} (P : A → Prop) (m : MP A) : Prop := ∀ l, plain_answers l →
  (m l).1 ≠ Spin ∧ plain_answers (m l).2 ∧ (length (m l).2 ≤ length l)%nat ∧ ∀ a, (m l).1 = Ret a → P a.
Lemma gives_ret {A} (P : A → Prop) a : P a → gives P (mret a).
Proof. intros Pa l L; split_and!; [done|done|simpl; lia|]; by intros ? [= <-]. Qed.
Lemma gives_bind {A B} (P : A → Prop) (Q : B → Prop) (m : MP A) (k : A → MP B) :
  gives P m → (∀ a, P a → gives Q (k a)) → gives Q (m ≫= k).
Proof.
  intros M K l L; destruct (M l L) as (S & L' & Len & R); unfold mbind, M_bind.
  destruct (m l) as [[a|x|] l']; simpl in *; [|by split_and!..].
  destruct (K a (R a eq_refl) l' L') as (S' & L'' & Len' & R'); split_and!; [done..|lia|done].
Qed.
Definition is_plain (t : text) : Prop := plain t = true.
#[local] Ltac parts := split_and!; [done|first [done|constructor]|simpl in *; lia|try done].
Lemma gives_ask d : (∀ t, d = Some t → is_plain t) → gives is_plain (ask d).
Proof.
  unfold ask; intros D l L; induction L as [|a l Pa L IH]; simpl; [parts|].
  pose proof (plain_strip a Pa) as S; destruct (strip a) eqn:E; [destruct d as [d|]|].
  - parts; intros ? [= <-]; by apply D.
  - destruct IH as (? & ? & ? & ?); parts.
  - destruct d; (parts; by intros ? [= <-]).
Qed.
Lemma ask_bool_takes d l b l' : ask_bool d l = (Ret b, l') → (length l' < length l)%nat.
Proof.
  unfold ask_bool; induction l as [|a l IH]; simpl; [done|].
  destruct (lower (strip a)) eqn:E; [intros; simplify_eq; lia|]; repeat case_bool_decide; intros; simplify_eq; try lia.
  specialize (IH ltac:(done)); lia.
Qed.
Lemma gives_ask_bool d : gives (λ _, True) (ask_bool d).
Proof.
  unfold ask_bool; intros l L; induction L as [|a l Pa L IH]; simpl; [parts|].
  destruct (lower (strip a)); [parts|]; repeat case_bool_decide; [parts..|].
  destruct IH as (? & ? & ? & ?); parts.
Qed.
Lemma gives_ask_choice cs d : Forall is_plain cs → gives (λ c, is_plain c ∧ c ∈ cs) (ask_choice cs d).
Proof.
  unfold ask_choice; intros C l L; induction L as [|a l Pa L IH]; simpl; [parts|]; case_bool_decide as I.
  - parts; intros ? [= <-]; split; [|done]; rewrite Forall_forall in C; by apply C.
  - destruct IH as (? & ? & ? & ?); parts.
Qed.
Lemma gives_ask_optional : gives (λ o, ∀ t, o = Some t → is_plain t) ask_optional.
Proof.
  intros l L; destruct L as [|a l Pa L]; simpl; [parts|]; parts.
  intros o [= <-] t E; apply (plain_strip a) in Pa; destruct (strip a); by simplify_eq.
Qed.

(** Rules for the parts. *)
Lemma gives_mono {A} (P Q : A → Prop) m : gives P m → (∀ a, P a → Q a) → gives Q m.
Proof. intros M I l L; destruct (M l L) as (? & ? & ? & R); split_and!; [done..|]; eauto. Qed.
Ltac gives_step :=
  match goal with
  | |- gives _ (ask _ ≫= _) => eapply gives_bind; [apply gives_ask|]
  | |- gives _ (ask_bool _ ≫= _) => eapply gives_bind; [apply gives_ask_bool|]; intros [] _
  | |- gives _ (ask_choice _ _ ≫= _) => eapply gives_bind; [apply gives_ask_choice|]
  | |- gives _ (ask_optional ≫= _) => eapply gives_bind; [apply gives_ask_optional|]
  | |- gives _ (mret _) => apply gives_ret
  end.
Definition good_list (l : list string) : bool := forallb (λ s, plain (txt s)) l.
Lemma plain_choices l : good_list l = true → Forall is_plain (map txt l).
Proof. intros F; apply Forall_map, Forall_forall; intros s S%list_elem_of_In; by apply (proj1 (forallb_forall _ l) F). Qed.

Lemma wizard_server_gives s : good s → gives good (wizard_server s).
Proof.
  intros G; unfold wizard_server.
  gives_step; [intros t [= <-]; by apply text_at_plain|]; intros v V.
  gives_step; [intros t [= <-]; apply text_at_plain; by apply good_set|]; intros v2 V2.
  gives_step; [by apply plain_choices|]; intros v3 [V3 _].
  gives_step; [by apply plain_choices|]; intros v4 [V4 _].
  assert (good (dict_set "mcp_transport" (TStr v4) (dict_set "log_level" (TStr v3)
    (dict_set "archive_root" (TStr v2) (dict_set "log_dir" (TStr v) s))))) as Gs by by repeat apply good_set.
  case_decide; [by gives_step|]; gives_step; [by intros t [= <-]|]; intros v5 V5; gives_step; by apply good_set.
Qed.
Lemma wizard_paths_gives o p : (∀ t, o = Some t → is_plain t) → good p → gives good (wizard_paths o p).
Proof.
  intros O G; unfold wizard_paths; gives_step; intros g Pg; gives_step; intros q Pq; gives_step.
  assert (good match (match g with Some g => Some g | None => o end) with
               | Some q => dict_set "amiga_qemu_tests" (TStr q) p | None => p end) as Gp.
  { destruct g as [g|]; [apply good_set; [done..|by apply Pg]|]; destruct o as [o|]; [apply good_set; [done..|by apply O]|done]. }
  destruct q as [q|]; [apply good_set; [done..|by apply Pq]|done].
Qed.
Lemma fine_channel t : is_plain t → fine (channel t) = true.
Proof. intros P; unfold channel; cbn; by rewrite P. Qed.
Lemma plain_local p : is_plain p → is_plain (local p).
Proof. intros P; by apply plain_app. Qed.
Lemma local_channel_gives name d port cs : plain (txt name) = true → is_plain port → good cs →
  gives good (local_channel name d port cs).
Proof.
  intros N P G; unfold local_channel; gives_step; [|by gives_step].
  gives_step; [by intros t [= <-]|]; intros p Pp; gives_step; apply good_set; [done..|]; by apply fine_channel, plain_local.
Qed.
Lemma good_mcpd t : is_plain t → good [("mcpd", channel t)].
Proof. intros P; apply (good_set "mcpd" _ []); [done..|by apply fine_channel]. Qed.
Lemma qemu_target_gives t : good t → gives good (qemu_target t).
Proof.
  intros G; unfold qemu_target; gives_step; [by apply plain_choices|]; intros m [M _].
  gives_step; [done|]; intros c C; gives_step; [by intros ? [= <-]|]; intros p P.
  eapply gives_bind; [apply local_channel_gives; [done..|by apply good_mcpd, plain_local]|]; intros cs Cs.
  eapply gives_bind; [by apply local_channel_gives|]; intros cs2 Cs2; gives_step; by repeat apply good_set.
Qed.
Lemma remote_target_gives w t : good t → gives good (remote_target w t).
Proof.
  intros G; unfold remote_target; gives_step; [done|]; intros ip Ip; gives_step; [by intros ? [= <-]|]; intros p P.
  assert (good [("mcpd", channel (ip ++ txt ":" ++ p))]) as Gc by (apply good_mcpd; repeat apply plain_app; done).
  gives_step; [|by gives_step; apply good_set].
  gives_step; [by intros ? [= <-]; destruct w|]; intros q Q; gives_step; apply good_set; [done..|]; apply good_set; [done..|].
  cbn; by rewrite Q.
Qed.
Lemma wizard_target_gives w : gives (λ nt, plain (txt nt.1) = true ∧ good nt.2) (wizard_target w).
Proof.
  unfold wizard_target; gives_step; [done|]; intros n N; gives_step; [by apply plain_choices|]; intros ty [Ty _].
  gives_step; [by intros ? [= <-]|]; intros tags Tags; gives_step; [by intros ? [= <-]|]; intros dn Dn.
  set (t := [("type", TStr ty); _; _; _]).
  assert (good t) as Gt.
  { apply good_intro; [by apply (bool_decide_eq_true_1 _)|].
    assert (fine (TArr (TStr <$> filter (λ t, t ≠ []) (map strip (split_on ","%char tags)))) = true) as Ft.
    { simpl; apply forallb_forall; intros v V%list_elem_of_In; apply list_elem_of_fmap in V as (x & -> & [_ X]%list_elem_of_filter).
      apply list_elem_of_In, in_map_iff in X as (y & <- & Y%list_elem_of_In); simpl; apply plain_strip.
      pose proof (plain_split ","%char tags Tags) as F; rewrite Forall_forall in F; by apply F. }
    intros kv K; unfold t in K; rewrite !elem_of_cons in K; destruct K as [->|[->|[->|[->|K%not_elem_of_nil]]]]; done. }
  assert (gives good (if decide (ty = txt "qemu") then qemu_target t else remote_target w t)) as Gk
    by (case_decide; [by apply qemu_target_gives|by apply remote_target_gives]).
  eapply gives_bind; [exact Gk|]; intros t2 G2; gives_step; gives_step; simpl; rewrite txt_str; (split; [done|]); [by apply good_set|done].
Qed.
Lemma wizard_targets_gives fuel w ts l : good ts → plain_answers l → (length l < fuel)%nat →
  let '(r, l') := wizard_targets fuel w ts l in
  r ≠ Spin ∧ plain_answers l' ∧ (length l' ≤ length l)%nat ∧ ∀ ts', r = Ret ts' → good ts'.
Proof.
  revert ts l; induction fuel as [|fuel IH]; intros ts l G L Len; [lia|]; cbn [wizard_targets]; unfold mbind, M_bind.
  destruct (gives_ask_bool (if ts is [] then true else false) l L) as (S & L1 & Len1 & _).
  destruct (ask_bool _ l) as [[b|x|] l1] eqn:E; simpl in *; [|by split_and!..].
  apply ask_bool_takes in E; destruct b; [|simpl; split_and!; [done..|by intros ? [= <-]]].
  destruct (wizard_target_gives w l1 L1) as (S2 & L2 & Len2 & R2).
  destruct (wizard_target w l1) as [[[n t]|x|] l2]; simpl in *; [|split_and!; [done..|lia|done]|done].
  destruct (R2 _ eq_refl) as [N T].
  specialize (IH (dict_set n (TTable t) ts) l2 ltac:(by apply good_set) L2 ltac:(lia)).
  destruct (wizard_targets fuel w _ l2) as [r l3]; destruct IH as (? & ? & ? & ?); split_and!; [done..|lia|done].
Qed.
Lemma wizard_default_target_gives ts s : good ts → good s → gives good (wizard_default_target ts s).
Proof.
  intros [_ F]%fine_pairs G; unfold wizard_default_target.
  assert (Forall is_plain (map txt ts.*1)) as P.
  { apply Forall_map, Forall_fmap, Forall_forall; intros kv K; by apply F. }
  destruct (map txt ts.*1) as [|n [|n2 ns]] eqn:E; [by gives_step|gives_step; apply good_set; [done..|by apply Forall_cons in P as [? _]]|].
  gives_step; [|by gives_step]; gives_step; [done|]; intros m [M _]; gives_step; by apply good_set.
Qed.
Lemma ask_each_gives ks d : good_list ks = true → good d → gives good (ask_each ks d).
Proof.
  revert d; induction ks as [|k ks IH]; simpl; intros d K G; [by gives_step|]; apply andb_true_iff in K as [Kk K].
  gives_step; intros v V; apply IH; [done|]; destruct v as [v|]; [|done]; apply good_set; [done..|by apply V].
Qed.
Lemma wizard_defaults_gives d : good d → gives good (wizard_defaults d).
Proof. intros G; unfold wizard_defaults; gives_step; [by apply ask_each_gives|by gives_step]. Qed.

Definition good_draft (c : draft) : Prop := good (d_server c) ∧ good (d_paths c) ∧ good (d_defaults c) ∧ good (d_targets c).
Lemma stub_good base : is_plain base → good_draft (stub_config base).
Proof.
  intros B; split_and!; [|apply good_nil..]; apply good_intro; [by apply (bool_decide_eq_true_1 _)|].
  intros kv K; unfold stub_config, d_server in K; rewrite !elem_of_cons in K.
  destruct K as [->|[->|[->|[->|K%not_elem_of_nil]]]]; try done; (split; [done|]); simpl; by apply plain_app.
Qed.
Lemma config_good c : good_draft c → good (config_of c).
Proof.
  intros (S & P & D & Ts); apply good_filter, good_intro; [by apply (bool_decide_eq_true_1 _)|].
  intros kv K; rewrite !elem_of_cons in K; destruct K as [->|[->|[->|[->|K%not_elem_of_nil]]]]; done.
Qed.
Lemma suggest_plain f projects name t : is_plain projects → plain name = true → suggest f projects name = Some t → is_plain t.
Proof.
  intros P N [[<-|[<-|[]]] _]%find_some; (apply plain_app; [done|]); by apply plain_app.
Qed.
Lemma interview_gives base exists_path projects w : is_plain base → is_plain projects →
  gives good_draft (interview base exists_path projects w).
Proof.
  intros B O; destruct (stub_good base B) as (Sg & P & D & Ts); unfold interview.
  eapply gives_bind; [by apply wizard_server_gives|]; intros s Gs.
  eapply gives_bind; [apply wizard_paths_gives; [by intros t; apply suggest_plain|done]|]; intros p Gp.
  intros l L; change ((gets length ≫= ?k) l) with (k (length l) l); cbv beta.
  pose proof (wizard_targets_gives (S (length l)) w (d_targets (stub_config base)) l Ts L ltac:(lia)) as W.
  match goal with |- context [((wizard_targets _ _ _ ≫= ?k) l)] => set (rest := k) end; unfold mbind, M_bind.
  destruct (wizard_targets _ w _ l) as [[ts|x|] l']; destruct W as (? & L' & ? & Gt); [|by split_and!..].
  assert (gives good_draft (rest ts)) as K.
  { unfold rest; eapply gives_bind; [apply wizard_default_target_gives; [by apply Gt|done]|]; intros s' Gs'.
    eapply gives_bind; [by apply wizard_defaults_gives|]; intros d Gd; gives_step; split_and!; [done..|by apply Gt]. }
  destruct (K l' L') as (? & ? & ? & ?); split_and!; [done..|lia|done].
Qed.

(* ------------------------------------------------------------------ *)
(** ** The file *)

Section the_file.
Context (validate : dict → bool) (base : text) (exists_path : text → bool) (projects : text) (windows : bool).
Context (write_fault : text → option text → option (exn * option text)).
Hypothesis base_plain : is_plain base.
Hypothesis projects_plain : is_plain projects.

(** Nothing was there, or it was to be overwritten. *)
Definition may_write (force non_interactive : bool) (l : answers) (file : option text) : Prop :=
  file = None ∨ force = true ∨ (non_interactive = false ∧ (ask_bool false l).1 = Ret true).
(** A configuration that passes validation, and that the file reads back as. *)
Definition written (body : text) : Prop :=
  ∃ cfg, validate cfg = true ∧ good cfg ∧ toml_loads body = Some (canon_dict cfg) ∧ ∀ k, assoc k (canon_dict cfg) = canon <$> assoc k cfg.

Lemma before_init_spec force noni l file : plain_answers l →
  let '(r, w) := before_init force noni (l, file) in
  w.2 = file ∧ plain_answers w.1 ∧ r ≠ Spin ∧
  (r = Ret None → may_write force noni l file) ∧ (∀ x, r = Raise x → noni = false) ∧
  (∀ c, r = Ret (Some c) → is_Some file ∧ force = false ∧
    (c = 65 ∧ noni = true ∨ c = 0 ∧ noni = false ∧ (ask_bool false l).1 = Ret false)).
Proof.
  intros L; unfold before_init, may_write, mbind, M_bind, gets, on_answers; simpl.
  destruct file as [t|]; [|split_and!; try done; by left]; destruct force; [split_and!; try done; by right; left|]; simpl.
  destruct noni; simpl.
  { split_and!; try done; intros c [= <-]; split_and!; [by eexists|done|by left]. }
  destruct (gives_ask_bool false l L) as (S & L' & _ & _); destruct (ask_bool false l) as [[[]|x|] l'] eqn:E; simpl in *;
    split_and!; try done; [by intros; right; right|]; intros c [= <-]; split_and!; [by eexists|done|by right].
Qed.
Lemma write_config_spec cfg w : good cfg →
  let '(r, w') := write_config validate write_fault cfg w in
  (r = Ret 70 ∧ w' = w) ∨ ∃ body, written body ∧
    ((r = Ret 0 ∧ w'.2 = Some body) ∨ ∃ x, r = Raise x ∧ write_fault body w.2 = Some (x, w'.2)).
Proof.
  intros G; unfold write_config; destruct w as [l f]; destruct (validate cfg) eqn:V; cycle 1; [by left|].
  destruct (render_reads cfg G) as (t & E & Rd); pose proof (canon_dict_spec cfg (proj1 (fine_pairs cfg G))) as [_ C].
  unfold write_text, mbind, M_bind, lift, modify, get, raise; rewrite E; simpl.
  destruct (write_fault t f) as [[x f']|] eqn:Ft; simpl; right; (exists t; split; [by exists cfg|]); [right; by exists x|by left].
Qed.

(** The draft, asked for or not. *)
Lemma made_spec (noni : bool) w : plain_answers w.1 →
  let '(r, w') := the_draft base exists_path projects windows noni w in
  r ≠ Spin ∧ w'.2 = w.2 ∧ (∀ x, r = Raise x → noni = false) ∧ ∀ c, r = Ret c → good_draft c.
Proof.
  intros L; unfold the_draft; destruct noni; simpl; [split_and!; [done..|]; intros c [= <-]; by apply stub_good|].
  destruct (interview_gives base exists_path projects windows base_plain projects_plain w.1 L) as (S & _ & _ & G).
  unfold on_answers; by destruct (interview base exists_path projects windows w.1).
Qed.

Lemma run_init_spec force noni l file : plain_answers l →
  let '(r, (_, file')) := run_init validate base exists_path projects windows write_fault force noni (l, file) in
  match r with
  | Ret c =>
      (c = 0 ∧ may_write force noni l file ∧ ∃ body, file' = Some body ∧ written body) ∨
      (file' = file ∧ (c = 70 ∧ may_write force noni l file ∨
                       is_Some file ∧ force = false ∧
                       (c = 65 ∧ noni = true ∨ c = 0 ∧ noni = false ∧ (ask_bool false l).1 = Ret false)))
  | Raise x => (file' = file ∧ noni = false) ∨
      (may_write force noni l file ∧ ∃ body, written body ∧ write_fault body file = Some (x, file'))
  | Spin => False
  end.
Proof.
  intros L; pose proof (before_init_spec force noni l file L) as B; unfold run_init, mbind at 1, M_bind.
  destruct (before_init force noni (l, file)) as [[[c|]|x|] [l1 f1]]; simpl in B; destruct B as (-> & L1 & S & N & X & C); simpl in *; try done.
  - right; split; [done|]; right; by apply C.
  - specialize (N eq_refl); pose proof (made_spec noni (l1, file) L1) as Md; unfold mbind, M_bind.
    destruct (the_draft base exists_path projects windows noni (l1, file)) as [[c|x|] [l2 f2]]; destruct Md as (Sp & F & R & G); simpl in *; subst; try done; [|left; by split; [|eapply R]].
    pose proof (write_config_spec (config_of c) (l2, file) (config_good c (G c eq_refl))) as Wr.
    destruct (write_config validate write_fault (config_of c) (l2, file)) as [r [l3 f3]]; simpl in Wr.
    destruct Wr as [[-> [= -> ->]]|(body & Wb & [[-> ->]|(x & -> & Fx)])]; [right; split; [done|by left]|left; split_and!; eauto..|].
    right; eauto.
  - left; split; [done|]; by eapply X.
Qed.
(** C27: [run_init] comes to an end whatever is answered (as long as there is no
    DEL in it), and touches the destination only with leave: what it then holds is
    a configuration that passed validation, written so that it reads back as it
    was, and the exit code is 0.  In every other case the destination holds what it
    held: 65 when there is a file and nobody to ask, 0 when overwriting it is
    declined, 70 when the configuration is invalid, an exception when the input
    ends; only an exception of the file system, in writing what passed, can leave
    something else there. *)
Theorem run_init_writes force noni l file : plain_answers l →
  let '(r, (_, file')) := run_init validate base exists_path projects windows write_fault force noni (l, file) in
  match r with
  | Ret c =>
      (c = 0 ∧ may_write force noni l file ∧ ∃ body, file' = Some body ∧ written body) ∨
      (file' = file ∧ (c = 70 ∧ may_write force noni l file ∨
                       is_Some file ∧ force = false ∧
                       (c = 65 ∧ noni = true ∨ c = 0 ∧ noni = false ∧ (ask_bool false l).1 = Ret false)))
  | Raise x => (file' = file ∧ noni = false) ∨
      (may_write force noni l file ∧ ∃ body, written body ∧ write_fault body file = Some (x, file'))
  | Spin => False
  end.
Proof. apply run_init_spec. Qed.
End the_file.

(** Overwrite it; the defaults of [server]; no paths; one real machine, reached by
    its address, with a name and tags that need quoting; no further target; no
    defaults. *)
Definition ex_answers : answers :=
  map txt ["y"; ""; ""; "verbose"; "debug"; ""; ""; ""; ""; "x5000 lab"; ""; "real, \x5000"; ""; "10.0.0.7"; ""; "n"; "n"; "n"; "n"].
Definition ex_run : res exn Z * (answers * option text) :=
  run_init (λ _, true) (txt "/home/u") (λ _, false) (txt "/home/u/Projects") false (λ _ _, None) false false (ex_answers, Some (txt "[old]")).
Lemma run_init_writes_witness :
  ∃ body, ex_run.2.2 = Some body ∧ written (λ _, true) body ∧ body ≠ txt "[old]" ∧ ex_run.1 = Ret 0.
Proof.
  pose proof (run_init_writes (λ _, true) (txt "/home/u") (λ _, false) (txt "/home/u/Projects") false (λ _ _, None) eq_refl eq_refl false false ex_answers (Some (txt "[old]"))
    ltac:(by apply forallb_Forall || by repeat constructor)) as R.
  fold ex_run in R.
  assert (ex_run.1 = Ret 0) as E by by vm_compute.
  assert (ex_run.2.2 ≠ Some (txt "[old]")) as F by by vm_compute.
  destruct ex_run as [r [l f]]; simpl in *; subst.
  destruct R as [(_ & _ & body & -> & B)|[? _]]; [|done]; exists body; split_and!; try done; by intros ->.
Defined.
(** What the server has of it. *)
Definition at_path (f : option text) (path : list string) : option toml :=
  foldl (λ v k, match v with Some (TTable d) => assoc k d | _ => None end)
    (match f with Some body => TTable <$> toml_loads body | None => None end) path.
Example ex_target : at_path ex_run.2.2 ["targets"; "x5000 lab"] = Some (TTable
  [("type", T "remote"); ("display_name", T "x5000 lab"); ("tags", TArr [T "real"; T "\x5000"]);
   ("channels", TTable [("mcpd", channel (txt "10.0.0.7:4322"))])]).
Proof. vm_compute. reflexivity. Qed.
Example ex_default : at_path ex_run.2.2 ["server"; "default_target"] = Some (T "x5000 lab").
Proof. vm_compute. reflexivity. Qed.
(** An invalid configuration, nobody to ask, an end of input. *)
Example ex_invalid : run_init (λ _, false) (txt "/h") (λ _, true) (txt "/h/Projects") false (λ _ _, None) true true ([], None) = (Ret 70, ([], None)).
Proof. reflexivity. Qed.
Example ex_nobody : run_init (λ _, true) (txt "/h") (λ _, true) (txt "/h/Projects") false (λ _ _, None) false true ([], Some []) = (Ret 65, ([], Some [])).
Proof. reflexivity. Qed.
Example ex_eof : run_init (λ _, true) (txt "/h") (λ _, true) (txt "/h/Projects") false (λ _ _, None) false false ([], None) = (Raise (EPy EOFError), ([], None)).
Proof. reflexivity. Qed.
(** The exit code that says a configuration was written also says that none was. *)
Example ex_aborted : run_init (λ _, true) (txt "/h") (λ _, true) (txt "/h/Projects") false (λ _ _, None) false false ([txt "no"], Some []) = (Ret 0, ([], Some [])).
Proof. reflexivity. Qed.
