(* ===== verification/Server.v ===== *)
(** * Calling tools: [server.py]

    What a call of a registered tool of [Registry.v] does, and the namespace
    dispatchers over the same functions, up to the call of the function in
    [tools/], which is a parameter: the modules of this development model those.
    A dispatcher works on the [params] object of its caller, which the archive
    records after the call. *)
From S2P Require Import Prelude Py Bytes Config Fleet Archive Signatures Registry.
#[local] Open Scope string_scope.
#[local] Open Scope Z_scope.

(* ------------------------------------------------------------------ *)
(** ** Arguments *)

(** Binding keywords to the parameters of a function: an unknown keyword and a
    missing argument are [TypeError]s. *)
Fixpoint fill (s : signature) (kw : list (string * arg)) : res exn (list (string * arg)) :=
  match s with
  | [] => Ret []
  | (x, d) :: s =>
      match match assoc x kw with Some v => Some v | None => d end with
      | Some v => match fill s kw with Ret l => Ret ((x, v) :: l) | r => r end
      | None => Raise (EPy TypeError)
      end
  end.
Definition known (s : signature) (kw : list (string * arg)) : bool := forallb (λ k, bool_decide (k.1 ∈ s.*1)) kw.
Definition bind_args (s : signature) (kw : list (string * arg)) : res exn (list (string * arg)) :=
  if known s kw then fill s kw else Raise (EPy TypeError).

Definition arg_truth (a : arg) : bool := match a with J j => json_truth j | Tenths z => negb (z =? 0) end.
(** [getattr(fleet.config.defaults, attr)] of the four attributes used. *)
Definition default_of (c : Config) (attr : string) : option string :=
  if decide (attr = "dest_volume") then dest_volume (defaults c)
  else if decide (attr = "sources_dir") then sources_dir (defaults c)
  else if decide (attr = "machine") then def_machine (defaults c)
  else if decide (attr = "iso_filename") then iso_filename (defaults c) else None.
Definition of_opt (o : option string) : arg := J (match o with Some s => JStr s | None => JNull end).
(** [_default] *)
Definition default_to (c : Config) (v : arg) (attr : string) : res exn arg :=
  if arg_truth v then Ret v
  else match truthy (default_of c attr) with Some s => Ret (J (JStr s)) | None => Raise (ERpc InvalidParams None) end.
Definition eval (c : Config) (args : list (string * arg)) (e : expr) : res exn arg :=
  let at_ x := default (J JNull) (assoc x args) in
  match e with
  | P x => Ret (at_ x)
  | Zlib x => Ret (J (JStr (match at_ x with J (JStr s) => if decide (s = "zlib") then "zlib" else "none" | _ => "none" end)))
  | Lit j => Ret (J j)
  | Default x => default_to c (at_ x) x
  | OrDefault x => Ret (match at_ x with J JNull => of_opt (default_of c x) | v => v end)
  | OrNone x => Ret (if arg_truth (at_ x) then at_ x else J JNull)
  end.
Fixpoint eval_all (c : Config) (args : list (string * arg)) (l : list (string * expr)) : res exn (list (string * arg)) :=
  match l with
  | [] => Ret []
  | (x, e) :: l =>
      match eval c args e with
      | Ret v => match eval_all c args l with Ret vs => Ret ((x, v) :: vs) | r => r end
      | Raise x => Raise x
      | Spin => Spin
      end
  end.
Definition passed (t : tool) : list (string * expr) :=
  match passes t with straight => map (λ p, (p.1, P p.1)) (params t) | passing l => l end.

(** A function and the keywords its entry fixes. *)
Definition handler := (string * list (string * arg))%type.
Definition plain (f : string) : handler := (f, []).
(** The tables of the dispatchers; [_exec_cmd_running] fixes [return_running]. *)
Definition fs_handlers : list (string * handler) :=
  [("list", plain "fs_tool.fs_list"); ("stat", plain "fs_tool.fs_stat"); ("read", plain "fs_tool.fs_read");
   ("write", plain "fs_tool.fs_write"); ("write_chunk", plain "fs_tool.fs_write_chunk");
   ("delete", plain "fs_tool.fs_delete"); ("makedir", plain "fs_tool.fs_makedir"); ("rename", plain "fs_tool.fs_rename");
   ("protect", plain "fs_tool.fs_protect"); ("copy", plain "fs_tool.fs_copy"); ("hash", plain "fs_tool.fs_hash");
   ("sync", plain "fs_tool.fs_sync"); ("upload", plain "fs_tool.fs_upload"); ("download", plain "fs_tool.fs_download")].
Definition sys_handlers : list (string * handler) :=
  [("version", plain "sys_tool.sys_version"); ("uptime", plain "sys_tool.sys_uptime"); ("tasks", plain "sys_tool.sys_tasks");
   ("libraries", plain "sys_tool.sys_libraries"); ("devices", plain "sys_tool.sys_devices");
   ("ports", plain "sys_tool.sys_ports"); ("applications", plain "sys_tool.sys_applications");
   ("memory", plain "sys_tool.sys_memory"); ("volumes", plain "sys_tool.sys_volumes");
   ("assigns", plain "sys_tool.sys_assigns"); ("hardware", plain "sys_tool.sys_hardware");
   ("hardware_i2c", plain "sys_tool.sys_hardware_i2c");
   ("hardware_perfcounters", plain "sys_tool.sys_hardware_perfcounters");
   ("executable_symbols", plain "sys_tool.sys_executable_symbols"); ("lastalert", plain "sys_tool.sys_lastalert");
   ("alert_decode", plain "sys_tool.sys_alert_decode"); ("cold_reboot", plain "sys_tool.sys_cold_reboot");
   ("debug_ring", plain "sys_tool.sys_debug_ring"); ("read_ccsr", plain "sys_tool.sys_read_ccsr");
   ("read_pa", plain "sys_tool.sys_read_pa"); ("tlb_dump", plain "sys_tool.sys_tlb_dump");
   ("mcu_cmd", plain "sys_tool.sys_mcu_cmd")].
Definition power_handlers : list (string * handler) :=
  [("help", plain "power_tool.power_help"); ("identify", plain "power_tool.power_identify");
   ("identify_dates", plain "power_tool.power_identify_dates"); ("sensors", plain "power_tool.power_sensors");
   ("toggle_stream", plain "power_tool.power_toggle_stream"); ("on", plain "power_tool.power_on");
   ("off", plain "power_tool.power_off"); ("shell", plain "power_tool.power_shell")].
Definition wb_handlers : list (string * handler) :=
  [("screens", plain "wb_tool.wb_screens"); ("windows", plain "wb_tool.wb_windows");
   ("publicscreens", plain "wb_tool.wb_publicscreens"); ("frontmost", plain "wb_tool.wb_frontmost");
   ("screenshot", plain "wb_tool.wb_screenshot")].
Definition exec_handlers : list (string * handler) :=
  [("cmd", ("exec_tool.exec_cmd", [("return_running", J (JBool true))])); ("status", plain "exec_tool.exec_status");
   ("output", plain "exec_tool.exec_output"); ("kill", plain "exec_tool.exec_kill"); ("list", plain "exec_tool.exec_list")].
Definition input_handlers : list (string * handler) :=
  [("state", plain "input_tool.input_state"); ("type", plain "input_tool.input_type"); ("key", plain "input_tool.input_key");
   ("mouse_move", plain "input_tool.input_mouse_move"); ("click", plain "input_tool.input_click");
   ("drag", plain "input_tool.input_drag"); ("scroll", plain "input_tool.input_scroll")].
Definition debug_handlers : list (string * handler) :=
  [("read_registers", plain "debug_tool.debug_read_registers"); ("read_memory", plain "debug_tool.debug_read_memory");
   ("stop_reason", plain "debug_tool.debug_stop_reason"); ("detach", plain "debug_tool.debug_detach");
   ("set_breakpoint", plain "debug_tool.debug_set_breakpoint");
   ("clear_breakpoint", plain "debug_tool.debug_clear_breakpoint"); ("step", plain "debug_tool.debug_step");
   ("continue", plain "debug_tool.debug_continue"); ("backtrace", plain "debug_tool.debug_backtrace");
   ("task_snapshot", plain "debug_tool.debug_task_snapshot"); ("symbol", plain "debug_tool.debug_symbol");
   ("stacktrace", plain "debug_tool.debug_stacktrace"); ("write_memory", plain "debug_tool.debug_write_memory");
   ("write_register", plain "debug_tool.debug_write_register")].
Definition qemu_handlers : list (string * handler) :=
  [("start", plain "qemu_tool.qemu_start"); ("stop", plain "qemu_tool.qemu_stop"); ("reset", plain "qemu_tool.qemu_reset");
   ("status", plain "qemu_tool.qemu_status"); ("screenshot", plain "qemu_tool.qemu_screenshot");
   ("savevm", plain "snap_tool.qemu_savevm"); ("loadvm", plain "snap_tool.qemu_loadvm");
   ("list_snapshots", plain "snap_tool.qemu_list_snapshots"); ("delete_snapshot", plain "snap_tool.qemu_delete_snapshot")].
Definition fleet_handlers : list (string * handler) :=
  [("list_targets", plain "fleet_tool.fleet_list_targets"); ("snapshot", plain "fleet_tool.fleet_snapshot");
   ("run_on_all", plain "fleet_tool.fleet_run_on_all"); ("barrier", plain "fleet_tool.fleet_barrier");
   ("quorum_run", plain "fleet_tool.fleet_quorum_run"); ("discover", plain "discover_tool.fleet_discover")].
Definition target_status_handler : list (string * handler) :=
  [("target_status", plain "fleet_tool.fleet_target_status")].
Definition tests_handlers : list (string * handler) :=
  [("list_suites", plain "tests_tool.tests_list_suites"); ("parse_output", plain "tests_tool.tests_parse_output")].
Definition run_tests_handlers : list (string * handler) :=
  [("run_standard_dos_tests", plain "tests_tool.tests_run_standard_dos_tests");
   ("run_suite", plain "tests_tool.tests_run_suite")].
Definition events_handlers : list (string * handler) :=
  [("wait", plain "events_tool.events_wait")].
Definition app_handlers : list (string * handler) :=
  [("notify", plain "sys_tool.app_notify")].
Definition serial_handlers : list (string * handler) :=
  [("start", plain "serial_tool.serial_start"); ("stop", plain "serial_tool.serial_stop");
   ("read", plain "serial_tool.serial_read"); ("tail", plain "serial_tool.serial_tail");
   ("clear", plain "serial_tool.serial_clear")].

Section server.
(** [invoke f target args]: the function of [tools/] with all its parameters. *)
Context {E R : Type} (fl : Fleet) (invoke : string → option string → list (string * arg) → M E exn R).

(** [fleet.resolve_target(v)]: a value that is no string has no [strip]. *)
Definition resolve_json (v : json) : res exn string :=
  match v with
  | JStr s => fleet_resolve_target fl (Some s)
  | v => if json_truth v then Raise (EPy AttributeError) else fleet_resolve_target fl None
  end.
Definition call_fn (f : string) (target : option string) (kw : list (string * arg)) : M E exn R :=
  match assoc f functions with
  | Some s => args ← lift (bind_args s kw); invoke f target args
  | None => raise (EPy AttributeError)
  end.

(** A call of a registered tool.  What the front end makes of arguments that do
    not fit its parameters is its own; here they are a [TypeError]. *)
Definition call_tool (t : tool) (target : json) (kw : list (string * arg)) : M E exn R :=
  args ← lift (bind_args (params t) kw);
  vs ← lift (eval_all (config fl) args (passed t));
  tgt ← match aim_at t with Resolved => Some <$> lift (resolve_json target) | NoTarget => mret None end;
  call_fn (fn t) tgt vs.

(* ------------------------------------------------------------------ *)
(** ** Dispatchers *)

(** The environment and the caller's [params] object, [None] for [None]. *)
Abbreviation W := (E * option (list (string * json)))%type.
Abbreviation MW := (M W exn).
Definition on_env {A} (m : M E exn A) : MW A := λ w, let '(r, e) := m w.1 in (r, (e, w.2)).
(** [kwargs.pop("target", None)] on [params or {}]: an empty or absent object is
    replaced by a fresh one. *)
Definition pop_target : MW json := λ w,
  match w.2 with
  | Some d => (Ret (default JNull (assoc "target" d)), (w.1, Some (dict_del "target" d)))
  | None => (Ret JNull, w)
  end.
Definition given_kwargs (p : option (list (string * json))) : list (string * arg) := map (λ kv, (kv.1, J kv.2)) (default [] p).

Definition unknown_method_of (names : list string) : exn :=
  ERpc MethodNotFound (Some (JObj [("namespace_methods", JArr (JStr <$> names))])).
(** [f(fleet, target, **fixed, **kwargs)]: a keyword given twice is a
    [TypeError]. *)
Definition call_handler (h : handler) (target : option string) (kw : list (string * arg)) : M E exn R :=
  if existsb (λ k, bool_decide (k.1 ∈ h.2.*1)) kw then raise (EPy TypeError) else call_fn h.1 target (h.2 ++ kw).
(** [_ns] *)
Definition ns (handlers : list (string * handler)) (method : string) : MW R :=
  t ← pop_target;
  target ← lift (resolve_json t);
  match assoc method handlers with
  | None => raise (unknown_method_of (merge_sort String.le handlers.*1))
  | Some h => kw ← gets (λ w, given_kwargs w.2); on_env (call_handler h (Some target) kw)
  end.
(** [_ns_no_target] *)
Definition ns_no_target (handlers : list (string * handler)) (method : string) : MW R :=
  match assoc method handlers with
  | None => raise (unknown_method_of (merge_sort String.le handlers.*1))
  | Some h => kw ← gets (λ w, given_kwargs w.2); on_env (call_handler h None kw)
  end.

(** The dispatchers over [_ns] alone, by the name they are registered under. *)
Definition namespaces : list (string * list (string * handler)) :=
  [("fs", fs_handlers); ("sys", sys_handlers); ("power", power_handlers); ("wb", wb_handlers); ("exec", exec_handlers);
   ("input", input_handlers); ("debug", debug_handlers); ("qemu", qemu_handlers); ("events", events_handlers);
   ("app", app_handlers)].
Definition fleet_ns (method : string) : MW R :=
  if decide (method = "target_status") then ns target_status_handler method else ns_no_target fleet_handlers method.
Definition tests_ns (method : string) : MW R :=
  if decide (method ∈ ["list_suites"; "parse_output"]) then ns_no_target tests_handlers method
  else ns run_tests_handlers method.
Definition param_of (k : string) (d : json) (w : W) : json := default d (assoc k (default [] w.2)).
(** [status] takes no default target: [None] stands for all of them. *)
Definition serial_ns (method : string) : MW R :=
  if decide (method = "status") then
    t ← gets (param_of "target" JNull);
    c ← gets (param_of "channel" JNull);
    on_env (call_fn "serial_tool.serial_status" None [("target", J (if json_truth t then t else JNull)); ("channel", J c)])
  else ns serial_handlers method.
Definition sandbox_runs : list (string * string) :=
  [("run_guest", "sandbox_tool.sandbox_run_guest"); ("run_driver", "sandbox_tool.sandbox_run_driver");
   ("run_batch", "sandbox_tool.sandbox_run_batch"); ("last_trap", "sandbox_tool.sandbox_last_trap")].
(** The object is only read here. *)
Definition without_target (w : W) : list (string * arg) := given_kwargs (Some (dict_del "target" (default [] w.2))).
Definition target_given : MW string := t ← gets (param_of "target" JNull); lift (resolve_json t).
Definition sandbox_ns (method : string) : MW R :=
  if decide (method = "probe") then
    t ← target_given; on_env (call_fn "sandbox_tool.sandbox_probe" (Some t) [])
  else if decide (method = "deploy") then
    t ← target_given;
    src ← gets (param_of "source" JNull);
    dst ← gets (param_of "dest_path" JNull);
    ok ← gets (param_of "confirm" (JBool false));
    on_env (call_fn "sandbox_tool.sandbox_deploy" (Some t) [("source", J src); ("dest_path", J dst); ("confirm", J ok)])
  else match assoc method sandbox_runs with
       | Some f => kw ← gets without_target; t ← target_given; on_env (call_fn f (Some t) kw)
       | None => raise (unknown_method_of ["probe"; "deploy"; "run_guest"; "run_driver"; "run_batch"; "last_trap"])
       end.
Definition installer_steps : list (string * string) :=
  map (λ m, (m, "installer_tool.installer_" +:+ m))
    ["mount_iso"; "unmount_iso"; "copy_tree"; "apply_lha"; "read_kicklayout"; "write_kicklayout"; "patch_kicklayout";
     "install_x5000"; "run"; "stage"; "verify"].
Definition installer_ns (method : string) : MW R :=
  if decide (method = "list_machines") then on_env (call_fn "installer_tool.installer_list_machines" None [])
  else if decide (method = "required_files") then
    m ← gets (param_of "machine" (JStr "")); on_env (call_fn "installer_tool.installer_required_files" None [("machine", J m)])
  else if decide (method = "scan_sources") then
    d ← gets (param_of "sources_dir" (JStr "")); on_env (call_fn "installer_tool.installer_scan_sources" None [("sources_dir", J d)])
  else
    t ← target_given;
    kw ← gets without_target;
    if decide (method = "preflight") then
      v ← gets (param_of "dest_volume" (JStr ""));
      d ← gets (param_of "sources_dir" (JStr ""));
      m ← gets (param_of "machine" JNull);
      i ← gets (param_of "iso" JNull);
      on_env (call_fn "installer_tool.installer_preflight" (Some t)
        [("dest_volume", J v); ("sources_dir", J d); ("machine", J m); ("iso", J i)])
    else match assoc method installer_steps with
         | Some f => on_env (call_fn f (Some t) kw)
         | None => raise (unknown_method_of
             (["list_machines"; "required_files"; "scan_sources"; "preflight"] ++ installer_steps.*1))
         end.
End server.

(* ------------------------------------------------------------------ *)
(** ** Binding *)

(** What a parameter with default [d] is bound to. *)
Definition value (d : option arg) (kw : list (string * arg)) (x : string) : option arg :=
  match assoc x kw with Some v => Some v | None => d end.

Lemma fill_ext s kw kw' : (∀ x d, (x, d) ∈ s → value d kw x = value d kw' x) → fill s kw = fill s kw'.
Proof.
  intros H; induction s as [|[x d] s IH]; simpl; [done|].
  pose proof (H x d ltac:(set_solver)) as E; unfold value in E; rewrite E, IH; [done|]; intros; apply H; set_solver.
Qed.
Lemma fill_value s kw args : fill s kw = Ret args → ∀ x, assoc x args = d ← assoc x s; value d kw x.
Proof.
  revert args; induction s as [|[y d] s IH]; simpl; intros args H x; [by injection H as <-|].
  destruct (match assoc y kw with Some _ => _ | None => _ end) as [v|] eqn:V; [|done].
  destruct (fill s kw) as [l| |] eqn:F; simplify_eq; simpl.
  case_decide as D; [by subst; simpl; unfold value; rewrite V|]; by apply IH.
Qed.
Lemma fill_total s kw : (∀ x d, (x, d) ∈ s → value d kw x ≠ None) → ∃ args, fill s kw = Ret args.
Proof.
  intros H; induction s as [|[x d] s IH]; simpl; [eauto|].
  pose proof (H x d ltac:(set_solver)) as V; unfold value in V.
  destruct (match assoc x kw with Some _ => _ | None => _ end); [|done].
  destruct IH as [l ->]; [intros; apply H; set_solver|eauto].
Qed.
Lemma bind_fill s kw args : bind_args s kw = Ret args → known s kw = true ∧ fill s kw = Ret args.
Proof. unfold bind_args; by destruct (known s kw). Qed.

Definition the_value c args (e : expr) : option arg := match eval c args e with Ret v => Some v | _ => None end.
Lemma eval_all_assoc c args l vs : eval_all c args l = Ret vs → ∀ x, assoc x vs = e ← assoc x l; the_value c args e.
Proof.
  revert vs; induction l as [|[y e] l IH]; simpl; intros vs H x; [by injection H as <-|].
  destruct (eval c args e) as [v| |] eqn:E; [|done..]; destruct (eval_all c args l) as [ws| |] eqn:A; [|done..].
  injection H as <-; simpl; case_decide; [by subst; simpl; unfold the_value; rewrite E|by apply IH].
Qed.
Lemma eval_all_keys c args l vs : eval_all c args l = Ret vs → vs.*1 = l.*1.
Proof.
  revert vs; induction l as [|[y e] l IH]; simpl; intros vs H; [by injection H as <-|].
  destruct (eval c args e); [|done..]; destruct (eval_all c args l); [|done..].
  injection H as <-; simpl; f_equal; eauto.
Qed.
Lemma known_keys s (kw : list (string * arg)) : known s kw = true ↔ ∀ x, x ∈ kw.*1 → x ∈ s.*1.
Proof.
  unfold known; rewrite forallb_forall; split.
  - intros H x (k & -> & K)%list_elem_of_fmap; apply (bool_decide_eq_true_1 _), H; by apply list_elem_of_In.
  - intros H k K%list_elem_of_In; apply bool_decide_eq_true_2, H; by apply list_elem_of_fmap_2.
Qed.

(* ------------------------------------------------------------------ *)
(** ** The registered tools fit their functions *)

(** The variables of a wrapper's expression are its own parameters; the names it
    passes are parameters of the function, and every parameter of the function
    without a default is passed. *)
Definition expr_var (e : expr) : option string :=
  match e with P x | Zlib x | Default x | OrDefault x | OrNone x => Some x | Lit _ => None end.
Definition passes_known (t : tool) (s : signature) : bool :=
  forallb (λ p, bool_decide (p.1 ∈ s.*1) && match expr_var p.2 with Some x => bool_decide (x ∈ (params t).*1) | None => true end)
    (passed t).
Definition passes_needed (t : tool) (s : signature) : bool :=
  forallb (λ p, match p.2 with Some _ => true | None => bool_decide (p.1 ∈ (passed t).*1) end) s.
Definition fits (t : tool) (s : signature) : bool :=
  passes_known t s && passes_needed t s && bool_decide (NoDup (params t).*1) && bool_decide (NoDup (passed t).*1).
Definition tool_fits (t : tool) : bool :=
  match assoc (fn t) functions with Some s => fits t s | None => false end.

Lemma elem_keys {A B} (l : list (A * B)) x v : (x, v) ∈ l → x ∈ l.*1.
Proof. intros H; by apply (list_elem_of_fmap_2 fst l (x, v)). Qed.
Lemma bind_lift {W X A B} (r : res X A) (k : A → M W X B) w :
  (lift r ≫= k) w = match r with Ret a => k a w | Raise x => (Raise x, w) | Spin => (Spin, w) end.
Proof. by destruct r. Qed.
Lemma resolve_target_ends fl name : fleet_resolve_target fl name ≠ Spin.
Proof.
  unfold fleet_resolve_target; enough (resolve_target (config fl) name ≠ Spin) by by repeat case_match.
  by unfold resolve_target; repeat case_match.
Qed.
Lemma resolve_json_ends fl v : resolve_json fl v ≠ Spin.
Proof. unfold resolve_json; repeat case_match; try done; apply resolve_target_ends. Qed.
Lemma fill_keys s kw args : fill s kw = Ret args → args.*1 = s.*1.
Proof.
  revert args; induction s as [|[x d] s IH]; simpl; intros args H; [by injection H as <-|].
  destruct (match assoc x kw with Some _ => _ | None => _ end); [|done].
  destruct (fill s kw); simplify_eq; simpl; f_equal; eauto.
Qed.
Lemma bind_keys s kw args : bind_args s kw = Ret args → args.*1 = s.*1.
Proof. intros [_ F]%bind_fill; by eapply fill_keys. Qed.
Lemma bind_some s kw args x d : bind_args s kw = Ret args → (x, d) ∈ s → assoc x args ≠ None.
Proof. intros B X N%assoc_None; apply N; rewrite (bind_keys _ _ _ B); by eapply elem_keys. Qed.

Lemma forallb_elem {A} (f : A → bool) l : forallb f l = true → ∀ x, x ∈ l → f x = true.
Proof. intros F x X%list_elem_of_In; by apply (proj1 (forallb_forall f l) F). Qed.
Ltac split_bools := repeat match goal with
  | H : (_ && _) = true |- _ => apply andb_true_iff in H as [? ?]
  | H : bool_decide _ = true |- _ => apply bool_decide_eq_true_1 in H end.

Lemma all_tools_fit : forallb tool_fits tools = true.
Proof. by vm_compute. Qed.
Lemma fits_spec t s : fits t s = true →
  NoDup (passed t).*1 ∧ (∀ x, x ∈ (passed t).*1 → x ∈ s.*1) ∧ (∀ x, (x, None) ∈ s → x ∈ (passed t).*1).
Proof.
  unfold fits; intros; split_bools; split_and!; [done| |].
  - intros x ([y e] & -> & Y)%list_elem_of_fmap.
    pose proof (forallb_elem _ (passed t) ltac:(eassumption) _ Y) as K; simpl in K; by split_bools.
  - intros x X; pose proof (forallb_elem _ s ltac:(eassumption) _ X) as K; simpl in K; by split_bools.
Qed.
Lemma tool_has_function t : t ∈ tools → ∃ s, assoc (fn t) functions = Some s ∧ fits t s = true.
Proof.
  intros T; pose proof (forallb_elem _ _ all_tools_fit t T) as F; unfold tool_fits in F.
  destruct (assoc (fn t) functions) as [s|]; [eauto|done].
Qed.

(** What a parameter of the function gets from a wrapper whose own arguments are
    [args]. *)
Definition receives (c : Config) (t : tool) (args : list (string * arg)) (x : string) (d : option arg) : option arg :=
  match assoc x (passed t) with Some e => the_value c args e | None => d end.

Lemma the_value_some c l args vs e x : eval_all c args l = Ret vs → assoc x l = Some e → the_value c args e ≠ None.
Proof.
  intros V L; pose proof (eval_all_assoc _ _ _ _ V x) as A; rewrite L in A; simpl in A.
  rewrite <- A; intros N%assoc_None; apply N; rewrite (eval_all_keys _ _ _ _ V).
  by apply (elem_keys _ _ e), assoc_elem.
Qed.
Lemma value_receives c t args vs x d : eval_all c args (passed t) = Ret vs → value d vs x = receives c t args x d.
Proof.
  intros V; unfold value, receives; rewrite (eval_all_assoc _ _ _ _ V).
  destruct (assoc x (passed t)) as [e|] eqn:L; [|done]; simpl.
  by destruct (the_value c args e) eqn:T; [|edestruct the_value_some].
Qed.
Lemma bind_passed c t s args vs : fits t s = true → NoDup s.*1 → eval_all c args (passed t) = Ret vs →
  ∃ full, bind_args s vs = Ret full ∧ ∀ x d, (x, d) ∈ s → assoc x full = receives c t args x d.
Proof.
  intros (N & K & R)%fits_spec S V.
  destruct (fill_total s vs) as [full F].
  { intros x d X; rewrite (value_receives c t args) by done; unfold receives.
    destruct (assoc x (passed t)) as [e|] eqn:L; [by eapply the_value_some|].
    destruct d; [done|]; exfalso; apply assoc_None in L; by apply L, R. }
  exists full; split.
  - unfold bind_args; by rewrite (proj2 (known_keys s vs)) by (rewrite (eval_all_keys _ _ _ _ V); apply K).
  - intros x d X; rewrite (fill_value _ _ _ F), (elem_assoc x d s) by done; simpl; by apply value_receives.
Qed.
Lemma eval_raises c args e : match eval c args e with Ret _ => True | Raise x => x = ERpc InvalidParams None | Spin => False end.
Proof. by destruct e; simpl; unfold default_to; repeat case_match; simplify_eq. Qed.
Lemma eval_all_raises c args l :
  match eval_all c args l with Ret _ => True | Raise x => x = ERpc InvalidParams None | Spin => False end.
Proof.
  induction l as [|[x e] l IH]; simpl; [done|]; pose proof (eval_raises c args e).
  by destruct (eval c args e); [destruct (eval_all c args l)|..].
Qed.
Lemma functions_NoDup f s : assoc f functions = Some s → NoDup s.*1.
Proof.
  intros A%assoc_elem.
  assert (forallb (λ p, bool_decide (NoDup p.2.*1)) functions = true) as H by by vm_compute.
  pose proof (forallb_elem _ _ H _ A) as N; simpl in N; by split_bools.
Qed.

Lemma call_fn_bound {E R} (invoke : string → option string → list (string * arg) → M E exn R) f s tgt kw full e :
  assoc f functions = Some s → bind_args s kw = Ret full → call_fn invoke f tgt kw e = invoke f tgt full e.
Proof. intros S B; unfold call_fn; rewrite S; by rewrite bind_lift, B. Qed.
Lemma call_tool_bound {E R} fl (invoke : string → option string → list (string * arg) → M E exn R) t target kw args e :
  bind_args (params t) kw = Ret args →
  call_tool fl invoke t target kw e =
  match eval_all (config fl) args (passed t) with
  | Ret vs =>
      match aim_at t with
      | Resolved =>
          match resolve_json fl target with
          | Ret n => call_fn invoke (fn t) (Some n) vs e
          | Raise x => (Raise x, e)
          | Spin => (Spin, e)
          end
      | NoTarget => call_fn invoke (fn t) None vs e
      end
  | Raise x => (Raise x, e)
  | Spin => (Spin, e)
  end.
Proof.
  intros B; unfold call_tool; rewrite bind_lift, B, bind_lift; destruct (eval_all _ _ _); try done.
  destruct (aim_at t); [|done]; cbv [mbind M_bind fmap M_map lift]; by destruct (resolve_json fl target).
Qed.

(** C25: The registry is well typed.  No two tools share a name and each is titled
    as it is archived.  A call whose arguments fit a tool's parameters raises
    [InvalidParams] for a [defaults] entry that is not configured, or what the
    resolution of its target raises, and touches nothing; or it calls the tool's
    function, which exists, with every one of its parameters bound: to what the
    wrapper computes for it from its own arguments, else to its default. *)
Theorem registry_sound {E R} fl (invoke : string → option string → list (string * arg) → M E exn R) :
  NoDup (name <$> tools) ∧ NoDup (label <$> tools) ∧
  ∀ t, t ∈ tools → title t = label t ∧
    ∃ s, assoc (fn t) functions = Some s ∧
    ∀ target kw args e, bind_args (params t) kw = Ret args →
      call_tool fl invoke t target kw e = (Raise (ERpc InvalidParams None), e)
      ∨ (∃ x, aim_at t = Resolved ∧ resolve_json fl target = Raise x ∧ call_tool fl invoke t target kw e = (Raise x, e))
      ∨ (∃ full, full.*1 = s.*1 ∧
           (∀ x d, (x, d) ∈ s → assoc x full = receives (config fl) t args x d ∧ assoc x full ≠ None) ∧
           match aim_at t with
           | Resolved => ∃ name, resolve_json fl target = Ret name
               ∧ call_tool fl invoke t target kw e = invoke (fn t) (Some name) full e
           | NoTarget => call_tool fl invoke t target kw e = invoke (fn t) None full e
           end).
Proof.
  split_and!; [apply (bool_decide_eq_true_1 _); by vm_compute..|].
  intros t T; split; [apply (bool_decide_eq_true_1 _); exact (forallb_elem (λ t, bool_decide (title t = label t)) tools eq_refl t T)|].
  destruct (tool_has_function t T) as (s & S & F); exists s; split; [done|]; intros target kw args e B.
  rewrite (call_tool_bound fl invoke _ _ _ _ _ B).
  pose proof (eval_all_raises (config fl) args (passed t)).
  destruct (eval_all (config fl) args (passed t)) as [vs|x|] eqn:V; [|left; congruence|done]; right.
  destruct (bind_passed _ _ s args vs F (functions_NoDup _ _ S) V) as (full & B' & G).
  pose proof (resolve_json_ends fl target).
  destruct (aim_at t); [destruct (resolve_json fl target) as [n|x|]; [|left; by exists x|done]|]; right; exists full;
    (split_and!; [by eapply bind_keys|by split; [apply G|eapply bind_some]|]).
  - exists n; split; [done|]; by apply (call_fn_bound _ _ s).
  - by apply (call_fn_bound _ _ s).
Qed.

(* ------------------------------------------------------------------ *)
(** ** The dispatchers and the tools agree *)

#[export] Instance aim_eq_dec : EqDecision aim.
Proof. solve_decision. Defined.
(** Equality of the arguments that occur as defaults. *)
Definition same_arg (a b : arg) : bool :=
  match a, b with
  | J JNull, J JNull => true
  | J (JBool x), J (JBool y) => bool_decide (x = y)
  | J (JNum x), J (JNum y) => bool_decide (x = y)
  | J (JStr x), J (JStr y) => bool_decide (x = y)
  | Tenths x, Tenths y => bool_decide (x = y)
  | _, _ => false
  end.
Definition same_opt (a b : option arg) : bool :=
  match a, b with Some x, Some y => same_arg x y | None, None => true | _, _ => false end.
(** Parameter [x] of the function, with default [d], gets the same from the tool
    as from the handler. *)
Definition agree_at (t : tool) (h : handler) (x : string) (d : option arg) : bool :=
  match assoc x (passed t) with
  | Some (P y | Zlib y) =>
      bool_decide (y = x) && same_opt (assoc x h.2) None &&
      match assoc x (params t) with Some d' => same_opt d' d | None => false end
  | Some (Lit j) => same_opt (value d h.2 x) (Some (J j)) && bool_decide (x ∉ (params t).*1)
  | Some _ => false
  | None => same_opt (assoc x h.2) None && bool_decide (x ∉ (params t).*1)
  end.
Definition agrees (t : tool) (h : handler) : bool :=
  bool_decide (aim_at t = Resolved) && bool_decide (fn t = h.1) &&
  forallb (λ x, bool_decide (x ∉ (params t).*1)) h.2.*1 &&
  match assoc (fn t) functions with
  | Some s => forallb (λ p, agree_at t h p.1 p.2) s && forallb (λ x, bool_decide (x ∈ s.*1)) ((params t).*1 ++ h.2.*1)
  | None => false
  end.
(** What a wrapper lets through unchanged: a compression it knows. *)
Definition compression_known (t : tool) (args : list (string * arg)) : bool :=
  forallb (λ p, match p.2 with
                | Zlib x => match assoc x args with
                            | Some (J (JStr s)) => bool_decide (s = "zlib" ∨ s = "none")
                            | _ => false
                            end
                | _ => true
                end) (passed t).

Lemma same_opt_eq a b : same_opt a b = true → a = b.
Proof.
  destruct a as [a|], b as [b|]; try done; simpl; intros S; f_equal.
  destruct a as [[]|], b as [[]|]; try done; simpl in S; split_bools; by subst.
Qed.
Lemma all_methods_agree : forallb (λ n, forallb (λ h, forallb (λ t,
  if bool_decide (name t = n.1 +:+ "_" +:+ h.1) then agrees t h.2 else true) tools) n.2) namespaces = true.
Proof. by vm_compute. Qed.
Lemma method_agrees n hs m h t : (n, hs) ∈ namespaces → assoc m hs = Some h → t ∈ tools →
  name t = n +:+ "_" +:+ m → agrees t h = true.
Proof.
  intros N M%assoc_elem T E; pose proof (forallb_elem _ _ all_methods_agree _ N) as A; cbn [fst snd] in A.
  pose proof (forallb_elem _ _ (forallb_elem _ hs A _ M) t T) as B; cbn [fst snd] in B.
  by rewrite bool_decide_eq_true_2 in B.
Qed.

Lemma the_value_P c args x : the_value c args (P x) = Some (default (J JNull) (assoc x args)).
Proof. done. Qed.
Lemma the_value_Zlib c t args x y : compression_known t args = true → assoc x (passed t) = Some (Zlib y) →
  the_value c args (Zlib y) = assoc y args.
Proof.
  intros K L%assoc_elem; pose proof (forallb_elem _ _ K _ L) as Z; cbn [snd] in Z.
  unfold the_value; simpl; destruct (assoc y args) as [[[]|]|]; try done; simpl.
  by apply bool_decide_eq_true_1 in Z as [-> | ->].
Qed.
(** The function's parameters agree: the wrapper's own are bound from [kw]. *)
Lemma agree_value c t h s kw args x d : agrees t h = true → assoc (fn t) functions = Some s → (x, d) ∈ s →
  bind_args (params t) kw = Ret args → compression_known t args = true →
  receives c t args x d = value d (h.2 ++ kw) x.
Proof.
  intros A S X B K; unfold agrees in A; rewrite S in A; split_bools.
  pose proof (forallb_elem _ s ltac:(eassumption) _ X) as G; cbn [fst snd] in G; unfold agree_at in G.
  destruct (bind_fill _ _ _ B) as [Kn F]; rewrite known_keys in Kn.
  assert (x ∉ (params t).*1 → assoc x kw = None) as Out by (intros N; apply assoc_None; eauto).
  assert (∀ y, assoc x h.2 = None → assoc x (params t) = Some d → y = x →
    assoc y args = value d (h.2 ++ kw) x ∧ assoc y args ≠ None) as In.
  { intros y N D ->; split; [|by eapply bind_some, assoc_elem].
    rewrite (fill_value _ _ _ F), D; unfold value; by rewrite assoc_app, N. }
  unfold receives; destruct (assoc x (passed t)) as [[y|y|j|y|y|y]|] eqn:L; try done; split_bools.
  - destruct (assoc x (params t)) as [d'|] eqn:D; [|done]; pose proof (same_opt_eq d' d ltac:(done)) as ->.
    destruct (In y) as [<- ?]; [by apply same_opt_eq|done..|]; rewrite the_value_P; by destruct (assoc y args).
  - destruct (assoc x (params t)) as [d'|] eqn:D; [|done]; pose proof (same_opt_eq d' d ltac:(done)) as ->.
    destruct (In y) as [<- ?]; [by apply same_opt_eq|done..|]; by apply (the_value_Zlib c t args x).
  - pose proof (same_opt_eq _ _ ltac:(eassumption)) as V; unfold value in *; rewrite assoc_app.
    destruct (assoc x h.2); [done|]; simpl; by rewrite Out.
  - pose proof (same_opt_eq _ _ ltac:(eassumption)) as V; unfold value; by rewrite assoc_app, V, Out.
Qed.

(** The two ways to call a function hand it the same arguments. *)
Lemma eval_all_ret c args l : (∀ x e, (x, e) ∈ l → ∃ v, eval c args e = Ret v) → ∃ vs, eval_all c args l = Ret vs.
Proof.
  induction l as [|[x e] l IH]; intros H; simpl; [eauto|].
  destruct (H x e) as [v ->]; [set_solver|]; destruct IH as [vs ->]; [set_solver|eauto].
Qed.
Lemma agrees_evaluates c t h args : t ∈ tools → agrees t h = true → ∃ vs, eval_all c args (passed t) = Ret vs.
Proof.
  intros T A; destruct (tool_has_function t T) as (s & S & F); destruct (fits_spec _ _ F) as (N & K & _).
  unfold agrees in A; rewrite S in A; split_bools.
  apply eval_all_ret; intros x e X; pose proof (K x (elem_keys _ _ _ X)) as ([x' d] & E & Y)%list_elem_of_fmap.
  simpl in E; subst x'.
  pose proof (forallb_elem _ s ltac:(eassumption) _ Y) as G; cbn [fst snd] in G; unfold agree_at in G.
  rewrite (elem_assoc x e) in G by done; destruct e; try done; simpl; eauto.
Qed.
Lemma agrees_binds c t h s kw args vs : t ∈ tools → agrees t h = true → assoc (fn t) functions = Some s →
  bind_args (params t) kw = Ret args → compression_known t args = true → eval_all c args (passed t) = Ret vs →
  ∃ full, bind_args s vs = Ret full ∧ bind_args s (h.2 ++ kw) = Ret full.
Proof.
  intros T A S B K V; destruct (tool_has_function t T) as (s' & S' & F); simplify_eq.
  destruct (bind_passed c _ _ args vs F (functions_NoDup _ _ S) V) as (full & Bf & G); exists full; split; [done|].
  destruct (bind_fill _ _ _ B) as [Kn _]; destruct (bind_fill _ _ _ Bf) as [_ Ff].
  unfold bind_args; rewrite (proj2 (known_keys s (h.2 ++ kw))).
  - rewrite <- Ff; apply fill_ext; intros x d X; rewrite (value_receives c t args vs) by done; symmetry.
    by eapply agree_value.
  - unfold agrees in A; rewrite S in A; split_bools; intros x; rewrite fmap_app, elem_of_app; intros X.
    rewrite known_keys in Kn; enough (bool_decide (x ∈ s.*1) = true) by by split_bools.
    apply (forallb_elem _ ((params t).*1 ++ h.2.*1) ltac:(eassumption) x); rewrite elem_of_app; destruct X; auto.
Qed.
Lemma agrees_unfixed t h kw : agrees t h = true → known (params t) kw = true →
  existsb (λ k : string * arg, bool_decide (k.1 ∈ h.2.*1)) kw = false.
Proof.
  intros A Kn; apply not_true_is_false; intros (k & K & D)%existsb_exists; apply bool_decide_eq_true_1 in D; rewrite known_keys in Kn.
  unfold agrees in A; split_bools.
  pose proof (forallb_elem _ h.2.*1 ltac:(eassumption) k.1 D) as N.
  simpl in N; split_bools; apply N, Kn, list_elem_of_fmap_2; by apply list_elem_of_In.
Qed.

Section dispatch.
Context {E R : Type} (fl : Fleet) (invoke : string → option string → list (string * arg) → M E exn R).

(** C24: A method of a dispatcher is the tool of the same name.  For each of the 86
    methods the ten [_ns] dispatchers list, and any [params] whose members other
    than [target] fit the tool's parameters and name a compression it knows, the
    dispatcher ends as the tool does on the same arguments: the same result or
    error, the same change of the world, through the same call of the same function
    with the same values for all of its parameters. *)
Theorem dispatch_equals_tool n hs m h t e d args :
  (n, hs) ∈ namespaces → assoc m hs = Some h → t ∈ tools → name t = n +:+ "_" +:+ m →
  let kw := given_kwargs (Some (dict_del "target" d)) in
  bind_args (params t) kw = Ret args → compression_known t args = true →
  ns fl invoke hs m (e, Some d) =
    let '(r, e') := call_tool fl invoke t (default JNull (assoc "target" d)) kw e in
    (r, (e', Some (dict_del "target" d))).
Proof.
  intros N M T Nm kw B K; pose proof (method_agrees _ _ _ _ _ N M T Nm) as A.
  destruct (tool_has_function t T) as (s & S & _); destruct (agrees_evaluates (config fl) t h args T A) as [vs V].
  destruct (agrees_binds (config fl) t h s kw args vs T A S B K V) as (full & Bt & Bh).
  rewrite (call_tool_bound fl invoke _ _ _ _ _ B), V; cbv [ns pop_target mbind M_bind lift gets on_env call_handler]; cbn [fst snd].
  assert (aim_at t = Resolved ∧ fn t = h.1) as [-> Fn] by (unfold agrees in A; by split_bools).
  destruct (resolve_json fl _) as [tgt|x|]; [|done..]; rewrite M.
  destruct (bind_fill _ _ _ B) as [Kn _]; cbn [fst snd]; fold kw; rewrite (agrees_unfixed _ _ _ A Kn).
  rewrite <- Fn, (call_fn_bound _ _ s _ _ full) by done.
  by rewrite (call_fn_bound _ _ s _ _ full) by done.
Qed.
End dispatch.

(* ------------------------------------------------------------------ *)
(** ** What the archive keeps of a dispatched call *)

Section dispatched.
Context {E : Type} `{RunLog E} (fl : Fleet) (invoke : string → option string → list (string * arg) → M E exn pyval).
Abbreviation Obj := (option (list (string * json))).
#[export] Instance with_object : RunLog (E * Obj) := {|
  append_file t := on_env (append_file t);
  perf_counter w := perf_counter w.1; utc_now w := utc_now w.1;
  dumps := dumps (E := E); str_exn := str_exn (E := E); message := message (E := E);
  value_of_json := value_of_json (E := E) |}.
(** The keywords of a dispatcher's wrapper; [params] is the caller's object. *)
Definition dispatch_kwargs (method : string) (p : Obj) : list (text * pyval) :=
  [(txt "method", VStr (txt method));
   (txt "params", match p with Some d => value_of_json (E := E) (JObj d) | None => VAtom (txt "None") end)].
(** [@archived("fs.dispatch", archive)] and its kind. *)
Definition dispatched (tool : text) (handlers : list (string * handler)) (method : string) : M (E * Obj * text) exn pyval :=
  target ← gets (λ w, as_str (dict_get (txt "target") (dispatch_kwargs method w.1.2)));
  archived_by tool target (λ w, VDict (without (txt "target") (dispatch_kwargs method w.1.2))) id
    (in_file (ns fl invoke handlers method)).

Lemma ns_object hs m e d : (ns fl invoke hs m (e, Some d)).2.2 = Some (dict_del "target" d).
Proof.
  cbv [ns pop_target mbind M_bind lift gets on_env]; cbn [fst snd].
  destruct (resolve_json fl _); [|done..]; destruct (assoc m hs) as [h|]; [|done].
  by destruct (call_handler _ _ _ _ _).
Qed.

Context (enc : pyval → text) (Henc : ∀ v, dumps (E := E) v = Ret (enc v)).
(** The archive does not say which machine a dispatched call went to.  A call
    of a dispatcher ends as its [_ns] does, and one that was not cancelled adds one
    entry to the run's file; but the dispatcher takes [target] out of the [params]
    object the entry is then made from, so the entry has no target and its params
    are the caller's without it. *)
Theorem dispatched_entry tool hs m d e f :
  let '(r, (e1, p)) := ns fl invoke hs m (e, Some d) in
  dispatched tool hs m (e, Some d, f) =
    (passed_on r,
     (e1, Some (dict_del "target" d),
      (f ++ match outcome_of (E := E) r with
           | Some o =>
               enc (entry (utc_now e1) tool None
                      (VDict [(txt "method", VStr (txt m)); (txt "params", value_of_json (E := E) (JObj (dict_del "target" d)))])
                      o (Some (match r with Ret _ => perf_counter e1 - perf_counter e | _ => 0 end))) ++ [nl]
           | None => []
           end)%list)).

Proof.
  pose proof (archived_by_run (E := E * Obj) enc Henc tool None
    (λ w, VDict (without (txt "target") (dispatch_kwargs m w.1.2))) (ns fl invoke hs m) (e, Some d) f) as A.
  pose proof (ns_object hs m e d) as O; destruct (ns fl invoke hs m (e, Some d)) as [r [e1 p]]; simpl in O; subst p.
  exact A.
Qed.
End dispatched.

(* ------------------------------------------------------------------ *)
(** ** Witnesses *)

Definition ex_fleet : Fleet := Fleet_init ex_config.
(** Functions that count their calls, and say what they were called with. *)
Definition ex_invoke (f : string) (t : option string) (args : list (string * arg)) :
  M nat exn (string * option string * list (string * arg)) := λ n, (Ret (f, t, args), S n).
Definition ex_params : list (string * json) := [("path", JStr "SYS:C/Copy"); ("target", JStr "sam")].
Definition ex_kw : list (string * arg) := [("path", J (JStr "SYS:C/Copy"))].
Definition ex_bound : list (string * arg) := ex_kw ++ [("algo", J (JStr "sha256"))].

Lemma tool_listed t k : nth_error tools k = Some t → t ∈ tools.
Proof. intros N; apply list_elem_of_In; by eapply nth_error_In. Qed.
Lemma namespace_listed n k : nth_error namespaces k = Some n → n ∈ namespaces.
Proof. intros N; apply list_elem_of_In; by eapply nth_error_In. Qed.

Lemma registry_sound_witness :
  let out := call_tool ex_fleet ex_invoke tool_fs_hash (JStr "sam") ex_kw 0%nat in
  out = (Ret ("fs_tool.fs_hash", Some "sam", ex_bound), 1%nat) ∧
  (out = (Raise (ERpc InvalidParams None), 0%nat)
   ∨ (∃ x, resolve_json ex_fleet (JStr "sam") = Raise x)
   ∨ ∃ full name, full.*1 = ["path"; "algo"] ∧ out = ex_invoke "fs_tool.fs_hash" (Some name) full 0%nat).
Proof.
  split; [vm_compute; reflexivity|].
  destruct (registry_sound ex_fleet ex_invoke) as (_ & _ & Tools).
  destruct (Tools tool_fs_hash (tool_listed tool_fs_hash 10 eq_refl)) as (_ & s & S & Call).
  change (Some sig_fs_hash = Some s) in S; injection S as <-.
  destruct (Call (JStr "sam") ex_kw ex_bound 0%nat eq_refl) as [L|[(x & _ & L & _)|(full & K & _ & name & _ & L)]].
  - left; exact L.
  - right; left; exists x; exact L.
  - right; right; exists full, name; split; [exact K|exact L].
Defined.

Lemma dispatch_equals_tool_witness :
  ns ex_fleet ex_invoke fs_handlers "hash" (0%nat, Some ex_params) =
    (let '(r, e') := call_tool ex_fleet ex_invoke tool_fs_hash (JStr "sam") ex_kw 0%nat in
     (r, (e', Some [("path", JStr "SYS:C/Copy")]))) ∧
  (ns ex_fleet ex_invoke fs_handlers "hash" (0%nat, Some ex_params)).1 = Ret ("fs_tool.fs_hash", Some "sam", ex_bound).
Proof.
  split; [|vm_compute; reflexivity].
  apply (dispatch_equals_tool ex_fleet ex_invoke "fs" fs_handlers "hash" (plain "fs_tool.fs_hash") tool_fs_hash 0%nat ex_params ex_bound).
  - apply (namespace_listed _ 0); reflexivity.
  - reflexivity.
  - apply (tool_listed _ 10); reflexivity.
  - reflexivity.
  - reflexivity.
  - reflexivity.
Defined.

(** A serialiser that writes the target of an entry. *)
Definition ex_enc (v : pyval) : text :=
  match v with
  | VDict l => match dict_get (txt "target") l with Some (VStr t) => t | _ => txt "null" end
  | _ => txt "?"
  end.
#[local] Instance ex_log : RunLog Z := {|
  append_file _ := mret tt; perf_counter t := t; utc_now _ := txt "now"; dumps v := Ret (ex_enc v);
  str_exn _ := txt "failed"; message _ := txt "failed";
  value_of_json j := VList (map (λ k, VStr (txt k)) match j with JObj d => d.*1 | _ => [] end) |}.
Definition ex_hash (f : string) (t : option string) (args : list (string * arg)) : M Z exn pyval :=
  λ now, (Ret (VStr (txt "digest")), now + 5).
Lemma dispatched_entry_witness :
  let e := entry (txt "now") (txt "fs.dispatch") None
             (VDict [(txt "method", VStr (txt "hash")); (txt "params", VList [VStr (txt "path")])])
             (inr (VStr (txt "digest"))) (Some 5) in
  dispatched ex_fleet ex_hash (txt "fs.dispatch") fs_handlers "hash" (0, Some ex_params, []) =
    (Ret (VStr (txt "digest")), (5, Some [("path", JStr "SYS:C/Copy")], (ex_enc e ++ [nl])%list)).
Proof.
  exact (dispatched_entry ex_fleet ex_hash ex_enc (λ _, eq_refl) (txt "fs.dispatch") fs_handlers "hash" ex_params 0 []).
Defined.
