(* ===== verification/Doctor.v ===== *)
(** * Checking a setup: [doctor.py], and [--health-check] of [server.py]

    Each check as the doctor makes it, and the exit codes of the two commands.
    The requests to the machines run concurrently; what each ends with, and the
    state of the fleet they leave, are arbitrary.  What is printed is returned; of
    a fix, whether there is one. *)
From S2P Require Import Prelude Py Bytes Config Fleet FleetStatus Lines Archive.
#[local] Open Scope string_scope.
#[local] Open Scope list_scope.
#[local] Open Scope Z_scope.

Inductive status := ok | warn | fail.
#[export] Instance status_eq_dec : EqDecision status.
Proof. solve_decision. Defined.
Record check := Check { st : status; what : string; fix_given : bool }.

(** [_major_minor] *)
Definition major_minor (version : text) : option (list Z) := mapM (int_of_text 10) (take 2 (split_on "."%char version)).
(** [<] of tuples of integers. *)
Fixpoint tuple_lt (a b : list Z) : bool :=
  match a, b with
  | _, [] => false
  | [], _ :: _ => true
  | x :: a, y :: b => (x <? y) || (x =? y) && tuple_lt a b
  end.

(** What there is of MCP clients: where [claude] is and what it lists, the file
    of Claude Desktop, whether its folder is there, and what reading it gives. *)
Record clients := Clients {
  claude : option string; listing : option text;
  desktop : option string; desktop_dir : bool; desktop_text : res exn text }.
Definition PROGRAM : string := "amiga-fleet-mcp".

(** [isinstance(e, ValueError)]; a validation error is one. *)
Definition is_value_error (e : exn) : bool := if e is EPy (ValueError | ValidationError) then true else false.

Section doctor.
(** [__version__], [repr] and [str] of values, the type's name of an exception. *)
Context (version : text) (repr : json → text) (repr_str : string → string) (exn_text exn_type : exn → text).

Definition check_config (exists_ : string → bool) (load : string → res exn Config) (env : option string)
    (default_path : string) (path : option string) : res exn (check * option Config) :=
  let '(p, source) := match path with
                      | Some p => (p, "--config")
                      | None => (default_path, if truthy env is Some _ then "$AMIGA_FLEET_CONFIG" else "platform default")
                      end in
  if exists_ p then
    match load p with
    | Ret cfg => Ret (Check ok ("config: " +:+ p +:+ " (" +:+ source +:+ ")") false, Some cfg)
    | Raise e =>
        if is_rpc e || is_value_error e then
          let first := match splitlines (strip (exn_text e)) with l :: _ => l | [] => exn_type e end in
          Ret (Check fail ("config: " +:+ p +:+ " does not load: " +:+ str first) true, None)
        else Raise e
    | Spin => Spin
    end
  else Ret (Check fail ("config: none at " +:+ p +:+ " (" +:+ source +:+ ")") true, None).

Definition names_of (cfg : Config) : list string := merge_sort String.le (targets cfg).*1.
Definition check_default (cfg : Config) : list check :=
  match truthy (default_target (server cfg)) with
  | Some d => if decide (d ∈ (targets cfg).*1) then []
              else [Check fail ("default_target " +:+ repr_str d +:+ " is not a configured target") true]
  | None => if (1 <? Z.of_nat (length (targets cfg)))%Z
            then [Check warn "no default_target: every tool call must name a target" true] else []
  end.
Definition check_targets (cfg : Config) : list check :=
  if targets cfg is [] then [Check fail "targets: none configured" true]
  else Check ok ("targets: " +:+ str (join (txt ", ") (map txt (names_of cfg)))) false :: check_default cfg.

(** [server.split("/", 1)[1]], when there is a slash. *)
Definition remote_of (server : text) : text := match partition "/" server with Some (_, r) => r | None => server end.
Definition compare_versions (wher : string) (remote : text) : check :=
  match major_minor remote, major_minor version with
  | Some theirs, Some ours =>
      if decide (theirs = ours) then Check ok (wher +:+ ": MCPd " +:+ str remote) false
      else Check warn (wher +:+ ": MCPd " +:+ str remote +:+ ", host " +:+ str version) true
  | _, _ => Check ok (wher +:+ ": MCPd " +:+ str remote) false
  end.
(** Only [JsonRpcError]s have [data]. *)
Definition reason_of (e : exn) : text :=
  if is_timeout e then txt "no answer within 5 s"
  else match e with
       | ERpc _ (Some (JObj d)) =>
           match assoc "error" d with
           | Some v => if json_truth v then py_str repr v else exn_text e
           | None => exn_text e
           end
       | _ => exn_text e
       end.
(** [_probe], with what [fleet.mcpd(name).request("proto.capabilities")] within
    five seconds ends with. *)
Definition probe_one (fl : Fleet) (name : string) (caps : res exn json) : res exn check :=
  match target_config fl name with
  | Ret cfg =>
      match mcpd_endpoint_of cfg with
      | None => Ret (Check warn (name +:+ ": no MCPd channel configured") true)
      | Some ep =>
          let wher := name +:+ " (" +:+ ep +:+ ")" in
          match caps with
          | Ret j =>
              match get_or "server" (JStr "?") j with
              | Ret s => Ret (compare_versions wher (remote_of (py_str repr s)))
              | Raise x => Raise x
              | Spin => Spin
              end
          | Raise e =>
              if is_oserror e || is_rpc e then
                if decide (type cfg = Qemu) then Ret (Check warn (wher +:+ ": not answering: " +:+ str (reason_of e)) true)
                else Ret (Check fail (wher +:+ ": unreachable: " +:+ str (reason_of e)) true)
              else Raise e
          | Spin => Spin
          end
      end
  | Raise x => Raise x
  | Spin => Spin
  end.

(** [check_clients]; [loads] and [dumps] are [json]'s. *)
Context (loads : text → option json) (dumps : json → text).
Definition check_claude (c : clients) : list check :=
  match listing c with
  | None => [Check warn "Claude Code: `claude mcp list` failed or timed out, so registration is unknown" false]
  | Some l => if contains (txt PROGRAM) l then [Check ok "Claude Code: server registered" false]
              else [Check warn "Claude Code: server not registered here" true]
  end.
Definition desktop_data (c : clients) : res exn json :=
  match desktop_text c with
  | Ret t => Ret (default (JObj []) (loads t))
  | Raise e => if is_oserror e || is_value_error e then Ret (JObj []) else Raise e
  | Spin => Spin
  end.
(** [any("amiga-fleet-mcp" in json.dumps(entry) for entry in servers.values())] *)
Definition registered (data : json) : res exn bool :=
  match get_or "mcpServers" JNull data with
  | Ret s => match (if json_truth s then s else JObj []) with
             | JObj l => Ret (existsb (λ kv, contains (txt PROGRAM) (dumps kv.2)) l)
             | _ => Raise (EPy AttributeError)
             end
  | Raise x => Raise x
  | Spin => Spin
  end.
Definition check_desktop (c : clients) (p : string) : res exn (list check) :=
  match desktop_data c with
  | Ret d => match registered d with
             | Ret true => Ret [Check ok ("Claude Desktop: server registered in " +:+ p) false]
             | Ret false => Ret [Check warn "Claude Desktop: server not registered" true]
             | Raise x => Raise x
             | Spin => Spin
             end
  | Raise x => Raise x
  | Spin => Spin
  end.
Definition has_desktop (c : clients) : option string := if desktop_dir c then desktop c else None.
Definition check_clients (c : clients) : res exn (list check) :=
  let code := if claude c is Some _ then check_claude c else [] in
  match has_desktop c with
  | Some p => match check_desktop c p with Ret l => Ret (code ++ l) | r => r end
  | None => Ret (if claude c is Some _ then code
                 else [Check warn "no MCP client found (looked for Claude Code and Claude Desktop)" true])
  end.

(* ------------------------------------------------------------------ *)
(** ** The two commands *)

Context {E : Type} `{Outside E}.
(** What the requests [ask] makes end with, and what they leave. *)
Definition concurrently (A : Type) : Type := Fleet * E → (string → A) * (Fleet * E).
Definition gathered {A B} (ask : concurrently A) (names : list string) (f : string → A → res exn B) : M (Fleet * E) exn (list B) :=
  λ w, let '(out, w) := ask w in (gather (map (λ n, f n (out n)) names), w).
(** A call on a fleet of its own. *)
Definition with_fleet {A} (cfg : Config) (m : M (Fleet * E) exn A) : M E exn A := λ e,
  let '(r, w) := m (Fleet_init cfg, e) in (r, w.2).
Definition check_reachability (ask : concurrently (res exn json)) (cfg : Config) : M E exn (list check) :=
  with_fleet cfg (finally (gathered ask (names_of cfg) (probe_one (Fleet_init cfg))) close_all).
Definition fails (cs : list check) : Z := Z.of_nat (length (filter (λ c, st c = fail) cs)).
(** [run_doctor]: what is printed, and the exit code. *)
Definition run_doctor (conf : res exn (check * option Config)) (ask : concurrently (res exn json)) (c : clients) :
    M E exn (list check * Z) :=
  '(cfg_check, cfg) ← lift conf;
  about ← match cfg with
          | Some cfg =>
              reach ← (if targets cfg is [] then mret [] else check_reachability ask cfg);
              mret (check_targets cfg ++ reach)
          | None => mret []
          end;
  cs ← lift (check_clients c);
  let checks := (cfg_check :: about ++ cs) in
  mret (checks, fails checks).

(** [_probe] of [_run_health_check]: a name with an error or with what is known;
    [ver] is what [sys.version] ends with. *)
Record vitals := Vitals { v_endpoint : string; v_type : TargetType; v_methods : Z; v_server : json; v_kickstart : json }.
Definition py_len (j : json) : res exn Z :=
  match j with
  | JArr l => Ret (Z.of_nat (length l))
  | JObj l => Ret (Z.of_nat (length l))
  | JStr s => Ret (Z.of_nat (String.length s))
  | _ => Raise (EPy TypeError)
  end.
Definition kickstart_of (ver : res exn json) : res exn json :=
  match ver with
  | Ret v => match get_or "kickstart" JNull v with Ret k => Ret (if json_truth k then k else JStr "?") | r => r end
  | Raise e => if is_timeout e || is_rpc e then Ret (JStr "?") else Raise e
  | Spin => Spin
  end.
Definition vitals_of (ep : string) (cfg : TargetConfig) (caps : json) (kick : json) : res exn vitals :=
  match get_or "methods" (JArr []) caps with
  | Ret ms => match py_len ms, get_or "server" (JStr "?") caps with
              | Ret n, Ret s => Ret (Vitals ep (type cfg) n s kick)
              | Raise x, _ | Ret _, Raise x => Raise x
              | _, _ => Spin
              end
  | Raise x => Raise x
  | Spin => Spin
  end.
Definition health_error (e : exn) : res exn text :=
  if is_rpc e then Ret (exn_type e ++ txt ": " ++ exn_text e)
  else if is_timeout e then Ret (txt "timeout")
  else if is_oserror e then Ret (exn_text e)
  else Raise e.
Definition probe_health (fl : Fleet) (name : string) (answers : res exn json * res exn json) : res exn (string * (text + vitals)) :=
  match target_config fl name with
  | Ret cfg =>
      match mcpd_endpoint_of cfg with
      | None => Ret (name, inl (txt "no MCPd channel configured"))
      | Some ep =>
          let r := match answers.1 with
                   | Ret caps => match kickstart_of answers.2 with Ret k => vitals_of ep cfg caps k | Raise x => Raise x | Spin => Spin end
                   | Raise x => Raise x
                   | Spin => Spin
                   end in
          match r with
          | Ret v => Ret (name, inr v)
          | Raise e => match health_error e with Ret t => Ret (name, inl t) | Raise x => Raise x | Spin => Spin end
          | Spin => Spin
          end
      end
  | Raise x => Raise x
  | Spin => Spin
  end.
(** The rows: an empty error counts as none, and [assert info is not None]. *)
Fixpoint count_down (rows : list (string * (text + vitals))) : res exn Z :=
  match rows with
  | [] => Ret 0
  | (_, inl []) :: _ => Raise (EPy AssertionError)
  | (_, inl _) :: rows => match count_down rows with Ret n => Ret (1 + n) | r => r end
  | (_, inr _) :: rows => count_down rows
  end.
(** [_run_health_check]: the exit code. *)
Definition run_health_check (ask : concurrently (res exn json * res exn json)) (cfg : Config) : M E exn Z :=
  with_fleet cfg
    (if targets cfg is [] then mret 0
     else rows ← gathered ask (list_targets (Fleet_init cfg) None) (probe_health (Fleet_init cfg));
          n ← lift (count_down rows);
          close_all;;
          mret n).
End doctor.

(* ------------------------------------------------------------------ *)
(** ** The exit code of the doctor *)

(** An outcome the checks are written for: an object, or an error of the
    connection or of the daemon. *)
Definition caught (e : exn) : bool := is_oserror e || is_rpc e.
Definition polite (r : res exn json) : bool :=
  match r with Ret (JObj _) => true | Raise e => caught e | _ => false end.
(** A machine that is no guest, has a channel to ask and did not answer. *)
Definition unreachable (cfg : Config) (out : string → res exn json) (n : string) : bool :=
  match assoc n (targets cfg) with
  | Some t => match mcpd_endpoint_of t, out n with
              | Some _, Raise _ => negb (bool_decide (type t = Qemu))
              | _, _ => false
              end
  | None => false
  end.
Definition bad_default (cfg : Config) : bool :=
  match truthy (default_target (server cfg)) with Some d => bool_decide (d ∉ (targets cfg).*1) | None => false end.
(** The one check that is not [ok] and has no fix. *)
Definition listing_unknown (k : check) : Prop :=
  k = Check warn "Claude Code: `claude mcp list` failed or timed out, so registration is unknown" false.
Definition advised (k : check) : Prop := st k = ok ∨ fix_given k = true ∨ listing_unknown k.

Lemma gather_map {A B} (f : A → res exn B) (P : A → B → Prop) l :
  (∀ a, a ∈ l → ∃ b, f a = Ret b ∧ P a b) → ∃ bs, gather (map f l) = Ret bs ∧ Forall2 P l bs.
Proof.
  induction l as [|a l IH]; intros F; simpl; [by exists []|].
  destruct (F a ltac:(by left)) as (b & -> & Pb); destruct IH as (bs & -> & Pbs); [intros; apply F; by right|].
  exists (b :: bs); split; [done|by constructor].
Qed.
Lemma fails_app a b : fails (a ++ b) = fails a + fails b.
Proof. unfold fails; rewrite filter_app, length_app; lia. Qed.
Lemma fails_cons k cs : fails (k :: cs) = (if decide (st k = fail) then 1 else 0) + fails cs.
Proof. change (k :: cs) with ([k] ++ cs); rewrite fails_app; unfold fails at 1; rewrite filter_cons; by case_decide. Qed.
Lemma fails_none cs : Forall (λ k, st k ≠ fail) cs → fails cs = 0.
Proof. induction 1 as [|k cs N _ IH]; [done|]; by rewrite fails_cons, decide_False. Qed.
Lemma fails_of (P : string → bool) ns cs : Forall2 (λ n k, st k = fail ↔ P n = true) ns cs →
  fails cs = Z.of_nat (length (filter (λ n, P n = true) ns)).
Proof.
  induction 1 as [|n k ns cs N _ IH]; [done|]; rewrite fails_cons, filter_cons, IH.
  destruct (decide (P n = true)), (decide (st k = fail)); simpl; try lia; tauto.
Qed.
Lemma names_of_elem cfg n : n ∈ names_of cfg ↔ n ∈ (targets cfg).*1.
Proof. unfold names_of; by rewrite merge_sort_Permutation. Qed.
Lemma named_target cfg n : n ∈ names_of cfg → ∃ t, assoc n (targets cfg) = Some t ∧ target_config (Fleet_init cfg) n = Ret t.
Proof.
  intros N%names_of_elem; unfold target_config; simpl.
  destruct (assoc n (targets cfg)) as [t|] eqn:A; [by exists t|by apply assoc_None in A].
Qed.
Lemma advised_fix s w : advised (Check s w true).
Proof. right; by left. Qed.
Lemma advised_ok w b : advised (Check ok w b).
Proof. by left. Qed.
Lemma advised_listing : advised (Check warn "Claude Code: `claude mcp list` failed or timed out, so registration is unknown" false).
Proof. right; by right. Qed.
#[local] Hint Resolve advised_fix advised_ok advised_listing : core.

Section exit_code.
Context (version : text) (repr : json → text) (repr_str : string → string) (exn_text exn_type : exn → text).
Context (loads : text → option json) (dumps : json → text).

Lemma compare_versions_advised wher remote :
  st (compare_versions version wher remote) ≠ fail ∧ advised (compare_versions version wher remote).
Proof. unfold compare_versions, advised; repeat case_match; simpl; naive_solver. Qed.
Lemma probe_one_spec cfg n out : n ∈ names_of cfg → polite (out n) = true →
  ∃ k, probe_one version repr exn_text (Fleet_init cfg) n (out n) = Ret k ∧
    ((st k = fail ↔ unreachable cfg out n = true) ∧ advised k).
Proof.
  intros (t & A & T)%named_target P; unfold probe_one, unreachable; rewrite T, A.
  destruct (mcpd_endpoint_of t) as [ep|]; [|eexists; split; [done|]; unfold advised; simpl; naive_solver].
  destruct (out n) as [[]|x|]; try done; simpl in P.
  - eexists; split; [done|]; pose proof (compare_versions_advised (n +:+ " (" +:+ ep +:+ ")")
      (remote_of (py_str repr (default (JStr "?") (assoc "server" l))))); naive_solver.
  - unfold caught in P; rewrite P.
    case_decide as Q; (eexists; split; [done|]); unfold advised; simpl; rewrite ?bool_decide_eq_true_2, ?bool_decide_eq_false_2 by done;
      naive_solver.
Qed.
Lemma check_default_spec cfg : fails (check_default repr_str cfg) = Z.b2z (bad_default cfg) ∧
  Forall advised (check_default repr_str cfg).
Proof.
  unfold check_default, bad_default; destruct (truthy _) as [d|].
  - case_decide; [by rewrite bool_decide_eq_false_2 by auto|]; rewrite bool_decide_eq_true_2 by done.
    split; [done|]; auto using Forall_cons_2.
  - case_match; (split; [done|]); auto using Forall_cons_2.
Qed.
Lemma check_clients_advised c cs : check_clients loads dumps c = Ret cs → Forall (λ k, st k ≠ fail ∧ advised k) cs.
Proof.
  assert (Forall (λ k, st k ≠ fail ∧ advised k) (check_claude c)) as Code
    by (unfold check_claude; repeat case_match; apply Forall_singleton; auto).
  unfold check_clients; destruct (has_desktop c) as [p|].
  - unfold check_desktop; destruct (desktop_data loads c) as [d| |]; [|done..].
    destruct (registered dumps d) as [[]| |]; [| |done..]; intros [= <-]; apply Forall_app;
      (split; [by destruct (claude c)|]); apply Forall_singleton; auto.
  - destruct (claude c); intros [= <-]; [done|]; apply Forall_singleton; auto.
Qed.
Lemma check_config_advised exists_ load env dp path k cfg :
  check_config exn_text exn_type exists_ load env dp path = Ret (k, cfg) →
  advised k ∧ (st k = fail ↔ cfg = None).
Proof.
  unfold check_config, advised; destruct (match path with Some _ => _ | None => _ end) as [p source].
  destruct (exists_ p); [destruct (load p) as [c|x|]; [|destruct (_ || _)|]|]; intros; simplify_eq; simpl; naive_solver.
Qed.

Context {E : Type} `{Children E}.
Lemma check_reachability_spec (ask : concurrently (res exn json)) cfg e :
  let out := (ask (Fleet_init cfg, e)).1 in
  (∀ n, n ∈ names_of cfg → polite (out n) = true) →
  ∃ ks e', check_reachability version repr exn_text ask cfg e = (Ret ks, e') ∧ length ks = length (names_of cfg) ∧
    fails ks = Z.of_nat (length (filter (λ n, unreachable cfg out n = true) (names_of cfg))) ∧ Forall advised ks.
Proof.
  intros out P; unfold check_reachability, with_fleet, finally, gathered; subst out.
  destruct (ask (Fleet_init cfg, e)) as [out [f e1]]; simpl in P.
  destruct (gather_map (λ n, probe_one version repr exn_text (Fleet_init cfg) n (out n))
    (λ n k, (st k = fail ↔ unreachable cfg out n = true) ∧ advised k) (names_of cfg)) as (ks & -> & F).
  { intros n N; by apply probe_one_spec, P. }
  destruct (close_all_run f e1) as (f' & e' & -> & _); exists ks, e'; split_and!; [done|by rewrite <- (Forall2_length _ _ _ F)| |].
  - apply (fails_of (unreachable cfg out)); by eapply Forall2_impl; [exact F|naive_solver].
  - by eapply Forall2_Forall_r; [exact F|]; apply Forall_true; naive_solver.
Qed.

(** The doctor's exit code.  Whatever the machines do, as long as what they
    answer are objects and what goes wrong is an error of the connection or of the
    daemon: the doctor ends, prints one check per target besides its own, and its
    exit code is 1 without a usable configuration or without a target, else the
    number of machines that have a channel, are no guests and do not answer, and
    one more for a default target that is not configured - nothing else is a
    failure.  Every check that is not in order comes with a fix, but for a list of
    clients that could not be read. *)
Theorem doctor_exit_code exists_ load env dp path k conf (ask : concurrently (res exn json)) c cs e :
  check_config exn_text exn_type exists_ load env dp path = Ret (k, conf) →
  check_clients loads dumps c = Ret cs →
  (∀ cfg n, conf = Some cfg → polite ((ask (Fleet_init cfg, e)).1 n) = true) →
  ∃ printed e' code,
    run_doctor version repr repr_str exn_text loads dumps (Ret (k, conf)) ask c e = (Ret (printed, code), e') ∧
    Forall advised printed ∧
    code = match conf with
           | None => 1
           | Some cfg =>
               if targets cfg is [] then 1
               else Z.b2z (bad_default cfg) +
                    Z.of_nat (length (filter (λ n, unreachable cfg (ask (Fleet_init cfg, e)).1 n = true) (names_of cfg)))
           end ∧
    code = fails printed.
Proof.
  intros [Ak Fk]%check_config_advised C P; pose proof (check_clients_advised _ _ C) as Cs.
  assert (fails cs = 0 ∧ Forall advised cs) as [F0 Ac].
  { split; [apply fails_none|]; (eapply Forall_impl; [exact Cs|]); naive_solver. }
  unfold run_doctor; destruct conf as [cfg|].
  - assert (∃ about e', (reach ← (if targets cfg is [] then mret [] else check_reachability version repr exn_text ask cfg);
        mret (check_targets repr_str cfg ++ reach)) e = (Ret about, e') ∧ Forall advised about ∧
      fails about = (if targets cfg is [] then 1 else Z.b2z (bad_default cfg) +
        Z.of_nat (length (filter (λ n, unreachable cfg (ask (Fleet_init cfg, e)).1 n = true) (names_of cfg)))))
      as (about & e' & R & Aa & Fa).
    { unfold check_targets; destruct (targets cfg) eqn:T.
      - eexists _, e; split_and!; [reflexivity| |reflexivity]; by apply Forall_singleton.
      - destruct (check_reachability_spec ask cfg e) as (ks & e' & R & _ & Fr & Ar); [intros; by apply P|].
        destruct (check_default_spec cfg) as [Fd Ad]; eexists _, e'; split_and!; [by eapply bind_then| |].
        + simpl; constructor; [by left|]; by apply Forall_app.
        + simpl; rewrite fails_cons, fails_app, Fd, Fr; simpl; lia. }
    eexists _, e', _; split; [|split_and!; [| |reflexivity]].
    + cbv beta iota; unfold mbind at 1, M_bind at 1, lift at 1; erewrite bind_run by exact R; rewrite C; reflexivity.
    + constructor; [done|]; by apply Forall_app.
    + rewrite fails_cons, decide_False, fails_app, Fa, F0 by naive_solver; lia.
  - eexists _, e, _; split; [|split_and!; [| |reflexivity]].
    + rewrite C; reflexivity.
    + by constructor.
    + rewrite fails_cons, decide_True by naive_solver; cbn [app]; by rewrite F0.
Qed.

(* ------------------------------------------------------------------ *)
(** ** The exit code of the health check *)

(** [proto.capabilities] with methods that can be counted. *)
Definition countable (caps : json) : bool :=
  match caps with
  | JObj l => match assoc "methods" l with None | Some (JArr _ | JObj _ | JStr _) => true | Some _ => false end
  | _ => false
  end.
(** An error that is caught and has a text. *)
Definition told (e : exn) : bool := is_rpc e || is_timeout e || is_oserror e && negb (bool_decide (exn_text e = [])).
Definition as_expected (answers : res exn json * res exn json) : bool :=
  match answers.1 with Ret j => countable j | Raise e => told e | Spin => false end
  && match answers.2 with Ret (JObj _) => true | Raise e => told e | _ => false end.
Definition is_down (cfg : Config) (out : string → res exn json * res exn json) (n : string) : bool :=
  match assoc n (targets cfg) with
  | Some t =>
      match mcpd_endpoint_of t, out n with
      | None, _ => true
      | Some _, (Raise _, _) => true
      | Some _, (_, Raise e) => negb (is_timeout e || is_rpc e)
      | Some _, _ => false
      end
  | None => false
  end.
(** A row that says down with a text, or up. *)
Definition row_says (down : bool) (row : string * (text + vitals)) : Prop :=
  match row.2 with inl t => down = true ∧ t ≠ [] | inr _ => down = false end.

Lemma health_error_told e : told e = true → ∃ t, health_error exn_text exn_type e = Ret t ∧ t ≠ [].
Proof.
  unfold told, health_error; destruct (is_rpc e); [intros _; eexists; split; [done|]; by destruct (exn_type e)|].
  destruct (is_timeout e); [by eexists|]; destruct (is_oserror e); [|done]; simpl.
  intros T; exists (exn_text e); split; [done|]; by case_bool_decide.
Qed.
Lemma vitals_counted ep t caps kick : countable caps = true → ∃ v, vitals_of ep t caps kick = Ret v.
Proof.
  destruct caps as [| | | | |l]; try done; unfold countable, vitals_of; simpl.
  destruct (assoc "methods" l) as [[]|]; try done; simpl; eauto.
Qed.
Lemma probe_health_spec cfg n out : n ∈ names_of cfg → as_expected (out n) = true →
  ∃ row, probe_health exn_text exn_type (Fleet_init cfg) n (out n) = Ret row ∧ row_says (is_down cfg out n) row.
Proof.
  intros (t & A & T)%named_target P; unfold probe_health, is_down; rewrite T, A.
  destruct (mcpd_endpoint_of t) as [ep|]; [|by eexists].
  unfold as_expected in P; destruct (out n) as [[caps|x|] ver]; simpl in *; [|apply andb_true_iff in P as [X _]|done].
  - apply andb_true_iff in P as [Ca Ve]; destruct ver as [[]|x|]; try done; simpl.
    + edestruct vitals_counted as [v ->]; [exact Ca|by eexists].
    + destruct (is_timeout x || is_rpc x); [destruct (vitals_counted ep t caps (JStr "?") Ca) as [v ->]; by eexists|].
      destruct (health_error_told x Ve) as (m & -> & M); by eexists.
  - destruct (health_error_told x X) as (m & -> & M); by eexists.
Qed.
Lemma count_down_spec (P : string → bool) ns rows : Forall2 (λ n r, row_says (P n) r) ns rows →
  count_down rows = Ret (Z.of_nat (length (filter (λ n, P n = true) ns))).
Proof.
  induction 1 as [|n [m [t|v]] ns rows R _ IH]; [done| |]; unfold row_says in R; simpl in R; rewrite filter_cons.
  - destruct R as [-> N]; simpl; destruct t; [done|]; rewrite IH; f_equal; lia.
  - by rewrite R.
Qed.

(** The exit code of the health check: it ends, closes the fleet, and returns
    the number of targets that have no MCPd channel or whose machine did not say
    what it can do, or lost the connection when asked for its version - provided
    each answer is an object, each error one of the connection or of the daemon,
    and no error of the connection has an empty text. *)
Theorem health_check_counts (ask : concurrently (res exn json * res exn json)) cfg e :
  let out := (ask (Fleet_init cfg, e)).1 in
  (∀ n, n ∈ (targets cfg).*1 → as_expected (out n) = true) →
  ∃ e', run_health_check exn_text exn_type ask cfg e =
    (Ret (Z.of_nat (length (filter (λ n, is_down cfg out n = true) (targets cfg).*1))), e').
Proof.
  intros out P; assert (∀ P : string → bool, length (filter (λ n, P n = true) (targets cfg).*1) = length (filter (λ n, P n = true) (names_of cfg))) as ->
    by (intros Q; unfold names_of; by rewrite merge_sort_Permutation).
  unfold run_health_check, with_fleet; destruct (targets cfg) as [|t0 ts] eqn:T; [unfold names_of; rewrite T; by exists e|].
  rewrite <- T in P; clear T t0 ts; unfold gathered, mbind, M_bind, lift; subst out.
  change (list_targets (Fleet_init cfg) None) with (names_of cfg).
  destruct (ask (Fleet_init cfg, e)) as [out [f e1]]; simpl in P.
  destruct (gather_map (λ n, probe_health exn_text exn_type (Fleet_init cfg) n (out n)) (λ n r, row_says (is_down cfg out n) r) (names_of cfg))
    as (rows & -> & F); [intros n N; by apply probe_health_spec, P, names_of_elem|].
  rewrite (count_down_spec (is_down cfg out) _ _ F); destruct (close_all_run f e1) as (f' & e' & -> & _); by exists e'.
Qed.
End exit_code.

(* ------------------------------------------------------------------ *)
(** ** Examples *)

(** Two machines refuse the connection: a guest, which is a warning, and a real
    one; a third has no channel. *)
Definition refused : exn := EOS ConnectionRefusedError "refused".
Definition ex_ask : concurrently (res exn json) (E := table) := λ w, (λ _, Raise refused, w).
Definition ex_text (e : exn) : text := match e with EOS _ s => txt s | _ => txt "?" end.
Definition ex_children : table := λ _, (None, false).
Definition ex_client : clients := Clients (Some "/bin/claude") None None false (Ret []).
Definition ex_doctor : M table exn (list check * Z) :=
  run_doctor (txt "2.2") (λ _, []) id ex_text (λ _, None) (λ _, [])
    (check_config ex_text ex_text (λ _, true) (λ _, Ret ex_config) None "config.toml" None) ex_ask ex_client.
Lemma doctor_exit_code_witness :
  match (ex_doctor ex_children).1 with Ret (ks, _) => map st ks | _ => [] end = [ok; ok; warn; warn; warn; fail; warn] ∧
  ∃ printed e', ex_doctor ex_children = (Ret (printed, 1), e') ∧ Forall advised printed ∧ fails printed = 1.
Proof.
  split; [vm_compute; reflexivity|].
  destruct (doctor_exit_code (txt "2.2") (λ _, []) id ex_text ex_text (λ _, None) (λ _, []) (λ _, true) (λ _, Ret ex_config) None
    "config.toml" None (Check ok "config: config.toml (platform default)" false) (Some ex_config) ex_ask ex_client
    (check_claude ex_client) ex_children) as (printed & e' & code & R & A & C & F).
  - reflexivity.
  - reflexivity.
  - reflexivity.
  - assert (code = 1) as -> by (rewrite C; vm_compute; reflexivity).
    exists printed, e'; split; [exact R|]; split; [exact A|symmetry; exact F].
Defined.

Definition ex_vitals : concurrently (res exn json * res exn json) (E := table) := λ w,
  (λ n, (if decide (n = "x5000") then Ret (JObj [("methods", JArr [])]) else Raise refused, Ret (JObj [])), w).
Lemma health_check_counts_witness :
  (run_health_check ex_text ex_text ex_vitals ex_config ex_children).1 = Ret 2 ∧
  ∃ e', run_health_check ex_text ex_text ex_vitals ex_config ex_children =
    (Ret (Z.of_nat (length (filter (λ n, is_down ex_config (ex_vitals (Fleet_init ex_config, ex_children)).1 n = true)
                              (targets ex_config).*1))), e').
Proof.
  split; [vm_compute; reflexivity|].
  apply (health_check_counts ex_text ex_text ex_vitals ex_config ex_children).
  intros n _; unfold ex_vitals, as_expected; simpl; destruct (decide (n = "x5000")); reflexivity.
Defined.
(** An error of the connection without a text takes the check itself down. *)
Example health_check_crashes :
  (run_health_check ex_text ex_text (λ w, (λ _, (Raise (EOS OSError ""), Ret JNull), w)) ex_config ex_children).1
    = Raise (EPy AssertionError).
Proof. by vm_compute. Qed.
