(* ===== verification/Runs.v ===== *)
(** * Reading the archive back: [resources/archive_resources.py]

    The list of runs, the summary and the text of one, and that the summary of
    a file [Archive.v] wrote is the summary of the calls it was written for. *)
From S2P Require Import Prelude Py Bytes Archive.

Definition RESOURCE_BYTE_CAP : Z := 1024 * 1024.
Record run_row := RunRow { rr_id : string; calls_size_bytes : Z }.
Record summary := Summary {
  calls : Z; errors : Z; tools : list string; total_duration_ms : Z; first_ts : option string; last_ts : option string }.
(** [exists: False], a run without a file, and the rest. *)
Inductive metadata := NoRun | NoCalls | Calls (s : summary).

(** The newlines of text mode; a file is iterated at them. *)
Fixpoint translate (t : text) : text :=
  match t with
  | [] => []
  | c :: u =>
      if decide (c = "013"%char)
      then nl :: match u with d :: v => if decide (d = nl) then translate v else translate u | [] => [] end
      else c :: translate u
  end.
Definition text_lines (t : text) : list text := split_on nl (translate t).

Section resources.
(** UTF-8, strict and with replacements, [json.loads] ([None] for a
    [JSONDecodeError]) and [str] of lists and dicts. *)
Context (utf8 : bytes → res exn text) (utf8_replace : bytes → text) (loads : text → option json) (repr : json → text).

(** [list_runs]: the directories of the root, each with its file if it has one;
    anything else is left out. *)
Definition dir_le : relation (string * option bytes) := λ a b, String.le a.1 b.1.
#[export] Instance dir_le_dec a b : Decision (dir_le a b).
Proof. unfold dir_le. apply _. Defined.
Definition list_runs (root : option (list (string * option bytes))) : list run_row :=
  match root with
  | None => []
  | Some dirs => map (λ d, RunRow d.1 (Z.of_nat (length (default [] d.2)))) (merge_sort dir_le dirs)
  end.

(** One row of the file; [JObj] rows only have keys, other values raise as
    [in] and [get] do for them. *)
Definition add_tool (s : string) (l : list string) : list string := if decide (s ∈ l) then l else l ++ [s].
Definition duration_of (v : json) : res exn Z :=
  match py_int v with
  | Raise (EPy TypeError) | Raise (EPy ValueError) => Ret 0
  | r => r
  end.
Definition first_of (o : option string) (ts : string) : string := default ts o.
Definition add_row (s : summary) (d : list (string * json)) : res exn summary :=
  let tools' := match assoc "tool" d with Some v => add_tool (str (py_str repr v)) (tools s) | None => tools s end in
  match match assoc "duration_ms" d with Some v => duration_of v | None => Ret 0 end with
  | Ret ms =>
      let errors' := if assoc "error" d is Some _ then errors s + 1 else errors s in
      let '(f, l) := match assoc "ts" d with
                     | Some (JStr ts) => (Some (first_of (first_ts s) ts), Some ts)
                     | _ => (first_ts s, last_ts s)
                     end in
      Ret (Summary (calls s + 1) errors' tools' (total_duration_ms s + ms) f l)
  | Raise x => Raise x
  | Spin => Spin
  end.
(** What a row that is no object raises: ["tool" in row] and [row["tool"]], or
    [row.get]. *)
Definition row_error (j : json) : exn :=
  match j with
  | JStr s => if contains (txt "tool") (txt s) then EPy TypeError else EPy AttributeError
  | JArr l => if existsb (λ x, if x is JStr s then bool_decide (s = "tool"%string) else false) l then EPy TypeError
              else EPy AttributeError
  | _ => EPy TypeError
  end.
Fixpoint add_lines (s : summary) (ls : list text) : res exn summary :=
  match ls with
  | [] => Ret s
  | line :: ls =>
      match strip line with
      | [] => add_lines s ls
      | line => match loads line with
                | None => add_lines s ls
                | Some (JObj d) => match add_row s d with Ret s => add_lines s ls | r => r end
                | Some j => Raise (row_error j)
                end
      end
  end.
(** The set of tools comes out sorted. *)
Definition sort_tools (s : summary) : summary :=
  Summary (calls s) (errors s) (merge_sort String.le (tools s)) (total_duration_ms s) (first_ts s) (last_ts s).
(** [run_metadata]; [run] is [archive_root / run_id]: no directory, or one with
    or without the file. *)
Definition run_metadata (run : option (option bytes)) : res exn metadata :=
  match run with
  | None => Ret NoRun
  | Some None => Ret NoCalls
  | Some (Some b) =>
      match utf8 b with
      | Ret t => match add_lines (Summary 0 0 [] 0 None None) (text_lines t) with
                 | Ret s => Ret (Calls (sort_tools s))
                 | Raise x => Raise x
                 | Spin => Spin
                 end
      | Raise x => Raise x
      | Spin => Spin
      end
  end.
Definition notice (size : Z) : text :=
  [nl] ++ txt "# truncated: archive is " ++ show_int size ++ txt " bytes; showed first " ++ show_int RESOURCE_BYTE_CAP ++ [nl].
Definition run_calls_text (file : option bytes) : res exn text :=
  match file with
  | None => Ret []
  | Some b =>
      let sz := Z.of_nat (length b) in
      if sz <=? RESOURCE_BYTE_CAP then match utf8 b with Ret t => Ret (translate t) | r => r end
      else Ret (utf8_replace (take (Z.to_nat RESOURCE_BYTE_CAP) b) ++ notice sz)
  end.
End resources.

(* ------------------------------------------------------------------ *)
(** ** The summary of a run is the summary of its calls *)

(** What there is to tell of a call that was recorded. *)
Record seen := Seen { at_ts : string; of_tool : string; failed : bool; took : Z }.
Section seen.
Context {E : Type} `{RunLog E}.
Definition seen_of (c : call (E := E)) (r : res exn pyval) (e e1 : E) : list seen :=
  match outcome_of (E := E) r with
  | Some _ => [Seen (str (utc_now e1)) (str (c_tool c)) (if r is Raise _ then true else false)
                 (match r with Ret _ => perf_counter e1 - perf_counter e | _ => 0 end)]
  | None => []
  end.
Fixpoint seen_calls (cs : list (call (E := E))) (e : E) : list seen :=
  match cs with
  | [] => []
  | c :: cs => let '(r, e1) := c_fn c e in seen_of c r e e1 ++ seen_calls cs e1
  end.
End seen.
Definition total (l : list seen) : Z := foldr (λ x z, took x + z) 0 l.
Definition failures (l : list seen) : Z := Z.of_nat (length (List.filter failed l)).
(** [s] is the summary of [l]. *)
Definition sums_up (s : summary) (l : list seen) : Prop :=
  calls s = Z.of_nat (length l) ∧ errors s = failures l ∧ total_duration_ms s = total l ∧
  first_ts s = at_ts <$> head l ∧ last_ts s = at_ts <$> last l ∧
  Sorted String.le (tools s) ∧ NoDup (tools s) ∧ ∀ t, t ∈ tools s ↔ ∃ x, x ∈ l ∧ of_tool x = t.

(** JSON as the archive needs it: an object comes back with its keys, strings
    and numbers; a line starts and ends with its braces and has no line
    break. *)
Class JsonText (enc : pyval → text) (loads : text → option json) := {
  value : pyval → json;
  value_str s : value (VStr s) = JStr (str s);
  value_int z : value (VInt z) = JNum z;
  loads_dict l : loads (enc (VDict l)) = Some (JObj (map (λ kv, (str kv.1, value kv.2)) l));
  enc_line l : strip (enc (VDict l)) = enc (VDict l) ∧ enc (VDict l) ≠ [];
  enc_nl v : (nl ∉ enc v) ∧ ("013"%char ∉ enc v) }.

Section read_back.
Context {E : Type} `{RunLog E} (enc : pyval → text) (loads : text → option json) `{JsonText enc loads}.
Context (utf8 : bytes → res exn text) (encode : text → bytes) (Hutf8 : ∀ t, utf8 (encode t) = Ret t) (repr : json → text).
Context (Henc : ∀ v, dumps (E := E) v = Ret (enc v)).

Definition add_seen (s : summary) (x : seen) : summary :=
  Summary (calls s + 1) (if failed x then errors s + 1 else errors s) (add_tool (of_tool x) (tools s))
    (total_duration_ms s + took x) (Some (first_of (first_ts s) (at_ts x))) (Some (at_ts x)).
Lemma translate_id t : "013"%char ∉ t → translate t = t.
Proof.
  induction t as [|c t IH]; [done|]. intros [Hc Ht]%not_elem_of_cons. simpl. rewrite decide_False by done.
  by rewrite IH.
Qed.
(** The line of an entry. *)
Lemma add_lines_entry s ts tool target params o d ls :
  add_lines loads repr s (enc (entry ts tool target params o (Some d)) :: ls) =
  add_lines loads repr (add_seen s (Seen (str ts) (str tool) (if o is inl _ then true else false) d)) ls.
Proof.
  unfold entry. cbn [add_lines]. match goal with |- context [VDict ?l] => destruct (enc_line (enc := enc) l) as [-> Hne];
    pose proof (loads_dict (enc := enc) l) as Hl; destruct (enc (VDict l)) as [|c u]; [done|]; rewrite Hl end.
  unfold add_row, add_seen, duration_of, py_str.
  destruct o as [err|res]; simpl; rewrite !value_str, value_int; simpl; by rewrite str_txt.
Qed.
Lemma add_lines_entries cs e s :
  let '(_, es, _) := history cs e in
  add_lines loads repr s (map enc es ++ [[]]) = Ret (foldl add_seen s (seen_calls cs e)).
Proof.
  revert e s. induction cs as [|c cs IH]; intros e s; simpl; [done|].
  destruct (c_fn c e) as [r e1]. unfold entry_of, seen_of. destruct (outcome_of (E := E) r) as [o|] eqn:Ho.
  - match goal with |- context [Some match r with Ret _ => ?d | _ => _ end] => idtac end.
    specialize (IH e1 (add_seen s (Seen (str (utc_now e1)) (str (c_tool c)) (if r is Raise _ then true else false)
      (match r with Ret _ => perf_counter e1 - perf_counter e | _ => 0 end)))).
    destruct (history cs e1) as [[rs es] e2]. cbn [map app foldl]. rewrite add_lines_entry.
    assert ((if o is inl _ then true else false) = (if r is Raise _ then true else false)) as ->; [|exact IH].
    destruct r as [a|[]|]; simplify_eq/=; done.
  - specialize (IH e1 s). by destruct (history cs e1) as [[rs es] e2].
Qed.
Lemma fold_sums_up l : sums_up (sort_tools (foldl add_seen (Summary 0 0 [] 0 None None) l)) l.
Proof.
  set (f := foldl add_seen (Summary 0 0 [] 0 None None)).
  enough (calls (f l) = Z.of_nat (length l) ∧ errors (f l) = failures l ∧ total_duration_ms (f l) = total l ∧
    first_ts (f l) = at_ts <$> head l ∧ last_ts (f l) = at_ts <$> last l ∧ NoDup (tools (f l)) ∧
    ∀ t, t ∈ tools (f l) ↔ ∃ x, x ∈ l ∧ of_tool x = t) as (?&?&?&?&?&?&Ht).
  { unfold sums_up. simpl. split_and!; [done..|apply (Sorted_merge_sort String.le)|by rewrite merge_sort_Permutation|].
    intros t. rewrite merge_sort_Permutation. apply Ht. }
  induction l as [|x l (Hc & He & Hd & Hf & Hl & Hn & Ht)] using rev_ind.
  { simpl. split_and!; [done..|apply NoDup_nil; done|]. intros t. split; [by intros ?%not_elem_of_nil|]. by intros (x & ?%not_elem_of_nil & _). }
  unfold f in *. rewrite foldl_app. simpl. rewrite Hc, He, Hd, Hf.
  unfold failures, total. rewrite List.filter_app, foldr_app, !length_app, last_snoc. simpl.
  split_and!.
  - lia.
  - unfold failures. destruct (failed x); simpl; lia.
  - unfold total. generalize (took x). clear. induction l as [|y l IH]; simpl; intros z; [lia|]. rewrite <-(IH z). lia.
  - by destruct l.
  - done.
  - unfold add_tool. case_decide; [done|]. apply NoDup_app. split_and!; [done| |apply NoDup_singleton].
    by intros y Hy ->%list_elem_of_singleton.
  - intros t. unfold add_tool. transitivity (t ∈ tools (foldl add_seen (Summary 0 0 [] 0 None None) l) ∨ t = of_tool x).
    + case_decide; [naive_solver|]. by rewrite elem_of_app, list_elem_of_singleton.
    + rewrite Ht. setoid_rewrite elem_of_app. setoid_rewrite list_elem_of_singleton. naive_solver.
Qed.

(** C23: the file that a sequence of calls leaves behind reads back as what
    happened: the summary of the run counts the calls that were not cancelled and
    those that failed, has their tools sorted and without repetition, the time
    the successful ones took, and the first and last time stamps; and the text of
    the run is the file itself as long as it fits the cap. *)
Theorem run_reads_back cs e :
  let '(rs, e', file) := let '(rs, (e', file)) := run_calls cs (e, []) in (rs, e', file) in
  (∃ s, run_metadata utf8 loads repr (Some (Some (encode file))) = Ret (Calls s) ∧ sums_up s (seen_calls cs e)) ∧
  (Z.of_nat (length (encode file)) ≤ RESOURCE_BYTE_CAP →
    ∀ replace, run_calls_text utf8 replace (Some (encode file)) = Ret file).
Proof.
  pose proof (run_calls_file enc Henc cs e []) as Hrun. pose proof (add_lines_entries cs e (Summary 0 0 [] 0 None None)) as Hadd.
  destruct (history cs e) as [[rs es] e'] eqn:Hh. rewrite Hrun. simpl.
  assert (translate (mjoin (map (λ v, enc v ++ [nl]) es)) = mjoin (map (λ v, enc v ++ [nl]) es)) as Htr.
  { apply translate_id. intros Hin. apply list_elem_of_join in Hin as (l & Hl & Hin).
    apply list_elem_of_fmap in Hin as (v & -> & _). apply elem_of_app in Hl as [Hl|Hl]; [by apply (enc_nl (loads := loads)) in Hl|].
    by apply list_elem_of_singleton in Hl. }
  split.
  - eexists. unfold run_metadata. rewrite Hutf8. unfold text_lines. rewrite Htr.
    replace (map (λ v, enc v ++ [nl]) es) with (map (λ l, l ++ [nl]) (map enc es)) by by rewrite map_map.
    rewrite <-(app_nil_r (mjoin _)), split_on_lines by (apply Forall_map, Forall_true; apply (enc_nl (loads := loads))).
    change (split_on nl []) with ([[]] : list text). rewrite Hadd. split; [done|]. apply fold_sums_up.
  - intros Hcap replace. unfold run_calls_text. apply Z.leb_le in Hcap. by rewrite Hcap, Hutf8, Htr.
Qed.
End read_back.

(* ------------------------------------------------------------------ *)
(** ** The summary at a concrete run *)

(** A toy JSON: an object is written as the bits of its keys and scalars. *)
Fixpoint bits (p : positive) : text :=
  match p with xH => ["}"%char] | xO p => "0"%char :: bits p | xI p => "1"%char :: bits p end.
Fixpoint unbits (t : text) : option positive :=
  match t with
  | [] => None
  | c :: t => if decide (c = "0"%char) then xO <$> unbits t
              else if decide (c = "1"%char) then xI <$> unbits t else if decide (c = "}"%char) then Some xH else None
  end.
Lemma unbits_bits p : unbits (bits p) = Some p.
Proof. induction p as [p IH|p IH|]; simpl; by rewrite ?IH. Qed.
Lemma bits_chars p : Forall (λ c, c ∈ txt "01}") (bits p).
Proof. induction p; simpl; constructor; try done; by apply (bool_decide_unpack _); vm_compute. Qed.
Definition scalar_of (v : pyval) : option (bool * text) :=
  match v with VStr s => Some (true, s) | VAtom a => Some (false, a) | _ => None end.
Definition json_of (o : option (bool * text)) : json :=
  match o with
  | Some (true, s) => JStr (str s)
  | Some (false, a) => match int_of_text 10 a with Some z => JNum z | None => JNull end
  | None => JNull
  end.
Definition toy_enc (v : pyval) : text :=
  match v with VDict l => "{"%char :: bits (encode (map (λ kv, (kv.1, scalar_of kv.2)) l)) | _ => txt "0" end.
Definition toy_loads (t : text) : option json :=
  match t with
  | c :: t => if decide (c = "{"%char) then
                p ← unbits t; l ← decode (A := list (text * option (bool * text))) p;
                Some (JObj (map (λ kv, (str kv.1, json_of kv.2)) l))
              else None
  | [] => None
  end.
#[export, refine] Instance toy_json : JsonText toy_enc toy_loads := {| value v := json_of (scalar_of v) |}.
Proof.
  - done.
  - intros z. simpl. by rewrite int_of_show_int.
  - intros l. simpl. rewrite unbits_bits. simpl. rewrite decode_encode. simpl. by rewrite map_map.
  - intros l. split; [|done]. apply strip_id. simpl. constructor; [done|]. eapply Forall_impl; [apply bits_chars|].
    intros c Hc. apply (bool_decide_unpack _). revert c Hc. apply Forall_forall, (bool_decide_unpack _). vm_compute. exact I.
  - intros v. enough (Forall (λ c, c ∈ txt "{01}") (toy_enc v)) as Hv.
    { rewrite Forall_forall in Hv. split; intros Hin; apply Hv, (bool_decide_pack _) in Hin; by vm_compute in Hin. }
    destruct v as [| | |l|]; simpl; try (repeat constructor; by apply (bool_decide_unpack _); vm_compute).
    constructor; [by apply (bool_decide_unpack _); vm_compute|]. eapply Forall_impl; [apply bits_chars|].
    intros c Hc. simpl. by right.
Defined.
#[local] Instance toy_log : RunLog Z := {|
  append_file _ := mret tt; perf_counter t := t; utc_now t := show_int t; dumps v := Ret (toy_enc v);
  str_exn _ := txt "failed"; message _ := txt "failed"; value_of_json _ := VAtom (txt "data") |}.
Definition toy_calls : list call :=
  [Call (txt "sys.uptime") [(txt "target", VStr (txt "x5000"))] (λ t, (Ret (VAtom (txt "1")), t + 5));
   Call (txt "fs.read") [] (λ t, (Raise (EPy KeyError), t + 7));
   Call (txt "wait") [] (λ t, (Raise ECancelled, t + 9));
   Call (txt "sys.uptime") [] (λ t, (Ret (VAtom (txt "2")), t + 10))].
Lemma run_reads_back_witness :
  run_metadata Ret toy_loads (λ _, []) (Some (Some (run_calls toy_calls (100, [])).2.2))
    = Ret (Calls (Summary 3 1 ["fs.read"; "sys.uptime"] 15 (Some "105") (Some "131")))%string ∧
  let '(rs, e', file) := let '(rs, (e', file)) := run_calls toy_calls (100, []) in (rs, e', file) in
  (∃ s, run_metadata Ret toy_loads (λ _, []) (Some (Some file)) = Ret (Calls s) ∧ sums_up s (seen_calls toy_calls 100)) ∧
  (Z.of_nat (length file) ≤ RESOURCE_BYTE_CAP → ∀ replace, run_calls_text Ret replace (Some file) = Ret file).
Proof.
  split; [vm_compute; reflexivity|].
  exact (run_reads_back toy_enc toy_loads Ret id (λ _, eq_refl) (λ _, []) (λ _, eq_refl) toy_calls 100).
Defined.
