(* ===== verification/Cmdline.v ===== *)
(** * The QEMU command line: [qemu/cmdline.py]

    Splitting an argument string into words, adding port forwards to a
    [-netdev] argument, and building the argument vector of a target from the
    JSON file that describes its machine.  A path is its [str]. *)
From S2P Require Import Prelude Py Config.

(* ------------------------------------------------------------------ *)
(** ** Words *)

Definition dquote : ascii := chr 34.
Definition squote : ascii := chr 39.
Definition blank : ascii := chr 32.
Definition is_quote (c : ascii) : bool := bool_decide (c = dquote) || bool_decide (c = squote).

(** The locals of [_split_arg_string]'s loop. *)
Record scan := Scan { found : list text; cur : text; in_quote : bool; quote_char : option ascii }.
(** One turn of the loop. *)
Definition scan_char (s : scan) (ch : ascii) : scan :=
  if is_quote ch && negb (in_quote s) then Scan (found s) (cur s) true (Some ch)
  else if bool_decide (quote_char s = Some ch) && in_quote s then Scan (found s) (cur s) false None
  else if bool_decide (ch = blank) && negb (in_quote s) then
    match cur s with
    | [] => s
    | _ => Scan (found s ++ [cur s]) [] (in_quote s) (quote_char s)
    end
  else Scan (found s) (cur s ++ [ch]) (in_quote s) (quote_char s).
Definition finish (s : scan) : list text :=
  match cur s with [] => found s | _ => found s ++ [cur s] end.
Definition split_arg_string (s : text) : list text :=
  finish (foldl scan_char (Scan [] [] false None) s).

(* ------------------------------------------------------------------ *)
(** ** Port forwards *)

Definition DROPPED_ARG_KEYS : list string := ["pidfile"].
Definition GUEST_PORT_MCPD : Z := 4322.
Definition GUEST_PORT_DISCOVERY : Z := 4323.

Definition comma : ascii := chr 44.
Definition is_fwd (p : text) : bool := startswith (txt "hostfwd=") p.
Definition inject_hostfwd (netdev_arg : text) (fwds : list text) : text :=
  match fwds with
  | [] => netdev_arg
  | _ =>
      let parts := split_on comma netdev_arg in
      let existing := filter (λ p, is_fwd p = true) parts in
      let extra := filter (λ f, f ∉ existing) fwds in
      match extra with
      | [] => netdev_arg
      | _ => join [comma] (parts ++ extra)
      end
  end.
(** [f"hostfwd={proto}::{host}-:{guest}"] *)
Definition hostfwd (proto : string) (host guest : Z) : text :=
  txt "hostfwd=" ++ txt proto ++ txt "::" ++ show_int host ++ txt "-:" ++ show_int guest.

(* ------------------------------------------------------------------ *)
(** ** The command line *)

(** The [ports] dict. *)
Record port_map := PortMap {
  port_mcpd : option Z; port_qmp : option Z; port_gdb : option Z; port_discovery : option Z }.

Section build.
Context {W : Type}.
Abbreviation MW := (M W exn).

(** What an enabled MCPd channel forwards: the clauses, its host port and the
    host port of discovery. *)
Definition forwards (t : TargetConfig) : MW (list text * option Z * option Z) :=
  match mcpd (channels t) with
  | Some mch =>
      if mcpd_enabled mch then
        mcpd_host ← lift (endpoint_port (mcpd_endpoint mch));
        let disc_host := default mcpd_host (discovery_port mch) in
        mret ([hostfwd "tcp" mcpd_host GUEST_PORT_MCPD; hostfwd "udp" disc_host GUEST_PORT_DISCOVERY],
              Some mcpd_host, Some disc_host)
      else mret ([], None, None)
  | None => mret ([], None, None)
  end.
Definition qmp_arg (t : TargetConfig) : MW (option text * option Z) :=
  match qmp (channels t) with
  | Some qch =>
      if qmp_enabled qch then
        port ← lift (endpoint_port (qmp_endpoint qch));
        mret (Some (txt "-qmp tcp:" ++ txt (endpoint_host (qmp_endpoint qch)) ++ txt ":" ++ show_int port
                    ++ txt ",server=on,wait=off"), Some port)
      else mret (None, None)
  | None => mret (None, None)
  end.
Definition gdb_arg (t : TargetConfig) : MW (option text * option Z) :=
  match gdb (channels t) with
  | Some gch =>
      if gdb_enabled gch then
        port ← lift (endpoint_port (gdb_endpoint gch));
        mret (Some (txt "-gdb tcp::" ++ show_int port), Some port)
      else mret (None, None)
  | None => mret (None, None)
  end.

(** The words one entry of [args] adds. *)
Definition arg_words (use_headless : bool) (fwds : list text) (key : string) (value : json) : MW (list text) :=
  if negb (json_truth value) then mret []
  else match value with
       | JStr s =>
           match strip (txt s) with
           | [] => mret []
           | _ =>
               if bool_decide (key ∈ DROPPED_ARG_KEYS) then mret []
               else
                 let value := if decide (key = "network"%string) then inject_hostfwd (txt s) fwds else txt s in
                 let value := if bool_decide (key = "display"%string) && use_headless
                              then txt "-display none" else value in
                 mret (split_arg_string value)
           end
       | _ => raise (EPy AttributeError)
       end.
Fixpoint add_args (use_headless : bool) (fwds : list text) (args : list (string * json)) : MW (list text) :=
  match args with
  | [] => mret []
  | (key, value) :: args =>
      ws ← arg_words use_headless fwds key value;
      rest ← add_args use_headless fwds args;
      mret (ws ++ rest)
  end.
Definition opt_words (a : option text) : list text :=
  match a with Some a => split_arg_string a | None => [] end.

(** [load] opens and parses the file, [None] when there is none. *)
Context (load : string → MW (option json)).
Definition build_cmdline (qemu_binary kyvos_config_path : string) (t : TargetConfig)
    (headless_arg : option bool) : MW (list text * port_map) :=
  loaded ← load kyvos_config_path;
  match loaded with
  | None => raise (ERpc InternalError None)
  | Some kyvos =>
      args ← lift (get_or "args" (JObj []) kyvos);
      '(fwds, p_mcpd, p_disc) ← forwards t;
      '(qarg, p_qmp) ← qmp_arg t;
      '(garg, p_gdb) ← gdb_arg t;
      let use_headless := default (headless t) headless_arg in
      match args with
      | JObj args =>
          ws ← add_args use_headless fwds args;
          mret (txt qemu_binary :: ws ++ opt_words qarg ++ opt_words garg, PortMap p_mcpd p_qmp p_gdb p_disc)
      | _ => raise (EPy AttributeError)
      end
  end.
End build.

(* ------------------------------------------------------------------ *)
(** ** Reading words back *)

(** An argument as a user writes it: runs of plain characters and quoted
    runs, next to one another. *)
Inductive piece := Bare (t : text) | Quoted (q : ascii) (t : text).
Definition plain (c : ascii) : Prop := c ≠ blank ∧ is_quote c = false.
Definition piece_ok (p : piece) : Prop :=
  match p with Bare t => Forall plain t | Quoted q t => is_quote q = true ∧ q ∉ t end.
Definition piece_text (p : piece) : text := match p with Bare t | Quoted _ t => t end.
Definition piece_shown (p : piece) : text :=
  match p with Bare t => t | Quoted q t => q :: t ++ [q] end.
Definition arg_text (a : list piece) : text := mjoin (map piece_text a).
Definition arg_shown (a : list piece) : text := mjoin (map piece_shown a).

Lemma plain_scan ws c q k t : (q = false → k = None) → (∀ d, k = Some d → is_quote d = true) →
  Forall plain t → foldl scan_char (Scan ws c q k) t = Scan ws (c ++ t) q k.
Proof.
  intros Hq Hk Ht. revert c. induction Ht as [|d t [Hb Hd] Ht IH]; intros c; simpl.
  - by rewrite app_nil_r.
  - unfold scan_char at 2. simpl. rewrite Hd, (bool_decide_eq_false_2 (d = blank)) by done.
    rewrite (bool_decide_eq_false_2 (k = Some d)) by (intros Hkd; apply Hk in Hkd; congruence). simpl.
    by rewrite IH, <-(assoc_L (++)).
Qed.
Lemma quoted_scan ws c q t : q ∉ t →
  foldl scan_char (Scan ws c true (Some q)) t = Scan ws (c ++ t) true (Some q).
Proof.
  revert c. induction t as [|d t IH]; intros c; simpl; [by rewrite app_nil_r|].
  intros [Hd Ht]%not_elem_of_cons. unfold scan_char at 2. simpl. rewrite !andb_false_r.
  rewrite bool_decide_eq_false_2 by congruence. simpl. by rewrite IH, <-(assoc_L (++)).
Qed.
Lemma scan_open ws c q : is_quote q = true → scan_char (Scan ws c false None) q = Scan ws c true (Some q).
Proof. unfold scan_char. simpl. by intros ->. Qed.
Lemma scan_close ws c q : scan_char (Scan ws c true (Some q)) q = Scan ws c false None.
Proof. unfold scan_char. simpl. by rewrite andb_false_r, bool_decide_eq_true_2. Qed.
Lemma piece_scan ws c p : piece_ok p →
  foldl scan_char (Scan ws c false None) (piece_shown p) = Scan ws (c ++ piece_text p) false None.
Proof.
  destruct p as [t|q t]; simpl; [by apply plain_scan|]. intros [Hq Ht].
  rewrite scan_open, foldl_app, quoted_scan by done. apply scan_close.
Qed.
Lemma arg_scan ws c a : Forall piece_ok a →
  foldl scan_char (Scan ws c false None) (arg_shown a) = Scan ws (c ++ arg_text a) false None.
Proof.
  intros Ha. revert c. induction Ha as [|p a Hp _ IH]; intros c; [by rewrite app_nil_r|].
  unfold arg_shown, arg_text. simpl. rewrite foldl_app, piece_scan by done.
  by rewrite IH, (assoc_L (++)).
Qed.
Lemma blank_scan ws c :
  scan_char (Scan ws c false None) blank = Scan (finish (Scan ws c false None)) [] false None.
Proof. by destruct c. Qed.
Definition nonempty (t : text) : Prop := t ≠ [].
#[export] Instance nonempty_dec t : Decision (nonempty t).
Proof. unfold nonempty. apply _. Defined.

Lemma args_scan ws args : Forall (Forall piece_ok) args →
  finish (foldl scan_char (Scan ws [] false None) (join [blank] (map arg_shown args))) =
  ws ++ filter nonempty (map arg_text args).
Proof.
  assert (∀ ws t, finish (Scan ws t false None) = ws ++ filter nonempty [t]) as Hfin.
  { intros us [|c t]; unfold finish; simpl; by rewrite ?app_nil_r. }
  intros Hargs. revert ws. induction Hargs as [|a args Ha Hargs IH]; intros ws; [apply (Hfin ws [])|].
  destruct args as [|b args]; [simpl; by rewrite arg_scan|].
  rewrite !map_cons, join_cons, foldl_app, arg_scan by done. cbn [foldl app]. rewrite blank_scan.
  rewrite <-map_cons, IH, Hfin, <-(assoc_L (++)). f_equal.
  symmetry. apply (filter_app nonempty [arg_text a]).
Qed.
(** an argument string is read as it is written: whatever mix of plain
    and quoted runs the arguments are made of, and however many blanks stand
    between them, the words are the texts of the arguments in order - except
    that an argument whose text is empty, a pair of quotes included, is lost. *)
Theorem split_arg_string_reads args : Forall (Forall piece_ok) args →
  split_arg_string (join [blank] (map arg_shown args)) = filter nonempty (map arg_text args).
Proof. apply (args_scan []). Qed.

(** No word is empty, whatever is split. *)
Lemma finish_nonempty s : Forall nonempty (found s) → Forall nonempty (finish s).
Proof.
  unfold finish. destruct (cur s) as [|c t]; [done|]. intros ?. apply Forall_app. split; [done|].
  by constructor.
Qed.
Lemma split_arg_string_nonempty s : Forall nonempty (split_arg_string s).
Proof.
  unfold split_arg_string. assert (∀ e, Forall nonempty (found e) → Forall nonempty (finish (foldl scan_char e s)));
    [|by apply H].
  induction s as [|c s IH]; intros e He; simpl; [by apply finish_nonempty|]. apply IH.
  unfold scan_char. repeat case_match; simpl; try done.
  apply Forall_app. split; [done|]. by constructor.
Qed.

(* ------------------------------------------------------------------ *)
(** ** Forwards are added once *)

Definition clause (f : text) : Prop := is_fwd f = true ∧ comma ∉ f.
Definition missing (parts fwds : list text) : list text := filter (λ f, f ∉ parts) fwds.

Lemma missing_clauses parts fwds : Forall clause fwds →
  filter (λ f, f ∉ filter (λ p, is_fwd p = true) parts) fwds = missing parts fwds.
Proof.
  induction 1 as [|f fwds [Hf _] _ IH]; [done|]. unfold missing in *. rewrite !filter_cons, IH.
  assert (f ∉ filter (λ p, is_fwd p = true) parts ↔ f ∉ parts) as Hiff by (rewrite list_elem_of_filter; tauto).
  destruct (decide (f ∉ parts)); [rewrite decide_True|rewrite decide_False]; tauto.
Qed.
Lemma inject_parts arg fwds : Forall clause fwds →
  split_on comma (inject_hostfwd arg fwds) = split_on comma arg ++ missing (split_on comma arg) fwds.
Proof.
  intros Hf. unfold inject_hostfwd. destruct fwds as [|f0 fs]; [by rewrite app_nil_r|].
  rewrite missing_clauses by done. destruct (missing _ (f0 :: fs)) as [|e es] eqn:He; [by rewrite app_nil_r|].
  rewrite <-He. apply split_on_join.
  - intros [? _]%app_eq_nil. by apply (split_on_nonempty comma arg).
  - apply Forall_app. split; [apply split_on_pieces|]. apply Forall_forall. intros x Hx.
    apply list_elem_of_filter in Hx as [_ Hx]. rewrite Forall_forall in Hf. by apply Hf.
Qed.
Lemma missing_none parts fwds : missing (parts ++ missing parts fwds) fwds = [].
Proof.
  destruct (missing (parts ++ missing parts fwds) fwds) as [|f l] eqn:Hm; [done|].
  assert (f ∈ missing (parts ++ missing parts fwds) fwds) as Hin by (rewrite Hm; by left).
  apply list_elem_of_filter in Hin as [Hnot Hin]. destruct Hnot. apply elem_of_app.
  destruct (decide (f ∈ parts)); [by left|right]. by apply list_elem_of_filter.
Qed.
(** Adding forwards keeps every part of the [-netdev] argument in place
    and appends, in order, the clauses it did not have; doing it again changes
    nothing. *)
Theorem inject_hostfwd_idempotent arg fwds : Forall clause fwds →
  split_on comma (inject_hostfwd arg fwds) = split_on comma arg ++ missing (split_on comma arg) fwds ∧
  inject_hostfwd (inject_hostfwd arg fwds) fwds = inject_hostfwd arg fwds.
Proof.
  intros Hf. split; [by apply inject_parts|].
  assert (missing (split_on comma (inject_hostfwd arg fwds)) fwds = []) as Hm
    by (rewrite inject_parts by done; apply missing_none).
  unfold inject_hostfwd at 1. rewrite missing_clauses, Hm by done. by destruct fwds.
Qed.

Lemma show_digit b d : 0 ≤ d < b → b ≤ 10 → plain (digit_char d) ∧ digit_char d ≠ comma.
Proof.
  intros Hd Hb. assert (Forall (λ d, plain (digit_char d) ∧ digit_char d ≠ comma) (seqZ 0 10)) as H.
  { unfold plain. apply (bool_decide_unpack _). by vm_compute. }
  rewrite Forall_forall in H. apply H, elem_of_seqZ. lia.
Qed.
Definition clean (t : text) : Prop := Forall (λ c, plain c ∧ c ≠ comma) t.
Lemma show_int_clean z : clean (show_int z).
Proof.
  assert (∀ z, 0 ≤ z → clean (show_base 10 z)) as H.
  { intros y Hy. eapply Forall_impl; [by apply (show_base_digits 10)|].
    intros c (d & Hd & ->). by apply (show_digit 10). }
  unfold show_int. destruct (Z.ltb_spec z 0); [|by apply H]. constructor; [by vm_compute|]. apply H. lia.
Qed.
Lemma hostfwd_clean proto h g : clean (txt proto) → clean (hostfwd proto h g).
Proof.
  intros Hp. unfold hostfwd, clean. rewrite !Forall_app. split_and!; try done; try apply show_int_clean.
  all: apply (bool_decide_unpack _); by vm_compute.
Qed.
Lemma hostfwd_clause proto h g : clean (txt proto) → clause (hostfwd proto h g).
Proof.
  intros Hp. split; [done|]. intros Hin. pose proof (hostfwd_clean proto h g Hp) as Hc.
  unfold clean in Hc. rewrite Forall_forall in Hc. by destruct (Hc _ Hin).
Qed.

(* ------------------------------------------------------------------ *)
(** ** What is added is found in a word *)

(** [p] stands between commas, or the ends of the text. *)
Definition between_commas (a b : text) : Prop :=
  (a = [] ∨ ∃ a', a = a' ++ [comma]) ∧ (b = [] ∨ ∃ b', b = comma :: b').
Lemma split_on_between p s : p ∈ split_on comma s → ∃ a b, s = a ++ p ++ b ∧ between_commas a b.
Proof.
  intros Hp. rewrite <-(join_split_on comma s). revert Hp. generalize (split_on comma s). intros l.
  induction l as [|q l IH]; [by intros ?%not_elem_of_nil|].
  destruct l as [|r l].
  - intros ->%list_elem_of_singleton. exists [], []. split; [by rewrite app_nil_r|]. split; by left.
  - rewrite join_cons by done. intros [->|Hin]%elem_of_cons.
    + exists [], (comma :: join [comma] (r :: l)). split; [done|]. split; [by left|right; by eexists].
    + destruct (IH Hin) as (a & b & -> & Ha & Hb). exists (q ++ comma :: a), b.
      split; [by rewrite <-(assoc_L (++))|]. split; [|done]. right.
      destruct Ha as [->|[a' ->]]; [by exists q|]. exists (q ++ comma :: a'). by rewrite <-(assoc_L (++)).
Qed.
Lemma between_split_on a p b : comma ∉ p → between_commas a b → p ∈ split_on comma (a ++ p ++ b).
Proof.
  intros Hp [Ha Hb].
  assert (p ∈ split_on comma (p ++ b)) as Hpb.
  { destruct Hb as [->|[b' ->]]; [rewrite app_nil_r|rewrite split_on_app, elem_of_app; left];
      rewrite split_on_plain by done; by left. }
  destruct Ha as [->|[a' ->]]; [done|]. rewrite <-(assoc_L (++)). simpl.
  rewrite split_on_app, elem_of_app. by right.
Qed.

Definition scan_ok (s : scan) : Prop :=
  if in_quote s then ∃ d, quote_char s = Some d ∧ is_quote d = true else quote_char s = None.
Lemma scan_char_ok s c : scan_ok s → scan_ok (scan_char s c).
Proof.
  unfold scan_ok, scan_char. destruct s as [ws t [|] k]; simpl; rewrite ?andb_false_r, ?andb_true_r; intros Hok.
  - by case_bool_decide.
  - destruct (is_quote c) eqn:Hc; [by eexists|]. case_bool_decide; [|done]. by destruct t.
Qed.
Lemma scan_text_ok s t : scan_ok s → scan_ok (foldl scan_char s t).
Proof. revert s. induction t as [|c t IH]; intros s Hs; [done|]. by apply IH, scan_char_ok. Qed.
Lemma scan_plain s t : scan_ok s → Forall plain t →
  foldl scan_char s t = Scan (found s) (cur s ++ t) (in_quote s) (quote_char s).
Proof.
  destruct s as [ws c q k]. unfold scan_ok. simpl. intros Hok Ht. destruct q.
  - destruct Hok as (d & -> & Hd). apply plain_scan; [done| |done]. by intros ? [= ->].
  - subst k. by apply plain_scan.
Qed.
(** The word being read is continued, and words read stay. *)
Lemma finish_keeps s : found s `prefix_of` finish s ∧ (cur s ≠ [] → cur s ∈ finish s).
Proof.
  unfold finish. destruct (cur s) as [|c t] eqn:Hc; [done|]. split; [by eexists|].
  intros _. apply elem_of_app. right. by left.
Qed.
Lemma scan_keeps s t : scan_ok s → found s `prefix_of` finish (foldl scan_char s t) ∧
  (cur s ≠ [] → ∃ b, cur s ++ b ∈ finish (foldl scan_char s t)).
Proof.
  revert s. induction t as [|c t IH]; intros s Hs; simpl.
  { destruct (finish_keeps s) as [H1 H2]. split; [done|]. exists []. rewrite app_nil_r. auto. }
  destruct (IH _ (scan_char_ok s c Hs)) as [H1 H2]. clear IH. revert H1 H2. unfold scan_char.
  destruct s as [ws u q k]. simpl.
  destruct (is_quote c && negb q); simpl; [done|].
  destruct (bool_decide (k = Some c) && q); simpl; [done|].
  destruct (bool_decide (c = blank) && negb q); simpl; [destruct u as [|d u]; simpl; [done|]|].
  - intros H1 _. split; [etrans; [|exact H1]; by eexists|]. intros _. exists [].
    destruct H1 as [l ->]. rewrite app_nil_r, !elem_of_app. left. right. by left.
  - intros H1 H2. split; [done|]. intros _. destruct H2 as [b Hb]; [by destruct u|].
    exists (c :: b). by rewrite <-(assoc_L (++)) in Hb.
Qed.
(** A clean part of a text between commas is a part of one of its words. *)
Lemma part_in_word p s : clean p → p ≠ [] → p ∈ split_on comma s →
  ∃ w, w ∈ split_arg_string s ∧ p ∈ split_on comma w.
Proof.
  intros Hp Hne (a & b & -> & Ha & Hb)%split_on_between.
  assert (Forall plain p ∧ comma ∉ p) as [Hpl Hc].
  { unfold clean in Hp. rewrite Forall_and in Hp. destruct Hp as [? Hp]. split; [done|].
    intros Hin. rewrite Forall_forall in Hp. by destruct (Hp _ Hin). }
  assert (plain comma) as Hcomma by (apply (bool_decide_unpack _); by vm_compute).
  unfold split_arg_string. set (s0 := Scan [] [] false None).
  assert (∀ s, scan_ok s → (cur s = [] ∨ ∃ a', cur s = a' ++ [comma]) →
    ∃ w, w ∈ finish (foldl scan_char s (p ++ b)) ∧ p ∈ split_on comma w) as Hrest.
  { intros s Hs Hcur. rewrite foldl_app, (scan_plain s p) by done.
    set (s1 := Scan (found s) (cur s ++ p) (in_quote s) (quote_char s)).
    assert (scan_ok s1) as Hs1 by done. destruct Hb as [->|[b' ->]].
    - exists (cur s ++ p). split; [apply (finish_keeps s1); by destruct (cur s)|].
      rewrite <-(app_nil_r p) at 2. apply between_split_on; [done|]. by split; [|left].
    - change (comma :: b') with ([comma] ++ b'). rewrite foldl_app, (scan_plain s1 [comma]) by auto.
      destruct (scan_keeps (Scan (found s1) (cur s1 ++ [comma]) (in_quote s1) (quote_char s1)) b' Hs1) as [_ [w Hw]].
      { simpl. intros [_ ?]%app_eq_nil. done. }
      exists (cur s ++ p ++ comma :: w). split.
      { replace (cur s ++ p ++ comma :: w) with (((cur s ++ p) ++ [comma]) ++ w) by (by rewrite <-!(assoc_L (++))). exact Hw. }
      apply between_split_on; [done|]. split; [done|right; by eexists]. }
  rewrite foldl_app. apply Hrest; [by apply scan_text_ok|].
  destruct Ha as [->|[a' ->]]; [by left|right]. rewrite foldl_app, scan_plain; [by eexists| |by constructor].
  by apply scan_text_ok.
Qed.

(* ------------------------------------------------------------------ *)
(** ** The ports are opened *)

(** [xs] stands somewhere in [l], in one piece. *)
Definition infix {A} (xs l : list A) : Prop := ∃ a b, l = a ++ xs ++ b.
Lemma infix_app_l {A} (xs l l' : list A) : infix xs l' → infix xs (l ++ l').
Proof. intros (a & b & ->). exists (l ++ a), b. by rewrite <-(assoc_L (++)). Qed.
Lemma infix_app_r {A} (xs l l' : list A) : infix xs l → infix xs (l ++ l').
Proof. intros (a & b & ->). exists a, (b ++ l'). by rewrite <-!(assoc_L (++)). Qed.
Lemma infix_cons {A} (xs l : list A) x : infix xs l → infix xs (x :: l).
Proof. apply (infix_app_l _ [x]). Qed.
Lemma infix_refl {A} (xs : list A) : infix xs xs.
Proof. exists [], []. by rewrite app_nil_r. Qed.
Lemma elem_infix {A} (x : A) xs l : x ∈ xs → infix xs l → x ∈ l.
Proof. intros Hx (a & b & ->). set_solver. Qed.
#[local] Hint Resolve infix_app_l infix_app_r infix_cons infix_refl : core.

(** Two plain words. *)
Lemma split_two (a b : text) : Forall plain a → Forall plain b → a ≠ [] → b ≠ [] →
  split_arg_string (a ++ blank :: b) = [a; b].
Proof.
  intros Ha Hb Hna Hnb. pose proof (args_scan [] [[Bare a]; [Bare b]]) as H.
  unfold split_arg_string. unfold arg_shown, arg_text in H. simpl in H. rewrite !app_nil_r in H.
  rewrite H by (by repeat constructor). rewrite !filter_cons.
  by rewrite !decide_True by done.
Qed.

Section honours.
Context {W : Type}.
Implicit Types w : W.
Lemma add_args_ret hd fwds args w ws w' : add_args hd fwds args w = (Ret ws, w') →
  w' = w ∧ ∀ k v, (k, v) ∈ args → ∃ u, arg_words hd fwds k v w = (Ret u, w) ∧ infix u ws.
Proof.
  assert (∀ k v, (arg_words hd fwds k v w).2 = w) as Hkeep.
  { intros k v. unfold arg_words. by repeat case_match. }
  revert ws. induction args as [|[k v] args IH]; intros ws; simpl.
  { intros [= <- <-]. split; [done|]. by intros ?? ?%not_elem_of_nil. }
  unfold mbind, M_bind. specialize (Hkeep k v).
  destruct (arg_words hd fwds k v w) as [[u|x|] w1] eqn:Hu; simpl in Hkeep; subst w1; [|done..].
  destruct (add_args hd fwds args w) as [[rest|x|] w1] eqn:Hr; [|done..]. intros [= <- <-].
  destruct (IH _ eq_refl) as [-> Hin]. split; [done|]. intros k' v' [[= -> ->]|Hkv]%elem_of_cons; [by eauto|].
  destruct (Hin _ _ Hkv) as (u' & Hu' & Hi). eauto.
Qed.
Lemma network_words hd fwds v w u f : arg_words hd fwds "network" (JStr v) w = (Ret u, w) →
  strip (txt v) ≠ [] → f ∈ fwds → Forall (λ f, clause f ∧ clean f ∧ f ≠ []) fwds →
  ∃ wd, wd ∈ u ∧ f ∈ split_on comma wd.
Proof.
  unfold arg_words. intros Hu Hne Hf Hall.
  assert (json_truth (JStr v) = true) as Ht.
  { simpl. rewrite bool_decide_eq_false_2; [done|]. by intros ->. }
  rewrite Ht in Hu. destruct (strip (txt v)); [done|]. simpl in Hu. injection Hu as <-.
  assert (Forall clause fwds) as Hcl by (eapply Forall_impl; [exact Hall|naive_solver]).
  rewrite Forall_forall in Hall. destruct (Hall f Hf) as (_ & Hclean & Hfne).
  apply part_in_word; [done..|]. rewrite inject_parts, elem_of_app by done.
  destruct (decide (f ∈ split_on comma (txt v))); [by left|right]. by apply list_elem_of_filter.
Qed.
Lemma display_none_words : split_arg_string (txt "-display none") = [txt "-display"; txt "none"].
Proof. vm_compute. reflexivity. Qed.
Lemma display_words fwds v w u : arg_words true fwds "display" (JStr v) w = (Ret u, w) →
  strip (txt v) ≠ [] → u = [txt "-display"; txt "none"].
Proof.
  intros Hu Hne. rewrite <-display_none_words. unfold arg_words in Hu.
  assert (json_truth (JStr v) = true) as Ht.
  { simpl. rewrite bool_decide_eq_false_2; [done|]. by intros ->. }
  rewrite Ht in Hu. destruct (strip (txt v)); [done|]. revert Hu.
  change (bool_decide ("display"%string ∈ DROPPED_ARG_KEYS)) with false.
  change (bool_decide ("display" = "display")%string && true) with true. cbv iota.
  generalize (split_arg_string (txt "-display none")). by intros ws [= <-].
Qed.

(** The port of an enabled channel. *)
Definition mcpd_port (t : TargetConfig) (p : Z) : Prop :=
  ∃ ch, mcpd (channels t) = Some ch ∧ mcpd_enabled ch = true ∧ endpoint_port (mcpd_endpoint ch) = Ret p.
Definition discovery_of (t : TargetConfig) (p : Z) : Prop :=
  ∃ ch q, mcpd (channels t) = Some ch ∧ mcpd_enabled ch = true ∧ endpoint_port (mcpd_endpoint ch) = Ret q ∧
    p = default q (discovery_port ch).
Definition qmp_port (t : TargetConfig) (h : string) (p : Z) : Prop :=
  ∃ ch, qmp (channels t) = Some ch ∧ qmp_enabled ch = true ∧ endpoint_port (qmp_endpoint ch) = Ret p ∧
    h = endpoint_host (qmp_endpoint ch).
Definition gdb_port (t : TargetConfig) (p : Z) : Prop :=
  ∃ ch, gdb (channels t) = Some ch ∧ gdb_enabled ch = true ∧ endpoint_port (gdb_endpoint ch) = Ret p.

(** What holds of a channel that is not there, or not enabled. *)
#[local] Ltac no_port :=
  intros; repeat match goal with
                 | |- _ ↔ _ => split; intros
                 | H : ∃ _, _ |- _ => destruct H
                 | H : _ ∧ _ |- _ => destruct H
                 end; solve [constructor | congruence].
Lemma forwards_ret t w fwds pm pd w' : forwards t w = (Ret (fwds, pm, pd), w') →
  w' = w ∧ Forall (λ f, clause f ∧ clean f ∧ f ≠ []) fwds ∧
  (∀ p, pm = Some p ↔ mcpd_port t p) ∧ (∀ p, pm = Some p → hostfwd "tcp" p GUEST_PORT_MCPD ∈ fwds) ∧
  (∀ p, pd = Some p ↔ discovery_of t p) ∧ (∀ p, pd = Some p → hostfwd "udp" p GUEST_PORT_DISCOVERY ∈ fwds).
Proof.
  unfold forwards, mcpd_port, discovery_of.
  destruct (mcpd (channels t)) as [ch|]; [|by intros [= <- <- <- <-]; split_and!; no_port].
  destruct (mcpd_enabled ch) eqn:Hen; [|by intros [= <- <- <- <-]; split_and!; no_port].
  unfold mbind, M_bind, lift. destruct (endpoint_port (mcpd_endpoint ch)) as [q|x|] eqn:Hq; [|done..].
  intros [= <- <- <- <-].
  assert (∀ a h g, clean (txt a) → clause (hostfwd a h g) ∧ clean (hostfwd a h g) ∧ hostfwd a h g ≠ []) as Hc.
  { intros. split_and!; [by apply hostfwd_clause|by apply hostfwd_clean|done]. }
  assert (clean (txt "tcp") ∧ clean (txt "udp")) as [H1 H2] by (split; apply (bool_decide_unpack _); by vm_compute).
  split_and!; [done|constructor; [by apply Hc|]; constructor; [by apply Hc|done]| | | |].
  - intros p. split; [intros [= <-]; by exists ch|intros (? & [= <-] & _ & ?); congruence].
  - intros p [= <-]. by left.
  - intros p. split; [intros [= <-]; by exists ch, q|intros (? & ? & [= <-] & _ & ? & ->); congruence].
  - intros p [= <-]. right. by left.
Qed.
Definition qmp_word (h : string) (p : Z) : text :=
  txt "tcp:" ++ txt h ++ txt ":" ++ show_int p ++ txt ",server=on,wait=off".
Lemma qmp_arg_ret t w a p w' : qmp_arg t w = (Ret (a, p), w') →
  w' = w ∧ (∀ q, p = Some q ↔ ∃ h, qmp_port t h q) ∧
  ∀ h q, qmp_port t h q → Forall plain (txt h) → opt_words a = [txt "-qmp"; qmp_word h q].
Proof.
  unfold qmp_arg, qmp_port.
  destruct (qmp (channels t)) as [ch|]; [|by intros [= <- <- <-]; split_and!; no_port].
  destruct (qmp_enabled ch) eqn:Hen; [|by intros [= <- <- <-]; split_and!; no_port].
  unfold mbind, M_bind, lift. destruct (endpoint_port (qmp_endpoint ch)) as [q|x|] eqn:Hq; [|done..].
  intros [= <- <- <-]. split_and!; [done| |].
  - intros r. split; [intros [= <-]; by eexists _, ch|intros (? & ? & [= <-] & _ & ? & _); congruence].
  - intros h r (ch' & [= <-] & _ & Hr & ->) Hh. assert (r = q) as -> by congruence.
    apply (split_two (txt "-qmp") (qmp_word _ q)); unfold qmp_word; [..|done|done].
    1: apply (bool_decide_unpack _); by vm_compute.
    rewrite !Forall_app. split_and!; [..|eapply Forall_impl; [apply (show_int_clean q)|naive_solver]|]; try done.
    all: apply (bool_decide_unpack _); by vm_compute.
Qed.
Lemma gdb_arg_ret t w a p w' : gdb_arg t w = (Ret (a, p), w') →
  w' = w ∧ (∀ q, p = Some q ↔ gdb_port t q) ∧
  ∀ q, gdb_port t q → opt_words a = [txt "-gdb"; txt "tcp::" ++ show_int q].
Proof.
  unfold gdb_arg, gdb_port.
  destruct (gdb (channels t)) as [ch|]; [|by intros [= <- <- <-]; split_and!; no_port].
  destruct (gdb_enabled ch) eqn:Hen; [|by intros [= <- <- <-]; split_and!; no_port].
  unfold mbind, M_bind, lift. destruct (endpoint_port (gdb_endpoint ch)) as [q|x|] eqn:Hq; [|done..].
  intros [= <- <- <-]. split_and!; [done| |].
  - intros r. split; [intros [= <-]; by exists ch|intros (? & [= <-] & _ & ?); congruence].
  - intros r (ch' & [= <-] & _ & Hr). assert (r = q) as -> by congruence.
    apply (split_two (txt "-gdb") (txt "tcp::" ++ show_int q)); [..|done|done].
    1: apply (bool_decide_unpack _); by vm_compute.
    rewrite Forall_app. split; [apply (bool_decide_unpack _); by vm_compute|].
    eapply Forall_impl; [apply (show_int_clean q)|naive_solver].
Qed.
End honours.

(** the ports that [build_cmdline] reports are the ports of the enabled
    channels of the target, and the command line opens them: QMP and GDB as
    two words of their own (for a QMP host written in plain characters), MCPd
    and discovery as [hostfwd] clauses of a word of the [network] argument,
    when the machine's file has one; a headless target has [-display none] in
    place of its [display] argument. *)
Theorem build_cmdline_opens_ports {W} (load : string → M W exn (option json)) bin path t h w argv ports w' :
  build_cmdline load bin path t h w = (Ret (argv, ports), w') →
  ((∀ p, port_mcpd ports = Some p ↔ mcpd_port t p) ∧ (∀ p, port_discovery ports = Some p ↔ discovery_of t p) ∧
   (∀ p, port_qmp ports = Some p ↔ ∃ h, qmp_port t h p) ∧ (∀ p, port_gdb ports = Some p ↔ gdb_port t p)) ∧
  head argv = Some (txt bin) ∧
  (∀ h p, qmp_port t h p → Forall plain (txt h) → infix [txt "-qmp"; qmp_word h p] argv) ∧
  (∀ p, gdb_port t p → infix [txt "-gdb"; txt "tcp::" ++ show_int p] argv) ∧
  ∃ kyvos args, load path w = (Ret (Some kyvos), w') ∧ get_or "args" (JObj []) kyvos = Ret (JObj args) ∧
    (∀ v, ("network"%string, JStr v) ∈ args → strip (txt v) ≠ [] →
      (∀ p, mcpd_port t p → ∃ wd, wd ∈ argv ∧ hostfwd "tcp" p GUEST_PORT_MCPD ∈ split_on comma wd) ∧
      (∀ p, discovery_of t p → ∃ wd, wd ∈ argv ∧ hostfwd "udp" p GUEST_PORT_DISCOVERY ∈ split_on comma wd)) ∧
    (∀ v, default (headless t) h = true → ("display"%string, JStr v) ∈ args → strip (txt v) ≠ [] →
      infix [txt "-display"; txt "none"] argv).
Proof.
  unfold build_cmdline, mbind, M_bind. destruct (load path w) as [[[kyvos|]|x|] w1]; [|done..].
  unfold lift. destruct (get_or "args" (JObj []) kyvos) as [args|x|] eqn:Hargs; [|done..].
  destruct (forwards t w1) as [[[[fwds pm] pd]|x|] w2] eqn:Hf; [|done..].
  destruct (qmp_arg t w2) as [[[qa pq]|x|] w3] eqn:Hq; [|done..].
  destruct (gdb_arg t w3) as [[[ga pg]|x|] w4] eqn:Hg; [|done..].
  destruct args as [| | | | |args]; [done..|].
  destruct (add_args _ _ args w4) as [[ws|x|] w5] eqn:Ha; [|done..]. intros [= <- <- <-].
  apply forwards_ret in Hf as (-> & Hcl & Hpm & Hinm & Hpd & Hind).
  apply qmp_arg_ret in Hq as (-> & Hpq & Hqw). apply gdb_arg_ret in Hg as (-> & Hpg & Hgw).
  apply add_args_ret in Ha as [-> Hws]. split; [by split_and!|]. split; [done|].
  split_and!; [intros h' p Hp Hh; rewrite (Hqw h' p) by done; auto|intros p Hp; rewrite (Hgw p) by done; auto|].
  exists kyvos, args. split_and!; [done..| |].
  - intros v Hv Hne. destruct (Hws _ _ Hv) as (u & Hu & Hi).
    assert (∀ f, f ∈ fwds → ∃ wd, wd ∈ txt bin :: ws ++ opt_words qa ++ opt_words ga ∧ f ∈ split_on comma wd) as Hin.
    { intros f Hf. destruct (network_words _ _ _ _ _ f Hu) as (wd & Hwd & Hpart); [done..|].
      exists wd. split; [|done]. eapply elem_infix; [exact Hwd|]. auto. }
    split; intros p Hp; apply Hin; [apply Hinm, Hpm, Hp|apply Hind, Hpd, Hp].
  - intros v Hh Hv Hne. destruct (Hws _ _ Hv) as (u & Hu & Hi). rewrite Hh in Hu.
    apply display_words in Hu; [|done]. subst u. auto.
Qed.

(* ------------------------------------------------------------------ *)
(** ** Examples *)

Definition ex_quoted : list (list piece) :=
  [[Bare (txt "-drive")]; [Bare (txt "file="); Quoted dquote (txt "C:/My Disks/a.hdf")]; [Quoted squote []]; [];
   [Bare (txt "-m")]; [Bare (txt "2048M")]].
(** The empty quoted argument is gone. *)
Lemma split_arg_string_reads_witness :
  split_arg_string (join [blank] (map arg_shown ex_quoted)) =
    map txt ["-drive"; "file=C:/My Disks/a.hdf"; "-m"; "2048M"]%string.
Proof.
  rewrite (split_arg_string_reads ex_quoted); [vm_compute; reflexivity|].
  unfold ex_quoted. repeat (apply Forall_cons; split); try apply Forall_nil; try exact I; simpl.
  all: try (split; [vm_compute; reflexivity|]).
  all: unfold plain; apply (bool_decide_unpack _); vm_compute; exact I.
Defined.

Definition ex_channels : TargetChannels :=
  {| mcpd := Some {| mcpd_enabled := true; mcpd_endpoint := "127.0.0.1:4422"; discovery_port := None |};
     qmp := Some {| qmp_enabled := true; qmp_endpoint := "127.0.0.1:14422" |};
     gdb := None; uboot := None; mcu := None |}%string.
Definition ex_guest (hd : bool) (path : string) : TargetConfig :=
  {| type := Qemu; display_name := None; machine := None; qemu_config := Some path; headless := hd;
     tags := []; sandbox := None; input := None; channels := ex_channels |}.
Definition ex_kyvos (args : list (string * string)) : json :=
  JObj [("args", JObj (map (λ '(k, v), (k, JStr v)) args))]%string.
Definition ex_args : list (string * string) :=
  [("machine", "-M pegasos2"); ("network", "-device rtl8139,netdev=nic -netdev user,id=nic");
   ("display", "-display sdl"); ("pidfile", "-pidfile junk"); ("extra", " ")]%string.
Definition ex_build (args : list (string * string)) : res exn (list text * port_map) :=
  (build_cmdline (W:=unit) (λ _, mret (Some (ex_kyvos args))) "qemu" "p.json" (ex_guest true "p.json") None tt).1.
Definition ex_argv : list text :=
  map txt ["qemu"; "-M"; "pegasos2"; "-device"; "rtl8139,netdev=nic"; "-netdev";
    "user,id=nic,hostfwd=tcp::4422-:4322,hostfwd=udp::4422-:4323"; "-display"; "none";
    "-qmp"; "tcp:127.0.0.1:14422,server=on,wait=off"]%string.
Definition ex_ports : port_map := PortMap (Some 4422) (Some 14422) None (Some 4422).
(** When [-device] comes last the clauses land in it, and a machine without a
    [network] argument has none, though its ports are reported all the same. *)
Example ex_build_device_last : ex_build [("network", "-netdev user,id=nic -device rtl8139,netdev=nic")]%string = Ret
  (map txt ["qemu"; "-netdev"; "user,id=nic"; "-device";
    "rtl8139,netdev=nic,hostfwd=tcp::4422-:4322,hostfwd=udp::4422-:4323";
    "-qmp"; "tcp:127.0.0.1:14422,server=on,wait=off"]%string,
   PortMap (Some 4422) (Some 14422) None (Some 4422)).
Proof. vm_compute. reflexivity. Qed.
Example ex_build_no_network : ex_build [("machine", "-M pegasos2")]%string = Ret
  (map txt ["qemu"; "-M"; "pegasos2"; "-qmp"; "tcp:127.0.0.1:14422,server=on,wait=off"]%string,
   PortMap (Some 4422) (Some 14422) None (Some 4422)).
Proof. vm_compute. reflexivity. Qed.

Lemma inject_hostfwd_idempotent_witness :
  let arg := txt "-netdev user,id=nic,hostfwd=tcp::4322-:4322" in
  let fwds := [hostfwd "tcp" 4322 GUEST_PORT_MCPD; hostfwd "udp" 4322 GUEST_PORT_DISCOVERY] in
  inject_hostfwd arg fwds = arg ++ txt ",hostfwd=udp::4322-:4323" ∧
  inject_hostfwd (inject_hostfwd arg fwds) fwds = inject_hostfwd arg fwds.
Proof.
  split; [vm_compute; reflexivity|]. apply inject_hostfwd_idempotent. unfold clause.
  apply (bool_decide_unpack _). vm_compute. exact I.
Defined.
Lemma build_cmdline_opens_ports_witness :
  ex_build ex_args = Ret (ex_argv, ex_ports) ∧
  (∀ p, mcpd_port (ex_guest true "p.json") p →
     ∃ wd, wd ∈ ex_argv ∧ hostfwd "tcp" p GUEST_PORT_MCPD ∈ split_on comma wd).
Proof.
  split; [vm_compute; reflexivity|].
  destruct (build_cmdline_opens_ports (W:=unit) (λ _, mret (Some (ex_kyvos ex_args))) "qemu" "p.json"
    (ex_guest true "p.json") None tt ex_argv ex_ports tt) as (_ & _ & _ & _ & kyvos & args & Hk & Ha & Hn & _).
  - vm_compute. reflexivity.
  - injection Hk as <-. injection Ha as <-.
    refine (proj1 (Hn "-device rtl8139,netdev=nic -netdev user,id=nic"%string _ _)).
    + apply list_elem_of_In. simpl. tauto.
    + vm_compute. discriminate.
Defined.
