(* ===== verification/Qmp.v ===== *)
(** * The QMP transport: [transports/qmp.py]

    The client of QEMU's control socket (qemu-runner's [QMPClient], a class
    here) behind the transport objects of [Fleet], and the world the QEMU tools
    act on.  One tool call runs at a time, so the lock is not modelled. *)
From S2P Require Import Prelude Py Config Fleet.

(** The calls made on a [QMPClient]. *)
Inductive qmp_op := QStatus | QReset | QQuit | QStop | QCont | QCommand (name : string) (args : list (string * json)).
(** A call made under [asyncio.wait_for] has a deadline, and ends with
    [ECancelled] when it passes. *)
Class QmpClient (E : Type) := {
  client_connect : string → Z → Z → option Z → M E exn nat;
  client_call : nat → qmp_op → option Z → M E exn json;
  client_close : nat → M E exn unit }.

(** What is done to a guest: recorded for the theorems, read by no code. *)
Inductive guest_event :=
| EvFlush (answered : bool)
| EvQmp (op : qmp_op)
| EvTerminate (proc : nat)
| EvKill (proc : nat)
| EvSpawn (argv : list text).

(** The registry, the [_client] of each transport object, the rest of the
    world, and what guests were told. *)
Record host (E : Type) := Host {
  registry : Fleet; clients : gmap nat nat; outer : E; told : list guest_event }.
Arguments Host {E}. Arguments registry {E}. Arguments clients {E}. Arguments outer {E}. Arguments told {E}.

Section lift.
Context {E : Type}.
Abbreviation MQ := (M (host E) exn).
Definition on_fleet {A} (m : MF A) : MQ A := λ w,
  let '(r, f) := m (registry w) in (r, Host f (clients w) (outer w) (told w)).
Definition on_outer {A} (m : M E exn A) : MQ A := λ w,
  let '(r, e) := m (outer w) in (r, Host (registry w) (clients w) e (told w)).
Definition upd_clients (f : gmap nat nat → gmap nat nat) : MQ unit :=
  modify (λ w, Host (registry w) (f (clients w)) (outer w) (told w)).
Definition note (ev : guest_event) : MQ unit :=
  modify (λ w, Host (registry w) (clients w) (outer w) (told w ++ [ev])).
End lift.

(** [asyncio.wait_for(m, t)], for an [m] that was given the deadline. *)
Definition wait_for {W A} (m : M W exn A) : M W exn A :=
  catch m (λ e, if e is ECancelled then raise (EOS TimeoutError "") else raise e).

Section transport.
Context {E : Type} `{QmpClient E}.
Abbreviation MQ := (M (host E) exn).

Definition ensure_connected (t : pooled) (deadline : option Z) : MQ nat :=
  known ← gets (λ w, clients w !! obj t);
  match known with
  | Some c => mret c
  | None =>
      port ← lift (endpoint_port (endpoint t));
      c ← catch (on_outer (client_connect (endpoint_host (endpoint t)) port 5000 deadline))
            (λ e, match e with
                  | EOS _ s => raise (ERpc TargetError
                      (Some (JObj [("endpoint", JStr (endpoint t)); ("error", JStr s)])))
                  | _ => raise e
                  end);
      upd_clients (<[obj t := c]>);;
      mret c
  end.
(** [close] *)
Definition qmp_close (t : pooled) : MQ unit :=
  known ← gets (λ w, clients w !! obj t);
  match known with
  | Some c => on_outer (client_close c);; upd_clients (delete (obj t))
  | None => mret tt
  end.
Definition call (c : nat) (op : qmp_op) (deadline : option Z) : MQ json :=
  note (EvQmp op);; on_outer (client_call c op deadline).
Definition on_client (t : pooled) (op : qmp_op) (deadline : option Z) : MQ json :=
  c ← ensure_connected t deadline; call c op deadline.
Definition query_status (t : pooled) (deadline : option Z) : MQ json := on_client t QStatus deadline.
Definition system_reset (t : pooled) : MQ json := on_client t QReset None.
Definition quit (t : pooled) (deadline : option Z) : MQ json :=
  c ← ensure_connected t deadline;
  finally (call c QQuit deadline) (on_outer (client_close c);; upd_clients (delete (obj t))).
Definition stop_cpu (t : pooled) : MQ json := on_client t QStop None.
Definition cont_cpu (t : pooled) : MQ json := on_client t QCont None.
Definition command (t : pooled) (name : string) (args : list (string * json)) : MQ json :=
  on_client t (QCommand name args) None.
Definition screendump (t : pooled) (host_path : string) : MQ json :=
  command t "screendump" [("filename", JStr host_path); ("format", JStr "png")].
Definition hmp (t : pooled) (line : string) : MQ string :=
  resp ← command t "human-monitor-command" [("command-line", JStr line)];
  out ← lift (get_or "return" (JStr "") resp);
  mret (match out with JStr s => s | _ => ""%string end).
End transport.
