(* ===== verification/Qemu.v ===== *)
(** * QEMU guests: [tools/qemu.py]

    Starting, stopping, resetting, watching and photographing the guest of a
    target.  Times are in milliseconds. *)
From S2P Require Import Prelude Py Bytes Config Net Fleet Archive Cmdline Qmp.

(** What the tools need besides QMP, children ([Outside]) and TCP probes: the
    MCPd transport, the clock, [subprocess.Popen] and files of the host. *)
Class QemuHost (E : Type) := {
  mcpd_request : pooled → string → json → option Z → M E exn json;
  last_write_at : pooled → E → option Z;
  mono : E → Z;
  unix_time : E → Z;
  asleep : Z → M E exn unit;
  pid : nat → Z;
  load_json : string → M E exn (option json);
  make_dirs : string → M E exn unit;
  open_log : string → M E exn nat;
  close_log : nat → M E exn unit;
  popen : list text → string → nat → M E exn nat;
  folder_at : string → E → folder;
  set_folder : string → folder → E → E;
  undeletable : string → string → bool;
  parent : string → string;
  mkstemp : M E exn string;
  file_size : string → E → option Z;
  read_bytes : string → M E exn bytes;
  unlink : string → M E exn unit }.

Record start_result := StartResult {
  sr_target : string; sr_pid : Z; sr_ports : port_map; sr_cmdline : list text; sr_serial_log : string }.
(** How durability was handled: the strings ["fs.sync"], ["nothing-written"],
    ["skipped"], ["already-elapsed"] and ["waited-Ns"]. *)
Inductive settled := FsSync | NothingWritten | Skipped | AlreadyElapsed | Waited (ms : Z).
Inductive stop_method := ByQmp | QmpUnowned | ByTerminate | ByKill | AlreadyStopped.
Record stop_result := StopResult {
  st_target : string; st_settled : settled; st_method : stop_method; st_exit_code : option Z }.
Record status_result := StatusResult {
  qs_target : string; running : bool; owned : bool; qs_pid : option Z; qmp_status : option json;
  mcpd_reachable : option bool }.
Inductive reset_method := StopStart | SystemReset.
Record reset_result := ResetResult { rr_target : string; rr_method : reset_method; response : json; rr_pid : option Z }.
Record screenshot_result := ScreenshotResult {
  ss_target : string; ss_size : Z; image_b64 : text; saved_to : option string }.

Section qemu.
Context {E : Type} `{Outside E, Tcp E, QmpClient E, QemuHost E}.
Abbreviation MQ := (M (host E) exn).

Definition target_cfg (target : string) : MQ TargetConfig :=
  f ← gets registry; lift (target_config f target).

(** [_can_connect(ch.host, ch.port, 1.0)] *)
Definition can_connect (ep : string) : MQ bool :=
  port ← lift (endpoint_port ep);
  catch (on_outer (tcp_connect (endpoint_host ep) port 1000);; mret true)
    (λ e, if is_oserror e then mret false else raise e).
(** ... of a channel that is there and enabled *)
Definition mcpd_answers (cfg : TargetConfig) : MQ bool :=
  match mcpd (channels cfg) with
  | Some ch => if mcpd_enabled ch then can_connect (mcpd_endpoint ch) else mret false
  | None => mret false
  end.
Definition qmp_answers (cfg : TargetConfig) : MQ bool :=
  match qmp (channels cfg) with
  | Some ch => if qmp_enabled ch then can_connect (qmp_endpoint ch) else mret false
  | None => mret false
  end.

(* ------------------------------------------------------------------ *)
(** ** Start *)

(** One turn of the loop over the two channels. *)
Definition refuse_listening (target label : string) (ep : option string) (answers : MQ bool) : MQ unit :=
  up ← answers;
  if up : bool then
    port ← lift (endpoint_port (default "" ep));
    raise (ERpc TargetError (Some (JObj [("target", JStr target); ("port", JNum port); ("channel", JStr label)])))
  else mret tt.
Definition serial_dir (root target : string) : string := root +:+ "/serial-logs/" +:+ target.
Definition in_folder {A} (dir : string) (m : M folder exn A) : MQ A := on_outer (λ e,
  let '(r, d) := m (folder_at dir e) in (r, set_folder dir d e)).
(** The pruning of [qemu_start]: a count, a byte budget, or both. *)
Definition prune_serial (c : ServerConfig) (dir : string) : MQ unit :=
  let keep := serial_log_keep c in
  let budget_mb := serial_log_max_total_mb c in
  if (match keep with Some k => 0 <? k | None => false end) || bool_decide (budget_mb ≠ None) then
    in_folder dir (prune_logs (undeletable dir) (default 0 keep) is_log
                     ((λ mb, mb * 1024 * 1024) <$> budget_mb));;
    mret tt
  else mret tt.
Definition spawn (argv : list text) (cwd : string) (stdout : nat) : MQ nat :=
  note (EvSpawn argv);; on_outer (popen argv cwd stdout).

Definition qemu_start (target : string) : MQ start_result :=
  f ← gets registry;
  cfg ← lift (target_config f target);
  if decide (type cfg = Remote) then
    raise (ERpc InvalidParams (Some (JObj [("target", JStr target); ("type", JStr "remote")])))
  else
  match qemu_config cfg with
  | None => raise (ERpc InvalidParams (Some (JObj [("target", JStr target)])))
  | Some kyvos =>
  match qemu_binary (paths (config f)) with
  | None => raise (ERpc InvalidParams None)
  | Some binary =>
      existing ← on_fleet (qemu_process target);
      e ← gets outer;
      match existing with
      | Some p => if decide (poll p e = None)
                  then raise (ERpc TargetError (Some (JObj [("pid", JNum (pid p))]))) else mret tt
      | None => mret tt
      end;;
      refuse_listening target "mcpd" (mcpd_endpoint <$> mcpd (channels cfg)) (mcpd_answers cfg);;
      refuse_listening target "qmp" (qmp_endpoint <$> qmp (channels cfg)) (qmp_answers cfg);;
      '(cmd, ports) ← on_outer (build_cmdline load_json binary kyvos cfg None);
      let dir := serial_dir (archive_root (server (config f))) target in
      on_outer (make_dirs dir);;
      now ← gets (λ w, unix_time (outer w));
      let log_path := dir +:+ "/" +:+ str (show_int now) +:+ ".log" in
      prune_serial (server (config f)) dir;;
      fh ← on_outer (open_log log_path);
      proc ← finally (spawn cmd (parent binary) fh) (on_outer (close_log fh));
      on_fleet (register_qemu_process target proc (Some log_path));;
      mret (StartResult target (pid proc) ports cmd log_path)
  end end.

(* ------------------------------------------------------------------ *)
(** ** Stop *)

Definition DEFAULT_SETTLE : Z := 10000.

(** The transport to flush through: the pooled one, or a new one when MCPd
    accepts a connection. *)
Definition flush_transport (target : string) : MQ (option pooled) :=
  t ← on_fleet (mcpd_if_connected target);
  match t with
  | Some t => mret (Some t)
  | None =>
      cfg ← target_cfg target;
      up ← mcpd_answers cfg;
      if up : bool then Some <$> on_fleet (fleet_mcpd target) else mret None
  end.
(** The [fs.sync] request; what answers it is recorded. *)
Definition flush (t : pooled) : MQ bool :=
  ok ← catch (on_outer (wait_for (mcpd_request t "fs.sync" (JObj [("path", JStr "SYS:")]) (Some 30000)));; mret true)
         (λ e, if is_exception e then mret false else raise e);
  note (EvFlush ok);; mret ok.
Definition settle_before_stop (target : string) (settle : Z) : MQ settled :=
  t ← flush_transport target;
  match t with
  | None => mret NothingWritten
  | Some t =>
      ok ← flush t;
      if ok : bool then mret FsSync
      else
        wrote ← gets (λ w, last_write_at t (outer w));
        match wrote with
        | None => mret NothingWritten
        | Some at_ =>
            if settle <=? 0 then mret Skipped
            else
              now ← gets (λ w, mono (outer w));
              let remaining := settle - (now - at_) in
              if remaining <=? 0 then mret AlreadyElapsed
              else on_outer (asleep remaining);; mret (Waited remaining)
        end
  end.

Definition unowned (target : string) : exn :=
  ERpc TargetError (Some (JObj [("target", JStr target); ("owned", JBool false)])).
(** [except (TimeoutError, TargetError)] *)
Definition timeout_or_target (e : exn) : bool := is_timeout e || is_target_error e.
Definition stop_unowned (target : string) (qmp_timeout : Z) : MQ stop_method :=
  cfg ← target_cfg target;
  qmp_up ← qmp_answers cfg;
  if qmp_up : bool then
    catch (t ← on_fleet (fleet_qmp target); wait_for (quit t (Some qmp_timeout));; mret QmpUnowned)
      (λ e, if timeout_or_target e then raise (unowned target) else raise e)
  else
    reachable ← mcpd_answers cfg;
    if reachable : bool then raise (unowned target) else mret AlreadyStopped.

Definition ask_quit (target : string) (qmp_timeout : Z) : MQ stop_method :=
  cfg ← target_cfg target;
  match qmp (channels cfg) with
  | Some ch =>
      if qmp_enabled ch then
        t ← on_fleet (fleet_qmp target);
        catch (wait_for (quit t (Some qmp_timeout));; mret ByQmp)
          (λ e, if timeout_or_target e then mret ByTerminate else raise e)
      else mret ByTerminate
  | None => mret ByTerminate
  end.
(** The polling loop: the exit code, if the process goes by itself. *)
Fixpoint await_exit (n : nat) (proc : nat) : MQ (option Z) :=
  match n with
  | O => mret None
  | S n =>
      code ← gets (λ w, poll proc (outer w));
      match code with
      | Some c => mret (Some c)
      | None => on_outer (asleep 500);; await_exit n proc
      end
  end.
(** [proc.wait(5)], which returns the exit code. *)
Definition wait_exit (proc : nat) : MQ (option Z) :=
  on_outer (wait proc 5000);; gets (λ w, poll proc (outer w)).
Definition end_process (target : string) (proc : nat) (qmp_timeout : Z) : MQ (stop_method * option Z) :=
  method ← ask_quit target qmp_timeout;
  exited ← await_exit (Z.to_nat (qmp_timeout / 500)) proc;
  match exited with
  | Some code => mret (method, Some code)
  | None =>
      note (EvTerminate proc);; on_outer (terminate proc);;
      catch (code ← wait_exit proc; mret (ByTerminate, code))
        (λ e, if is_timeout_expired e then
                note (EvKill proc);; on_outer (kill proc);;
                code ← wait_exit proc; mret (ByKill, code)
              else raise e)
  end.
(** What [qemu_stop] does after settling. *)
Definition stop_guest (target : string) (qmp_timeout : Z) : MQ (stop_method * option Z) :=
  proc ← on_fleet (qemu_process target);
  match proc with
  | None => method ← stop_unowned target qmp_timeout; mret (method, None)
  | Some proc =>
      code ← gets (λ w, poll proc (outer w));
      match code with
      | Some rc => on_fleet (drop_qemu_process target);; mret (AlreadyStopped, Some rc)
      | None => finally (end_process target proc qmp_timeout) (on_fleet (drop_qemu_process target))
      end
  end.
Definition qemu_stop (target : string) (qmp_timeout : Z) (settle : option Z) : MQ stop_result :=
  how ← settle_before_stop target (default DEFAULT_SETTLE settle);
  '(method, code) ← stop_guest target qmp_timeout;
  mret (StopResult target how method code).

(* ------------------------------------------------------------------ *)
(** ** Reset, status, screenshot *)

Definition qemu_reset (target : string) (raw : bool) : MQ reset_result :=
  if raw then
    t ← on_fleet (fleet_qmp target);
    resp ← system_reset t;
    mret (ResetResult target SystemReset resp None)
  else
    qemu_stop target 10000 None;;
    on_outer (asleep 2000);;
    started ← qemu_start target;
    mret (ResetResult target StopStart (JObj [("stopped", JBool true); ("started", JBool true)]) (Some (sr_pid started))).

Definition qemu_status (target : string) : MQ status_result :=
  cfg ← target_cfg target;
  proc ← on_fleet (qemu_process target);
  e ← gets outer;
  let owned := match proc with Some p => bool_decide (poll p e = None) | None => false end in
  let pid := if owned then pid <$> proc else None in
  qmp_up ← qmp_answers cfg;
  mcpd_up ← mcpd_answers cfg;
  qmp_status ←
    (if qmp_up : bool then
       catch (t ← on_fleet (fleet_qmp target); Some <$> wait_for (query_status t (Some 3000)))
         (λ e, if timeout_or_target e then mret None else raise e)
     else mret None);
  mcpd_reachable ←
    match mcpd (channels cfg) with
    | Some ch => if mcpd_enabled ch then Some <$> can_connect (mcpd_endpoint ch) else mret None
    | None => mret None
    end;
  mret (StatusResult target (owned || qmp_up || mcpd_up) owned pid qmp_status mcpd_reachable).

Definition has_bytes (out : string) (e : E) : bool :=
  match file_size out e with Some n => 0 <? n | None => false end.
(** The wait for the picture to be written. *)
Fixpoint await_bytes (n : nat) (out : string) : MQ unit :=
  match n with
  | O => mret tt
  | S n =>
      there ← gets (λ w, has_bytes out (outer w));
      if there : bool then mret tt else on_outer (asleep 50);; await_bytes n out
  end.
Definition qemu_screenshot (target : string) (save_path : option string) : MQ screenshot_result :=
  t ← on_fleet (fleet_qmp target);
  let given := truthy save_path in
  out ← match given with Some p => mret p | None => on_outer mkstemp end;
  finally
    (screendump t out;;
     await_bytes 20 out;;
     there ← gets (λ w, has_bytes out (outer w));
     if negb there then raise (ERpc InternalError None)
     else
       data ← on_outer (read_bytes out);
       mret (ScreenshotResult target (Z.of_nat (length data)) (b64_encode data) given))
    (match given with
     | Some _ => mret tt
     | None => catch (on_outer (unlink out)) (λ e, if is_oserror e then mret tt else raise e)
     end).
End qemu.
