(* ===== verification/QemuProps.v ===== *)
(** * What the QEMU tools guarantee

    A guest is started only where none runs, and stopped only after its
    writes were flushed or could not be; a stop that answers has stopped it. *)
From S2P Require Import Prelude Py Bytes Config Net Fleet Archive Cmdline Qmp Qemu.

(** The events told since are all [P]s. *)
Definition tells {E} (P : guest_event → Prop) : relation (host E) := λ w w',
  ∃ evs, told w' = told w ++ evs ∧ Forall P evs.
#[export] Instance tells_preorder {E} P : PreOrder (@tells E P).
Proof.
  split; [intros w; exists []; by rewrite app_nil_r|].
  intros w1 w2 w3 (a & Ha & HPa) (b & Hb & HPb). exists (a ++ b). split; [|by apply Forall_app].
  by rewrite Hb, Ha, <-(assoc_L (++)).
Qed.
Lemma tells_same {E} P (w w' : host E) : told w' = told w → tells P w w'.
Proof. intros Ht. exists []. by rewrite app_nil_r. Qed.
Lemma tells_mono {E} (P Q : guest_event → Prop) (w w' : host E) :
  (∀ ev, P ev → Q ev) → tells P w w' → tells Q w w'.
Proof. intros HPQ (evs & Ht & HP). exists evs. split; [done|]. by eapply Forall_impl. Qed.
Lemma tells_none {E} (w w' : host E) : tells (λ _, False) w w' → told w' = told w.
Proof. intros (evs & Ht & HP). destruct HP; [|done]. by rewrite app_nil_r in Ht. Qed.

(** Children, transports and logs of the registry stay. *)
Definition same_procs {E} : relation (host E) := λ w w', qemu_processes (registry w') = qemu_processes (registry w).
#[export] Instance same_procs_preorder {E} : PreOrder (@same_procs E).
Proof. split; [done|]. intros w1 w2 w3 H1 H2. unfold same_procs in *. congruence. Qed.

Section told.
Context {E : Type} `{Outside E, Tcp E, QmpClient E, QemuHost E} (P : guest_event → Prop).
Abbreviation MQ := (M (host E) exn).
Lemma tells_note ev : P ev → respects (tells P) (note ev : MQ unit).
Proof. intros HP w. exists [ev]. split; [done|]. by constructor. Qed.
Lemma tells_on_fleet {A} (m : MF A) : respects (tells P) (on_fleet m : MQ A).
Proof. intros w. apply tells_same. unfold on_fleet. by destruct (m (registry w)). Qed.
Lemma tells_on_outer {A} (m : M E exn A) : respects (tells P) (on_outer m).
Proof. intros w. apply tells_same. unfold on_outer. by destruct (m (outer w)). Qed.
Lemma tells_upd_clients f : respects (tells P) (upd_clients f : MQ unit).
Proof. intros w. by apply tells_same. Qed.
Lemma tells_wait_for {A} (m : MQ A) : respects (tells P) m → respects (tells P) (wait_for m).
Proof. intros Hm. apply (respects_catch _); [done|]. intros []; respects_tac. Qed.
Hint Resolve tells_on_fleet tells_on_outer tells_upd_clients : respects.
Lemma tells_can_connect ep : respects (tells P) (can_connect ep : MQ bool).
Proof. unfold can_connect. respects_tac. Qed.
Hint Resolve tells_can_connect : respects.
Lemma tells_mcpd_answers cfg : respects (tells P) (mcpd_answers cfg : MQ bool).
Proof. unfold mcpd_answers. respects_tac. Qed.
Lemma tells_qmp_answers cfg : respects (tells P) (qmp_answers cfg : MQ bool).
Proof. unfold qmp_answers. respects_tac. Qed.
Lemma tells_ensure_connected t d : respects (tells P) (ensure_connected t d : MQ nat).
Proof. unfold ensure_connected. respects_tac. Qed.
Hint Resolve tells_mcpd_answers tells_qmp_answers tells_ensure_connected : respects.
Lemma tells_on_client t op d : P (EvQmp op) → respects (tells P) (on_client t op d : MQ json).
Proof. intros HP. unfold on_client, call. respects_tac. by apply tells_note. Qed.
Lemma tells_quit t d : P (EvQmp QQuit) → respects (tells P) (quit t d : MQ json).
Proof. intros HP. unfold quit, call. respects_tac. by apply tells_note. Qed.
Lemma tells_flush_transport target : respects (tells P) (flush_transport target : MQ (option pooled)).
Proof. unfold flush_transport, target_cfg. respects_tac. Qed.
Lemma tells_await_exit n p : respects (tells P) (await_exit n p : MQ (option Z)).
Proof. induction n as [|n IH]; simpl; respects_tac; done. Qed.
Lemma tells_wait_exit p : respects (tells P) (wait_exit p : MQ (option Z)).
Proof. unfold wait_exit. respects_tac. Qed.
Lemma tells_stop_unowned target d : P (EvQmp QQuit) → respects (tells P) (stop_unowned target d : MQ stop_method).
Proof.
  intros HP. unfold stop_unowned, target_cfg. respects_tac; by apply tells_wait_for, tells_quit.
Qed.
Lemma tells_ask_quit target d : P (EvQmp QQuit) → respects (tells P) (ask_quit target d : MQ stop_method).
Proof. intros HP. unfold ask_quit, target_cfg. respects_tac; by apply tells_wait_for, tells_quit. Qed.
Lemma tells_stop_guest target d : P (EvQmp QQuit) → (∀ p, P (EvTerminate p) ∧ P (EvKill p)) →
  respects (tells P) (stop_guest target d : MQ (stop_method * option Z)).
Proof.
  intros HP Hp. unfold stop_guest, end_process. respects_tac.
  all: first [by apply tells_stop_unowned|by apply tells_ask_quit|apply tells_await_exit|apply tells_wait_exit
             |by apply tells_note, Hp|idtac].
Qed.
End told.

Section procs.
Context {E : Type} `{Outside E, Tcp E, QmpClient E, QemuHost E}.
Abbreviation MQ := (M (host E) exn).
Lemma procs_on_outer {A} (m : M E exn A) : respects same_procs (on_outer m).
Proof. intros w. unfold same_procs, on_outer. by destruct (m (outer w)). Qed.
Lemma procs_note ev : respects same_procs (note ev : MQ unit).
Proof. done. Qed.
Lemma procs_upd_clients f : respects same_procs (upd_clients f : MQ unit).
Proof. done. Qed.
Lemma procs_on_fleet {A} (m : MF A) :
  (∀ f, qemu_processes (m f).2 = qemu_processes f) → respects same_procs (on_fleet m : MQ A).
Proof. intros Hm w. unfold same_procs, on_fleet. specialize (Hm (registry w)). by destruct (m (registry w)). Qed.
Lemma procs_fleet_mcpd t : respects same_procs (on_fleet (fleet_mcpd t) : MQ pooled).
Proof. apply procs_on_fleet. intros f. by destruct (fleet_mcpd_spec t f) as (o & _ & ->). Qed.
Lemma procs_fleet_qmp t : respects same_procs (on_fleet (fleet_qmp t) : MQ pooled).
Proof. apply procs_on_fleet. intros f. by destruct (fleet_qmp_spec t f) as (o & _ & ->). Qed.
Lemma procs_if_connected t : respects same_procs (on_fleet (mcpd_if_connected t) : MQ (option pooled)).
Proof. by apply procs_on_fleet. Qed.
Lemma procs_qemu_process t : respects same_procs (on_fleet (qemu_process t) : MQ (option nat)).
Proof. by apply procs_on_fleet. Qed.
Hint Resolve procs_on_outer procs_note procs_upd_clients procs_fleet_mcpd procs_fleet_qmp procs_if_connected
  procs_qemu_process : respects.
Lemma procs_can_connect ep : respects same_procs (can_connect ep : MQ bool).
Proof. unfold can_connect. respects_tac. Qed.
Hint Resolve procs_can_connect : respects.
Lemma procs_mcpd_answers cfg : respects same_procs (mcpd_answers cfg : MQ bool).
Proof. unfold mcpd_answers. respects_tac. Qed.
Lemma procs_qmp_answers cfg : respects same_procs (qmp_answers cfg : MQ bool).
Proof. unfold qmp_answers. respects_tac. Qed.
Hint Resolve procs_mcpd_answers procs_qmp_answers : respects.
Lemma procs_settle target st : respects same_procs (settle_before_stop target st : MQ settled).
Proof. unfold settle_before_stop, flush_transport, target_cfg, flush. respects_tac. Qed.
End procs.
#[export] Hint Resolve procs_on_outer procs_note procs_upd_clients procs_fleet_mcpd procs_fleet_qmp
  procs_if_connected procs_qemu_process procs_can_connect procs_mcpd_answers procs_qmp_answers : respects.
#[export] Hint Resolve tells_on_fleet tells_on_outer tells_upd_clients tells_can_connect tells_mcpd_answers
  tells_qmp_answers tells_ensure_connected : respects.

(* ------------------------------------------------------------------ *)
(** ** Stopping *)

(** Sleeping lets the time pass. *)
Class Sleeps (E : Type) `{QemuHost E} :=
  asleep_passes d e e' : asleep d e = (Ret tt, e') → mono e + d ≤ mono e'.
(** [wait] returns when the child has exited. *)
Class Waits (E : Type) `{Outside E} :=
  wait_exited p t e e' : wait p t e = (Ret tt, e') → is_Some (poll p e').

Section stop.
Context {E : Type} `{Outside E, Tcp E, QmpClient E, QemuHost E}.
Abbreviation MQ := (M (host E) exn).
Implicit Types w : host E.

(** Nothing takes a connection at [ep]. *)
Definition dead (ep : string) (e : E) : Prop := ∃ port x, endpoint_port ep = Ret port ∧
  (tcp_connect (endpoint_host ep) port 1000 e).1 = Raise x ∧ is_oserror x = true.
(** The world after probing an endpoint, if there is one. *)
Definition probe (ep : option string) (e : E) : E :=
  match ep with
  | Some ep => match endpoint_port ep with
               | Ret port => (tcp_connect (endpoint_host ep) port 1000 e).2
               | _ => e
               end
  | None => e
  end.
Definition probed (ep : option string) (r : res exn bool) w w' : Prop :=
  told w' = told w ∧ registry w' = registry w ∧ outer w' = probe ep (outer w) ∧
  (r = Ret false → ∀ s, ep = Some s → dead s (outer w)).
Lemma can_connect_spec ep w : wp (can_connect ep) (λ r w', probed (Some ep) r w w') w.
Proof.
  unfold probed. simpl. assert (∀ b : res exn bool, (b = Ret false → dead ep (outer w)) →
    b = Ret false → ∀ s, Some ep = Some s → dead s (outer w)) as Hs by (intros b Hb Hr ? [= <-]; auto).
  unfold can_connect. apply wp_bind, wp_lift.
  destruct (endpoint_port ep) as [port|x|] eqn:Hp; [|by split_and!; [..|apply Hs]|by split_and!; [..|apply Hs]].
  apply wp_catch, wp_bind. unfold wp, on_outer.
  destruct (tcp_connect (endpoint_host ep) port 1000 (outer w)) as [[[]|x|] e] eqn:Hc; simpl;
    [by split_and!; [..|apply Hs]| |by split_and!; [..|apply Hs]].
  destruct (is_oserror x) eqn:Hx; (split_and!; [done..|apply Hs]); [|done]. intros _. exists port, x. by rewrite Hc.
Qed.
Lemma mcpd_answers_spec cfg w : wp (mcpd_answers cfg) (λ r w', probed (mcpd_of cfg) r w w') w.
Proof.
  unfold mcpd_answers, mcpd_of. destruct (mcpd (channels cfg)) as [ch|]; simpl; [|by split_and!].
  destruct (mcpd_enabled ch); [apply can_connect_spec|by split_and!].
Qed.
Definition qmp_ep (cfg : TargetConfig) : option string :=
  ch ← qmp (channels cfg); if qmp_enabled ch then Some (qmp_endpoint ch) else None.
Lemma qmp_answers_spec cfg w : wp (qmp_answers cfg) (λ r w', probed (qmp_ep cfg) r w w') w.
Proof.
  unfold qmp_answers, qmp_ep. destruct (qmp (channels cfg)) as [ch|]; simpl; [|by split_and!].
  destruct (qmp_enabled ch); [apply can_connect_spec|by split_and!].
Qed.
(** The target's registered transport is asked, or else its daemon, if there
    is one, takes no connection. *)
Definition no_daemon (target : string) w : Prop :=
  assoc target (p_mcpd (registry w)) = None ∧ ∃ cfg, target_config (registry w) target = Ret cfg ∧
  ∀ ep, mcpd_of cfg = Some ep → dead ep (outer w).
Lemma flush_transport_spec target w : wp (flush_transport target) (λ r w',
  told w' = told w ∧ (r = Ret None → no_daemon target w)) w.
Proof.
  apply wp_conj; [apply tells_none, tells_flush_transport|].
  unfold flush_transport. apply wp_bind. unfold wp at 1. simpl.
  destruct (assoc target (p_mcpd (registry w))) as [p|] eqn:Hp; [done|]. destruct w as [f cl e tl]. simpl in *.
  apply wp_bind. unfold wp, target_cfg, mbind, M_bind, gets, lift. simpl.
  destruct (target_config f target) as [cfg|x|] eqn:Hcfg; [|done..]. simpl.
  pose proof (mcpd_answers_spec cfg (Host f cl e tl)) as (_ & _ & _ & Hdead).
  destruct (mcpd_answers cfg _) as [[[]|x|] w1]; simpl in *; [|by intros _; split; [done|]; exists cfg; auto|done..].
  unfold fmap, M_map, on_fleet. by destruct (fleet_mcpd target (registry w1)) as [[?|?|] ?].
Qed.

(** What the flushing told, and why it is enough to stop now: [fl] is the
    request and whether it was answered. *)
Definition at_rest (target : string) (st : Z) (s : settled) (fl : list guest_event) w w1 : Prop :=
  (s = NothingWritten ∧ fl = [] ∧ no_daemon target w) ∨
  (s = FsSync ∧ fl = [EvFlush true]) ∨
  fl = [EvFlush false] ∧ ∃ p w0, flush_transport target w = (Ret (Some p), w0) ∧
    let e := (mcpd_request p "fs.sync" (JObj [("path", JStr "SYS:")]) (Some 30000) (outer w0)).2 in
    match last_write_at p e with
    | None => s = NothingWritten
    | Some at_ => (s = Skipped ∧ st ≤ 0) ∨ at_ + st ≤ mono (outer w1)
    end.
Lemma flush_spec p w : wp (flush p) (λ r w1,
  outer w1 = (mcpd_request p "fs.sync" (JObj [("path", JStr "SYS:")]) (Some 30000) (outer w)).2 ∧
  (told w1 = told w ∧ (∀ b, r ≠ Ret b) ∨ ∃ b, r = Ret b ∧ told w1 = told w ++ [EvFlush b])) w.
Proof.
  unfold wp, flush, mbind, M_bind, catch, on_outer, wait_for. simpl. unfold catch.
  destruct (mcpd_request p _ _ _ (outer w)) as [[j|x|] e]; simpl; [by eauto| |by eauto].
  destruct x; simpl; by eauto 10.
Qed.
Lemma settle_spec `{!Sleeps E} target st w : wp (settle_before_stop target st) (λ r w1,
  ∃ fl, told w1 = told w ++ fl ∧ (∀ s, r = Ret s → at_rest target st s fl w w1) ∧
        (fl = [] ∨ ∃ b, fl = [EvFlush b])) w.
Proof.
  unfold settle_before_stop. apply wp_bind. pose proof (flush_transport_spec target w) as [Ht Hn].
  unfold wp at 1. destruct (flush_transport target w) as [[[p|]|x|] w0] eqn:Hft; simpl in *.
  2:{ exists []. rewrite app_nil_r. split_and!; [done| |by left]. intros s [= <-]. left. by split_and!; [..|apply Hn]. }
  2,3: exists []; rewrite app_nil_r; split_and!; [done|done|by left].
  apply wp_bind. eapply wp_mono; [apply flush_spec|]. rewrite Ht. intros r w1 (He & [[Ht1 Hr]|(b & -> & Ht1)]).
  { rewrite <-(app_nil_r (told w)) in Ht1. destruct r as [b|x|]; [by destruct (Hr b)|..]; exists []; split_and!; [done|done|by left|done|done|by left]. }
  destruct b; [apply wp_ret; exists [EvFlush true]; split_and!; [done| |by eauto]; intros s [= <-]; right; by left|].
  assert (∀ (m : MQ settled), respects (tells (λ _, False)) m →
    (∀ s w2, m w1 = (Ret s, w2) → at_rest target st s [EvFlush false] w w2) →
    wp m (λ r w2, ∃ fl, told w2 = told w ++ fl ∧ (∀ s, r = Ret s → at_rest target st s fl w w2) ∧
                        (fl = [] ∨ ∃ b, fl = [EvFlush b])) w1) as Hend.
  { intros m Hm Hs. unfold wp. exists [EvFlush false]. split_and!; [|intros s Hr|by eauto].
    - rewrite <-Ht1. by apply tells_none, Hm.
    - apply Hs. rewrite <-Hr. by destruct (m w1). }
  assert (∀ s w2, let e := (mcpd_request p "fs.sync" (JObj [("path"%string, JStr "SYS:")]) (Some 30000) (outer w0)).2 in
    match last_write_at p e with
    | None => s = NothingWritten
    | Some at_ => (s = Skipped ∧ st ≤ 0) ∨ at_ + st ≤ mono (outer w2)
    end → at_rest target st s [EvFlush false] w w2) as Hrest.
  { intros s w2 Hm. right. right. split; [done|]. by exists p, w0. }
  apply Hend; [respects_tac|]. intros s w2. unfold mbind, M_bind, gets. simpl.
  intros Hrun. apply Hrest. cbn zeta. rewrite <-He. revert Hrun.
  destruct (last_write_at p (outer w1)) as [at_|]; [|by intros [= <- _]].
  destruct (Z.leb_spec st 0); [intros [= <- <-]; by left|].
  destruct (Z.leb_spec (st - (mono (outer w1) - at_)) 0); [intros [= <- <-]; right; lia|].
  unfold on_outer. destruct (asleep _ (outer w1)) as [[[]|x|] e] eqn:Hs; [|done..]. intros [= <- <-].
  right. apply asleep_passes in Hs. simpl. lia.
Qed.

Definition stopping (ev : guest_event) : Prop :=
  match ev with EvQmp QQuit | EvTerminate _ | EvKill _ => True | _ => False end.
(** Whatever the guest, its daemon and QEMU answer, stopping tells the
    guest at most one flush, and then only what stops it (QMP [quit],
    [terminate], [kill]).  When anything that stops it was told, or the call
    answers, the guest was at rest before: [fs.sync] was answered, or it was
    tried and failed - and nothing had been written, the settling time since
    the last write is over, or the caller waived it - or there is no transport
    and no daemon to ask. *)
Lemma qemu_stop_told `{!Sleeps E} target d st w :
  wp (qemu_stop target d st) (λ r w', ∃ fl stops,
    told w' = told w ++ fl ++ stops ∧ (fl = [] ∨ ∃ b, fl = [EvFlush b]) ∧ Forall stopping stops ∧
    (stops ≠ [] ∨ (∃ a, r = Ret a) → ∃ s w1, at_rest target (default DEFAULT_SETTLE st) s fl w w1 ∧
      told w1 = told w ++ fl ∧ ∀ a, r = Ret a → st_settled a = s)) w.
Proof.
  unfold qemu_stop. apply wp_bind. eapply wp_mono; [apply settle_spec|]. intros r w1 (fl & Ht & Hrest & Hfl).
  destruct r as [s|x|]; [|by exists fl, []; rewrite app_nil_r; split_and!; [..|intros [?|[??]]]..].
  apply wp_bind. eapply wp_mono; [apply wp_respects, (tells_stop_guest stopping); [done|by intros]|].
  intros r w2 (stops & Ht2 & Hst). rewrite Ht, <-(assoc_L (++)) in Ht2.
  assert (∀ r' : res exn stop_result, (∀ a, r' = Ret a → st_settled a = s) → ∃ fl stops,
    told w2 = told w ++ fl ++ stops ∧ (fl = [] ∨ ∃ b, fl = [EvFlush b]) ∧ Forall stopping stops ∧
    (stops ≠ [] ∨ (∃ a, r' = Ret a) → ∃ s w1, at_rest target (default DEFAULT_SETTLE st) s fl w w1 ∧
      told w1 = told w ++ fl ∧ ∀ a, r' = Ret a → st_settled a = s)) as Hend.
  { intros r' Hr'. exists fl, stops. split_and!; [done..|]. intros _. exists s, w1. by split_and!; [apply Hrest|..]. }
  destruct r as [[m c]|x|]; [apply wp_ret|..]; apply Hend; [by intros ? [= <-]|done..].
Qed.

Lemma await_exit_spec n p w : wp (await_exit n p) (λ r w', ∀ c, r = Ret (Some c) → poll p (outer w') = Some c) w.
Proof.
  revert w. induction n as [|n IH]; intros w; [by apply wp_ret|]. cbn [await_exit]. apply wp_bind, wp_gets.
  destruct (poll p (outer w)) as [c|] eqn:Hp; [by apply wp_ret; intros ? [= <-]|].
  apply wp_bind. unfold wp at 1. destruct (on_outer (asleep 500) w) as [[[]|x|] w1]; [apply IH|done..].
Qed.
Lemma wait_exit_spec `{!Waits E} p w : wp (wait_exit p) (λ r w', ∀ c, r = Ret c → c = poll p (outer w') ∧ is_Some c) w.
Proof.
  unfold wait_exit. apply wp_bind. unfold wp at 1, on_outer.
  destruct (wait p 5000 (outer w)) as [[[]|x|] e] eqn:Hw; [|done..]. apply wp_gets.
  intros c [= <-]. split; [done|]. simpl. by eapply wait_exited.
Qed.
Lemma wp_skip {A B} (m : MQ A) (k : A → MQ B) (Q : res exn B → host E → Prop) w :
  (∀ x w', Q (Raise x) w') → (∀ w', Q Spin w') → (∀ a w', wp (k a) Q w') → wp (m ≫= k) Q w.
Proof. intros Hx Hs Hk. apply wp_bind. unfold wp at 1. destruct (m w) as [[a|x|] w1]; [apply Hk|apply Hx|apply Hs]. Qed.
Lemma end_process_spec `{!Waits E} target p d w : wp (end_process target p d)
  (λ r w', ∀ m c, r = Ret (m, c) → c = poll p (outer w') ∧ is_Some c) w.
Proof.
  unfold end_process. apply wp_skip; [done..|]. intros m w1. apply wp_bind.
  eapply wp_mono; [apply await_exit_spec|]. intros [[c|]|x|] w2 Hc; [| |done..].
  { apply wp_ret. intros ? ? [= <- <-]. rewrite (Hc c) by done. split; [done|by eexists]. }
  do 2 (apply wp_skip; [done..|]; intros _ ?).
  assert (∀ m' w, wp (code ← wait_exit p; mret (m', code) : MQ (stop_method * option Z))
    (λ r w', ∀ m c, r = Ret (m, c) → c = poll p (outer w') ∧ is_Some c) w) as Hwait.
  { intros m' w3. apply wp_bind. eapply wp_mono; [apply wait_exit_spec|]. intros [c|x|] w4 Hr; [|done..].
    apply wp_ret. intros ? ? [= <- <-]. by apply Hr. }
  apply wp_catch. eapply wp_mono; [apply Hwait|]. intros [[m' c]|x|] w3 Hr; [done| |done].
  destruct (is_timeout_expired x); [|done]. do 2 (apply wp_skip; [done..|]; intros _ ?). apply Hwait.
Qed.
(** The target has no child and no transport left. *)
Definition dropped (target : string) (f : Fleet) : Prop :=
  assoc target (qemu_processes f) = None ∧ assoc target (p_mcpd f) = None ∧
  assoc target (p_qmp f) = None ∧ assoc target (p_gdb f) = None.
Lemma wp_drop target (Q : res exn unit → host E → Prop) w :
  (∀ w', outer w' = outer w → dropped target (registry w') → Q (Ret tt) w') → wp (on_fleet (drop_qemu_process target)) Q w.
Proof.
  intros HQ. apply HQ; [done|]. unfold dropped. simpl. rewrite !assoc_dict_del. by rewrite !decide_True.
Qed.
Lemma stop_guest_spec `{!Waits E} target p d w : assoc target (qemu_processes (registry w)) = Some p →
  wp (stop_guest target d) (λ r w', r ≠ Spin → dropped target (registry w') ∧
    ∀ m c, r = Ret (m, c) → c = poll p (outer w') ∧ is_Some c) w.
Proof.
  intros Hp. unfold stop_guest. apply wp_bind. unfold wp at 1. simpl. rewrite Hp.
  destruct w as [f cl e tl]. simpl in *. apply wp_bind, wp_gets. simpl.
  destruct (poll p e) as [rc|] eqn:Hrc.
  - apply wp_bind, wp_drop. simpl. intros w' He Hd. apply wp_ret. intros _. split; [done|].
    intros ? ? [= <- <-]. rewrite He. split; [done|by eexists].
  - apply wp_finally. eapply wp_mono; [apply end_process_spec|]. intros r w1 Hr.
    destruct r as [[m c]|x|]; [..|done]; apply wp_drop; intros w' He Hd _; (split; [done|]);
      intros ? ? [= <- <-]. rewrite He. by eapply Hr.
Qed.
(** Stopping a guest whose process the server holds either raises or
    leaves it exited, with its exit code reported; either way the registry
    keeps neither the process nor a transport of the target. *)
Lemma qemu_stop_ends `{!Waits E} target p d st w :
  assoc target (qemu_processes (registry w)) = Some p →
  wp (qemu_stop target d st) (λ r w',
    (∀ a, r = Ret a → st_exit_code a = poll p (outer w') ∧ is_Some (poll p (outer w')) ∧ dropped target (registry w')) ∧
    (∀ x s w1, r = Raise x → settle_before_stop target (default DEFAULT_SETTLE st) w = (Ret s, w1) →
       dropped target (registry w'))) w.
Proof.
  intros Hp. unfold qemu_stop. apply wp_bind. pose proof (procs_settle target (default DEFAULT_SETTLE st) w) as Hs.
  unfold wp at 1. destruct (settle_before_stop target (default DEFAULT_SETTLE st) w) as [[s|x|] w1]; [|by split; intros..].
  simpl in *. unfold same_procs in Hs. apply wp_bind. eapply wp_mono; [apply (stop_guest_spec target p); congruence|].
  intros r w2 Hr. destruct r as [[m c]|x|]; [apply wp_ret|..].
  - split; [|done]. intros a [= <-]. destruct Hr as (Hd & Hc); [done|]. destruct (Hc _ _ eq_refl) as [-> ?]. done.
  - split; [done|]. intros _ _ _ _ _. by apply Hr.
  - by split.
Qed.
(** C7: whatever the guest, its daemon and QEMU answer, [qemu_stop] tells the
    guest at most one flush and then only what stops it.  If anything that
    stops it was told, or the call answers, the guest was at rest before:
    [fs.sync] was answered, or it was tried and failed - and nothing had been
    written, the settling time since the last write is over, or the caller
    waived it - or there is no transport and no daemon to ask.  If it answers
    for a child the server held, the child has exited, its exit code is
    reported, and the registry keeps neither it nor a transport of the
    target. *)
Theorem stop_flushes_and_ends `{!Sleeps E, !Waits E} target d st w :
  wp (qemu_stop target d st) (λ r w',
    (∃ fl stops, told w' = told w ++ fl ++ stops ∧ (fl = [] ∨ ∃ b, fl = [EvFlush b]) ∧ Forall stopping stops ∧
      (stops ≠ [] ∨ (∃ a, r = Ret a) → ∃ s w1, at_rest target (default DEFAULT_SETTLE st) s fl w w1 ∧
         told w1 = told w ++ fl ∧ ∀ a, r = Ret a → st_settled a = s)) ∧
    ∀ a p, r = Ret a → assoc target (qemu_processes (registry w)) = Some p →
      st_exit_code a = poll p (outer w') ∧ is_Some (poll p (outer w')) ∧ dropped target (registry w')) w.
Proof.
  apply wp_conj; [apply qemu_stop_told|]. unfold wp. intros a p Ha Hp.
  destruct (qemu_stop_ends target p d st w Hp) as [Hend _]. by apply Hend.
Qed.
End stop.

(* ------------------------------------------------------------------ *)
(** ** Starting *)

Section start.
Context {E : Type} `{Outside E, Tcp E, QmpClient E, QemuHost E}.
Abbreviation MQ := (M (host E) exn).
Implicit Types w : host E.

(** No guest was told anything, no child came or went. *)
Definition idle : relation (host E) := λ w w', told w' = told w ∧ same_procs w w'.
#[local] Instance idle_preorder : PreOrder idle.
Proof.
  split; [done|]. intros w1 w2 w3 [Ha Hb] [Hc Hd]. split; [congruence|by etrans].
Qed.
Lemma idle_respects {A} (m : MQ A) : respects (tells (λ _, False)) m → respects same_procs m → respects idle m.
Proof. intros Ht Hp w. split; [by apply tells_none, Ht|apply Hp]. Qed.
Lemma idle_on_outer {A} (m : M E exn A) : respects idle (on_outer m).
Proof. apply idle_respects; [apply tells_on_outer|apply procs_on_outer]. Qed.
Lemma wp_idle {A B} (m : MQ A) (k : A → MQ B) (Q : res exn B → host E → Prop) w0 w :
  idle w0 w → respects idle m →
  (∀ r w', idle w0 w' → (∀ b, r ≠ Ret b) → Q r w') →
  (∀ a w', m w = (Ret a, w') → idle w0 w' → wp (k a) Q w') → wp (m ≫= k) Q w.
Proof.
  intros Hw Hm HQ Hk. apply wp_bind. unfold wp at 1. specialize (Hm w).
  destruct (m w) as [[a|x|] w1]; simpl in *; [apply Hk; [done|]|apply HQ; [|done]..]; by etrans.
Qed.

(** What [qemu_start] is sure of when it launches [argv]. *)
Definition clear_to_start (target : string) w (argv : list text) (ports : port_map) : Prop :=
  ∃ cfg path bin, target_config (registry w) target = Ret cfg ∧ type cfg = Qemu ∧
    qemu_config cfg = Some path ∧ qemu_binary (paths (config (registry w))) = Some bin ∧
    (∀ p, assoc target (qemu_processes (registry w)) = Some p → is_Some (poll p (outer w))) ∧
    (∀ ep, mcpd_of cfg = Some ep → dead ep (outer w)) ∧
    let e1 := probe (mcpd_of cfg) (outer w) in
    (∀ ep, qmp_ep cfg = Some ep → dead ep e1) ∧
    ∃ e2, build_cmdline load_json bin path cfg None (probe (qmp_ep cfg) e1) = (Ret (argv, ports), e2).
Definition started (target : string) w (r : res exn start_result) w' : Prop :=
  (idle w w' ∧ (∀ a, r ≠ Ret a)) ∨
  ∃ argv ports, clear_to_start target w argv ports ∧ told w' = told w ++ [EvSpawn argv] ∧
    ((∀ a, r ≠ Ret a) ∧ same_procs w w' ∨
     ∃ a p, r = Ret a ∧ sr_cmdline a = argv ∧ sr_ports a = ports ∧ sr_pid a = pid p ∧
       assoc target (qemu_processes (registry w')) = Some p).
Lemma wp_refuse {B} target label ep answers (k : unit → MQ B) (Q : res exn B → host E → Prop) w0 w eps :
  idle w0 w → (∀ w, wp answers (λ r w', probed eps r w w') w) →
  (∀ r w', idle w0 w' → (∀ b, r ≠ Ret b) → Q r w') →
  (∀ w', idle w0 w' → registry w' = registry w → outer w' = probe eps (outer w) →
     (∀ s, eps = Some s → dead s (outer w)) → wp (k tt) Q w') →
  wp (refuse_listening target label ep answers ≫= k) Q w.
Proof.
  intros Hw Ha HQ Hk. unfold refuse_listening. apply wp_bind, wp_bind. eapply wp_mono; [apply Ha|].
  intros r w1 (Ht & Hr & He & Hd).
  assert (idle w0 w1) as Hw1 by (etrans; [exact Hw|]; split; [done|]; unfold same_procs; congruence).
  destruct r as [[]|x|]; [|by apply wp_ret, Hk; auto|by apply HQ..].
  apply wp_bind, wp_lift. destruct (endpoint_port (default "" ep)); [apply wp_raise|..]; by apply HQ.
Qed.
Lemma idle_prune c dir : respects idle (prune_serial c dir : MQ unit).
Proof.
  assert (PreOrder idle) by apply _. unfold prune_serial, in_folder. case_match; [|apply (respects_ret _)].
  apply (respects_bind _); [apply idle_on_outer|intros ?; apply (respects_ret _)].
Qed.
(** Launching: everything up to the child's registration is idle but for the
    one [EvSpawn]. *)
Lemma spawn_spec argv cwd fh w0 w : idle w0 w → wp (finally (spawn argv cwd fh) (on_outer (close_log fh)))
  (λ r w', told w' = told w0 ++ [EvSpawn argv] ∧ same_procs w0 w') w.
Proof.
  intros [Ht Hp]. assert (∀ m : MQ unit, respects idle m → ∀ w1, told w1 = told w0 ++ [EvSpawn argv] ∧ same_procs w0 w1 →
    told (m w1).2 = told w0 ++ [EvSpawn argv] ∧ same_procs w0 (m w1).2) as Hm.
  { intros m Hm w1 [Ha Hb]. destruct (Hm w1) as [Hc Hd]. split; [congruence|by etrans]. }
  apply wp_finally. unfold spawn. apply wp_bind. unfold wp at 1. simpl.
  set (w1 := Host (registry w) (clients w) (outer w) (told w ++ [EvSpawn argv])).
  assert (told w1 = told w0 ++ [EvSpawn argv] ∧ same_procs w0 w1) as Hw1 by (simpl; by rewrite Ht).
  pose proof (idle_on_outer (popen argv cwd fh) w1) as [Hc Hd].
  assert (told (on_outer (popen argv cwd fh) w1).2 = told w0 ++ [EvSpawn argv] ∧
    same_procs w0 (on_outer (popen argv cwd fh) w1).2) as Hw2.
  { destruct Hw1 as [Ha Hb]. split; [congruence|by etrans]. }
  unfold wp at 1. destruct (on_outer (popen argv cwd fh) w1) as [r w2]. simpl in *.
  destruct r as [p|x|]; [..|done]; specialize (Hm _ (idle_on_outer (close_log fh)) w2 Hw2);
    unfold wp; by destruct (on_outer (close_log fh) w2) as [[]].
Qed.
Lemma qemu_start_spec target w : wp (qemu_start target) (started target w) w.
Proof.
  assert (∀ (r : res exn start_result) w', idle w w' → (∀ a, r ≠ Ret a) → started target w r w') as Hidle.
  { intros r w' Hw' Hr. by left. }
  unfold qemu_start. apply wp_bind. unfold wp at 1. simpl. apply wp_bind, wp_lift.
  destruct (target_config (registry w) target) as [cfg|x|] eqn:Hcfg; [|by apply Hidle..].
  destruct (decide (type cfg = Remote)) as [|Hty]; [by apply Hidle|].
  destruct (qemu_config cfg) as [path|] eqn:Hpath; [|by apply Hidle].
  destruct (qemu_binary (paths (config (registry w)))) as [bin|] eqn:Hbin; [|by apply Hidle].
  apply wp_bind. unfold wp at 1. simpl. replace (Host _ _ _ _) with w by (by destruct w).
  apply wp_bind, wp_gets. apply wp_bind.
  set (old := assoc target (qemu_processes (registry w))).
  assert (wp (match old with
              | Some p => if decide (poll p (outer w) = None)
                          then raise (ERpc TargetError (Some (JObj [("pid"%string, JNum (pid p))]))) else mret tt
              | None => mret tt end : MQ unit)
    (λ r w', w' = w ∧ (r = Ret tt → ∀ p, old = Some p → is_Some (poll p (outer w)))) w) as Hold.
  { destruct old as [p|]; [|by apply wp_ret]. case_decide as Hp; [by apply wp_raise|apply wp_ret].
    split; [done|]. intros _ ? [= <-]. by destruct (poll p (outer w)). }
  eapply wp_mono; [exact Hold|]. intros r w1 [-> Hr]. destruct r as [[]|x|]; [|by apply Hidle..].
  specialize (Hr eq_refl).
  eapply wp_refuse; [done|apply mcpd_answers_spec|done|]. intros w1 Hw1 Hreg1 He1 Hm.
  eapply wp_refuse; [done|apply qmp_answers_spec|done|]. intros w2 Hw2 Hreg2 He2 Hq.
  eapply wp_idle; [done|apply idle_on_outer|done|]. intros [argv ports] w3 Hrun Hw3.
  assert (clear_to_start target w argv ports) as Hclear.
  { exists cfg, path, bin. split_and!; [done| |done..|].
    - by destruct (type cfg).
    - cbn zeta. rewrite <-He1. split; [done|]. exists (outer w3). rewrite <-He2. unfold on_outer in Hrun.
      destruct (build_cmdline load_json bin path cfg None (outer w2)) as [r e]. by simplify_eq/=. }
  eapply wp_idle; [done|apply idle_on_outer|done|]. intros [] w4 _ Hw4.
  apply wp_bind, wp_gets. eapply wp_idle; [done|apply idle_prune|done|]. intros [] w5 _ Hw5.
  eapply wp_idle; [done|apply idle_on_outer|done|]. intros fh w6 _ Hw6.
  apply wp_bind. eapply wp_mono; [by apply spawn_spec|]. intros r w7 [Ht Hp].
  destruct r as [p|x|]; [|right; exists argv, ports; split_and!; [done..|by left]..].
  apply wp_bind. unfold wp at 1. simpl. apply wp_ret. right. exists argv, ports. split_and!; [done|done|].
  right. eexists _, p. split_and!; [done..|]. simpl. by rewrite assoc_dict_set, decide_True.
Qed.
(** C10: a guest is launched only for a [qemu] target with a machine file and
    a QEMU to run, when the child registered for it, if any, has exited and
    nothing takes connections on the port of its MCPd channel, nor after that
    on the port of its QMP channel; it is launched at most once, by the command
    line [build_cmdline] makes of the configuration.  A call that answers has
    launched one and registered it; a call that raises registers no child and
    forgets none. *)
Theorem start_never_doubles target w : wp (qemu_start target) (λ r w', ∃ evs, told w' = told w ++ evs ∧
  (evs = [] ∨ ∃ argv, evs = [EvSpawn argv]) ∧
  (∀ argv, EvSpawn argv ∈ evs → ∃ cfg path bin ports e,
     target_config (registry w) target = Ret cfg ∧ type cfg = Qemu ∧ qemu_config cfg = Some path ∧
     qemu_binary (paths (config (registry w))) = Some bin ∧
     (∀ p, assoc target (qemu_processes (registry w)) = Some p → is_Some (poll p (outer w))) ∧
     (∀ ep, mcpd_of cfg = Some ep → dead ep (outer w)) ∧
     (∀ ep, qmp_ep cfg = Some ep → dead ep (probe (mcpd_of cfg) (outer w))) ∧
     build_cmdline load_json bin path cfg None (probe (qmp_ep cfg) (probe (mcpd_of cfg) (outer w))) =
       (Ret (argv, ports), e)) ∧
  match r with
  | Ret a => evs = [EvSpawn (sr_cmdline a)] ∧
      ∃ p, assoc target (qemu_processes (registry w')) = Some p ∧ sr_pid a = pid p
  | _ => qemu_processes (registry w') = qemu_processes (registry w)
  end) w.
Proof.
  eapply wp_mono; [apply qemu_start_spec|]. intros r w' [[[Ht Hp] Hr]|(argv & ports & Hc & Ht & Hr)].
  - exists []. rewrite app_nil_r. split_and!; [done|by left|by intros ? ?%not_elem_of_nil|].
    destruct r as [a|x|]; [by destruct (Hr a)|done..].
  - exists [EvSpawn argv]. split_and!; [done|right; by eexists| |].
    + intros argv' [= ->]%list_elem_of_singleton.
      destruct Hc as (cfg & path & bin & ? & ? & ? & ? & ? & ? & ? & e & ?).
      by exists cfg, path, bin, ports, e.
    + destruct Hr as [[Hno Hp]|(a & p & -> & <- & _ & Hpid & Hp)]; [|by split; [|exists p]].
      destruct r as [a|x|]; [by destruct (Hno a)|done..].
Qed.
End start.

(* ------------------------------------------------------------------ *)
(** ** Reset and status *)

Section reset.
Context {E : Type} `{Outside E, Tcp E, QmpClient E, QemuHost E, !Sleeps E, !Waits E}.
Implicit Types w : host E.

(** a reset that answers has put one guest in the place of another: the
    old one was at rest, it was told what stops it and nothing else, a child
    the server held for it has exited, then exactly one guest was launched
    under the conditions of [qemu_start], and it is the registered one. *)
Theorem reset_replaces_guest target w : wp (qemu_reset target false) (λ r w', ∀ a, r = Ret a →
  ∃ s fl w1 stops w2 argv ports p,
    at_rest target DEFAULT_SETTLE s fl w w1 ∧ Forall stopping stops ∧
    told w' = told w ++ fl ++ stops ++ [EvSpawn argv] ∧
    (∀ q, assoc target (qemu_processes (registry w)) = Some q →
       ∃ w3, is_Some (poll q (outer w3)) ∧ told w3 = told w ++ fl ++ stops ∧ dropped target (registry w3)) ∧
    told w2 = told w ++ fl ++ stops ∧ clear_to_start target w2 argv ports ∧
    assoc target (qemu_processes (registry w')) = Some p ∧ rr_pid a = Some (pid p)) w.
Proof.
  unfold qemu_reset. apply wp_bind.
  assert (wp (qemu_stop target 10000 None) (λ r w3, (∃ st, r = Ret st) → ∃ s fl w1 stops,
    at_rest target DEFAULT_SETTLE s fl w w1 ∧ Forall stopping stops ∧ told w3 = told w ++ fl ++ stops ∧
    ∀ q, assoc target (qemu_processes (registry w)) = Some q → is_Some (poll q (outer w3)) ∧ dropped target (registry w3)) w)
    as Hstop.
  { pose proof (qemu_stop_told target 10000 None w) as (fl & stops & Ht & _ & Hst & Hrest).
    unfold wp. intros [a Ha]. destruct Hrest as (s & w1 & Hr & _); [by right; exists a|].
    exists s, fl, w1, stops. split_and!; [done..|]. intros q Hq.
    destruct (qemu_stop_ends target q 10000 None w Hq) as [Hend _]. by destruct (Hend _ Ha) as (_ & ? & ?). }
  eapply wp_mono; [exact Hstop|]. intros [st|x|] w3 Hr; [|done..].
  destruct Hr as (s & fl & w1 & stops & Hrest & Hst & Ht3 & Hq); [by eexists|]. apply wp_bind.
  unfold wp at 1, on_outer. destruct (asleep 2000 (outer w3)) as [[[]|x|] e]; [|done..].
  set (w4 := Host (registry w3) (clients w3) e (told w3)). apply wp_bind.
  eapply wp_mono; [apply (qemu_start_spec target w4)|]. intros [a|x|] w5 Hs; [|done..].
  apply wp_ret. intros b [= <-]. destruct Hs as [[_ Hno]|(argv & ports & Hc & Ht & Hs)]; [by destruct (Hno a)|].
  destruct Hs as [[Hno _]|(a' & p & [= <-] & Ha & _ & Hpid & Hp)]; [by destruct (Hno a)|].
  exists s, fl, w1, stops, w4, argv, ports, p. simpl in *.
  split_and!; [done|done| | |done|done|done|by rewrite Hpid].
  - by rewrite Ht, Ht3, <-!(assoc_L (++)).
  - intros q Hq'. exists w3. by destruct (Hq q Hq').
Qed.
End reset.

Section status.
Context {E : Type} `{Outside E, Tcp E, QmpClient E, QemuHost E}.
Implicit Types w : host E.
(** [qemu_status] asks QEMU for its status and tells nothing else; it calls a
    guest owned exactly when a registered child has not exited, and calls
    nothing running only when there is no such child and no channel of the
    target takes connections. *)
Theorem status_honest target w : wp (qemu_status target) (λ r w',
  tells (λ ev, ev = EvQmp QStatus) w w' ∧ ∀ a, r = Ret a → ∃ cfg, target_config (registry w) target = Ret cfg ∧
    (owned a = true ↔ ∃ p, assoc target (qemu_processes (registry w)) = Some p ∧ poll p (outer w) = None) ∧
    (running a = false → owned a = false ∧ (∀ ep, qmp_ep cfg = Some ep → dead ep (outer w)) ∧
       ∀ ep, mcpd_of cfg = Some ep → dead ep (probe (qmp_ep cfg) (outer w)))) w.
Proof.
  apply wp_conj.
  { apply wp_respects.
    unfold qemu_status, target_cfg, query_status. respects_tac.
    by apply tells_wait_for, tells_on_client. }
  assert (target_cfg target w = (target_config (registry w) target, w) ∧
    on_fleet (qemu_process target) w = (Ret (assoc target (qemu_processes (registry w))), w)) as [Hc Hp]
    by (split; [done|by destruct w]).
  unfold qemu_status. apply wp_bind. eapply wp_run; [exact Hc|].
  destruct (target_config (registry w) target) as [cfg|x|]; [|done..].
  apply wp_bind. eapply wp_run; [exact Hp|]. apply wp_bind, wp_gets.
  set (own := match assoc target (qemu_processes (registry w)) with
              | Some p => bool_decide (poll p (outer w) = None) | None => false end).
  assert (own = true ↔ ∃ p, assoc target (qemu_processes (registry w)) = Some p ∧ poll p (outer w) = None) as Hown.
  { unfold own. destruct (assoc target _) as [p|]; [|naive_solver]. rewrite bool_decide_eq_true. naive_solver. }
  apply wp_bind. eapply wp_mono; [apply qmp_answers_spec|]. intros r1 w1 (_ & _ & He1 & Hq).
  destruct r1 as [qup|x|]; [|done..].
  apply wp_bind. eapply wp_mono; [apply mcpd_answers_spec|]. intros r2 w2 (_ & _ & _ & Hm).
  destruct r2 as [mup|x|]; [|done..].
  apply wp_skip; [done..|]. intros qs w3. apply wp_skip; [done..|]. intros mr w4. apply wp_ret.
  intros a [= <-]. exists cfg. simpl. split_and!; [done|done|].
  intros Hrun. destruct own; [done|]. simpl in Hrun. apply orb_false_iff in Hrun as [-> ->].
  split_and!; [done|by apply Hq|]. rewrite <-He1. by apply Hm.
Qed.
End status.

(* ------------------------------------------------------------------ *)
(** ** A host to run on

    Children are numbered and exit on [quit], [terminate] or [kill]; a guest
    that runs serves its MCPd and QMP ports. *)
Record lab := Lab {
  exits : nat → option Z;
  clock : Z;
  serving : list Z;
  wrote : option Z;
  syncs : bool;                                  (** the daemon knows [fs.sync] *)
  on_quit : res exn json }.                      (** what QMP [quit] answers *)
Definition set_exits (f : nat → option Z) (up : list Z) (e : lab) : lab :=
  Lab f (clock e) up (wrote e) (syncs e) (on_quit e).
Definition exit_as (c : Z) (e : lab) : lab := set_exits (λ p, Some (default c (exits e p))) [] e.
#[local] Instance lab_outside : Outside lab := {|
  close_obj _ := mret tt;
  poll p e := exits e p;
  terminate _ := λ e, (Ret tt, exit_as (-15) e);
  wait p _ := λ e, (if exits e p is Some _ then Ret tt else Raise (EPy TimeoutExpired), e);
  kill _ := λ e, (Ret tt, exit_as (-9) e) |}.
#[local] Instance lab_tcp : Tcp lab := λ _ port _ e,
  (if bool_decide (port ∈ serving e) then Ret tt else Raise (EOS ConnectionRefusedError ""), e).
#[local] Instance lab_qmp : QmpClient lab := {|
  client_connect _ _ _ _ := mret 0%nat;
  client_call _ op _ := λ e,
    match op with
    | QQuit => (on_quit e, if on_quit e is Ret _ then exit_as 0 e else e)
    | _ => (Ret (JObj []), e)
    end;
  client_close _ := mret tt |}.
#[local] Instance lab_host : QemuHost lab := {|
  mcpd_request _ _ _ _ := λ e, (if syncs e then Ret (JObj []) else Raise (ERpc MethodNotFound None), e);
  last_write_at _ e := wrote e;
  mono := clock;
  unix_time e := clock e;
  asleep d := λ e, (Ret tt, Lab (exits e) (clock e + Z.max 0 d) (serving e) (wrote e) (syncs e) (on_quit e));
  pid p := 1000 + Z.of_nat p;
  load_json _ := mret (Some (ex_kyvos ex_args));
  make_dirs _ := mret tt;
  open_log _ := mret 7%nat;
  close_log _ := mret tt;
  popen _ _ _ := λ e, (Ret 2%nat, set_exits (λ p, if decide (p = 2%nat) then None else exits e p) [4422; 14422] e);
  folder_at _ _ := [];
  set_folder _ _ e := e;
  undeletable _ _ := false;
  parent p := p;
  mkstemp := mret "shot.png"%string;
  file_size _ _ := Some 3;
  read_bytes _ := mret (txt "png");
  unlink _ := mret tt |}.
#[local] Instance lab_sleeps : Sleeps lab.
Proof. intros d e e' [= <-]. simpl. lia. Defined.
#[local] Instance lab_waits : Waits lab.
Proof. intros p t e e'. simpl. destruct (exits e p) eqn:He; [|done]. intros [= <-]. rewrite He. by eexists. Defined.

(** A guest the server started as child 1, whose daemon cannot flush. *)
Definition ex_fleet : Fleet :=
  set_procs [("sam", 1%nat)]%string (Fleet_init
    {| server := ServerConfig_default;
       paths := {| amiga_qemu_tests := None; qemu_binary := Some "qemu"; sandboxvm := None |};
       defaults := defaults ex_config; targets := [("sam", ex_guest true "p.json")] |})%string.
Definition ex_lab (sync : bool) (quit : res exn json) : host lab :=
  Host ex_fleet ∅ (Lab (λ _, None) 60000 [4422; 14422] (Some 55000) sync quit) [].

(** Five seconds are missing to the ten since the last write. *)
Example stop_waits : (qemu_stop "sam" 10000 None (ex_lab false (Ret JNull))).1 =
  Ret (StopResult "sam" (Waited 5000) ByQmp (Some 0)).
Proof. vm_compute. reflexivity. Qed.
(** A QEMU that does not answer [quit] is terminated after ten seconds. *)
Lemma stop_flushes_and_ends_witness :
  (qemu_stop "sam" 10000 None (ex_lab true (Raise ECancelled))).1 =
    Ret (StopResult "sam" FsSync ByTerminate (Some (-15))) ∧
  is_Some (poll 1%nat (outer (qemu_stop "sam" 10000 None (ex_lab true (Raise ECancelled))).2)).
Proof.
  split; [vm_compute; reflexivity|].
  destruct (stop_flushes_and_ends "sam" 10000 None (ex_lab true (Raise ECancelled))) as [_ H1].
  apply (H1 (StopResult "sam" FsSync ByTerminate (Some (-15))) 1%nat); vm_compute; reflexivity.
Defined.
Definition ex_reset : res exn reset_result * host lab := qemu_reset "sam" false (ex_lab true (Ret JNull)).
Lemma reset_replaces_guest_witness :
  ex_reset.1 = Ret (ResetResult "sam" StopStart (JObj [("stopped", JBool true); ("started", JBool true)]) (Some 1002))%string ∧
  ∃ argv ports w2, clear_to_start "sam" w2 argv ports ∧ last (told ex_reset.2) = Some (EvSpawn argv).
Proof.
  split; [vm_compute; reflexivity|].
  destruct (reset_replaces_guest "sam" (ex_lab true (Ret JNull))
    (ResetResult "sam" StopStart (JObj [("stopped", JBool true); ("started", JBool true)]) (Some 1002))%string)
    as (s & fl & w1 & stops & w2 & argv & ports & p & _ & _ & Ht & _ & _ & Hc & _); [vm_compute; reflexivity|].
  exists argv, ports, w2. split; [exact Hc|]. unfold ex_reset. rewrite Ht, !(assoc_L (++)). apply last_snoc.
Defined.

(** A child whose [quit] breaks the connection is neither stopped nor kept:
    the call raises, the guest still runs, and neither a later stop nor
    [close_all] knows of it. *)
Example stop_loses_child :
  let '(r, w) := qemu_stop "sam" 10000 None (ex_lab true (Raise (EOS ConnectionResetError "reset"))) in
  r = Raise (EOS ConnectionResetError "reset") ∧ poll 1%nat (outer w) = None ∧ qemu_processes (registry w) = [].
Proof. vm_compute. done. Qed.
(** A guest without a QMP channel is left alone for ten seconds before it is
    terminated. *)
Example stop_waits_in_vain :
  let c := ex_guest true "p.json" in
  let cfg := {| type := Qemu; display_name := None; machine := None; qemu_config := Some "p.json"; headless := true;
    tags := []; sandbox := None; input := None;
    channels := {| mcpd := mcpd (channels c); qmp := None; gdb := None; uboot := None; mcu := None |} |}%string in
  let f := set_procs [("sam", 1%nat)]%string (Fleet_init {| server := ServerConfig_default;
    paths := paths ex_config; defaults := defaults ex_config; targets := [("sam"%string, cfg)] |}) in
  let '(r, w) := qemu_stop "sam" 10000 None (Host f ∅ (outer (ex_lab true (Ret JNull))) []) in
  r = Ret (StopResult "sam" FsSync ByTerminate (Some (-15))) ∧ mono (outer w) = 70000 ∧
  told w = [EvFlush true; EvTerminate 1].
Proof. vm_compute. done. Qed.
