(* ===== verification/Cli.v ===== *)
(** * The command line: [cli.py]

    The subcommands over the tools: each makes a registry of its own, and closes
    it when it is done, which ends the guests it has started.  Printing is left out,
    but not the divisions made for it.  Times are in milliseconds. *)
From S2P Require Import Prelude Py Bytes Config Net Schema System Fleet Fs FleetStatus Lines Archive Cmdline Qmp Qemu QemuProps.
#[local] Open Scope string_scope.
#[local] Open Scope list_scope.
#[local] Open Scope Z_scope.

(** The calls of [tools/exec.py] and [upload.py] ([Exec.v] and [Fs.v]), which raise
    on a command that is still running, and files of the host. *)
Class Deploy (E : Type) := {
  exec_cmd : string → text → list text → Z → M E exn unit;
  chunked_upload : string → string → string → Z → compression → M E exn UploadStats;
  is_file : string → E → bool }.

(** [_printable] *)
Definition printable (b : bytes) : text :=
  map (λ c, if (32 <=? ord c) && (ord c <? 127) || bool_decide (ord c ∈ [9; 10; 13]) then c else lf) b.
(** The arguments of [upload], of [deploy_mcpd] and of [qemu_run]. *)
Record upload_args := UploadArgs { ua_local : string; ua_remote : string; ua_chunk : Z; ua_compression : compression; ua_verify : bool }.
Record run_args := RunArgs {
  exe : string; remote_path : option string; exe_args : option text; wait_marker : option text; timeout : Z;
  given_log : option string; start : bool; stop_after : bool }.

Section cli.
Context {E : Type} `{Outside E, Tcp E, QmpClient E, QemuHost E, Wire E, Pydantic, Deploy E}.
(** [load_config], [hashlib.sha256], [re.search] and [Path.name]. *)
Context (loaded : res exn Config) (sha256 : bytes → string) (search : text → text → bool) (name_of : string → string).
Abbreviation MQ := (M (host E) exn).

#[local] Instance wire_rpc : Rpc E := {| Fs.call t m p d := ask_daemon t m (Some p) d; Fs.pause d := asleep d |}.

Definition make_fleet : MQ unit :=
  cfg ← lift loaded;
  modify (λ w, Host (Fleet_init cfg) (clients w) (outer w) (told w)).
Definition resolved (name : option string) : MQ string := f ← gets registry; lift (fleet_resolve_target f name).
Definition closing : MQ unit := λ w,
  let '(r, (f, e)) := close_all (registry w, outer w) in (r, Host f (clients w) e (told w)).
Definition clock : MQ Z := gets (λ w, mono (outer w)).
(** What is printed of a speed: a division by the time it took. *)
Definition timed {A} (m : MQ A) : MQ A :=
  t0 ← clock; a ← m; t1 ← clock;
  if t1 - t0 =? 0 then raise (EPy ZeroDivisionError) else mret a.
(** [except Exception] around calls whose results are printed. *)
Definition survives {A} (m : MQ A) : MQ bool :=
  catch (m;; mret true) (λ e, if is_exception e then mret false else raise e).

Definition cmd_health (name : option string) : MQ Z :=
  make_fleet;;
  target ← resolved name;
  f ← gets registry;
  st ← on_outer (fleet_target_status f target);
  if default false (ts_mcpd st) then
    ok ← survives (on_outer (sys_uptime target;; sys_lastalert target;; sys_memory target));
    closing;;
    mret (if ok : bool then 0 else 1)
  else closing;; mret 2.

(** [snapshot]; [asked] is what the calls it makes, all at once, end with. *)
Definition cmd_snapshot (asked : host E → (string → probes) * host E) (exn_text : exn → text) (tags : option (list string)) : MQ Z :=
  make_fleet;;
  f ← gets registry;
  out ← (λ w, let '(out, w) := asked w in (Ret out, w));
  lift (fleet_snapshot exn_text f out tags);;
  closing;;
  mret 0.

Definition quote : ascii := chr 34.
Definition cmd_deploy_mcpd (name : option string) (local guest_path : string) : MQ Z :=
  make_fleet;;
  target ← resolved name;
  there ← gets (λ w, is_file local (outer w));
  if negb there then mret 1
  else
    binary ← on_outer (read_bytes local);
    survives (on_outer (Fs.fs_stat target guest_path));;
    timed (on_outer (System.fs_write target guest_path (str (b64_encode binary)) false None));;
    on_outer (exec_cmd target (txt "Protect " ++ quote :: txt guest_path ++ quote :: txt " +rwed") [] 30000);;
    closing;;
    mret 0.

Definition cmd_upload (name : option string) (a : upload_args) : MQ Z :=
  make_fleet;;
  target ← resolved name;
  timed (on_outer (chunked_upload target (ua_local a) (ua_remote a) (ua_chunk a) (ua_compression a)));;
  if ua_verify a then
    data ← on_outer (read_bytes (ua_local a));
    h ← on_outer (Fs.fs_hash target (ua_remote a) "sha256");
    closing;;
    mret (if decide (Fs.hash h = sha256 data) then 0 else 1)
  else closing;; mret 0.

(** The warm-up and the soak: how many calls were dropped. *)
Fixpoint warm_up (n : nat) (target : string) : MQ unit :=
  match n with
  | O => mret tt
  | S n => survives (on_outer (sys_uptime target));; on_outer (asleep 500);; warm_up n target
  end.
Fixpoint soak (n : nat) (target : string) (timeout_ms : Z) : MQ Z :=
  match n with
  | O => mret 0
  | S n =>
      ok ← survives (on_outer (events_wait target (Some ["sys.lastalert"]) timeout_ms));
      drops ← soak n target timeout_ms;
      mret (if ok : bool then drops else 1 + drops)
  end.
Definition cmd_events_soak (name : option string) (iterations timeout_ms : Z) : MQ Z :=
  make_fleet;;
  target ← resolved name;
  warm_up 3 target;;
  drops ← soak (Z.to_nat iterations) target timeout_ms;
  closing;;
  mret (if drops =? 0 then 0 else 1).

(* ------------------------------------------------------------------ *)
(** ** Guests *)

Definition cmd_qemu_start (name : option string) : MQ Z :=
  make_fleet;; target ← resolved name; qemu_start target;; closing;; mret 0.
Definition cmd_qemu_stop (name : option string) : MQ Z :=
  make_fleet;; target ← resolved name; qemu_stop target 10000 None;; closing;; mret 0.
Definition cmd_qemu_status (name : option string) : MQ Z :=
  make_fleet;; target ← resolved name; st ← qemu_status target; closing;; mret (if running st then 0 else 1).

(** [_wait_serial]: the text of the log once the pattern is in it. *)
Fixpoint wait_serial (fuel : nat) (log_path : string) (pattern : text) (deadline : Z) : MQ (option text) :=
  match fuel with
  | O => spin
  | S fuel =>
      now ← clock;
      if now <? deadline then
        there ← gets (λ w, is_file log_path (outer w));
        found ← (if there : bool then
                   b ← on_outer (read_bytes log_path);
                   mret (if search pattern (printable b) then Some (printable b) else None)
                 else mret None);
        match found with
        | Some t => mret (Some t)
        | None => on_outer (asleep 3000);; wait_serial fuel log_path pattern deadline
        end
      else mret None
  end.
Definition wait_fuel (timeout : Z) : nat := S (S (Z.to_nat (timeout / 3000))).
Definition wait_serial_for (log_path : string) (pattern : text) (timeout : Z) : MQ (option text) :=
  now ← clock; wait_serial (wait_fuel timeout) log_path pattern (now + timeout).
(** The wait for MCPd of a guest that was just started. *)
Fixpoint await_mcpd (n : nat) (target : string) : MQ bool :=
  match n with
  | O => mret false
  | S n =>
      st ← qemu_status target;
      if default false (mcpd_reachable st) then mret true else on_outer (asleep 3000);; await_mcpd n target
  end.
(** Sending the program, starting it and waiting for its marker: the exit code. *)
Definition deploy_and_wait (target : string) (a : run_args) (serial_log : option string) : MQ Z :=
  let remote := default ("SYS:Test/" +:+ name_of (exe a)) (truthy (remote_path a)) in
  on_outer (chunked_upload target (exe a) remote (10 * 1024 * 1024) CAuto);;
  on_outer (exec_cmd target (txt "Protect") [txt remote; txt "+e"] 30000);;
  survives (on_outer (exec_cmd target (txt "run") (txt remote :: default [] (words <$> exe_args a)) 15000));;
  match (p ← wait_marker a; if p is [] then None else Some p) with
  | None => mret 0
  | Some pattern =>
      match truthy serial_log with
      | None => mret 1
      | Some log => seen ← wait_serial_for log pattern (timeout a); mret (if seen is Some _ then 0 else 1)
      end
  end.
Definition cmd_qemu_run (name : option string) (a : run_args) : MQ Z :=
  make_fleet;;
  target ← resolved name;
  serial ← (if start a then r ← qemu_start target; mret (Some (sr_serial_log r)) else mret (given_log a));
  up ← (if start a then await_mcpd 80 target else mret true);
  if negb up then (if stop_after a then qemu_stop target 10000 None;; mret tt else mret tt);; closing;; mret 1
  else
    rc ← deploy_and_wait target a serial;
    (if stop_after a then qemu_stop target 10000 None;; mret tt else mret tt);;
    closing;;
    mret rc.
End cli.

(* ------------------------------------------------------------------ *)
(** ** What the commands leave *)

Section guests.
Context {E : Type} `{Children E, Tcp E, QmpClient E, QemuHost E, Wire E, Pydantic, Deploy E}.
Context (loaded : res exn Config) (sha256 : bytes → string) (search : text → text → bool) (name_of : string → string).
Implicit Types w : host E.

Lemma closing_run w : ∃ w', closing w = (Ret tt, w') ∧ told w' = told w ∧
  Forall (λ np, is_Some (poll np.2 (outer w'))) (qemu_processes (registry w)).
Proof.
  destruct (close_all_run (registry w) (outer w)) as (f & e & R & _ & _ & P).
  exists (Host f (clients w) e (told w)); split; [|done]; unfold closing; by rewrite R.
Qed.

(** [qemu_start] of the command line starts a guest and ends it.  When the
    command says it has started one, a guest of the target was launched and
    registered by this very call - and by the time the command is over that
    process has exited: closing the registry terminates it. *)
Theorem qemu_start_ends_guest name w : wp (cmd_qemu_start loaded name) (λ r w', match r with
  | Ret code => code = 0 ∧ ∃ cfg target w0 w1 a p,
      loaded = Ret cfg ∧ registry w0 = Fleet_init cfg ∧ resolve_target cfg name = Ret target ∧
      qemu_start target w0 = (Ret a, w1) ∧ told w' = told w ++ [EvSpawn (sr_cmdline a)] ∧
      assoc target (qemu_processes (registry w1)) = Some p ∧ sr_pid a = pid p ∧ is_Some (poll p (outer w'))
  | _ => True
  end) w.
Proof.
  unfold cmd_qemu_start, make_fleet.
  apply wp_bind, wp_bind, wp_lift; destruct loaded as [cfg|x|]; [|done..]; apply wp_modify.
  set (w0 := Host (Fleet_init cfg) (clients w) (outer w) (told w)).
  unfold resolved; apply wp_bind, wp_bind, wp_gets, wp_lift; simpl; unfold fleet_resolve_target; simpl.
  destruct (resolve_target cfg name) as [target|x|] eqn:T; [|by repeat case_match..].
  apply wp_bind; eapply wp_run; [apply surjective_pairing|].
  pose proof (qemu_start_spec target w0) as S; unfold wp in S.
  destruct (qemu_start target w0) as [r w1] eqn:Q; simpl in *; destruct r as [a|x|]; [|done..].
  destruct S as [[_ N]|(argv & ports & _ & To & [[N _]|(a' & p & Ea & C & _ & Pid & P)])];
    [by destruct (N a)|by destruct (N a)|injection Ea as <-].
  destruct (closing_run w1) as (w2 & R & Tw & Ex).
  apply wp_bind; eapply wp_run; [exact R|]; apply wp_ret; split; [done|].
  exists cfg, target, w0, w1, a, p; split_and!; try done; [by rewrite Tw, To, C|].
  rewrite Forall_forall in Ex; by apply (Ex (target, p)), assoc_elem.
Qed.
End guests.

(* ------------------------------------------------------------------ *)
(** ** Waiting for a marker *)

Section marker.
Context {E : Type} `{Outside E, Tcp E, QmpClient E, QemuHost E, Wire E, Pydantic, Deploy E}.
Context (loaded : res exn Config) (sha256 : bytes → string) (search : text → text → bool) (name_of : string → string).
Implicit Types w : host E.

(** The log held bytes, at some time, in which the pattern was found. *)
Definition seen_in (log : string) (pattern : text) : Prop :=
  ∃ b e e', read_bytes log e = (Ret b, e') ∧ search pattern (printable b) = true.

Lemma wait_serial_seen fuel log pattern deadline w :
  wp (wait_serial search fuel log pattern deadline)
    (λ r _, match r with Ret (Some t) => seen_in log pattern | _ => True end) w.
Proof.
  revert w; induction fuel as [|fuel IH]; intros w; simpl; [done|].
  unfold clock; apply wp_bind, wp_gets; case_match; [|done].
  apply wp_bind, wp_gets; destruct (is_file _ _).
  - apply wp_bind, wp_then; [|done..]; intros b w1 R.
    unfold on_outer in R; destruct (read_bytes log (outer w)) as [r e'] eqn:B; simplify_eq.
    apply wp_ret; destruct (search pattern (printable b)) eqn:S; [by exists b, (outer w), e'|].
    apply wp_then; [|done..]; intros [] w2 _; apply IH.
  - apply wp_bind, wp_ret, wp_then; [|done..]; intros [] w1 _; apply IH.
Qed.
Definition verdict (a : run_args) (log : option string) (r : res exn Z) : Prop :=
  match r with
  | Ret code => (code = 0 ∨ code = 1) ∧
      ∀ p, code = 0 → wait_marker a = Some p → p ≠ [] → ∃ l, log = Some l ∧ seen_in l p
  | _ => True
  end.
Lemma deploy_verdict target a log w : wp (deploy_and_wait search name_of target a log) (λ r _, verdict a log r) w.
Proof.
  unfold deploy_and_wait; do 3 (apply wp_then; [intros ? ? _|done..]); clear.
  destruct (wait_marker a) as [[|c p]|] eqn:W; simpl.
  - apply wp_ret; split; [by left|]; intros; by simplify_eq.
  - destruct log as [l|]; [destruct (truthy (Some l)) as [l'|] eqn:L|]; simpl.
    + assert (l' = l) as -> by (destruct l; simpl in L; congruence).
      unfold wait_serial_for, clock; apply wp_bind, wp_bind, wp_gets; eapply wp_mono; [apply wait_serial_seen|].
      intros [[t|]|x|] w1 S; try done; [|split; [by right|done]].
      split; [by left|]; intros; simplify_eq; by exists l.
    + split; [by right|done].
    + split; [by right|done].
  - apply wp_ret; split; [by left|]; intros; by simplify_eq.
Qed.

(** The verdict of [qemu_run].  Whatever the machine and the tools do, its exit
    code, when it has one, is 0 or 1; and with a marker to wait for it is 0 only if
    the pattern was found in the printable text of a serial log - the one QEMU was
    started with, or the one that was given. *)
Theorem qemu_run_verdict name a w :
  wp (cmd_qemu_run loaded search name_of name a) (λ r _, match r with
    | Ret code => (code = 0 ∨ code = 1) ∧
        ∀ p, code = 0 → wait_marker a = Some p → p ≠ [] →
          ∃ l, seen_in l p ∧
            if start a then ∃ target w0 s w1, qemu_start target w0 = (Ret s, w1) ∧ l = sr_serial_log s else given_log a = Some l
    | _ => True
    end) w.
Proof.
  unfold cmd_qemu_run; apply wp_then; [intros [] w1 _|done..]; apply wp_then; [intros target w2 _|done..].
  apply wp_then; [intros log w3 L|done..]; apply wp_then; [intros up w4 _|done..].
  destruct up; simpl.
  - apply wp_bind; eapply wp_mono; [apply deploy_verdict|]; intros [code|x|] w5 V; [|done..].
    apply wp_then; [intros [] w6 _|done..]; apply wp_then; [intros [] w7 _|done..]; apply wp_ret.
    destruct V as [Codes V]; split; [done|]; intros p Z P N; destruct (V p Z P N) as (l & -> & S); exists l; split; [done|].
    destruct (start a); [|by injection L].
    unfold mbind, M_bind in L; destruct (qemu_start target w2) as [[s|x|] w8] eqn:Q; simplify_eq.
    injection L as <- _; by exists target, w2, s, w8.
  - apply wp_then; [intros [] w5 _|done..]; apply wp_then; [intros [] w6 _|done..]; apply wp_ret; split; [by right|done].
Qed.

(** Reading a file ends and takes no time back; sleeping takes the time asked for. *)
Class Ticking := {
  read_ticks p e : (read_bytes p e).1 ≠ Spin ∧ mono e ≤ mono (read_bytes p e).2;
  sleep_ticks d e : 0 ≤ d → (asleep d e).1 = Ret tt ∧ mono e + d ≤ mono (asleep d e).2 }.
Lemma wait_serial_over `{!Ticking} n log pattern deadline w : deadline - mono (outer w) ≤ 3000 * Z.of_nat n →
  wp (wait_serial search (S n) log pattern deadline) (λ r w', match r with
    | Ret None => deadline ≤ mono (outer w')
    | Spin => False
    | _ => True
    end) w.
Proof.
  assert (∀ n w, (∀ w', deadline - mono (outer w') ≤ 3000 * Z.of_nat n →
      wp (wait_serial search (S n) log pattern deadline) (λ r w', match r with
        Ret None => deadline ≤ mono (outer w') | Spin => False | _ => True end) w') →
    deadline - mono (outer w) ≤ 3000 * Z.of_nat (S n) →
    wp (on_outer (asleep 3000);; wait_serial search (S n) log pattern deadline) (λ r w', match r with
        Ret None => deadline ≤ mono (outer w') | Spin => False | _ => True end) w) as Sleep.
  { clear w n; intros n w K Le; destruct (sleep_ticks 3000 (outer w) ltac:(lia)) as [R T].
    apply wp_bind; unfold wp at 1, on_outer; destruct (asleep 3000 (outer w)) as [r e']; simpl in *; subst r.
    apply K; simpl; lia. }
  revert w; induction n as [|n IH]; intros w Le; cbn [wait_serial]; unfold clock; apply wp_bind, wp_gets;
    destruct (Z.ltb_spec (mono (outer w)) deadline); try lia; [by apply wp_ret| |by apply wp_ret].
  apply wp_bind, wp_gets; destruct (is_file _ _).
  - destruct (read_ticks log (outer w)) as [N T]; apply wp_bind, wp_bind; unfold wp at 1, on_outer.
    destruct (read_bytes log (outer w)) as [[b|x|] e']; simpl in *; [|done..].
    apply wp_ret; case_match; [done|]; apply Sleep; simpl; [done|lia].
  - apply wp_bind, wp_ret, Sleep; [done|lia].
Qed.
(** The wait for a marker ends: by finding it, by an error of the host's files, or
    once the time is over. *)
Lemma wait_serial_ends `{!Ticking} log pattern t w : wp (wait_serial_for search log pattern t) (λ r w', match r with
    | Ret None => mono (outer w) + t ≤ mono (outer w')
    | Spin => False
    | _ => True
    end) w.
Proof.
  unfold wait_serial_for, clock; apply wp_bind, wp_gets; unfold wait_fuel; apply wait_serial_over.
  pose proof (Z.mod_pos_bound t 3000 ltac:(lia)); pose proof (Z.div_mod t 3000 ltac:(lia)); lia.
Qed.
End marker.

(* ------------------------------------------------------------------ *)
(** ** Examples *)

(** The host of [QemuProps.v] with a machine that takes what it is sent. *)
#[local] Existing Instances lab_outside lab_tcp lab_qmp lab_host.
#[local] Instance lab_children : Children lab.
Proof.
  assert (∀ c e, exits_stay e (exit_as c e)) as Stay by (intros c e p x X; change (exits e p = Some x) in X; change (Some (default c (exits e p)) = Some x); by rewrite X).
  split.
  - intros t e; by exists e.
  - intros p e; eexists _, _; split_and!; [done|apply Stay|by left].
  - intros p t e; eexists _, _; split_and!; [done..|]; simpl; destruct (exits e p); [left; by split; [|eexists]|by right].
  - intros p e; eexists; split_and!; [done|apply Stay|done].
Defined.
#[local] Instance lab_wire : Wire lab := {| ask_daemon _ _ _ _ := mret (JObj []) |}.
#[local] Instance lab_deploy : Deploy lab := {|
  exec_cmd _ _ _ _ := mret tt;
  chunked_upload _ _ _ _ _ := mret (stats0 3);
  is_file _ _ := true |}.
#[local] Existing Instance strict.
Definition cold_lab : host lab := Host (Fleet_init ex_config) ∅ (Lab (λ _, None) 60000 [] None true (Ret JNull)) [].
Definition ex_loaded : res exn Config := Ret (config QemuProps.ex_fleet).
Abbreviation ex_start := (cmd_qemu_start (E := lab) ex_loaded (Some "sam") cold_lab).
Lemma qemu_start_ends_guest_witness :
  ex_start.1 = Ret 0 ∧
  ∃ w0 w1 a p, qemu_start (E := lab) "sam" w0 = (Ret a, w1) ∧ told ex_start.2 = [EvSpawn (sr_cmdline a)] ∧
    assoc "sam" (qemu_processes (registry w1)) = Some p ∧ is_Some (poll p (outer ex_start.2)).
Proof.
  assert (ex_start.1 = Ret 0) as R by (vm_compute; reflexivity).
  split; [exact R|].
  destruct (wp_value _ _ _ _ (qemu_start_ends_guest (E := lab) ex_loaded (Some "sam") cold_lab) R) as (_ & cfg & target & w0 & w1 & a & p & L & _ & N & Q & To & P & _ & X).
  injection L as <-; assert (target = "sam") as -> by (vm_compute in N; congruence).
  exists w0, w1, a, p; split; [exact Q|]; split; [exact To|]; split; [exact P|exact X].
Defined.

Definition ex_search (pattern t : text) : bool := contains pattern t.
Definition ex_args (marker : string) : run_args :=
  RunArgs "hello" None None (Some (txt marker)) 9000 (Some "serial.log") false false.
Abbreviation ex_run marker := (cmd_qemu_run (E := lab) ex_loaded ex_search id (Some "sam") (ex_args marker) cold_lab).
Lemma qemu_run_verdict_witness :
  (ex_run "pn").1 = Ret 0 ∧ (ex_run "panic").1 = Ret 1 ∧
  ∃ l, seen_in (E := lab) ex_search l (txt "pn").
Proof.
  assert ((ex_run "pn").1 = Ret 0) as R by (vm_compute; reflexivity).
  split; [exact R|]; split; [vm_compute; reflexivity|].
  destruct (wp_value _ _ _ _ (qemu_run_verdict (E := lab) ex_loaded ex_search id (Some "sam") (ex_args "pn") cold_lab) R) as [_ V].
  destruct (V (txt "pn") eq_refl eq_refl ltac:(discriminate)) as (l & S & _); exists l; exact S.
Defined.
(** A program that cannot be sent leaves the guest running, [--stop] or not. *)
Example qemu_run_leaves_guest :
  let refuse : Deploy lab := {| exec_cmd _ _ _ _ := mret tt; is_file _ _ := true;
                                chunked_upload _ _ _ _ _ := raise (ERpc TargetError None) |} in
  let '(r, w) := cmd_qemu_run (H5 := refuse) ex_loaded ex_search id (Some "sam")
    (RunArgs "hello" None None None 9000 None true true) cold_lab in
  r = Raise (ERpc TargetError None) ∧ poll 2%nat (outer w) = None.
Proof. vm_compute. done. Qed.
