(* ===== verification/Snapshots.v ===== *)
(** * VM snapshots: [tools/snapshots.py]

    The four tools that drive QEMU's monitor, and the reading of its table of
    snapshots. *)
From S2P Require Import Prelude Py Lines Config Fleet Qmp.

(* ------------------------------------------------------------------ *)
(** ** Reading the table *)

Record snapshot_entry := Entry {
  id : text; name : text; vm_size : option text; date : option text; vm_clock : option text }.

(** The runs of non-space characters with the space after each, as the groups
    [\S+] and [\s+] of a pattern divide a text that starts with one. *)
Fixpoint tokens_aux (s w g : text) : list (text * text) :=
  match s with
  | [] => match w with [] => [] | _ => [(w, g)] end
  | c :: s =>
      if is_space c then tokens_aux s w (g ++ [c])
      else match g with
           | [] => tokens_aux s (w ++ [c]) []
           | _ => (w, g) :: tokens_aux s [c] []
           end
  end.
Definition tokens (s : text) : list (text * text) := tokens_aux s [] [].

(** [[\d\-*]+] and [[\d:.]+] *)
Definition id_char (c : ascii) : bool := is_decimal c || bool_decide (c = "-"%char) || bool_decide (c = "*"%char).
Definition clock_char (c : ascii) : bool := is_decimal c || bool_decide (c = ":"%char) || bool_decide (c = "."%char).
(** [_SNAPLINE_RE.match] of a stripped line: the size is one or two words, the
    date two, each with the space between. *)
Definition snapline (s : text) : option snapshot_entry :=
  let entry i n size d clk :=
    if forallb id_char i && forallb clock_char clk then Some (Entry i n (Some size) (Some d) (Some clk)) else None in
  match tokens s with
  | [(i, _); (n, _); (v, _); (d1, g); (d2, _); (clk, _)] => entry i n v (d1 ++ g ++ d2) clk
  | [(i, _); (n, _); (v1, h); (v2, _); (d1, g); (d2, _); (clk, _)] => entry i n (v1 ++ h ++ v2) (d1 ++ g ++ d2) clk
  | _ => None
  end.
Definition is_header (s : text) : bool :=
  startswith (txt "ID") s || startswith (txt "--") s || startswith (txt "List") s.
(** The row of a line: the pattern, or else its first two fields. *)
Definition row_of (s : text) : list snapshot_entry :=
  match snapline s with
  | Some e => [e]
  | None => match words s with
            | i :: n :: _ => [Entry i n None None None]
            | _ => []
            end
  end.
Fixpoint parse_lines (seen_header : bool) (lines : list text) : list snapshot_entry :=
  match lines with
  | [] => []
  | line :: lines =>
      let s := strip line in
      match s with
      | [] => parse_lines seen_header lines
      | _ =>
          if is_header s then parse_lines true lines
          else if negb seen_header then parse_lines seen_header lines
          else row_of s ++ parse_lines seen_header lines
      end
  end.
Definition parse_info_snapshots (out : text) : list snapshot_entry := parse_lines false (splitlines out).

(** [_ERR_PATTERNS.search]: the first two at the start of a line, any case. *)
Definition hmp_failed (out : text) : bool :=
  let low := map lower out in
  existsb (λ l, startswith (txt "error:") l || startswith (txt "qemu-system-ppc:") l) (split_on lf low)
  || contains (txt "cannot") low || contains (txt "unable to") low || contains (txt "not found") low.

(* ------------------------------------------------------------------ *)
(** ** The tools *)

Record vm_result := VmResult { vr_target : string; vr_name : string; vr_output : string }.
Record list_result := ListResult { lr_target : string; snapshots : list snapshot_entry; raw : string }.

Section tools.
Context {E : Type} `{QmpClient E}.
Abbreviation MQ := (M (host E) exn).
Definition check_hmp_error (out : string) : MQ unit :=
  if hmp_failed (txt out) then raise (ERpc TargetError (Some (JObj [("hmp_output", JStr out)]))) else mret tt.
(** [qemu_savevm], [qemu_loadvm] and [qemu_delete_snapshot] differ in the verb. *)
Definition vm_command (verb : string) (target name : string) : MQ vm_result :=
  t ← on_fleet (fleet_qmp target);
  out ← hmp t (verb +:+ " " +:+ name);
  check_hmp_error out;;
  mret (VmResult target name out).
Definition qemu_savevm : string → string → MQ vm_result := vm_command "savevm".
Definition qemu_loadvm : string → string → MQ vm_result := vm_command "loadvm".
Definition qemu_delete_snapshot : string → string → MQ vm_result := vm_command "delvm".
Definition qemu_list_snapshots (target : string) : MQ list_result :=
  t ← on_fleet (fleet_qmp target);
  out ← hmp t "info snapshots";
  mret (ListResult target (parse_info_snapshots (txt out)) out).
End tools.

(* ------------------------------------------------------------------ *)
(** ** A table is read back *)

(** A row as QEMU prints it: fields with blanks after each. *)
Record row := Row { r_id : text; r_name : text; r_size : text * option text; r_day : text; r_time : text; r_clock : text;
  r_gap : text }.
Definition word (w : text) : Prop := w ≠ [] ∧ Forall (λ c, is_space c = false) w.
#[export] Instance word_dec w : Decision (word w).
Proof. unfold word. apply _. Defined.
Definition row_ok (r : row) : Prop :=
  word (r_id r) ∧ forallb id_char (r_id r) = true ∧ word (r_name r) ∧ word (r_size r).1 ∧
  match (r_size r).2 with Some u => word u | None => True end ∧ word (r_day r) ∧ word (r_time r) ∧
  word (r_clock r) ∧ forallb clock_char (r_clock r) = true ∧
  r_gap r ≠ [] ∧ Forall (λ c, is_space c = true ∧ is_break c = false) (r_gap r).
#[export] Instance row_ok_dec r : Decision (row_ok r).
Proof.
  unfold row_ok. assert (Decision match (r_size r).2 with Some u => word u | None => True end)
    by (destruct ((r_size r).2); apply _). apply _.
Defined.
Definition fields (r : row) : list text :=
  [r_id r; r_name r; (r_size r).1] ++ option_list (r_size r).2 ++ [r_day r; r_time r; r_clock r].
Definition shown (r : row) : text := mjoin (map (λ w, w ++ r_gap r) (fields r)).
Definition entry_of (r : row) : snapshot_entry :=
  Entry (r_id r) (r_name r)
    (Some (match (r_size r).2 with Some u => (r_size r).1 ++ r_gap r ++ u | None => (r_size r).1 end))
    (Some (r_day r ++ r_gap r ++ r_time r)) (Some (r_clock r)).
(** The header line of the table. *)
Definition header_line : text := txt "ID        TAG               VM SIZE                DATE       VM CLOCK".

Lemma tokens_word w s a : Forall (λ c, is_space c = false) w → tokens_aux (w ++ s) a [] = tokens_aux s (a ++ w) [].
Proof.
  intros Hw. revert a. induction Hw as [|c w Hc _ IH]; intros a; simpl; [by rewrite app_nil_r|].
  rewrite Hc, IH. by rewrite <-(assoc_L (++)).
Qed.
Lemma tokens_gap g s a h : Forall (λ c, is_space c = true) g → tokens_aux (g ++ s) a h = tokens_aux s a (h ++ g).
Proof.
  intros Hg. revert h. induction Hg as [|c g Hc _ IH]; intros h; simpl; [by rewrite app_nil_r|].
  rewrite Hc, IH. by rewrite <-(assoc_L (++)).
Qed.
Lemma tokens_fields g ws last : g ≠ [] → Forall (λ c, is_space c = true) g → Forall word ws → word last →
  tokens (mjoin (map (λ w, w ++ g) ws) ++ last) = map (λ w, (w, g)) ws ++ [(last, [])].
Proof.
  intros Hne Hg Hws [Hlne Hl]. unfold tokens.
  assert (tokens_aux last [] [] = [(last, [])]) as Hlast.
  { rewrite <-(app_nil_r last) at 1. rewrite tokens_word by done. simpl. by destruct last. }
  assert (∀ s w, word w → s ≠ [] → Forall (λ c, is_space c = false) (take 1 s) →
    tokens_aux (w ++ g ++ s) [] [] = (w, g) :: tokens_aux s [] []) as Hstep.
  { intros s w [Hwne Hw] Hs Hs1. rewrite tokens_word, tokens_gap by done. simpl.
    destruct s as [|c s]; [done|]. apply Forall_cons in Hs1 as [Hc _]. simpl. rewrite Hc. by destruct g. }
  assert (∀ ws, Forall word ws → let s := mjoin (map (λ w, w ++ g) ws) ++ last in
    s ≠ [] ∧ Forall (λ c, is_space c = false) (take 1 s)) as Hhead.
  { intros us Hus. destruct Hus as [|u us [Hune Hu] _].
    - split; [done|]. by apply Forall_take.
    - cbn [map]. rewrite mjoin_cons. destruct u as [|c u]; [done|]. split; [done|].
      simpl. apply Forall_cons in Hu as [Hc _]. by constructor. }
  induction Hws as [|w ws Hw Hws IH]; [exact Hlast|].
  cbn [map]. rewrite mjoin_cons, <-!(assoc_L (++)). destruct (Hhead ws Hws). rewrite Hstep by done. by rewrite IH.
Qed.

Definition init_fields (r : row) : list text :=
  [r_id r; r_name r; (r_size r).1] ++ option_list (r_size r).2 ++ [r_day r; r_time r].
Definition body (r : row) : text := mjoin (map (λ w, w ++ r_gap r) (init_fields r)) ++ r_clock r.
Lemma shown_body r : shown r = body r ++ r_gap r.
Proof.
  unfold shown, body, fields, init_fields. destruct (r_size r) as [v [u|]]; simpl; by rewrite <-?(assoc_L (++)), ?app_nil_r.
Qed.
Lemma space_not_break c : is_space c = false → is_break c = false.
Proof. unfold is_space, is_break, in_range. lia. Qed.
Lemma dropwhile_all {A} (f : A → bool) l k : Forall (λ x, f x = true) l → dropwhile f (l ++ k) = dropwhile f k.
Proof. induction 1 as [|x l Hx _ IH]; simpl; [done|]. by rewrite Hx. Qed.
Lemma strip_body a b g : word a → word b → Forall (λ c, is_space c = true) g → ∀ m, strip (a ++ m ++ b ++ g) = a ++ m ++ b.
Proof.
  intros [Ha Has] [Hb Hbs] Hg m. unfold strip, lstrip, rstrip, rstrip_of.
  assert (dropwhile is_space (a ++ m ++ b ++ g) = a ++ m ++ b ++ g) as ->.
  { destruct a as [|c a]; [done|]. apply Forall_cons in Has as [Hc _]. simpl. by rewrite Hc. }
  replace (a ++ m ++ b ++ g) with ((a ++ m ++ b) ++ g) by (by rewrite <-!(assoc_L (++))).
  rewrite (reverse_app (a ++ m ++ b) g), dropwhile_all by (by apply Forall_reverse).
  destruct b as [|c b _] using rev_ind; [done|]. apply Forall_app in Hbs as [_ [Hc _]%Forall_cons].
  rewrite !(assoc_L (++)), reverse_snoc. simpl. rewrite Hc.
  by rewrite <-reverse_snoc, reverse_involutive.
Qed.
Lemma row_words r : row_ok r → Forall word (init_fields r) ∧ Forall (λ c, is_space c = true) (r_gap r).
Proof.
  intros (Hi & _ & Hn & Hv & Hu & Hd & Ht & _ & _ & _ & Hg). split.
  - unfold init_fields. destruct (r_size r) as [v [u|]]; simpl in *; by repeat (apply Forall_cons_2; [done|]).
  - eapply Forall_impl; [exact Hg|naive_solver].
Qed.
Lemma strip_shown r : row_ok r → strip (shown r) = body r.
Proof.
  intros Hok. destruct (row_words r Hok) as [_ Hg]. destruct Hok as (Hi & _ & _ & _ & _ & _ & _ & Hc & _).
  rewrite shown_body. unfold body, init_fields. cbn [map app]. rewrite mjoin_cons.
  rewrite <-!(assoc_L (++)). rewrite 2!(assoc_L (++) (r_gap r)). by apply strip_body.
Qed.
Lemma shown_one_line r : row_ok r → Forall (λ c, is_break c = false) (shown r).
Proof.
  intros Hok. destruct (row_words r Hok) as [Hws _]. destruct Hok as (_ & _ & _ & _ & _ & _ & _ & [_ Hc] & _ & _ & Hg).
  assert (Forall (λ c, is_break c = false) (r_gap r)) as Hgb by (eapply Forall_impl; [exact Hg|naive_solver]).
  assert (∀ w, Forall (λ c, is_space c = false) w → Forall (λ c, is_break c = false) w) as Hsp.
  { intros w Hw. eapply Forall_impl; [exact Hw|]. apply space_not_break. }
  rewrite shown_body. unfold body. rewrite !Forall_app. split_and!; [|by apply Hsp|done].
  induction Hws as [|w ws [_ Hw] _ IH]; [done|]. cbn [map]. rewrite mjoin_cons, !Forall_app. auto.
Qed.
Lemma snapline_body r : row_ok r → snapline (body r) = Some (entry_of r).
Proof.
  intros Hok. destruct (row_words r Hok) as [Hws Hg].
  destruct Hok as (_ & Hid & _ & _ & _ & _ & _ & Hc & Hck & Hgne & _).
  unfold snapline, body. rewrite tokens_fields by done. unfold init_fields, entry_of.
  destruct (r_size r) as [v [u|]]; simpl; by rewrite Hid, Hck.
Qed.
Lemma header_body r : row_ok r → is_header (body r) = startswith (txt "--") (r_id r).
Proof.
  intros ([Hne His] & Hid & _ & _ & _ & _ & _ & _ & _ & Hgne & Hg). unfold is_header, body, init_fields.
  cbn [map app]. rewrite mjoin_cons. destruct (r_id r) as [|c i]; [done|].
  cbn [forallb] in Hid. apply andb_true_iff in Hid as [Hc _].
  assert (c ≠ "I"%char ∧ c ≠ "L"%char) as [HI HL] by (split; intros ->; by vm_compute in Hc).
  destruct (r_gap r) as [|g gs]; [done|]. apply Forall_cons in Hg as [[Hgs _] _].
  assert (g ≠ "-"%char) as Hgd by (intros ->; by vm_compute in Hgs).
  simpl. rewrite (bool_decide_eq_false_2 ("I"%char = c)), (bool_decide_eq_false_2 ("L"%char = c)) by done.
  rewrite orb_false_r. simpl. destruct i as [|d i]; simpl; [|done].
  by rewrite (bool_decide_eq_false_2 ("-"%char = g)).
Qed.
(** the rows of a table of snapshots are read back field by field, in
    order, sizes of one or two words alike - except the rows whose ID is [--],
    which are taken for part of the header and lost. *)
Theorem snapshots_read rows : Forall row_ok rows →
  parse_info_snapshots (mjoin (map (λ l, l ++ [lf]) (header_line :: map shown rows))) =
  map entry_of (filter (λ r, startswith (txt "--") (r_id r) = false) rows).
Proof.
  intros Hok. unfold parse_info_snapshots. rewrite splitlines_lf.
  2:{ constructor; [apply (bool_decide_unpack _); by vm_compute|]. apply Forall_map.
      eapply Forall_impl; [exact Hok|]. apply shown_one_line. }
  change (parse_lines false (header_line :: map shown rows)) with (parse_lines true (map shown rows)).
  induction Hok as [|r rows Hr _ IH]; [done|]. cbn [map parse_lines].
  rewrite strip_shown, header_body, filter_cons, IH by done.
  assert (body r ≠ []) as Hne.
  { destruct Hr as ([Hne _] & _). unfold body, init_fields. cbn [map app]. rewrite mjoin_cons. by destruct (r_id r). }
  destruct (body r) as [|c b] eqn:Hb; [done|]. rewrite <-Hb. unfold row_of. rewrite snapline_body by done.
  by destruct (startswith (txt "--") (r_id r)).
Qed.

(* ------------------------------------------------------------------ *)
(** ** Examples *)

Definition ex_row (i n : string) (size : string * option string) : row :=
  {| r_id := txt i; r_name := txt n; r_size := (txt size.1, txt <$> size.2); r_day := txt "2026-04-29";
     r_time := txt "09:01:23"; r_clock := txt "00:01:03.213"; r_gap := txt "  " |}.
Definition ex_rows : list row :=
  [ex_row "1" "before-test" ("4.2", Some "GiB"); ex_row "2" "after" ("12MiB", None);
   ex_row "--" "on-every-disk" ("4.2", Some "GiB")]%string.
(** The table as QEMU prints it when a snapshot is on every disk. *)
Lemma snapshots_read_witness :
  parse_info_snapshots (mjoin (map (λ l, l ++ [lf]) (header_line :: map shown ex_rows))) =
    map entry_of (take 2 ex_rows).
Proof.
  rewrite (snapshots_read ex_rows); [vm_compute; reflexivity|].
  apply (bool_decide_unpack _). vm_compute. exact I.
Defined.
Example ex_hmp_failed :
  hmp_failed (txt "Error: cannot do that") = true ∧ hmp_failed (txt "qemu-system-ppc: x") = true ∧
  hmp_failed (txt "ID 1 created") = false.
Proof. vm_compute. done. Qed.
