(* ===== verification/Discovery.v ===== *)
(** * Discovery on the network: [transports/discovery.py] and
    [tools/fleet_discover.py]

    UDP probes to broadcast addresses and to the forwarded port of every QEMU
    target, and what their answers are reported as.  Times are in
    milliseconds. *)
From S2P Require Import Prelude Py Config Net Fleet Cmdline.

Abbreviation addr := (string * Z)%type.
(** The socket, the clock and the names of this host. *)
Class Udp (E : Type) := {
  udp_open : M E exn unit;
  udp_close : M E exn unit;
  sendto : bytes → addr → M E exn unit;
  recvfrom : Z → M E exn (bytes * addr);
  udp_clock : E → Z;
  token_hex : M E exn string;
  own_addresses : M E exn (list (option string)) }.

Definition DISCOVERY_PORT : Z := 4323.
Definition DEFAULT_BROADCAST : string := "255.255.255.255".

(** A [dict] whose keys are addresses, in insertion order. *)
Fixpoint put {A} (k : addr) (v : A) (d : list (addr * A)) : list (addr * A) :=
  match d with
  | [] => [(k, v)]
  | (k', v') :: d' => if decide (k' = k) then (k, v) :: d' else (k', v') :: put k v d'
  end.
Fixpoint look {A} (k : addr) (d : list (addr * A)) : option A :=
  match d with
  | [] => None
  | (k', v) :: d' => if decide (k' = k) then Some v else look k d'
  end.

(** What is reported of a responder. *)
Record found := Found {
  f_ip : string; f_port : Z; f_server : json; f_protocol : json; f_host : json; f_methods : Z;
  f_latency : Z; f_endpoint : string; f_target : option string }.
(** [endpoint_map]: the endpoint and the target known for a source address. *)
Definition endpoint_map := list (addr * (string * string)).

(** [".".join([*parts[:3], "255"])] of a dotted address, if it is to be used. *)
Definition subnet_broadcast (ip : option string) : option string :=
  match ip with
  | None => None
  | Some ip =>
      if startswith (txt "127.") (txt ip) then None
      else match split_on "."%char (txt ip) with
           | [a; b; c; _] => Some (str (join (txt ".") [a; b; c; txt "255"]))
           | _ => None
           end
  end.
Definition add_new {A} `{EqDecision A} (x : A) (l : list A) : list A := if decide (x ∈ l) then l else l ++ [x].
Definition add_broadcast (out : list string) (ip : option string) : list string :=
  match subnet_broadcast ip with Some b => add_new b out | None => out end.
(** [sorted(..., key=(latency, ip))], stable. *)
Definition row_le (a b : found) : bool :=
  (f_latency a <? f_latency b) || ((f_latency a =? f_latency b) && bool_decide (String.le (f_ip a) (f_ip b))).
Fixpoint insert_row (x : found) (l : list found) : list found :=
  match l with
  | [] => [x]
  | y :: l => if row_le x y then x :: y :: l else y :: insert_row x l
  end.
Fixpoint sort_rows (l : list found) : list found :=
  match l with [] => [] | x :: l => insert_row x (sort_rows l) end.

(** The arguments of [int(obj.get(k) or d)] and [obj.get(k, "?")]. *)
Definition int_or (k : string) (d : Z) (obj : list (string * json)) : res exn Z :=
  match assoc k obj with
  | Some v => if json_truth v then py_int v else Ret d
  | None => Ret d
  end.
Definition or_unknown (k : string) (obj : list (string * json)) : json := default (JStr "?") (assoc k obj).

Inductive receipt := Datagram (data : bytes) (peer : addr) | TimedOut | Failed.

Section discovery.
Context {E : Type} `{Udp E} (loads : bytes → option json) (probe_text : string → bytes).
Abbreviation ME := (M E exn).

Definition local_subnet_broadcasts : ME (list string) :=
  ips ← catch own_addresses (λ e, if is_oserror e then mret [] else raise e);
  mret (foldl add_broadcast [DEFAULT_BROADCAST] ips).

(** [None] for what is not an answer to this probe. *)
Definition parse_response (data : bytes) (expected_tag : string) : option (list (string * json)) :=
  match loads data with
  | Some (JObj obj) =>
      if match assoc "mcp_discovery" obj with Some v => eq_int v 1 | None => false end
         && match assoc "tag" obj with Some (JStr t) => bool_decide (t = expected_tag) | _ => false end
      then Some obj else None
  | _ => None
  end.

(** The body of the loop after a datagram was parsed. *)
Definition row_for (m : endpoint_map) (sent_at now : Z) (obj : list (string * json)) (peer : addr) : ME (addr * found) :=
  tcp_port ← lift (int_or "tcp_port" 4322 obj);
  let override := look peer m in
  let known := truthy (fst <$> override) in
  let endpoint := default (peer.1 +:+ ":" +:+ str (show_int tcp_port)) known in
  tcp_port ← match known with
             | Some e => match rpartition ":" (txt e) with
                         | Some (_, p) => lift (match int_of_text 10 p with Some z => Ret z | None => Raise (EPy ValueError) end)
                         | None => raise (EPy IndexError)
                         end
             | None => mret tcp_port
             end;
  methods ← lift (int_or "methods" 0 obj);
  mret ((peer.1, tcp_port),
        Found peer.1 tcp_port (or_unknown "server" obj) (or_unknown "protocol" obj) (or_unknown "host" obj) methods
          (now - sent_at) endpoint (snd <$> override)).
Definition receive (remaining : Z) : ME receipt :=
  catch ('(data, peer) ← recvfrom remaining; mret (Datagram data peer))
    (λ e, if is_timeout e then mret TimedOut else if is_oserror e then mret Failed else raise e).
(** The loop runs until the deadline, over any number of datagrams. *)
Fixpoint collect (fuel : nat) (tag : string) (m : endpoint_map) (sent_at deadline : Z)
    (seen : list (addr * found)) : ME (list (addr * found)) :=
  match fuel with
  | O => spin
  | S fuel =>
      t ← gets udp_clock;
      let remaining := deadline - t in
      if remaining <=? 0 then mret seen
      else
        r ← receive remaining;
        match r with
        | TimedOut => mret seen
        | Failed => collect fuel tag m sent_at deadline seen
        | Datagram data peer =>
            now ← gets udp_clock;
            match parse_response data tag with
            | None => collect fuel tag m sent_at deadline seen
            | Some obj =>
                '(key, row) ← row_for m sent_at now obj peer;
                collect fuel tag m sent_at deadline (put key row seen)
            end
        end
  end.

Definition probe_targets (broadcasts : list string) (loopback : bool) (extra : list addr) : list addr :=
  let base := map (λ a, (a, DISCOVERY_PORT)) broadcasts in
  let base := if loopback then add_new ("127.0.0.1"%string, DISCOVERY_PORT) base else base in
  foldl (λ l p, add_new p l) base extra.
Fixpoint send_probes (probe : bytes) (targets : list addr) : ME unit :=
  match targets with
  | [] => mret tt
  | a :: targets =>
      catch (sendto probe a) (λ e, if is_oserror e then mret tt else raise e);;
      send_probes probe targets
  end.
Definition discover (fuel : nat) (timeout : Z) (broadcast_addrs : option (list string)) (loopback : bool)
    (extra : list addr) (m : endpoint_map) : ME (list found) :=
  addrs ← match broadcast_addrs with Some a => mret a | None => local_subnet_broadcasts end;
  tag ← token_hex;
  udp_open;;
  sent_at ← gets udp_clock;
  send_probes (probe_text tag) (probe_targets addrs loopback extra);;
  seen ← finally (collect fuel tag m sent_at (sent_at + timeout) []) udp_close;
  mret (sort_rows seen.*2).

(* ------------------------------------------------------------------ *)
(** ** The tool *)

(** One target of [_qemu_probe_plan]. *)
Definition plan_one (kv : string * TargetConfig) : ME (option (addr * (string * string))) :=
  let '(name, cfg) := kv in
  if decide (type cfg = Remote) then mret None
  else match mcpd (channels cfg) with
       | Some ch =>
           if mcpd_enabled ch then
             let host := default "127.0.0.1"%string (truthy (Some (endpoint_host (mcpd_endpoint ch)))) in
             disc_port ← match discovery_port ch with
                         | Some p => mret p
                         | None => lift (endpoint_port (mcpd_endpoint ch))
                         end;
             mret (Some ((host, disc_port), (mcpd_endpoint ch, name)))
           else mret None
       | None => mret None
       end.
Fixpoint plan_each (ts : list (string * TargetConfig)) (probes : list addr) (m : endpoint_map) : ME (list addr * endpoint_map) :=
  match ts with
  | [] => mret (probes, m)
  | t :: ts =>
      o ← plan_one t;
      match o with
      | Some (a, e) => plan_each ts (probes ++ [a]) (put a e m)
      | None => plan_each ts probes m
      end
  end.
Definition qemu_probe_plan (fl : Fleet) : ME (list addr * endpoint_map) := plan_each (targets (config fl)) [] [].
(** [DiscoveredTarget(...)]: three fields must be strings. *)
Definition is_jstr (j : json) : bool := match j with JStr _ => true | _ => false end.
Definition validate_found (f : found) : bool := is_jstr (f_server f) && is_jstr (f_protocol f) && is_jstr (f_host f).
Definition fleet_discover (fl : Fleet) (fuel : nat) (timeout_ms : Z) : ME (list found) :=
  '(probes, m) ← qemu_probe_plan fl;
  out ← discover fuel timeout_ms None true probes m;
  if forallb validate_found out then mret out else raise (EPy ValidationError).
End discovery.

(* ------------------------------------------------------------------ *)
(** ** Addresses and rows *)

Lemma look_put {A} k k' (v : A) d : look k' (put k v d) = if decide (k = k') then Some v else look k' d.
Proof.
  induction d as [|[k0 v0] d IH]; simpl; [done|].
  destruct (decide (k0 = k)) as [->|]; simpl; repeat case_decide; congruence.
Qed.
Lemma look_elem {A} k (v : A) d : look k d = Some v → (k, v) ∈ d.
Proof. induction d as [|[k0 v0] d IH]; csimpl; [done|]. case_decide; simplify_eq; set_solver. Qed.
Lemma put_elem {A} k (v : A) d x : x ∈ put k v d → x = (k, v) ∨ x ∈ d.
Proof. induction d as [|[k0 v0] d IH]; csimpl; [set_solver|]. case_decide; set_solver. Qed.
Lemma put_keys {A} k (v : A) d : (put k v d).*1 = if decide (k ∈ d.*1) then d.*1 else d.*1 ++ [k].
Proof.
  induction d as [|[k0 v0] d IH]; csimpl; [done|]. destruct (decide (k0 = k)) as [->|]; csimpl.
  - rewrite decide_True; [done|set_solver].
  - rewrite IH. repeat case_decide; set_solver.
Qed.
Lemma put_NoDup {A} k (v : A) d : NoDup d.*1 → NoDup (put k v d).*1.
Proof.
  intros Hnd. rewrite put_keys. case_decide; [done|].
  apply NoDup_app. split_and!; [done|set_solver|apply NoDup_singleton].
Qed.
Lemma put_key {A} k (v : A) d : k ∈ (put k v d).*1 ∧ d.*1 ⊆ (put k v d).*1.
Proof. rewrite put_keys. case_decide; set_solver. Qed.

Lemma insert_row_Permutation x l : insert_row x l ≡ₚ x :: l.
Proof.
  induction l as [|y l IH]; simpl; [done|]. destruct (row_le x y); [done|]. rewrite IH. apply Permutation_swap.
Qed.
Lemma sort_rows_Permutation l : sort_rows l ≡ₚ l.
Proof. induction l as [|x l IH]; simpl; [done|]. by rewrite insert_row_Permutation, IH. Qed.
Definition row_before (a b : found) : Prop :=
  f_latency a < f_latency b ∨ f_latency a = f_latency b ∧ String.le (f_ip a) (f_ip b).
Lemma row_le_before a b : if row_le a b then row_before a b else row_before b a.
Proof.
  unfold row_le, row_before. destruct (Z.ltb_spec (f_latency a) (f_latency b)); simpl; [by left|].
  destruct (Z.eqb_spec (f_latency a) (f_latency b)) as [He|He]; simpl; [|left; lia].
  case_bool_decide as Hle; [by right|]. right. split; [done|].
  by destruct (total String.le (f_ip a) (f_ip b)).
Qed.
Lemma sort_rows_sorted l : StronglySorted row_before (sort_rows l).
Proof.
  assert (Transitive row_before) as Htr.
  { intros a b c [?|[? ?]] [?|[? ?]]; unfold row_before; [left; lia..|]. right. split; [lia|]. by etrans. }
  induction l as [|x l IH]; simpl; [constructor|]. generalize dependent (sort_rows l). clear l.
  induction 1 as [|y l Hl IH Hy]; simpl; [by repeat constructor|].
  pose proof (row_le_before x y) as Hxy. destruct (row_le x y).
  - constructor; [by constructor|]. constructor; [done|]. eapply Forall_impl; [exact Hy|]. intros z. by apply Htr.
  - constructor; [done|]. rewrite insert_row_Permutation. by constructor.
Qed.

(* ------------------------------------------------------------------ *)
(** ** What is reported *)

(** The socket of [E] with a record of what was sent and received. *)
Inductive udp_event := EvSent (b : bytes) (a : addr) | EvGot (d : bytes * addr).
Section recorded.
Context {E : Type} `{Udp E}.
Abbreviation R := (E * list udp_event)%type.
Definition beside {A} (m : M E exn A) (evs : res exn A → list udp_event) : M R exn A := λ s,
  let '(r, e) := m s.1 in (r, (e, s.2 ++ evs r)).
Definition silent {A} (m : M E exn A) : M R exn A := beside m (λ _, []).
#[export] Instance recorded_udp : Udp R := {|
  udp_open := silent udp_open;
  udp_close := silent udp_close;
  sendto b a := beside (sendto b a) (λ _, [EvSent b a]);
  recvfrom t := beside (recvfrom t) (λ r, match r with Ret d => [EvGot d] | _ => [] end);
  udp_clock s := udp_clock s.1;
  token_hex := silent token_hex;
  own_addresses := silent own_addresses |}.
Definition same_log : relation R := λ s s', s'.2 = s.2.
#[export] Instance same_log_preorder : PreOrder same_log.
Proof. split; [done|]. intros s1 s2 s3 H1 H2. unfold same_log in *. congruence. Qed.
Lemma same_log_silent {A} (m : M E exn A) : respects same_log (silent m).
Proof. intros s. unfold same_log, silent, beside. destruct (m s.1). simpl. apply app_nil_r. Qed.
End recorded.

Section reports.
Context {E : Type} `{Udp E} (loads : bytes → option json) (probe_text : string → bytes).
Abbreviation R := (E * list udp_event)%type.
Abbreviation MR := (M R exn).

Definition key_of (f : found) : addr := (f_ip f, f_port f).
(** [f] is the row of the datagram [d]. *)
Definition reports (m : endpoint_map) (tag : string) (d : bytes * addr) (f : found) : Prop :=
  ∃ obj, parse_response loads d.1 tag = Some obj ∧ f_ip f = d.2.1 ∧ f_target f = snd <$> look d.2 m ∧
  f_server f = or_unknown "server" obj ∧ f_host f = or_unknown "host" obj ∧
  match truthy (fst <$> look d.2 m) with
  | Some ep => f_endpoint f = ep ∧ endpoint_port ep = Ret (f_port f)
  | None => int_or "tcp_port" 4322 obj = Ret (f_port f) ∧
            f_endpoint f = f_ip f +:+ ":" +:+ str (show_int (f_port f))
  end.
Lemma row_for_spec m sent now tag d obj s : parse_response loads d.1 tag = Some obj →
  wp (row_for m sent now obj d.2 : MR _) (λ r s', s' = s ∧ ∀ k f, r = Ret (k, f) → k = key_of f ∧ reports m tag d f) s.
Proof.
  intros Hobj. unfold row_for. apply wp_bind, wp_lift.
  destruct (int_or "tcp_port" 4322 obj) as [p|x|] eqn:Hp; [|done..].
  destruct (truthy (fst <$> look d.2 m)) as [ep|] eqn:Hep; simpl.
  - apply wp_bind. destruct (rpartition ":" (txt ep)) as [[h q]|] eqn:Hr; [|by apply wp_raise].
    apply wp_lift. destruct (int_of_text 10 q) as [z|] eqn:Hz; [|done].
    apply wp_bind, wp_lift. destruct (int_or "methods" 0 obj); [|done..]. apply wp_ret. split; [done|].
    intros k f [= <- <-]. split; [done|]. exists obj. split_and!; [done..|]. rewrite Hep. split; [done|].
    unfold endpoint_port. by rewrite Hr, Hz.
  - apply wp_bind, wp_ret. apply wp_bind, wp_lift. destruct (int_or "methods" 0 obj); [|done..].
    apply wp_ret. split; [done|]. intros k f [= <- <-]. split; [done|]. exists obj. split_and!; [done..|]. by rewrite Hep.
Qed.
(** The rows [out] stand for the datagrams [got] and what was [seen] before. *)
Definition accounts (m : endpoint_map) (tag : string) (got : list (bytes * addr)) (seen out : list (addr * found)) : Prop :=
  (∀ k f, (k, f) ∈ out → (k, f) ∈ seen ∨ ∃ d, d ∈ got ∧ reports m tag d f ∧ k = key_of f) ∧
  (∀ d, d ∈ got → is_Some (parse_response loads d.1 tag) → ∃ f, reports m tag d f ∧ key_of f ∈ out.*1) ∧
  seen.*1 ⊆ out.*1 ∧ (NoDup seen.*1 → NoDup out.*1).
Lemma accounts_nil m tag seen : accounts m tag [] seen seen.
Proof. split_and!; [by left|by intros ? ?%not_elem_of_nil|done..]. Qed.
Lemma accounts_skip m tag d got seen out :
  parse_response loads d.1 tag = None → accounts m tag got seen out → accounts m tag (d :: got) seen out.
Proof.
  intros Hd (H1 & H2 & H3 & H4). split_and!; [|intros d' [->|?]%elem_of_cons|..]; try done.
  - intros k f Hk. destruct (H1 k f Hk) as [?|(d' & ? & ?)]; [by left|right]. exists d'. split; [by right|done].
  - rewrite Hd. by intros [].
  - by apply H2.
Qed.
Lemma accounts_put m tag d got seen out f : reports m tag d f →
  accounts m tag got (put (key_of f) f seen) out → accounts m tag (d :: got) seen out.
Proof.
  intros Hf (H1 & H2 & H3 & H4). destruct (put_key (key_of f) f seen) as [Hin Hsub].
  split_and!; [|intros d' [->|?]%elem_of_cons|..].
  - intros k g Hk. destruct (H1 k g Hk) as [[[= -> ->]|?]%put_elem|(d' & ? & ?)]; [..|by right; exists d'; split; [by right|]].
    + right. exists d. split; [by left|done].
    + by left.
  - intros _. exists f. split; [done|]. by apply H3.
  - by apply H2.
  - by etrans.
  - intros Hnd. by apply H4, put_NoDup.
Qed.
Lemma collect_spec fuel tag m sent deadline seen (s : R) :
  wp (collect loads fuel tag m sent deadline seen) (λ r s', ∃ got, s'.2 = s.2 ++ map EvGot got ∧
    ∀ out, r = Ret out → accounts m tag got seen out) s.
Proof.
  revert seen s. induction fuel as [|fuel IH]; intros seen s; cbn [collect].
  { exists []. by rewrite app_nil_r. }
  assert (∀ (r : res exn (list (addr * found))) (s' : R), s'.2 = s.2 → (∀ out, r = Ret out → out = seen) →
    ∃ got, s'.2 = s.2 ++ map EvGot got ∧ ∀ out, r = Ret out → accounts m tag got seen out) as Hstop.
  { intros r s' Hs Hr. exists []. rewrite app_nil_r. split; [done|]. intros out ->%Hr. apply accounts_nil. }
  apply wp_bind, wp_gets. case_match; [by apply wp_ret, Hstop; [|intros ? [= <-]]|].
  apply wp_bind. unfold receive. apply wp_catch, wp_bind. unfold wp at 1. simpl.
  unfold beside. destruct (recvfrom _ s.1) as [[[data peer]|x|] e]; simpl; rewrite ?app_nil_r;
    [| |by apply (Hstop Spin (e, s.2))].
  2:{ destruct (is_timeout x); [by apply wp_ret, wp_ret, Hstop; [|intros ? [= <-]]|].
      destruct (is_oserror x); [apply wp_ret, (IH seen (e, s.2))|by apply wp_raise, Hstop]. }
  apply wp_ret. apply wp_bind, wp_gets.
  assert (∀ (r : res exn (list (addr * found))) (s' : R) got, s'.2 = (s.2 ++ [EvGot (data, peer)]) ++ map EvGot got →
    (∀ out, r = Ret out → accounts m tag ((data, peer) :: got) seen out) →
    ∃ got, s'.2 = s.2 ++ map EvGot got ∧ ∀ out, r = Ret out → accounts m tag got seen out) as Hgot.
  { intros r s' got Hs Hr. exists ((data, peer) :: got). by rewrite Hs, <-(assoc_L (++)). }
  destruct (parse_response loads data tag) as [obj|] eqn:Hobj.
  - apply wp_bind. eapply wp_mono; [apply (row_for_spec m _ _ tag (data, peer)); exact Hobj|].
    intros r s1 [-> Hrow]. destruct r as [[k f]|x|]; [|by apply (Hgot _ _ []); [simpl; rewrite app_nil_r|]..].
    destruct (Hrow k f eq_refl) as [-> Hf]. eapply wp_mono; [apply IH|]. intros r s2 (got & Hs & Hout).
    apply (Hgot _ _ got); [done|]. intros out Hr. by eapply accounts_put, Hout.
  - eapply wp_mono; [apply IH|]. intros r s2 (got & Hs & Hout). apply (Hgot _ _ got); [done|].
    intros out Hr. by apply accounts_skip, Hout.
Qed.

(** What the configuration says of a planned address. *)
Definition planned (fl : Fleet) (a : addr) (e : string * string) : Prop :=
  ∃ cfg ch, (e.2, cfg) ∈ targets (config fl) ∧ type cfg = Qemu ∧ mcpd (channels cfg) = Some ch ∧
    mcpd_enabled ch = true ∧ e.1 = mcpd_endpoint ch ∧
    a.1 = default "127.0.0.1"%string (truthy (Some (endpoint_host (mcpd_endpoint ch)))) ∧
    (∀ q, endpoint_port (mcpd_endpoint ch) = Ret q → a.2 = default q (discovery_port ch)).
Lemma plan_one_spec fl kv (s : R) : kv ∈ targets (config fl) → wp (plan_one kv) (λ r s', s' = s ∧
  ∀ o, r = Ret o → match o with
                   | Some (a, e) => planned fl a e ∧ e.2 = kv.1 ∧ mcpd_of kv.2 = Some e.1
                   | None => type kv.2 = Remote ∨ mcpd_of kv.2 = None
                   end) s.
Proof.
  destruct kv as [name cfg]. intros Hin. unfold plan_one, mcpd_of. destruct (decide (type cfg = Remote)) as [Ht|Ht].
  { apply wp_ret. split; [done|]. intros ? [= <-]. by left. }
  assert (type cfg = Qemu) as Hq by (by destruct (type cfg)).
  destruct (mcpd (channels cfg)) as [ch|] eqn:Hch; [|by apply wp_ret; split; [|intros ? [= <-]; right; simpl; rewrite Hch; simpl; rewrite ?Hen]].
  simpl. destruct (mcpd_enabled ch) eqn:Hen; [|by apply wp_ret; split; [|intros ? [= <-]; right; simpl; rewrite Hch; simpl; rewrite ?Hen]].
  apply wp_bind. destruct (discovery_port ch) as [p|] eqn:Hp; [apply wp_ret|apply wp_lift].
  - apply wp_ret. split; [done|]. intros ? [= <-]. split; [|simpl; rewrite Hch; simpl; by rewrite Hen].
    exists cfg, ch. split_and!; try done. intros q _. by rewrite Hp.
  - destruct (endpoint_port (mcpd_endpoint ch)) as [q|x|] eqn:Hport; [|done..]. apply wp_ret. split; [done|].
    intros ? [= <-]. split; [|simpl; rewrite Hch; simpl; by rewrite Hen].
    exists cfg, ch. split_and!; try done. intros q'. rewrite Hp. simpl. congruence.
Qed.
(** Every QEMU target of [ts] with an MCPd channel is probed at its own address. *)
Definition covers (fl : Fleet) (ts : list (string * TargetConfig)) (probes : list addr) : Prop :=
  ∀ kv ep, kv ∈ ts → type kv.2 = Qemu → mcpd_of kv.2 = Some ep → ∃ a, a ∈ probes ∧ planned fl a (ep, kv.1).
Lemma plan_each_spec fl ts probes m (s : R) : ts ⊆ targets (config fl) → (∀ a e, look a m = Some e → planned fl a e) →
  wp (plan_each ts probes m) (λ r s', s' = s ∧ ∀ ps m', r = Ret (ps, m') →
    (∀ a e, look a m' = Some e → planned fl a e) ∧ probes ⊆ ps ∧ covers fl ts ps) s.
Proof.
  revert probes m. induction ts as [|kv ts IH]; intros probes m Hts Hm; simpl.
  { apply wp_ret. split; [done|]. intros ?? [= <- <-]. split_and!; [done..|]. by intros ? ? ?%not_elem_of_nil. }
  apply wp_bind. eapply wp_mono; [apply (plan_one_spec fl); apply Hts; by left|]. intros r s1 [-> Hr].
  assert (ts ⊆ targets (config fl)) as Hts' by set_solver.
  destruct r as [[[a [ep0 name]]|]|x|]; [| |done..].
  - destruct (Hr _ eq_refl) as (Hp & Hname & Hep). simpl in *.
    eapply wp_mono; [apply IH; [done|]|].
    + intros a' e'. rewrite look_put. case_decide; [by intros [= <-]; subst|apply Hm].
    + intros r s' [-> Hr']. split; [done|]. intros ps m' Hps. destruct (Hr' _ _ Hps) as (H1 & H2 & H3).
      split_and!; [done|set_solver|]. intros kv' ep [->|Hkv]%elem_of_cons Hq He; [|by eapply H3].
      exists a. split; [set_solver|]. rewrite Hep in He. injection He as <-. by rewrite <-Hname.
  - eapply wp_mono; [by apply IH|]. intros r s' [-> Hr']. split; [done|]. intros ps m' Hps.
    destruct (Hr' _ _ Hps) as (H1 & H2 & H3). split_and!; [done..|].
    intros kv' ep [->|Hkv]%elem_of_cons Hq He; [|by eapply H3].
    destruct (Hr _ eq_refl) as [?|?]; congruence.
Qed.

Lemma same_log_own_addresses : respects same_log (own_addresses : MR _).
Proof. apply same_log_silent. Qed.
Lemma same_log_broadcasts : respects same_log (local_subnet_broadcasts : MR (list string)).
Proof. unfold local_subnet_broadcasts. respects_tac. apply same_log_own_addresses. Qed.
Lemma send_probes_spec probe ts (s : R) : wp (send_probes probe ts) (λ r s', ∃ us, us `prefix_of` ts ∧
  s'.2 = s.2 ++ map (EvSent probe) us ∧ (r = Ret tt → us = ts)) s.
Proof.
  revert s. induction ts as [|a ts IH]; intros s; simpl; [exists []; by rewrite app_nil_r|].
  apply wp_bind, wp_catch. unfold wp at 1. simpl. unfold beside.
  destruct (sendto probe a s.1) as [r e]. set (s1 := (e, s.2 ++ [EvSent probe a]) : R).
  assert (∀ (r : res exn unit) (s' : R), (∃ us, us `prefix_of` ts ∧ s'.2 = s1.2 ++ map (EvSent probe) us ∧ (r = Ret tt → us = ts)) →
    ∃ us, us `prefix_of` a :: ts ∧ s'.2 = s.2 ++ map (EvSent probe) us ∧ (r = Ret tt → us = a :: ts)) as Hone.
  { intros r' s' (us & Hus & Hs & Hr). exists (a :: us). split_and!; [by apply prefix_cons| |by intros ->%Hr].
    rewrite Hs. simpl. by rewrite <-(assoc_L (++)). }
  assert (∀ r : res exn unit, r ≠ Ret tt → ∃ us, us `prefix_of` a :: ts ∧ s1.2 = s.2 ++ map (EvSent probe) us ∧
    (r = Ret tt → us = a :: ts)) as Hend by (intros r' ?; exists [a]; split_and!; [by apply prefix_cons, prefix_nil|done|done]).
  destruct r as [[]|x|]; simpl; [|destruct (is_oserror x)|by apply Hend].
  - eapply wp_mono; [apply IH|]. apply Hone.
  - apply wp_ret. eapply wp_mono; [apply IH|]. apply Hone.
  - apply wp_raise. by apply Hend.
Qed.
Lemma foldl_add_new (ps base : list addr) :
  base ⊆ foldl (λ l p, add_new p l) base ps ∧ ps ⊆ foldl (λ l p, add_new p l) base ps.
Proof.
  revert base. induction ps as [|p ps IH]; intros base; simpl; [set_solver|]. destruct (IH (add_new p base)) as [H1 H2].
  assert (p ∈ add_new p base ∧ base ⊆ add_new p base) as [Hp Hb] by (unfold add_new; case_decide; set_solver).
  split; [by etrans|]. intros q [->|Hq]%elem_of_cons; [by apply H1|by apply H2].
Qed.
Lemma probe_targets_extra bs l ps : ps ⊆ probe_targets bs l ps.
Proof. apply foldl_add_new. Qed.
(** What the result of a discovery says of the datagrams received. *)
Definition answers (m : endpoint_map) (tag : string) (got : list (bytes * addr)) (out : list found) : Prop :=
  (∀ f, f ∈ out → ∃ d, d ∈ got ∧ reports m tag d f) ∧
  (∀ d, d ∈ got → is_Some (parse_response loads d.1 tag) → ∃ f g, reports m tag d f ∧ g ∈ out ∧ key_of g = key_of f) ∧
  StronglySorted row_before out ∧ NoDup (key_of <$> out).
Lemma accounts_answers m tag got seen : accounts m tag got [] seen → answers m tag got (sort_rows seen.*2).
Proof.
  intros (H1 & H2 & _ & H4).
  assert (seen.*1 = key_of <$> seen.*2) as Hkeys.
  { rewrite <-list_fmap_compose. apply list_fmap_ext. intros i [k f] Hi. apply list_elem_of_lookup_2 in Hi.
    destruct (H1 k f Hi) as [?%not_elem_of_nil|(d & _ & _ & ->)]; done. }
  split_and!; [intros f Hf|intros d Hd Hp|apply sort_rows_sorted|].
  - rewrite sort_rows_Permutation in Hf. apply list_elem_of_fmap in Hf as ([k f'] & -> & Hf).
    destruct (H1 k f' Hf) as [?%not_elem_of_nil|(d & ? & ? & _)]; [done|by exists d].
  - destruct (H2 d Hd Hp) as (f & Hf & Hk). rewrite Hkeys in Hk. apply list_elem_of_fmap in Hk as (g & Hk & Hg).
    exists f, g. split_and!; [done|by rewrite sort_rows_Permutation|done].
  - rewrite sort_rows_Permutation, <-Hkeys. apply H4, NoDup_nil_2.
Qed.
Lemma wp_silent {A B} (m : MR A) (k : A → MR B) (Q : res exn B → R → Prop) (s : R) : respects same_log m →
  (∀ r s', s'.2 = s.2 → (∀ b, r ≠ Ret b) → Q r s') → (∀ a s', s'.2 = s.2 → wp (k a) Q s') → wp (m ≫= k) Q s.
Proof.
  intros Hm HQ Hk. apply wp_bind. unfold wp at 1. specialize (Hm s). unfold same_log in Hm.
  destruct (m s) as [[a|x|] s1]; simpl in *; [by apply Hk|by apply HQ..].
Qed.
Definition discovered (probes : list addr) (m : endpoint_map) (s : R) (r : res exn (list found)) (s' : R) : Prop :=
  ∃ tag sent got, s'.2 = s.2 ++ map (EvSent (probe_text tag)) sent ++ map EvGot got ∧
    ∀ out, r = Ret out → probes ⊆ sent ∧ answers m tag got out.
Lemma discover_spec fuel t bs l probes m (s : R) :
  wp (discover loads probe_text fuel t bs l probes m) (discovered probes m s) s.
Proof.
  assert (∀ (r : res exn (list found)) (s' : R), s'.2 = s.2 → (∀ b, r ≠ Ret b) → discovered probes m s r s') as Hnone.
  { intros r s' Hs Hr. exists ""%string, [], []. rewrite app_nil_r. split; [done|]. intros out Hout. by destruct (Hr out). }
  unfold discover. apply wp_silent; [destruct bs; [apply (respects_ret _)|apply same_log_broadcasts]|done|].
  intros addrs s1 Hs1. rewrite <-Hs1 in Hnone.
  apply wp_silent; [apply same_log_silent|intros; by apply Hnone|]. intros tag s2 Hs2. rewrite <-Hs2 in Hnone.
  apply wp_silent; [apply same_log_silent|intros; by apply Hnone|]. intros [] s3 Hs3. clear Hnone.
  apply wp_bind, wp_gets, wp_bind. eapply wp_mono; [apply send_probes_spec|]. intros r s4 (us & _ & Hs4 & Hr).
  assert (s4.2 = s.2 ++ map (EvSent (probe_text tag)) us) as Hlog by congruence. clear Hs1 Hs2 Hs3 Hs4.
  assert (∀ (r : res exn (list found)) (s' : R) got, s'.2 = s4.2 ++ map EvGot got →
    (∀ out, r = Ret out → probes ⊆ us ∧ answers m tag got out) → discovered probes m s r s') as Hend.
  { intros r' s' got Hs' Hout. exists tag, us, got. split; [|done]. by rewrite Hs', Hlog, <-(assoc_L (++)). }
  destruct r as [[]|x|]; [|by apply (Hend _ _ []); [by rewrite app_nil_r|]..].
  rewrite (Hr eq_refl) in *. clear Hr us.
  apply wp_bind, wp_finally. eapply wp_mono; [apply collect_spec|]. intros r s5 (got & Hs5 & Hout).
  assert (∀ r', r = r' → wp (udp_close : MR unit) (λ r0 s6,
    match (match r0 with Ret _ => r' | Raise x => Raise x | Spin => Spin end) with
    | Ret a => wp (mret (sort_rows a.*2)) (discovered probes m s) s6
    | Raise x => discovered probes m s (Raise x) s6
    | Spin => discovered probes m s Spin s6
    end) s5) as Hclose.
  { intros r' <-. pose proof (same_log_silent (udp_close : M E exn unit) s5) as Hc. unfold same_log in Hc.
    unfold wp at 1. change (udp_close (E:=R)) with (silent (udp_close (E:=E))).
    destruct (silent udp_close s5) as [[[]|x|] s6]; simpl in *; [destruct r as [seen|x|]|..];
      try apply wp_ret; apply (Hend _ _ got); try congruence; try done.
    intros out [= <-]. split; [apply probe_targets_extra|]. by apply accounts_answers, Hout. }
  destruct r as [seen|x|].
  - eapply wp_mono; [by apply Hclose|]. by intros [].
  - eapply wp_mono; [by apply Hclose|]. by intros [].
  - by apply (Hend _ _ got).
Qed.
(** [fleet.discover] probes every configured QEMU target with an MCPd
    channel at the host and port its command line forwards to the guest's
    discovery port; each row it returns stands for a datagram it received, in
    answer to its own probe - reported under the target's name with the
    configured endpoint when the datagram came from such an address, and under
    the sender's address and announced port otherwise; every such datagram is
    represented; no two rows are for the same address and port, and they are
    in order of latency and address. *)
Theorem discover_names_guests fl fuel timeout (s : R) :
  wp (fleet_discover loads probe_text fl fuel timeout) (λ r s', ∃ tag sent got,
    s'.2 = s.2 ++ map (EvSent (probe_text tag)) sent ++ map EvGot got ∧
    ∀ out, r = Ret out → covers fl (targets (config fl)) sent ∧
      ∃ m, (∀ a e, look a m = Some e → planned fl a e) ∧ answers m tag got out) s.
Proof.
  unfold fleet_discover. apply wp_bind. eapply wp_mono; [by apply (plan_each_spec fl)|]. intros r s1 [-> Hr].
  destruct r as [[ps m]|x|]; [|by exists ""%string, [], []; rewrite app_nil_r..].
  destruct (Hr ps m eq_refl) as (Hm & _ & Hc).
  apply wp_bind. eapply wp_mono; [apply discover_spec|]. intros r s1 (tag & sent & got & Hs & Hout).
  destruct r as [out|x|]; [|by exists tag, sent, got..].
  destruct (Hout out eq_refl) as [Hp Ha]. destruct (forallb validate_found out); [apply wp_ret|apply wp_raise].
  - exists tag, sent, got. split; [done|]. intros ? [= <-]. split; [|by exists m].
    intros kv ep Hkv Hq He. destruct (Hc kv ep Hkv Hq He) as (a & Hin & Ha'). exists a. by split; [apply Hp|].
  - by exists tag, sent, got.
Qed.
(** The address a QEMU target is probed at is the one its command line
    forwards: [build_cmdline] opens it. *)
Lemma planned_forwarded fl a ep name cfg q : planned fl a (ep, name) → NoDup (targets (config fl)).*1 →
  (name, cfg) ∈ targets (config fl) → endpoint_port ep = Ret q → discovery_of cfg a.2.
Proof.
  intros (cfg' & ch & Hin & _ & Hch & Hen & Hep & _ & Hp) Hnd Hin' Hq. simpl in *. subst ep.
  assert (cfg' = cfg) as ->.
  { apply (elem_assoc _ _ _ Hnd) in Hin. apply (elem_assoc _ _ _ Hnd) in Hin'. congruence. }
  exists ch, q. split_and!; [done..|]. by apply Hp.
Qed.
End reports.

(* ------------------------------------------------------------------ *)
(** ** Discovery comes to an end *)

(** The calls of the socket return, and it reports only so many datagrams and
    errors before it has nothing but time-outs left. *)
Class UdpLaws (E : Type) `{Udp E} := {
  udp_left : E → nat;
  recvfrom_law t e : wp (recvfrom t) (λ r e', r ≠ Spin ∧ udp_left e' ≤ udp_left e ∧
    ((∀ x, r = Raise x → is_timeout x = false) → udp_left e' < udp_left e))%nat e;
  udp_call_law e : Forall (λ m, wp m (λ r e', r ≠ Spin ∧ udp_left e' = udp_left e) e) [udp_open; udp_close];
  sendto_law b a e : wp (sendto b a) (λ r e', r ≠ Spin ∧ udp_left e' = udp_left e) e;
  token_law e : wp token_hex (λ r e', r ≠ Spin ∧ udp_left e' = udp_left e) e;
  own_law e : wp own_addresses (λ r e', r ≠ Spin ∧ udp_left e' = udp_left e) e }.

Section ends.
Context {E : Type} `{UdpLaws E} (loads : bytes → option json) (probe_text : string → bytes).
(** [m] returns or raises and leaves what the socket still holds. *)
Definition quiet {A} (m : M E exn A) : Prop := ∀ e, wp m (λ r e', r ≠ Spin ∧ udp_left e' = udp_left e) e.
Lemma quiet_bind {A B} (m : M E exn A) (k : A → M E exn B) : quiet m → (∀ a, quiet (k a)) → quiet (m ≫= k).
Proof.
  intros Hm Hk e. apply wp_bind. eapply wp_mono; [apply Hm|]. intros [a|x|] e' [? <-]; [apply Hk|done..].
Qed.
Lemma quiet_catch {A} (m : M E exn A) h : quiet m → (∀ x, quiet (h x)) → quiet (catch m h).
Proof.
  intros Hm Hh e. apply wp_catch. eapply wp_mono; [apply Hm|]. intros [a|x|] e' [? <-]; [done|apply Hh|done].
Qed.
Lemma quiet_lift {A} (r : res exn A) : r ≠ Spin → quiet (lift r).
Proof. by intros ? e. Qed.
Lemma int_or_ends k d obj : int_or k d obj ≠ Spin.
Proof. unfold int_or. destruct (assoc k obj); [|done]. case_match; [apply py_int_ends|done]. Qed.
Lemma row_for_quiet m sent now obj peer : quiet (row_for m sent now obj peer).
Proof.
  unfold row_for. apply quiet_bind; [apply quiet_lift, int_or_ends|intros p].
  apply quiet_bind; [|intros q; apply quiet_bind; [apply quiet_lift, int_or_ends|done]].
  destruct (truthy _); [|done]. destruct (rpartition _ _) as [[]|]; [|done]. apply quiet_lift. by destruct (int_of_text _ _).
Qed.
Lemma collect_ends fuel tag m sent deadline seen e :
  (udp_left e < fuel)%nat → wp (collect loads fuel tag m sent deadline seen) (λ r _, r ≠ Spin) e.
Proof.
  revert seen e. induction fuel as [|fuel IH]; intros seen e Hf; [lia|]. cbn [collect].
  apply wp_bind, wp_gets. case_match; [by apply wp_ret|].
  apply wp_bind. unfold receive. apply wp_catch, wp_bind. eapply wp_mono; [apply recvfrom_law|].
  intros [[data peer]|x|] e1 (Hr & _ & Hlt); [|destruct (is_timeout x) eqn:Hx|done].
  - assert (udp_left e1 < fuel)%nat as Hf1 by (specialize (Hlt ltac:(done)); lia).
    apply wp_ret, wp_bind, wp_gets. destruct (parse_response loads data tag) as [obj|]; [|by apply IH].
    apply wp_bind. eapply wp_mono; [apply row_for_quiet|].
    intros [[key row]|x|] e2 [Hr2 He2]; [apply IH; by rewrite He2|done..].
  - by apply wp_ret, wp_ret.
  - assert (udp_left e1 < fuel)%nat as Hf1 by (specialize (Hlt ltac:(by intros ? [= <-])); lia).
    destruct (is_oserror x); [by apply wp_ret, IH|by apply wp_raise].
Qed.
Lemma send_probes_quiet probe ts : quiet (send_probes probe ts).
Proof.
  induction ts as [|a ts IH]; [done|]. simpl. apply quiet_bind; [|done].
  apply quiet_catch; [intros e; apply sendto_law|]. intros x. by destruct (is_oserror x).
Qed.
Lemma plan_each_quiet ts ps m : quiet (plan_each ts ps m).
Proof.
  revert ps m. induction ts as [|[name cfg] ts IH]; intros ps m; [done|]. simpl.
  apply quiet_bind; [|by intros [[? ?]|]]. unfold plan_one. destruct (decide _); [done|].
  destruct (mcpd _) as [ch|]; [|done]. destruct (mcpd_enabled ch); [|done].
  apply quiet_bind; [|done]. destruct (discovery_port ch); [done|]. apply quiet_lift.
  unfold endpoint_port. by repeat case_match.
Qed.
Lemma quiet_then {A B} (m : M E exn A) (k : A → M E exn B) e : quiet m →
  (∀ a e', udp_left e' = udp_left e → wp (k a) (λ r _, r ≠ Spin) e') → wp (m ≫= k) (λ r _, r ≠ Spin) e.
Proof.
  intros Hm Hk. apply wp_bind. eapply wp_mono; [apply Hm|]. intros [a|x|] e' [? He]; [by apply Hk|done..].
Qed.
(** [fleet.discover] returns or raises: whatever arrives at the socket, it
    goes through the datagrams and errors the socket has for it once each and
    stops at the first time-out, or at its deadline. *)
Theorem discover_ends fl fuel timeout e :
  (udp_left e < fuel)%nat → (fleet_discover loads probe_text fl fuel timeout e).1 ≠ Spin.
Proof.
  intros Hf. apply (quiet_then (qemu_probe_plan fl)); [apply plan_each_quiet|]. intros [ps m] e1 He1.
  apply wp_bind. eapply (wp_mono _ (λ r _, r ≠ Spin)); [|by intros [out|x|] e2; [case_match|..]].
  unfold discover. apply quiet_then; [|intros addrs e2 He2].
  { apply quiet_bind; [|done]. apply quiet_catch; [intros ?; apply own_law|]. intros x. by destruct (is_oserror x). }
  apply quiet_then; [intros ?; apply token_law|intros tag e3 He3].
  pose proof (udp_call_law) as Hcalls.
  apply quiet_then; [|intros _ e4 He4].
  { intros e'. by apply (Forall_inv (Hcalls e')). }
  apply wp_bind, wp_gets, quiet_then; [apply send_probes_quiet|intros _ e5 He5].
  apply wp_bind, wp_finally. eapply wp_mono; [apply collect_ends; lia|].
  intros [seen|x|] e6 Hr; [..|done].
  all: eapply wp_mono; [apply (Forall_inv (Forall_inv_tail (Hcalls e6)))|]; by intros [[]|y|] e7 [? _].
Qed.
End ends.

(* ------------------------------------------------------------------ *)
(** ** A network *)

(** The datagrams still to arrive, with their times, the clock, and what was
    sent; the host has one address, 192.168.1.10. *)
Record lan := Lan { arriving : list (Z * (bytes * addr)); lan_now : Z; probed : list addr }.
#[export] Instance lan_udp : Udp lan := {|
  udp_open := mret tt; udp_close := mret tt;
  sendto _ a := modify (λ s, Lan (arriving s) (lan_now s) (probed s ++ [a]));
  recvfrom t s := match arriving s with
                  | (at_, d) :: q =>
                      if at_ <=? lan_now s + t then (Ret d, Lan q (Z.max (lan_now s) at_) (probed s))
                      else (Raise (EOS TimeoutError ""), Lan (arriving s) (lan_now s + t) (probed s))
                  | [] => (Raise (EOS TimeoutError ""), Lan [] (lan_now s + t) (probed s))
                  end;
  udp_clock := lan_now;
  token_hex := mret "t1"%string;
  own_addresses := mret [Some "127.0.0.1"; Some "192.168.1.10"]%string |}.
#[export, program] Instance lan_laws : UdpLaws lan := {| udp_left s := length (arriving s) |}.
Next Obligation.
  intros t [[|[at_ d] q] n p]; unfold wp; simpl; [split_and!; [done..|]; intros Hx; by specialize (Hx _ eq_refl)|].
  case_match; simpl; split_and!; try lia; try done. intros Hx. by specialize (Hx _ eq_refl).
Qed.
Next Obligation. intros e. by repeat constructor. Qed.
Next Obligation. done. Qed.
Next Obligation. done. Qed.
Next Obligation. done. Qed.

Definition lan_guest : TargetConfig := {|
  type := Qemu; display_name := None; machine := None; qemu_config := None; headless := true; tags := [];
  channels := {| mcpd := Some {| mcpd_enabled := true; mcpd_endpoint := "127.0.0.1:4432"; discovery_port := Some 4423 |};
                 qmp := None; gdb := None; uboot := None; mcu := None |};
  sandbox := None; input := None |}.
Definition lan_fleet : Fleet := Fleet_init
  {| server := ServerConfig_default; paths := {| amiga_qemu_tests := None; qemu_binary := None; sandboxvm := None |};
     defaults := {| dest_volume := None; sources_dir := None; def_machine := None; iso_filename := None; exec_priority := None |};
     targets := [("vm"%string, lan_guest)] |}.
Definition answer (host : string) : list (string * json) :=
  [("mcp_discovery", JNum 1); ("tag", JStr "t1"); ("server", JStr "MCPd"); ("protocol", JStr "1");
   ("host", JStr host); ("tcp_port", JNum 4322); ("methods", JNum 90)]%string.
Definition lan_loads (b : bytes) : option json :=
  if decide (b = txt "x5000") then Some (JObj (answer "x5000"))
  else if decide (b = txt "guest") then Some (JObj (answer "guest"))
  else if decide (b = txt "late") then Some (JObj (answer "late")) else None.
Definition lan_start : lan := Lan
  [(20, (txt "noise", ("192.168.1.66"%string, 4323))); (30, (txt "x5000", ("192.168.1.9"%string, 4323)));
   (40, (txt "guest", ("127.0.0.1"%string, 4423))); (70, (txt "late", ("192.168.1.9"%string, 4323)));
   (5000, (txt "x5000", ("192.168.1.7"%string, 4323)))] 0 [].
Definition lan_result : res exn (list found) * lan := fleet_discover lan_loads (λ t, txt t) lan_fleet 6 1500 lan_start.

(** Two rows: the guest under its forwarded port and its name, the X5000 under
    the address it answered from - with the later, slower of its two answers. *)
Example lan_discovered :
  lan_result.1 = Ret
    [Found "127.0.0.1" 4432 (JStr "MCPd") (JStr "1") (JStr "guest") 90 40 "127.0.0.1:4432" (Some "vm");
     Found "192.168.1.9" 4322 (JStr "MCPd") (JStr "1") (JStr "late") 90 70 "192.168.1.9:4322" None]%string ∧
  probed lan_result.2 = [("255.255.255.255", 4323); ("192.168.1.255", 4323); ("127.0.0.1", 4323); ("127.0.0.1", 4423)]%string.
Proof. vm_compute. done. Qed.
Lemma discover_ends_witness : (udp_left lan_start < 6)%nat ∧ lan_result.1 ≠ Spin.
Proof. split; [vm_compute; lia|]. apply discover_ends. vm_compute. lia. Defined.
(** An answer whose numbers are no numbers ends the whole discovery. *)
Example malformed_answer_aborts :
  (fleet_discover (λ _, Some (JObj (dict_set "methods" (JStr "many") (answer "x5000")))) (λ t, txt t) lan_fleet 6 1500 lan_start).1 =
  Raise (EPy ValueError).
Proof. vm_compute. done. Qed.
(** A guest configured by host name answers from its address, and is not recognised. *)
Example host_name_not_matched : ∃ e a, snd <$> look ("127.0.0.1"%string, 4423)
    [((endpoint_host "localhost:4432", 4423), ("localhost:4432"%string, "vm"%string))] = None ∧
  (plan_one ("vm"%string, {| type := Qemu; display_name := None; machine := None; qemu_config := None; headless := true;
     tags := []; sandbox := None; input := None;
     channels := {| mcpd := Some {| mcpd_enabled := true; mcpd_endpoint := "localhost:4432"; discovery_port := Some 4423 |};
                    qmp := None; gdb := None; uboot := None; mcu := None |} |}) lan_start).1 = Ret (Some (a, e)) ∧
  a = ("localhost"%string, 4423).
Proof. by do 2 eexists; split_and!; [vm_compute|vm_compute|]. Qed.
