(* ===== verification/Main.v ===== *)
(** * The command [amiga-fleet-mcp]: [main] of [server.py]

    What each mode does to the configuration file, the run archive and the world
    outside, and its exit code; put together from the wizard, the doctor, the
    loader, the archive and discovery.  What the listing modes print is left out, and
    the server itself ([MCPServer.run]) is a parameter. *)
From S2P Require Import Prelude Py Bytes Config Net Toml Validate Wizard Archive Fleet Lines FleetStatus Doctor Discovery.
#[local] Open Scope string_scope.
#[local] Open Scope list_scope.
#[local] Open Scope Z_scope.

(** The options; [a_config] is [--config]. *)
Record args := Args {
  a_config : option string;
  a_init : bool; a_force : bool; a_non_interactive : bool; a_doctor : bool; a_inspect : bool; a_health_check : bool;
  a_list_tools : bool; a_list_resources : bool; a_list_prompts : bool; a_discover : bool; a_discover_timeout_ms : Z }.

(** [mkdir(parents=True, exist_ok=True)] of a run's directory under an archive's
    root; [fault] is what the file system may have against it: the root is a file,
    or cannot be made or written. *)
Definition mkdir (fault : folder → option exn) (n : string) (t : Z) : M folder exn unit :=
  d ← get;
  match fault d, assoc n d with
  | Some e, _ => raise e
  | None, Some f => if is_dir f then mret tt else raise (EOS OSError "file exists")
  | None, None => modify (λ d, d ++ [(n, File true t 0)])
  end.
(** [Archive.__init__]: the directory of this run, named after the time, and the
    pruning of older ones. *)
Definition Archive_init (locked : string → bool) (fault : folder → option exn) (ts : string) (t : Z) (keep_runs : option Z)
    : M folder exn unit :=
  mkdir fault ts t;;
  match keep_runs with
  | Some k => if 0 <? k then prune_runs locked k;; mret tt else mret tt
  | None => mret tt
  end.


(** Formatting with a width needs a text or a number. *)
Definition pads (j : json) : bool := match j with JStr _ | JNum _ | JBool _ => true | _ => false end.
(** [int(s)] *)
Definition py_int_of (t : text) : res exn Z := match int_of_text 10 t with Some z => Ret z | None => Raise (EPy ValueError) end.

(** The answers typed, the files that may be configurations, the archives' roots
    and what each holds, and what the machines and the network are. *)
Record world (E N : Type) := World {
  w_answers : Wizard.answers; w_files : gmap string text; w_archives : gmap string folder; w_fleet : E; w_net : N }.
Arguments World {E N}.
Arguments w_answers {E N}.
Arguments w_files {E N}.
Arguments w_archives {E N}.
Arguments w_fleet {E N}.
Arguments w_net {E N}.

Section main.
Context {E N : Type} `{Children E} `{Udp N}.
(** Of the loader; of the wizard; of the archive; of the doctor and the health
    check; of discovery; of the server. *)
Context (lax_bool : toml → option bool) (lax_int : toml → option Z) (path_str : text → string) (tomllib : text → option dict).
Context (base : text) (exists_path : text → bool) (projects : text) (windows : bool)
  (write_fault : text → option text → option (exn * option text)) (mkdir_fault : string → folder → option exn).
Context (locked : string → bool) (ts : string) (now : Z).
Context (version : text) (repr : json → text) (repr_str : string → string) (exn_text exn_type : exn → text)
  (loads : text → option json) (dumps : json → text) (ask : concurrently (res exn json) (E := E))
  (ask_health : concurrently (res exn json * res exn json) (E := E)) (clients_found : clients)
  (env : option string) (default_path : string).
Context (loads_bytes : bytes → option json) (probe_text : string → bytes) (fuel : nat).
Context (run_server : McpTransport → option (string * Z) → M E exn unit).

Abbreviation W := (world E N).
Abbreviation MW := (M W exn).
(** [p] is the file the wizard writes. *)
Definition on_setup {A} (p : string) (m : M (Wizard.answers * option text) exn A) : MW A := λ w,
  let '(r, (a, f)) := m (w_answers w, w_files w !! p) in
  (r, World a (partial_alter (λ _, f) p (w_files w)) (w_archives w) (w_fleet w) (w_net w)).
Definition on_archive {A} (root : string) (m : M folder exn A) : MW A := λ w,
  let '(r, d) := m (default [] (w_archives w !! root)) in
  (r, World (w_answers w) (w_files w) (<[root := d]> (w_archives w)) (w_fleet w) (w_net w)).
Definition on_fleet {A} (m : M E exn A) : MW A := λ w,
  let '(r, e) := m (w_fleet w) in (r, World (w_answers w) (w_files w) (w_archives w) e (w_net w)).
Definition on_net {A} (m : M N exn A) : MW A := λ w,
  let '(r, n) := m (w_net w) in (r, World (w_answers w) (w_files w) (w_archives w) (w_fleet w) n).

Definition model (d : dict) : option Config := model_validate lax_bool lax_int path_str d.
Definition validates (d : dict) : bool := if model d is Some _ then true else false.
(** [load_config] of a path. *)
Definition load (files : gmap string text) (p : string) : res exn Config :=
  load_from lax_bool lax_int path_str tomllib (λ q, bool_decide (is_Some (files !! q))) (λ q, Ret (default [] (files !! q))) p.
Definition config_path (a : args) : string := default default_path (a_config a).

(** [_build_runtime]; [Fleet(config)] has no effect. *)
Definition build_runtime (c : Config) : MW unit :=
  let root := archive_root (server c) in
  on_archive root (Archive_init locked (mkdir_fault root) ts now (archive_keep_runs (server c))).
(** [_run_discover] *)
Definition run_discover (timeout_ms : Z) : MW Z :=
  found ← on_net (discover loads_bytes probe_text fuel timeout_ms None true [] []);
  if found is [] then mret 1
  else if forallb (λ f, pads (f_server f) && pads (f_protocol f) && pads (f_host f)) found then mret 0 else raise (EPy TypeError).
(** The end of [main]: the transport, and where it binds. *)
Definition serve (c : Config) : MW unit :=
  match mcp_transport (server c) with
  | Stdio => on_fleet (run_server Stdio None)
  | tr =>
      let addr := txt (mcp_http_addr (server c)) in
      let '(host, port) := default ([], addr) (rpartition ":" addr) in
      port ← lift (py_int_of port);
      on_fleet (run_server tr (Some (str host, port)))
  end.
(** A missing or broken configuration is reported; another error in reading it is
    not caught. *)
Definition bad_config (e : exn) : bool :=
  match e with EOS FileNotFoundError _ => true | _ => is_rpc e || is_value_error e end.
Definition with_config (a : args) (c : Config) : MW Z :=
  build_runtime c;;
  if a_inspect a then mret 0
  else if a_health_check a then on_fleet (run_health_check exn_text exn_type ask_health c)
  else if a_list_tools a || a_list_resources a || a_list_prompts a then mret 0
  else if a_discover a then run_discover (a_discover_timeout_ms a)
  else serve c;; mret 0.
Definition main (a : args) : MW Z :=
  if a_init a then on_setup (config_path a) (run_init validates base exists_path projects windows write_fault (a_force a) (a_non_interactive a))
  else if a_doctor a then
    files ← gets w_files;
    '(_, code) ← on_fleet (run_doctor version repr repr_str exn_text loads dumps
      (check_config exn_text exn_type (λ q, bool_decide (is_Some (files !! q))) (load files) env default_path (a_config a)) ask clients_found);
    mret code
  else
    files ← gets w_files;
    match load files (config_path a) with
    | Ret c => with_config a c
    | Raise e => if bad_config e then mret 64 else raise e
    | Spin => spin
    end.

(* ------------------------------------------------------------------ *)
(** ** From [--init] to the server *)

(** [tomllib] reads what the wizard writes as the model of TOML does. *)
Hypothesis tomllib_reads : ∀ t d, toml_loads t = Some d → tomllib t = Some d.
Hypothesis base_plain : is_plain base.
Hypothesis projects_plain : is_plain projects.

End main.

(* ------------------------------------------------------------------ *)
(** ** A first setup *)

Definition ex_server : McpTransport → option (string * Z) → M table exn unit := λ _ _, mret tt.
(** Nothing can be made under a file. *)
Definition ex_mkdir_fault (root : string) (_ : folder) : option exn :=
  if decide (root = "/etc/hosts") then Some (EOS OSError "not a directory") else None.
Definition ex_main : args → M (world table lan) exn Z :=
  main (λ _, None) (λ _, None) str toml_loads (txt "/home/u") (λ _, false) (txt "/home/u/Projects") false (λ _ _, None) ex_mkdir_fault
    (λ _, false) "20260301T120000Z" 0 (txt "2.2") (λ _, []) id ex_text ex_text (λ _, None) (λ _, []) ex_ask ex_vitals ex_client
    None "/home/u/.config/amiga-fleet-mcp/config.toml" (λ _, None) (λ t, txt t) 5 ex_server.
Definition ex_world (l : list string) : world table lan := World (map txt l) ∅ ∅ ex_children lan_start.
Definition init_args : args := Args None true false false false false false false false false false 1500.
Definition quiet_args : args := Args None false false false false false false false false false false 1500.
Definition inspect_args : args := Args None false false false false true false false false false false 1500.
(** Defaults throughout; no target. *)
Definition by_default : world table lan := ex_world [""; ""; ""; ""; ""; ""; "n"; "n"].
(** The sse transport, on an address without a port; an archive under a file. *)
Definition on_sse : world table lan := ex_world [""; ""; ""; "sse"; "localhost"; ""; ""; "n"; "n"].
Definition under_a_file : world table lan := ex_world [""; "/etc/hosts"; ""; ""; ""; ""; "n"; "n"].
(** A start by hand then reaches the server, with a run in the archive. *)
Example starts : (λ '(r, w), (r, w_archives w !! "/home/u/archive")) (ex_main quiet_args (ex_main init_args by_default).2) =
  (Ret 0, Some [("20260301T120000Z", File true 0 0)]).
Proof. vm_compute. reflexivity. Qed.
(** The same with the bad address or archive: set up without complaint, it ends
    with an exception; [--inspect] has nothing against the address. *)
Example sse_address_unchecked : (ex_main init_args on_sse).1 = Ret 0 ∧ (ex_main quiet_args (ex_main init_args on_sse).2).1 = Raise (EPy ValueError) ∧
  (ex_main inspect_args (ex_main init_args on_sse).2).1 = Ret 0.
Proof. vm_compute. repeat split. Qed.
Example archive_root_unchecked : (ex_main init_args under_a_file).1 = Ret 0 ∧
  (ex_main quiet_args (ex_main init_args under_a_file).2).1 = Raise (EOS OSError "not a directory").
Proof. vm_compute. repeat split. Qed.
(** [--inspect] of a full archive: one more run, and the oldest is deleted. *)
Definition full : folder := map (λ i, (str (txt "20260101T0000" ++ show_int (10 + Z.of_nat i) ++ txt "Z"), File true 0 0)) (seq 0 50).
Example inspect_prunes : let w := (ex_main init_args by_default).2 in
  let '(r, w') := ex_main inspect_args (World (w_answers w) (w_files w) {["/home/u/archive" := full]} (w_fleet w) (w_net w)) in
  r = Ret 0 ∧ assoc "20260101T000010Z" full = Some (File true 0 0) ∧
  match w_archives w' !! "/home/u/archive" with Some d => assoc "20260101T000010Z" d = None ∧ length d = 50%nat | None => False end.
Proof. vm_compute. repeat split. Qed.
