(* ===== verification/FlatJson.v ===== *)
(** * JSON text of a flat object

    What [json.dumps] and [snprintf] write for an object whose members are
    integers and strings that need no escape, and a reader of such texts.  The
    law [reads_flat] is what the standard says of [json.loads] on them; the
    reader here obeys it. *)
From S2P Require Import Prelude Py Bytes Toml.

Inductive scalar := SInt (z : Z) | SStr (t : text).
Abbreviation members := (list (string * scalar)).
Definition quote : text := ["034"%char].
Definition scalar_text (v : scalar) : text :=
  match v with SInt z => show_int z | SStr t => quote ++ t ++ quote end.
Definition member_text (m : string * scalar) : text := quote ++ txt m.1 ++ quote ++ txt ":" ++ scalar_text m.2.
Definition flat_text (ms : members) : text := txt "{" ++ join (txt ",") (map member_text ms) ++ txt "}".
Definition scalar_json (v : scalar) : json := match v with SInt z => JNum z | SStr t => JStr (str t) end.
Definition flat_json (ms : members) : list (string * json) := map (λ '(k, v), (k, scalar_json v)) ms.

(** Characters a JSON string holds as they are. *)
Definition unescaped (c : ascii) : bool := (32 <=? ord c) && (ord c <? 127) && negb (bool_decide (c ∈ ["034"; "092"]%char)).
Definition flat_member (m : string * scalar) : bool :=
  forallb unescaped (txt m.1) && match m.2 with SStr t => forallb unescaped t | SInt _ => true end.
(** [json.loads] on the text of a flat object. *)
Definition reads_flat (loads : bytes → option json) : Prop := ∀ ms,
  ms ≠ [] → NoDup ms.*1 → forallb flat_member ms = true → loads (flat_text ms) = Some (JObj (flat_json ms)).

(** ** A reader *)

Definition read_string (t : text) : option (text * text) :=
  match t with
  | c :: t => if decide (c = "034"%char) then '(s, t) ← partition "034" t; if forallb unescaped s then Some (s, t) else None else None
  | [] => None
  end.
Definition read_scalar (t : text) : option (json * text) :=
  match read_string t with
  | Some (s, t) => Some (JStr (str s), t)
  | None => let w := takewhile numeral t in z ← int_of_text 10 w; Some (JNum z, drop (length w) t)
  end.
Fixpoint read_members (fuel : nat) (t : text) : option (list (string * json)) :=
  match fuel with
  | O => None
  | S fuel =>
      '(k, t) ← read_string t;
      match t with
      | ":"%char :: t =>
          '(v, t) ← read_scalar t;
          match t with
          | ["}"%char] => Some [(str k, v)]
          | ","%char :: t => ms ← read_members fuel t; Some ((str k, v) :: ms)
          | _ => None
          end
      | _ => None
      end
  end.
Definition read_flat (b : bytes) : option json :=
  match b with "{"%char :: t => JObj <$> read_members (length t) t | _ => None end.

(** ** It reads what is written *)

Lemma partition_unescaped s t : forallb unescaped s = true → partition "034" (s ++ "034"%char :: t) = Some (s, t).
Proof.
  induction s as [|c s IH]; cbn [forallb app partition]; [by rewrite decide_True|]; intros [C F]%andb_prop.
  rewrite decide_False by (intros ->; done); by rewrite (IH F).
Qed.
Lemma read_string_quoted s t : forallb unescaped s = true → read_string (quote ++ s ++ quote ++ t) = Some (s, t).
Proof.
  intros F; unfold read_string, quote; cbn [app]; rewrite decide_True, partition_unescaped by done.
  cbn [mbind option_bind]; by rewrite F.
Qed.
Lemma read_scalar_text v t : match v with SStr s => forallb unescaped s | SInt _ => true end = true →
  breaks numeral t = true → read_scalar (scalar_text v ++ t) = Some (scalar_json v, t).
Proof.
  intros F B; destruct v as [z|s]; unfold read_scalar; cbn [scalar_text scalar_json].
  - assert (read_string (show_int z ++ t) = None) as ->.
    { destruct (show_int_cons z) as (c & w & -> & C); cbn; by rewrite decide_False by (by apply numeral_start in C as (? & _)). }
    rewrite takewhile_app by (done || apply show_int_numeral); rewrite int_of_show_int; cbn; by rewrite drop_app_length.
  - by rewrite <- !app_assoc, read_string_quoted.
Qed.
Lemma read_members_text ms fuel : ms ≠ [] → forallb flat_member ms = true → (length ms ≤ fuel)%nat →
  read_members fuel (join (txt ",") (map member_text ms) ++ txt "}") = Some (flat_json ms).
Proof.
  revert fuel; induction ms as [|[k v] ms IH]; intros fuel N F L; [done|].
  destruct fuel as [|fuel]; [simpl in L; lia|]; apply andb_prop in F as [[Fk Fv]%andb_prop F].
  cbn [length] in L; cbn [fst snd] in *.
  destruct ms as [|m ms].
  - cbn [map join flat_json]; unfold member_text; cbn [fst snd]; rewrite <- !app_assoc; cbn [read_members].
    rewrite read_string_quoted by done; cbn [mbind option_bind]; change (txt ":" ++ scalar_text v ++ txt "}") with (":"%char :: scalar_text v ++ txt "}").
    cbv iota beta; rewrite read_scalar_text by done; cbn [mbind option_bind]; change (txt "}") with ["}"%char]; cbv iota beta; by rewrite str_txt.
  - change (join (txt ",") (map member_text ((k, v) :: m :: ms))) with (member_text (k, v) ++ txt "," ++ join (txt ",") (map member_text (m :: ms))).
    unfold member_text at 1; cbn [fst snd]; rewrite <- !app_assoc; cbn [read_members].
    rewrite read_string_quoted by done; cbn [mbind option_bind].
    set (rest := join (txt ",") _ ++ txt "}"); change (txt ":" ++ scalar_text v ++ txt "," ++ rest) with (":"%char :: scalar_text v ++ (","%char :: rest)).
    cbv iota beta; rewrite read_scalar_text by done; cbn [mbind option_bind]; cbv iota beta.
    unfold rest; rewrite IH by (done || lia); cbn [mbind option_bind]; by rewrite str_txt.
Qed.
Lemma member_text_length ms : (length ms ≤ length (join (txt ",") (map member_text ms)))%nat.
Proof.
  induction ms as [|m ms IH]; [done|]; destruct ms as [|m' ms]; [unfold member_text; simpl; lia|].
  change (join (txt ",") (map member_text (m :: m' :: ms))) with (member_text m ++ txt "," ++ join (txt ",") (map member_text (m' :: ms))).
  rewrite !length_app; cbn [length] in *; change (length (txt ",")) with 1%nat; lia.
Qed.
Lemma read_flat_reads : reads_flat read_flat.
Proof.
  intros ms N _ F; unfold read_flat, flat_text.
  change (txt "{" ++ join (txt ",") (map member_text ms) ++ txt "}") with ("{"%char :: (join (txt ",") (map member_text ms) ++ txt "}")).
  cbv iota beta; rewrite read_members_text; [done..|]; rewrite length_app; pose proof (member_text_length ms); lia.
Qed.
