(* ===== verification/Responder.v ===== *)
(** * The daemon's answers to discovery probes: [mcpd/src/discovery.c]

    What [_discovery_loop] does with a datagram: what it takes for a probe, the two
    budgets that decide whether it answers, and the answer; and what the answer is
    to the host that asked ([transports/discovery.py], in [Discovery]).  The tick
    counter wraps at 32 bits, as in the code.  A text with single quotes stands for
    the same text with double ones. *)
From S2P Require Import Prelude Py Bytes Config Net Fleet Cmdline Discovery FlatJson.

Definition dq (s : string) : text := map (λ c, if decide (c = "'"%char) then "034"%char else c) (txt s).
Definition DISCOVERY_BUF : nat := 2048.
Definition DISCOVERY_MIN_PROBE : nat := 64.
Definition DISCOVERY_TICKS_PER_SEC : Z := 50.
Definition DISCOVERY_SRC_SLOTS : nat := 16.
Definition DISCOVERY_SRC_BURST : Z := 4.
Definition DISCOVERY_SRC_RATE : Z := 1.
Definition DISCOVERY_GLOBAL_BURST : Z := 24.
Definition DISCOVERY_GLOBAL_RATE : Z := 8.
Definition RL_SCALE : Z := 1000.
Definition u32 (x : Z) : Z := x mod 2 ^ 32.

(** [_now_ticks], of the three fields of a [DateStamp]. *)
Definition now_ticks (ds_Days ds_Minute ds_Tick : Z) : Z :=
  u32 ((ds_Days * 1440 + ds_Minute) * (60 * DISCOVERY_TICKS_PER_SEC) + ds_Tick).

Record rl_bucket := Bucket { tokens : Z; last_tick : Z }.
(** The address 0 marks a free slot. *)
Record rl_src := Src { ip : Z; last_seen : Z; b : rl_bucket }.
Definition rl_init (burst now : Z) : rl_bucket := Bucket (burst * RL_SCALE) now.
Definition rl_refill (k : rl_bucket) (now rate_per_sec burst : Z) : rl_bucket :=
  let elapsed := u32 (now - last_tick k) in
  if elapsed =? 0 then k
  else
    let tok := tokens k + elapsed * rate_per_sec * RL_SCALE / DISCOVERY_TICKS_PER_SEC in
    let cap := burst * RL_SCALE in
    Bucket (if cap <? tok then cap else tok) now.
(** [_rl_src_for]: the index of the source's slot, and the slots: the source's own,
    else the first free one, else the one not seen for longest. *)
Fixpoint own_slot (a : Z) (i : nat) (l : list rl_src) : option nat :=
  match l with
  | [] => None
  | s :: l => if negb (ip s =? 0) && (ip s =? a) then Some i else own_slot a (S i) l
  end.
Fixpoint free_slot (i : nat) (l : list rl_src) : option nat :=
  match l with
  | [] => None
  | s :: l => if ip s =? 0 then Some i else free_slot (S i) l
  end.
Fixpoint oldest_from (now : Z) (i oldest : nat) (seen : Z) (l : list rl_src) : nat :=
  match l with
  | [] => oldest
  | s :: l =>
      if u32 (now - seen) <? u32 (now - last_seen s) then oldest_from now (S i) i (last_seen s) l
      else oldest_from now (S i) oldest seen l
  end.
Definition oldest_slot (now : Z) (l : list rl_src) : nat :=
  match l with [] => 0%nat | s :: _ => oldest_from now 0 0 (last_seen s) l end.
Definition rl_src_for (a now : Z) (l : list rl_src) : nat * list rl_src :=
  match own_slot a 0 l with
  | Some i => (i, alter (λ s, Src (ip s) now (b s)) i l)
  | None =>
      let i := default (oldest_slot now l) (free_slot 0 l) in
      (i, <[i := Src a now (rl_init DISCOVERY_SRC_BURST now)]> l)
  end.
(** The task's state: the slots, the global budget, and the account of drops, with
    the lines of the debug log. *)
Record responder := Responder { g_src : list rl_src; g_global : rl_bucket;
  g_dropped : Z; g_drop_reported : bool; g_drop_report_tick : Z; debug_log : list text }.
Definition with_budgets (l : list rl_src) (g : rl_bucket) (r : responder) : responder :=
  Responder l g (g_dropped r) (g_drop_reported r) (g_drop_report_tick r) (debug_log r).
Definition start (now : Z) : responder :=
  Responder (repeat (Src 0 0 (Bucket 0 0)) DISCOVERY_SRC_SLOTS) (rl_init DISCOVERY_GLOBAL_BURST now) 0 false 0 [].
(** [_rl_allow] *)
Definition with_bucket (k : rl_bucket) (s : rl_src) : rl_src := Src (ip s) (last_seen s) k.
Definition spend (k : rl_bucket) : rl_bucket := Bucket (tokens k - RL_SCALE) (last_tick k).
Definition no_src : rl_src := Src 0 0 (Bucket 0 0).
Definition rl_allow (a now : Z) (r : responder) : bool * responder :=
  let '(i, l) := rl_src_for a now (g_src r) in
  let k := rl_refill (b (nth i l no_src)) now DISCOVERY_SRC_RATE DISCOVERY_SRC_BURST in
  let g := rl_refill (g_global r) now DISCOVERY_GLOBAL_RATE DISCOVERY_GLOBAL_BURST in
  if (tokens k <? RL_SCALE) || (tokens g <? RL_SCALE) then (false, with_budgets (<[i := with_bucket k (nth i l no_src)]> l) g r)
  else (true, with_budgets (<[i := with_bucket (spend k) (nth i l no_src)]> l) (spend g) r).
(** [_rl_note_drop] *)
Definition rl_note_drop (now : Z) (r : responder) : responder :=
  let n := u32 (g_dropped r + 1) in
  if negb (g_drop_reported r)
  then Responder (g_src r) (g_global r) n true now (debug_log r ++ [txt "[MCPd] discovery rate limit engaged"])
  else if u32 (now - g_drop_report_tick r) <? 60 * DISCOVERY_TICKS_PER_SEC
  then Responder (g_src r) (g_global r) n true (g_drop_report_tick r) (debug_log r)
  else Responder (g_src r) (g_global r) n true now
         (debug_log r ++ [txt "[MCPd] discovery dropped=" ++ show_int n ++ txt " (rate limit)"]).

(** C strings: what follows the first occurrence ([strstr]), what precedes a
    character ([strchr]). *)
Definition c_string (t : text) : text := (default (t, []) (partition "000" t)).1.
Fixpoint after (needle t : text) : option text :=
  if startswith needle t then Some (drop (length needle) t)
  else match t with [] => None | _ :: t => after needle t end.
Definition blank_or_colon (c : ascii) : bool := bool_decide (c ∈ [" "; "009"; ":"]%char).
Definition extract_str_field (buf : text) (key : string) (cap : nat) : option text :=
  match after (["034"%char] ++ txt key ++ ["034"%char]) buf with
  | Some p =>
      match dropwhile blank_or_colon p with
      | c :: p =>
          if decide (c = "034"%char)
          then match partition "034" p with
               | Some (v, _) => Some (if (cap <=? length v)%nat then take (cap - 1) v else v)
               | None => None
               end
          else None
      | [] => None
      end
  | None => None
  end.
Definition sanitize (t : text) : text := map (λ c, if (ord c <? 32) || (127 <=? ord c) then "?"%char else c) t.
(** [_extract_str_field] with a needle that does not fit its buffer gives nothing;
    the only key is [tag]. *)
Definition respond (tcp_port methods : Z) (host tag : text) : text :=
  dq "{'mcp_discovery':1,'v':1,'server':'mcpd/2.2','protocol':'1.0','tcp_port':" ++ show_int tcp_port ++
  dq ",'host':'" ++ host ++ dq "','methods':" ++ show_int methods ++ dq ",'tag':'" ++ tag ++ dq "'}".
Definition is_probe (got : text) (buf : text) : bool :=
  (DISCOVERY_MIN_PROBE <=? length got)%nat && contains (dq "'mcp_discovery'") buf && contains (dq "'v'") buf.
(** What the task announces: the port the listener has, the number of methods, the
    host's name as it was at the start. *)
Record announced := Announced { g_tcp_port : Z; g_methods_advertised : Z; host_name : text }.
(** The body of the loop, for a datagram that arrives at the tick [now]. *)
Definition on_datagram (an : announced) (got : text) (from now : Z) (r : responder) : option text * responder :=
  let got := take (DISCOVERY_BUF - 1) got in
  let buf := c_string got in
  if (length got =? 0)%nat then (None, r)
  else if negb (is_probe got buf) then (None, r)
  else
    let '(ok, r) := rl_allow from now r in
    if negb ok then (None, rl_note_drop now r)
    else
      let tag := sanitize (default [] (extract_str_field buf "tag" 64)) in
      let resp := respond (g_tcp_port an) (g_methods_advertised an) (sanitize (host_name an)) tag in
      ((if (length resp <? 512)%nat then Some resp else None), r).
(** The host's [_make_probe]: its tag is sixteen hexadecimal digits. *)
Definition make_probe (tag : text) : bytes := dq "{'mcp_discovery':1,'v':1,'client':'amiga-fleet-mcp','tag':'" ++ tag ++ dq "'}".

(* ------------------------------------------------------------------ *)
(** ** Budgets *)

Record datagram := Datagram { d_time : Z; d_from : Z; d_data : text }.
(** The answers to a sequence of datagrams; a time is the tick it is read as, and
    goes on where the counter wraps. *)
Fixpoint serve (an : announced) (evs : list datagram) (r : responder) : list (datagram * text) * responder :=
  match evs with
  | [] => ([], r)
  | d :: evs =>
      let '(o, r) := on_datagram an (d_data d) (d_from d) (u32 (d_time d)) r in
      let '(out, r) := serve an evs r in
      (match o with Some t => (d, t) :: out | None => out end, r)
  end.
Definition answers (an : announced) (evs : list datagram) (r : responder) : nat := length (serve an evs r).1.
Definition answers_to (a : Z) (an : announced) (evs : list datagram) (r : responder) : nat :=
  length (List.filter (λ '(d, _), d_from d =? a) (serve an evs r).1).

(** A bucket last filled at the time [t]. *)
Definition filled (burst t : Z) (k : rl_bucket) : Prop := 0 ≤ tokens k ≤ burst * RL_SCALE ∧ last_tick k = u32 t.
Lemma elapsed_le t0 t : t0 ≤ t → 0 ≤ u32 (u32 t - u32 t0) ≤ t - t0.
Proof.
  intros L; unfold u32; rewrite <- Zminus_mod; split; [by apply Z.mod_pos_bound|apply Z.mod_le; lia].
Qed.
Lemma refill_spec k burst rate t0 t : filled burst t0 k → t0 ≤ t → 0 ≤ rate → 0 ≤ burst →
  filled burst t (rl_refill k (u32 t) rate burst) ∧ tokens (rl_refill k (u32 t) rate burst) ≤ tokens k + 20 * rate * (t - t0).
Proof.
  intros [T L] Le R B; pose proof (elapsed_le t0 t Le) as El; unfold rl_refill; rewrite L.
  destruct (Z.eqb_spec (u32 (u32 t - u32 t0)) 0) as [Z|Z].
  - split; [split; [done|]|nia]; rewrite L; unfold u32 in *; rewrite <- Zminus_mod in Z.
    apply Z.mod_divide in Z as [q Q]; [|done]; replace t with (t0 + q * 2 ^ 32) by lia; by rewrite Z.mod_add.
  - unfold RL_SCALE, DISCOVERY_TICKS_PER_SEC in *; set (e := u32 (u32 t - u32 t0)) in *.
    replace (e * rate * 1000 / 50) with (20 * rate * e) by (replace (e * rate * 1000) with (20 * rate * e * 50) by lia; by rewrite Z.div_mul).
    assert (0 ≤ 20 * rate * e ≤ 20 * rate * (t - t0)) by nia.
    unfold filled; cbn [tokens last_tick]; destruct (Z.ltb_spec (burst * 1000) (tokens k + 20 * rate * e)); (split; [split; [unfold RL_SCALE; lia|done]|lia]).
Qed.
Lemma filled_init burst t : 0 ≤ burst → filled burst t (rl_init burst (u32 t)).
Proof. unfold filled, rl_init, RL_SCALE; cbn; lia. Qed.
Lemma filled_spend burst t k : filled burst t k → RL_SCALE ≤ tokens k → filled burst t (spend k).
Proof. unfold filled, spend, RL_SCALE; cbn; lia. Qed.

(** What a datagram does to the budgets, drops aside. *)
Definition same_budgets (r r' : responder) : Prop := g_src r' = g_src r ∧ g_global r' = g_global r.
Lemma note_drop_same now r : same_budgets r (rl_note_drop now r).
Proof. unfold rl_note_drop; destruct (negb _); [|destruct (_ <? _)]; done. Qed.
Lemma on_datagram_budgets an got from now r : let '(o, r') := on_datagram an got from now r in
  (o = None ∧ same_budgets r r') ∨
  let '(ok, r1) := rl_allow from now r in same_budgets r1 r' ∧ (is_Some o → ok = true).
Proof.
  unfold on_datagram; destruct (_ =? 0)%nat; [by left|]; destruct (negb (is_probe _ _)); [by left|].
  destruct (rl_allow from now r) as [[|] r1]; cbn [negb]; right; split; try done; apply note_drop_same.
Qed.
Lemma allow_global from now r : let '(ok, r1) := rl_allow from now r in
  let g := rl_refill (g_global r) now DISCOVERY_GLOBAL_RATE DISCOVERY_GLOBAL_BURST in
  g_global r1 = (if ok then spend g else g) ∧ (ok = true → RL_SCALE ≤ tokens g).
Proof.
  unfold rl_allow; destruct (rl_src_for _ _ _) as [i l]; destruct ((_ <? _) || _) eqn:B; cbn; [done|].
  split; [done|]; intros _; apply orb_false_elim in B as [_ B]; lia.
Qed.
(** One bucket over a time: what it gave out and what came in. *)
Definition room (burst rate : Z) (k : rl_bucket) (t0 x : Z) : Z := Z.min (burst * RL_SCALE) (tokens k + 20 * rate * (x - t0)).
Lemma room_step burst rate k t0 t x T (ok : bool) n : filled burst t0 k → 0 ≤ rate → 0 ≤ burst → t0 ≤ x → x ≤ t → t ≤ T →
  let k' := rl_refill k (u32 t) rate burst in
  (ok = true → RL_SCALE ≤ tokens k') →
  RL_SCALE * n ≤ room burst rate (if ok then spend k' else k') t t + 20 * rate * (T - t) →
  RL_SCALE * ((if ok then 1 else 0) + n) ≤ room burst rate k t0 x + 20 * rate * (T - x).
Proof.
  intros F R B L1 L2 L3 k' Ok; destruct (refill_spec k burst rate t0 t F ltac:(lia) R B) as [F' Le]; fold k' in F', Le.
  destruct F as [F _], F' as [F' _]; unfold room; assert (20 * rate * (t - t0) = 20 * rate * (t - x) + 20 * rate * (x - t0)) as E by lia.
  assert (20 * rate * (T - x) = 20 * rate * (T - t) + 20 * rate * (t - x)) as E' by lia.
  assert (0 ≤ 20 * rate * (t - x) ∧ 0 ≤ 20 * rate * (x - t0)) as [P1 P2] by nia.
  replace (20 * rate * (t - t)) with 0 by lia; unfold RL_SCALE in *.
  destruct ok; cbn [spend tokens]; unfold RL_SCALE; lia.
Qed.

(** Times that do not go back, between two bounds. *)
Fixpoint between (x : Z) (evs : list datagram) (T : Z) : Prop :=
  match evs with
  | [] => x ≤ T
  | d :: evs => x ≤ d_time d ∧ between (d_time d) evs T
  end.
Lemma between_le x evs T : between x evs T → x ≤ T.
Proof. revert x; induction evs as [|d evs IH]; intros x; simpl; [done|]; intros [? ?%IH]; lia. Qed.
Lemma between_sooner x y evs T : between y evs T → x ≤ y → between x evs T.
Proof. destruct evs; simpl; [lia|]; intros [? ?] ?; split; [lia|done]. Qed.

Lemma answers_cons an d evs r : answers an (d :: evs) r =
  ((if (on_datagram an (d_data d) (d_from d) (u32 (d_time d)) r).1 is Some _ then 1 else 0) +
   answers an evs (on_datagram an (d_data d) (d_from d) (u32 (d_time d)) r).2)%nat.
Proof. unfold answers; cbn [serve]; destruct (on_datagram _ _ _ _ _) as [[t|] r']; cbn; destruct (serve an evs r') as [out r'']; done. Qed.
Lemma answers_to_cons a an d evs r : answers_to a an (d :: evs) r =
  ((if (on_datagram an (d_data d) (d_from d) (u32 (d_time d)) r).1 is Some _ then if (d_from d =? a)%Z then 1 else 0 else 0) +
   answers_to a an evs (on_datagram an (d_data d) (d_from d) (u32 (d_time d)) r).2)%nat.
Proof.
  unfold answers_to; cbn [serve]; destruct (on_datagram _ _ _ _ _) as [[t|] r']; cbn; destruct (serve an evs r') as [out r'']; cbn; [|done].
  by destruct (d_from d =? a).
Qed.
Lemma serve_app an pre evs r : serve an (pre ++ evs) r =
  let '(out, r) := serve an pre r in let '(out', r) := serve an evs r in (out ++ out', r).
Proof.
  revert r; induction pre as [|d pre IH]; intros r; cbn [serve app]; [by destruct (serve an evs r)|].
  destruct (on_datagram _ _ _ _ _) as [o r1]; rewrite IH; destruct (serve an pre r1) as [out r2], (serve an evs r2) as [out' r3]; by destruct o.
Qed.

(** The global budget after a datagram. *)
Lemma global_step an d t0 r : filled DISCOVERY_GLOBAL_BURST t0 (g_global r) → t0 ≤ d_time d →
  let '(o, r') := on_datagram an (d_data d) (d_from d) (u32 (d_time d)) r in
  ∃ t', t0 ≤ t' ≤ d_time d ∧ filled DISCOVERY_GLOBAL_BURST t' (g_global r') ∧
  ∀ x n T, t0 ≤ x ≤ d_time d → d_time d ≤ T →
    RL_SCALE * n ≤ room DISCOVERY_GLOBAL_BURST DISCOVERY_GLOBAL_RATE (g_global r') t' (d_time d) + 20 * DISCOVERY_GLOBAL_RATE * (T - d_time d) →
    RL_SCALE * ((if o is Some _ then 1 else 0) + n) ≤ room DISCOVERY_GLOBAL_BURST DISCOVERY_GLOBAL_RATE (g_global r) t0 x + 20 * DISCOVERY_GLOBAL_RATE * (T - x).
Proof.
  intros F L; pose proof (on_datagram_budgets an (d_data d) (d_from d) (u32 (d_time d)) r) as Bu.
  destruct (on_datagram _ _ _ _ r) as [o r']; destruct Bu as [[-> [_ ->]]|Bu].
  - exists t0; split; [lia|split; [done|]]; unfold room, RL_SCALE, DISCOVERY_GLOBAL_BURST, DISCOVERY_GLOBAL_RATE in *; intros; lia.
  - pose proof (allow_global (d_from d) (u32 (d_time d)) r) as A; destruct (rl_allow _ _ r) as [ok r1].
    destruct Bu as [[_ ->] Ok], A as [-> Sp]; destruct (refill_spec (g_global r) DISCOVERY_GLOBAL_BURST DISCOVERY_GLOBAL_RATE t0 (d_time d) F L) as [F' _]; [done..|].
    exists (d_time d); split; [lia|split; [destruct ok; [apply filled_spend; auto|done]|]]; intros x n T Lx LT H.
    assert (RL_SCALE * ((if ok then 1 else 0) + n) ≤ room DISCOVERY_GLOBAL_BURST DISCOVERY_GLOBAL_RATE (g_global r) t0 x + 20 * DISCOVERY_GLOBAL_RATE * (T - x)) as G
      by (apply (room_step _ _ _ _ (d_time d)); try done; lia).
    destruct o; [rewrite (Ok (ex_intro _ _ eq_refl)) in G; done|]; unfold RL_SCALE in *; destruct ok; lia.
Qed.
Lemma global_bound an evs t0 r x T : filled DISCOVERY_GLOBAL_BURST t0 (g_global r) → t0 ≤ x → between x evs T →
  RL_SCALE * Z.of_nat (answers an evs r) ≤ room DISCOVERY_GLOBAL_BURST DISCOVERY_GLOBAL_RATE (g_global r) t0 x + 20 * DISCOVERY_GLOBAL_RATE * (T - x).
Proof.
  revert t0 r x; induction evs as [|d evs IH]; intros t0 r x F L B.
  - simpl in B; destruct F as [F _]; unfold answers, room, RL_SCALE, DISCOVERY_GLOBAL_BURST, DISCOVERY_GLOBAL_RATE in *; simpl; lia.
  - destruct B as [B1 B2]; pose proof (between_le _ _ _ B2); pose proof (global_step an d t0 r F ltac:(lia)) as St; rewrite answers_cons.
    destruct (on_datagram _ _ _ _ r) as [o r']; destruct St as (t' & Lt & F' & St); cbn [fst snd].
    specialize (IH t' r' (d_time d) F' ltac:(lia) B2); specialize (St x _ T ltac:(lia) ltac:(lia) IH); destruct o; lia.
Qed.
Lemma global_kept an evs t0 r x T : filled DISCOVERY_GLOBAL_BURST t0 (g_global r) → t0 ≤ x → between x evs T →
  ∃ t', t0 ≤ t' ≤ T ∧ filled DISCOVERY_GLOBAL_BURST t' (g_global (serve an evs r).2).
Proof.
  revert t0 r x; induction evs as [|d evs IH]; intros t0 r x F L B; simpl in B; [exists t0; simpl; split; [lia|done]|].
  destruct B as [B1 B2]; pose proof (between_le _ _ _ B2); pose proof (global_step an d t0 r F ltac:(lia)) as St; cbn [serve].
  destruct (on_datagram _ _ _ _ r) as [o r']; destruct St as (t' & Lt & F' & _); destruct (IH t' r' (d_time d) F' ltac:(lia) B2) as (t2 & L2 & F2).
  destruct (serve an evs r') as [out r'']; exists t2; split; [lia|exact F2].
Qed.

(* ------------------------------------------------------------------ *)
(** ** The table of sources *)

Lemma own_slot_spec a i l : match own_slot a i l with
  | Some k => ∃ s, (i ≤ k)%nat ∧ l !! (k - i)%nat = Some s ∧ ip s ≠ 0 ∧ ip s = a
  | None => ∀ k s, l !! k = Some s → ip s ≠ 0 → ip s ≠ a
  end.
Proof.
  revert i; induction l as [|s l IH]; intros i; cbn [own_slot]; [done|].
  destruct (Z.eqb_spec (ip s) 0), (Z.eqb_spec (ip s) a); cbn [negb andb]; [specialize (IH (S i))..|exists s; rewrite Nat.sub_diag; by split_and!|specialize (IH (S i))].
  all: destruct (own_slot a (S i) l) as [k|]; [destruct IH as (x & K & E & H); exists x; split; [lia|];
    by replace (k - i)%nat with (S (k - S i)) by lia|].
  all: intros [|k] x; simpl; [intros [= <-]; congruence|apply IH].
Qed.
Lemma free_slot_spec i l : match free_slot i l with
  | Some k => ∃ s, (i ≤ k)%nat ∧ l !! (k - i)%nat = Some s ∧ ip s = 0
  | None => ∀ s, s ∈ l → ip s ≠ 0
  end.
Proof.
  revert i; induction l as [|s l IH]; intros i; cbn [free_slot]; [by intros ? ?%not_elem_of_nil|].
  destruct (Z.eqb_spec (ip s) 0); [exists s; rewrite Nat.sub_diag; by split_and!|specialize (IH (S i))].
  destruct (free_slot (S i) l) as [k|]; [destruct IH as (x & K & E & H); exists x; split; [lia|];
    by replace (k - i)%nat with (S (k - S i)) by lia|].
  intros x [->|X]%elem_of_cons; [done|by apply IH].
Qed.
Definition bucket (a : Z) (l : list rl_src) : option rl_bucket := i ← own_slot a 0 l; b <$> l !! i.
(** A table in which no source was ever put out: all it holds are of [L], once. *)
Record tidy (L : list Z) (t0 : Z) (l : list rl_src) : Prop := Tidy {
  tidy_len : length l = DISCOVERY_SRC_SLOTS;
  tidy_in i s : l !! i = Some s → ip s ≠ 0 → ip s ∈ L ∧ ∃ t, t ≤ t0 ∧ filled DISCOVERY_SRC_BURST t (b s);
  tidy_once i s i' s' : l !! i = Some s → l !! i' = Some s' → ip s ≠ 0 → ip s = ip s' → i = i' }.
Lemma own_slot_of L t0 l i s : tidy L t0 l → l !! i = Some s → ip s ≠ 0 → own_slot (ip s) 0 l = Some i.
Proof.
  intros T E N; pose proof (own_slot_spec (ip s) 0 l) as O; destruct (own_slot (ip s) 0 l) as [k|]; [|by destruct (O i s E N)].
  destruct O as (x & _ & Ex & Nx & D); rewrite Nat.sub_0_r in Ex; f_equal; by apply (tidy_once _ _ _ T k x i s).
Qed.
(** Putting a record of the source [a] where it was, or where nothing was. *)
Lemma tidy_put L t0 t l i old s : tidy L t0 l → t0 ≤ t → l !! i = Some old → ip s ≠ 0 → ip s ∈ L → filled DISCOVERY_SRC_BURST t (b s) →
  (ip old = ip s ∨ ip old = 0 ∧ own_slot (ip s) 0 l = None) →
  tidy L t (<[i := s]> l) ∧ bucket (ip s) (<[i := s]> l) = Some (b s) ∧ ∀ a, a ≠ 0 → a ≠ ip s → bucket a (<[i := s]> l) = bucket a l.
Proof.
  intros T Le Eo N In F Old; assert (i < length l)%nat as Li by (by apply lookup_lt_Some in Eo).
  assert (∀ k x, <[i := s]> l !! k = Some x → (k = i ∧ x = s) ∨ (k ≠ i ∧ l !! k = Some x)) as V.
  { intros k x; destruct (decide (k = i)) as [->|K]; [rewrite list_lookup_insert_eq by done; intros [= <-]; by left|].
    rewrite list_lookup_insert_ne by done; by right. }
  assert (∀ k x, k ≠ i → l !! k = Some x → ip x ≠ ip s) as Other.
  { intros k x K E D; destruct Old as [O|[_ O]].
    - by destruct (K (tidy_once _ _ _ T k x i old E Eo ltac:(congruence) ltac:(congruence))).
    - pose proof (own_slot_spec (ip s) 0 l) as Sp; rewrite O in Sp; by apply (Sp k x E); [rewrite D|]. }
  assert (tidy L t (<[i := s]> l)) as T'.
  { constructor; [rewrite length_insert; apply T| |].
    - intros k x [[-> ->]|[K E]]%V Nx; [split; [done|exists t; split; [lia|done]]|].
      destruct (tidy_in _ _ _ T k x E Nx) as [? (t' & ? & ?)]; split; [done|exists t'; split; [lia|done]].
    - intros k x k' x' [[-> ->]|[K E]]%V [[-> ->]|[K' E']]%V Nx D; try done;
        [by destruct (Other k' x' K' E')|by destruct (Other k x K E)|by apply (tidy_once _ _ _ T k x k' x')]. }
  split; [done|split].
  - unfold bucket; rewrite (own_slot_of L t _ i s T'); [|by apply list_lookup_insert_eq|done].
    change (b <$> <[i:=s]> l !! i = Some (b s)); by rewrite list_lookup_insert_eq.
  - intros a Na Ns; unfold bucket; pose proof (own_slot_spec a 0 (<[i:=s]> l)) as O'; pose proof (own_slot_spec a 0 l) as O.
    destruct (own_slot a 0 (<[i:=s]> l)) as [k'|].
    + destruct O' as (x & _ & E & Nx & D); rewrite Nat.sub_0_r in E; destruct (V k' x E) as [[-> ->]|[K E0]]; [congruence|].
      rewrite <- D, (own_slot_of L t0 l k' x T E0 Nx); simpl; by rewrite E, E0.
    + destruct (own_slot a 0 l) as [k|]; [|done]; destruct O as (x & _ & E & Nx & D); rewrite Nat.sub_0_r in E.
      destruct (decide (k = i)) as [->|K]; [|exfalso; apply (O' k x); [by rewrite list_lookup_insert_ne|done|done]].
      simplify_eq; destruct Old as [?|[? _]]; congruence.
Qed.
Lemma room_for_all L t0 l a : tidy L t0 l → (length L ≤ DISCOVERY_SRC_SLOTS)%nat → a ∈ L → own_slot a 0 l = None → ∃ i s, free_slot 0 l = Some i ∧ l !! i = Some s ∧ ip s = 0.
Proof.
  intros T Ln In O; pose proof (free_slot_spec 0 l) as F; destruct (free_slot 0 l) as [i|].
  { destruct F as (s & _ & E & D); rewrite Nat.sub_0_r in E; eauto. }
  exfalso; assert (NoDup (a :: (ip <$> l))) as N.
  { apply NoDup_cons; split.
    - intros (s & D & [k E]%list_elem_of_lookup_1)%list_elem_of_fmap; pose proof (own_slot_spec a 0 l) as Sp; rewrite O in Sp.
      apply (Sp k s E); [apply F; by apply list_elem_of_lookup_2 in E|done].
    - apply NoDup_alt; intros i j x; rewrite !list_lookup_fmap; destruct (l !! i) as [s|] eqn:E, (l !! j) as [s'|] eqn:E'; simpl; intros; simplify_eq.
      apply (tidy_once _ _ _ T i s j s'); [done|done|apply F; by apply list_elem_of_lookup_2 in E|done]. }
  apply (NoDup_submseteq _ L), submseteq_length in N; [simpl in N; rewrite length_fmap, (tidy_len _ _ _ T) in N; lia|].
  intros x [->|X]%elem_of_cons; [done|]; apply list_elem_of_fmap in X as (s & -> & [k E]%list_elem_of_lookup_1).
  apply (tidy_in _ _ _ T k s E), F; by apply list_elem_of_lookup_2 in E.
Qed.
Lemma nth_some {A} (l : list A) i x d : l !! i = Some x → nth i l d = x.
Proof. revert i; induction l as [|y l IH]; intros [|i]; simpl; try done; [congruence|apply IH]. Qed.
Lemma insert_alter {A} (f : A → A) i x (l : list A) : <[i := x]> (alter f i l) = <[i := x]> l.
Proof. revert i; induction l as [|y l IH]; intros [|i]; simpl; try done; f_equal; apply IH. Qed.
Lemma allow_src L t0 a now r : tidy L t0 (g_src r) → (length L ≤ DISCOVERY_SRC_SLOTS)%nat → a ∈ L → a ≠ 0 →
  let '(ok, r1) := rl_allow a now r in
  let k := rl_refill (default (rl_init DISCOVERY_SRC_BURST now) (bucket a (g_src r))) now DISCOVERY_SRC_RATE DISCOVERY_SRC_BURST in
  (ok = true → RL_SCALE ≤ tokens k) ∧
  ∃ i old, g_src r !! i = Some old ∧ (ip old = a ∨ ip old = 0 ∧ own_slot a 0 (g_src r) = None) ∧
    g_src r1 = <[i := Src a now (if ok then spend k else k)]> (g_src r).
Proof.
  intros T Ln In N; unfold rl_allow.
  assert (∃ i old l1 s1, rl_src_for a now (g_src r) = (i, l1) ∧ g_src r !! i = Some old ∧ (ip old = a ∨ ip old = 0 ∧ own_slot a 0 (g_src r) = None) ∧
    l1 !! i = Some s1 ∧ ip s1 = a ∧ last_seen s1 = now ∧ b s1 = default (rl_init DISCOVERY_SRC_BURST now) (bucket a (g_src r)) ∧
    ∀ x, <[i := x]> l1 = <[i := x]> (g_src r)) as (i & old & l1 & s1 & -> & Eo & Old & E1 & A1 & S1 & B1 & Same).
  { unfold rl_src_for, bucket; pose proof (own_slot_spec a 0 (g_src r)) as O; destruct (own_slot a 0 (g_src r)) as [i|] eqn:Os.
    - destruct O as (s & _ & E & Ns & D); rewrite Nat.sub_0_r in E.
      exists i, s, (alter (λ s, Src (ip s) now (b s)) i (g_src r)), (Src (ip s) now (b s)); split_and!; try done;
        [by left|by rewrite list_lookup_alter_eq, E|simpl; by rewrite E|intros x; apply insert_alter].
    - destruct (room_for_all L t0 _ a T Ln In Os) as (i & s & -> & E & D).
      exists i, s, (<[i:=Src a now (rl_init DISCOVERY_SRC_BURST now)]> (g_src r)), (Src a now (rl_init DISCOVERY_SRC_BURST now));
        split_and!; try done; [by right|apply list_lookup_insert_eq; by apply lookup_lt_Some in E|intros x; apply list_insert_insert_eq]. }
  rewrite (nth_some l1 i s1 no_src E1), B1; set (k := rl_refill (default _ _) _ _ _).
  destruct ((tokens k <? RL_SCALE) || _) eqn:B; cbn [with_budgets g_src].
  - split; [done|]; exists i, old; split_and!; try done; rewrite Same; unfold with_bucket; by rewrite A1, S1.
  - apply orb_false_elim in B as [B _]; split; [intros _; lia|]; exists i, old; split_and!; try done; rewrite Same; unfold with_bucket; by rewrite A1, S1.
Qed.
(** What a source may still get: of its bucket, or of a fresh one. *)
Definition allowance (a : Z) (l : list rl_src) (t0 x : Z) : Z :=
  match bucket a l with
  | Some k => room DISCOVERY_SRC_BURST DISCOVERY_SRC_RATE k t0 x
  | None => DISCOVERY_SRC_BURST * RL_SCALE
  end.
Definition since (a : Z) (l : list rl_src) (t : Z) : Prop := ∀ k, bucket a l = Some k → filled DISCOVERY_SRC_BURST t k.
Lemma since_of L a t0 l : tidy L t0 l → ∃ t, since a l t ∧ t ≤ t0.
Proof.
  intros T; unfold since, bucket; pose proof (own_slot_spec a 0 l) as Os; destruct (own_slot a 0 l) as [j|]; [|by exists t0].
  destruct Os as (s & _ & E & Ns & D); rewrite Nat.sub_0_r in E; destruct (tidy_in _ _ _ T j s E Ns) as [_ (t & Lt & F)].
  exists t; split; [|lia]; simpl; rewrite E; by intros ? [= <-].
Qed.
Lemma allowance_wait a l t x y n T : t ≤ x ≤ y → y ≤ T →
  RL_SCALE * n ≤ allowance a l t y + 20 * DISCOVERY_SRC_RATE * (T - y) → RL_SCALE * n ≤ allowance a l t x + 20 * DISCOVERY_SRC_RATE * (T - x).
Proof. unfold allowance, room, DISCOVERY_SRC_RATE; destruct (bucket a l); unfold RL_SCALE, DISCOVERY_SRC_BURST; lia. Qed.
Lemma tidy_later L t0 t l : tidy L t0 l → t0 ≤ t → tidy L t l.
Proof.
  intros [T1 T2 T3] Le; constructor; try done; intros i s E Ns; destruct (T2 i s E Ns) as [? (t2 & ? & ?)]; split; [done|exists t2; split; [lia|done]].
Qed.
(** The bucket a datagram finds for its source, after the refill, and what is left
    of it. *)
Lemma refilled a l t y : since a l t → t ≤ y →
  filled DISCOVERY_SRC_BURST y (rl_refill (default (rl_init DISCOVERY_SRC_BURST (u32 y)) (bucket a l)) (u32 y) DISCOVERY_SRC_RATE DISCOVERY_SRC_BURST).
Proof.
  intros Sc Lt; unfold since in *; destruct (bucket a l) as [k0|]; simpl.
  - apply (refill_spec k0 _ _ t); try done; by apply Sc.
  - apply (refill_spec _ _ _ y); try done; by apply filled_init.
Qed.
Lemma allowance_spent a l t x y T (ok : bool) n : since a l t → t ≤ x ≤ y → y ≤ T →
  let k := rl_refill (default (rl_init DISCOVERY_SRC_BURST (u32 y)) (bucket a l)) (u32 y) DISCOVERY_SRC_RATE DISCOVERY_SRC_BURST in
  (ok = true → RL_SCALE ≤ tokens k) →
  RL_SCALE * n ≤ room DISCOVERY_SRC_BURST DISCOVERY_SRC_RATE (if ok then spend k else k) y y + 20 * DISCOVERY_SRC_RATE * (T - y) →
  RL_SCALE * ((if ok then 1 else 0) + n) ≤ allowance a l t x + 20 * DISCOVERY_SRC_RATE * (T - x).
Proof.
  intros Sc Lx LT k Sp H; unfold allowance, since, k in *; destruct (bucket a l) as [k0|]; cbn [default] in *.
  - apply (room_step _ _ _ _ y); try done; [by apply Sc|lia..].
  - etrans; [apply (room_step DISCOVERY_SRC_BURST DISCOVERY_SRC_RATE (rl_init DISCOVERY_SRC_BURST (u32 y)) y y y T ok n);
      try done; try lia; by apply filled_init|].
    unfold room, rl_init, DISCOVERY_SRC_RATE, DISCOVERY_SRC_BURST, RL_SCALE; cbn [tokens]; lia.
Qed.
Lemma src_step an L d a t0 r : tidy L t0 (g_src r) → (length L ≤ DISCOVERY_SRC_SLOTS)%nat → (0 ∉ L) → d_from d ∈ L → a ∈ L → t0 ≤ d_time d →
  let '(o, r') := on_datagram an (d_data d) (d_from d) (u32 (d_time d)) r in
  tidy L (d_time d) (g_src r') ∧
  ∀ t x, since a (g_src r) t → t ≤ x ≤ d_time d → ∃ t', t ≤ t' ≤ d_time d ∧ since a (g_src r') t' ∧
  ∀ n T, d_time d ≤ T →
    RL_SCALE * n ≤ allowance a (g_src r') t' (d_time d) + 20 * DISCOVERY_SRC_RATE * (T - d_time d) →
    RL_SCALE * ((if o is Some _ then if d_from d =? a then 1 else 0 else 0) + n) ≤ allowance a (g_src r) t x + 20 * DISCOVERY_SRC_RATE * (T - x).
Proof.
  intros Td Ln N0 Df Aa Le; assert (a ≠ 0 ∧ d_from d ≠ 0) as [Na Nd] by (split; intros E; by rewrite E in *).
  pose proof (on_datagram_budgets an (d_data d) (d_from d) (u32 (d_time d)) r) as Bu.
  destruct (on_datagram _ _ _ _ r) as [o r']; destruct Bu as [[-> [-> _]]|Bu].
  - split; [by apply (tidy_later L t0)|]; intros t x Sc Lx; exists t; split; [lia|split; [done|]]; intros n T LT H.
    by apply (allowance_wait _ _ _ _ (d_time d)).
  - pose proof (allow_src L t0 (d_from d) (u32 (d_time d)) r Td Ln Df Nd) as A; destruct (rl_allow _ _ r) as [ok r1].
    destruct Bu as [[-> _] Ok], A as (Sp & i & old & Eo & Old & ->); set (k := rl_refill (default _ _) _ _ _) in *.
    set (k' := if ok then spend k else k); destruct (since_of L (d_from d) t0 (g_src r) Td) as (td & Sd & Ld).
    assert (filled DISCOVERY_SRC_BURST (d_time d) k) as F by (apply (refilled _ _ td); [done|lia]).
    assert (filled DISCOVERY_SRC_BURST (d_time d) k') as F' by (unfold k'; destruct ok; [apply filled_spend; auto|done]).
    destruct (tidy_put L t0 (d_time d) (g_src r) i old (Src (d_from d) (u32 (d_time d)) k') Td Le Eo Nd Df F' Old) as (T' & Bk & Other).
    cbn [ip] in Bk, Other; split; [exact T'|]; intros t x Sc Lx; destruct (Z.eqb_spec (d_from d) a) as [<-|Nq].
    + exists (d_time d); split; [lia|split; [intros ? B'; unfold k' in *; simplify_eq; done|]]; intros n T LT H.
      unfold allowance at 1 in H; rewrite Bk in H; pose proof (allowance_spent _ _ t x (d_time d) T ok n Sc Lx LT Sp H) as G.
      destruct o; [rewrite (Ok (ex_intro _ _ eq_refl)) in G; done|]; unfold RL_SCALE in *; destruct ok; lia.
    + unfold since in *; exists t; split; [lia|split; [by rewrite Other|]]; intros n T LT H; unfold allowance at 1 in H; rewrite Other in H by done.
      replace (RL_SCALE * _) with (RL_SCALE * n) by (destruct o; lia); by apply (allowance_wait _ _ _ _ (d_time d)).
Qed.
Lemma src_bound an L evs a t0 r : tidy L t0 (g_src r) → (length L ≤ DISCOVERY_SRC_SLOTS)%nat → (0 ∉ L) → a ∈ L → Forall (λ d, d_from d ∈ L) evs →
  ∀ t x T, since a (g_src r) t → t ≤ x → t0 ≤ x → between x evs T →
  RL_SCALE * Z.of_nat (answers_to a an evs r) ≤ allowance a (g_src r) t x + 20 * DISCOVERY_SRC_RATE * (T - x).
Proof.
  revert t0 r; induction evs as [|d evs IH]; intros t0 r Td Ln N0 Aa All t x T Sc Lt Lx B.
  - simpl in B; unfold answers_to, allowance, room, since, filled in *; destruct (bucket a (g_src r)) as [k|];
      [specialize (Sc k eq_refl)|]; unfold RL_SCALE, DISCOVERY_SRC_BURST, DISCOVERY_SRC_RATE in *; simpl; lia.
  - destruct B as [B1 B2]; apply Forall_cons in All as [Df All]; pose proof (between_le _ _ _ B2).
    pose proof (src_step an L d a t0 r Td Ln N0 Df Aa ltac:(lia)) as St; rewrite answers_to_cons.
    destruct (on_datagram _ _ _ _ r) as [o r']; destruct St as [Td' St]; cbn [fst snd].
    destruct (St t x Sc ltac:(lia)) as (t' & Lt' & Sc' & Le).
    specialize (IH (d_time d) r' Td' Ln N0 Aa All t' (d_time d) T Sc' ltac:(lia) ltac:(lia) B2).
    specialize (Le _ T ltac:(lia) IH); unfold RL_SCALE in *; destruct o; [destruct (d_from d =? a)|]; lia.
Qed.
Lemma src_kept an L evs t0 r x T : tidy L t0 (g_src r) → (length L ≤ DISCOVERY_SRC_SLOTS)%nat → (0 ∉ L) → Forall (λ d, d_from d ∈ L) evs →
  t0 ≤ x → between x evs T → tidy L T (g_src (serve an evs r).2).
Proof.
  intros Td Ln N0; revert t0 r x Td; induction evs as [|d evs IH]; intros t0 r x Td All Lx B; [simpl in *; apply (tidy_later L t0); [done|lia]|].
  destruct B as [B1 B2]; apply Forall_cons in All as [Df All]; pose proof (between_le _ _ _ B2).
  pose proof (src_step an L d (d_from d) t0 r Td Ln N0 Df Df ltac:(lia)) as St; cbn [serve].
  destruct (on_datagram _ _ _ _ r) as [o r']; destruct St as [Td' _]; specialize (IH (d_time d) r' (d_time d) Td' All ltac:(lia) B2).
  destruct (serve an evs r') as [out r'']; exact IH.
Qed.
Lemma tidy_start L t0 now : tidy L t0 (g_src (start now)).
Proof.
  assert (∀ i s, g_src (start now) !! i = Some s → ip s = 0) as V.
  { intros i s E; apply list_elem_of_lookup_2, list_elem_of_In, repeat_spec in E; by rewrite E. }
  constructor; [done|by intros i s E%V|by intros i s i' s' E%V].
Qed.
(** C34: in any period, wherever it begins in the responder's life and whatever
    datagrams come, it sends at most 24 answers and 8 more for every second (50
    ticks) of the period; and as long as no more than 16 sources have asked, at most
    4 and one more for every second go to any one of them.  The wrap of the tick
    counter does not matter. *)
Theorem answers_bounded an t0 pre evs x T : between t0 pre x → between x evs T →
  let r := (serve an pre (start (u32 t0))).2 in
  DISCOVERY_TICKS_PER_SEC * Z.of_nat (answers an evs r) ≤
    DISCOVERY_TICKS_PER_SEC * DISCOVERY_GLOBAL_BURST + DISCOVERY_GLOBAL_RATE * (T - x) ∧
  ∀ L a, (length L ≤ DISCOVERY_SRC_SLOTS)%nat → (0 ∉ L) → Forall (λ d, d_from d ∈ L) (pre ++ evs) → a ∈ L →
    DISCOVERY_TICKS_PER_SEC * Z.of_nat (answers_to a an evs r) ≤
      DISCOVERY_TICKS_PER_SEC * DISCOVERY_SRC_BURST + DISCOVERY_SRC_RATE * (T - x).
Proof.
  intros B1 B2 r; split.
  - destruct (global_kept an pre t0 (start (u32 t0)) t0 x) as (t & Lt & F); [by apply filled_init|lia|done|]; fold r in F.
    pose proof (global_bound an evs t r x T F ltac:(lia) B2) as G.
    unfold room, RL_SCALE, DISCOVERY_TICKS_PER_SEC, DISCOVERY_GLOBAL_BURST, DISCOVERY_GLOBAL_RATE in *; lia.
  - intros L a Ln N0 [A1 A2]%Forall_app Aa.
    pose proof (src_kept an L pre t0 (start (u32 t0)) t0 x (tidy_start L t0 _) Ln N0 A1 ltac:(lia) B1) as Td; fold r in Td.
    destruct (since_of L a x (g_src r) Td) as (t & Sc & Lt).
    pose proof (src_bound an L evs a x r Td Ln N0 Aa A2 t x T Sc Lt ltac:(lia) B2) as G; unfold allowance, room in G.
    unfold RL_SCALE, DISCOVERY_TICKS_PER_SEC, DISCOVERY_SRC_BURST, DISCOVERY_SRC_RATE in *; destruct (bucket a (g_src r)); lia.
Qed.

(* ------------------------------------------------------------------ *)
(** ** The answer *)

Lemma sanitize_length t : length (sanitize t) = length t.
Proof. apply length_map. Qed.
Lemma dq_length s : length (dq s) = length (txt s).
Proof. apply length_map. Qed.
Lemma show_int_nonempty z : (1 ≤ length (show_int z))%nat.
Proof. pose proof (int_of_show_int z); destruct (show_int z); [done|simpl; lia]. Qed.
(** what is answered costs its sender at least 64 bytes, and the answer is
    shorter than 512; but it has 106 bytes at least, whatever it says, so that the
    shortest probes are answered with more than they cost. *)
Theorem answer_size an got from now r resp : (on_datagram an got from now r).1 = Some resp →
  (DISCOVERY_MIN_PROBE ≤ length got)%nat ∧ (106 ≤ length resp < 8 * DISCOVERY_MIN_PROBE)%nat.
Proof.
  unfold on_datagram; destruct (_ =? 0)%nat; [done|]; destruct (is_probe _ _) eqn:P; cbn [negb]; [|done].
  destruct (rl_allow from now r) as [[|] r1]; cbn [negb fst]; [|done].
  destruct (_ <? 512)%nat eqn:Q; [|done]; intros [= <-]; unfold is_probe in P.
  apply andb_prop in P as [[P _]%andb_prop _]; apply Nat.leb_le in P; apply Nat.ltb_lt in Q; rewrite length_take in P.
  split; [lia|]; split; [|eapply Nat.lt_le_trans; [exact Q|unfold DISCOVERY_MIN_PROBE; lia]].
  pose proof (show_int_nonempty (g_tcp_port an)); pose proof (show_int_nonempty (g_methods_advertised an)).
  unfold respond; rewrite !length_app, !dq_length.
  repeat match goal with |- context [length (txt ?s)] => let n := eval vm_compute in (length (txt s)) in change (length (txt s)) with n end; lia.
Qed.

(** What the daemon means to announce. *)
Definition announcement (an : announced) (tag : text) : members :=
  [("mcp_discovery", SInt 1); ("v", SInt 1); ("server", SStr (txt "mcpd/2.2")); ("protocol", SStr (txt "1.0"));
   ("tcp_port", SInt (g_tcp_port an)); ("host", SStr (host_name an)); ("methods", SInt (g_methods_advertised an));
   ("tag", SStr tag)]%string.
Definition told (an : announced) (tag : text) : list (string * json) := flat_json (announcement an tag).
Definition plain (c : ascii) : bool := unescaped c.
Lemma respond_text an tag : respond (g_tcp_port an) (g_methods_advertised an) (host_name an) tag = flat_text (announcement an tag).
Proof. unfold flat_text, announcement, respond, member_text, scalar_text; cbn [map join fst snd]; rewrite <- !app_assoc; reflexivity. Qed.
Definition hex_digit (c : ascii) : bool := in_range c 48 57 || in_range c 97 102.
Lemma partition_quote l rest : forallb hex_digit l = true → partition "034" (l ++ "034"%char :: rest) = Some (l, rest).
Proof.
  induction l as [|c l IH]; cbn [forallb app partition]; [by rewrite decide_True|]; intros [C L]%andb_prop.
  rewrite decide_False by (intros ->; done); by rewrite IH.
Qed.
Lemma sanitize_plain l : forallb plain l = true → sanitize l = l.
Proof.
  unfold sanitize; induction l as [|c l IH]; cbn [forallb map]; [done|]; intros [C L]%andb_prop; rewrite (IH L); f_equal.
  unfold plain in C; apply andb_prop in C as [[C1 C2]%andb_prop _].
  destruct (Z.ltb_spec (ord c) 32), (Z.leb_spec 127 (ord c)); cbn [orb]; try done; lia.
Qed.
Lemma hex_plain l : forallb hex_digit l = true → forallb plain l = true.
Proof.
  induction l as [|c l IH]; cbn [forallb]; [done|]; intros [C L]%andb_prop; rewrite (IH L), andb_true_r; clear -C.
  by destruct c as [[] [] [] [] [] [] [] []].
Qed.
Lemma probe_c_string tag : forallb hex_digit tag = true → c_string (make_probe tag) = make_probe tag.
Proof.
  intros H; unfold c_string; assert (∀ l, forallb (λ x, negb (bool_decide (x = "000"%char))) l = true → partition "000" l = None) as N.
  { intros l; induction l as [|x l IH]; cbn [forallb partition]; [done|]; intros [X L]%andb_prop.
    rewrite decide_False by (intros ->; done); by rewrite (IH L). }
  rewrite N; [done|]; unfold make_probe; rewrite !forallb_app; apply andb_true_intro; split; [done|]; apply andb_true_intro; split; [|done].
  apply forallb_forall; intros x X; rewrite forallb_forall in H; specialize (H x X); by destruct (bool_decide_reflect (x = "000"%char)) as [->|].
Qed.
Lemma probe_tag tag : forallb hex_digit tag = true → (length tag < 64)%nat → extract_str_field (make_probe tag) "tag" 64 = Some tag.
Proof.
  intros H L; unfold extract_str_field.
  assert (after (["034"%char] ++ txt "tag" ++ ["034"%char]) (make_probe tag) = Some (":"%char :: "034"%char :: tag ++ dq "'}")) as -> by reflexivity.
  cbn [dropwhile]; change (blank_or_colon ":") with true; change (blank_or_colon "034") with false; cbv iota.
  change (dq "'}") with ("034"%char :: ["}"%char]); rewrite decide_True, partition_quote by done.
  destruct (Nat.leb_spec 64 (length tag)); [lia|done].
Qed.
Lemma own_probe_is_probe tag : length tag = 16%nat → is_probe (make_probe tag) (make_probe tag) = true.
Proof.
  intros L; unfold is_probe; apply andb_true_intro; split; [apply andb_true_intro; split|reflexivity]; [|reflexivity].
  apply Nat.leb_le; unfold make_probe, DISCOVERY_MIN_PROBE; rewrite !length_app, !dq_length, L; cbn; lia.
Qed.
Lemma allow_dropped from now r : g_dropped (rl_allow from now r).2 = g_dropped r.
Proof. unfold rl_allow; destruct (rl_src_for _ _ _); by destruct (_ || _). Qed.
Lemma show_aux_length base fuel z acc : (length (show_aux base fuel z acc) ≤ length acc + fuel + 1)%nat.
Proof. revert z acc; induction fuel as [|fuel IH]; intros z acc; cbn [show_aux]; destruct (_ <? _); try (cbn [length]; lia); etrans; [apply IH|cbn [length]; lia]. Qed.
Lemma show_int_length z n : 0 ≤ z < 2 ^ Z.of_nat n → (0 < n)%nat → (length (show_int z) ≤ n)%nat.
Proof.
  intros [P L] N; unfold show_int, show_base; destruct (Z.ltb_spec z 0); [lia|]; etrans; [apply show_aux_length|]; cbn [length].
  destruct (decide (z = 0)) as [->|]; [simpl; lia|]; apply Z.log2_lt_pow2 in L; [pose proof (Z.log2_nonneg z); lia|lia].
Qed.
Lemma answer_fits an tag : forallb plain (host_name an) = true → (length (host_name an) ≤ 63)%nat → length tag = 16%nat →
  0 ≤ g_tcp_port an < 2 ^ 16 → 0 ≤ g_methods_advertised an < 2 ^ 31 →
  (length (respond (g_tcp_port an) (g_methods_advertised an) (host_name an) tag) <? 512)%nat = true.
Proof.
  intros _ Lh Lt P M; apply Nat.ltb_lt; pose proof (show_int_length _ 16 P ltac:(lia)); pose proof (show_int_length _ 31 M ltac:(lia)).
  unfold respond; rewrite !length_app, !dq_length.
  repeat match goal with |- context [length (txt ?s)] => let n := eval vm_compute in (length (txt s)) in change (length (txt s)) with n end; lia.
Qed.

Section host.
Context {E : Type} `{Udp E} (loads : bytes → option json).

Lemma told_row an tag sent_at t peer e : 0 < g_tcp_port an → row_for (E := E) [] sent_at t (told an tag) peer e =
  (Ret ((peer.1, g_tcp_port an),
        Found peer.1 (g_tcp_port an) (JStr "mcpd/2.2") (JStr "1.0") (JStr (str (host_name an))) (g_methods_advertised an)
          (t - sent_at) (peer.1 +:+ ":" +:+ str (show_int (g_tcp_port an))) None), e).
Proof.
  intros P; assert (int_or "tcp_port" 4322 (told an tag) = Ret (g_tcp_port an)) as P1.
  { change (int_or "tcp_port" 4322 (told an tag)) with (if json_truth (JNum (g_tcp_port an)) then py_int (JNum (g_tcp_port an)) else Ret 4322).
    cbn [json_truth]; destruct (Z.eqb_spec (g_tcp_port an) 0); [lia|done]. }
  assert (int_or "methods" 0 (told an tag) = Ret (g_methods_advertised an)) as P2.
  { change (int_or "methods" 0 (told an tag)) with (if json_truth (JNum (g_methods_advertised an)) then py_int (JNum (g_methods_advertised an)) else Ret 0).
    cbn [json_truth]; destruct (Z.eqb_spec (g_methods_advertised an) 0) as [->|]; done. }
  unfold row_for; rewrite P1, P2; reflexivity.
Qed.
(** C35: the daemon takes the host's own probe for one, and, when its budgets allow,
    answers with a text that any reader of JSON (one that reads a flat object's
    text as that object) gives the host as an announcement it takes for the answer
    to that probe, and lists as it was meant: the port the daemon listens on, its
    host name, the number of its methods - at the address the answer came from.
    The host's name has at most 63 characters, none that JSON escapes, and the port
    is not 0. *)
Theorem host_probe_answered an tag from now r : length tag = 16%nat → forallb hex_digit tag = true →
  forallb plain (host_name an) = true → (length (host_name an) ≤ 63)%nat → 0 < g_tcp_port an < 2 ^ 16 → 0 ≤ g_methods_advertised an < 2 ^ 31 →
  reads_flat loads →
  let '(o, r') := on_datagram an (make_probe tag) from now r in
  if (rl_allow from now r).1
  then ∃ resp obj, o = Some resp ∧ parse_response loads resp (str tag) = Some obj ∧
    ∀ sent_at t peer e, row_for (E := E) [] sent_at t obj peer e =
      (Ret ((peer.1, g_tcp_port an),
            Found peer.1 (g_tcp_port an) (JStr "mcpd/2.2") (JStr "1.0") (JStr (str (host_name an))) (g_methods_advertised an)
              (t - sent_at) (peer.1 +:+ ":" +:+ str (show_int (g_tcp_port an))) None), e)
  else o = None ∧ g_dropped r' = u32 (g_dropped r + 1).
Proof.
  intros Lt Ht Hh Lh P M Loads; unfold on_datagram.
  assert (loads (respond (g_tcp_port an) (g_methods_advertised an) (host_name an) tag) = Some (JObj (told an tag))) as Told.
  { rewrite respond_text; apply Loads; [done|vm_compute; repeat constructor; set_solver|].
    unfold announcement; cbn [forallb]; unfold flat_member; cbn [fst snd].
    rewrite (Hh : forallb unescaped _ = true), (hex_plain tag Ht : forallb unescaped _ = true); reflexivity. }
  assert (take (DISCOVERY_BUF - 1) (make_probe tag) = make_probe tag) as ->
    by (apply take_ge; unfold make_probe; rewrite !length_app, !dq_length, Lt; cbn; lia).
  rewrite (probe_c_string tag Ht), (own_probe_is_probe tag Lt), (probe_tag tag Ht) by lia; cbn [negb default length].
  destruct (length (make_probe tag) =? 0)%nat eqn:Z; [apply Nat.eqb_eq in Z; done|].
  pose proof (allow_dropped from now r) as D; destruct (rl_allow from now r) as [[|] r1]; cbn [negb fst snd id] in *.
  - change (id tag) with tag; rewrite (sanitize_plain tag (hex_plain tag Ht)), (sanitize_plain _ Hh), answer_fits by (done || lia).
    eexists _, (told an tag); split; [done|]; split; [|intros sent_at t peer e; apply told_row; lia].
    unfold parse_response; rewrite Told.
    assert (assoc "tag" (told an tag) = Some (JStr (str tag))) as -> by reflexivity; by rewrite bool_decide_true.
  - split; [done|]; unfold rl_note_drop; rewrite <- D; by destruct (negb _); [|destruct (_ <? _)].
Qed.
End host.

(* ------------------------------------------------------------------ *)
(** ** A daemon on the network *)

Definition x5000 : announced := Announced 4322 93 (txt "x5000").
Definition tag0 : text := txt "0123456789abcdef".
Definition probe_at (from t : Z) : datagram := Datagram t from (make_probe tag0).
(** One host asks ten times in a second, and gets four answers and the one that
    came in meanwhile; the probe costs 77 bytes. *)
Definition asks : list datagram := map (λ i, probe_at 7 (5 * Z.of_nat i)) (seq 0 11).
Example asked : (answers x5000 asks (start (u32 0)), length (make_probe tag0)) = (5%nat, 77%nat).
Proof. vm_compute. reflexivity. Qed.
Lemma answers_bounded_witness : between 0 asks 50 ∧ 50 * Z.of_nat (answers x5000 asks (start (u32 0))) ≤ 50 * 24 + 8 * 50 ∧
  50 * Z.of_nat (answers_to 7 x5000 asks (start (u32 0))) ≤ 50 * 4 + 1 * 50.
Proof.
  assert (between 0 asks 50) as B by (vm_compute; repeat split; discriminate); split; [exact B|].
  destruct (answers_bounded x5000 0 [] asks 0 50 ltac:(simpl; lia) B) as [G S]; split; [exact G|].
  apply (S [7] 7); [unfold DISCOVERY_SRC_SLOTS; simpl; lia|intros X%list_elem_of_singleton; discriminate X| |by left].
  unfold asks; simpl; repeat (constructor; [by left|]); constructor.
Defined.
(** The smallest probe there is, and what it gets. *)
Definition smallest : text := dq "{'mcp_discovery':1,'v':1,'xxxxxxxxxxxxxxxxxxxxxxxxxxxxxxxxxxxx':1}".
Lemma answer_size_witness : ∃ resp, (on_datagram x5000 (take 64 smallest) 7 0 (start 0)).1 = Some resp ∧ (length (take 64 smallest) < 106 ≤ length resp)%nat.
Proof.
  eexists; split; [vm_compute; reflexivity|].
  match goal with |- (_ < _ ≤ length ?r)%nat => destruct (answer_size x5000 (take 64 smallest) 7 0 (start 0) r) as [_ [L _]]; [vm_compute; reflexivity|] end.
  split; [vm_compute; lia|exact L].
Defined.
Lemma host_probe_answered_witness : ∃ resp obj, (on_datagram x5000 (make_probe tag0) 7 0 (start 0)).1 = Some resp ∧
  parse_response read_flat resp (str tag0) = Some obj ∧ assoc "tcp_port" obj = Some (JNum 4322).
Proof.
  pose proof (host_probe_answered (E := lan) read_flat x5000 tag0 7 0 (start 0) eq_refl eq_refl eq_refl ltac:(cbn; lia)
    ltac:(cbn; lia) ltac:(cbn; lia) read_flat_reads) as W.
  destruct (on_datagram x5000 (make_probe tag0) 7 0 (start 0)) as [o r'] eqn:D; simpl in W.
  change (rl_allow 7 0 (start 0)).1 with true in W; destruct W as (resp & obj & E & P & _); exists resp, obj; split; [exact E|]; split; [exact P|].
  apply (f_equal fst) in D; cbn [fst] in D; rewrite E in D; revert D P; vm_compute; intros [= <-]; vm_compute; by intros [= <-].
Defined.
