(* ===== verification/Kicklayout.v ===== *)
(** * Editing a Kicklayout: [installer/kicklayout.py]

    The text engine behind the installer's Kicklayout patches: modules are
    injected into configuration blocks, never removed, and running the same
    patch again changes nothing in a file whose lines all end. *)
From S2P Require Import Prelude Py Lines.

(** ** [str.replace] and [str.count] *)

(** Non-overlapping occurrences from the left; [skip] counts the characters of
    an occurrence that are already dealt with. *)
Fixpoint replace_from (old new t : text) (skip : nat) : text :=
  match t with
  | [] => []
  | c :: t' =>
      match skip with
      | S k => replace_from old new t' k
      | O => if startswith old t then new ++ replace_from old new t' (length old - 1)
             else c :: replace_from old new t' 0
      end
  end.
Definition py_replace (old new t : text) : text :=
  match old with
  | [] => new ++ mjoin (map (λ c, c :: new) t)
  | _ => replace_from old new t 0
  end.
Fixpoint count_from (sub t : text) (skip : nat) : Z :=
  match t with
  | [] => 0
  | _ :: t' =>
      match skip with
      | S k => count_from sub t' k
      | O => if startswith sub t then 1 + count_from sub t' (length sub - 1) else count_from sub t' 0
      end
  end.
Definition py_count (sub t : text) : Z :=
  match sub with [] => Z.of_nat (length t) + 1 | _ => count_from sub t 0 end.

(** ** Blocks *)

Definition t_nl : text := [lf].
(** [_block_is_config]: what one line contributes. *)
Definition config_line (ln : text) : bool :=
  let s := lstrip ln in
  if startswith (txt ";") s || bool_decide (s = []) then false
  else let up := map upper s in startswith (txt "LABEL") up || startswith (txt "EXEC") up.
Definition block_is_config (block : list text) : bool := existsb config_line block.

(** [\b] between the characters before and after a position. *)
Definition word_at (c : option ascii) : bool := match c with Some c => is_word c | None => false end.
Definition boundary (before after : option ascii) : bool := xorb (word_at before) (word_at after).
(** [.*<tail>\b] from the position after [before]. *)
Fixpoint tail_matches (tail : text) (before : option ascii) (t : text) : bool :=
  (startswith tail t &&
   boundary (match last tail with Some c => Some c | None => before end) (head (drop (length tail) t))) ||
  match t with
  | [] => false
  | c :: t' => if decide (c = lf) then false else tail_matches tail (Some c) t'
  end.
(** The pattern of [_block_has_module]: [^\s*MODULE\b.*<tail>\b]. *)
Definition kw_module : text := txt "MODULE".
Definition module_line (tail ln : text) : bool :=
  let t := lstrip ln in
  startswith kw_module t &&
  (let rest := drop 6 t in
   boundary (Some "E"%char) (head rest) && tail_matches tail (Some "E"%char) rest).
(** [module_name.split("/")[-1]] *)
Definition tail_of (name : text) : text := default [] (last (split_on "/"%char name)).
Definition block_has_module (block : list text) (name : text) : bool :=
  existsb (module_line (tail_of name)) block.

(** ** [add_modules] *)

Definition injected (label : text) (missing : list text) : list text :=
  (txt ";" ++ t_nl) :: (txt "; " ++ label ++ t_nl) :: map (λ m, txt "MODULE " ++ m ++ t_nl) missing.
Definition flush_block (modules : list text) (label : text) (block : list text) : list text :=
  match block with
  | [] => []
  | _ =>
      block ++
      if block_is_config block then
        match filter (λ m, block_has_module block m = false) modules with
        | [] => []
        | missing => injected label missing
        end
      else []
  end.
(** The loop; [block] are the lines since the last blank one. *)
Fixpoint scan_blocks (modules : list text) (label : text) (block lines : list text) : list text :=
  match lines with
  | [] => flush_block modules label block
  | l :: lines =>
      if bool_decide (strip l = []) then
        flush_block modules label block ++ [l] ++ scan_blocks modules label [] lines
      else scan_blocks modules label (block ++ [l]) lines
  end.
Definition add_modules (t : text) (modules : list text) (label : text) : text :=
  match modules with
  | [] => t
  | _ => mjoin (scan_blocks modules label [] (splitlines_keepends t))
  end.
Definition replace_text (t old new : text) : text := py_replace old new t.

(** ** [apply_patches] *)

Record add_patch := AddPatch { ap_modules : list text; ap_label : text }.
Record replace_patch := ReplacePatch { rp_old : text; rp_new : text }.
Record summary := Summary {
  modules_added : Z; labels_applied : list text; replacements_done : Z;
  replacements : list (text * text * Z); changed : bool }.
Definition add_step (acc : text * (Z * list text)) (p : add_patch) : text * (Z * list text) :=
  let '(before, (n, labels)) := acc in
  let new := add_modules before (ap_modules p) (ap_label p) in
  if bool_decide (new = before) then (new, (n, labels))
  else (new, (n + (py_count (t_nl ++ txt "MODULE ") new - py_count (t_nl ++ txt "MODULE ") before),
              labels ++ [ap_label p])).
Definition replace_step (acc : text * (Z * list (text * text * Z))) (p : replace_patch) :=
  let '(before, (n, rs)) := acc in
  let new := replace_text before (rp_old p) (rp_new p) in
  if bool_decide (new = before) then (new, (n, rs))
  else let k := py_count (rp_old p) before in (new, (n + k, rs ++ [(rp_old p, rp_new p, k)])).
Definition apply_patches (t : text) (adds : list add_patch) (reps : list replace_patch) : text * summary :=
  let '(t1, (added, labels)) := fold_left add_step adds (t, (0, [])) in
  let '(t2, (done, rs)) := fold_left replace_step reps (t1, (0, [])) in
  (t2, Summary added labels done rs (negb (bool_decide (t2 = t)))).

Example add_one : add_modules (txt "LABEL x" ++ t_nl ++ txt "MODULE a/b.c" ++ t_nl ++ t_nl ++ txt "; c" ++ t_nl)
    [txt "Kick/b.c"; txt "k/d"] (txt "U1") =
  txt "LABEL x" ++ t_nl ++ txt "MODULE a/b.c" ++ t_nl ++ txt ";" ++ t_nl ++ txt "; U1" ++ t_nl ++ txt "MODULE k/d" ++ t_nl ++ t_nl ++ txt "; c" ++ t_nl.
Proof. reflexivity. Qed.

(* ------------------------------------------------------------------ *)
(** ** Lines and their endings *)

(** A line that ends where [splitlines] ends it, given the character after. *)
Definition ending (e : text) (next : option ascii) : Prop :=
  e = [cr; lf] ∨ ∃ c, e = [c] ∧ is_break c = true ∧ ¬ (c = cr ∧ next = Some lf).
Definition line_ok (l : text) (next : option ascii) : Prop :=
  ∃ b e, l = b ++ e ∧ Forall (λ c, is_break c = false) b ∧ ending e next.
Definition head_of (h : option ascii) (ls : list text) : option ascii :=
  match ls with [] => h | l :: _ => head l end.
Fixpoint lined (h : option ascii) (ls : list text) : Prop :=
  match ls with [] => True | l :: ls => line_ok l (head_of h ls) ∧ lined h ls end.

Lemma line_ok_mono l h h' : line_ok l h → h' ≠ Some lf → line_ok l h'.
Proof.
  intros (b & e & -> & Hb & He) Hh. exists b, e. split_and!; [done..|].
  destruct He as [->|(c & -> & Hc & _)]; [by left|right]. exists c. split_and!; [done..|]. by intros [_ ?].
Qed.
Lemma lined_mono h h' ls : lined h ls → h' ≠ Some lf → lined h' ls.
Proof.
  intros Hl Hh. induction ls as [|l ls IH]; simpl in *; [done|]. destruct Hl as [Hok Hl].
  split; [|by apply IH]. destruct ls; [by eapply line_ok_mono|done].
Qed.
Lemma lined_app h a b : lined h (a ++ b) ↔ lined (head_of h b) a ∧ lined h b.
Proof.
  induction a as [|l a IH]; simpl; [tauto|]. rewrite IH.
  assert (head_of h (a ++ b) = head_of (head_of h b) a) as -> by by destruct a. tauto.
Qed.
Lemma lined_to_lf h ls : Forall (λ l, ∃ b, l = b ++ [lf] ∧ Forall (λ c, is_break c = false) b) ls → lined h ls.
Proof.
  induction 1 as [|l ls (b & -> & Hb) _ IH]; [done|]. split; [|done].
  exists b, [lf]. split_and!; [done..|]. right. exists lf. split_and!; [done..|]. by intros [? _].
Qed.
(** Splitting lined text finds the lines again. *)
Lemma lines_of_ending e cur t : ending e (head t) → lines_of (e ++ t) cur = (reverse cur, e) :: lines_of t [].
Proof.
  intros [->|(c & -> & Hc & Hn)].
  - reflexivity.
  - change ([c] ++ t) with (c :: t). rewrite lines_of_cons, Hc. destruct t as [|d t]; [done|].
    rewrite decide_False; [done|]. intros [-> ->]. by apply Hn.
Qed.
Lemma keepends_lined ls : lined None ls → splitlines_keepends (mjoin ls) = ls.
Proof.
  unfold splitlines_keepends. induction ls as [|l ls IH]; intros Hl; [done|].
  destruct Hl as [(b & e & -> & Hb & He) Hl]. rewrite mjoin_cons, <-(assoc_L (++)), lines_of_body by done.
  assert (head (mjoin ls) = head_of None ls) as Hh.
  { destruct ls as [|l' ls]; [done|]. destruct Hl as [(b' & e' & -> & _ & He') _]. rewrite mjoin_cons. simpl.
    destruct b'; [|done]. by destruct He' as [->|(c & -> & _)]. }
  rewrite lines_of_ending by by rewrite Hh. simpl. rewrite app_nil_r, reverse_involutive. f_equal. by apply IH.
Qed.
(** Text whose last line is ended. *)
Definition ended (t : text) : Prop := match last t with Some c => is_break c = true | None => True end.
Definition whole : text * text → text := λ '(l, e), l ++ e.
(** One step of [lines_of]. *)
Lemma lines_of_break c t cur : is_break c = true → ∃ e t',
  c :: t = e ++ t' ∧ ending e (head t') ∧ (length t' ≤ length t)%nat ∧
  lines_of (c :: t) cur = (reverse cur, e) :: lines_of t' [].
Proof.
  intros Hc. assert (∀ t', ending [c] (head t') ∨ (c = cr ∧ head t' = Some lf)) as Hcase.
  { intros t'. destruct (decide (c = cr ∧ head t' = Some lf)); [by right|left; right; eauto]. }
  destruct (Hcase t) as [He|[-> Hh]].
  - exists [c], t. split_and!; [done..|]. by apply (lines_of_ending [c]).
  - destruct t as [|d t]; [done|]. injection Hh as ->. exists [cr; lf], t.
    split_and!; [done|by left|simpl; lia|done].
Qed.
Lemma lines_of_head t cur :
  head_of None (map whole (lines_of t cur)) = head (reverse cur ++ t).
Proof.
  revert cur. induction t as [|c t IH]; intros cur.
  { rewrite app_nil_r. destruct cur as [|c cur]; [done|]. cbn [lines_of]. simpl. by rewrite app_nil_r. }
  destruct (is_break c) eqn:Hc.
  - destruct (lines_of_break c t cur Hc) as (e & t' & Heq & He & _ & Hl). rewrite Hl, Heq. simpl.
    destruct (reverse cur); [|done]. destruct He as [->|(? & -> & _)]; done.
  - rewrite lines_of_cons, Hc, IH, reverse_cons, <-(assoc_L (++)). done.
Qed.
Lemma ended_tail c t : t ≠ [] → ended (c :: t) → ended t.
Proof. intros Ht. unfold ended. by destruct t. Qed.
Lemma ended_app a t : t ≠ [] → ended (a ++ t) → ended t.
Proof. intros Ht. unfold ended. rewrite last_app. by destruct (last t) eqn:?; [|apply last_None in Heqo]. Qed.
Lemma lined_lines_of n : ∀ t cur, (length t ≤ n)%nat → Forall (λ c, is_break c = false) cur →
  ended t → (t = [] → cur = []) → lined None (map whole (lines_of t cur)).
Proof.
  induction n as [|n IH]; intros [|c t] cur Hn Hcur Ht Hnil; simpl in Hn; try lia.
  1, 2: by rewrite Hnil.
  destruct (is_break c) eqn:Hc.
  - destruct (lines_of_break c t cur Hc) as (e & t' & Heq & He & Hlen & Hl). rewrite Hl. split.
    + exists (reverse cur), e. split_and!; [done|by apply Forall_reverse|].
      by rewrite (lines_of_head t' []).
    + apply IH; [lia|done| |done]. destruct t' as [|d t']; [done|].
      rewrite Heq in Ht. by eapply ended_app.
  - rewrite lines_of_cons, Hc. destruct t as [|d t].
    { unfold ended in Ht. simpl in Ht. by rewrite Hc in Ht. }
    apply IH; [simpl in *; lia|by constructor|by eapply ended_tail|done].
Qed.
Lemma lined_keepends t : ended t → lined None (splitlines_keepends t).
Proof. intros Ht. by apply (lined_lines_of (length t)). Qed.

(* ------------------------------------------------------------------ *)
(** ** Patching twice *)

Lemma split_on_suffix c t : ∃ p, t = p ++ default [] (last (split_on c t)).
Proof.
  induction t as [|d t [p IH]]; simpl; [by exists []|].
  pose proof (split_on_nonempty c t) as Hne. pose proof (split_on_single c t) as Hone.
  destruct (split_on c t) as [|x [|y ys]] eqn:Hs; [done| |].
  - case_decide; [exists (d :: p); by rewrite IH at 1|]. exists []. simpl. by rewrite (Hone x).
  - exists (d :: p). by case_decide; rewrite IH at 1.
Qed.
Lemma startswith_app p t : startswith p (p ++ t) = true.
Proof. induction p as [|c p IH]; [done|]. simpl. by rewrite bool_decide_eq_true_2. Qed.
Lemma startswith_prefix p t : startswith p t = true ↔ ∃ k, t = p ++ k.
Proof.
  split; [|intros [k ->]; apply startswith_app]. revert t. induction p as [|c p IH]; intros t Ht; [by exists t|].
  destruct t as [|d t]; [done|]. cbn [startswith] in Ht. apply andb_true_iff in Ht as [->%bool_decide_eq_true Ht].
  destruct (IH _ Ht) as [k ->]. by exists k.
Qed.
Lemma contains_app_r p a b : contains p b = true → contains p (a ++ b) = true.
Proof. intros Hb. induction a as [|c a IH]; simpl; [done|]. by rewrite IH, orb_true_r. Qed.
Lemma contains_app_l p a b : contains p a = true → contains p (a ++ b) = true.
Proof.
  induction a as [|c a IH]; cbn [contains app].
  - destruct p; [by destruct b|done].
  - intros [[k Hk]%startswith_prefix|?]%orb_true_iff; [|by rewrite IH, orb_true_r by done].
    assert (startswith p (c :: a ++ b) = true) as ->; [|done]. apply startswith_prefix. exists (k ++ b).
    by rewrite (assoc_L (++)), <-Hk.
Qed.
Lemma contains_infix p t : contains p t = true ↔ ∃ a b, t = a ++ p ++ b.
Proof.
  split.
  - induction t as [|c t IH]; cbn [contains]; intros [[k Hk]%startswith_prefix|Ht]%orb_true_iff; try done;
      [by exists [], k..|]. destruct (IH Ht) as (a & b & ->). by exists (c :: a), b.
  - intros (a & b & ->). apply contains_app_r, contains_app_l. destruct p as [|c p]; [done|]. cbn [contains].
    pose proof (startswith_app (c :: p) []) as Hs. rewrite app_nil_r in Hs. by rewrite Hs.
Qed.
(** A text with an occurrence has the replacement afterwards. *)
Lemma replaced_contains old new t : old ≠ [] → contains old t = true → contains new (replace_from old new t 0) = true.
Proof.
  intros Ho. induction t as [|c t IH]; cbn [contains replace_from]; [by destruct old|].
  destruct (startswith old (c :: t)); cbn [orb]; intros Ht.
  - apply contains_infix. by exists [], (replace_from old new t (length old - 1)).
  - by apply (contains_app_r _ [c]), IH.
Qed.
Lemma tail_found tail before p t :
  Forall (λ c, c ≠ lf) p → tail ≠ [] →
  boundary (last tail) (head t) = true → tail_matches tail before (p ++ tail ++ t) = true.
Proof.
  intros Hp Ht Hb. revert before. induction Hp as [|c p Hc _ IH]; intros before.
  - assert (∀ u, startswith tail u &&
      boundary (match last tail with Some c => Some c | None => before end) (head (drop (length tail) u)) = true →
      tail_matches tail before u = true) as Hu
      by (intros [|c u] Hu; cbn [tail_matches]; apply orb_true_iff; by left).
    apply Hu. simpl. rewrite startswith_app, drop_app_length. simpl.
    destruct (last tail) eqn:Hl; [done|]. by apply last_None in Hl.
  - change ((c :: p) ++ tail ++ t) with (c :: (p ++ tail ++ t)). cbn [tail_matches].
    rewrite decide_False by done. rewrite IH. apply orb_true_r.
Qed.
(** A module name that ends in a word character and stays on one line. *)
Definition plain (t : text) : Prop := Forall (λ c, is_break c = false) t.
Definition plain_module (m : text) : Prop :=
  plain m ∧ ∃ c, last (tail_of m) = Some c ∧ is_word c = true.
Lemma plain_no_lf t : plain t → Forall (λ c, c ≠ lf) t.
Proof. intros H. eapply Forall_impl; [exact H|]. intros c Hc ->. done. Qed.
Lemma injected_has m : plain_module m → module_line (tail_of m) (txt "MODULE " ++ m ++ t_nl) = true.
Proof.
  intros (Hm & c & Hl & Hc). destruct (split_on_suffix "/"%char m) as [p Hp]. fold (tail_of m) in Hp.
  assert (tail_matches (tail_of m) (Some "E"%char) ((" "%char :: p) ++ tail_of m ++ t_nl) = true) as Htail.
  { apply tail_found.
    - constructor; [done|]. apply plain_no_lf. rewrite Hp in Hm. by apply Forall_app in Hm as [? _].
    - intros Hn. by rewrite Hn in Hl.
    - rewrite Hl. unfold boundary, word_at. rewrite Hc. reflexivity. }
  assert (m ++ t_nl = p ++ tail_of m ++ t_nl) as Hm' by by rewrite (assoc_L (++)), <-Hp.
  change ((" "%char :: p) ++ tail_of m ++ t_nl) with (" "%char :: (p ++ tail_of m ++ t_nl)) in Htail.
  rewrite <-Hm' in Htail.
  exact Htail.
Qed.

Section patch.
Context (modules : list text) (label : text).
Context (Hmods : Forall plain_module modules) (Hlabel : plain label).
Abbreviation flush := (flush_block modules label).
Abbreviation scan := (scan_blocks modules label).

Definition blank (l : text) : Prop := strip l = [].
Lemma injected_lines ms : Forall plain_module ms →
  Forall (λ l, ∃ b, l = b ++ [lf] ∧ plain b) (injected label ms).
Proof.
  intros Hms. assert (plain (txt "; ") ∧ plain (txt "MODULE ") ∧ plain (txt ";")) as (H1 & H2 & H3)
    by (split_and!; apply (bool_decide_unpack _); vm_compute; exact I).
  unfold injected. constructor; [by exists (txt ";")|]. constructor.
  - exists (txt "; " ++ label). rewrite <-(assoc_L (++)). split; [done|]. by apply Forall_app.
  - apply Forall_map. eapply Forall_impl; [exact Hms|]. intros m [Hm _]. simpl.
    exists (txt "MODULE " ++ m). split; [by rewrite <-(assoc_L (++))|]. by apply Forall_app.
Qed.
Lemma strip_cons c t : is_space c = false → strip (c :: t) ≠ [].
Proof.
  intros Hc. unfold strip, lstrip, rstrip, rstrip_of. simpl. rewrite Hc.
  rewrite reverse_cons. intros Hr. apply (f_equal reverse) in Hr. rewrite reverse_involutive in Hr.
  assert (∀ u : text, dropwhile is_space (u ++ [c]) ≠ []) as Hd.
  { induction u as [|d u IH]; simpl; [by rewrite Hc|]. by destruct (is_space d). }
  by apply Hd in Hr.
Qed.
Lemma injected_nonblank ms : Forall (λ l, ¬ blank l) (injected label ms).
Proof.
  unfold injected, blank. constructor; [by apply strip_cons|]. constructor; [by apply strip_cons|].
  apply Forall_map, Forall_true. intros m. by apply strip_cons.
Qed.
(** What a block becomes: itself and injected lines, which leave nothing
    missing. *)
Definition extra (block : list text) : list text :=
  if block_is_config block then
    match filter (λ m, block_has_module block m = false) modules with
    | [] => []
    | missing => injected label missing
    end
  else [].
Lemma flush_extra block : flush block = block ++ extra block.
Proof. by destruct block. Qed.
Lemma extra_spec block :
  (extra block = [] ∨ ∃ ms, Forall plain_module ms ∧ extra block = injected label ms) ∧
  extra (block ++ extra block) = [] ∧
  (block_is_config block = true → Forall (λ m, block_has_module (block ++ extra block) m = true) modules).
Proof.
  unfold extra at 1 2 4 5. destruct (block_is_config block) eqn:Hcfg.
  2: { rewrite app_nil_r. unfold extra. rewrite Hcfg. by split_and!; [left|..]. }
  destruct (filter (λ m, block_has_module block m = false) modules) as [|m ms] eqn:Hmiss.
  { rewrite app_nil_r. unfold extra. rewrite Hcfg, Hmiss. split_and!; [auto|done|].
    intros _. apply Forall_forall. intros m Hm. apply not_false_is_true. intros Hf.
    assert (m ∈ filter (λ m, block_has_module block m = false) modules) as Hin by by apply list_elem_of_filter.
    rewrite Hmiss in Hin. by apply elem_of_nil in Hin. }
  assert (Forall plain_module (m :: ms)) as Hms.
  { rewrite <-Hmiss. rewrite Forall_forall in Hmods |- *. intros x [_ Hx]%list_elem_of_filter. by apply Hmods. }
  set (b := block ++ injected label (m :: ms)).
  assert (Forall (λ m', block_has_module b m' = true) modules) as Hall.
  { apply Forall_forall. intros x Hx. unfold block_has_module, b. rewrite existsb_app. apply orb_true_iff.
    destruct (block_has_module block x) eqn:Hb; [by left|right].
    assert (x ∈ m :: ms) as Hin by by rewrite <-Hmiss; apply list_elem_of_filter.
    unfold injected. cbn [existsb]. apply orb_true_iff; right. apply orb_true_iff; right.
    apply existsb_exists. exists (txt "MODULE " ++ x ++ t_nl). split.
    - apply (in_map (λ m, txt "MODULE " ++ m ++ t_nl)). by apply list_elem_of_In.
    - apply injected_has. rewrite Forall_forall in Hmods. by apply Hmods. }
  split_and!; [right; eauto| |done].
  unfold extra. destruct (block_is_config b); [|done].
  assert (filter (λ m', block_has_module b m' = false) modules = []) as ->; [|done].
  clear Hmiss Hmods. induction Hall as [|x l' Hx _ IH]; [done|]. rewrite filter_cons_False; [exact IH|by rewrite Hx].
Qed.
Lemma flush_idem block : flush (flush block) = flush block.
Proof. rewrite !flush_extra. destruct (extra_spec block) as (_ & -> & _). apply app_nil_r. Qed.
Lemma extra_lines block : Forall (λ l, ∃ b, l = b ++ [lf] ∧ plain b) (extra block) ∧ Forall (λ l, ¬ blank l) (extra block).
Proof.
  destruct (extra_spec block) as ([-> |(ms & Hms & ->)] & _); [done|].
  split; [by apply injected_lines|apply injected_nonblank].
Qed.
Lemma extra_head block h : head_of h (extra block) = h ∨ head_of h (extra block) = Some ";"%char.
Proof. destruct (extra_spec block) as ([-> |(ms & _ & ->)] & _); [by left|by right]. Qed.

(** The scan keeps every line, in order, and its output scans to itself. *)
Lemma scan_sublist block ls : block ++ ls `sublist_of` scan block ls.
Proof.
  revert block. induction ls as [|l ls IH]; intros block; simpl.
  { rewrite app_nil_r, flush_extra. by apply sublist_inserts_r. }
  case_bool_decide.
  - rewrite flush_extra, <-(assoc_L (++)). apply sublist_app; [done|].
    apply sublist_inserts_l. apply (sublist_app [l] [l] ls); [done|]. apply (IH []).
  - rewrite <-(IH (block ++ [l])). by rewrite <-(assoc_L (++)).
Qed.
Lemma scan_nonblank block b ls : Forall (λ l, ¬ blank l) b → scan block (b ++ ls) = scan (block ++ b) ls.
Proof.
  intros Hb. revert block. induction Hb as [|l b Hl _ IH]; intros block; [by rewrite app_nil_r|].
  change ((l :: b) ++ ls) with (l :: (b ++ ls)). cbn [scan_blocks]. rewrite bool_decide_eq_false_2 by done.
  by rewrite IH, <-(assoc_L (++)).
Qed.
Lemma scan_idem block ls : Forall (λ l, ¬ blank l) block → scan [] (scan block ls) = scan block ls.
Proof.
  revert block. induction ls as [|l ls IH]; intros block Hb; cbn [scan_blocks].
  - assert (Forall (λ l, ¬ blank l) (flush block)) as Hf
      by (rewrite flush_extra; apply Forall_app; split; [done|apply extra_lines]).
    rewrite <-(app_nil_r (flush block)), scan_nonblank by done. simpl. by rewrite flush_idem, app_nil_r.
  - case_bool_decide as Hl.
    + assert (Forall (λ l, ¬ blank l) (flush block)) as Hf
        by (rewrite flush_extra; apply Forall_app; split; [done|apply extra_lines]).
      rewrite scan_nonblank by done. change ([l] ++ scan [] ls) with (l :: scan [] ls). cbn [scan_blocks app].
      rewrite bool_decide_eq_true_2 by done. by rewrite flush_idem, IH.
    + apply IH. apply Forall_app. split; [done|]. by constructor.
Qed.
Lemma scan_lined block ls : lined None (block ++ ls) →
  lined None (scan block ls) ∧ head_of None (scan block ls) = head_of None (block ++ ls).
Proof.
  assert (∀ b h, lined h b → lined h (flush b) ∧ head_of h (flush b) = head_of h b) as Hflush.
  { intros b h Hb. rewrite flush_extra. destruct (extra_lines b) as [Hx _]. split.
    - apply lined_app. split; [|by apply lined_to_lf].
      destruct (extra_head b h) as [-> | ->]; [done|by eapply lined_mono].
    - destruct b; [|done]. unfold extra. done. }
  revert block. induction ls as [|l ls IH]; intros block Hl; cbn [scan_blocks].
  { rewrite app_nil_r in *. by apply Hflush. }
  case_bool_decide as Hblank.
  - apply lined_app in Hl as [Hb [Hok Hl]]. destruct (IH [] Hl) as [Hs Hh]. simpl in Hh.
    destruct (Hflush block (head l) Hb) as [Hf Hfh]. split.
    + apply lined_app. split; [done|]. split; [|done]. cbn [app] in *. by rewrite Hh.
    + destruct block; [done|]. by rewrite flush_extra.
  - rewrite (cons_middle l block ls) in *. rewrite (assoc_L (++)) in *. by apply IH.
Qed.
End patch.

(** patching modules into a Kicklayout only adds lines - every line of
    the file is still there, in order - and running the patch again changes
    nothing, for files whose last line is ended and modules whose names stay
    on one line and end in a letter, digit or underscore. *)
Theorem add_modules_idempotent t modules label :
  ended t → Forall plain_module modules → plain label →
  splitlines_keepends t `sublist_of` splitlines_keepends (add_modules t modules label) ∧
  add_modules (add_modules t modules label) modules label = add_modules t modules label.
Proof.
  intros Ht Hm Hl. unfold add_modules. destruct modules as [|m ms]; [done|].
  destruct (scan_lined (m :: ms) label Hm Hl [] _ (lined_keepends t Ht)) as [Hs _].
  rewrite (keepends_lined _ Hs). split; [by apply (scan_sublist _ _ [])|].
  by rewrite scan_idem.
Qed.
Definition ex_kicklayout : text :=
  txt "; boot" ++ t_nl ++ t_nl ++ txt "LABEL A" ++ t_nl ++ txt "MODULE Kickstart/loader" ++ t_nl.
Lemma add_modules_idempotent_witness :
  let ms := [txt "Kickstart/mounter.library"; txt "Kickstart/loader"] in
  let t := add_modules ex_kicklayout ms (txt "Update 1") in
  add_modules t ms (txt "Update 1") = t ∧
  t = ex_kicklayout ++ txt ";" ++ t_nl ++ txt "; Update 1" ++ t_nl ++ txt "MODULE Kickstart/mounter.library" ++ t_nl.
Proof.
  intros ms t. split; [|vm_compute; reflexivity].
  apply (add_modules_idempotent ex_kicklayout ms (txt "Update 1")).
  - vm_compute. reflexivity.
  - constructor; [|constructor; [|constructor]];
      (split; [apply (bool_decide_unpack _); vm_compute; exact I|]);
      [exists "y"%char|exists "r"%char]; split; vm_compute; reflexivity.
  - apply (bool_decide_unpack _). vm_compute. exact I.
Defined.
(** A name that ends in no word character is injected on every run, and on a
    file without a final line ending the first run runs into its last line. *)
Example patch_again :
  let m := [txt "Kickstart/x+"] in
  add_modules (add_modules ex_kicklayout m (txt "U")) m (txt "U") ≠ add_modules ex_kicklayout m (txt "U") ∧
  add_modules (txt "EXEC boot") [txt "m"] (txt "U") =
    txt "EXEC boot;" ++ t_nl ++ txt "; U" ++ t_nl ++ txt "MODULE m" ++ t_nl.
Proof. split; [|reflexivity]. apply (bool_decide_unpack _). vm_compute. exact I. Qed.
