(* ===== verification/Amiga.v ===== *)
(** * Talking to the machine being installed: [installer/_amiga_fs.py] and the
    step primitives of [tools/installer.py]

    The requests an installation sends, the guarded forms it sends them in,
    and the primitives the install steps are made of: making drawers, mounting
    the install ISO, copying trees, unpacking archives and patching the
    Kicklayout. *)
From S2P Require Import Prelude Py Bytes Kicklayout.

(** The daemon of the target, the clock and sleeping (milliseconds), and the
    texts the host makes of exceptions and values.
    [mcpd_up] is [fleet.mcpd(target)]. *)
Class Amiga (E : Type) := {
  daemon : string → json → Z → M E exn json;
  mcpd_up : M E exn unit;
  sleep : Z → M E exn unit;
  monotonic : E → Z;
  exn_text : exn → string;
  repr : json → text }.
(** [bytes.decode("ascii", errors="replace")]: text here stops at U+00FF, so a
    character that is not ASCII stands for the U+FFFD of a bad byte; the steps
    only look for ASCII in what they read, and encode it back as ASCII. *)
Definition REPLACED : ascii := chr 191.
Definition decode_ascii (b : bytes) : text := map (λ c, if ord c <? 128 then c else REPLACED) b.

(** A request and what came of it. *)
Abbreviation exchange := (string * json * res exn json)%type.
(** The part of a run's [ctx] that steps write, and a ghost: the requests
    sent, in order, with their outcomes. *)
Record inst (E : Type) := Inst {
  iso_volume : option string; extracted : bool;
  asked : list exchange; machine_env : E }.
Arguments Inst {E}. Arguments iso_volume {E}. Arguments extracted {E}.
Arguments asked {E}. Arguments machine_env {E}.

Definition path_arg (p : string) : json := JObj [("path", JStr p)].
Definition src_dst (src dst : string) : json := JObj [("src", JStr src); ("dst", JStr dst)].
Definition cmd_arg (command : string) (timeout_ms : Z) : json :=
  JObj [("command", JStr command); ("timeout_ms", JNum timeout_ms)].
Definition write_arg (p : string) (content : text) : json :=
  JObj [("path", JStr p); ("content_b64", JStr (str (py_b64encode content)))].
Definition dq : string := String.String "034" "".
Definition quoted (s : string) : string := dq +:+ s +:+ dq.
Definition ends (suffix s : string) : bool := endswith (txt suffix) (txt s).
(** [s.rstrip("/")] *)
Definition rstrip_slash (s : string) : string := str (rstrip_of (λ c, bool_decide (c = "/"%char)) (txt s)).
Definition DEFAULT_TIMEOUT : Z := 30000.
Definition num (z : Z) : string := str (show_int z).

Section amiga.
Context {E : Type} `{Amiga E}.
Abbreviation MI := (M (inst E) exn).
Definition on_env {A} (m : M E exn A) : MI A := λ w,
  let '(r, e) := m (machine_env w) in (r, Inst (iso_volume w) (extracted w) (asked w) e).
(** [mcpd.request(method, params, timeout_s=timeout)] *)
Definition request (method : string) (params : json) (timeout : Z) : MI json := λ w,
  let '(r, e) := daemon method params timeout (machine_env w) in
  (r, Inst (iso_volume w) (extracted w) (asked w ++ [(method, params, r)]) e).
Definition stat (p : string) : MI json := request "fs.stat" (path_arg p) DEFAULT_TIMEOUT.
Definition copy (src dst : string) : MI json := request "fs.copy" (src_dst src dst) DEFAULT_TIMEOUT.
Definition exec (command : string) (timeout_ms timeout : Z) : MI json :=
  request "exec.cmd" (cmd_arg command timeout_ms) timeout.
(** [try: m except Exception: ...]: whether it went well. *)
Definition worked {A} (m : MI A) : MI bool :=
  catch (m;; mret true) (λ e, if is_exception e then mret false else raise e).
(** [try: m except Exception: pass] *)
Definition quietly {A} (m : MI A) : MI unit := worked m;; mret tt.
(** [try: m except Exception: f] *)
Definition or_else (m f : MI unit) : MI unit := catch m (λ e, if is_exception e then f else raise e).
Definition clock : MI Z := gets (λ w, monotonic (machine_env w)).
Definition now_mcpd : MI unit := on_env mcpd_up.
Definition wait (t : Z) : MI unit := on_env (sleep t).
(** [raw or {}] used as a dict. *)
Definition or_dict (raw : json) : res exn json :=
  if json_truth raw then match raw with JObj _ => Ret raw | _ => Raise (EPy AttributeError) end
  else Ret (JObj []).
(** [base64.b64decode(raw.get("content_b64", "")).decode("ascii", errors="replace")] *)
Definition b64_bytes (j : json) : res exn bytes :=
  match j with
  | JStr s => match py_b64decode (txt s) with Some b => Ret b | None => Raise (EPy ValueError) end
  | _ => Raise (EPy TypeError)
  end.
Definition content_text (raw : json) : MI text :=
  c ← lift (get_or "content_b64" (JStr "") raw);
  b ← lift (b64_bytes c);
  mret (decode_ascii b).

(** [amiga_makedir] *)
Definition amiga_makedir (path : string) : MI unit :=
  let p := rstrip_slash path in
  if ends ":" p || bool_decide (p = ""%string) then mret tt
  else
    there ← worked (stat p);
    if there : bool then mret tt
    else
      made ← worked (request "fs.makedir" (path_arg p) DEFAULT_TIMEOUT);
      if made : bool then mret tt
      else
        raw ← exec ("MakeDir " +:+ quoted p +:+ " ALL") 30000 35000;
        catch (stat p;; mret tt) (λ e,
          if is_exception e then lift (or_dict raw);; raise (EPy RuntimeError) else raise e).

(** ** Mounting *)

Record mount_result := Mounted {
  mi_expected : option string; detected_volume : option string; settled : bool; mi_elapsed : Z }.
(** The poll of step 3, on fuel; [poll_ends] of [Termination.v] shows when it
    is enough. *)
Fixpoint poll_volume (fuel : nat) (deadline : Z) (volume : string) : MI (option string) :=
  match fuel with
  | O => spin
  | S fuel =>
      t ← clock;
      if t <? deadline then
        there ← worked (stat volume);
        if there : bool then mret (Some volume)
        else wait 1000;; poll_volume fuel deadline volume
      else mret None
  end.
Definition strip_colon (s : string) : string := str (rstrip_of (λ c, bool_decide (c = ":"%char)) (txt s)).
Definition longer (timeout more least : Z) : Z := Z.max (timeout + more) least.
(** [installer_mount_iso] *)
Definition installer_mount_iso (fuel : nat) (iso_path dos_device : string) (unit_no : Z)
    (expected : option string) (timeout settle : Z) : MI mount_result :=
  t0 ← clock;
  now_mcpd;;
  quietly (exec ("C:MountDiskImage U=" +:+ num unit_no +:+ " EJECT") 10000 15000;; wait 1000);;
  exec ("C:MountDiskImage U=" +:+ num unit_no +:+ " INSERT=" +:+ quoted iso_path) timeout
       (longer timeout 5000 30000);;
  wait 2000;;
  live ← worked (stat dos_device);
  (if live : bool then mret tt
   else quietly (exec ("Mount " +:+ quoted ("DEVS:DOSDrivers/" +:+ strip_colon dos_device)) timeout
                      (longer timeout 5000 30000)));;
  found ← match expected with
          | Some v => if bool_decide (v = ""%string) then mret None
                      else t ← clock;
                           f ← poll_volume fuel (t + timeout) v;
                           match f with Some v => wait settle;; mret (Some v) | None => mret None end
          | None => mret None
          end;
  t1 ← clock;
  mret (Mounted expected found (bool_decide (is_Some found)) (t1 - t0)).
(** [installer_unmount_iso]: the output it reports. *)
Definition output_of (raw : json) : res exn text :=
  match get_or "output" (JStr "") raw with
  | Ret o => Ret (py_str repr o)
  | Raise e => Raise e
  | Spin => Spin
  end.
Definition installer_unmount_iso (unit_no timeout : Z) : MI text :=
  now_mcpd;;
  raw ← exec ("C:MountDiskImage U=" +:+ num unit_no +:+ " EJECT") timeout (longer timeout 5000 30000);
  lift (output_of raw).

(** ** Copying and unpacking *)

Definition require_confirm (confirm : bool) : MI unit :=
  if confirm then mret tt
  else raise (ERpc InvalidParams (Some (JObj [("hint", JStr "pass confirm=True to acknowledge")]))).
Record command_result := Ran { cr_output : text; cr_exit : Z; cr_duration : Z }.
(** [int(raw.get("exit_code", 0))] and what goes with it. *)
Definition ran (t0 : Z) (raw : json) : MI command_result :=
  o ← lift (output_of raw);
  c ← lift (get_or "exit_code" (JNum 0) raw);
  rc ← lift (py_int c);
  t1 ← clock;
  mret (Ran o rc (t1 - t0)).
Definition copy_flags (all clone quiet : bool) : string :=
  (if all then " ALL" else "") +:+ (if clone then " CLONE" else "") +:+ (if quiet then " QUIET" else "").
(** [installer_copy_tree] *)
Definition installer_copy_tree (src dst : string) (all clone quiet confirm : bool) (timeout : Z)
    : MI command_result :=
  require_confirm confirm;;
  t0 ← clock;
  now_mcpd;;
  raw ← exec ("Copy " +:+ quoted src +:+ " " +:+ quoted dst +:+ copy_flags all clone quiet) timeout
             (longer timeout 30000 60000);
  ran t0 raw.
(** [installer_apply_lha] *)
Definition with_slash (d : string) : string := if ends "/" d then d else d +:+ "/".
Definition installer_apply_lha (archive dest : string) (confirm : bool) (timeout : Z) : MI command_result :=
  require_confirm confirm;;
  t0 ← clock;
  now_mcpd;;
  raw ← exec ("LhA >NIL: x " +:+ quoted archive +:+ " " +:+ quoted (with_slash dest)) timeout
             (longer timeout 30000 60000);
  ran t0 raw.

(** ** The Kicklayout *)

(** [_normalize_volume] *)
Definition normalize_volume (vol : string) : string :=
  let v := strip (txt vol) in
  let v := if endswith (txt "/") v then take (length v - 1) v else v in
  str (if endswith (txt ":") v then v else v ++ txt ":").
Definition kicklayout_path (dest : string) : string := normalize_volume dest +:+ "Kickstart/Kicklayout".
Record kicklayout_file := KFile { kl_volume : string; kl_path : string; kl_content : text }.
(** [installer_read_kicklayout] *)
Definition installer_read_kicklayout (dest : string) : MI kicklayout_file :=
  now_mcpd;;
  raw ← request "fs.read" (path_arg (kicklayout_path dest)) DEFAULT_TIMEOUT;
  t ← content_text raw;
  mret (KFile (normalize_volume dest) (kicklayout_path dest) t).
(** [installer_write_kicklayout]: bytes written and the backup made. *)
Definition installer_write_kicklayout (dest : string) (content : text) (confirm : bool)
    (backup_suffix : option string) : MI (Z * option string) :=
  require_confirm confirm;;
  let klpath := kicklayout_path dest in
  now_mcpd;;
  backup ← match backup_suffix with
           | Some s =>
               if bool_decide (s = ""%string) then mret None
               else ok ← worked (stat klpath;; copy klpath (klpath +:+ s));
                    mret (if ok : bool then Some (klpath +:+ s) else None)
           | None => mret None
           end;
  b ← lift (encode_ascii content);
  request "fs.write" (write_arg klpath b) 120000;;
  mret (Z.of_nat (length b), backup).

(** [_AOS_MONTHS] and [_aos_modified_to_setdate] of [_steps.py]. *)
Definition AOS_MONTHS : list text :=
  map txt ["Jan"; "Feb"; "Mar"; "Apr"; "May"; "Jun"; "Jul"; "Aug"; "Sep"; "Oct"; "Nov"; "Dec"]%string.
Definition aos_modified_to_setdate (modified : text) : option text :=
  match words modified with
  | [date; time] =>
      match split_on "-"%char date with
      | [yy; mon; dd] =>
          if bool_decide (mon ∈ AOS_MONTHS) && (isdigit yy && isdigit dd)
          then Some (dd ++ txt "-" ++ mon ++ txt "-" ++ yy ++ txt " " ++ time) else None
      | _ => None
      end
  | _ => None
  end.
(** [s.get("modified") if isinstance(s, dict) else None] *)
Definition modified_of (s : json) : option json :=
  match s with JObj l => match assoc "modified" l with Some JNull => None | o => o end | _ => None end.
(** [_capture_mtime] *)
Definition capture_mtime (path : string) : MI (option json) :=
  catch (s ← request "fs.stat" (path_arg path) 10000; mret (modified_of s))
        (λ e, if is_exception e then mret None else raise e).
(** [_restore_mtime]: a value that is no string has no [split]. *)
Definition restore_mtime (path : string) (original : option json) : MI unit :=
  match original with
  | Some j =>
      if json_truth j then
        match j with
        | JStr s =>
            match aos_modified_to_setdate (txt s) with
            | Some setdate =>
                quietly (exec ("SetDate " +:+ quoted path +:+ " " +:+ str setdate) 10000 15000)
            | None => mret tt
            end
        | _ => raise (EPy AttributeError)
        end
      else mret tt
  | None => mret tt
  end.
(** [installer_patch_kicklayout] *)
Definition installer_patch_kicklayout (dest : string) (adds : list add_patch) (reps : list replace_patch)
    (confirm : bool) (backup_suffix : option string) : MI (summary * Z * option string) :=
  require_confirm confirm;;
  rd ← installer_read_kicklayout dest;
  let '(new_text, s) := apply_patches (kl_content rd) adds reps in
  if negb (changed s) then mret (Summary 0 [] 0 [] false, 0, None)
  else
    now_mcpd;;
    mtime ← capture_mtime (kl_path rd);
    wr ← installer_write_kicklayout (kl_volume rd) new_text true backup_suffix;
    restore_mtime (kl_path rd) mtime;;
    mret (s, wr.1, wr.2).
End amiga.
