(* ===== verification/DemoTarget.v ===== *)
(** * A small target for concrete runs

    A machine whose daemon keeps whole files by name, knows the volumes and
    drawers above them, and lets one millisecond pass per request: enough to
    run an installation on. *)
From S2P Require Import Prelude Py Bytes Kicklayout Amiga.

Record demo := Demo { demo_files : list (string * bytes); demo_clock : Z }.
Definition no_such : res exn json := Raise (ERpc TargetError None).
Definition demo_present (d : demo) (p : string) : bool :=
  existsb (λ kv, startswith (txt p) (txt kv.1)) (demo_files d).
Definition arg (k : string) (j : json) : string := match jget k j with Some (JStr s) => s | _ => ""%string end.
Definition demo_answer (method : string) (params : json) (d : demo) : res exn json * list (string * bytes) :=
  let files := demo_files d in
  let p := arg "path" params in
  if bool_decide (method = "fs.stat"%string) then
    (if demo_present d p then Ret (JObj [("type", JStr "file"); ("modified", JStr "26-Jan-02 10:00:00")]) else no_such, files)
  else if bool_decide (method = "fs.read"%string) then
    (match assoc p files with
     | Some b => Ret (JObj [("content_b64", JStr (str (py_b64encode b)))])
     | None => no_such
     end, files)
  else if bool_decide (method = "fs.write"%string) then
    match py_b64decode (txt (arg "content_b64" params)) with
    | Some b => (Ret (JObj []), dict_set p b files)
    | None => (no_such, files)
    end
  else if bool_decide (method = "fs.copy"%string) then
    match assoc (arg "src" params) files with
    | Some b => (Ret (JObj []), dict_set (arg "dst" params) b files)
    | None => (no_such, files)
    end
  else (Ret (JObj [("exit_code", JNum 0); ("output", JStr "")]), files).
#[export] Instance demo_amiga : Amiga demo := {
  daemon method params _ := λ d,
    let '(r, fs) := demo_answer method params d in (r, Demo fs (demo_clock d + 1));
  mcpd_up := λ d, (Ret tt, d);
  sleep t := λ d, (Ret tt, Demo (demo_files d) (demo_clock d + t));
  monotonic := demo_clock;
  exn_text _ := "error"%string;
  repr _ := txt "..." }.
Definition demo_start (files : list (string * string)) : inst demo :=
  Inst None false [] (Demo (map (λ kv, (kv.1, txt kv.2)) files) 0).
