(* ===== verification/Machines.v ===== *)
(** * Machines and their install files: [installer/machines.py],
    [installer/manifest.py] and the listing tools of [tools/installer.py] *)
From S2P Require Import Prelude Py.

Definition ISO_PREFIX_TO_MACHINE : list (string * (string * string)) :=
  [("AmigaOneX5000InstallCD", ("X5000", "AmigaOne X5000"));
   ("AmigaOneA1222InstallCD", ("A1222", "AmigaOne A1222"));
   ("AmigaOneInstallCD", ("AmigaOne", "AmigaOne (XE/SE)"));
   ("Pegasos2InstallCD", ("PegasosII", "Pegasos II"));
   ("Sam460InstallCD", ("Sam460", "Sam460ex"))]%string.
Definition UNSUPPORTED_ISO_PREFIXES : list string :=
  ["ClassicInstallCD"; "Sam440InstallCD"; "AmigaOneX1000InstallCD"]%string.
Definition SUPPORTED_MACHINES : list string :=
  ["X5000"; "A1222"; "AmigaOne"; "PegasosII"; "Sam460"]%string.
Definition MACHINE_ALIASES : list (string * string) :=
  [("x5000", "X5000"); ("amigaonex5000", "X5000"); ("amigaone x5000", "X5000");
   ("a1222", "A1222"); ("amigaonea1222", "A1222"); ("amigaone a1222", "A1222");
   ("sam460", "Sam460"); ("sam460ex", "Sam460");
   ("pegasos2", "PegasosII"); ("pegasosii", "PegasosII"); ("pegasos ii", "PegasosII"); ("peg2", "PegasosII");
   ("amigaone", "AmigaOne"); ("amigaonexe", "AmigaOne"); ("amigaone xe", "AmigaOne");
   ("a1xe", "AmigaOne"); ("a1se", "AmigaOne")]%string.
Definition CD_VERSION_SIGNATURES : list (string * string) :=
  [("AmigaOne", "AmigaOS-AmigaOne"); ("X5000", "AmigaOS-X5000");
   ("PegasosII", "AmigaOS-Pegasos2"); ("A1222", "AmigaOS-A1222")]%string.
Definition UPDATES_TO_APPLY : list (string * list Z) :=
  [("AmigaOne", [1; 2; 3]); ("PegasosII", [1; 2; 3]); ("Sam460", [1; 2; 3]);
   ("X5000", [2; 3]); ("A1222", [3])]%string.
Definition UPDATE_LHA_NAME : list (Z * string) :=
  [(1, "AmigaOS4.1FinalEditionUpdate1.lha"); (2, "AmigaOS4.1FinalEditionUpdate2-53.14.lha");
   (3, "AmigaOS4.1FinalEditionUpdate3-53.34.lha")]%string.
Definition A1222_BACKUP_VOLS : list string := ["RESCUEV2:"; "AAATECH0:"]%string.
Definition A1222_BACKUP_SIGNATURE : string := "Devs/Networks/A1222eth.device".
Definition FORBIDDEN_DEST_ENTRIES : list string :=
  ["S/Startup-Sequence"; "System"; "Kickstart"; "Devs/Monitors"; "Prefs/Env-Archive"]%string.

Definition lower_str (s : string) : text := map lower (txt s).
Definition starts (p s : string) : bool := startswith (txt p) (txt s).
Definition ends_with (suffix : string) (t : text) : bool := endswith (txt suffix) t.
(** [s[:-n]] *)
Definition drop_last (n : nat) (s : string) : string := str (take (length (txt s) - n) (txt s)).

(** [resolve_machine_alias] *)
Definition resolve_machine_alias (name : string) : option string :=
  if bool_decide (name = ""%string) then None
  else if bool_decide (name ∈ SUPPORTED_MACHINES) then Some name
  else assoc (str (map lower (strip (txt name)))) MACHINE_ALIASES.
(** [detect_machine_from_iso] *)
Definition detect_machine_from_iso (iso_filename : string) : option (string * string) :=
  match List.find (λ x, starts x.1 iso_filename) ISO_PREFIX_TO_MACHINE with
  | Some x => Some x.2 | None => None
  end.
(** [is_unsupported_iso] *)
Definition is_unsupported_iso (iso_filename : string) : bool :=
  existsb (λ p, starts p iso_filename) UNSUPPORTED_ISO_PREFIXES.

(** ** The manifest *)

Record required := Required {
  role : string; filename : string; iso_prefix : option string; update_index : option Z }.
Definition prefix_of (machine : string) : option (string * (string * string)) :=
  List.find (λ x, bool_decide (x.2.1 = machine)) ISO_PREFIX_TO_MACHINE.
Fixpoint lha_name (n : Z) (l : list (Z * string)) : option string :=
  match l with [] => None | (k, s) :: l => if k =? n then Some s else lha_name n l end.
Definition updates_of (machine : string) : list Z := default [] (assoc machine UPDATES_TO_APPLY).
Definition update_entry (n : Z) : option required :=
  match lha_name n UPDATE_LHA_NAME with
  | Some f => Some (Required "update" f None (Some n)) | None => None
  end.
(** [required_files] *)
Definition required_files (machine : string) : res exn (list required) :=
  if negb (bool_decide (machine ∈ SUPPORTED_MACHINES)) then Raise (EPy ValueError)
  else
    match prefix_of machine, mapM update_entry (updates_of machine) with
    | Some (p, _), Some us =>
        Ret (Required "iso" (p +:+ "*.iso") (Some p) None :: us ++
             [Required "enhancer" "enhancer_software_2.2.lha" None None] ++
             (if bool_decide (machine = "X5000"%string)
              then [Required "extra" "NGFCheck.lha" None None; Required "extra" "NGFS.lha" None None]
              else []))
    | _, _ => Raise (EPy KeyError)
    end.

(** ** Scanning a source directory

    A directory is what it lists: names, and whether each is a file; [None] is
    one that does not exist. *)
Definition folder := list (string * bool).
Record scan := Scan {
  exists_ : bool; iso_files : list (string * list string); iso_lha_files : list (string * list string);
  unsupported_isos : list string; lha_files : list string;
  detected_machine : option string; ambiguous_machines : list string }.
(** [d.setdefault(k, []).append(v)] *)
Definition append_to (k v : string) (d : list (string * list string)) : list (string * list string) :=
  dict_set k (default [] (assoc k d) ++ [v]) d.
Record piles := Piles {
  isos : list (string * list string); packed : list (string * list string);
  unsup : list string; lhas : list string }.
(** The body of the loop of [scan_sources]. *)
Definition sort_file (name : string) (s : piles) : piles :=
  let lower := lower_str name in
  if ends_with ".iso" lower then
    match detect_machine_from_iso name with
    | Some info => Piles (append_to info.1 name (isos s)) (packed s) (unsup s) (lhas s)
    | None => if is_unsupported_iso name
              then Piles (isos s) (packed s) (unsup s ++ [name]) (lhas s) else s
    end
  else if ends_with ".iso.lha" lower then
    match detect_machine_from_iso (drop_last 4 name) with
    | Some info => Piles (isos s) (append_to info.1 name (packed s)) (unsup s) (lhas s)
    | None => Piles (isos s) (packed s) (unsup s) (lhas s ++ [name])
    end
  else if ends_with ".lha" lower then Piles (isos s) (packed s) (unsup s) (lhas s ++ [name])
  else s.
(** [sorted(p.iterdir())], the files only. *)
Definition files_of (d : folder) : list string :=
  merge_sort String.le (filter (λ e, e.2 = true) d).*1.
Definition sort_files (names : list string) : piles :=
  fold_left (λ s n, sort_file n s) names (Piles [] [] [] []).
(** [scan_sources] *)
Definition scan_sources (dir : option folder) : scan :=
  match dir with
  | None => Scan false [] [] [] [] None []
  | Some d =>
      let s := sort_files (files_of d) in
      let seen := remove_dups ((isos s).*1 ++ (packed s).*1) in
      Scan true (isos s) (packed s) (unsup s) (lhas s)
        (match seen with [m] => Some m | _ => None end)
        (match seen with _ :: _ :: _ => merge_sort String.le seen | _ => [] end)
  end.

(** ** The listing tools *)

Record machine_info := Info {
  machine_id_ : string; friendly_name : string; prefix_ : string; aliases : list string;
  updates_applied : list Z; needs_enhancer_lha : bool; needs_rescuev2_usb : bool;
  cd_version_signature : option string; extras : list string }.
(** [_machine_info]; [next] of nothing is a [StopIteration]. *)
Definition machine_info_of (m : string) : res exn machine_info :=
  match prefix_of m, required_files m with
  | Some (p, (_, friendly)), Ret files =>
      Ret (Info m friendly p
             (merge_sort String.le (filter (λ kv, kv.2 = m) MACHINE_ALIASES).*1)
             (updates_of m) (negb (bool_decide (m = "A1222"%string))) (bool_decide (m = "A1222"%string))
             (assoc m CD_VERSION_SIGNATURES)
             (map filename (filter (λ f, role f = "extra"%string) files)))
  | _, Raise e => Raise e
  | _, _ => Raise (EPy RuntimeError)
  end.
Fixpoint each {A B} (f : A → res exn B) (l : list A) : res exn (list B) :=
  match l with
  | [] => Ret []
  | x :: l => match f x, each f l with
              | Ret y, Ret ys => Ret (y :: ys)
              | Ret _, r => r
              | Raise e, _ => Raise e
              | Spin, _ => Spin
              end
  end.
(** [installer_list_machines] *)
Definition installer_list_machines : res exn (list machine_info) := each machine_info_of SUPPORTED_MACHINES.
Record required_files_result := RequiredFiles {
  rf_machine : string; rf_files : list required; rf_rescue : bool;
  rf_volumes : list string; rf_signature : option string }.
(** [installer_required_files] *)
Definition installer_required_files (machine : string) : res exn required_files_result :=
  match resolve_machine_alias machine with
  | None => Raise (EPy ValueError)
  | Some m =>
      match required_files m with
      | Ret files =>
          let a1222 := bool_decide (m = "A1222"%string) in
          Ret (RequiredFiles m files a1222 (if a1222 then A1222_BACKUP_VOLS else [])
                 (if a1222 then Some A1222_BACKUP_SIGNATURE else None))
      | Raise e => Raise e
      | Spin => Spin
      end
  end.

(* ------------------------------------------------------------------ *)
(** ** What a scan finds

    The kinds of file a source directory holds, read off the names alone. *)
Inductive file_kind := IsoOf (m : string) | PackedIsoOf (m : string) | UnsupportedIso | Archive | OtherFile.
#[export] Instance file_kind_eq_dec : EqDecision file_kind.
Proof. solve_decision. Defined.
Definition kind_of (name : string) : file_kind :=
  let lower := lower_str name in
  if ends_with ".iso" lower then
    match detect_machine_from_iso name with
    | Some (m, _) => IsoOf m
    | None => if is_unsupported_iso name then UnsupportedIso else OtherFile
    end
  else if ends_with ".iso.lha" lower then
    match detect_machine_from_iso (drop_last 4 name) with Some (m, _) => PackedIsoOf m | None => Archive end
  else if ends_with ".lha" lower then Archive else OtherFile.
Definition of_kind (k : file_kind) (names : list string) : list string := filter (λ n, kind_of n = k) names.
(** A machine for which the directory holds an install ISO in either form. *)
Definition offers (names : list string) (m : string) : Prop :=
  ∃ n, n ∈ names ∧ (kind_of n = IsoOf m ∨ kind_of n = PackedIsoOf m).

Lemma of_kind_snoc k names n :
  of_kind k (names ++ [n]) = of_kind k names ++ (if decide (kind_of n = k) then [n] else []).
Proof. unfold of_kind. rewrite filter_app, filter_cons, filter_nil. by case_decide. Qed.

(** The piles hold exactly the files of their kinds. *)
Record sorted_out (names : list string) (s : piles) : Prop := {
  so_iso m : default [] (assoc m (isos s)) = of_kind (IsoOf m) names;
  so_iso_keys m : m ∈ (isos s).*1 ↔ of_kind (IsoOf m) names ≠ [];
  so_packed m : default [] (assoc m (packed s)) = of_kind (PackedIsoOf m) names;
  so_packed_keys m : m ∈ (packed s).*1 ↔ of_kind (PackedIsoOf m) names ≠ [];
  so_unsup : unsup s = of_kind UnsupportedIso names;
  so_lha : lhas s = of_kind Archive names }.

Lemma append_to_lookup k v d m :
  default [] (assoc m (append_to k v d)) = default [] (assoc m d) ++ (if decide (k = m) then [v] else []).
Proof.
  unfold append_to. rewrite assoc_dict_set. case_decide; subst; simpl; [done|]. by rewrite app_nil_r.
Qed.
Lemma append_to_keys k v d m : m ∈ (append_to k v d).*1 ↔ m = k ∨ m ∈ d.*1.
Proof. unfold append_to. rewrite dict_set_keys. case_decide; set_solver. Qed.
Lemma app_not_nil {A} (l k : list A) : l ++ k ≠ [] ↔ l ≠ [] ∨ k ≠ [].
Proof. destruct l; naive_solver. Qed.
Lemma sort_file_sorted_out names n s :
  sorted_out names s → sorted_out (names ++ [n]) (sort_file n s).
Proof.
  intros [H1 H2 H3 H4 H5 H6].
  assert (Hk : ∀ k, of_kind k (names ++ [n]) = of_kind k names ++ (if decide (kind_of n = k) then [n] else []))
    by (intros; apply of_kind_snoc).
  unfold sort_file, kind_of in *.
  destruct (ends_with ".iso" _);
    [destruct (detect_machine_from_iso n) as [[m0 f0]|]; [|destruct (is_unsupported_iso n)]|
     destruct (ends_with ".iso.lha" _);
       [destruct (detect_machine_from_iso (drop_last 4 n)) as [[m0 f0]|]|destruct (ends_with ".lha" _)]];
    split; intros; simpl; rewrite Hk, ?append_to_lookup, ?append_to_keys, ?app_not_nil,
      ?H1, ?H2, ?H3, ?H4, ?H5, ?H6; repeat case_decide; simplify_eq; rewrite ?app_nil_r; naive_solver.
Qed.
Lemma sort_files_sorted_out names : sorted_out names (sort_files names).
Proof.
  unfold sort_files. induction names as [|n names IH] using rev_ind.
  - by split; intros; simpl; rewrite ?elem_of_nil; unfold of_kind; rewrite ?filter_nil.
  - rewrite fold_left_app. simpl. by apply sort_file_sorted_out.
Qed.
Lemma of_kind_not_nil k names : of_kind k names ≠ [] ↔ ∃ n, n ∈ names ∧ kind_of n = k.
Proof.
  unfold of_kind. split.
  - destruct (filter _ names) as [|n l] eqn:Hf; [done|]. intros _. exists n.
    assert (n ∈ filter (λ n, kind_of n = k) names) as [? ?]%list_elem_of_filter by (rewrite Hf; set_solver). done.
  - intros (n & Hn & Hk) Hf. assert (n ∈ filter (λ n, kind_of n = k) names) by (by apply list_elem_of_filter).
    rewrite Hf in *. set_solver.
Qed.
Lemma sorted_out_seen names s m :
  sorted_out names s → m ∈ remove_dups ((isos s).*1 ++ (packed s).*1) ↔ offers names m.
Proof.
  intros Hs. rewrite elem_of_remove_dups, elem_of_app, (so_iso_keys _ _ Hs), (so_packed_keys _ _ Hs).
  rewrite !of_kind_not_nil. unfold offers. naive_solver.
Qed.
(** A list without duplicates is one element exactly when it has one member. *)
Lemma singleton_members {A} (l : list A) (x : A) :
  NoDup l → l = [x] ↔ ∀ y, y ∈ l ↔ y = x.
Proof.
  intros Hnd. split; [intros ->; intros y; set_solver|]. intros Hl.
  destruct l as [|a [|b l]].
  - exfalso. assert (x ∈ []) by by apply Hl. set_solver.
  - f_equal. apply Hl. set_solver.
  - exfalso. assert (a = x) as -> by (apply Hl; set_solver). assert (b = x) as -> by (apply Hl; set_solver).
    apply NoDup_cons in Hnd. set_solver.
Qed.

(** Scanning a source directory sorts its files, in name order, by what
    their names say and nothing else: the raw ISOs and the packed ISOs of each
    machine, the ISOs of unsupported machines, and the other archives, each file
    in one list at most.  A machine is detected exactly when it is the only one
    the directory holds an ISO of, raw or packed; when there are several, the
    scan names them all and detects none. *)
Theorem scan_sources_sorts d :
  let names := files_of d in
  let s := scan_sources (Some d) in
  (StronglySorted String.le names ∧ names ≡ₚ (filter (λ e, e.2 = true) d).*1) ∧
  (∀ m, default [] (assoc m (iso_files s)) = of_kind (IsoOf m) names ∧
        default [] (assoc m (iso_lha_files s)) = of_kind (PackedIsoOf m) names) ∧
  unsupported_isos s = of_kind UnsupportedIso names ∧
  lha_files s = of_kind Archive names ∧
  (∀ m, detected_machine s = Some m ↔ ∀ m', offers names m' ↔ m' = m) ∧
  (∀ m, m ∈ ambiguous_machines s ↔ offers names m ∧ ∃ m', m' ≠ m ∧ offers names m').
Proof.
  intros names s. pose proof (sort_files_sorted_out names) as Hs. subst s. unfold scan_sources. fold names.
  set (p := sort_files names) in *. set (seen := remove_dups ((isos p).*1 ++ (packed p).*1)).
  assert (Hseen : ∀ m, m ∈ seen ↔ offers names m) by (intros; by apply sorted_out_seen).
  assert (NoDup seen) as Hnd by apply NoDup_remove_dups. cbn.
  split_and!; try apply Hs.
  - apply (StronglySorted_merge_sort String.le).
  - apply merge_sort_Permutation.
  - intros m. split; apply Hs.
  - intros m. setoid_rewrite <-Hseen. rewrite <-singleton_members by done.
    destruct seen as [|a [|b l]]; naive_solver.
  - intros m. setoid_rewrite <-Hseen. destruct seen as [|a [|b l]]; [set_solver|set_solver|].
    rewrite merge_sort_Permutation. split; [|naive_solver]. intros Hm. split; [done|].
    apply NoDup_cons in Hnd as [Hab _]. destruct (decide (a = m)) as [->|]; [exists b|exists a]; set_solver.
Qed.

Definition ex_folder : folder :=
  [("Sam460InstallCD-53.58.iso.lha", true); ("NGFS.lha", true); ("Sam460InstallCD-53.58.ISO", true);
   ("ClassicInstallCD.iso", true); ("AmigaOneX5000InstallCD-53.17.iso", false); ("README", true)]%string.
Example ex_scan :
  scan_sources (Some ex_folder) =
  Scan true [("Sam460", ["Sam460InstallCD-53.58.ISO"])] [("Sam460", ["Sam460InstallCD-53.58.iso.lha"])]
    ["ClassicInstallCD.iso"] ["NGFS.lha"] (Some "Sam460") [].
Proof. vm_compute. reflexivity. Qed.

(** Supported names: an alias resolves to a supported machine, whatever its
    case and the space around it, and every machine has a manifest. *)
Lemma resolve_machine_alias_supported name m :
  resolve_machine_alias name = Some m → m ∈ SUPPORTED_MACHINES.
Proof.
  unfold resolve_machine_alias. case_bool_decide; [done|]. case_bool_decide; [intros [= <-]; done|].
  intros Hm. apply assoc_elem in Hm.
  assert (Forall (λ kv, kv.2 ∈ SUPPORTED_MACHINES) MACHINE_ALIASES) as Hall
    by (apply (bool_decide_unpack _); vm_compute; exact I).
  rewrite Forall_forall in Hall. by apply (Hall _ Hm).
Qed.
Lemma supported_cases m :
  m ∈ SUPPORTED_MACHINES →
  m = "X5000"%string ∨ m = "A1222"%string ∨ m = "AmigaOne"%string ∨ m = "PegasosII"%string ∨ m = "Sam460"%string.
Proof. unfold SUPPORTED_MACHINES. set_solver. Qed.
Lemma required_files_supported m : m ∈ SUPPORTED_MACHINES → ∃ l, required_files m = Ret l.
Proof. intros Hm. apply supported_cases in Hm. naive_solver. Qed.
(** The order of the prefixes does not matter: no two of them, and no
    unsupported one, begin a common name. *)
Lemma starts_comparable p q n : starts p n = true → starts q n = true → starts p q = true ∨ starts q p = true.
Proof.
  unfold starts. generalize (txt p) (txt q) (txt n). clear. intros p. induction p as [|a p IH]; [by left|].
  intros [|b q] [|c n]; simpl; try done; [by right|]. 
  rewrite !andb_true_iff. intros [Ha Hp] [Hb Hq].
  destruct (IH _ _ Hp Hq) as [H|H]; rewrite H; [left|right]; repeat case_bool_decide; naive_solver.
Qed.
Lemma unsupported_not_detected n : is_unsupported_iso n = true → detect_machine_from_iso n = None.
Proof.
  unfold is_unsupported_iso, detect_machine_from_iso. intros (p & Hp & Hn)%existsb_exists.
  destruct (List.find _ _) as [x|] eqn:Hf; [|done]. exfalso.
  apply List.find_some in Hf as [Hx Hs].
  assert (existsb (λ x, existsb (λ p, starts x.1 p || starts p x.1) UNSUPPORTED_ISO_PREFIXES)
            ISO_PREFIX_TO_MACHINE = false) as Hno by reflexivity.
  apply not_true_iff_false in Hno. apply Hno. apply existsb_exists. exists x. split; [done|].
  apply existsb_exists. exists p. split; [done|]. apply orb_true_iff. by eapply starts_comparable.
Qed.
