(* ===== verification/Steps.v ===== *)
(** * The install steps: [installer/sequences/_steps.py]

    The steps up to the updates, each as the requests it sends and what it does
    with the answers.  A step's output is the JSON value it returns; times are
    in milliseconds. *)
From S2P Require Import Prelude Py Bytes Kicklayout Amiga Machines.

Definition ISO_VOLUME : string := "AmigaOS 4.1 Final Edition:".
Definition COMBI_DEVICE : string := "COMBI:".
Definition COMBI_UNIT : Z := 50.
Definition MUI_PER_UPDATE (n : Z) : option string :=
  if n =? 1 then Some "MUI2016R1"%string else if n =? 2 then Some "MUI2020R3"%string
  else if n =? 3 then Some "MUI5"%string else None.
(** [MachineConfig] *)
Record machine_config := Machine {
  machine_id : string; cd_signature : option string; kick_sub : option string; wb_sub : option string;
  ethernet_driver : option string; skip_bootloader : bool; needs_ngf : bool; needs_enhancer : bool;
  kicklayout_replacements : list replace_patch; bootloader_filename : string;
  quarantines_emu10kx : bool; quarantines_monitors : bool }.

Definition drv_path : string := "DEVS:DOSDrivers/COMBI".
Definition COMBI_MARKER : text := txt "written by amiga-fleet-mcp installer".
Definition line (s : string) : text := txt s ++ t_nl.
Definition mountfile : text :=
  mjoin (map line
    ["/* COMBI: DOSDriver - written by amiga-fleet-mcp installer */";
     "FileSystem     = L:CDFileSystem"; "Device         = diskimage.device";
     "Unit           = " +:+ num COMBI_UNIT; "Flags          = 0"; "BlocksPerTrack = 351000";
     "BlockSize      = 2048"; "Mask           = 0x7ffffffe"; "MaxTransfer    = 0x1000000";
     "Reserved       = 0"; "Interleave     = 0"; "LowCyl         = 0"; "HighCyl        = 0";
     "Surfaces       = 1"; "Buffers        = 64"; "BufMemType     = 1"; "BootPri        = 2";
     "GlobVec        = -1"; "Mount          = 1"; "Priority       = 10";
     "DosType        = 0x43643031"; "StackSize      = 3000"]%string).

Section steps.
Context {E : Type} `{Amiga E} (fuel : nat).
(** [ctx["target"]], [ctx["dest_volume"]] and [ctx["iso_filename"]]. *)
Context (target dest iso_filename : string).
Abbreviation MI := (M (inst E) exn).

Fixpoint for_each {A} (f : A → MI unit) (l : list A) : MI unit :=
  match l with [] => mret tt | x :: l => f x;; for_each f l end.
Definition says (l : list (string * json)) : MI json := mret (JObj l).
Definition runtime_error {A} : MI A := raise (EPy RuntimeError).
(** [ctx["iso_volume"]] *)
Definition iso_vol : MI string :=
  v ← gets iso_volume;
  match v with Some v => mret v | None => raise (EPy KeyError) end.
Definition set_iso_volume (v : option string) : MI unit :=
  modify (λ w, Inst v (extracted w) (asked w) (machine_env w)).
Definition set_extracted : MI unit :=
  modify (λ w, Inst (iso_volume w) true (asked w) (machine_env w)).
Definition clip (n : nat) (e : exn) : json := JStr (str (take n (txt (exn_text e)))).
(** A copy that may fail. *)
Definition try_copy (src dst : string) : MI unit := quietly (copy src dst).
Definition try_exec (command : string) : MI unit := quietly (exec command 10000 15000).
Definition try_tree (src dst : string) (timeout : Z) : MI unit :=
  quietly (installer_copy_tree src dst true true true true timeout).
Definition write_text (p : string) (content : text) (timeout : Z) : MI unit :=
  b ← lift (encode_ascii content);
  request "fs.write" (write_arg p b) timeout;;
  mret tt.

(** [_maybe_rename] *)
Definition maybe_rename (src dst : string) : MI unit :=
  there ← worked (stat src);
  if there : bool then
    quietly (stat dst;; quietly (exec ("Delete *>NIL: " +:+ quoted dst) 10000 15000));;
    quietly (exec ("Rename *>NIL: " +:+ quoted src +:+ " " +:+ quoted dst) 10000 15000)
  else mret tt.

(** ** Mounting the ISO *)

Definition diskimage_tools : list string :=
  ["C:MountDiskImage"; "DEVS:diskimage.device"; "L:CDFileSystem"]%string.
Fixpoint missing_of (ps : list string) : MI (list string) :=
  match ps with
  | [] => mret []
  | p :: ps => ok ← worked (stat p); ms ← missing_of ps; mret (if ok : bool then ms else p :: ms)
  end.
(** [stage_diskimage_tools] *)
Definition stage_diskimage_tools : MI json :=
  missing ← missing_of diskimage_tools;
  match missing with
  | _ :: _ => runtime_error
  | [] =>
      or_else (stat drv_path;; mret tt)
        (amiga_makedir "DEVS:DOSDrivers/";;
         request "fs.write" (write_arg drv_path mountfile) DEFAULT_TIMEOUT;;
         mret tt);;
      says [("verified", JArr (map JStr diskimage_tools)); ("wrote", JArr [JStr drv_path])]
  end.
Definition iso_path : string := dest +:+ "tmp/" +:+ iso_filename.
(** [extract_iso_lha] *)
Definition extract_iso_lha : MI json :=
  let lha_path := iso_path +:+ ".lha" in
  bare ← worked (stat iso_path);
  if bare : bool then says [("action", JStr "skipped"); ("reason", JStr "iso already present")]
  else
    packed ← worked (stat lha_path);
    if negb packed then
      says [("action", JStr "skipped"); ("reason", JStr "neither iso nor iso.lha in tmp/")]
    else
      installer_apply_lha lha_path (dest +:+ "tmp") true 600000;;
      stat iso_path;;
      set_extracted;;
      says [("action", JStr "extracted"); ("from", JStr lha_path); ("to", JStr iso_path)].
(** [mount_iso] *)
Definition mount_iso : MI json :=
  res ← installer_mount_iso fuel iso_path COMBI_DEVICE COMBI_UNIT (Some ISO_VOLUME) 30000 3000;
  match detected_volume res with
  | None => runtime_error
  | Some v =>
      set_iso_volume (Some v);;
      says [("target", JStr target); ("iso_path", JStr iso_path); ("dos_device", JStr COMBI_DEVICE); ("unit", JNum COMBI_UNIT);
            ("expected_volume", JStr ISO_VOLUME); ("detected_volume", JStr v); ("mounted", JBool true);
            ("settled", JBool (settled res)); ("elapsed_s", JNum (mi_elapsed res))]
  end.
(** [verify_cd_signature] *)
Definition verify_cd_signature (c : machine_config) : MI json :=
  match cd_signature c with
  | None => says [("skipped", JStr "no signature for this machine")]
  | Some sig =>
      if bool_decide (sig = ""%string) then says [("skipped", JStr "no signature for this machine")]
      else
        iso ← iso_vol;
        raw ← request "fs.read" (path_arg (iso +:+ "CD-Version.txt")) DEFAULT_TIMEOUT;
        t ← content_text raw;
        if contains (txt sig) t then says [("signature", JStr sig); ("matched", JBool true)]
        else runtime_error
  end.

(** ** The base system *)

(** [copy_base_os] *)
Definition copy_base_os : MI json :=
  iso ← iso_vol;
  c ← installer_copy_tree (iso +:+ "System/") dest true true true true 1800000;
  exec ("Protect " +:+ quoted dest +:+ " +rwed ALL QUIET") 60000 70000;;
  says [("exit_code", JNum (cr_exit c)); ("duration_s", JNum (cr_duration c))].
(** The patch of Post-Install in [copy_installation_extras]. *)
Definition patch_post_install (p : string) : MI unit :=
  mtime ← capture_mtime p;
  rd ← request "fs.read" (path_arg p) DEFAULT_TIMEOUT;
  d ← lift (or_dict rd);
  existing ← content_text d;
  let patched := py_replace (txt "libz.so.1.2.3") (txt "libz.so.1.2.13") existing in
  if bool_decide (patched = existing) then mret tt
  else write_text p patched 30000;; restore_mtime p mtime.
(** [copy_installation_extras] *)
Definition copy_installation_extras : MI json :=
  iso ← iso_vol;
  let inst := iso +:+ "Installation-Files/" in
  let storage := dest +:+ "Storage/" in
  let cdpost := dest +:+ "Storage/CDPostInstall" in
  let envarc := dest +:+ "Prefs/Env-Archive/Sys/" in
  let presets := iso +:+ "System/Prefs/Presets/Default/1024x768.preset/" in
  let common := iso +:+ "System/Prefs/Presets/Default/Common/" in
  amiga_makedir (dest +:+ "S/");;
  for_each (λ f, try_copy (inst +:+ f) (dest +:+ "S/" +:+ f)) ["Startup-Sequence"; "User-Startup"]%string;;
  try_copy (inst +:+ "Disk.info") (dest +:+ "Disk.info");;
  amiga_makedir (dest +:+ "Storage/Monitors");;
  for_each (λ f, try_copy (inst +:+ f) (dest +:+ "Storage/Monitors/" +:+ f)) ["RTG"; "RTG.info"]%string;;
  amiga_makedir storage;;
  for_each (λ f, try_copy (inst +:+ f) (storage +:+ f)) ["Post-Install"; "Post-Install.info"]%string;;
  quietly (request "fs.delete" (JObj [("path", JStr cdpost); ("recursive", JBool true)]) DEFAULT_TIMEOUT);;
  amiga_makedir cdpost;;
  try_tree (iso +:+ "Installation-Support/CDPostInstall" +:+ "/") (cdpost +:+ "/") 300000;;
  quietly (patch_post_install (storage +:+ "Post-Install"));;
  amiga_makedir envarc;;
  for_each (λ f, try_copy (inst +:+ f) (envarc +:+ f))
    ["wbpattern.prefs"; "wbstartup.prefs"; "AmiDock.amiga.com.xml"]%string;;
  for_each (λ f, try_copy (presets +:+ f) (envarc +:+ f)) ["GUI.prefs"; "Font.prefs"; "WBPattern.prefs"]%string;;
  for_each (λ f, try_copy (common +:+ f) (envarc +:+ f)) ["Palette.prefs"; "startup.prefs"]%string;;
  for_each (λ f, try_copy ("ENV:Sys/" +:+ f) (envarc +:+ f)) ["locale.prefs"; "input.prefs"]%string;;
  try_copy (inst +:+ "load-time-blacklist") (dest +:+ "Devs/load-time-blacklist");;
  says [("copied", JStr "installation extras")].
(** [install_bootloader] *)
Definition install_bootloader (c : machine_config) : MI json :=
  if skip_bootloader c then
    says [("skipped", JStr (machine_id c +:+ " boot loader is system-wide on a separate SD card"))]
  else
    iso ← iso_vol;
    let src := iso +:+ bootloader_filename c in
    catch (copy src (dest +:+ bootloader_filename c);; says [("copied", JStr (bootloader_filename c))])
      (λ e, if is_exception e
            then says [("warning", JStr (src +:+ " not on ISO: " +:+ exn_text e))] else raise e).

(** ** Updates *)

Definition sobjs : string := dest +:+ "SObjs/".
Definition symlinks_of (n : Z) : list (string * string) :=
  if n =? 1 then
    [("libz.so", "libz.so.1.2.3"); ("libz.so.1", "libz.so.1.2.3"); ("libz.so.1.2", "libz.so.1.2.3");
     ("libpng.so", "libpng12.so"); ("libbz2.so", "libbz2.so.1.0.4"); ("libbz2.so.1.0", "libbz2.so.1.0.4");
     ("libfontconfig.so", "libfontconfig.so.2.12.1"); ("libharfbuzz.so", "libharfbuzz.so.0.9.28")]%string
  else if n =? 2 then
    [("libz.so", "libz.so.1.2.3"); ("libz.so.1", "libz.so.1.2.3"); ("libz.so.1.2", "libz.so.1.2.3");
     ("libpng.so", "libpng12.so")]%string
  else [].
Definition make_link (link target : string) : MI unit :=
  try_exec ("MakeLink *>NIL: " +:+ quoted link +:+ " " +:+ target +:+ " SOFT FORCE").
Definition delete_link (link : string) : MI unit := try_exec ("Delete *>NIL: QUIET " +:+ quoted link).
(** The redirect of Update 3. *)
Definition redirect_libz : MI unit :=
  quietly (
    stat (sobjs +:+ "libz.so.1.2.13");;
    for_each (λ l, delete_link (sobjs +:+ l))
      ["libz.so"; "libz.so.1"; "libz.so.1.2"; "libz.so.1.2.3"; "libz.so.1.2.11"]%string;;
    for_each (λ l, make_link (sobjs +:+ l) "libz.so.1.2.13") ["libz.so"; "libz.so.1"; "libz.so.1.2"]%string).
Definition truthy_str (s : option string) : option string :=
  match s with Some x => if bool_decide (x = ""%string) then None else Some x | None => None end.
(** [UPDATE_LHA_NAME[n]] *)
Definition update_archive (n : Z) : res exn string :=
  match lha_name n UPDATE_LHA_NAME with Some f => Ret f | None => Raise (EPy KeyError) end.
(** [apply_one_update] *)
Definition apply_one_update (c : machine_config) (n : Z) : MI json :=
  lha ← lift (update_archive n);
  let archive := dest +:+ "tmp/" +:+ lha in
  let scratch := dest +:+ "tmp/scratch/upd" +:+ num n in
  let content := scratch +:+ "/AmigaOS 4.1 Final Edition Update " +:+ num n +:+ "/Content" in
  let util := dest +:+ "Utilities/" in
  let sysd := dest +:+ "System/" in
  amiga_makedir scratch;;
  installer_apply_lha archive scratch true 900000;;
  (if n =? 2 then
     for_each (λ '(s, d), try_copy (dest +:+ s) (dest +:+ d))
       [("S/Startup-Sequence", "S/Startup-Sequence-preUpd2");
        ("Kickstart/Kicklayout", "Kickstart/Kicklayout-preUpd2")]%string
   else mret tt);;
  for_each (λ '(sub, d), try_tree (content +:+ "/" +:+ sub +:+ "/") (dest +:+ d) 600000)
    [("Workbench", ""); ("Kickstart", "Kickstart/")]%string;;
  (match truthy_str (kick_sub c) with
   | Some k => try_tree (content +:+ "/" +:+ k +:+ "/") (dest +:+ "Kickstart/") 300000
   | None => mret tt
   end);;
  (match truthy_str (wb_sub c) with
   | Some k => try_tree (content +:+ "/" +:+ k +:+ "/") dest 300000
   | None => mret tt
   end);;
  (match MUI_PER_UPDATE n with
   | Some k => try_tree (content +:+ "/" +:+ k +:+ "/") dest 300000
   | None => mret tt
   end);;
  (if (n =? 2) && negb (bool_decide (kicklayout_replacements c = [])) then
     installer_patch_kicklayout dest [] (kicklayout_replacements c) true None;; mret tt
   else mret tt);;
  (if n =? 1 then
     installer_patch_kicklayout dest [AddPatch [txt "Kickstart/mounter.library"] (txt "Update 1")] [] true None;;
     mret tt
   else mret tt);;
  for_each (λ '(l, t), delete_link (sobjs +:+ l);; make_link (sobjs +:+ l) t) (symlinks_of n);;
  (if n =? 3 then redirect_libz else mret tt);;
  maybe_rename (util +:+ "Installation_Utility") (util +:+ "Installation Utility");;
  for_each (λ '(new, old), maybe_rename (sysd +:+ new) (sysd +:+ old))
    [("Media_Toolbox", "Media Toolbox"); ("Media_Toolbox.info", "Media Toolbox.info")]%string;;
  try_exec ("Delete *>NIL: " +:+ quoted (util +:+ "CatComp"));;
  says [("update", JNum n); ("scratch", JStr scratch);
        ("symlinks_applied", JNum (Z.of_nat (length (symlinks_of n))))].
End steps.
