(* ===== verification/PostInstall.v ===== *)
(** * The later install steps: [installer/sequences/_steps.py] from
    [install_enhancer] on

    Third-party archives, the extras, networking, the serial shell, MCPd
    itself, the quarantines, and taking the install ISO down again. *)
From S2P Require Import Prelude Py Bytes Kicklayout Amiga Steps.

(** A file's text from its lines. *)
Definition lines_text (l : list string) : text := mjoin (map line l).
(** [path.rsplit("/", 1)[-1]] *)
Definition base_name (path : string) : string := str (default [] (last (split_on "/"%char (txt path)))).

Section post.
Context {E : Type} `{Amiga E} (target dest iso_filename machine : string).
Abbreviation MI := (M (inst E) exn).

(** A list a loop builds. *)
Fixpoint gather {A B} (f : A → MI (list B)) (l : list A) : MI (list B) :=
  match l with [] => mret [] | x :: l => r ← f x; rs ← gather f l; mret (r ++ rs) end.
(** [try: return k(m) except Exception as e: return f(e)] *)
Definition try_else {A B} (m : MI A) (k : A → MI B) (f : exn → MI B) : MI B :=
  catch (a ← m; k a) (λ e, if is_exception e then f e else raise e).
Definition delete (p : string) (rec : bool) : MI json :=
  request "fs.delete" (JObj [("path", JStr p); ("recursive", JBool rec)]) DEFAULT_TIMEOUT.
Definition rename (src dst : string) : MI json := request "fs.rename" (src_dst src dst) DEFAULT_TIMEOUT.
(** [fs.copy], and [Copy ... CLONE] where that fails. *)
Definition copy_clone (src dst : string) (ms timeout : Z) : MI unit :=
  or_else (copy src dst;; mret tt)
    (exec ("Copy " +:+ quoted src +:+ " " +:+ quoted dst +:+ " CLONE") ms timeout;; mret tt).
Definition protect_rwed (p : string) : MI unit :=
  exec ("Protect " +:+ quoted p +:+ " +rwed") 30000 35000;; mret tt.
Definition skipped (reason : string) : MI json :=
  says [("action", JStr "skipped"); ("reason", JStr reason)].

(** ** Enhancer and NGF *)

Definition enhancer_extras : list (string * string) :=
  [("Firmware/amdgpu/polaris10_uvd.bin", "Firmware/amdgpu/");
   ("Firmware/amdgpu/polaris11_uvd.bin", "Firmware/amdgpu/");
   ("Firmware/amdgpu/polaris12_uvd.bin", "Firmware/amdgpu/");
   ("Firmware/radeon/TAHITI_uvd.bin", "Firmware/radeon/");
   ("Libs/va.library", "Libs/");
   ("Libs/VA/RadeonHD_drv_video.library", "Libs/VA/");
   ("Libs/VA/RadeonRX_drv_video.library", "Libs/VA/");
   ("Libs/Warp3DNova.library", "Libs/");
   ("Libs/Warp3DNova/W3DN_GCN.library", "Libs/Warp3DNova/");
   ("Libs/Warp3DNova/W3DN_SI.library", "Libs/Warp3DNova/");
   ("Libs/sensormaster.library", "Libs/");
   ("Libs/hm_sensors/ct-mcu.library", "Libs/hm_sensors/")]%string.
Definition enhancer_modules : add_patch :=
  AddPatch (map txt ["Kickstart/SmartFilesystem"; "Kickstart/RadeonRX.chip";
                     "Kickstart/RadeonHD.chip"; "Kickstart/diskcache.library.kmod"]%string)
    (txt "Enhancer 2.2").
(** [install_enhancer] *)
Definition install_enhancer (c : machine_config) : MI json :=
  let scratch := dest +:+ "tmp/scratch/enhancer" in
  let enh_root := scratch +:+ "/EnhancerSoftware2.2/Installation_Files/" in
  let dst_kick := dest +:+ "Kickstart/" in
  let net_dst := dest +:+ "Devs/Networks/" in
  amiga_makedir scratch;;
  installer_apply_lha (dest +:+ "tmp/enhancer_software_2.2.lha") scratch true 600000;;
  for_each (λ f, try_copy (enh_root +:+ "Kickstart/" +:+ f) (dst_kick +:+ f))
    ["RadeonHD.chip"; "RadeonHD.chip.debug"; "RadeonRX.chip"; "RadeonRX.chip.debug";
     "SmartFilesystem"; "diskcache.library.kmod"]%string;;
  (match truthy_str (ethernet_driver c) with
   | Some d => amiga_makedir net_dst;; try_copy (enh_root +:+ "Devs/Networks/" +:+ d) (net_dst +:+ d)
   | None => mret tt
   end);;
  for_each (λ '(src_rel, dst_rel),
      amiga_makedir (dest +:+ dst_rel);;
      try_copy (enh_root +:+ src_rel) (dest +:+ dst_rel +:+ base_name src_rel)) enhancer_extras;;
  installer_patch_kicklayout dest [enhancer_modules] [] true None;;
  says [("enhancer", JStr "installed")].
(** [install_ngf] *)
Definition install_ngf : MI json :=
  let ngfs_dir := dest +:+ "tmp/scratch/ngfs" in
  let ngfck_dir := dest +:+ "tmp/scratch/ngfcheck" in
  amiga_makedir ngfs_dir;;
  amiga_makedir ngfck_dir;;
  installer_apply_lha (dest +:+ "tmp/NGFS.lha") ngfs_dir true 300000;;
  installer_apply_lha (dest +:+ "tmp/NGFCheck.lha") ngfck_dir true 300000;;
  try_copy (ngfs_dir +:+ "/NGFileSystem") (dest +:+ "Kickstart/NGFileSystem");;
  for_each (λ f, try_copy (ngfck_dir +:+ "/" +:+ f) (dest +:+ "C/" +:+ f)) ["NGFCheck"; "NGFCheck.info"]%string;;
  says [("ngf", JStr "installed")].

(** ** Taking the ISO down *)

(** [unmount_iso] *)
Definition unmount_iso : MI json :=
  o ← installer_unmount_iso COMBI_UNIT 15000;
  says [("target", JStr target); ("unit", JNum COMBI_UNIT); ("output", JStr (str o))].
Definition noted (s : string) : MI (list string) := mret [s].
(** [dismount_combi_device] *)
Definition dismount_combi_device : MI json :=
  a1 ← try_else (installer_unmount_iso COMBI_UNIT 15000)
         (λ _, noted ("ejected unit " +:+ num COMBI_UNIT +:+ " (pre-dismount guard)"))
         (λ e, noted ("eject-failed: " +:+ str (take 80 (txt (exn_text e)))));
  a2 ← try_else (request "fs.read" (path_arg drv_path) DEFAULT_TIMEOUT)
         (λ raw, content ← content_text raw;
                 if contains COMBI_MARKER content
                 then request "fs.delete" (path_arg drv_path) DEFAULT_TIMEOUT;;
                      noted ("deleted " +:+ drv_path)
                 else noted ("kept " +:+ drv_path +:+ " (no installer marker)"))
         (λ e, noted ("read-failed " +:+ drv_path +:+ ": " +:+ str (take 80 (txt (exn_text e)))));
  a3 ← try_else (exec "C:Dismount >NIL: COMBI: FORCE" 10000 15000)
         (λ _, noted "Dismount COMBI: FORCE issued")
         (λ e, noted ("dismount-failed: " +:+ str (take 80 (txt (exn_text e)))));
  says [("actions", JArr (map JStr (a1 ++ a2 ++ a3)))].

(** ** Extras and preferences *)

Definition EXTRAS : list (string * string * option string) :=
  [("Filer", "Utilities/Filer", Some "Utilities/Filer.info");
   ("Ranger", "Utilities/Ranger", Some "Utilities/Ranger.info");
   ("IBrowse", "Internet/IBrowse", Some "Internet/IBrowse.info");
   ("DiskImage", "", None)]%string.
Definition install_extra (extras_root : string) (x : string * string * option string) : MI (list json) :=
  let '(ex_name, dst_rel, icon_rel) := x in
  let dst := if bool_decide (dst_rel = ""%string) then dest else dest +:+ dst_rel +:+ "/" in
  let report l := mret [JObj (("extra", JStr ex_name) :: l)] in
  there ← worked (stat (extras_root +:+ ex_name));
  if negb there then report [("skipped", JStr "not on ISO")]
  else
    (if bool_decide (dst_rel = ""%string) then mret tt else amiga_makedir dst);;
    try_else (installer_copy_tree (extras_root +:+ ex_name +:+ "/") dst true true true true 300000)
      (λ _, quietly (exec ("Delete " +:+ quoted (dst +:+ "Install#?") +:+ " QUIET") 30000 35000);;
            (match icon_rel with
             | Some i => try_copy (extras_root +:+ ex_name +:+ ".info") (dest +:+ i)
             | None => mret tt
             end);;
            report [("copied_to", JStr dst)])
      (λ e, report [("error", clip 100 e)]).
(** [install_extras] *)
Definition install_extras : MI json :=
  iso ← iso_vol;
  results ← gather (install_extra (iso +:+ "Installation-Files/Extras/")) EXTRAS;
  says [("results", JArr results)].
(** [patch_amidock_prefs] *)
Definition patch_amidock_prefs : MI json :=
  let src := dest +:+ "tmp/AmiDock.amiga.com.xml" in
  let dst := dest +:+ "Prefs/Env-Archive/Sys/AmiDock.amiga.com.xml" in
  there ← worked (stat src);
  if negb there then skipped "AmiDock.amiga.com.xml not staged"
  else
    amiga_makedir (dest +:+ "Prefs/Env-Archive/Sys");;
    copy_clone src dst 30000 35000;;
    says [("action", JStr "installed"); ("from", JStr src); ("to", JStr dst)].

(** ** Networking *)

Definition NET_INTERFACE : option (string * text) :=
  if bool_decide (machine = "X5000"%string) then
    Some ("P50X0_ETH"%string, lines_text
      ["# DEVS:NetInterfaces/P50X0_ETH"; "# File generated by amiga-fleet-mcp installer";
       "device=p50x0_eth.device"; "unit=0"; "configure=dhcp"]%string)
  else if bool_decide (machine = "A1222"%string) then
    Some ("eth0"%string, lines_text
      ["# DEVS:NetInterfaces/eth0"; "# File generated by amiga-fleet-mcp installer";
       "device=A1222eth.device"; "hardwaretype=Ethernet"; "configure=dhcp"; "mtu=0"]%string)
  else None.
Definition NETWORK_STARTUP : text :=
  lines_text
    ["; $VER: Network-Startup 53.2 (01.06.2011)"; ""; "AddNetInterface QUIET DEVS:NetInterfaces/~(#?.info)";
     ""; "; Add below this line applications that need a running network"]%string.
(** The first icon source that is there and can be copied. *)
Fixpoint copy_first (srcs : list string) (dst : string) : MI (option string) :=
  match srcs with
  | [] => mret None
  | src :: srcs =>
      ok ← worked (stat src;; copy src dst);
      if ok : bool then mret (Some src) else copy_first srcs dst
  end.
Definition is_str (s : string) (j : json) : bool := if j is JStr x then bool_decide (x = s) else false.
(** The first icon of another interface that can be copied. *)
Fixpoint clone_icon (ni_dir ifname dst : string) (es : list json) : MI (option string) :=
  match es with
  | [] => mret None
  | e :: es =>
      ty ← lift (get_or "type" JNull e);
      if negb (is_str "file" ty) then clone_icon ni_dir ifname dst es
      else
        n ← lift (get_or "name" (JStr "") e);
        match n with
        | JStr name =>
            if negb (ends ".info" name) || bool_decide (name = (ifname +:+ ".info")%string)
            then clone_icon ni_dir ifname dst es
            else
              let src := ni_dir +:+ "/" +:+ name in
              ok ← worked (copy src dst);
              if ok : bool then mret (Some src) else clone_icon ni_dir ifname dst es
        | _ => raise (EPy AttributeError)
        end
  end.
Definition entries_of (listing : json) : res exn json :=
  match listing with
  | JArr _ => Ret listing
  | JObj _ => get_or "entries" (JArr []) listing
  | _ => Ret (JArr [])
  end.
Definition find_icon (ni_dir ifname dst : string) : MI (option string) :=
  try_else (listing ← request "fs.list" (path_arg ni_dir) DEFAULT_TIMEOUT;
            es ← lift (entries_of listing); l ← lift (py_iter es); clone_icon ni_dir ifname dst l)
    mret (λ _, mret None).
Definition opt_str (s : option string) : json := match s with Some s => JStr s | None => JNull end.
(** [install_network_config] *)
Definition install_network_config : MI json :=
  amiga_makedir (dest +:+ "S");;
  write_text (dest +:+ "S/Network-Startup") NETWORK_STARTUP 30000;;
  match NET_INTERFACE with
  | None =>
      says [("action", JStr "network-startup written; no NetInterface");
            ("reason", JStr ("no canonical NetInterface for " +:+ machine))]
  | Some (ifname, content) =>
      let ni_dir := dest +:+ "Devs/NetInterfaces" in
      let ni_path := ni_dir +:+ "/" +:+ ifname in
      let icon_dst := ni_path +:+ ".info" in
      amiga_makedir ni_dir;;
      write_text ni_path content 30000;;
      iso ← gets iso_volume;
      staged ← copy_first [dest +:+ "tmp/NetInterface.info";
                           default "" iso +:+ "Installation-Files/NetInterface.info"] icon_dst;
      from ← match staged with Some s => mret (Some s) | None => find_icon ni_dir ifname icon_dst end;
      says [("action", JStr "installed"); ("machine", JStr machine); ("interface", JStr ifname);
            ("interface_path", JStr ni_path); ("icon_copied_from", opt_str from)]
  end.

(** ** SerialShell and MCPd *)

(** The text of a startup file, empty when it cannot be read. *)
Definition existing_text (path : string) : MI text :=
  catch (raw ← request "fs.read" (path_arg path) DEFAULT_TIMEOUT; content_text raw)
        (λ e, if is_exception e then mret [] else raise e).
(** [if t and not t.endswith("\n"): t += "\n"] *)
Definition with_newline (t : text) : text :=
  if bool_decide (t = []) || endswith t_nl t then t else t ++ t_nl.
Definition SERIAL_MARKER : text := txt ";BEGIN SerialShell".
Definition serial_block : text :=
  lines_text
    [""; ";BEGIN SerialShell";
     "NewShell " +:+ quoted "CON:0/400/640/200/SerialShell/AUTO/CLOSE" +:+ " FROM S:SerialShell-Startup";
     ";END SerialShell"]%string.
(** [install_serialshell] *)
Definition install_serialshell : MI json :=
  let binary_src := dest +:+ "tmp/SerialShell" in
  let binary_dst := dest +:+ "C/SerialShell" in
  let user_startup := dest +:+ "S/User-Startup" in
  there ← worked (stat binary_src);
  if negb there then skipped "SerialShell binary not staged at tmp/"
  else
    amiga_makedir (dest +:+ "C");;
    copy_clone binary_src binary_dst 30000 35000;;
    protect_rwed binary_dst;;
    amiga_makedir (dest +:+ "S");;
    write_text (dest +:+ "S/SerialShell-Startup") (line "C:SerialShell") 30000;;
    mtime ← capture_mtime user_startup;
    existing ← existing_text user_startup;
    if contains SERIAL_MARKER existing then
      says [("action", JStr "binary copied; User-Startup unchanged"); ("binary", JStr binary_dst);
            ("marker_already_present", JBool true)]
    else
      write_text user_startup (with_newline existing ++ serial_block) 30000;;
      restore_mtime user_startup mtime;;
      says [("action", JStr "installed"); ("binary", JStr binary_dst); ("user_startup", JStr user_startup)].
Definition MCPD_MARKER : string := "SYS:System/MCPd/MCPd".
Definition mcpd_lines : text :=
  lines_text [""; "; MCPd - Model Context Protocol daemon"; "Run >NIL: <NIL: " +:+ MCPD_MARKER]%string.
Definition install_helper (helper : string) : MI (list string) :=
  let hsrc := dest +:+ "tmp/" +:+ helper in
  let hdst := dest +:+ "System/MCPd/" +:+ helper in
  there ← worked (stat hsrc);
  if negb there then mret []
  else copy_clone hsrc hdst 30000 35000;; protect_rwed hdst;; mret [hdst].
(** The backup of Network-Startup: whether one was made, and the text the new
    line is appended to. *)
Definition backup_once (path backup : string) (existing : text) : MI (bool * text) :=
  there ← worked (stat backup);
  if there : bool then mret (false, existing)
  else
    ok ← worked (copy path backup);
    mret (if ok : bool then (true, existing) else (false, [])).
(** [install_mcpd] *)
Definition install_mcpd : MI json :=
  let binary_src := dest +:+ "tmp/MCPd" in
  let binary_dst := dest +:+ "System/MCPd/MCPd" in
  let netstart := dest +:+ "S/Network-Startup" in
  let backup := netstart +:+ ".before-mcpd" in
  there ← worked (stat binary_src);
  if negb there then skipped "MCPd binary not staged at tmp/MCPd"
  else
    amiga_makedir (dest +:+ "System/MCPd");;
    copy_clone binary_src binary_dst 60000 70000;;
    protect_rwed binary_dst;;
    helpers ← gather install_helper ["MCPd-Enable-Input"; "MCPd-Disable-Input"]%string;
    mtime ← capture_mtime netstart;
    existing ← existing_text netstart;
    if contains (txt MCPD_MARKER) existing then
      says [("action", JStr "binary copied; Network-Startup unchanged"); ("binary", JStr binary_dst);
            ("input_helpers", JArr (map JStr helpers)); ("marker_already_present", JBool true)]
    else
      b ← backup_once netstart backup existing;
      write_text netstart (with_newline b.2 ++ mcpd_lines) 60000;;
      restore_mtime netstart mtime;;
      says [("action", JStr "installed"); ("binary", JStr binary_dst);
            ("input_helpers", JArr (map JStr helpers)); ("network_startup", JStr netstart);
            ("backed_up_to", if (b.1 : bool) then JStr backup else JNull)].

(** ** Quarantines and tidying up *)

Definition dir_entries (listing : json) : MI json :=
  match listing with
  | JArr _ => mret listing
  | _ => l ← lift (or_dict listing); lift (get_or "entries" (JArr []) l)
  end.
(** One entry: what it adds to [moved] and to [errors]. *)
Definition move_entry (src_dir dst_dir : string) (entry : json) : MI (list json * list json) :=
  name ← lift (get_or "name" (JStr "") entry);
  if negb (json_truth name) then mret ([], [])
  else
    let src_path := src_dir +:+ "/" +:+ str (py_str repr name) in
    let dst_path := dst_dir +:+ "/" +:+ str (py_str repr name) in
    try_else (rename src_path dst_path) (λ _, mret ([name], []))
      (λ _, try_else (copy src_path dst_path;; delete src_path true) (λ _, mret ([name], []))
              (λ e, mret ([], [JObj [("name", name); ("error", clip 200 e)]]))).
Fixpoint move_entries (src_dir dst_dir : string) (es : list json) : MI (list json * list json) :=
  match es with
  | [] => mret ([], [])
  | e :: es => a ← move_entry src_dir dst_dir e; b ← move_entries src_dir dst_dir es;
               mret (a.1 ++ b.1, a.2 ++ b.2)
  end.
(** [quarantine_devs_monitors] *)
Definition quarantine_devs_monitors : MI json :=
  let src_dir := dest +:+ "DEVS/Monitors" in
  let dst_dir := dest +:+ "Storage/Monitors" in
  listing ← try_else (request "fs.list" (path_arg src_dir) DEFAULT_TIMEOUT)
              (λ l, mret (Some l)) (λ _, mret None);
  match listing with
  | None => skipped "DEVS:Monitors not present"
  | Some listing =>
      entries ← dir_entries listing;
      if negb (json_truth entries) then skipped "DEVS:Monitors is already empty"
      else
        amiga_makedir dst_dir;;
        es ← lift (py_iter entries);
        r ← move_entries src_dir dst_dir es;
        says [("action", JStr "moved"); ("from", JStr src_dir); ("to", JStr dst_dir);
              ("moved", JArr r.1); ("errors", JArr r.2)]
  end.
(** [quarantine_emu10kx] *)
Definition quarantine_emu10kx : MI json :=
  let src_path := dest +:+ "DEVS/AHI/emu10kx.audio" in
  let dst_path := dest +:+ "Storage/AHI/emu10kx.audio" in
  let report action l :=
    says (("action", JStr action) :: ("from", JStr src_path) :: ("to", JStr dst_path) :: l) in
  there ← worked (stat src_path);
  if negb there then skipped "DEVS:AHI/emu10kx.audio not present"
  else
    amiga_makedir (dest +:+ "Storage/AHI");;
    try_else (rename src_path dst_path) (λ _, report "moved"%string [])
      (λ e : exn, try_else (copy src_path dst_path;; delete src_path false)
              (λ _, report "moved (copy+delete)"%string [])
              (λ e2, report "failed"%string
                 [("error", JStr ("rename: " +:+ exn_text e +:+ "; copy+delete: " +:+ exn_text e2))])).
Record tidy := Tidy { t_deleted : list string; t_skipped : list string; t_errors : list json }.
Definition tidy_app (a b : tidy) : tidy :=
  Tidy (t_deleted a ++ t_deleted b) (t_skipped a ++ t_skipped b) (t_errors a ++ t_errors b).
Definition tidy_delete (p : string) (rec : bool) : MI tidy :=
  try_else (delete p rec) (λ _, mret (Tidy [p] [] []))
    (λ e, mret (Tidy [] [] [JObj [("path", JStr p); ("error", clip 200 e)]])).
(** [cleanup_tmp] *)
Definition cleanup_tmp : MI json :=
  let scratch := dest +:+ "tmp/scratch" in
  there ← worked (stat scratch);
  a ← (if there : bool then tidy_delete scratch true
       else mret (Tidy [] [scratch +:+ " (not present)"] []));
  x ← gets extracted;
  b ← (if x : bool then tidy_delete (dest +:+ "tmp/" +:+ iso_filename) false
       else mret (Tidy [] ["iso file (was uploaded directly, kept)"%string] []));
  let out := tidy_app a b in
  says [("deleted", JArr (map JStr (t_deleted out))); ("skipped", JArr (map JStr (t_skipped out)));
        ("errors", JArr (t_errors out))].
End post.
