(* ===== verification/Install.v ===== *)
(** * Running an installation: [installer/sequences/] and [installer_run]

    The machines' configurations, the sequence built for one, the runner, and
    the tool that runs it. *)
From S2P Require Import Prelude Py Bytes Kicklayout Amiga Steps PostInstall Machines.

(** ** [_machine_config.py] *)

Definition config_named (m : string) (sig kick wb eth : option string) (skip ngf : bool)
    (reps : list replace_patch) (emu monitors : bool) : machine_config :=
  Machine m sig kick wb eth skip ngf true reps "amigaboot.of" emu monitors.
Definition X5000_CONFIG : machine_config :=
  config_named "X5000" (Some "AmigaOS-X5000"%string) (Some "KickstartX5000"%string)
    (Some "WorkbenchX5000"%string) (Some "p50x0_eth.device"%string) true true
    [ReplacePatch (txt "p5020sata.device.kmod") (txt "p50x0sata.device.kmod")] true true.
Definition PEGASOS2_CONFIG : machine_config :=
  config_named "PegasosII" (Some "AmigaOS-Pegasos2"%string) (Some "KickstartPeg2"%string) None None
    false false [] false false.
Definition AMIGAONE_CONFIG : machine_config :=
  config_named "AmigaOne" (Some "AmigaOS-AmigaOne"%string) (Some "KickstartA1"%string)
    (Some "WorkbenchA1"%string) None false false [] false false.
Definition SAM460_CONFIG : machine_config :=
  config_named "Sam460" None (Some "KickstartSam460"%string) None None false false [] false false.
Definition A1222_CONFIG : machine_config :=
  config_named "A1222" (Some "AmigaOS-A1222"%string) (Some "KickstartA1222"%string) None
    (Some "A1222eth.device"%string) true false [] false false.
(** [_SEQUENCE_BUILDERS], by the configuration each builds from. *)
Definition SEQUENCE_BUILDERS : list (string * machine_config) :=
  [("X5000", X5000_CONFIG); ("PegasosII", PEGASOS2_CONFIG); ("AmigaOne", AMIGAONE_CONFIG);
   ("Sam460", SAM460_CONFIG); ("A1222", A1222_CONFIG)]%string.

(** ** The runner: [_runner.py] *)

Inductive step_status := Done (output : json) | Failed (e : exn) | Planned.
Record step_result := StepResult { sr_name : string; sr_status : step_status; sr_duration : Z }.
Inductive verdict := AllOk | SomeFailed | OnlyPlanned.
Record sequence_result := SequenceResult {
  seq_machine : string; overall : verdict; total_duration : Z;
  results : list step_result; failed_step : option string; was_dry_run : bool }.

Section install.
Context {E : Type} `{Amiga E}.
Abbreviation MI := (M (inst E) exn).

Record step := Step { step_name : string; step_fn : MI json }.
(** [SequenceRunner.run]: the loop, with the results so far and the step that
    failed. *)
Fixpoint run_steps (ss : list step) : MI (list step_result * option string) :=
  match ss with
  | [] => mret ([], None)
  | s :: ss =>
      t0 ← clock;
      st ← catch (o ← step_fn s; mret (Done o)) (λ e, if is_exception e then mret (Failed e) else raise e);
      t1 ← clock;
      let r := StepResult (step_name s) st (t1 - t0) in
      match st with
      | Failed _ => mret ([r], Some (step_name s))
      | _ => rest ← run_steps ss; mret (r :: rest.1, rest.2)
      end
  end.
Definition planned (ss : list step) : list step_result := map (λ s, StepResult (step_name s) Planned 0) ss.
Definition run_sequence (machine : string) (ss : list step) (dry_run : bool) : MI sequence_result :=
  if dry_run then mret (SequenceResult machine OnlyPlanned 0 (planned ss) None true)
  else
    t0 ← clock;
    r ← run_steps ss;
    t1 ← clock;
    mret (SequenceResult machine (if r.2 is Some _ then SomeFailed else AllOk) (t1 - t0) r.1 r.2 false).

(** ** The sequence: [_generic.py] *)

Section sequence.
Context (fuel : nat) (target dest iso_filename : string) (c : machine_config).
(** The steps up to and including the check of the install CD. *)
Definition opening_steps : list step :=
  [Step "stage_diskimage_tools" stage_diskimage_tools;
   Step "extract_iso_lha" (extract_iso_lha dest iso_filename);
   Step "mount_iso" (mount_iso fuel target dest iso_filename);
   Step "verify_cd_signature" (verify_cd_signature c)].
Definition update_step (n : Z) : step := Step ("apply_update_" +:+ num n) (apply_one_update dest c n).
Definition when (b : bool) (s : step) : list step := if b then [s] else [].
Definition installing_steps : list step :=
  [Step "copy_base_os" (copy_base_os dest);
   Step "copy_installation_extras" (copy_installation_extras dest);
   Step "install_bootloader" (install_bootloader dest c)] ++
  map update_step (updates_of (machine_id c)) ++
  when (needs_enhancer c) (Step "install_enhancer" (install_enhancer dest c)) ++
  when (needs_ngf c) (Step "install_ngf" (install_ngf dest)) ++
  [Step "install_extras" (install_extras dest);
   Step "patch_amidock_prefs" (patch_amidock_prefs dest);
   Step "install_network_config" (install_network_config dest (machine_id c));
   Step "install_serialshell" (install_serialshell dest)] ++
  when (quarantines_emu10kx c) (Step "quarantine_emu10kx" (quarantine_emu10kx dest)) ++
  when (quarantines_monitors c) (Step "quarantine_devs_monitors" (quarantine_devs_monitors dest)) ++
  [Step "install_mcpd" (install_mcpd dest);
   Step "unmount_iso" (unmount_iso target);
   Step "dismount_combi_device" dismount_combi_device;
   Step "cleanup_tmp" (cleanup_tmp dest iso_filename)].
(** [build_sequence] *)
Definition build_sequence : list step := opening_steps ++ installing_steps.
End sequence.

(** ** [installer_run] *)

(** [_resolve_sequence_machine] *)
Definition resolve_sequence_machine (machine : string) : res exn (string * machine_config) :=
  match resolve_machine_alias machine with
  | None => Raise (ERpc InvalidParams None)
  | Some m =>
      match assoc m SEQUENCE_BUILDERS with
      | Some c => Ret (m, c)
      | None => Raise (ERpc InvalidParams (Some (JObj [("machine", JStr m);
                  ("implemented", JArr (map (λ x, JStr x.1) SEQUENCE_BUILDERS))])))
      end
  end.
(** The ISO a scan leaves no doubt about; [installer_stage] picks it the same way. *)
Definition pick_iso (s : scan) (m : string) : res exn string :=
  let candidates := default [] (assoc m (iso_files s)) in
  let lha_candidates := default [] (assoc m (iso_lha_files s)) in
  match candidates, lha_candidates with
  | [i], _ => Ret i
  | _, [l] => Ret (drop_last 4 l)
  | _, _ => Raise (ERpc InvalidParams (Some (JObj
              [("iso_candidates", JArr (map JStr candidates));
               ("iso_lha_candidates", JArr (map JStr lha_candidates))])))
  end.
(** The ISO to install from: given, or the one of [sources_dir], whose listing
    is [listing sources_dir]. *)
Definition chosen_iso (listing : string → option folder) (iso sources_dir : option string) (m : string)
    : res exn string :=
  match iso with
  | Some i => Ret i
  | None =>
      match truthy_str sources_dir with
      | None => Raise (ERpc InvalidParams None)
      | Some d => pick_iso (scan_sources (listing d)) m
      end
  end.
Definition new_ctx : MI unit := modify (λ w, Inst None false (asked w) (machine_env w)).
Definition installer_run (fuel : nat) (listing : string → option folder) (target dest_volume machine : string)
    (iso sources_dir : option string) (dry_run confirm : bool) : MI sequence_result :=
  mc ← lift (resolve_sequence_machine machine);
  i ← lift (chosen_iso listing iso sources_dir mc.1);
  if negb dry_run && negb confirm then raise (ERpc InvalidParams None)
  else
    now_mcpd;;
    new_ctx;;
    run_sequence (machine_id mc.2) (build_sequence fuel target (normalize_volume dest_volume) i mc.2) dry_run.
(** [installer_install_x5000] *)
Definition installer_install_x5000 (fuel : nat) (listing : string → option folder)
    (target dest_volume : string) (iso sources_dir : option string) (dry_run confirm : bool)
    : MI sequence_result :=
  installer_run fuel listing target dest_volume "X5000" iso sources_dir dry_run confirm.
End install.
Arguments step : clear implicits.
Arguments Step {E}. Arguments step_name {E}. Arguments step_fn {E}.
