(* ===== verification/Containment.v ===== *)
(** * Where an installation may write

    Every request an install sequence can send, on any answer of the target,
    stays inside the destination volume, apart from the mountfile and the unit
    of the install ISO; the steps before the install CD is recognised touch
    nothing of the destination outside its [tmp/] drawer. *)
From S2P Require Import Prelude Py Bytes Kicklayout Amiga Steps PostInstall Machines Install.

(** ** Policies on the requests sent *)

Definition policy := string → json → Prop.
(** [w'] is [w] with more exchanges, each with a request of [P]. *)
Definition adds {E} (P : policy) (w w' : inst E) : Prop :=
  ∃ l, asked w' = asked w ++ l ∧ Forall (λ x, P x.1.1 x.1.2) l.
#[export] Instance adds_preorder {E} P : PreOrder (adds (E:=E) P).
Proof.
  split.
  - intros w. exists []. by rewrite app_nil_r.
  - intros w1 w2 w3 (l1 & H1 & F1) (l2 & H2 & F2). exists (l1 ++ l2).
    rewrite H2, H1, app_assoc. split; [done|]. by apply Forall_app.
Qed.
Lemma adds_mono {E} (P Q : policy) (w w' : inst E) :
  (∀ m j, P m j → Q m j) → adds P w w' → adds Q w w'.
Proof. intros HPQ (l & Hl & HP). exists l. split; [done|]. eapply Forall_impl; [exact HP|]. simpl. auto. Qed.
Abbreviation sends P := (respects (X:=exn) (adds P)).

(** What a call can return. *)
Definition yields {W X A} (Q : A → Prop) (m : M W X A) : Prop := ∀ w a, (m w).1 = Ret a → Q a.
Lemma yields_ret {W X A} (Q : A → Prop) a : Q a → yields Q (mret a : M W X A).
Proof. by intros Ha w a' [= <-]. Qed.
Lemma yields_bind {W X A B} (Q : B → Prop) (m : M W X A) k : (∀ a, yields Q (k a)) → yields Q (m ≫= k).
Proof. intros Hk w b. unfold mbind, M_bind. destruct (m w) as [[a|x|] w']; simpl; [apply Hk|done|done]. Qed.
Lemma yields_bind_of {W X A B} (Q : A → Prop) (R : B → Prop) (m : M W X A) k :
  yields Q m → (∀ a, Q a → yields R (k a)) → yields R (m ≫= k).
Proof.
  intros Hm Hk w b. specialize (Hm w). unfold mbind, M_bind. destruct (m w) as [[a|x|] w']; simpl in *; [|done|done].
  apply Hk. by apply Hm.
Qed.
Lemma respects_bind_yields {W X A B} (R : relation W) `{!PreOrder R} (Q : A → Prop) (m : M W X A) (k : A → M W X B) :
  respects R m → yields Q m → (∀ a, Q a → respects R (k a)) → respects R (m ≫= k).
Proof.
  intros Hm HQ Hk w. specialize (Hm w). specialize (HQ w). unfold mbind, M_bind.
  destruct (m w) as [[a|x|] w']; simpl in *; [|done|done]. etrans; [done|]. apply Hk. by apply HQ.
Qed.

Create HintDb sends discriminated.
Section sends.
Context {E : Type} `{Amiga E} (P : policy).
Lemma sends_request m j t : P m j → sends P (request m j t).
Proof.
  intros HP w. unfold request. destruct (daemon m j t (machine_env w)) as [r e]. simpl.
  exists [(m, j, r)]. by rewrite Forall_singleton.
Qed.
Lemma sends_on_env {A} (m : M E exn A) : sends P (on_env m).
Proof. intros w. unfold on_env. destruct (m (machine_env w)). exists []. by rewrite app_nil_r. Qed.
Lemma sends_modify (f : inst E → inst E) : (∀ w, asked (f w) = asked w) → sends P (modify f).
Proof. intros Hf w. exists []. simpl. by rewrite Hf, app_nil_r. Qed.
Lemma sends_worked {A} (m : M (inst E) exn A) : sends P m → sends P (worked m).
Proof. intros Hm. unfold worked. by respects_tac. Qed.
Lemma sends_quietly {A} (m : M (inst E) exn A) : sends P m → sends P (quietly m).
Proof. intros Hm. pose proof (sends_worked m Hm). unfold quietly. by respects_tac. Qed.
Lemma sends_or_else (m f : M (inst E) exn unit) : sends P m → sends P f → sends P (or_else m f).
Proof. intros Hm Hf. unfold or_else. by respects_tac. Qed.
Lemma sends_try_else {A B} (m : M (inst E) exn A) (k : A → M (inst E) exn B) f :
  sends P m → (∀ a, sends P (k a)) → (∀ e, sends P (f e)) → sends P (try_else m k f).
Proof. intros Hm Hk Hf. unfold try_else. by respects_tac. Qed.
Lemma sends_for_each {A} (f : A → M (inst E) exn unit) l : (∀ x, sends P (f x)) → sends P (for_each f l).
Proof. intros Hf. induction l; simpl; by respects_tac. Qed.
Lemma sends_gather {A B} (f : A → M (inst E) exn (list B)) l : (∀ x, sends P (f x)) → sends P (gather f l).
Proof. intros Hf. induction l; simpl; by respects_tac. Qed.
Lemma sends_reads_clock : sends P (clock (E:=E)).
Proof. apply (respects_gets _). Qed.
Lemma sends_content_text j : sends P (content_text (E:=E) j).
Proof. unfold content_text. respects_tac. Qed.
Lemma sends_ran t j : sends P (ran t j).
Proof. unfold ran, clock. respects_tac. Qed.
Lemma sends_confirm b : sends P (require_confirm (E:=E) b).
Proof. unfold require_confirm. respects_tac. Qed.
Lemma sends_iso_vol : sends P (iso_vol (E:=E)).
Proof. unfold iso_vol. respects_tac. Qed.
Lemma sends_set_iso v : sends P (set_iso_volume (E:=E) v).
Proof. by apply sends_modify. Qed.
Lemma sends_set_extracted : sends P (set_extracted (E:=E)).
Proof. by apply sends_modify. Qed.
Lemma sends_dir_entries j : sends P (dir_entries (E:=E) j).
Proof. unfold dir_entries. respects_tac. Qed.
Lemma sends_says l : sends P (says (E:=E) l).
Proof. apply (respects_ret _). Qed.
Lemma sends_skipped r : sends P (skipped (E:=E) r).
Proof. apply (respects_ret _). Qed.
Lemma sends_noted r : sends P (noted (E:=E) r).
Proof. apply (respects_ret _). Qed.
Lemma sends_runtime_error {A} : sends P (runtime_error (E:=E) (A:=A)).
Proof. apply (respects_raise _). Qed.
End sends.
#[export] Hint Resolve sends_on_env sends_worked sends_quietly sends_or_else sends_try_else
  sends_for_each sends_gather sends_reads_clock sends_content_text sends_ran sends_confirm sends_iso_vol
  sends_set_iso sends_set_extracted sends_dir_entries
  sends_says sends_skipped sends_noted sends_runtime_error : sends.
Ltac sends_step :=
  lazymatch goal with
  | |- respects _ (worked _) => apply sends_worked
  | |- respects _ (quietly _) => apply sends_quietly
  | |- respects _ (or_else _ _) => apply sends_or_else
  | |- respects _ (try_else _ _ _) => apply sends_try_else
  | |- respects _ (for_each _ _) => apply sends_for_each
  | |- respects _ (gather _ _) => apply sends_gather
  | |- ∀ _, _ => intros ?
  end.
Ltac sends_tac :=
  repeat (cbv zeta beta; first [respects_step | sends_step | solve [eauto 6 with sends]]).

(** ** What is allowed *)

Section policies.
Context (dest : string).
(** A path that begins with the destination volume. *)
Definition under (p : string) : Prop := ∃ s, p = dest +:+ s.
(** ... or with its [tmp/] drawer. *)
Definition under_tmp (p : string) : Prop := ∃ s, p = dest +:+ "tmp" +:+ s.

(** Requests that change nothing. *)
Inductive reading : policy :=
| R_stat p : reading "fs.stat" (path_arg p)
| R_read p : reading "fs.read" (path_arg p)
| R_list p : reading "fs.list" (path_arg p).
(** Putting up the device of the install ISO and taking it down. *)
Inductive mounting : policy :=
| M_eject ms : mounting "exec.cmd" (cmd_arg ("C:MountDiskImage U=" +:+ num COMBI_UNIT +:+ " EJECT") ms)
| M_insert p ms : under p →
    mounting "exec.cmd" (cmd_arg ("C:MountDiskImage U=" +:+ num COMBI_UNIT +:+ " INSERT=" +:+ quoted p) ms)
| M_mount ms : mounting "exec.cmd" (cmd_arg ("Mount " +:+ quoted drv_path) ms)
| M_dismount ms : mounting "exec.cmd" (cmd_arg "C:Dismount >NIL: COMBI: FORCE" ms)
| M_write : mounting "fs.write" (write_arg drv_path mountfile)
| M_drawer : mounting "fs.makedir" (path_arg "DEVS:DOSDrivers")
| M_drawer_all ms : mounting "exec.cmd" (cmd_arg ("MakeDir " +:+ quoted "DEVS:DOSDrivers" +:+ " ALL") ms)
| M_delete : mounting "fs.delete" (path_arg drv_path).
(** Unpacking an archive of [tmp/] into [tmp/]. *)
Inductive unpacking : policy :=
| U_lha a d ms : under_tmp a → under_tmp d →
    unpacking "exec.cmd" (cmd_arg ("LhA >NIL: x " +:+ quoted a +:+ " " +:+ quoted d) ms).
(** AmigaDOS commands on one path of the destination. *)
Definition one_path_commands : list (string * string) :=
  [("MakeDir ", " ALL"); ("Protect ", " +rwed"); ("Protect ", " +rwed ALL QUIET");
   ("Delete *>NIL: ", ""); ("Delete *>NIL: QUIET ", ""); ("Delete ", " QUIET")]%string.
Inductive changing : policy :=
| W_write p t : under p → changing "fs.write" (write_arg p t)
| W_copy s d : under d → changing "fs.copy" (src_dst s d)
| W_rename s d : under s → under d → changing "fs.rename" (src_dst s d)
| W_makedir p : under p → changing "fs.makedir" (path_arg p)
| W_delete p b : under p → changing "fs.delete" (JObj [("path", JStr p); ("recursive", JBool b)])
| W_command v r p ms : (v, r) ∈ one_path_commands → under p →
    changing "exec.cmd" (cmd_arg (v +:+ quoted p +:+ r) ms)
| W_setdate p d ms : under p → changing "exec.cmd" (cmd_arg ("SetDate " +:+ quoted p +:+ " " +:+ d) ms)
| W_tree s d flags ms : under d →
    flags ∈ [" ALL CLONE QUIET"; " CLONE"]%string →
    changing "exec.cmd" (cmd_arg ("Copy " +:+ quoted s +:+ " " +:+ quoted d +:+ flags) ms)
| W_move s d ms : under s → under d →
    changing "exec.cmd" (cmd_arg ("Rename *>NIL: " +:+ quoted s +:+ " " +:+ quoted d) ms)
| W_link l t ms : under l →
    changing "exec.cmd" (cmd_arg ("MakeLink *>NIL: " +:+ quoted l +:+ " " +:+ t +:+ " SOFT FORCE") ms).
(** What the opening of a sequence may send, and what the whole of it may. *)
Definition preparing : policy := λ m j, reading m j ∨ mounting m j ∨ unpacking m j.
Definition allowed : policy := λ m j, preparing m j ∨ changing m j.

Lemma under_here s : under (dest +:+ s).
Proof. by exists s. Qed.
Lemma under_dest : under dest.
Proof. exists ""%string. by rewrite string_app_nil_r. Qed.
Lemma under_app p s : under p → under (p +:+ s).
Proof. intros [x ->]. exists (x +:+ s). by rewrite string_app_assoc. Qed.
End policies.

(** ** The destination's own paths *)

Lemma dropwhile_app_stop {A} (f : A → bool) l c k :
  f c = false → ∃ l', dropwhile f (l ++ c :: k) = l' ++ c :: k.
Proof.
  intros Hc. induction l as [|x l IH]; simpl.
  - exists []. by rewrite Hc.
  - destruct (f x); [done|]. by exists (x :: l).
Qed.
(** Removing a trailing slash stays within the volume. *)
Lemma rstrip_slash_under v s : under (v +:+ ":") (rstrip_slash ((v +:+ ":") +:+ s)).
Proof.
  unfold rstrip_slash, rstrip_of, under. rewrite !txt_app, !reverse_app.
  change (reverse (txt ":")) with [":"%char]. simpl.
  destruct (dropwhile_app_stop (λ c, bool_decide (c = "/"%char)) (reverse (txt s)) ":"%char (reverse (txt v)))
    as [l' ->]; [done|].
  exists (str (reverse l')). apply (inj txt). rewrite !txt_app, !txt_str.
  by rewrite reverse_app, reverse_cons, reverse_involutive.
Qed.
Lemma normalize_volume_colon vol : ∃ v, normalize_volume vol = v +:+ ":".
Proof.
  unfold normalize_volume. set (t := if endswith (txt "/") (strip (txt vol)) then _ else _). clearbody t.
  destruct (endswith (txt ":") t) eqn:Ht; [|exists (str t); apply (inj txt); by rewrite txt_app, !txt_str].
  unfold endswith in Ht. change (reverse (txt ":")) with [":"%char] in Ht.
  destruct (reverse t) as [|c l] eqn:Hr; [done|]. simpl in Ht.
  rewrite andb_true_r in Ht. apply bool_decide_eq_true in Ht as <-.
  exists (str (reverse l)). apply (inj txt). rewrite txt_app, !txt_str.
  by rewrite <-(reverse_involutive t), Hr, reverse_cons.
Qed.
(** Normalising a volume name twice is normalising it once. *)
Definition starts_solid (t : text) : Prop := match t with c :: _ => is_space c = false | [] => True end.
Lemma starts_solid_dropwhile t : starts_solid (dropwhile is_space t).
Proof. induction t as [|c t IH]; simpl; [done|]. destruct (is_space c) eqn:Hc; [done|]. by simpl. Qed.
Lemma starts_solid_app a b : starts_solid (a ++ b) → starts_solid a.
Proof. by destruct a. Qed.
Lemma rstrip_of_prefix f (t : text) : ∃ b, t = rstrip_of f t ++ b.
Proof.
  unfold rstrip_of. assert (∃ b, reverse t = b ++ dropwhile f (reverse t)) as [b Hb].
  { induction (reverse t) as [|c l [b IH]]; simpl; [by exists []|].
    destruct (f c); [|by exists []]. exists (c :: b). simpl. by f_equal. }
  exists (reverse b). rewrite <-reverse_app, <-Hb. by rewrite reverse_involutive.
Qed.
Lemma starts_solid_strip t : starts_solid (strip t).
Proof.
  unfold strip, lstrip, rstrip. destruct (rstrip_of_prefix is_space (dropwhile is_space t)) as [b Hb].
  pose proof (starts_solid_dropwhile t) as Hs. rewrite Hb in Hs. by apply starts_solid_app in Hs.
Qed.
Lemma strip_solid t : starts_solid t → strip (t ++ txt ":") = t ++ txt ":".
Proof.
  intros Ht. assert (dropwhile is_space (t ++ txt ":") = t ++ txt ":") as Hl
    by (destruct t; simpl in *; [done|by rewrite Ht]).
  unfold strip, lstrip, rstrip, rstrip_of. rewrite Hl, reverse_app. simpl.
  change (reverse (txt ":")) with [":"%char]. simpl. by rewrite reverse_cons, reverse_involutive.
Qed.
Lemma endswith_app p t : endswith p (t ++ p) = true.
Proof.
  unfold endswith. rewrite reverse_app. generalize (reverse t). induction (reverse p) as [|c l IH]; intros k; simpl; [done|].
  by rewrite bool_decide_true, IH.
Qed.
Lemma normalize_volume_solid vol : ∃ t, starts_solid t ∧ txt (normalize_volume vol) = t ++ txt ":".
Proof.
  destruct (normalize_volume_colon vol) as [v Hv]. exists (txt v). rewrite Hv, txt_app. split; [|done].
  apply (f_equal txt) in Hv. rewrite txt_app in Hv. unfold normalize_volume in Hv. rewrite txt_str in Hv.
  set (s := strip (txt vol)) in *. pose proof (starts_solid_strip (txt vol)) as Hs. fold s in Hs.
  set (t := if endswith (txt "/") s then _ else _) in *.
  assert (starts_solid t) as Ht.
  { unfold t. destruct (endswith _ _); [|done].
    apply (starts_solid_app _ (drop (length s - 1) s)). by rewrite take_drop. }
  destruct (endswith (txt ":") t).
  - rewrite Hv in Ht. by apply starts_solid_app in Ht.
  - apply app_inj_tail in Hv as [-> _]. done.
Qed.
Lemma normalize_volume_idem vol : normalize_volume (normalize_volume vol) = normalize_volume vol.
Proof.
  destruct (normalize_volume_solid vol) as (t & Ht & Hn).
  unfold normalize_volume at 1. rewrite Hn, strip_solid by done.
  replace (endswith (txt "/") (t ++ txt ":")) with false; [|].
  - rewrite endswith_app. apply (inj txt). by rewrite txt_str.
  - unfold endswith. by rewrite reverse_app.
Qed.

(** ** The primitives stay inside the destination *)

#[local] Hint Resolve under_here under_dest under_app : sends.
Section contained.
Context {E : Type} `{Amiga E} (vol : string).
Abbreviation dest := (normalize_volume vol).
Abbreviation allowed := (allowed dest).
Abbreviation under := (under dest).

Lemma under_rstrip p : under p → under (rstrip_slash p).
Proof.
  intros [s ->]. destruct (normalize_volume_colon vol) as [v ->]. apply rstrip_slash_under.
Qed.
Abbreviation preparing := (preparing dest).
Lemma sends_prepared {A} (m : M (inst E) exn A) : sends preparing m → sends allowed m.
Proof. intros Hm w. eapply adds_mono; [|apply Hm]. by left. Qed.
Lemma prepares_reading m j t : reading m j → sends preparing (request m j t).
Proof. intros Hr. apply sends_request. by left. Qed.
Lemma prepares_mounting m j t : mounting dest m j → sends preparing (request m j t).
Proof. intros Hr. apply sends_request. right. by left. Qed.
Lemma sends_reading m j t : reading m j → sends allowed (request m j t).
Proof. intros. by apply sends_prepared, prepares_reading. Qed.
Lemma sends_mounting m j t : mounting dest m j → sends allowed (request m j t).
Proof. intros. by apply sends_prepared, prepares_mounting. Qed.
Lemma sends_changing m j t : changing dest m j → sends allowed (request m j t).
Proof. intros Hr. apply sends_request. by right. Qed.
Lemma prepares_stat p : sends preparing (stat p).
Proof. apply prepares_reading. constructor. Qed.
Lemma prepares_read p t : sends preparing (request "fs.read" (path_arg p) t).
Proof. apply prepares_reading. constructor. Qed.
Lemma allows_stat p : sends allowed (stat p).
Proof. apply sends_reading. constructor. Qed.
Lemma sends_read p t : sends allowed (request "fs.read" (path_arg p) t).
Proof. apply sends_reading. constructor. Qed.
Lemma sends_list p t : sends allowed (request "fs.list" (path_arg p) t).
Proof. apply sends_reading. constructor. Qed.
Lemma sends_copy s d : under d → sends allowed (copy s d).
Proof. intros. apply sends_changing. by constructor. Qed.
Lemma sends_command v r p ms t :
  (v, r) ∈ one_path_commands → under p → sends allowed (exec (v +:+ quoted p +:+ r) ms t).
Proof. intros. apply sends_changing. by constructor. Qed.
Lemma sends_delete_command v p ms t :
  (v, ""%string) ∈ one_path_commands → under p → sends allowed (exec (v +:+ quoted p) ms t).
Proof. intros. rewrite <-(string_app_nil_r (quoted p)). by apply sends_command. Qed.
Lemma sends_makedir p : under p → sends allowed (amiga_makedir p).
Proof.
  intros Hp%under_rstrip. unfold amiga_makedir. pose proof (allows_stat (rstrip_slash p)).
  assert (sends allowed (request "fs.makedir" (path_arg (rstrip_slash p)) DEFAULT_TIMEOUT))
    by (apply sends_changing; by constructor).
  assert (sends allowed (exec ("MakeDir " +:+ quoted (rstrip_slash p) +:+ " ALL") 30000 35000))
    by (apply sends_command; [unfold one_path_commands; set_solver|done]).
  cbv zeta. respects_tac; by eauto with sends.
Qed.
Lemma sends_copy_tree s d confirm t : under d → sends allowed (installer_copy_tree s d true true true confirm t).
Proof.
  intros Hd. unfold installer_copy_tree, now_mcpd.
  assert (∀ ms u, sends allowed (exec ("Copy " +:+ quoted s +:+ " " +:+ quoted d +:+ " ALL CLONE QUIET") ms u)).
  { intros. apply sends_changing. constructor; [done|set_solver]. }
  respects_tac; by eauto with sends.
Qed.
Lemma prepares_apply_lha a d confirm t :
  under_tmp dest a → under_tmp dest (with_slash d) → sends preparing (installer_apply_lha a d confirm t).
Proof.
  intros Ha Hd. unfold installer_apply_lha, now_mcpd.
  assert (∀ ms u, sends preparing (exec ("LhA >NIL: x " +:+ quoted a +:+ " " +:+ quoted (with_slash d)) ms u))
    by (intros; apply sends_request; right; right; by constructor).
  respects_tac; by eauto with sends.
Qed.
Lemma sends_apply_lha a d confirm t :
  under_tmp dest a → under_tmp dest (with_slash d) → sends allowed (installer_apply_lha a d confirm t).
Proof. intros. by apply sends_prepared, prepares_apply_lha. Qed.
Lemma under_tmp_here s : under_tmp dest (dest +:+ "tmp" +:+ s).
Proof. by exists s. Qed.
Lemma under_tmp_slash d : under_tmp dest d → under_tmp dest (with_slash d).
Proof.
  intros [s ->]. unfold with_slash. destruct (ends _ _); [by exists s|]. exists (s +:+ "/").
  by rewrite !string_app_assoc.
Qed.
Lemma sends_capture_mtime p : sends allowed (capture_mtime p).
Proof. unfold capture_mtime. pose proof (allows_stat p). respects_tac; try done. apply sends_reading. constructor. Qed.
Lemma sends_restore_mtime p j : under p → sends allowed (restore_mtime p j).
Proof.
  intros Hp. unfold restore_mtime. respects_tac; try done.
  apply sends_quietly, sends_changing. by constructor.
Qed.
Lemma sends_write p t u : under p → sends allowed (request "fs.write" (write_arg p t) u).
Proof. intros. apply sends_changing. by constructor. Qed.
Lemma sends_write_text p t u : under p → sends allowed (write_text p t u).
Proof. intros. unfold write_text. respects_tac. by apply sends_write. Qed.
#[local] Hint Resolve allows_stat sends_read sends_list sends_copy sends_makedir sends_copy_tree sends_apply_lha
  sends_capture_mtime sends_restore_mtime sends_write sends_write_text under_tmp_slash : sends.
Lemma kicklayout_path_dest : kicklayout_path dest = dest +:+ "Kickstart/Kicklayout".
Proof. unfold kicklayout_path. by rewrite normalize_volume_idem. Qed.
Lemma sends_read_kicklayout : sends allowed (installer_read_kicklayout dest).
Proof. unfold installer_read_kicklayout, now_mcpd. respects_tac; by eauto with sends. Qed.
Lemma yields_read_kicklayout :
  yields (λ f, kl_volume f = dest ∧ kl_path f = kicklayout_path dest) (installer_read_kicklayout dest).
Proof.
  unfold installer_read_kicklayout. repeat (apply yields_bind; intros ?). apply yields_ret.
  by rewrite normalize_volume_idem.
Qed.
Lemma sends_write_kicklayout t confirm suffix :
  sends allowed (installer_write_kicklayout dest t confirm suffix).
Proof.
  unfold installer_write_kicklayout, now_mcpd. rewrite kicklayout_path_dest. cbv zeta.
  respects_tac; try by eauto with sends. apply sends_worked. respects_tac; by eauto with sends.
Qed.
Lemma sends_patch_kicklayout adds reps confirm suffix :
  sends allowed (installer_patch_kicklayout dest adds reps confirm suffix).
Proof.
  unfold installer_patch_kicklayout. apply (respects_bind _); [by eauto with sends|intros _].
  apply (respects_bind_yields _ _ _ _ sends_read_kicklayout yields_read_kicklayout).
  intros f [Hv Hp]. rewrite Hv, Hp, kicklayout_path_dest. unfold now_mcpd.
  pose proof sends_write_kicklayout. respects_tac; by eauto with sends.
Qed.
#[local] Hint Resolve sends_patch_kicklayout under_tmp_here : sends.
#[local] Hint Extern 1 (_ ∈ one_path_commands) => unfold one_path_commands; set_solver : sends.
#[local] Hint Extern 1 (under_tmp _ _) => eexists; reflexivity : sends.
#[local] Hint Extern 1 (mounting _ _ _) => constructor : sends.
#[local] Hint Extern 1 (changing _ _ _) => constructor : sends.

(** ** Each step *)

Lemma sends_try_copy s d : under d → sends allowed (try_copy s d).
Proof. intros. unfold try_copy. sends_tac. Qed.
Lemma sends_try_tree s d t : under d → sends allowed (try_tree s d t).
Proof. intros. unfold try_tree. sends_tac. Qed.
Lemma sends_try_delete v p :
  (v, ""%string) ∈ one_path_commands → under p → sends allowed (try_exec (v +:+ quoted p)).
Proof. intros. apply sends_quietly. by apply sends_delete_command. Qed.
Lemma sends_rename s d : under s → under d → sends allowed (rename s d).
Proof. intros. apply sends_changing. by constructor. Qed.
Lemma sends_delete p b : under p → sends allowed (delete p b).
Proof. intros. apply sends_changing. by constructor. Qed.
#[local] Hint Resolve sends_try_copy sends_try_tree sends_rename sends_delete : sends.
Lemma sends_exec_rename s d ms t :
  under s → under d → sends allowed (exec ("Rename *>NIL: " +:+ quoted s +:+ " " +:+ quoted d) ms t).
Proof. intros. apply sends_changing. by constructor. Qed.
Lemma sends_exec_copy s d ms t :
  under d → sends allowed (exec ("Copy " +:+ quoted s +:+ " " +:+ quoted d +:+ " CLONE") ms t).
Proof. intros. apply sends_changing. constructor; [done|set_solver]. Qed.
#[local] Hint Resolve sends_command sends_delete_command sends_exec_rename sends_exec_copy : sends.
Lemma sends_maybe_rename s d : under s → under d → sends allowed (maybe_rename s d).
Proof. intros. unfold maybe_rename. sends_tac. Qed.
Lemma sends_make_link l t : under l → sends allowed (make_link l t).
Proof. intros. apply sends_quietly, sends_changing. by constructor. Qed.
Lemma sends_delete_link l : under l → sends allowed (delete_link l).
Proof. intros. apply sends_try_delete; sends_tac. Qed.
Lemma sends_copy_clone s d ms t : under d → sends allowed (copy_clone s d ms t).
Proof.
  intros. unfold copy_clone. sends_tac.
Qed.
Lemma sends_protect_rwed p : under p → sends allowed (protect_rwed p).
Proof. intros. unfold protect_rwed. sends_tac. Qed.
#[local] Hint Resolve sends_maybe_rename sends_make_link sends_delete_link sends_copy_clone sends_protect_rwed : sends.

(** The opening of a sequence. *)
#[local] Hint Resolve prepares_stat prepares_read prepares_apply_lha prepares_mounting : sends.
Lemma prepares_missing_of ps : sends preparing (missing_of ps).
Proof. induction ps; simpl; sends_tac. Qed.
Lemma prepares_stage_diskimage_tools : sends preparing stage_diskimage_tools.
Proof.
  pose proof (prepares_missing_of diskimage_tools).
  assert (sends preparing (amiga_makedir "DEVS:DOSDrivers/")).
  { unfold amiga_makedir. change (rstrip_slash "DEVS:DOSDrivers/") with "DEVS:DOSDrivers"%string.
    assert (∀ ms t, sends preparing (exec ("MakeDir " +:+ quoted "DEVS:DOSDrivers" +:+ " ALL") ms t))
      by (intros; apply prepares_mounting; constructor).
    sends_tac. }
  unfold stage_diskimage_tools. sends_tac.
Qed.
Lemma under_tmp_iso iso_filename s : under_tmp dest (dest +:+ "tmp/" +:+ iso_filename +:+ s).
Proof. by exists ("/" +:+ iso_filename +:+ s). Qed.
Lemma prepares_extract_iso_lha iso_filename : sends preparing (extract_iso_lha dest iso_filename).
Proof.
  unfold extract_iso_lha, iso_path.
  assert (under_tmp dest ((dest +:+ "tmp/" +:+ iso_filename) +:+ ".lha"))
    by (rewrite !string_app_assoc; apply under_tmp_iso).
  assert (under_tmp dest (with_slash (dest +:+ "tmp"))) by (apply under_tmp_slash; by exists ""%string).
  sends_tac.
Qed.
Lemma prepares_poll fuel deadline v : sends preparing (poll_volume fuel deadline v).
Proof.
  revert deadline. induction fuel as [|fuel IH]; intros deadline; cbn [poll_volume]; [apply (respects_spin _)|].
  unfold wait. sends_tac.
Qed.
Lemma prepares_mount_iso fuel target iso_filename : sends preparing (mount_iso fuel target dest iso_filename).
Proof.
  unfold mount_iso, installer_mount_iso, now_mcpd, wait, iso_path.
  assert (∀ ms t, sends preparing (exec ("C:MountDiskImage U=" +:+ num COMBI_UNIT +:+ " INSERT=" +:+
            quoted (dest +:+ "tmp/" +:+ iso_filename)) ms t))
    by (intros; apply prepares_mounting; constructor; apply under_here).
  assert (∀ ms t, sends preparing (exec ("C:MountDiskImage U=" +:+ num COMBI_UNIT +:+ " EJECT") ms t))
    by (intros; apply prepares_mounting; constructor).
  change ("DEVS:DOSDrivers/" +:+ strip_colon COMBI_DEVICE) with drv_path.
  assert (∀ ms t, sends preparing (exec ("Mount " +:+ quoted drv_path) ms t))
    by (intros; apply prepares_mounting; constructor).
  pose proof prepares_poll. sends_tac.
Qed.
Lemma prepares_verify_cd_signature c : sends preparing (verify_cd_signature c).
Proof. unfold verify_cd_signature. sends_tac. Qed.

(** The steps of [Steps]. *)
Lemma sends_copy_base_os : sends allowed (copy_base_os dest).
Proof. unfold copy_base_os. sends_tac. Qed.
Lemma sends_patch_post_install p : under p → sends allowed (patch_post_install p).
Proof. intros. unfold patch_post_install. sends_tac. Qed.
#[local] Hint Resolve sends_patch_post_install : sends.
Lemma sends_copy_installation_extras : sends allowed (copy_installation_extras dest).
Proof.
  unfold copy_installation_extras.
  assert (∀ t, sends allowed (request "fs.delete" (JObj [("path", JStr (dest +:+ "Storage/CDPostInstall"));
    ("recursive", JBool true)]) t)) by (intros; apply sends_changing; constructor; apply under_here).
  sends_tac.
Qed.
Lemma sends_install_bootloader c : sends allowed (install_bootloader dest c).
Proof. unfold install_bootloader. sends_tac. Qed.
Lemma sends_redirect_libz : sends allowed (redirect_libz dest).
Proof. unfold redirect_libz, sobjs. sends_tac. Qed.
Lemma sends_apply_one_update c n : sends allowed (apply_one_update dest c n).
Proof.
  unfold apply_one_update. pose proof sends_redirect_libz.
  assert (∀ p, under p → sends allowed (try_exec ("Delete *>NIL: " +:+ quoted p)))
    by (intros; apply sends_try_delete; sends_tac).
  unfold sobjs. sends_tac.
Qed.

(** The steps of [PostInstall]. *)
Lemma sends_install_enhancer c : sends allowed (install_enhancer dest c).
Proof. unfold install_enhancer. sends_tac. Qed.
Lemma sends_install_ngf : sends allowed (install_ngf dest).
Proof. unfold install_ngf. sends_tac. Qed.
Lemma sends_unmount t : sends allowed (installer_unmount_iso COMBI_UNIT t).
Proof.
  unfold installer_unmount_iso, now_mcpd.
  assert (∀ ms t, sends allowed (exec ("C:MountDiskImage U=" +:+ num COMBI_UNIT +:+ " EJECT") ms t))
    by (intros; apply sends_mounting; constructor).
  sends_tac.
Qed.
#[local] Hint Resolve sends_unmount : sends.
Lemma sends_unmount_iso target : sends allowed (unmount_iso target).
Proof. unfold unmount_iso. sends_tac. Qed.
Lemma sends_dismount_combi_device : sends allowed dismount_combi_device.
Proof.
  assert (∀ t, sends allowed (request "fs.delete" (path_arg drv_path) t))
    by (intros; apply sends_mounting; constructor).
  assert (∀ ms t, sends allowed (exec "C:Dismount >NIL: COMBI: FORCE" ms t))
    by (intros; apply sends_mounting; constructor).
  unfold dismount_combi_device. sends_tac.
Qed.
Lemma sends_install_extras : sends allowed (install_extras dest).
Proof.
  unfold install_extras, install_extra. sends_tac;
    try (destruct (bool_decide _); sends_tac); sends_tac.
Qed.
Lemma sends_patch_amidock_prefs : sends allowed (patch_amidock_prefs dest).
Proof. unfold patch_amidock_prefs. sends_tac. Qed.
Lemma sends_copy_first srcs d : under d → sends allowed (copy_first srcs d).
Proof. intros. induction srcs; simpl; sends_tac. Qed.
Lemma sends_clone_icon dir i d es : under d → sends allowed (clone_icon dir i d es).
Proof. intros. induction es; simpl; sends_tac. Qed.
Lemma sends_find_icon dir i d : under d → sends allowed (find_icon dir i d).
Proof. intros. pose proof (λ es, sends_clone_icon dir i d es). unfold find_icon. sends_tac. Qed.
#[local] Hint Resolve sends_copy_first sends_find_icon : sends.
Lemma sends_install_network_config machine : sends allowed (install_network_config dest machine).
Proof. unfold install_network_config. sends_tac. Qed.
Lemma sends_existing_text p : sends allowed (existing_text p).
Proof. unfold existing_text. sends_tac. Qed.
Lemma sends_backup_once p b t : under b → sends allowed (backup_once p b t).
Proof. intros. unfold backup_once. sends_tac. Qed.
#[local] Hint Resolve sends_existing_text sends_backup_once : sends.
Lemma sends_install_serialshell : sends allowed (install_serialshell dest).
Proof. unfold install_serialshell. sends_tac. Qed.
Lemma sends_install_mcpd : sends allowed (install_mcpd dest).
Proof. unfold install_mcpd, install_helper. sends_tac. Qed.
Lemma sends_move_entries s d es : under s → under d → sends allowed (move_entries s d es).
Proof. intros. induction es; simpl; [|unfold move_entry]; sends_tac. Qed.
#[local] Hint Resolve sends_move_entries : sends.
Lemma sends_quarantine_devs_monitors : sends allowed (quarantine_devs_monitors dest).
Proof. unfold quarantine_devs_monitors. sends_tac. Qed.
Lemma sends_quarantine_emu10kx : sends allowed (quarantine_emu10kx dest).
Proof. unfold quarantine_emu10kx. sends_tac. Qed.
Lemma sends_cleanup_tmp iso_filename : sends allowed (cleanup_tmp dest iso_filename).
Proof. unfold cleanup_tmp, tidy_delete. sends_tac. Qed.
End contained.
