(* ===== verification/InstallProps.v ===== *)
(** * What an installation guarantees

    The runner stops at the first failure and reports every step it ran; a
    preview or an unconfirmed call sends nothing; every request of a run is
    allowed, and nothing is installed before the install CD is recognised. *)
From S2P Require Import Prelude Py Bytes Kicklayout Amiga DemoTarget Machines Steps PostInstall Install Containment.

Definition is_done (r : step_result) : Prop := match sr_status r with Done _ => True | _ => False end.
Definition is_failed (r : step_result) : Prop :=
  match sr_status r with Failed e => is_exception e = true | _ => False end.

Section runner.
Context {E : Type} `{Amiga E}.
Implicit Types w : inst E.

(** The world after a list of steps, whatever each returns or raises. *)
Definition after (ss : list (step E)) (w : inst E) : inst E := fold_left (λ w s, (step_fn s w).2) ss w.
(** What the results of a run say of its steps. *)
Definition reported (ss : list (step E)) (w : inst E) (rs : list step_result) (f : option string) (w' : inst E) : Prop :=
  map sr_name rs = map step_name (take (length rs) ss) ∧
  w' = after (take (length rs) ss) w ∧
  match f with
  | None => length rs = length ss ∧ Forall is_done rs
  | Some n => ∃ done r, rs = done ++ [r] ∧ Forall is_done done ∧ is_failed r ∧ sr_name r = n
  end.
Lemma run_steps_reported ss w :
  wp (run_steps ss) (λ r w', match r with
                             | Ret (rs, f) => reported ss w rs f w'
                             | Raise e => is_exception e = false
                             | Spin => True
                             end) w.
Proof.
  revert w. induction ss as [|s ss IH]; intros w; cbn [run_steps].
  { apply wp_ret. unfold reported. simpl. by auto. }
  apply wp_bind, wp_gets, wp_bind, wp_catch, wp_bind.
  destruct (step_fn s w) as [[o|e|] w1] eqn:Hs; eapply (wp_run _ _ _ _ _ Hs); [|  |done].
  - apply wp_ret, wp_bind, wp_gets, wp_bind. eapply wp_mono; [apply IH|].
    intros [[rs f]|e|] w2; [|done|done]. intros (Hn & Hw & Hf). apply wp_ret. unfold reported. simpl.
    rewrite Hn, Hw, Hs. simpl. split_and!; [done|done|].
    destruct f as [n|].
    + destruct Hf as (dn & r & -> & Hd & Hr). eexists (_ :: dn), r. simpl. split_and!; [done| |apply Hr..].
      by constructor.
    + destruct Hf as [-> Hd]. split; [done|]. by constructor.
  - destruct (is_exception e) eqn:He; [|by apply wp_raise].
    apply wp_ret, wp_bind, wp_gets, wp_ret. unfold reported. simpl.
    rewrite Hs. split_and!; [done|done|]. exists [], (StepResult (step_name s) (Failed e) (monotonic (machine_env w1) - monotonic (machine_env w))).
    split_and!; [done|constructor|done|done].
Qed.

(** A run executes its steps in order and stops at the first one that raises:
    its results name exactly the steps executed, the world is the one those steps
    leave, the run is ok exactly when every step was executed and succeeded, and
    otherwise exactly the last one failed and is the one named.  Only a
    cancellation ends the run without results. *)
Theorem run_sequence_halts machine ss w :
  wp (run_sequence machine ss false) (λ r w',
    match r with
    | Ret s => reported ss w (results s) (failed_step s) w' ∧ seq_machine s = machine ∧
               (overall s = AllOk ↔ length (results s) = length ss ∧ Forall is_done (results s)) ∧
               (overall s = SomeFailed ↔ is_Some (failed_step s))
    | Raise e => is_exception e = false
    | Spin => True
    end) w.
Proof.
  unfold run_sequence. apply wp_bind, wp_gets, wp_bind. eapply wp_mono; [apply run_steps_reported|].
  intros [[rs f]|e|] w'; [|done|done]. intros Hr. apply wp_bind, wp_gets, wp_ret. simpl.
  destruct Hr as (Hn & Hw & Hf). split_and!; [by split_and!|done| |destruct f; split; naive_solver].
  destruct f as [n|]; [|done]. split; [done|]. intros [_ Hall].
  destruct Hf as (dn & r & -> & _ & Hr & _). apply Forall_app in Hall as [_ [Hd _]%Forall_cons].
  unfold is_done, is_failed in *. by destruct (sr_status r).
Qed.
End runner.

Section runs.
Context {E : Type} `{Amiga E}.
Implicit Types w : inst E.

(** A preview, or a call that is not confirmed, sends nothing to the machine:
    a preview answers with the steps of the machine's sequence, each one planned
    and none run, and an unconfirmed call that is not a preview never answers
    with a result. *)
Theorem installer_run_asks_first fuel listing target vol machine iso sources dry confirm w
    (Hask : dry || negb confirm = true) :
  wp (installer_run fuel listing target vol machine iso sources dry confirm) (λ r w',
    asked w' = asked w ∧
    match r with
    | Ret s =>
        dry = true ∧ overall s = OnlyPlanned ∧
        ∃ m c i, resolve_sequence_machine machine = Ret (m, c) ∧ chosen_iso listing iso sources m = Ret i ∧
          results s = planned (build_sequence fuel target (normalize_volume vol) i c)
    | _ => True
    end) w.
Proof.
  unfold installer_run. apply wp_bind, wp_lift. destruct (resolve_sequence_machine machine) as [[m c]|e|] eqn:Hm;
    [|done|done].
  apply wp_bind, wp_lift. cbn [fst snd]. destruct (chosen_iso listing iso sources m) as [i|e|] eqn:Hi; [|done|done].
  destruct (negb dry && negb confirm) eqn:Hno; [by apply wp_raise|].
  assert (dry = true) as -> by (destruct dry, confirm; simpl in *; congruence).
  apply wp_bind. unfold wp, now_mcpd, on_env. destruct (mcpd_up _) as [[[]|e|] e']; simpl; [|done|done].
  split_and!; [done..|]. by exists m, c, i.
Qed.

(** Every step of a sequence. *)
Lemma sends_run_steps (P : policy) ss : Forall (λ s, sends P (step_fn s)) ss → sends P (run_steps ss).
Proof.
  induction 1; cbn [run_steps]; sends_tac; unfold clock; respects_tac.
Qed.
Lemma opening_prepares fuel target vol i c :
  Forall (λ s, sends (preparing (normalize_volume vol)) (step_fn s))
    (opening_steps (E:=E) fuel target (normalize_volume vol) i c).
Proof.
  unfold opening_steps. rewrite !Forall_cons, Forall_nil. simpl. split_and!; [| | | |done].
  - apply prepares_stage_diskimage_tools.
  - apply prepares_extract_iso_lha.
  - apply prepares_mount_iso.
  - apply prepares_verify_cd_signature.
Qed.
Lemma installing_allowed target vol i c :
  Forall (λ s, sends (allowed (normalize_volume vol)) (step_fn s))
    (installing_steps (E:=E) target (normalize_volume vol) i c).
Proof.
  unfold installing_steps, when. repeat (apply Forall_app; split); rewrite ?Forall_cons, ?Forall_nil; simpl.
  - split_and!; [apply sends_copy_base_os|apply sends_copy_installation_extras|apply sends_install_bootloader|done].
  - apply Forall_map. simpl. apply Forall_true. intros n. apply sends_apply_one_update.
  - destruct (needs_enhancer c); [|done]. rewrite Forall_singleton. apply sends_install_enhancer.
  - destruct (needs_ngf c); [|done]. rewrite Forall_singleton. apply sends_install_ngf.
  - split_and!; [apply sends_install_extras|apply sends_patch_amidock_prefs|apply sends_install_network_config|
      apply sends_install_serialshell|done].
  - destruct (quarantines_emu10kx c); [|done]. rewrite Forall_singleton. apply sends_quarantine_emu10kx.
  - destruct (quarantines_monitors c); [|done]. rewrite Forall_singleton. apply sends_quarantine_devs_monitors.
  - split_and!; [apply sends_install_mcpd|apply sends_unmount_iso|apply sends_dismount_combi_device|
      apply sends_cleanup_tmp|done].
Qed.
Lemma build_sequence_allowed fuel target vol i c :
  Forall (λ s, sends (allowed (normalize_volume vol)) (step_fn s))
    (build_sequence (E:=E) fuel target (normalize_volume vol) i c).
Proof.
  unfold build_sequence. apply Forall_app. split; [|apply installing_allowed].
  eapply Forall_impl; [apply opening_prepares|]. intros s. apply sends_prepared.
Qed.

(** C4: Whatever the machine answers, every request a run of an install sequence
    sends either reads, or puts up or takes down the device of the install ISO,
    or unpacks an archive of the destination's [tmp/] drawer into it, or changes
    a path that begins with the destination volume: nothing else of the running
    machine is ever written, renamed, deleted or executed. *)
Theorem installer_run_contained fuel listing target vol machine iso sources dry confirm w :
  ∃ l, asked (installer_run fuel listing target vol machine iso sources dry confirm w).2 = asked w ++ l ∧
       Forall (λ x, allowed (normalize_volume vol) x.1.1 x.1.2) l.
Proof.
  assert (sends (allowed (normalize_volume vol))
    (installer_run fuel listing target vol machine iso sources dry confirm)) as Hs; [|apply (Hs w)].
  unfold installer_run, now_mcpd, new_ctx, run_sequence.
  pose proof (λ i c, sends_run_steps _ _ (build_sequence_allowed fuel target vol i c)).
  assert (sends (allowed (normalize_volume vol))
            (modify (λ w : inst E, Inst None false (asked w) (machine_env w)))) by by apply sends_modify.
  sends_tac.
Qed.

(** ** The install CD is recognised first *)

(** An answer that shows a text with [sig] in it. *)
Definition shows (sig : string) (raw : json) : Prop :=
  ∃ c b, get_or "content_b64" (JStr "") raw = Ret c ∧ b64_bytes c = Ret b ∧
         contains (txt sig) (decode_ascii b) = true.
Definition recognised (sig : string) (x : exchange) : Prop :=
  ∃ raw, x = ("fs.read"%string, path_arg (ISO_VOLUME +:+ "CD-Version.txt"), Ret raw) ∧ shows sig raw.

Lemma content_text_shows raw w t w' sig :
  content_text raw w = (Ret t, w') → contains (txt sig) t = true → w' = w ∧ shows sig raw.
Proof.
  unfold content_text, mbind, M_bind, lift, mret, M_ret. intros Hc Hs.
  destruct (get_or _ _ raw) as [c|e|] eqn:Hg; [|done|done]. destruct (b64_bytes c) as [b|e|] eqn:Hb; [|done|done].
  injection Hc as <- <-. split; [done|]. by exists c, b.
Qed.
Lemma verify_recognises c sig w o w' :
  cd_signature c = Some sig → sig ≠ ""%string → iso_volume w = Some ISO_VOLUME →
  verify_cd_signature c w = (Ret o, w') → ∃ x, asked w' = asked w ++ [x] ∧ recognised sig x.
Proof.
  intros Hc Hsig Hiso. unfold verify_cd_signature. rewrite Hc, bool_decide_false by done.
  unfold mbind at 1, M_bind at 1. unfold iso_vol, gets, mbind at 1, M_bind at 1. rewrite Hiso. cbn [mret M_ret].
  unfold mbind at 1, M_bind at 1, request. destruct (daemon _ _ _ (machine_env w)) as [[raw|e|] e'] eqn:Hd; [|done|done].
  unfold mbind, M_bind. destruct (content_text raw _) as [[t|e|] w1] eqn:Ht; [|done|done].
  destruct (contains (txt sig) t) eqn:Hs; [|done]. intros [= <- <-].
  destruct (content_text_shows _ _ _ _ _ Ht Hs) as [-> Hraw]. eexists. split; [reflexivity|]. by exists raw.
Qed.
Lemma poll_yields fuel deadline v :
  yields (λ o, match o with Some v' => v' = v | None => True end) (poll_volume fuel deadline v).
Proof.
  revert deadline. induction fuel as [|fuel IH]; intros deadline; cbn [poll_volume]; [done|].
  apply yields_bind. intros t. destruct (t <? deadline); [|by apply yields_ret].
  apply yields_bind. intros []; [by apply yields_ret|]. apply yields_bind. intros _. apply IH.
Qed.
Definition found_only (v : string) (o : option string) : Prop := match o with Some v' => v' = v | None => True end.
Lemma mount_yields fuel p d u v t s :
  yields (λ r, found_only v (detected_volume r)) (installer_mount_iso fuel p d u (Some v) t s).
Proof.
  unfold installer_mount_iso. do 7 (apply yields_bind; intros ?).
  apply (yields_bind_of (found_only v)).
  - case_bool_decide; [by apply yields_ret|]. apply yields_bind. intros t0.
    apply (yields_bind_of _ _ _ _ (poll_yields fuel (t0 + t) v)). intros [v'|] Hv; [|by apply yields_ret].
    apply yields_bind. intros _. by apply yields_ret.
  - intros o Ho. apply yields_bind. intros t1. by apply yields_ret.
Qed.
Lemma mount_sets_iso fuel target dest i w o w' :
  mount_iso fuel target dest i w = (Ret o, w') → iso_volume w' = Some ISO_VOLUME.
Proof.
  unfold mount_iso, mbind at 1, M_bind at 1.
  pose proof (mount_yields fuel (iso_path dest i) COMBI_DEVICE COMBI_UNIT ISO_VOLUME 30000 3000 w) as Hy.
  destruct (installer_mount_iso _ _ _ _ _ _ _ w) as [[r|e|] w1]; [|done|done].
  specialize (Hy r eq_refl). unfold found_only in Hy. destruct (detected_volume r) as [v|]; [|done].
  subst v. by intros [= _ <-].
Qed.

(** The runner, one successful step at a time. *)
Lemma run_steps_cons_ok (s : step E) ss w rs w' :
  run_steps (s :: ss) w = (Ret (rs, None), w') →
  ∃ o w1 rs', step_fn s w = (Ret o, w1) ∧ run_steps ss w1 = (Ret (rs', None), w').
Proof.
  cbn [run_steps]. unfold clock, gets, catch, mbind, M_bind, mret, M_ret.
  destruct (step_fn s w) as [[o|e|] w1]; [|destruct (is_exception e); done|done].
  destruct (run_steps ss w1) as [[[rs' f]|e|] w2] eqn:Hr; [|done|done].
  simpl. intros [= <- -> <-]. by exists o, w1, rs'.
Qed.
Lemma run_steps_app_world (a b : list (step E)) w :
  (run_steps (a ++ b) w).2 =
  match run_steps a w with (Ret (_, None), w1) => (run_steps b w1).2 | (_, w1) => w1 end.
Proof.
  revert w. induction a as [|s a IH]; intros w; [done|].
  cbn [run_steps app]. unfold clock, gets, catch, mbind, M_bind, mret, M_ret.
  destruct (step_fn s w) as [[o|e|] w1]; [|by destruct (is_exception e)|done].
  specialize (IH w1). destruct (run_steps (a ++ b) w1) as [[[rs f]|e|] w2];
    destruct (run_steps a w1) as [[[rs' [f'|]]|e'|] w3]; simpl in *; congruence.
Qed.

Definition gated (dest sig : string) (l : list exchange) : Prop :=
  Forall (λ x, preparing dest x.1.1 x.1.2) l ∨
  ∃ before x rest, l = before ++ x :: rest ∧
    Forall (λ x, preparing dest x.1.1 x.1.2) before ∧ recognised sig x.
Lemma opening_gated (P : policy) fuel target vol i c sig rest w :
  Forall (λ s, sends P (step_fn s)) rest → cd_signature c = Some sig → sig ≠ ""%string →
  ∃ l, asked (run_steps (opening_steps fuel target (normalize_volume vol) i c ++ rest) w).2 = asked w ++ l ∧
       gated (normalize_volume vol) sig l.
Proof.
  intros Hrest Hc Hsig. rewrite run_steps_app_world.
  pose proof (sends_run_steps _ _ (opening_prepares fuel target vol i c) w) as Hopen.
  destruct (run_steps (opening_steps _ _ _ _ _) w) as [[[rs [f|]]|e|] w4] eqn:Hr; simpl in Hopen;
    [destruct Hopen as (l & Hl & HP); exists l; split; [done|by left]| |
     destruct Hopen as (l & Hl & HP); exists l; split; [done|by left]..].
  unfold opening_steps in Hr.
  apply run_steps_cons_ok in Hr as (o1 & w1 & rs1 & H1 & Hr).
  apply run_steps_cons_ok in Hr as (o2 & w2 & rs2 & H2 & Hr).
  apply run_steps_cons_ok in Hr as (o3 & w3 & rs3 & H3 & Hr).
  apply run_steps_cons_ok in Hr as (o4 & w5 & rs4 & H4 & Hr). injection Hr as _ <-. cbn [step_fn] in *.
  assert (adds (preparing (normalize_volume vol)) w w3) as (l & Hl & HP).
  { pose proof (prepares_stage_diskimage_tools vol w) as Ha. pose proof (prepares_extract_iso_lha vol i w1) as Hb.
    pose proof (prepares_mount_iso vol fuel target i w2) as Hd. rewrite H1 in Ha. rewrite H2 in Hb. rewrite H3 in Hd.
    etrans; [exact Ha|]. etrans; [exact Hb|exact Hd]. }
  apply mount_sets_iso in H3. destruct (verify_recognises _ _ _ _ _ Hc Hsig H3 H4) as (x & Hx & Hrec).
  destruct (sends_run_steps _ _ Hrest w5) as (l' & Hl' & _).
  exists (l ++ x :: l'). rewrite Hl', Hx, Hl, <-!app_assoc. split; [done|]. right. by exists l, x, l'.
Qed.

(** C2: For every machine whose install CD carries a signature, nothing is
    installed before the CD is recognised: up to the answer in which the mounted
    ISO's [CD-Version.txt] shows the machine's signature, a run sends only
    requests that read, that put up the ISO's device, or that unpack within the
    destination's [tmp/] drawer; and if no answer ever shows it, the whole run
    sends nothing else. *)
Theorem install_cd_recognised_first fuel listing target vol machine m c sig iso sources dry confirm w
    (Hm : resolve_sequence_machine machine = Ret (m, c)) (Hc : cd_signature c = Some sig) :
  ∃ l, asked (installer_run fuel listing target vol machine iso sources dry confirm w).2 = asked w ++ l ∧
       gated (normalize_volume vol) sig l.
Proof.
  assert (∀ w', asked w' = asked w → ∃ l, asked w' = asked w ++ l ∧ gated (normalize_volume vol) sig l) as Hnone.
  { intros w' Hw. exists []. rewrite app_nil_r. split; [done|]. by left. }
  assert (sig ≠ ""%string) as Hsig.
  { unfold resolve_sequence_machine in Hm. destruct (resolve_machine_alias machine); [|done].
    destruct (assoc s SEQUENCE_BUILDERS) as [c'|] eqn:Ha; [|done]. injection Hm as -> ->.
    apply assoc_elem in Ha. unfold SEQUENCE_BUILDERS in Ha. set_unfold. naive_solver. }
  unfold installer_run, mbind, M_bind, lift. rewrite Hm. cbn [fst snd].
  destruct (chosen_iso listing iso sources m) as [i|e|]; [|by apply Hnone..].
  destruct (negb dry && negb confirm); [by apply Hnone|].
  unfold now_mcpd, on_env. destruct (mcpd_up _) as [[u|e|] e']; [|by apply Hnone..].
  unfold new_ctx, modify, run_sequence. destruct dry; [by apply Hnone|].
  unfold mbind, M_bind, clock, gets, build_sequence. set (w1 := Inst None false _ _).
  destruct (opening_gated _ fuel target vol i c sig _ w1 (installing_allowed target vol i c) Hc Hsig) as (l & Hl & Hg).
  destruct (run_steps _ w1) as [[[rs f]|e|] w2]; exists l; split; simpl in *; done.
Qed.
End runs.

(** ** On a concrete machine *)

Definition ex_files (version : string) : list (string * string) :=
  [("C:MountDiskImage", ""); ("DEVS:diskimage.device", ""); ("L:CDFileSystem", ""); ("Boot:tmp/a.iso", "");
   ("AmigaOS 4.1 Final Edition:CD-Version.txt", version); ("Boot:tmp/MCPd", "binary");
   ("Boot:Kickstart/Kicklayout", "")]%string.
Definition ex_run (version : string) (dry confirm : bool) : res exn sequence_result * inst demo :=
  installer_run 31 (λ _, None) "sam" "Boot" "peg2" (Some "a.iso"%string) None dry confirm (demo_start (ex_files version)).
Definition ex_outcome (x : res exn sequence_result * inst demo) : option (verdict * option string * nat) :=
  match x.1 with Ret s => Some (overall s, failed_step s, length (results s)) | _ => None end.
(** The right CD installs; the CD of another machine stops the run at the fourth
    step, with no change outside [tmp/]. *)
Example ex_installs : ex_outcome (ex_run "AmigaOS-Pegasos2 53.14" false true) = Some (AllOk, None, 19%nat).
Proof. vm_compute. reflexivity. Qed.
Example ex_wrong_cd :
  ex_outcome (ex_run "AmigaOS-X5000 53.17" false true) = Some (SomeFailed, Some "verify_cd_signature"%string, 4%nat).
Proof. vm_compute. reflexivity. Qed.
Lemma installer_run_asks_first_witness :
  true || negb false = true ∧ asked (ex_run "AmigaOS-Pegasos2" true false).2 = [].
Proof.
  split; [reflexivity|].
  exact (proj1 (installer_run_asks_first 31 (λ _, None) "sam" "Boot" "peg2" (Some "a.iso"%string) None true false
                  (demo_start (ex_files "AmigaOS-Pegasos2")) eq_refl)).
Defined.
Lemma install_cd_recognised_first_witness :
  resolve_sequence_machine "peg2" = Ret ("PegasosII"%string, PEGASOS2_CONFIG) ∧
  ∃ l, asked (ex_run "AmigaOS-X5000" false true).2 = [] ++ l ∧ gated "Boot:" "AmigaOS-Pegasos2" l.
Proof.
  split; [reflexivity|].
  exact (install_cd_recognised_first 31 (λ _, None) "sam" "Boot" "peg2" "PegasosII" PEGASOS2_CONFIG "AmigaOS-Pegasos2"
           (Some "a.iso"%string) None false true (demo_start (ex_files "AmigaOS-X5000")) eq_refl eq_refl).
Defined.
