(* ===== verification/Startup.v ===== *)
(** * The startup files an installation edits

    [install_mcpd] appends its launch line to [S/Network-Startup]: what it
    writes there, what it keeps of the file, and when it leaves it alone. *)
From S2P Require Import Prelude Py Bytes Kicklayout Amiga DemoTarget Machines Steps PostInstall Install Containment InstallProps.

(** Requests that write no file's text. *)
Definition no_write : policy := λ m _, m ≠ "fs.write"%string.
Definition written (l : list exchange) : list exchange := filter (λ x, x.1.1 = "fs.write"%string) l.
(** The text an answer carries. *)
Definition text_of (raw : json) : option text :=
  match get_or "content_b64" (JStr "") raw with
  | Ret c => match b64_bytes c with Ret b => Some (decode_ascii b) | _ => None end
  | _ => None
  end.
Definition read_as (path : string) (t : text) (l : list exchange) : Prop :=
  ∃ raw, ("fs.read"%string, path_arg path, Ret raw) ∈ l ∧ text_of raw = Some t.
Definition unreadable (path : string) (l : list exchange) : Prop :=
  ∃ r, ("fs.read"%string, path_arg path, r) ∈ l ∧ ∀ raw t, r = Ret raw → text_of raw ≠ Some t.
Definition copy_refused (src dst : string) (l : list exchange) : Prop :=
  ∃ e, ("fs.copy"%string, src_dst src dst, Raise e) ∈ l.

Lemma written_app l k : written (l ++ k) = written l ++ written k.
Proof. apply filter_app. Qed.
Lemma written_none l : Forall (λ x, no_write x.1.1 x.1.2) l → written l = [].
Proof. intros Hl. induction Hl as [|x l Hx _ IH]; [done|]. unfold written. by rewrite filter_cons_False. Qed.

Section startup.
Context {E : Type} `{Amiga E}.
Implicit Types w : inst E.

Lemma quiet_request m j t : m ≠ "fs.write"%string → sends no_write (request m j t).
Proof. intros. by apply sends_request. Qed.
#[local] Hint Extern 1 (respects (adds no_write) (request _ _ _)) => apply quiet_request; discriminate : sends.
#[local] Hint Extern 1 (respects (adds no_write) (stat _)) => apply quiet_request; discriminate : sends.
#[local] Hint Extern 1 (respects (adds no_write) (copy _ _)) => apply quiet_request; discriminate : sends.
#[local] Hint Extern 1 (respects (adds no_write) (exec _ _ _)) => apply quiet_request; discriminate : sends.
Lemma quiet_makedir p : sends no_write (amiga_makedir p).
Proof. unfold amiga_makedir. sends_tac. Qed.
Lemma quiet_copy_clone s d m t : sends no_write (copy_clone s d m t).
Proof. unfold copy_clone. sends_tac. Qed.
Lemma quiet_protect p : sends no_write (protect_rwed p).
Proof. unfold protect_rwed. sends_tac. Qed.
Lemma quiet_capture p : sends no_write (capture_mtime p).
Proof. unfold capture_mtime. sends_tac. Qed.
Lemma quiet_restore p j : sends no_write (restore_mtime p j).
Proof. unfold restore_mtime. sends_tac. Qed.
#[local] Hint Resolve quiet_makedir quiet_copy_clone quiet_protect quiet_capture quiet_restore : sends.
Lemma quiet_helper dest h : sends no_write (install_helper dest h).
Proof. unfold install_helper. sends_tac. Qed.
#[local] Hint Resolve quiet_helper : sends.

Definition is_ret {A} (r : res exn A) : Prop := match r with Ret _ => True | _ => False end.
(** The exchanges since [w0], none of which wrote. *)
Definition so_far w0 (l : list exchange) w : Prop := asked w = asked w0 ++ l ∧ written l = [].
Lemma so_far_start w : so_far w [] w.
Proof. split; [by rewrite app_nil_r|done]. Qed.
Lemma so_far_more w0 l w k w' :
  so_far w0 l w → asked w' = asked w ++ k → written k = [] → so_far w0 (l ++ k) w'.
Proof. intros [H1 H2] H3 H4. split; [by rewrite H3, H1, app_assoc|]. by rewrite written_app, H2, H4. Qed.
Lemma wp_unwritten {A} (m : M (inst E) exn A) (Q : res exn A → inst E → Prop) w0 l w :
  so_far w0 l w → sends no_write m →
  (∀ r w' k, so_far w0 k w' → l ⊆ k → Q r w') → wp m Q w.
Proof.
  intros Hl Hm HQ. unfold wp. destruct (Hm w) as (k & Hk & Hw%written_none).
  eapply HQ; [by eapply so_far_more|]. set_solver.
Qed.
Lemma wp_existing_text path w0 l w (Q : res exn text → inst E → Prop) :
  so_far w0 l w →
  (∀ t w' k, so_far w0 k w' → read_as path t k → Q (Ret t) w') →
  (∀ w' k, so_far w0 k w' → unreadable path k → Q (Ret []) w') →
  (∀ r w' k, so_far w0 k w' → ¬ is_ret r → Q r w') →
  wp (existing_text path) Q w.
Proof.
  intros Hl Hread Hun Hno. unfold existing_text. apply wp_catch, wp_bind.
  unfold wp at 1, request. destruct (daemon _ _ _ (machine_env w)) as [r e']. cbn [fst snd].
  set (x := ("fs.read"%string, path_arg path, r)). set (w' := Inst _ _ _ e').
  assert (so_far w0 (l ++ [x]) w') as Hl' by by eapply so_far_more.
  assert (Hstop : ∀ e : exn, wp (if is_exception e then mret [] else raise e)
                       Q w' ∨ is_exception e = true) by (intros e; destruct (is_exception e) eqn:He; [by right|left;
                       by apply wp_raise; eapply Hno; [exact Hl'|intros []]]).
  assert (Hcaught : (∀ raw t, r = Ret raw → text_of raw ≠ Some t) → ∀ e : exn,
            wp (if is_exception e then mret [] else raise e) Q w').
  { intros Hbad e. destruct (Hstop e) as [?|He]; [done|]. rewrite He. apply wp_ret.
    apply (Hun _ _ Hl'). exists r. split; [set_solver|done]. }
  destruct r as [raw|e|]; [|by apply Hcaught|by eapply Hno; [exact Hl'|intros []]].
  unfold wp at 1, content_text, mbind, M_bind, lift. unfold text_of in Hcaught.
  destruct (get_or _ _ raw) as [c|e|] eqn:Hg; cbn [fst snd].
  - destruct (b64_bytes c) as [b|e|] eqn:Hb; cbn [fst snd].
    + apply (Hread _ _ _ Hl'). exists raw. split; [set_solver|]. unfold text_of. by rewrite Hg, Hb.
    + apply Hcaught. intros raw' t [= <-]. by rewrite Hg, Hb.
    + eapply Hno; [exact Hl'|intros []].
  - apply Hcaught. intros raw' t [= <-]. by rewrite Hg.
  - eapply Hno; [exact Hl'|intros []].
Qed.
Lemma worked_false {A} (m : M (inst E) exn A) w w' :
  worked m w = (Ret false, w') → ∃ e, m w = (Raise e, w').
Proof.
  unfold worked, catch, mbind, M_bind, mret, M_ret, raise.
  destruct (m w) as [[a|e|] w1]; [done| |done]. destruct (is_exception e); [|done]. intros [= <-]. by exists e.
Qed.
Lemma wp_backup_once path backup t w0 l w (Q : res exn (bool * text) → inst E → Prop) :
  so_far w0 l w →
  (∀ b t' w' k, so_far w0 k w' → l ⊆ k → t' = t ∨ (t' = [] ∧ copy_refused path backup k) → Q (Ret (b, t')) w') →
  (∀ r w' k, so_far w0 k w' → ¬ is_ret r → Q r w') →
  wp (backup_once path backup t) Q w.
Proof.
  intros Hl Hret Hno. unfold backup_once. eapply wp_bind, wp_unwritten; [done|sends_tac|].
  intros [[]|e|] w1 l1 Hl1 Hsub; [apply wp_ret; by eapply Hret; [| |left]| |by eapply Hno; [..|intros []]..].
  apply wp_bind. assert (sends no_write (worked (copy path backup))) as Hq by sends_tac.
  destruct (Hq w1) as (l2 & Hw2 & Hl2%written_none).
  assert (Hl' : so_far w0 (l1 ++ l2) (worked (copy path backup) w1).2) by by eapply so_far_more.
  assert (l ⊆ l1 ++ l2) by set_solver.
  unfold wp at 1. destruct (worked (copy path backup) w1) as [[[]|e|] w2] eqn:Hc; cbn [fst snd] in *.
  - apply wp_ret. eapply Hret; [done|done|by left].
  - apply wp_ret. eapply Hret; [done|done|]. right. split; [done|].
    apply worked_false in Hc as [e He]. unfold copy, request in He.
    destruct (daemon _ _ _ _) as [r e']. injection He as -> <-. cbn [asked] in Hw2.
    apply app_inv_head in Hw2 as <-. exists e. set_solver.
  - eapply Hno; [done|by intros []].
  - eapply Hno; [done|by intros []].
Qed.
Lemma launch_line_marked base : contains (txt MCPD_MARKER) (with_newline base ++ mcpd_lines) = true.
Proof. apply contains_app_r. vm_compute. reflexivity. Qed.

(** What a run of [install_mcpd] writes to [S/Network-Startup]. *)
Definition netstart (dest : string) : string := dest +:+ "S/Network-Startup".
Definition launch_text (base : text) : text := with_newline base ++ mcpd_lines.
(** The text the launch line is appended to. *)
Definition launch_base (dest : string) (base : text) (l : list exchange) : Prop :=
  (∃ t, read_as (netstart dest) t l ∧ contains (txt MCPD_MARKER) t = false ∧
        (base = t ∨ base = [] ∧ copy_refused (netstart dest) (netstart dest +:+ ".before-mcpd") l)) ∨
  (base = [] ∧ unreadable (netstart dest) l).
Definition launch_written (dest : string) (l : list exchange) : Prop :=
  written l = [] ∨
  ∃ base r, written l = [("fs.write"%string, write_arg (netstart dest) (launch_text base), r)] ∧
            launch_base dest base l ∧ contains (txt MCPD_MARKER) (launch_text base) = true.
Lemma wp_write_text path content t w (Q : res exn unit → inst E → Prop) :
  (∀ r r' w', asked w' = asked w ++ [("fs.write"%string, write_arg path content, r)] → Q r' w') →
  Q (Raise (EPy ValueError)) w → wp (write_text path content t) Q w.
Proof.
  intros Hw Hno. unfold write_text. apply wp_bind, wp_lift. unfold encode_ascii.
  destruct (forallb _ content); [|apply Hno].
  apply wp_bind. unfold wp at 1, request. destruct (daemon _ _ _ _) as [[j|e|] e']; cbn [fst snd].
  - apply wp_ret. by eapply (Hw (Ret j)).
  - by eapply (Hw (Raise e)).
  - by eapply (Hw Spin).
Qed.

(** The end of [install_mcpd]: the backup, the write and the date. *)
Lemma launch_tail dest mtime (k : bool * text → M (inst E) exn json) existing w0 l w :
  so_far w0 l w → (∀ b, sends no_write (k b)) →
  (∀ base l', l ⊆ l' →
     base = existing ∨ (base = [] ∧ copy_refused (netstart dest) (netstart dest +:+ ".before-mcpd") l') →
     launch_base dest base l') →
  wp (b ← backup_once (netstart dest) (netstart dest +:+ ".before-mcpd") existing;
      write_text (netstart dest) (launch_text b.2) 60000;; restore_mtime (netstart dest) mtime;; k b)
    (λ _ w', ∃ l, asked w' = asked w0 ++ l ∧ launch_written dest l) w.
Proof.
  intros Hl Hk Hbase.
  assert (Hnone : ∀ w' l', so_far w0 l' w' → ∃ l, asked w' = asked w0 ++ l ∧ launch_written dest l).
  { intros w' l' [Hl' Hw]. exists l'. split; [done|by left]. }
  eapply wp_bind, wp_backup_once; [exact Hl| |].
  - intros b t w1 l1 Hl1 Hsub Ht. apply wp_bind, wp_write_text; cbn [snd]; [|by eapply Hnone].
    intros r r' w2 Hw2. set (x := ("fs.write"%string, _, r)) in *.
    assert (Hone : ∀ w3 l3, asked w3 = asked w2 ++ l3 → written l3 = [] →
              ∃ l, asked w3 = asked w0 ++ l ∧ launch_written dest l).
    { intros w3 l3 Hw3 Hl3. exists (l1 ++ [x] ++ l3). destruct Hl1 as [Hw1 Hl1].
      rewrite Hw3, Hw2, Hw1, <-!app_assoc. split; [done|]. right. exists t, r.
      rewrite !written_app, Hl1, Hl3. split_and!; [done| |apply launch_line_marked].
      apply Hbase; [set_solver|]. destruct Ht as [->|[-> (e & He)]]; [by left|right].
      split; [done|]. exists e. set_solver. }
    destruct r' as [[]|e|]; [|by apply (Hone _ []); [by rewrite app_nil_r|]..].
    assert (sends no_write (restore_mtime (netstart dest) mtime;; k (b, t))) as Hq
      by (apply (respects_bind _); [sends_tac|auto]).
    destruct (Hq w2) as (l3 & Hw3 & Hl3%written_none). by eapply Hone.
  - intros r w1 l1 Hl1 Hr. destruct r; [by destruct Hr|by eapply Hnone..].
Qed.

(** C13: However the machine answers, [install_mcpd] sends at most one write, and
    it goes to [S/Network-Startup]: the text it had, a newline when the last line
    lacks one, and the launch lines, so that a second run finds the marker and
    writes nothing.  The text kept is the one an answer showed, without the
    marker; it is dropped only where the file could not be read or its backup
    copy was refused. *)
Theorem mcpd_startup_kept dest w :
  ∃ l, asked (install_mcpd dest w).2 = asked w ++ l ∧ launch_written dest l.
Proof.
  change (wp (install_mcpd dest) (λ _ w', ∃ l, asked w' = asked w ++ l ∧ launch_written dest l) w).
  assert (Hnone : ∀ w' l, so_far w l w' → ∃ l, asked w' = asked w ++ l ∧ launch_written dest l).
  { intros w' l [Hl Hw]. exists l. split; [done|by left]. }
  pose proof (so_far_start w) as Hl0. unfold install_mcpd. cbv zeta. fold (netstart dest).
  eapply wp_bind, wp_unwritten; [exact Hl0|sends_tac|]. intros [there|e|] w1 l1 Hl1 _; [|by eapply Hnone..].
  destruct there; cbn [negb]; [|by eapply Hnone].
  eapply wp_bind, wp_unwritten; [exact Hl1|sends_tac|]. intros [[]|e|] w2 l2 Hl2 _; [|by eapply Hnone..].
  eapply wp_bind, wp_unwritten; [exact Hl2|sends_tac|]. intros [[]|e|] w3 l3 Hl3 _; [|by eapply Hnone..].
  eapply wp_bind, wp_unwritten; [exact Hl3|sends_tac|]. intros [[]|e|] w4 l4 Hl4 _; [|by eapply Hnone..].
  eapply wp_bind, wp_unwritten; [exact Hl4|sends_tac|]. intros [helpers|e|] w5 l5 Hl5 _; [|by eapply Hnone..].
  eapply wp_bind, wp_unwritten; [exact Hl5|sends_tac|]. intros [mtime|e|] w6 l6 Hl6 _; [|by eapply Hnone..].
  eapply wp_bind, wp_existing_text; [exact Hl6| | |].
  - intros t w7 l7 Hl7 Hread. destruct (contains (txt MCPD_MARKER) t) eqn:Hm; [by eapply Hnone|].
    eapply launch_tail; [exact Hl7|intros; apply (respects_ret _)|]. intros base k Hk Hbase. left. exists t. 
    destruct Hread as (raw & ? & ?). split_and!; [by exists raw; split; [set_solver|]|done|done].
  - intros w7 l7 Hl7 Hun. replace (contains (txt MCPD_MARKER) []) with false by done.
    eapply launch_tail; [exact Hl7|intros; apply (respects_ret _)|]. intros base k Hk Hbase. right. split; [naive_solver|].
    destruct Hun as (r & ? & ?). exists r. split; [set_solver|done].
  - intros r w7 l7 Hl7 Hr. destruct r; [by destruct Hr|by eapply Hnone..].
Qed.
End startup.

(** Installing twice leaves one launch line. *)
Definition ex_machine (startup : string) : inst demo :=
  demo_start [("Boot:tmp/MCPd", "binary"); ("Boot:S/Network-Startup", startup)]%string.
Definition startup_of (w : inst demo) : option text := assoc "Boot:S/Network-Startup" (demo_files (machine_env w)).
Example ex_install_twice :
  let w1 := (install_mcpd "Boot:" (ex_machine "AddNetInterface")).2 in
  let w2 := (install_mcpd "Boot:" w1).2 in
  startup_of w1 = Some (line "AddNetInterface" ++ mcpd_lines) ∧ startup_of w2 = startup_of w1.
Proof. vm_compute. by split. Qed.
(** On a machine that refuses [fs.copy] (a full volume, a protected drawer), the
    startup file that could be read is replaced by the launch lines alone. *)
Definition refusing : Amiga demo := {|
  daemon method params t :=
    if bool_decide (method = "fs.copy"%string) then raise (ERpc TargetError None) else daemon method params t;
  mcpd_up := mcpd_up; sleep := sleep; monotonic := monotonic; exn_text := exn_text; repr := repr |}.
Example ex_startup_lost :
  startup_of (install_mcpd (H := refusing) "Boot:" (ex_machine "AddNetInterface")).2 = Some mcpd_lines.
Proof. vm_compute. reflexivity. Qed.
