(* ===== verification/SerialShell.v ===== *)
(** * Bringing a machine up over SerialShell: [scripts/install_mcpd_via_serialshell.py]
    and [scripts/fix_a1222_network_startup.py]

    SerialShell is a small command server for AmigaOS that is there before MCPd
    is.  Its client, the edit of [S:Network-Startup] both scripts make, and the
    two scripts themselves.  The client's socket is an environment. *)
From S2P Require Import Prelude Py Lines Kicklayout.

(** [socket.create_connection], [settimeout] with [recv], [sendall] and [close];
    times are in milliseconds.  [recv] gives an empty chunk when the peer has
    closed, and [socket.timeout] is [TimeoutError]. *)
Class Sock (E : Type) := {
  create_connection : string → Z → Z → M E exn nat;
  recv : nat → Z → M E exn bytes;
  sendall : nat → bytes → M E exn unit;
  sock_close : nat → M E exn unit;
  now : E → Z }.
(** The client's [_buf] and the environment. *)
Record shell (E : Type) := Shell { sbuf : bytes; net : E }.
Arguments Shell {E}. Arguments sbuf {E}. Arguments net {E}.

Definition READY : bytes := txt "SERIALSHELL_READY" ++ [lf].
Definition DONE : bytes := txt "___SERIALSHELL_DONE___" ++ [lf].
Definition QUIT : bytes := txt "SERIALSHELL_QUIT" ++ [lf].
Definition UPLOAD_OK : bytes := txt "SERIALSHELL_UPLOAD_OK".
Definition UPLOAD_FAIL : bytes := txt "SERIALSHELL_UPLOAD_FAIL".

(** [b.split(sep, 1)]; [None] when [sep] does not occur. *)
Fixpoint split_once (sep t : bytes) : option (bytes * bytes) :=
  if startswith sep t then Some ([], drop (length sep) t)
  else match t with [] => None | c :: t' => (λ '(a, b), (c :: a, b)) <$> split_once sep t' end.
(** [b[:n]] and [b[n:]]; a negative [n] counts from the end. *)
Definition bound (n : Z) (b : bytes) : nat := Z.to_nat (if n <? 0 then Z.of_nat (length b) + n else n).
Definition upto (n : Z) (b : bytes) : bytes := take (bound n b) b.
Definition from (n : Z) (b : bytes) : bytes := drop (bound n b) b.
(* ------------------------------------------------------------------ *)
(** ** The client *)

Section client.
Context {E : Type} `{Sock E}.
Abbreviation MS := (M (shell E) exn).
Definition on_net {A} (m : M E exn A) : MS A := λ w, let '(r, e) := m (net w) in (r, Shell (sbuf w) e).
Definition set_buf (b : bytes) : MS unit := modify (λ w, Shell b (net w)).
Definition more (chunk : bytes) : MS unit := modify (λ w, Shell (sbuf w ++ chunk) (net w)).
Definition clock : MS Z := gets (λ w, now (net w)).
(** [settimeout(t)], which refuses a negative [t], and [recv(4096)];
    [None] for [except socket.timeout]. *)
Definition receive (c : nat) (t : Z) : MS (option bytes) :=
  catch (Some <$> (if t <? 0 then raise (EPy ValueError) else on_net (recv c t)))
        (λ e, if is_timeout e then mret None else raise e).

(** The constructor. *)
Fixpoint wait_ready (fuel : nat) (c : nat) (deadline : Z) : MS unit :=
  match fuel with
  | O => spin
  | S fuel =>
      t ← clock;
      if t <? deadline then
        t ← clock;
        r ← receive c (deadline - t);
        match r with
        | None | Some [] => raise (EPy RuntimeError)
        | Some chunk =>
            more chunk;;
            b ← gets sbuf;
            match split_once READY b with
            | Some (_, rest) => set_buf rest
            | None => wait_ready fuel c deadline
            end
        end
      else raise (EPy RuntimeError)
  end.
Definition connect (fuel : nat) (host : string) (port : Z) (connect_timeout : Z) : MS nat :=
  c ← on_net (create_connection host port connect_timeout);
  set_buf [];;
  t ← clock;
  wait_ready fuel c (t + connect_timeout);;
  mret c.

(** The loops that receive until [enough]: with a [deadline] they also stop when
    it has passed; [on_eof] is what they do when the peer has closed. *)
Fixpoint fill (fuel : nat) (c : nat) (enough : bytes → bool) (limited : bool) (deadline : Z) (on_eof : MS unit) : MS unit :=
  match fuel with
  | O => spin
  | S fuel =>
      b ← gets sbuf;
      if enough b then mret tt
      else
        t ← clock;
        if limited && negb (t <? deadline) then mret tt
        else
          t ← clock;
          r ← receive c (Z.max 100 (deadline - t));
          match r with
          | None => fill fuel c enough limited deadline on_eof
          | Some [] => on_eof
          | Some chunk => more chunk;; fill fuel c enough limited deadline on_eof
          end
  end.
Definition has (sep b : bytes) : bool := bool_decide (is_Some (split_once sep b)).
(** [raise ConnectionError(...)], an [OSError] *)
Definition closed : MS unit := raise (EOS OSError "").
Definition await_done (fuel : nat) (c : nat) (deadline : Z) : MS text :=
  fill fuel c (has DONE) true deadline (mret tt);;
  b ← gets sbuf;
  match split_once DONE b with
  | None => raise (EOS TimeoutError "")
  | Some (out, rest) => set_buf rest;; mret out
  end.
Definition cmd (fuel : nat) (c : nat) (command : text) (timeout : Z) : MS text :=
  on_net (sendall c (command ++ [lf]));;
  t ← clock;
  await_done fuel c (t + timeout).

(** [_wait_upload_response] *)
Fixpoint wait_upload_response (fuel : nat) (c : nat) (deadline : Z) : MS unit :=
  match fuel with
  | O => spin
  | S fuel =>
      t ← clock;
      if t <? deadline then
        b ← gets sbuf;
        match split_once [lf] b with
        | Some (line, rest) =>
            set_buf rest;;
            if contains UPLOAD_OK line then mret tt
            else if contains UPLOAD_FAIL line then raise (EPy RuntimeError)
            else wait_upload_response fuel c deadline
        | None =>
            t ← clock;
            r ← receive c (Z.max 100 (deadline - t));
            match r with
            | None => wait_upload_response fuel c deadline
            | Some [] => closed
            | Some chunk => more chunk;; wait_upload_response fuel c deadline
            end
        end
      else raise (EOS TimeoutError "")
  end.
Definition upload_header (guest_path : string) (size : Z) : bytes :=
  txt "SERIALSHELL_UPLOAD " ++ txt guest_path ++ txt " " ++ show_int size ++ [lf].
Definition PIECE : nat := Z.to_nat 8192.
(** The loop over the payload, from its byte [idx]: [n] counts the pieces. *)
Fixpoint send_pieces (n : nat) (c : nat) (rest : bytes) : MS unit :=
  match n, rest with
  | O, _ | _, [] => mret tt
  | S n, _ => on_net (sendall c (take PIECE rest));; send_pieces n c (drop PIECE rest)
  end.
Definition upload_bytes (fuel : nat) (c : nat) (payload : bytes) (guest_path : string) (timeout : Z) : MS unit :=
  on_net (sendall c (upload_header guest_path (Z.of_nat (length payload))));;
  send_pieces (length payload) c payload;;
  t ← clock;
  wait_upload_response fuel c (t + timeout).
(** [upload] of a file that holds [content]: [fh.read] goes through it. *)
Fixpoint send_file (n : nat) (c : nat) (remaining : nat) (rest : bytes) : MS unit :=
  match n with
  | O => mret tt
  | S n =>
      if (0 <? remaining)%nat then
        match take (min PIECE remaining) rest with
        | [] => mret tt
        | chunk => on_net (sendall c chunk);;
                   send_file n c (remaining - length chunk) (drop (min PIECE remaining) rest)
        end
      else mret tt
  end.
Definition upload (fuel : nat) (c : nat) (content : bytes) (guest_path : string) (timeout : Z) : MS unit :=
  on_net (sendall c (upload_header guest_path (Z.of_nat (length content))));;
  send_file (length content) c (length content) content;;
  t ← clock;
  wait_upload_response fuel c (t + timeout).

(** [download_text] *)
Definition file_size (line : text) : res exn Z :=
  if startswith (txt "SERIALSHELL_FILE") line then
    match words line with
    | _ :: n :: _ => match int_of_text 10 n with Some z => Ret z | None => Raise (EPy ValueError) end
    | _ => Raise (EPy IndexError)
    end
  else Raise (EPy RuntimeError).
Definition read_body (fuel : nat) (c : nat) (size deadline : Z) : MS bytes :=
  fill fuel c (λ b, negb (Z.of_nat (length b) <? size)) false deadline closed;;
  b ← gets sbuf;
  set_buf (from size b);;
  mret (upto size b).
Definition drain_done (fuel : nat) (c : nat) (deadline : Z) : MS unit :=
  fill fuel c (has DONE) true deadline (mret tt);;
  b ← gets sbuf;
  match split_once DONE b with Some (_, rest) => set_buf rest | None => mret tt end.
Definition download_text (fuel : nat) (c : nat) (guest_path : string) (timeout : Z) : MS text :=
  on_net (sendall c (txt "SERIALSHELL_DOWNLOAD " ++ txt guest_path ++ [lf]));;
  t ← clock;
  let deadline := t + timeout in
  fill fuel c (has [lf]) true deadline closed;;
  b ← gets sbuf;
  match split_once [lf] b with
  | None => raise (EOS TimeoutError "")
  | Some (line, rest) =>
      set_buf rest;;
      size ← lift (file_size line);
      body ← read_body fuel c size deadline;
      drain_done fuel c deadline;;
      mret body
  end.
(** [close] *)
Definition passing (m : MS unit) : MS unit := catch m (λ e, if is_exception e then mret tt else raise e).
Definition close (c : nat) : MS unit := passing (on_net (sendall c QUIT));; passing (on_net (sock_close c)).
End client.

(* ------------------------------------------------------------------ *)
(** ** Editing [S:Network-Startup] *)

Definition MCPD_PATH : text := txt "SYS:System/MCPd/MCPd".
Definition LEAK : text := txt "serialshell_out_".
(** The lines the scripts drop: launch lines, their comment, and what a
    redirection of SerialShell's own leaves. *)
Definition stale (ln : text) : bool :=
  contains MCPD_PATH ln || contains (txt "MCPd - Model Context Protocol") ln || contains LEAK ln ||
  startswith (txt ">T:") (strip ln).
Definition clean (t : text) : text := mjoin (List.filter (λ ln, negb (stale ln)) (splitlines_keepends t)).
Definition ended (t : text) : text := if endswith [lf] t then t else t ++ [lf].
Definition MCPD_BLOCK : text :=
  [lf] ++ txt "; MCPd - Model Context Protocol daemon" ++ [lf] ++ txt "Run >NIL: <NIL: SYS:System/MCPd/MCPd" ++ [lf].
(** What [install_mcpd_via_serialshell.py] makes of the file, and what
    [fix_a1222_network_startup.py] makes of its backup. *)
Definition new_startup (original : text) : text := ended (clean original) ++ MCPD_BLOCK.
Definition fixed_startup (backup : text) : text :=
  ended (if 0 <? py_count MCPD_PATH backup then clean backup else backup) ++ MCPD_BLOCK.

(* ------------------------------------------------------------------ *)
(** ** The scripts *)

Section scripts.
Context {E : Type} `{Sock E} (fuel : nat) (host : string) (port : Z).
Abbreviation MS := (M (shell E) exn).
Definition run (c : nat) (command : string) : MS text := cmd fuel c (txt command) 30000.
(** [main] of [install_mcpd_via_serialshell.py]; the arguments are the local
    files, [None] for one that is missing. *)
Definition install_session (c : nat) (mcpd serialshell : bytes) : MS unit :=
  upload fuel c serialshell "T:SerialShell" 120000;;
  run c "Copy T:SerialShell C:SerialShell CLONE";;
  run c "Protect C:SerialShell +rwed";;
  run c "Delete T:SerialShell QUIET";;
  upload fuel c mcpd "T:MCPd" 120000;;
  run c "MakeDir SYS:System/MCPd ALL";;
  run c "Copy T:MCPd SYS:System/MCPd/MCPd CLONE";;
  run c "Protect SYS:System/MCPd/MCPd +rwed";;
  run c "Delete T:MCPd QUIET";;
  original ← download_text fuel c "S:Network-Startup" 30000;
  run c "Copy S:Network-Startup S:Network-Startup.before-mcpd CLONE";;
  upload_bytes fuel c (new_startup original) "T:netstart.new" 120000;;
  run c "Copy T:netstart.new S:Network-Startup CLONE";;
  run c "Delete T:netstart.new QUIET";;
  run c "CD SYS:";;
  mret tt.
Definition verify_session (c : nat) : MS (text * text * text) :=
  out_c ← run c "List C:SerialShell QUICK";
  out_mcpd ← run c "List SYS:System/MCPd/ QUICK";
  out_ns ← run c ("Search S:Network-Startup " +:+ str ["034"%char] +:+ "MCPd" +:+ str ["034"%char]);
  mret (out_c, out_mcpd, out_ns).
(** [c = SerialShell(...)], then [try: ... finally: c.close()]. *)
Definition with_shell {A} (body : nat → MS A) : MS A :=
  c ← connect fuel host port 10000;
  finally (body c) (close c).
Definition install_main (mcpd script serialshell : option bytes) : MS Z :=
  match mcpd, script, serialshell with
  | Some mcpd, Some _, Some serialshell =>
      with_shell (λ c, install_session c mcpd serialshell);;
      '(out_c, out_mcpd, out_ns) ← with_shell verify_session;
      mret (if contains (txt "SerialShell") out_c && contains (txt "MCPd") out_mcpd && contains (txt "MCPd") out_ns
            then 0 else 1)
  | _, _, _ => mret 2
  end.
(** [main] of [fix_a1222_network_startup.py]. *)
Definition fix_session (c : nat) : MS unit :=
  backup ← catch (download_text fuel c "S:Network-Startup.before-mcpd" 30000)
             (λ e, if is_exception e then download_text fuel c "S:Network-Startup" 30000 else raise e);
  upload_bytes fuel c (fixed_startup backup) "T:netstart.new" 120000;;
  run c "Copy T:netstart.new S:Network-Startup CLONE";;
  run c "Delete T:netstart.new QUIET";;
  mret tt.
Definition fix_verdict (body : text) : bool := (py_count LEAK body =? 0) && (py_count MCPD_PATH body =? 1).
Definition fix_main : MS Z :=
  with_shell fix_session;;
  body ← with_shell (λ c, download_text fuel c "S:Network-Startup" 30000);
  mret (if fix_verdict body then 0 else 1).
End scripts.

(* ------------------------------------------------------------------ *)
(** ** What the edit makes of the file *)

(** Around a character [p] has not, occurrences are on one side. *)
Lemma startswith_stop p d a b : d ∉ p → startswith p (a ++ d :: b) = startswith p a.
Proof.
  revert a. induction p as [|c p IH]; intros a Hd; [done|]. apply not_elem_of_cons in Hd as [Hc Hd].
  destruct a as [|x a]; cbn [app startswith]; [by rewrite bool_decide_eq_false_2 by done|]. by rewrite IH.
Qed.
Lemma contains_stop p d a b : p ≠ [] → d ∉ p → contains p (a ++ d :: b) = contains p a || contains p b.
Proof.
  intros Hp Hd. induction a as [|x a IH].
  - pose proof (startswith_stop p d [] b Hd) as Hs. cbn [app contains] in *. rewrite Hs. by destruct p.
  - cbn [app contains]. change (x :: a ++ d :: b) with ((x :: a) ++ d :: b).
    rewrite startswith_stop, IH by done. by rewrite orb_assoc.
Qed.
Lemma count_from_stop p d a b : p ≠ [] → d ∉ p → contains p a = false →
  count_from p (a ++ d :: b) 0 = count_from p b 0.
Proof.
  intros Hp Hd. induction a as [|x a IH]; intros Ha; cbn [contains] in Ha.
  - pose proof (startswith_stop p d [] b Hd) as Hs. cbn [app count_from] in *. rewrite Hs. by destruct p.
  - apply orb_false_iff in Ha as [Hs Ha]. cbn [app count_from]. change (x :: a ++ d :: b) with ((x :: a) ++ d :: b).
    rewrite startswith_stop, Hs by done. by apply IH.
Qed.
Lemma count_from_nonneg p t : ∀ k, 0 ≤ count_from p t k.
Proof.
  induction t as [|c t IH]; intros [|k]; cbn [count_from]; try done.
  destruct (startswith p (c :: t)); [|done]. specialize (IH (length p - 1)%nat). lia.
Qed.
Lemma py_count_nonneg p t : 0 ≤ py_count p t.
Proof. unfold py_count. destruct p; [lia|apply count_from_nonneg]. Qed.
Lemma py_count_zero p t : p ≠ [] → py_count p t = 0 ↔ contains p t = false.
Proof.
  intros Hp. unfold py_count. destruct p as [|c p]; [done|]. induction t as [|x t IH]; cbn [count_from contains]; [done|].
  destruct (startswith (c :: p) (x :: t)); cbn [orb]; [|done].
  split; [|done]. pose proof (count_from_nonneg (c :: p) t (length (c :: p) - 1)). lia.
Qed.

(** Lines, each but the last of which ends with a break. *)
Definition broken (ln : text) : Prop := ∃ a c, ln = a ++ [c] ∧ is_break c = true.
Fixpoint all_broken (ls : list text) : Prop :=
  match ls with [] | [_] => True | ln :: ls' => broken ln ∧ all_broken ls' end.
Lemma all_broken_cons ln ls : broken ln → all_broken ls → all_broken (ln :: ls).
Proof. by destruct ls. Qed.
Lemma broken_lines t : ∀ cur, all_broken (map (λ '(l, e), l ++ e) (lines_of t cur)).
Proof.
  remember (length t) as n eqn:Hn. assert (length t ≤ n)%nat as Hle by lia. clear Hn.
  revert t Hle. induction n as [|n IH]; intros [|c t] Hle cur; cbn [length] in Hle; try lia; try by destruct cur.
  rewrite lines_of_cons. destruct (is_break c) eqn:Hc; [|apply IH; lia].
  destruct t as [|d t]; [done|]. cbn [length] in Hle. case_decide as Hcd; cbn [map].
  - destruct Hcd as [-> ->]. apply all_broken_cons; [|apply IH; lia]. exists (reverse cur ++ [cr]), lf.
    by rewrite <-(assoc_L (++)).
  - apply all_broken_cons; [|apply IH; simpl; lia]. by exists (reverse cur), c.
Qed.
Lemma all_broken_filter f ls : all_broken ls → all_broken (List.filter f ls).
Proof.
  induction ls as [|ln [|ln' ls] IH]; intros Hls; [done|by simpl; destruct (f ln)|]. destruct Hls as [Hl Hls].
  specialize (IH Hls). cbn [List.filter] in *. destruct (f ln); [|done]. by apply all_broken_cons.
Qed.
Lemma contains_lines p ls : p ≠ [] → Forall (λ c, is_break c = false) p → all_broken ls →
  contains p (mjoin ls) = existsb (contains p) ls.
Proof.
  intros Hp Hb. induction ls as [|ln [|ln' ls] IH]; intros Hls; [by destruct p|rewrite mjoin_cons, app_nil_r; symmetry; apply orb_false_r|].
  destruct Hls as [(a & c & -> & Hc) Hls].
  assert (c ∉ p) as Hcp by (intros Hin; rewrite Forall_forall in Hb; specialize (Hb _ Hin); congruence).
  change (existsb (contains p) ((a ++ [c]) :: ln' :: ls)) with
    (contains p (a ++ [c]) || existsb (contains p) (ln' :: ls)). rewrite <-IH by done.
  rewrite (mjoin_cons (a ++ [c])), <-(assoc_L (++)). cbn [app]. rewrite !contains_stop by done.
  destruct p; [done|]. by rewrite orb_false_r.
Qed.
Lemma clean_free p t : p ≠ [] → Forall (λ c, is_break c = false) p → (∀ ln, stale ln = false → contains p ln = false) →
  contains p (clean t) = false.
Proof.
  intros Hp Hb Hst. unfold clean. rewrite contains_lines; [|done..|by apply all_broken_filter, broken_lines].
  destruct (existsb _ _) eqn:He; [|done]. apply existsb_exists in He as (ln & Hin & Hc).
  apply filter_In in Hin as [_ Hs]. rewrite Hst in Hc; [done|]. by destruct (stale ln).
Qed.
Lemma stale_path ln : stale ln = false → contains MCPD_PATH ln = false.
Proof. unfold stale. by destruct (contains MCPD_PATH ln). Qed.
Lemma stale_leak ln : stale ln = false → contains LEAK ln = false.
Proof. unfold stale. destruct (contains LEAK ln); [|done]. by rewrite !orb_true_r. Qed.
Lemma ended_lf t : ∃ a, ended t = a ++ [lf].
Proof.
  unfold ended, endswith. destruct (startswith (reverse [lf]) (reverse t)) eqn:Hs; [|by exists t].
  destruct t as [|x t _] using rev_ind; [done|]. rewrite reverse_snoc in Hs. cbn [reverse rev_append startswith] in Hs.
  apply andb_true_iff in Hs as [->%bool_decide_eq_true _]. by exists t.
Qed.
Lemma contains_ended p t : p ≠ [] → lf ∉ p → contains p (ended t) = contains p t.
Proof.
  intros Hp Hl. unfold ended. destruct (endswith [lf] t); [done|]. rewrite contains_stop by done.
  destruct p; [done|]. apply orb_false_r.
Qed.
(** The block appended to a text free of [p] has its own occurrences. *)
Lemma count_block p t : p ≠ [] → lf ∉ p → contains p t = false →
  py_count p (ended t ++ MCPD_BLOCK) = py_count p MCPD_BLOCK.
Proof.
  intros Hp Hl Ht. rewrite <-(contains_ended p) in Ht by done. destruct (ended_lf t) as [a Ha]. rewrite Ha in *.
  rewrite contains_stop in Ht by done. apply orb_false_iff in Ht as [Ht _].
  unfold py_count. destruct p as [|c p]; [done|]. rewrite <-(assoc_L (++)). cbn [app]. by apply count_from_stop.
Qed.
Lemma plain p : forallb (λ c, negb (is_break c)) p = true → Forall (λ c, is_break c = false) p ∧ lf ∉ p.
Proof.
  intros Hf. rewrite forallb_forall in Hf.
  assert (∀ c, c ∈ p → is_break c = false) as Hc by (intros c Hin%list_elem_of_In; specialize (Hf c Hin); by destruct (is_break c)).
  split; [by apply Forall_forall|]. intros Hin. by apply Hc in Hin.
Qed.

(** Whatever the file was, the text written has one launch line and nothing of
    SerialShell's own redirections. *)
Theorem new_startup_launches_once t : fix_verdict (new_startup t) = true.
Proof.
  destruct (plain MCPD_PATH eq_refl) as [Hp Hpl], (plain LEAK eq_refl) as [Hk Hkl].
  unfold fix_verdict, new_startup. rewrite !count_block; try done; apply clean_free; auto using stale_path, stale_leak.
Qed.
(** [fix_a1222_network_startup.py] gives such a text unless its backup, without
    a launch line, has leaks, which it then keeps. *)
Theorem fixed_startup_verdict t :
  fix_verdict (fixed_startup t) = contains MCPD_PATH t || negb (contains LEAK t).
Proof.
  destruct (plain MCPD_PATH eq_refl) as [Hp Hpl], (plain LEAK eq_refl) as [Hk Hkl].
  pose proof (py_count_zero MCPD_PATH t ltac:(done)) as Hz. unfold fixed_startup.
  destruct (contains MCPD_PATH t) eqn:Hc.
  - assert (0 < py_count MCPD_PATH t) as Hpos.
    { destruct (Z.eq_dec (py_count MCPD_PATH t) 0) as [H0|]; [apply Hz in H0; congruence|].
      assert (0 ≤ py_count MCPD_PATH t) by apply py_count_nonneg. lia. }
    replace (0 <? py_count MCPD_PATH t) with true by lia. apply new_startup_launches_once.
  - rewrite (proj2 Hz eq_refl). cbn [Z.ltb Z.compare orb]. unfold fix_verdict. rewrite (count_block MCPD_PATH) by done.
    destruct (contains LEAK t) eqn:Hl; [|by rewrite count_block].
    replace (py_count LEAK _ =? 0) with false; [done|]. symmetry. apply Z.eqb_neq. intros H0.
    apply py_count_zero in H0; [|done]. destruct (ended_lf t) as [a Ha]. rewrite <-(contains_ended LEAK) in Hl by done.
    rewrite Ha in *. rewrite contains_stop in Hl by done. rewrite <-(assoc_L (++)) in H0. cbn [app] in H0.
    rewrite contains_stop in H0 by done. apply orb_false_iff in H0 as [H0 _]. by rewrite H0 in Hl.
Qed.
(* ------------------------------------------------------------------ *)
(** ** Answers do not depend on how they arrive *)

Lemma startswith_long p t s : (length p ≤ length t)%nat → startswith p (t ++ s) = startswith p t.
Proof.
  revert t. induction p as [|c p IH]; intros [|d t] Hl; cbn [startswith app length] in *; try done; [lia|].
  by rewrite IH by lia.
Qed.
Lemma startswith_length p t : startswith p t = true → (length p ≤ length t)%nat.
Proof.
  revert t. induction p as [|c p IH]; intros [|d t]; cbn [startswith length]; try done; [lia..|].
  intros [_ ?%IH]%andb_true_iff. lia.
Qed.
Lemma split_once_length sep t x : split_once sep t = Some x → (length sep ≤ length t)%nat.
Proof.
  revert x. induction t as [|c t IH]; intros x; cbn [split_once]; case_match eqn:Hs; try done;
    try by intros; apply startswith_length.
  intros (y & Hy & _)%fmap_Some. specialize (IH _ Hy). simpl. lia.
Qed.
Lemma split_once_app sep t s a b : split_once sep t = Some (a, b) → split_once sep (t ++ s) = Some (a, b ++ s).
Proof.
  revert a. induction t as [|c t IH]; intros a.
  - cbn [split_once]. destruct sep; [|done]. intros [= <- <-]. simpl. by destruct s.
  - intros Ht. pose proof (split_once_length _ _ _ Ht) as Hl. revert Ht. cbn [app split_once].
    change (c :: t ++ s) with ((c :: t) ++ s). rewrite startswith_long by done.
    destruct (startswith sep (c :: t)).
    + intros [= <- <-]. f_equal. f_equal. by rewrite drop_app_le by done.
    + intros ([a' b'] & Ht & Heq)%fmap_Some. injection Heq as -> ->. by rewrite (IH _ Ht).
Qed.

(** What the peer sends on [c] and [recv] has not given out yet.  [recv] takes
    from its front; it says that it timed out no sooner than it was told to. *)
Class StreamSock (E : Type) `{Sock E} := {
  stream : nat → E → bytes;
  recv_law c t e : let '(r, e') := recv c t e in
    now e ≤ now e' ∧
    match r with
    | Ret b => stream c e = b ++ stream c e'
    | Raise x => stream c e' = stream c e ∧ (is_timeout x = true → now e + t ≤ now e')
    | Spin => False
    end }.

Section streams.
Context {E : Type} `{StreamSock E} (c : nat).
Abbreviation MS := (M (shell E) exn).
Implicit Types w : shell E.
(** All that is still to be read. *)
Definition total w : bytes := sbuf w ++ stream c (net w).

Lemma receive_spec t w : 0 ≤ t →
  wp (receive c t) (λ r w', now (net w) ≤ now (net w') ∧ sbuf w' = sbuf w ∧
    match r with
    | Ret (Some b) => stream c (net w) = b ++ stream c (net w')
    | Ret None => stream c (net w') = stream c (net w) ∧ now (net w) + t ≤ now (net w')
    | Raise _ => stream c (net w') = stream c (net w)
    | Spin => False
    end) w.
Proof.
  intros Ht. unfold receive. replace (t <? 0) with false by lia. apply wp_catch, wp_fmap. unfold wp, on_net.
  pose proof (recv_law c t (net w)) as Hl. destruct (recv c t (net w)) as [[b|x|] e']; cbn [fst snd sbuf net] in *;
    [by destruct Hl| |by destruct Hl as [_ []]]. destruct Hl as (? & ? & Hx). destruct (is_timeout x); split_and!; auto. by split; [|apply Hx].
Qed.
(** The rounds that are enough: one per byte, one that times out, and the last. *)
Definition rounds (deadline : Z) w : nat := length (stream c (net w)) + (if now (net w) <? deadline then 1 else 0) + 1.
Definition keeps_total (m : MS unit) : Prop := ∀ w, wp m (λ r w', total w' = total w ∧ r ≠ Spin) w.
Lemma fill_exact enough deadline on_eof fuel w : keeps_total on_eof → (rounds deadline w ≤ fuel)%nat →
  wp (fill fuel c enough true deadline on_eof) (λ r w', total w' = total w ∧ r ≠ Spin) w.
Proof.
  intros Heof. revert w. induction fuel as [|fuel IH]; intros w Hf; [unfold rounds in Hf; lia|]. cbn [fill].
  apply wp_bind, wp_gets. destruct (enough (sbuf w)); [by apply wp_ret|]. apply wp_bind, wp_gets.
  destruct (Z.ltb_spec (now (net w)) deadline) as [Hd|Hd]; cbn [andb negb]; [|by apply wp_ret].
  apply wp_bind, wp_gets. apply wp_bind. eapply wp_mono; [apply receive_spec; lia|].
  unfold rounds in *. rewrite (proj2 (Z.ltb_lt _ _) Hd) in Hf.
  intros [[[|x b]|]|e|] w1 (Hn & Hb & Hs); try (split; [unfold total; congruence|done]).
  - eapply wp_mono; [apply Heof|]. intros r w2 [-> ?]. split; [|done]. unfold total. by rewrite Hb, Hs.
  - apply wp_bind, wp_modify. eapply wp_mono; [apply IH|].
    + cbn [net]. rewrite Hs in Hf. rewrite length_app in Hf. simpl in Hf. destruct (_ <? _); lia.
    + intros r w2 [-> ?]. split; [|done]. unfold total. cbn [sbuf net]. by rewrite Hb, Hs, <-(assoc_L (++)).
  - destruct Hs as [Hs Ht]. eapply wp_mono; [apply IH|].
    + rewrite Hs. replace (now (net w1) <? deadline) with false by lia. lia.
    + intros r w2 [-> ?]. split; [|done]. unfold total. by rewrite Hb, Hs.
  - by destruct Hs.
Qed.
Lemma keeps_ret : keeps_total (mret tt).
Proof. intros w. by apply wp_ret. Qed.
Lemma keeps_closed : keeps_total closed.
Proof. intros w. by apply wp_raise. Qed.

(** Taking up to a mark the buffer holds is taking up to it in the whole. *)
Lemma split_total sep w a b : split_once sep (sbuf w) = Some (a, b) →
  split_once sep (total w) = Some (a, total (Shell b (net w))).
Proof. apply split_once_app. Qed.

(** The reply is what the peer sends up to the first [DONE], however it is cut;
    what follows is left for the next reply, and a failure loses nothing. *)
Theorem await_done_exact deadline fuel w : (rounds deadline w ≤ fuel)%nat →
  wp (await_done fuel c deadline) (λ r w', match r with
    | Ret out => split_once DONE (total w) = Some (out, total w')
    | Raise _ => total w' = total w
    | Spin => False
    end) w.
Proof.
  intros Hf. unfold await_done. apply wp_bind. eapply wp_mono; [by apply fill_exact; [apply keeps_ret|]|].
  intros [[]|e|] w1 [Ht Hs]; [|done|done]. apply wp_bind, wp_gets. rewrite <-Ht.
  destruct (split_once DONE (sbuf w1)) as [[out rest]|] eqn:Hd; [|by apply wp_raise].
  apply wp_bind, wp_modify, wp_ret. by apply split_total.
Qed.

(** C38: [cmd]: the send, then the reply: what the peer says up to the first [DONE],
    however it arrives, and what follows is left for the next reply; a failure
    loses nothing.  [total] of the world after the send is all
    the peer will say.  The fuel is one round per byte and one that times out. *)
Theorem cmd_exact command timeout fuel w :
  let s := on_net (sendall c (command ++ [lf])) w in
  (rounds (now (net s.2) + timeout) s.2 ≤ fuel)%nat →
  wp (cmd fuel c command timeout) (λ r w', match r with
    | Ret out => s.1 = Ret tt ∧ split_once DONE (total s.2) = Some (out, total w')
    | Raise _ => total w' = total s.2
    | Spin => s.1 = Spin
    end) w.
Proof.
  intros s Hf. unfold cmd. apply wp_bind. unfold wp at 1. fold s. destruct s as [[[]|x|] w1]; cbn [fst snd] in *; [|done..].
  apply wp_bind, wp_gets. eapply wp_mono; [by apply await_done_exact|]. by intros [out|x|] w2 Hw.
Qed.
(** The loops without a bound of their own keep what is still to be read, too. *)
Lemma fill_keeps enough limited deadline on_eof fuel w : keeps_total on_eof →
  wp (fill fuel c enough limited deadline on_eof) (λ _ w', total w' = total w) w.
Proof.
  intros Heof. revert w. induction fuel as [|fuel IH]; intros w; [done|]. cbn [fill].
  apply wp_bind, wp_gets. destruct (enough (sbuf w)); [by apply wp_ret|]. apply wp_bind, wp_gets.
  destruct (limited && _); [by apply wp_ret|]. apply wp_bind, wp_gets, wp_bind.
  eapply wp_mono; [apply receive_spec; lia|]. intros [[[|x b]|]|e|] w1 (Hn & Hb & Hs); [..|done].
  - eapply wp_mono; [apply Heof|]. intros r w2 [-> ?]. unfold total. by rewrite Hb, Hs.
  - apply wp_bind, wp_modify. eapply wp_mono; [apply IH|]. intros r w2 ->. unfold total. cbn [sbuf net].
    by rewrite Hb, Hs, <-(assoc_L (++)).
  - eapply wp_mono; [apply IH|]. intros r w2 ->. unfold total. destruct Hs as [Hs _]. by rewrite Hb, Hs.
  - unfold total. by rewrite Hb, Hs.
Qed.
Lemma fill_until enough deadline fuel w :
  wp (fill fuel c enough false deadline closed) (λ r w', r = Ret tt → enough (sbuf w') = true) w.
Proof.
  revert w. induction fuel as [|fuel IH]; intros w; [done|]. cbn [fill]. apply wp_bind, wp_gets.
  destruct (enough (sbuf w)) eqn:He; [by apply wp_ret|]. apply wp_bind, wp_gets, wp_bind, wp_gets, wp_bind.
  eapply wp_mono; [apply receive_spec; lia|]. intros [[[|x b]|]|e|] w1 _; try done.
  apply wp_bind, wp_modify, IH.
Qed.
Lemma drain_any deadline fuel w :
  wp (drain_done fuel c deadline) (λ r w', total w' = total w ∨ ∃ junk, split_once DONE (total w) = Some (junk, total w')) w.
Proof.
  unfold drain_done. apply wp_bind. eapply wp_mono; [apply fill_keeps, keeps_ret|].
  intros [[]|e|] w1 Ht; [|by left..]. apply wp_bind, wp_gets. rewrite <-Ht.
  destruct (split_once DONE (sbuf w1)) as [[junk rest]|] eqn:Hd; [|by apply wp_ret; left].
  apply wp_modify. right. exists junk. by apply split_total.
Qed.
(** [download_text]: the announced number of bytes, and behind them the mark,
    unless it had not come by the deadline: then it is still to be read, and the
    next reply is taken to end at it. *)
Theorem download_exact guest_path timeout fuel w :
  let s := on_net (sendall c (txt "SERIALSHELL_DOWNLOAD " ++ txt guest_path ++ [lf])) w in
  wp (download_text fuel c guest_path timeout) (λ r w', ∀ body, r = Ret body → ∃ line file size,
    split_once [lf] (total s.2) = Some (line, file) ∧ file_size line = Ret size ∧
    (0 ≤ size → body = take (Z.to_nat size) file ∧ Z.of_nat (length body) = size ∧
      let rest := drop (Z.to_nat size) file in
      total w' = rest ∨ ∃ junk, split_once DONE rest = Some (junk, total w'))) w.
Proof.
  intros s. unfold download_text. apply wp_bind. unfold wp at 1. fold s. destruct s as [[[]|x|] w1]; [|done..].
  cbn [fst snd]. apply wp_bind, wp_gets. cbv zeta. apply wp_bind.
  eapply wp_mono; [apply fill_keeps, keeps_closed|]. intros [[]|x|] w2 Hw2; [|done..]. apply wp_bind, wp_gets.
  destruct (split_once [lf] (sbuf w2)) as [[line rest]|] eqn:Hl; [|by apply wp_raise].
  apply split_total in Hl. rewrite Hw2 in Hl. apply wp_bind, wp_modify. cbn [net]. set (w3 := Shell rest (net w2)) in *.
  apply wp_bind, wp_lift. destruct (file_size line) as [size|x|] eqn:Hz; [|done..].
  unfold read_body. apply wp_bind, wp_bind.
  eapply wp_mono; [apply wp_conj; [apply (fill_keeps (λ b, negb (Z.of_nat (length b) <? size)) false _ closed), keeps_closed|apply fill_until]|].
  intros [[]|x|] w4 [Hw4 Hen]; [|done..]. specialize (Hen eq_refl). cbv beta in Hen.
  apply wp_bind, wp_gets, wp_bind, wp_modify, wp_ret, wp_bind.
  eapply wp_mono; [apply drain_any|]. intros [[]|x|] w5 Hw5; [|done..]. apply wp_ret. intros body [= <-].
  exists line, (total w3), size. split_and!; [done..|]. intros Hsz. unfold upto, from, bound in *.
  replace (size <? 0) with false in * by lia. rewrite <-Hw4.
  assert (take (Z.to_nat size) (total w4) = take (Z.to_nat size) (sbuf w4)) as -> by (apply take_app_le; lia).
  assert (drop (Z.to_nat size) (total w4) = total (Shell (drop (Z.to_nat size) (sbuf w4)) (net w4))) as ->
    by (apply drop_app_le; lia).
  split_and!; [done|rewrite length_take; lia|exact Hw5].
Qed.

(** *** A body that stops coming *)

(** From [P] on, every [recv] times out. *)
Definition mute (P : E → Prop) : Prop :=
  ∀ e t, P e → 0 ≤ t → ∃ x e', recv c t e = (Raise x, e') ∧ is_timeout x = true ∧ P e'.
(** The loop over a file's body looks at no clock: when the peer falls silent
    before the announced size, it never ends, whatever [timeout] was given. *)
Theorem body_waits_forever P size deadline fuel w :
  mute P → P (net w) → Z.of_nat (length (sbuf w)) < size → (read_body fuel c size deadline w).1 = Spin.
Proof.
  intros Hm Hp Hb. change (wp (read_body fuel c size deadline) (λ r _, r = Spin) w).
  apply wp_bind, (wp_mono _ (λ r _, r = Spin)); [|by intros r w' ->]. revert w Hp Hb.
  induction fuel as [|fuel IH]; intros w Hp Hb; [done|]. cbn [fill]. apply wp_bind, wp_gets.
  replace (Z.of_nat (length (sbuf w)) <? size) with true by lia. cbn [negb andb].
  apply wp_bind, wp_gets, wp_bind, wp_gets, wp_bind, wp_catch, wp_fmap.
  replace (Z.max 100 (deadline - now (net w)) <? 0) with false by lia. unfold wp at 1, on_net.
  destruct (Hm (net w) (Z.max 100 (deadline - now (net w))) Hp) as (x & e' & -> & Hx & Hp'); [lia|].
  cbn [fst snd]. rewrite Hx. apply wp_ret. by apply IH.
Qed.
End streams.
(* ------------------------------------------------------------------ *)
(** ** A machine to run them on

    A SerialShell with a few commands over files kept in memory.  It hands out
    what it has to say [piece] bytes at a time, then times out. *)
Record guest := Guest {
  inbox : bytes; outbox : bytes; receiving : option (string * nat); files : list (string * text);
  time : Z; piece : nat }.
Definition say (b : bytes) (g : guest) : guest :=
  Guest (inbox g) (outbox g ++ b) (receiving g) (files g) (time g) (piece g).
Definition set_files (f : list (string * text)) (g : guest) : guest :=
  Guest (inbox g) (outbox g) (receiving g) f (time g) (piece g).
Definition file_named (p : string) (g : guest) : option text := assoc p (files g).
(** One line, in words. *)
Definition execute (ws : list text) (g : guest) : guest :=
  let says (name : string) := bool_decide (ws !! 0%nat = Some (txt name)) in
  let arg (i : nat) : string := str (default [] (ws !! i)) in
  if says "SERIALSHELL_UPLOAD" then
    Guest (inbox g) (outbox g) (Some (arg 1%nat, Z.to_nat (default 0 (int_of_text 10 (txt (arg 2%nat))))))
      (files g) (time g) (piece g)
  else if says "SERIALSHELL_DOWNLOAD" then
    match file_named (arg 1%nat) g with
    | Some t => say (txt "SERIALSHELL_FILE " ++ show_int (Z.of_nat (length t)) ++ [lf] ++ t ++ DONE) g
    | None => say (txt "SERIALSHELL_ERROR" ++ [lf]) g
    end
  else if says "SERIALSHELL_QUIT" then g
  else if says "Copy" then
    match file_named (arg 1%nat) g with
    | Some t => say DONE (set_files (dict_set (arg 2%nat) t (files g)) g)
    | None => say (txt "object not found" ++ [lf] ++ DONE) g
    end
  else if says "Delete" then say DONE (set_files (dict_del (arg 1%nat) (files g)) g)
  else if says "List" then
    let shown := List.filter (λ kv, startswith (txt (arg 1%nat)) (txt kv.1)) (files g) in
    say (mjoin (map (λ kv, txt kv.1 ++ [lf]) shown) ++ DONE) g
  else if says "Search" then
    say (mjoin (List.filter (contains (txt "MCPd")) (splitlines_keepends (default [] (file_named (arg 1%nat) g)))) ++ DONE) g
  else say DONE g.
Fixpoint serve (n : nat) (g : guest) : guest :=
  match n with
  | O => g
  | S n =>
      match receiving g with
      | Some (p, k) =>
          if (k <=? length (inbox g))%nat then
            serve n (say (UPLOAD_OK ++ [lf])
              (Guest (drop k (inbox g)) (outbox g) None (dict_set p (take k (inbox g)) (files g)) (time g) (piece g)))
          else g
      | None =>
          match split_once [lf] (inbox g) with
          | Some (line, rest) =>
              serve n (execute (words line) (Guest rest (outbox g) None (files g) (time g) (piece g)))
          | None => g
          end
      end
  end.
#[export] Instance guest_sock : Sock guest := {|
  create_connection host port t := λ g, (Ret 0%nat, Guest [] READY None (files g) (time g) (piece g));
  recv c t := λ g,
    match outbox g with
    | [] => (Raise (EOS TimeoutError ""), Guest (inbox g) [] (receiving g) (files g) (time g + Z.max 0 t) (piece g))
    | out => (Ret (take (piece g) out),
              Guest (inbox g) (drop (piece g) out) (receiving g) (files g) (time g + 1) (piece g))
    end;
  sendall c b := λ g, (Ret tt, serve 20 (Guest (inbox g ++ b) (outbox g) (receiving g) (files g) (time g) (piece g)));
  sock_close c := mret tt;
  now := time |}.
#[export, refine] Instance guest_stream : StreamSock guest := {| stream c g := outbox g |}.
Proof.
  intros c t g. cbn. destruct (outbox g) as [|x o]; cbn; [split; [lia|]; split; [done|lia]|].
  split; [lia|]. by rewrite take_drop.
Defined.
Definition machine (startup : text) (piece : nat) : shell guest :=
  Shell [] (Guest [] [] None [("S:Network-Startup"%string, startup)] 0 piece).
Definition line (s : string) : text := txt s ++ [lf].
Definition startup_of (w : shell guest) : option text := file_named "S:Network-Startup" (net w).
Definition backup_of (w : shell guest) : option text := file_named "S:Network-Startup.before-mcpd" (net w).
(** A file an earlier version of the script left: a launch line with the
    capture of SerialShell in it. *)
Definition leaked : text :=
  line "AddNetInterface DEVS:NetInterfaces/eth" ++
  line "Run >NIL: <NIL: SYS:System/MCPd/MCPd >T:serialshell_out_0x5" ++ line "Mount SMB0:".
Definition ran (startup : text) : res exn Z * shell guest :=
  install_main 2000 "amiga" 4321 (Some (txt "daemon")) (Some []) (Some (txt "shell")) (machine startup 7).

(** A whole installation.  The backup is a copy of the file as it was found, not,
    as its comment says, of the cleaned one. *)
Example ex_install :
  (ran leaked).1 = Ret 0 ∧
  startup_of (ran leaked).2 =
    Some (line "AddNetInterface DEVS:NetInterfaces/eth" ++ line "Mount SMB0:" ++ MCPD_BLOCK) ∧
  backup_of (ran leaked).2 = Some leaked.
Proof. vm_compute. by split_and!. Qed.
(** Every run adds an empty line: the one in front of the block is kept. *)
Example ex_reinstall :
  let t := new_startup (line "Mount SMB0:") in
  t = line "Mount SMB0:" ++ MCPD_BLOCK ∧ new_startup t = line "Mount SMB0:" ++ [lf] ++ MCPD_BLOCK ∧
  new_startup (new_startup t) = line "Mount SMB0:" ++ [lf; lf] ++ MCPD_BLOCK.
Proof. vm_compute. by split_and!. Qed.
(** The repair: from a leaked backup with a launch line it succeeds, and from one
    with a leak only it fails. *)
Definition repaired (backup : text) : res exn Z * shell guest :=
  fix_main 2000 "amiga" 4321 (Shell [] (Guest [] [] None
    [("S:Network-Startup", leaked); ("S:Network-Startup.before-mcpd", backup)]%string 0 5)).
Example ex_fix :
  (repaired leaked).1 = Ret 0 ∧ (repaired (line "Echo >T:serialshell_out_0x5")).1 = Ret 1.
Proof. vm_compute. by split. Qed.
Lemma cmd_exact_witness :
  let w := machine leaked 3 in
  (cmd 500 0 (txt "Search S:Network-Startup MCPd") 30000 w).1 =
    Ret (line "Run >NIL: <NIL: SYS:System/MCPd/MCPd >T:serialshell_out_0x5") ∧
  wp (cmd 500 0 (txt "Search S:Network-Startup MCPd") 30000) (λ r w', match r with
    | Ret out => split_once DONE (out ++ DONE) = Some (out, total 0 w')
    | _ => False
    end) w.
Proof.
  split; [vm_compute; reflexivity|]. pose proof (cmd_exact 0 (txt "Search S:Network-Startup MCPd") 30000 500 (machine leaked 3)) as Hc.
  cbv zeta in Hc. specialize (Hc ltac:(vm_compute; lia)). revert Hc. vm_compute. by intros [_ Hc].
Defined.
