(* ===== verification/Autostart.v ===== *)
(** * Starting MCPd with the machine: [scripts/install_mcpd_autostart.py]

    The script writes the daemon, its watchdog and the operator's helpers
    through a running MCPd, keeps a backup of [S:Network-Startup] and adds the
    launch line to it.  It uses the file and job tools as the server does. *)
From S2P Require Import Prelude Py Bytes Config Fleet Fs Lines Kicklayout Schema System SandboxText Sandbox Exec FleetStatus Suites.

Definition MARKER_BARE : text := txt "Run >NIL: <NIL: SYS:System/MCPd/MCPd" ++ [lf].
Definition MARKER_WATCHDOG : text := txt "Execute SYS:System/MCPd/MCPd-Watchdog".
Definition APPEND_LINES : list text :=
  [[]; txt "; MCPd - Model Context Protocol daemon (auto-installed, watchdog'd)";
   txt "Run >NIL: <NIL: Execute SYS:System/MCPd/MCPd-Watchdog"].
Definition NETSTART : string := "S:Network-Startup".
Definition BACKUP : string := "S:Network-Startup.before-mcpd".

(** Step 5: what is written over [cur]; [None] when it is left alone. *)
Definition is_eol (c : ascii) : bool := bool_decide (c = lf ∨ c = cr).
Definition patch (cur : text) : option text :=
  if contains MARKER_WATCHDOG cur then None
  else if contains MARKER_BARE cur then
    Some (py_replace MARKER_BARE (default [] (APPEND_LINES !! 2%nat) ++ [lf]) cur)
  else Some (rstrip_of is_eol cur ++ [lf] ++ join [lf] APPEND_LINES ++ [lf]).

Section script.
Context {S : Type} `{Rpc S} `{Pydantic}.
Context (fl : Fleet) (mcpd_for : string → M S exn unit) (clock_of : S → Z) (token_hex : nat → M S exn text).
Context (repr : json → text) (utf8_replace : bytes → text) (exn_text : exn → text).
Abbreviation MB := (M (sbx S) exn).
Abbreviation W := (target_wire mcpd_for).

(** [_exists], [_read_text] and [_write_text] *)
Definition exists_ (target path : string) : MB bool :=
  catch (fs_stat mcpd_for target path;; mret true) (λ e, if is_exception e then mret false else raise e).
Definition text_in (v : json) : res exn text :=
  match py_b64decode (txt (field_str "content_b64" v)) with Some b => Ret b | None => Raise (EPy ValueError) end.
Definition read_text (target path : string) : MB text :=
  v ← System.fs_read (H:=W) target path None None;
  lift (text_in v).
Definition write_bytes (target path : string) (content : bytes) : MB unit :=
  System.fs_write (H:=W) target path (str (py_b64encode content)) false None;;
  mret tt.
(** Step 1 *)
Definition benign (e : exn) : bool :=
  contains (txt "already") (map lower (exn_text e)) || contains (txt "203") (exn_text e).
Definition make_drawer (target : string) : MB unit :=
  catch (System.fs_makedir (H:=W) target "SYS:System/MCPd";; mret tt) (λ e,
    if is_exception e then
      if benign e then mret tt
      else there ← exists_ target "SYS:System/MCPd"; if there : bool then mret tt else raise e
    else raise e).
(** Steps 2 and 3; [watchdog] and the helpers are local files that may be
    missing. *)
Definition protect (target : string) : MB unit :=
  rc ← exec_cmd fl mcpd_for clock_of token_hex repr utf8_replace target (txt "Protect")
         [txt "SYS:System/MCPd/MCPd"; txt "+rwed"] None 30000 None false None;
  if bool_decide (x_exit_code rc = Some 0) then mret tt else raise (EPy RuntimeError).
Definition upload_helper (target name : string) (local : option bytes) : MB unit :=
  match local with
  | None => mret tt
  | Some content => write_bytes target ("SYS:System/MCPd/" +:+ name) content
  end.
(** Step 4 *)
Definition keep_backup (target : string) : MB unit :=
  there ← exists_ target BACKUP;
  if there : bool then mret tt
  else
    ns_text ← read_text target NETSTART;
    write_bytes target BACKUP ns_text.
(** Steps 5 and 6 *)
Definition launch (target : string) : MB unit :=
  cur ← read_text target NETSTART;
  (match patch cur with Some new => write_bytes target NETSTART new | None => mret tt end);;
  after ← read_text target NETSTART;
  if contains MARKER_WATCHDOG after then mret tt else raise (EPy RuntimeError).
Definition install (target : string) (binary : bytes) (watchdog enable disable : option bytes) : MB unit :=
  make_drawer target;;
  write_bytes target "SYS:System/MCPd/MCPd" binary;;
  protect target;;
  match watchdog with
  | None => raise (EPy RuntimeError)
  | Some wd =>
      write_bytes target "SYS:System/MCPd/MCPd-Watchdog" wd;;
      upload_helper target "MCPd-Enable-Input" enable;;
      upload_helper target "MCPd-Disable-Input" disable;;
      keep_backup target;;
      launch target
  end.
End script.

(* ------------------------------------------------------------------ *)
(** ** The edit *)

(** What is written has the launcher, so the next run leaves it alone. *)
Lemma patch_marks cur new : patch cur = Some new → contains MARKER_WATCHDOG new = true.
Proof.
  unfold patch. destruct (contains MARKER_WATCHDOG cur); [done|]. destruct (contains MARKER_BARE cur) eqn:Hb; intros <-%(inj Some).
  - apply (replaced_contains _ (default [] (APPEND_LINES !! 2%nat) ++ [lf])) in Hb; [|done].
    apply contains_infix in Hb as (a & b & Hb).
    change (contains MARKER_WATCHDOG (replace_from MARKER_BARE (default [] (APPEND_LINES !! 2%nat) ++ [lf]) cur 0) = true).
    rewrite Hb. apply contains_app_r, contains_app_l. by vm_compute.
  - do 2 apply contains_app_r. by vm_compute.
Qed.

(* ------------------------------------------------------------------ *)
(** ** What a run asks for, in order *)

(** A request with what came of it, and a service that keeps a list of them. *)
Abbreviation exchange := (string * json * res exn json)%type.
Section order.
Context {E : Type} `{Rpc E} `{Pydantic}.
Abbreviation R := (E * list exchange)%type.
Definition silently {A} (m : M E exn A) : M R exn A := λ s, let '(r, e) := m s.1 in (r, (e, s.2)).
#[export] Instance logged : Rpc R := {|
  call t m p timeout := λ s, let '(r, e) := call t m p timeout s.1 in (r, (e, s.2 ++ [(m, p, r)]));
  pause n := silently (pause n) |}.
Context (fl : Fleet) (mcpd_for : string → M E exn unit) (clock_of : E → Z) (token_hex : nat → M E exn text).
Context (repr : json → text) (utf8_replace : bytes → text) (exn_text : exn → text) (target : string).
Abbreviation up := (λ t, silently (mcpd_for t)).
Abbreviation MB := (M (sbx R) exn).
Abbreviation W := (target_wire up).
Definition log (w : sbx R) : list exchange := (svc (hst w)).2.
Implicit Types w : sbx R.

Definition path_of (p : string) : json := JObj [("path"%string, JStr p)].
Definition write_of (p : string) (t : text) : json :=
  JObj [("path", JStr p); ("content_b64", JStr (str (py_b64encode t)))]%string.
(** Exchanges that do not write the startup file. *)
Definition elsewhere (x : exchange) : Prop := ¬ (x.1.1 = "fs.write"%string ∧ jget "path" x.1.2 = Some (JStr NETSTART)).
Definition adds : relation (sbx R) := λ w w', ∃ l, log w' = log w ++ l ∧ Forall elsewhere l.
#[local] Instance adds_preorder : PreOrder adds.
Proof.
  split; [intros w; exists []; by rewrite app_nil_r|]. intros w1 w2 w3 (l1 & Hl1 & ?) (l2 & Hl2 & ?).
  exists (l1 ++ l2). split; [by rewrite Hl2, Hl1, app_assoc|]. by apply Forall_app.
Qed.
(** The text an answer of [fs.read] gives. *)
Definition text_of (raw : json) : option text :=
  match model_validate FsReadResult raw with
  | Ret v => match text_in v with Ret t => Some t | _ => None end
  | _ => None
  end.
Definition no_ret {A} (r : res exn A) : Prop := ∀ a, r ≠ Ret a.

Lemma rpc_log m p timeout w : wp (rpc target m p timeout) (λ r w', log w' = log w ++ [(m, p, r)]) w.
Proof.
  unfold rpc. apply wp_bind, wp_gets, wp_bind, wp_modify, wp_bind.
  unfold wp at 1, on_service, on_host, on_svc, log. cbn [hst svc call logged].
  by destruct (call target m p timeout (svc (hst w)).1) as [[a|x|] e].
Qed.
Lemma mcpd_log w : wp (mcpd_of up target) (λ r w', log w' = log w) w.
Proof.
  unfold wp, mcpd_of, on_service, on_host, on_svc, silently, log. by destruct (mcpd_for target (svc (hst w)).1) as [r e].
Qed.
Lemma ask_log m p timeout w :
  wp (ask_daemon (Wire:=W) target m p timeout) (λ r w',
    (log w' = log w ∧ no_ret r) ∨ log w' = log w ++ [(m, default JNull p, r)]) w.
Proof.
  apply wp_bind. eapply wp_mono; [apply mcpd_log|]. intros [[]|x|] w1 Hw1; [|by left..].
  eapply wp_mono; [apply rpc_log|]. intros r w2 Hw2. right. by rewrite Hw2, Hw1.
Qed.

(** ** Steps that leave the startup file alone *)

Lemma quiet_rpc m p timeout : (∀ r, elsewhere (m, p, r)) → respects adds (rpc target m p timeout).
Proof. intros Hm w. exists [(m, p, (rpc target m p timeout w).1)]. split; [apply rpc_log|by constructor]. Qed.
Lemma quiet_mcpd : respects adds (mcpd_of up target).
Proof. intros w. exists []. rewrite app_nil_r. split; [apply mcpd_log|done]. Qed.
Lemma quiet_ask m p timeout : (∀ r, elsewhere (m, default JNull p, r)) →
  respects adds (ask_daemon (Wire:=W) target m p timeout).
Proof. intros Hm. apply (respects_bind _); [apply quiet_mcpd|]. intros _. by apply quiet_rpc. Qed.
Lemma quiet_other m p : m ≠ "fs.write"%string → ∀ r, elsewhere (m, p, r).
Proof. intros Hm r [? _]. done. Qed.
Lemma quiet_write path t : path ≠ NETSTART → respects adds (write_bytes up target path t).
Proof.
  intros Hp. unfold write_bytes. apply (respects_bind _); [|intros; respects_tac].
  apply (respects_bind _); [|intros; apply (respects_lift _)]. apply quiet_ask. intros r [_ Hj]. by injection Hj as ->.
Qed.
Lemma quiet_exists path : respects adds (exists_ up target path).
Proof.
  unfold exists_. apply (respects_catch _); [|intros; respects_tac]. apply (respects_bind _); [|intros; respects_tac].
  apply (respects_bind _); [|intros raw; respects_tac].
  apply (respects_bind _); [apply quiet_mcpd|]. intros _. by apply quiet_rpc, quiet_other.
Qed.
Lemma quiet_drawer : respects adds (make_drawer up exn_text target).
Proof.
  unfold make_drawer. apply (respects_catch _).
  - apply (respects_bind _); [|intros; respects_tac]. apply (respects_bind _); [by apply quiet_ask, quiet_other|].
    intros raw. respects_tac.
  - intros e. destruct (is_exception e); [|respects_tac]. destruct (benign _ e); [respects_tac|].
    apply (respects_bind _); [apply quiet_exists|intros; respects_tac].
Qed.
Lemma quiet_ret_bind {A B} (a : A) (k : A → MB B) : respects adds (k a) → respects adds (mret a ≫= k).
Proof. done. Qed.
Lemma untouched_protect : respects adds
  (protect fl up (λ s, clock_of s.1) (λ n, silently (token_hex n)) repr utf8_replace target).
Proof.
  unfold protect. apply (respects_bind _); [|intros; respects_tac]. unfold exec_cmd.
  apply (respects_bind _); [apply quiet_mcpd|]. intros _. apply quiet_ret_bind.
  apply (respects_bind _); [by apply quiet_rpc, quiet_other|]. intros raw. unfold exec_validate. respects_tac.
Qed.
Lemma untouched_helper name local : ("SYS:System/MCPd/" +:+ name)%string ≠ NETSTART → respects adds (upload_helper up target name local).
Proof. intros Hn. destruct local; [by apply quiet_write|apply (respects_ret _)]. Qed.

(** ** The steps that matter *)

Definition read_x (r : res exn json) : exchange := ("fs.read"%string, path_of NETSTART, r).
Definition write_x (t : text) (r : res exn json) : exchange := ("fs.write"%string, write_of NETSTART t, r).
(** A backup was seen, or one was written with a text the file had. *)
Definition backed_up (l : list exchange) : Prop :=
  (∃ raw, ("fs.stat"%string, path_of BACKUP, Ret raw) ∈ l) ∨
  ∃ raw t raw', read_x (Ret raw) ∈ l ∧ text_of raw = Some t ∧ ("fs.write"%string, write_of BACKUP t, Ret raw') ∈ l.
(** What steps 5 and 6 ask for, by how they end. *)
Inductive launched (r : res exn unit) : list exchange → Prop :=
| L_none : no_ret r → launched r []
| L_read a : no_ret r → launched r [read_x a]
| L_write raw cur new a : no_ret r → text_of raw = Some cur → patch cur = Some new →
    launched r [read_x (Ret raw); write_x new a]
| L_end raw cur ws b : text_of raw = Some cur →
    (ws = [] ∧ patch cur = None ∨ ∃ new j, ws = [write_x new (Ret j)] ∧ patch cur = Some new) →
    (∀ u, r = Ret u → ∃ raw' after, b = Ret raw' ∧ text_of raw' = Some after ∧ contains MARKER_WATCHDOG after = true) →
    launched r (read_x (Ret raw) :: ws ++ [read_x b]).

(** An answer put through what makes a value of it. *)
Lemma asked_log {A} m p timeout (k : json → res exn A) w :
  wp (raw ← ask_daemon (Wire:=W) target m p timeout; lift (k raw)) (λ r w',
    (log w' = log w ∧ no_ret r) ∨
    ∃ a, log w' = log w ++ [(m, default JNull p, a)] ∧ ∀ v, r = Ret v → ∃ raw, a = Ret raw ∧ k raw = Ret v) w.
Proof.
  apply wp_bind. eapply wp_mono; [apply ask_log|].
  intros [raw|x|] w1 [[Hw1 Hn]|Hw1]; try (by left); try (by right; eexists; split; [exact Hw1|]); [by destruct (Hn raw)|].
  apply wp_lift. right. exists (Ret raw). split; [done|]. intros v Hv. by exists raw.
Qed.
Lemma read_text_log path w : wp (read_text up target path) (λ r w',
  (log w' = log w ∧ no_ret r) ∨
  ∃ a, log w' = log w ++ [("fs.read"%string, path_of path, a)] ∧
       ∀ t, r = Ret t → ∃ raw, a = Ret raw ∧ text_of raw = Some t) w.
Proof.
  unfold read_text. apply wp_bind. eapply wp_mono; [apply asked_log|].
  intros [v|x|] w1 [[Hw1 Hn]|(a & Hw1 & Ha)]; try (by left); try (by right; eexists; split; [exact Hw1|]); [by destruct (Hn v)|].
  apply wp_lift. right. exists a. split; [done|]. intros t Ht. destruct (Ha v eq_refl) as (raw & -> & Hv).
  exists raw. split; [done|]. unfold text_of. by rewrite Hv, Ht.
Qed.
Lemma write_log path t w : wp (write_bytes up target path t) (λ r w',
  (log w' = log w ∧ no_ret r) ∨
  ∃ a, log w' = log w ++ [("fs.write"%string, write_of path t, a)] ∧ ∀ u, r = Ret u → ∃ raw, a = Ret raw) w.
Proof.
  unfold write_bytes. apply wp_bind. eapply wp_mono; [apply asked_log|].
  intros [v|x|] w1 [[Hw1 Hn]|(a & Hw1 & Ha)]; try (by left); try (by right; eexists; split; [exact Hw1|]); [by destruct (Hn v)|].
  apply wp_ret. right. exists a. split; [done|]. intros _ _. destruct (Ha v eq_refl) as (raw & -> & _). by exists raw.
Qed.
#[local] Instance same_log_preorder : PreOrder (λ w w', log w' = log w).
Proof. split; [by intros w|]. intros w1 w2 w3 H1 H2. congruence. Qed.
Lemma exists_log path w : wp (exists_ up target path) (λ r w', ∃ l, log w' = log w ++ l ∧ Forall elsewhere l ∧
  (r = Ret true → ∃ raw, ("fs.stat"%string, path_of path, Ret raw) ∈ l)) w.
Proof.
  unfold exists_. apply wp_catch, wp_bind.
  assert (∀ w1, (∃ l, log w1 = log w ++ l ∧ Forall elsewhere l) → ∀ e : exn,
    wp (if is_exception e then mret false else raise e) (λ r w', ∃ l, log w' = log w ++ l ∧ Forall elsewhere l ∧
      (r = Ret true → ∃ raw, ("fs.stat"%string, path_of path, Ret raw) ∈ l)) w1) as Hno.
  { intros w1 (l & ? & ?) e. destruct (is_exception e); by exists l. }
  apply wp_bind. eapply wp_mono; [apply (ask_log "fs.stat" (Some (path_of path)) 30000)|]. intros r w1 Hr.
  assert (∃ l, log w1 = log w ++ l ∧ Forall elsewhere l ∧
    ∀ raw, r = Ret raw → ("fs.stat"%string, path_of path, Ret raw) ∈ l) as (l & Hw1 & He & Hl).
  { destruct Hr as [[Hw1 Hn]|Hw1]; [exists []; rewrite app_nil_r; split_and!; [done..|]; intros raw Hr; by destruct (Hn raw)|].
    eexists; split_and!; [done|by constructor; [apply quiet_other|]|]. intros raw ->. cbn [default]. set_solver. }
  destruct r as [raw|x|]; [|by apply Hno; exists l|by exists l].
  eapply wp_mono; [apply (wp_respects (λ w w', log w' = log w)); respects_tac|].
  intros [st|x|] w2 Hw2; [|by apply Hno; exists l; rewrite Hw2|by exists l; rewrite Hw2].
  apply wp_ret. exists l. rewrite Hw2. split_and!; [done..|]. intros _. exists raw. by apply Hl.
Qed.
(** Steps 4 to 6. *)
Lemma backup_log w : wp (keep_backup up target) (λ r w', ∃ l, log w' = log w ++ l ∧ Forall elsewhere l ∧
  (r = Ret tt → backed_up l)) w.
Proof.
  unfold keep_backup. apply wp_bind. eapply wp_mono; [apply exists_log|].
  intros [[]|x|] w1 (l1 & Hw1 & He1 & Hb); [|..|by exists l1|by exists l1].
  { apply wp_ret. exists l1. split_and!; [done..|]. intros _. left. by apply Hb. }
  apply wp_bind. eapply wp_mono; [apply read_text_log|]. intros r w2 Hw2.
  destruct Hw2 as [[Hw2 Hn]|(a & Hw2 & Ha)].
  { destruct r as [t|x|]; [by destruct (Hn t)|exists l1; by rewrite Hw2..]. }
  rewrite Hw1, <-(assoc_L (++)) in Hw2.
  assert (Forall elsewhere (l1 ++ [read_x a])) as He2 by (apply Forall_app; split; [done|by constructor; [apply quiet_other|]]).
  destruct r as [t|x|]; [|by eexists..]. destruct (Ha t eq_refl) as (raw & -> & Ht).
  eapply wp_mono; [apply write_log|]. intros r w3 [[Hw3 Hn]|(b & Hw3 & Hb')].
  { exists (l1 ++ [read_x (Ret raw)]). rewrite Hw3. split_and!; [done..|]. intros ->. by destruct (Hn tt). }
  rewrite Hw2, <-(assoc_L (++)) in Hw3. eexists. split; [exact Hw3|]. split.
  - apply Forall_app. split; [done|]. constructor; [|done]. intros [_ Hj]. by injection Hj.
  - intros ->. right. destruct (Hb' tt eq_refl) as [raw' ->]. exists raw, t, raw'. set_solver.
Qed.
Lemma launch_log w : wp (launch up target) (λ r w', ∃ l, log w' = log w ++ l ∧ launched r l) w.
Proof.
  unfold launch. apply wp_bind. eapply wp_mono; [apply read_text_log|].
  intros r w1 [[Hw1 Hn]|(a & Hw1 & Ha)].
  { destruct r as [t|x|]; [by destruct (Hn t)|exists []; rewrite app_nil_r; split; [done|by apply L_none]..]. }
  destruct r as [cur|x|]; [|by eexists; split; [done|by apply L_read]..]. destruct (Ha cur eq_refl) as (raw & -> & Hc).
  apply wp_bind.
  eapply (wp_mono _ (λ r w', match r with
    | Ret _ => ∃ ws, log w' = log w ++ read_x (Ret raw) :: ws ∧
        (ws = [] ∧ patch cur = None ∨ ∃ new j, ws = [write_x new (Ret j)] ∧ patch cur = Some new)
    | _ => ∃ l, log w' = log w ++ l ∧ ∀ r : res exn unit, no_ret r → launched r l
    end)).
  { destruct (patch cur) as [new|] eqn:Hp; [|apply wp_ret; exists []; by rewrite Hw1; auto].
    eapply wp_mono; [apply write_log|]. intros r w2 [[Hw2 Hn]|(b & Hw2 & Hb)].
    - destruct r as [[]|x|]; [by destruct (Hn tt)|eexists; rewrite Hw2; split; [done|by intros; apply L_read]..].
    - rewrite Hw1, <-(assoc_L (++)) in Hw2. destruct r as [[]|x|].
      + destruct (Hb tt eq_refl) as [j ->]. exists [write_x new (Ret j)]. split; [done|]. right. by exists new, j.
      + eexists; split; [exact Hw2|]. intros; by eapply L_write.
      + eexists; split; [exact Hw2|]. intros; by eapply L_write. }
  intros [[]|x|] w2; [|by intros (l & ? & Hl); exists l; split; [done|by apply Hl]..]. intros (ws & Hw2 & Hws).
  assert (∀ r b w3, log w3 = log w2 ++ [read_x b] →
    (∀ u, r = Ret u → ∃ raw' after, b = Ret raw' ∧ text_of raw' = Some after ∧ contains MARKER_WATCHDOG after = true) →
    ∃ l, log w3 = log w ++ l ∧ launched r l) as Hend.
  { intros r b w3 Hw3 Hr. rewrite Hw2, <-(assoc_L (++)) in Hw3. eexists. split; [exact Hw3|]. by eapply L_end. }
  apply wp_bind. eapply wp_mono; [apply read_text_log|]. intros r w3 [[Hw3 Hn]|(b & Hw3 & Hb)].
  { assert (∀ r : res exn unit, no_ret r → ∃ l, log w3 = log w ++ l ∧ launched r l) as Hst.
    { intros r' Hn'. exists (read_x (Ret raw) :: ws). rewrite Hw3. split; [done|].
      destruct Hws as [[-> ?]|(new & j & -> & ?)]; [by apply L_read|by eapply L_write]. }
    destruct r as [t|x|]; [by destruct (Hn t)|by apply Hst..]. }
  destruct r as [after|x|]; [|by eapply Hend..]. destruct (Hb after eq_refl) as (raw' & -> & Haf).
  destruct (contains MARKER_WATCHDOG after) eqn:Hm; [apply wp_ret|apply wp_raise]; eapply Hend; [done| |done|done].
  intros _ _. by exists raw', after.
Qed.
(** C39: Whatever the machine answers: the startup file is written once at most, after
    a backup was seen or written, with the edit of the text it was just read to
    hold; and an installation that returns has read the launcher back. *)
Theorem install_backs_up_first binary watchdog enable disable w :
  wp (install fl up (λ s, clock_of s.1) (λ n, silently (token_hex n)) repr utf8_replace exn_text
        target binary watchdog enable disable)
    (λ r w', ∃ before after, log w' = log w ++ before ++ after ∧ Forall elsewhere before ∧ launched r after ∧
      (after ≠ [] → backed_up before)) w.
Proof.
  assert (∀ r w', adds w w' → no_ret r → ∃ before after, log w' = log w ++ before ++ after ∧ Forall elsewhere before ∧
    launched r after ∧ (after ≠ [] → backed_up before)) as Hstop.
  { intros r w' (l & Hl & He) Hn. exists l, []. rewrite app_nil_r. split_and!; [done..|by apply L_none|done]. }
  assert (∀ A (m : MB A) (k : A → MB unit) w1, adds w w1 → respects adds m → (∀ a w2, adds w w2 →
      wp (k a) (λ r w', ∃ before after, log w' = log w ++ before ++ after ∧ Forall elsewhere before ∧ launched r after ∧
        (after ≠ [] → backed_up before)) w2) →
    wp (m ≫= k) (λ r w', ∃ before after, log w' = log w ++ before ++ after ∧ Forall elsewhere before ∧ launched r after ∧
      (after ≠ [] → backed_up before)) w1) as Hstep.
  { intros A m k w1 H1 Hm Hk. apply wp_bind. eapply wp_mono; [by apply (wp_respects _ _ _ Hm)|].
    assert (∀ w2, adds w1 w2 → adds w w2) as Htr by (intros w2 H2; by etrans).
    intros [a|x|] w2 H2%Htr; [by apply Hk|by apply Hstop..]. }
  assert (adds w w) as Hrefl by reflexivity. unfold install.
  apply Hstep; [done|apply quiet_drawer|]. intros _ w1 H1.
  apply Hstep; [done|by apply quiet_write|]. intros _ w2 H2.
  apply Hstep; [done|apply untouched_protect|]. intros _ w3 H3.
  destruct watchdog as [wd|]; [|by apply wp_raise, Hstop].
  apply Hstep; [done|by apply quiet_write|]. intros _ w4 H4.
  apply Hstep; [done|by apply untouched_helper|]. intros _ w5 H5.
  apply Hstep; [done|by apply untouched_helper|]. intros _ w6 (l & Hl & He).
  apply wp_bind. eapply wp_mono; [apply backup_log|]. intros [[]|x|] w7 (l' & Hl' & He' & Hb).
  - eapply wp_mono; [apply launch_log|]. intros r w8 (l'' & Hl'' & Hr). exists (l ++ l'), l''.
    rewrite Hl'', Hl', Hl, !(assoc_L (++)). split_and!; [done|by apply Forall_app|done|].
    intros _. destruct (Hb eq_refl) as [(raw & ?)|(raw & t & raw' & ? & ? & ?)]; [left|right].
    + exists raw. set_solver.
    + exists raw, t, raw'. set_solver.
  - apply Hstop; [|done]. exists (l ++ l'). rewrite Hl', Hl, (assoc_L (++)). split; [done|by apply Forall_app].
  - apply Hstop; [|done]. exists (l ++ l'). rewrite Hl', Hl, (assoc_L (++)). split; [done|by apply Forall_app].
Qed.
End order.

(* ------------------------------------------------------------------ *)
(** ** Runs *)

(** A machine with files; the sentence a failure gives is not used. *)
Definition disk : Type := list (string * text).
Definition arg (k : string) (j : json) : string := field_str k j.
Definition number (z : nat) : json := JNum (Z.of_nat z).
#[export] Instance disk_rpc : Rpc disk := {|
  call t m p timeout := λ d,
    let path := arg "path" p in
    if decide (m = "fs.stat"%string) then
      match assoc path d with
      | Some c => (Ret (JObj [("name", JStr path); ("type", JStr "file"); ("size", number (length c))])%string, d)
      | None => (Raise (ERpc TargetError None), d)
      end
    else if decide (m = "fs.read"%string) then
      match assoc path d with
      | Some c => (Ret (JObj [("path", JStr path); ("size", number (length c));
                              ("content_b64", JStr (str (py_b64encode c)))])%string, d)
      | None => (Raise (ERpc TargetError None), d)
      end
    else if decide (m = "fs.write"%string) then
      match py_b64decode (txt (arg "content_b64" p)) with
      | Some c => (Ret (JObj [("path", JStr path); ("size", number (length c))])%string, dict_set path c d)
      | None => (Raise (ERpc InvalidParams None), d)
      end
    else if decide (m = "fs.makedir"%string) then (Ret (JObj [("path", JStr path)])%string, d)
    else (Ret (JObj [("output", JStr ""); ("exit_code", JNum 0)])%string, d);
  pause n := mret tt |}.
Definition ran_on (d : disk) : res exn unit * sbx disk :=
  install (H:=disk_rpc) (H0:=strict) (Fleet_init ex_config) (λ _, mret tt) (λ _, 0) (λ _, mret []) (λ _, []) id (λ _, [])
    "x5000" (txt "daemon") (Some (txt "watchdog")) None None (Sbx [] [] [] (Host ∅ d)).
Definition file_after (path : string) (r : res exn unit * sbx disk) : option text := assoc path (svc (hst r.2)).
Definition ln (s : string) : text := txt s ++ [lf].
Definition launcher : text := ln "Run >NIL: <NIL: Execute SYS:System/MCPd/MCPd-Watchdog".
Definition comment : text := ln "; MCPd - Model Context Protocol daemon (auto-installed, watchdog'd)".
(** Twice on a fresh machine: one launcher, and the backup of the first time. *)
Example ex_autostart_twice :
  let r := ran_on [(NETSTART, ln "Mount SMB0:")] in
  let r2 := ran_on (svc (hst r.2)) in
  r.1 = Ret tt ∧ file_after NETSTART r = Some (ln "Mount SMB0:" ++ [lf] ++ comment ++ launcher) ∧
  file_after BACKUP r = Some (ln "Mount SMB0:") ∧ r2.1 = Ret tt ∧ svc (hst r2.2) = svc (hst r.2).
Proof. vm_compute. by split_and!. Qed.
(** A machine without [S:Network-Startup] cannot be provisioned. *)
Example ex_no_startup : (ran_on []).1 = Raise (ERpc TargetError None).
Proof. vm_compute. reflexivity. Qed.
(** A launch line that was commented out is what gets replaced: the launcher
    stays commented out, and the run reports success. *)
Example ex_commented_out :
  let r := ran_on [(NETSTART, txt ";" ++ MARKER_BARE)] in
  r.1 = Ret tt ∧ file_after NETSTART r = Some (txt ";" ++ launcher).
Proof. vm_compute. by split. Qed.
(** A bare launch line that ends the file without a line feed is not found: the
    machine then starts the daemon both ways. *)
Example ex_last_line :
  let bare := txt "Run >NIL: <NIL: SYS:System/MCPd/MCPd" in
  file_after NETSTART (ran_on [(NETSTART, bare)]) = Some (bare ++ [lf; lf] ++ comment ++ launcher).
Proof. vm_compute. reflexivity. Qed.

(** The endpoint of [amain]: the first argument or [$MCPD_ENDPOINT], with the
    default port; without one the script ends with 2. *)
Definition endpoint_arg (argv : list text) (env : option text) : option text :=
  match truthy_text (match argv with a :: _ => Some a | [] => env end) with
  | None => None
  | Some e => Some (if contains [":"%char] e then e else e ++ txt ":4322")
  end.
(** It always names a port. *)
Lemma endpoint_arg_port argv env e : endpoint_arg argv env = Some e → contains [":"%char] e = true.
Proof.
  unfold endpoint_arg. destruct (truthy_text _) as [t|]; [|done]. destruct (contains [":"%char] t) eqn:Hc; intros [= <-]; [done|].
  apply contains_infix. by exists t, (txt "4322").
Qed.
