(* ===== verification/Termination.v ===== *)
(** * An installation comes to an end

    The one loop of a run that the code leaves to the clock is the wait for the
    install volume; sleeping moves the clock past its deadline. *)
From S2P Require Import Prelude Py Bytes Kicklayout Amiga DemoTarget Machines Steps PostInstall Install Containment InstallProps.

(** A machine whose calls end and whose clock does not run backwards, and sleeps
    that last at least as long as asked. *)
Class Steady (E : Type) `{Amiga E} : Prop := {
  daemon_ends m j t e : (daemon m j t e).1 ≠ Spin;
  daemon_clock m j t e : monotonic e ≤ monotonic (daemon m j t e).2;
  up_ends e : (mcpd_up e).1 ≠ Spin;
  sleep_ends t e : (sleep t e).1 ≠ Spin;
  sleep_clock t e : monotonic e + t ≤ monotonic (sleep t e).2 }.
(** What the steps compute from an answer ends. *)
Lemma or_dict_ends raw : or_dict raw ≠ Spin.
Proof. unfold or_dict. by destruct (json_truth raw), raw. Qed.
Lemma b64_bytes_ends j : b64_bytes j ≠ Spin.
Proof. destruct j; try done. simpl. by destruct (py_b64decode _). Qed.
Lemma output_of_ends {E} `{Amiga E} raw : output_of raw ≠ Spin.
Proof. unfold output_of. by destruct raw. Qed.
Lemma encode_ascii_ends t : encode_ascii t ≠ Spin.
Proof. unfold encode_ascii. by destruct (forallb _ t). Qed.
Lemma entries_of_ends j : entries_of j ≠ Spin.
Proof. by destruct j. Qed.
Lemma update_archive_ends n : update_archive n ≠ Spin.
Proof. unfold update_archive. by destruct (lha_name _ _). Qed.
Lemma resolve_sequence_machine_ends m : resolve_sequence_machine m ≠ Spin.
Proof. unfold resolve_sequence_machine. destruct (resolve_machine_alias m) as [a|]; [|done]. by destruct (assoc a _). Qed.
Lemma chosen_iso_ends listing iso src m : chosen_iso listing iso src m ≠ Spin.
Proof.
  unfold chosen_iso, pick_iso. destruct iso; [done|]. destruct (truthy_str src) as [d|]; [|done].
  repeat case_match; done.
Qed.
#[export] Hint Resolve or_dict_ends get_or_ends b64_bytes_ends output_of_ends py_int_ends encode_ascii_ends
  entries_of_ends py_iter_ends update_archive_ends resolve_sequence_machine_ends chosen_iso_ends : ends.
Ltac ends_step :=
  lazymatch goal with
  | |- halts (mbind _ _) => apply ends_bind; [|intros ?]
  | |- halts (catch _ _) => apply ends_catch; [|intros ?]
  | |- halts (mret _) => apply ends_ret
  | |- halts (raise _) => apply ends_raise
  | |- halts (gets _) => apply ends_gets
  | |- halts (modify _) => apply ends_modify
  | |- halts (lift _) => apply ends_lift
  | |- halts (match ?x with _ => _ end) => destruct x
  | |- ∀ _, _ => intros ?
  end.
Ltac ends_tac := repeat (cbv zeta beta; first [ends_step | solve [eauto 2 with ends]]).

Section steady.
Context {E : Type} `{Steady E}.
Abbreviation MI := (M (inst E) exn).
Lemma ends_request m j t : halts (request m j t : MI json).
Proof. intros w. unfold request. pose proof (daemon_ends m j t (machine_env w)). by destruct (daemon _ _ _ _). Qed.
Lemma ends_on_env {A} (m : M E exn A) : halts m → halts (on_env m : MI A).
Proof. intros Hm w. unfold on_env. specialize (Hm (machine_env w)). by destruct (m _). Qed.
Lemma ends_wait t : halts (wait t : MI unit).
Proof. apply ends_on_env. intros e. apply sleep_ends. Qed.
Lemma ends_now : halts (now_mcpd : MI unit).
Proof. apply ends_on_env. intros e. apply up_ends. Qed.
Lemma ends_for_each {A} (f : A → MI unit) l : (∀ x, halts (f x)) → halts (for_each f l).
Proof. intros. induction l; simpl; ends_tac; auto. Qed.
Lemma ends_gather {A B} (f : A → MI (list B)) l : (∀ x, halts (f x)) → halts (gather f l).
Proof. intros. induction l; simpl; ends_tac; auto. Qed.
#[local] Hint Resolve ends_request ends_wait ends_now : ends.
Ltac loop_step :=
  lazymatch goal with
  | |- halts (for_each _ _) => apply ends_for_each
  | |- halts (gather _ _) => apply ends_gather
  end.
Ltac end_tac := repeat (cbv zeta beta; first [ends_step | loop_step | solve [eauto 2 with ends]]).
Ltac unfold_calls :=
  unfold quietly, worked, stat, copy, exec, or_else, try_else, content_text, ran, require_confirm,
    iso_vol, set_iso_volume, set_extracted, skipped, says, noted, runtime_error, delete, rename, clock.

(** The poll halts once the clock has passed the deadline: one try a second. *)
Lemma worked_stat_clock p w :
  monotonic (machine_env w) ≤ monotonic (machine_env (worked (stat p) w).2).
Proof.
  unfold worked, catch, mbind, M_bind, stat, request.
  pose proof (daemon_clock "fs.stat" (path_arg p) DEFAULT_TIMEOUT (machine_env w)) as Hc.
  destruct (daemon _ _ _ _) as [[j|e|] e']; simpl in *; [done| |done]. by destruct (is_exception e).
Qed.
Lemma worked_ends {A} (m : MI A) : halts m → halts (worked m).
Proof. intros. unfold worked. end_tac; auto. Qed.
Lemma poll_ends fuel deadline v w :
  (0 < fuel)%nat → deadline - monotonic (machine_env w) ≤ 1000 * (Z.of_nat fuel - 1) →
  (poll_volume fuel deadline v w).1 ≠ Spin.
Proof.
  revert w. induction fuel as [|fuel IH]; intros w Hf Hd; [lia|]. cbn [poll_volume].
  unfold clock, gets, mbind at 1, M_bind at 1. destruct (Z.ltb_spec (monotonic (machine_env w)) deadline); [|done].
  unfold mbind at 1, M_bind at 1. pose proof (worked_stat_clock v w) as Hc.
  pose proof (worked_ends (stat v) (ends_request _ _ _) w) as He.
  destruct (worked (stat v) w) as [[[]|e|] w1]; [done| |done|done]. cbn [fst snd] in *.
  unfold mbind, M_bind, wait, on_env. pose proof (sleep_ends 1000 (machine_env w1)) as Hs.
  pose proof (sleep_clock 1000 (machine_env w1)) as Hk.
  destruct (sleep 1000 (machine_env w1)) as [[[]|e|] e']; [|done|done]. cbn [fst snd] in *.
  apply IH; simpl; lia.
Qed.
Lemma wait_for_volume_ends fuel v t s : 0 ≤ t ≤ 1000 * (Z.of_nat fuel - 1) →
  halts (t0 ← clock; f ← poll_volume fuel (t0 + t) v;
        match f with Some v => wait s;; mret (Some v) | None => mret None end : MI (option string)).
Proof.
  intros Ht w. unfold clock, gets, mbind at 1, M_bind at 1. unfold mbind at 1, M_bind at 1.
  pose proof (poll_ends fuel (monotonic (machine_env w) + t) v w ltac:(lia) ltac:(lia)) as Hp.
  destruct (poll_volume _ _ _ w) as [[o|e|] w']; cbn [fst] in *; [|done|done].
  revert w'. change (halts (match o with Some v => wait s;; mret (Some v) | None => mret None end : MI (option string))).
  end_tac.
Qed.
Lemma mount_iso_ends fuel p d u v t s : 0 ≤ t ≤ 1000 * (Z.of_nat fuel - 1) →
  halts (installer_mount_iso fuel p d u v t s : MI mount_result).
Proof.
  intros Ht. unfold installer_mount_iso. do 7 (apply ends_bind; [unfold_calls; end_tac|intros ?]).
  apply ends_bind; [|intros ?; unfold_calls; end_tac].
  destruct v as [v|]; [|done]. destruct (bool_decide _); [done|]. by apply wait_for_volume_ends.
Qed.

(** ** Every step halts *)

Lemma makedir_ends p : halts (amiga_makedir p : MI unit).
Proof. unfold amiga_makedir. unfold_calls. end_tac. Qed.
Lemma unmount_ends u t : halts (installer_unmount_iso u t : MI text).
Proof. unfold installer_unmount_iso. unfold_calls. end_tac. Qed.
Lemma copy_tree_ends s d a b c x t : halts (installer_copy_tree s d a b c x t : MI command_result).
Proof. unfold installer_copy_tree. unfold_calls. end_tac. Qed.
Lemma apply_lha_ends s d x t : halts (installer_apply_lha s d x t : MI command_result).
Proof. unfold installer_apply_lha. unfold_calls. end_tac. Qed.
Lemma capture_ends p : halts (capture_mtime p : MI (option json)).
Proof. unfold capture_mtime. end_tac. Qed.
Lemma restore_ends p j : halts (restore_mtime p j : MI unit).
Proof. unfold restore_mtime. unfold_calls. end_tac. Qed.
Lemma write_text_ends p t u : halts (write_text p t u : MI unit).
Proof. unfold write_text. end_tac. Qed.
#[local] Hint Resolve makedir_ends unmount_ends copy_tree_ends apply_lha_ends capture_ends restore_ends
  write_text_ends : ends.
Lemma patch_ends d a r x s : halts (installer_patch_kicklayout d a r x s : MI (summary * Z * option string)).
Proof.
  unfold installer_patch_kicklayout, installer_read_kicklayout, installer_write_kicklayout. unfold_calls. end_tac.
Qed.
Lemma maybe_rename_ends s d : halts (maybe_rename s d : MI unit).
Proof. unfold maybe_rename. unfold_calls. end_tac. Qed.
Lemma try_copy_ends s d : halts (try_copy s d : MI unit).
Proof. unfold try_copy. unfold_calls. end_tac. Qed.
Lemma try_exec_ends c : halts (try_exec c : MI unit).
Proof. unfold try_exec. unfold_calls. end_tac. Qed.
Lemma try_tree_ends s d t : halts (try_tree s d t : MI unit).
Proof. unfold try_tree. unfold_calls. end_tac. Qed.
Lemma copy_clone_ends s d m t : halts (copy_clone s d m t : MI unit).
Proof. unfold copy_clone. unfold_calls. end_tac. Qed.
Lemma protect_ends p : halts (protect_rwed p : MI unit).
Proof. unfold protect_rwed. unfold_calls. end_tac. Qed.
#[local] Hint Resolve patch_ends maybe_rename_ends try_copy_ends try_exec_ends try_tree_ends copy_clone_ends protect_ends : ends.
Lemma missing_ends ps : halts (missing_of ps : MI (list string)).
Proof. induction ps; simpl; unfold_calls; end_tac; auto. Qed.
Lemma copy_first_ends srcs d : halts (copy_first srcs d : MI (option string)).
Proof. induction srcs; simpl; unfold_calls; end_tac; auto. Qed.
Lemma clone_icon_ends dir i d es : halts (clone_icon dir i d es : MI (option string)).
Proof. induction es; simpl; unfold_calls; end_tac; auto. Qed.
Lemma move_entries_ends s d es : halts (move_entries s d es : MI (list json * list json)).
Proof. induction es; simpl; [|unfold move_entry]; unfold_calls; end_tac; auto. Qed.
Lemma dir_entries_ends j : halts (dir_entries j : MI json).
Proof. unfold dir_entries. end_tac. Qed.
#[local] Hint Resolve missing_ends copy_first_ends clone_icon_ends move_entries_ends dir_entries_ends : ends.

Context (fuel : nat) (Hfuel : (31 ≤ fuel)%nat) (target dest i : string) (c : machine_config).
Lemma opening_ends : Forall (λ s, halts (step_fn s)) (opening_steps (E:=E) fuel target dest i c).
Proof.
  unfold opening_steps. rewrite !Forall_cons, Forall_nil. simpl. split_and!; [| | | |done].
  - unfold stage_diskimage_tools. unfold_calls. end_tac.
  - unfold extract_iso_lha. unfold_calls. end_tac.
  - unfold mount_iso. apply ends_bind; [apply mount_iso_ends; lia|]. intros r. unfold_calls. end_tac.
  - unfold verify_cd_signature. unfold_calls. end_tac.
Qed.
Lemma updates_end n : halts (apply_one_update dest c n : MI json).
Proof. unfold apply_one_update, redirect_libz, make_link, delete_link. unfold_calls. end_tac. Qed.
Lemma installing_ends : Forall (λ s, halts (step_fn s)) (installing_steps (E:=E) target dest i c).
Proof.
  unfold installing_steps, when.
  repeat (apply Forall_app; split); try (case_match; [rewrite Forall_singleton|done]);
    rewrite ?Forall_cons, ?Forall_nil; simpl; try (apply Forall_map, Forall_true; intros n; apply updates_end);
    split_and?; try exact I;
    unfold copy_base_os, copy_installation_extras, patch_post_install, install_bootloader, install_enhancer, install_ngf,
      install_extras, install_extra, patch_amidock_prefs, install_network_config, find_icon, install_serialshell,
      quarantine_emu10kx, quarantine_devs_monitors, install_mcpd, install_helper, existing_text, backup_once,
      unmount_iso, dismount_combi_device, cleanup_tmp, tidy_delete; unfold_calls; end_tac.
Qed.
Lemma run_steps_ends (ss : list (step E)) : Forall (λ s, halts (step_fn s)) ss → halts (run_steps ss).
Proof. induction 1; cbn [run_steps]; unfold clock; end_tac. Qed.
End steady.

(** C22: An installation always ends: on a machine whose calls end and whose clock
    does not run backwards, the wait for the install volume gives up by its
    deadline of thirty seconds, one try a second, and so 31 rounds of it are
    enough for any run to return a result or raise. *)
Theorem installer_run_ends {E : Type} `{Steady E} fuel listing target vol machine iso sources dry confirm w
    (Hfuel : (31 ≤ fuel)%nat) :
  (installer_run fuel listing target vol machine iso sources dry confirm w).1 ≠ Spin.
Proof.
  revert w. change (halts (installer_run (E:=E) fuel listing target vol machine iso sources dry confirm)).
  unfold installer_run, new_ctx, run_sequence, build_sequence, clock. pose proof (ends_now (E:=E)).
  assert (∀ d i c, halts (run_steps (opening_steps (E:=E) fuel target d i c ++ installing_steps target d i c))).
  { intros d i c. apply run_steps_ends, Forall_app. split; [by apply opening_ends|apply installing_ends]. }
  ends_tac; auto.
Qed.
#[export] Instance demo_steady : Steady demo.
Proof.
  split; try done; simpl; try lia.
  - intros m j t [files now]. unfold demo_answer. simpl.
    repeat case_match; simplify_eq; simpl; try done.
  - intros m j t [files now]. simpl. destruct (demo_answer _ _ _). simpl. lia.
Qed.
Lemma installer_run_ends_witness :
  (31 ≤ 31)%nat ∧
  (installer_run 31 (λ _, None) "sam" "Boot" "peg2" (Some "a.iso"%string) None false true (demo_start [])).1 ≠ Spin.
Proof.
  split; [lia|].
  exact (installer_run_ends 31 (λ _, None) "sam" "Boot" "peg2" (Some "a.iso"%string) None false true (demo_start []) ltac:(lia)).
Defined.
