(* ===== verification/Preflight.v ===== *)
(** * Before an installation: preflight, staging and verification in
    [tools/installer.py]

    What the host looks for on its own disk, the checks made before a run, what
    is uploaded into the destination's [tmp/], and the check of the files
    afterwards.  The texts of checks are left out. *)
From S2P Require Import Prelude Py Bytes Kicklayout Amiga DemoTarget Machines Steps PostInstall Install Containment.

(** ** The host's disk *)

Record host := Host {
  is_file : string → bool; is_dir : string → bool; path_exists : string → bool;
  listing : string → option folder;
  resolved : string → string;                 (** [Path(p).expanduser().resolve()] *)
  support_env : option string;                (** [$AMIGA_INSTALL_SUPPORT_DIR] *)
  cwd : string; home : string; resources : string; parents3 : string; parents4 : string }.

Section host.
Context (h : host).
Definition first_file (l : list string) : option string := List.find (is_file h) l.
(** [_install_support_root] *)
Definition install_support_root : option string :=
  let fallback := List.find (is_dir h) [path_join (cwd h) "install-support"; path_join (home h) "install-support"] in
  match truthy_str (support_env h) with
  | Some env => if is_dir h (resolved h env) then Some (resolved h env) else fallback
  | None => fallback
  end.
(** [_candidate_install_support_dirs] *)
Definition support_dirs : list string :=
  (match install_support_root with Some r => [r] | None => [] end) ++ [cwd h; home h; resources h].
Definition in_support (name : string) : list string := map (λ d, path_join d name) support_dirs.
(** [_find_in_sources_or_support] *)
Definition find_in_sources_or_support (name src : string) : option string :=
  first_file (path_join src name :: in_support name).
(** [_resolve_mcpd_binary] *)
Definition resolve_mcpd_binary (src : string) : option string :=
  first_file (path_join src "MCPd" :: map (λ r, path_join (path_join r "mcpd") "MCPd") [cwd h; parents3 h] ++ in_support "MCPd").
(** [_resolve_mcpd_install_script] *)
Definition resolve_mcpd_install_script (name src : string) : option string :=
  first_file (path_join src name ::
              map (λ r, path_join (path_join (path_join r "mcpd") "install") name) [cwd h; parents3 h; parents4 h] ++ in_support name).
(** [_mandatory_binaries], and the names not found. *)
Definition mandatory_binaries (src : string) : list (string * option string) := [("MCPd"%string, resolve_mcpd_binary src)].
Definition missing_mandatory (src : string) : list string :=
  map fst (filter (λ m, m.2 = None) (mandatory_binaries src)).

(** ** Preflight *)

(** [_normalize_dest], [_is_system_volume] *)
Definition normalize_dest (d : string) : string :=
  let d := str (strip (txt d)) in
  if negb (ends ":" d) && negb (bool_decide (":"%char ∈ txt d)) then d +:+ ":" else d.
Definition is_system_volume (d : string) : bool :=
  bool_decide (str (map upper (txt (normalize_dest d))) ∈ ["SYS:"; "AMIGAOS:"; "WORKBENCH:"; "SYSTEM:"]%string).

Inductive status := SOk | SWarn | SFail.
#[export] Instance status_eq_dec : EqDecision status.
Proof. solve_decision. Defined.
Record report := Report {
  pf_overall : status; pf_checks : list (string * status);
  pf_machine : option string; pf_iso : option string;
  missing_files : list string; forbidden_present : list string }.
(** [add] *)
Definition worse (s t : status) : status :=
  match t with SFail => SFail | SWarn => if decide (s = SOk) then SWarn else s | SOk => s end.
Definition add (name : string) (s : status) (r : report) : report :=
  Report (worse (pf_overall r) s) (pf_checks r ++ [(name, s)]) (pf_machine r) (pf_iso r)
         (missing_files r) (forbidden_present r).
Definition set_missing (l : list string) (r : report) : report :=
  Report (pf_overall r) (pf_checks r) (pf_machine r) (pf_iso r) l (forbidden_present r).
Definition set_found (m i : option string) (r : report) : report :=
  Report (pf_overall r) (pf_checks r) m i (missing_files r) (forbidden_present r).
Definition okay (b : bool) : status := if b then SOk else SFail.
(** The machine: given, or the one the ISOs are for. *)
Definition preflight_machine (machine : option string) (s : scan) : option string * status :=
  match truthy_str machine with
  | Some m => let c := resolve_machine_alias m in (c, okay (bool_decide (is_Some c)))
  | None => match detected_machine s with Some m => (Some m, SOk) | None => (None, SFail) end
  end.
(** The ISO, and the check made of it, if any. *)
Definition preflight_iso (iso canonical : option string) (s : scan) (src : string)
    : option string * option status :=
  match canonical, truthy_str iso with
  | Some c, None =>
      match default [] (assoc c (iso_files s)), default [] (assoc c (iso_lha_files s)) with
      | [i], _ => (Some i, Some SOk)
      | _ :: _ :: _, _ => (iso, Some SFail)
      | [], [l] => (Some (drop_last 4 l), Some SOk)
      | [], _ => (iso, Some SFail)
      end
  | Some c, Some i =>
      match detect_machine_from_iso i with
      | None => (iso, Some SFail)
      | Some (m, _) => (iso, Some (okay (bool_decide (m = c) && path_exists h (path_join src i))))
      end
  | None, _ => (iso, None)
  end.
Definition add_opt (name : string) (s : option status) (r : report) : report :=
  match s with Some s => add name s r | None => r end.
(** The manifest's files that are not among the archives scanned. *)
Definition missing_required (files : list required) (s : scan) : list string :=
  filter (λ f, f ∉ lha_files s) (map filename (filter (λ e, role e ≠ "iso"%string) files)).
(** The checks on the host, once the directory is there. *)
Definition host_checks (machine iso : option string) (src : string) (s : scan) (r : report) : res exn report :=
  let '(canonical, st) := preflight_machine machine s in
  let r := add "machine_known" st r in
  let r := if bool_decide (unsupported_isos s = []) then r else add "unsupported_isos" SWarn r in
  let '(chosen, st) := preflight_iso iso canonical s src in
  let r := set_found canonical chosen (add_opt "iso_resolved" st r) in
  match canonical with
  | None => Ret r
  | Some c =>
      match required_files c with
      | Ret files =>
          let missing := missing_required files s in
          let r := add "required_files" (okay (bool_decide (missing = []))) r in
          let r := add "mandatory_binaries" (okay (bool_decide (missing_mandatory src = []))) r in
          let r := set_missing (missing ++ missing_mandatory src) r in
          Ret (if bool_decide (c = "A1222"%string) then add "rescuev2_volume" SWarn r else r)
      | Raise e => Raise e
      | Spin => Spin
      end
  end.
End host.

Section preflight.
Context {E : Type} `{Amiga E} (h : host).
Abbreviation MI := (M (inst E) exn).
(** The forbidden entries the destination holds. *)
Fixpoint present_of (dest : string) (ps : list string) : MI (list string) :=
  match ps with
  | [] => mret []
  | p :: ps => there ← worked (stat (dest +:+ p));
               rest ← present_of dest ps; mret (if there : bool then p :: rest else rest)
  end.
Definition set_forbidden (l : list string) (r : report) : report :=
  Report (pf_overall r) (pf_checks r) (pf_machine r) (pf_iso r) (missing_files r) l.
Definition as_failed (r : report) : report :=
  Report SFail (pf_checks r) (pf_machine r) (pf_iso r) (missing_files r) [].
(** [installer_preflight]; [target] is what [fleet.resolve_target] makes of the
    target named. *)
Definition installer_preflight (target : res exn string) (dest_volume sources_dir : string)
    (machine iso : option string) : MI report :=
  let dest := normalize_dest dest_volume in
  let r := add "dest_not_system" (okay (negb (is_system_volume dest))) (Report SOk [] machine iso [] []) in
  let src := resolved h sources_dir in
  let s := scan_sources (listing h src) in
  if negb (exists_ s) then mret (as_failed (add "sources_exists" SFail r))
  else
    r ← lift (host_checks h machine iso src s (add "sources_exists" SOk r));
    lift target;;
    up ← worked now_mcpd;
    if negb up then mret (as_failed (add "target_reachable" SFail r))
    else
      there ← worked (stat dest);
      if negb there then mret (as_failed (add "dest_mounted" SFail r))
      else
        present ← present_of dest FORBIDDEN_DEST_ENTRIES;
        mret (set_forbidden present
                (add "dest_clean" (okay (bool_decide (present = []))) (add "dest_mounted" SOk r))).
End preflight.

(** ** What a preflight that does not fail has checked *)

Lemma worse_fail s t : worse s t = SFail ↔ s = SFail ∨ t = SFail.
Proof. destruct s, t; simpl; naive_solver. Qed.
Lemma okay_fail b : okay b = SFail ↔ b = false.
Proof. by destruct b. Qed.
Lemma add_fail n s r : pf_overall (add n s r) = SFail ↔ pf_overall r = SFail ∨ s = SFail.
Proof. apply worse_fail. Qed.
Lemma add_opt_fail n s r : pf_overall (add_opt n s r) = SFail ↔ pf_overall r = SFail ∨ s = Some SFail.
Proof. destruct s; simpl; [rewrite worse_fail|]; naive_solver. Qed.

(** The machine a call is about, and its ISO, as the checks settle them. *)
Definition machine_settled (machine : option string) (s : scan) (m : string) : Prop :=
  match truthy_str machine with
  | Some n => resolve_machine_alias n = Some m
  | None => detected_machine s = Some m
  end.
Definition iso_settled (h : host) (iso : option string) (s : scan) (src m i : string) : Prop :=
  match truthy_str iso with
  | Some j => i = j ∧ (∃ f, detect_machine_from_iso j = Some (m, f)) ∧ path_exists h (path_join src j) = true
  | None => default [] (assoc m (iso_files s)) = [i] ∨
            (default [] (assoc m (iso_files s)) = [] ∧
             ∃ l, default [] (assoc m (iso_lha_files s)) = [l] ∧ i = drop_last 4 l)
  end.
Definition host_ready (h : host) (machine iso : option string) (src : string) (s : scan) (m i : string) : Prop :=
  machine_settled machine s m ∧ iso_settled h iso s src m i ∧
  (∃ files, required_files m = Ret files ∧
            ∀ f, f ∈ files → role f ≠ "iso"%string → filename f ∈ lha_files s) ∧
  is_Some (resolve_mcpd_binary h src).

Lemma preflight_machine_settled machine s c st :
  preflight_machine machine s = (c, st) → st ≠ SFail → ∃ m, c = Some m ∧ machine_settled machine s m.
Proof.
  unfold preflight_machine, machine_settled. destruct (truthy_str machine) as [n|].
  - intros [= <- <-] Hs. destruct (resolve_machine_alias n) as [m|]; [by exists m|done].
  - destruct (detected_machine s) as [m|]; intros [= <- <-]; [by exists m|done].
Qed.
Lemma preflight_iso_settled h iso m s src c st :
  preflight_iso h iso (Some m) s src = (c, st) → st ≠ Some SFail → ∃ i, c = Some i ∧ iso_settled h iso s src m i.
Proof.
  unfold preflight_iso, iso_settled. destruct (truthy_str iso) as [j|] eqn:Hj.
  - assert (iso = Some j) as -> by (unfold truthy_str in Hj; destruct iso; [case_bool_decide|]; congruence).
    destruct (detect_machine_from_iso j) as [[m' f]|]; intros [= <- <-] Hs; [|done].
    case_bool_decide; simpl in *; [subst m'|done]. destruct (path_exists _ _) eqn:Hp; [|done].
    exists j. split_and!; [done|done|by exists f|done].
  - destruct (default [] (assoc m (iso_files s))) as [|a [|b l]], (default [] (assoc m (iso_lha_files s))) as [|x [|y k]];
      intros [= <- <-] Hs; try done; [exists (drop_last 4 x)|exists a..]; (split; [done|]); [right|by left..].
    split; [done|]. by exists x.
Qed.
Lemma missing_required_none files s :
  missing_required files s = [] → ∀ f, f ∈ files → role f ≠ "iso"%string → filename f ∈ lha_files s.
Proof.
  unfold missing_required. intros Hn f Hf Hr. destruct (decide (filename f ∈ lha_files s)) as [|Hno]; [done|].
  exfalso. assert (filename f ∈ []) as Habs; [|by apply not_elem_of_nil in Habs].
  rewrite <-Hn. apply list_elem_of_filter. split; [done|]. apply list_elem_of_fmap. exists f.
  split; [done|]. by apply list_elem_of_filter.
Qed.
Lemma missing_mandatory_none h src : missing_mandatory h src = [] → is_Some (resolve_mcpd_binary h src).
Proof.
  unfold missing_mandatory, mandatory_binaries. rewrite filter_cons. simpl.
  destruct (resolve_mcpd_binary h src); [by eexists|]. by rewrite decide_True.
Qed.
Lemma host_checks_ready h machine iso src s r r' :
  host_checks h machine iso src s r = Ret r' → pf_overall r' ≠ SFail →
  pf_overall r ≠ SFail ∧
  ∃ m i, pf_machine r' = Some m ∧ pf_iso r' = Some i ∧ host_ready h machine iso src s m i.
Proof.
  unfold host_checks. destruct (preflight_machine machine s) as [c st] eqn:Hm.
  set (r1 := add "machine_known" st r). set (r2 := if bool_decide _ then r1 else _).
  assert (Hr2 : pf_overall r2 = SFail ↔ pf_overall r = SFail ∨ st = SFail).
  { unfold r2. case_bool_decide; unfold r1; rewrite ?add_fail; naive_solver. }
  destruct (preflight_iso h iso c s src) as [ch st'] eqn:Hi. set (r3 := set_found _ _ _).
  assert (Hr3 : pf_overall r3 = SFail ↔ pf_overall r2 = SFail ∨ st' = Some SFail) by apply add_opt_fail.
  destruct c as [c|].
  2: { intros [= <-] Hr. exfalso. apply Hr, Hr3. left. apply Hr2. right.
       destruct (decide (st = SFail)) as [|Hs]; [done|].
       by destruct (preflight_machine_settled _ _ _ _ Hm Hs) as (m & ? & _). }
  destruct (required_files c) as [files|e|] eqn:Hf; [|done|done]. cbv zeta.
  set (r4 := set_missing _ _). intros [= <-] Hr.
  assert (Hr4 : pf_overall r4 ≠ SFail).
  { intros H4. apply Hr. case_bool_decide; [|done]. rewrite add_fail. by left. }
  assert (Hfound : pf_machine r4 = Some c ∧ pf_iso r4 = ch) by done.
  unfold r4 in Hr4. cbn [pf_overall set_missing] in Hr4. rewrite !add_fail, !okay_fail, !bool_decide_eq_false in Hr4.
  apply Decidable.not_or in Hr4 as [[H3 Hreq]%Decidable.not_or Hmand]. apply dec_stable in Hreq, Hmand.
  rewrite Hr3 in H3. apply Decidable.not_or in H3 as [H2 Hst']. rewrite Hr2 in H2. apply Decidable.not_or in H2 as [H1 Hst].
  split; [done|]. destruct (preflight_machine_settled _ _ _ _ Hm Hst) as (m & [= <-] & Hset).
  destruct (preflight_iso_settled _ _ _ _ _ _ _ Hi Hst') as (i & -> & Hiso).
  exists c, i. destruct Hfound as [Hpm Hpi]. case_bool_decide; split_and!; try done;
    (split_and!; [done|done| |by apply missing_mandatory_none]; exists files; split; [done|];
     by apply missing_required_none).
Qed.

(** ** What it asks the machine *)

Definition is_stat (x : exchange) : Prop := ∃ p, x.1 = ("fs.stat"%string, path_arg p).
Definition answered (l : list exchange) (p : string) : Prop := ∃ j, ("fs.stat"%string, path_arg p, Ret j) ∈ l.
Definition refused (l : list exchange) (p : string) : Prop := ∃ e, ("fs.stat"%string, path_arg p, Raise e) ∈ l.
Lemma answered_mono l k p : answered l p → l ⊆ k → answered k p.
Proof. intros [j Hj] Hk. exists j. by apply Hk. Qed.
Lemma refused_mono l k p : refused l p → l ⊆ k → refused k p.
Proof. intros [j Hj] Hk. exists j. by apply Hk. Qed.

Section stats.
Context {E : Type} `{Amiga E}.
Implicit Types w : inst E.
(** The exchanges since [w0], all of them questions whether something is there. *)
Definition stats_only w0 (l : list exchange) w : Prop := asked w = asked w0 ++ l ∧ Forall is_stat l.
Lemma stats_only_start w : stats_only w [] w.
Proof. split; [by rewrite app_nil_r|done]. Qed.
Lemma wp_worked_stat w0 l w p (Q : res exn bool → inst E → Prop) :
  stats_only w0 l w →
  (∀ w' k, stats_only w0 k w' → l ⊆ k → answered k p → Q (Ret true) w') →
  (∀ w' k, stats_only w0 k w' → l ⊆ k → refused k p → Q (Ret false) w') →
  (∀ e w' k, stats_only w0 k w' → Q (Raise e) w') →
  (∀ w' k, stats_only w0 k w' → Q Spin w') →
  wp (worked (stat p)) Q w.
Proof.
  intros [Hl Hf] Htrue Hfalse Hraise Hspin. unfold worked, stat. apply wp_catch, wp_bind. unfold wp at 1, request.
  destruct (daemon _ _ _ _) as [r e']. cbn [fst snd].
  set (x := ("fs.stat"%string, path_arg p, r)). set (w' := Inst _ _ _ _).
  assert (stats_only w0 (l ++ [x]) w') as Hw.
  { split; [simpl; by rewrite Hl, app_assoc|]. apply Forall_app. split; [done|]. apply Forall_singleton. by exists p. }
  assert (l ⊆ l ++ [x]) by set_solver.
  destruct r as [j|e|].
  - apply wp_ret. eapply Htrue; [done|done|]. exists j. set_solver.
  - destruct (is_exception e); [apply wp_ret; eapply Hfalse; [done|done|exists e; set_solver]|].
    apply wp_raise. by eapply Hraise.
  - by eapply Hspin.
Qed.
Lemma wp_present_of dest ps w0 l w (Q : res exn (list string) → inst E → Prop) :
  stats_only w0 l w →
  (∀ out w' k, stats_only w0 k w' → l ⊆ k →
     (∀ p, p ∈ out → p ∈ ps ∧ answered k (dest +:+ p)) →
     (∀ p, p ∈ ps → p ∉ out → refused k (dest +:+ p)) → Q (Ret out) w') →
  (∀ r w' k, stats_only w0 k w' → (∀ out, r ≠ Ret out) → Q r w') →
  wp (present_of dest ps) Q w.
Proof.
  revert l w Q. induction ps as [|p ps IH]; intros l w Q Hl Hret Hno; cbn [present_of].
  { apply wp_ret. eapply Hret; [done|done|..]; intros p Hp; by apply not_elem_of_nil in Hp. }
  assert (Hrest : ∀ (b : bool) w1 l1, stats_only w0 l1 w1 → l ⊆ l1 →
            (if b then answered l1 (dest +:+ p) else refused l1 (dest +:+ p)) →
            wp (rest ← present_of dest ps; mret (if b then p :: rest else rest)) Q w1).
  { intros b w1 l1 Hl1 Hsub Hb. eapply wp_bind, IH; [exact Hl1| |].
    - intros out w2 l2 Hl2 Hsub2 Hin Hout. apply wp_ret. destruct b.
      + eapply Hret; [done|set_solver|..].
        * intros q [->|Hq]%elem_of_cons; [split; [set_solver|by eapply answered_mono]|].
          destruct (Hin q Hq). split; [set_solver|done].
        * intros q Hq Hno'. apply Hout; set_solver.
      + eapply Hret; [done|set_solver|..].
        * intros q Hq. destruct (Hin q Hq). split; [set_solver|done].
        * intros q [->|Hq]%elem_of_cons Hno'; [by eapply refused_mono|]. by apply Hout.
    - intros r w2 l2 Hl2 Hr. destruct r as [out|e|]; [by destruct (Hr out)|by eapply Hno; [done|intros ? [=]]..]. }
  eapply wp_bind, wp_worked_stat; [exact Hl|..].
  - intros. by eapply (Hrest true).
  - intros. by eapply (Hrest false).
  - intros. by eapply Hno; [done|intros ? [=]].
  - intros. by eapply Hno; [done|intros ? [=]].
Qed.

(** C14: A preflight only asks whether things are there, and when it does not fail,
    all this holds: the destination is not one of the system's own volumes; a
    supported machine is settled, named by the caller or the only one there is an
    ISO for; so is its ISO, the caller's own if it is one of that machine's and
    there, else the only one found; every other file of the machine's manifest is
    among the archives, and the daemon's binary was found; the machine answered
    for the destination and for none of the entries of an existing system. *)
Theorem preflight_vouches h target dest_volume sources_dir machine iso w :
  let dest := normalize_dest dest_volume in
  let src := resolved h sources_dir in
  wp (installer_preflight h target dest_volume sources_dir machine iso) (λ r w',
    ∃ l, stats_only w l w' ∧
    match r with
    | Ret rep =>
        pf_overall rep ≠ SFail →
        is_system_volume dest = false ∧ is_Some (listing h src) ∧
        (∃ m i, pf_machine rep = Some m ∧ pf_iso rep = Some i ∧
                host_ready h machine iso src (scan_sources (listing h src)) m i) ∧
        answered l dest ∧ ∀ p, p ∈ FORBIDDEN_DEST_ENTRIES → refused l (dest +:+ p)
    | _ => True
    end) w.
Proof.
  intros dest src. pose proof (stats_only_start w) as Hstart. unfold installer_preflight. fold dest src. cbv zeta.
  set (s := scan_sources (listing h src)).
  destruct (exists_ s) eqn:Hex; cbn [negb]; [|apply wp_ret; by exists []].
  apply wp_bind, wp_lift. set (r0 := add "sources_exists" SOk _).
  destruct (host_checks h machine iso src s r0) as [rep|e|] eqn:Hc; [|by exists []..].
  apply wp_bind, wp_lift. destruct target as [t|e|]; [|by exists []..].
  apply wp_bind. assert (sends (λ _ _, False) (worked now_mcpd)) as Hup by (unfold now_mcpd; sends_tac).
  destruct (Hup w) as (l0 & Hl0 & Hf0). assert (l0 = []) as -> by (destruct Hf0; [done|contradiction]).
  unfold wp at 1. destruct (worked now_mcpd w) as [[up|e|] w1]; cbn [fst snd] in *; [|by exists []..].
  assert (stats_only w [] w1) as H1 by done. clear Hup Hf0.
  destruct up; cbn [negb]; [|apply wp_ret; exists []; by split].
  eapply wp_bind, wp_worked_stat; [exact H1| | | |].
  2: { intros w2 l2 Hl2 _ _. cbn [negb]. apply wp_ret. exists l2. by split. }
  2: { intros e w2 l2 Hl2. by exists l2. }
  2: { intros w2 l2 Hl2. by exists l2. }
  intros w2 l2 Hl2 _ Hans. cbn [negb]. eapply wp_bind, wp_present_of; [exact Hl2| |].
  - intros out w3 l3 Hl3 Hsub Hin Hout. apply wp_ret. exists l3. split; [done|]. cbn [set_forbidden pf_overall].
    rewrite add_fail, add_fail, okay_fail, bool_decide_eq_false. intros Hr.
    apply Decidable.not_or in Hr as [Hr Ho%dec_stable]. apply Decidable.not_or in Hr as [Hr _].
    destruct (host_checks_ready _ _ _ _ _ _ _ Hc Hr) as [Hr0 Hready].
    unfold r0 in Hr0. rewrite !add_fail, okay_fail in Hr0. split_and!.
    + destruct (is_system_volume dest); [|done]. naive_solver.
    + unfold s, scan_sources in Hex. destruct (listing h src); [by eexists|done].
    + done.
    + by eapply answered_mono.
    + intros p Hp. apply Hout; [done|]. subst out. apply not_elem_of_nil.
  - intros r w3 l3 Hl3 Hr. destruct r as [out|e|]; [by destruct (Hr out)|by exists l3..].
Qed.
End stats.

(** ** Staging *)

Record staged := Staged { sf_role : string; sf_src : string; sf_dst : string; sf_bytes : Z; sf_sent : Z }.
Record stage_result := StageResult {
  sg_volume : string; sg_machine : string; sg_iso : string; sg_staged : list staged;
  sg_bytes : Z; sg_sent : Z; sg_skipped : list string }.
Definition SAFE_CHUNK_RAW : Z := 16 * 1024 * 1024.
Definition HELPERS : list string := ["MCPd-Enable-Input"; "MCPd-Disable-Input"]%string.
Definition item := (string * string * string)%type.

Section plan.
Context (h : host).
(** The ISO named, checked against the source directory, or the one to be found. *)
Definition stage_iso (iso iso_lha : option string) (src : string) (s : scan) (m : string) : res exn string :=
  match iso with
  | None => pick_iso s m
  | Some i => if negb (is_file h (path_join src i)) && negb (is_file h (path_join src (i +:+ ".lha")))
                 && bool_decide (iso_lha = None)
              then Raise (ERpc InvalidParams None) else Ret i
  end.
(** The packed ISO to upload instead of the raw one, if any. *)
Definition packed_iso (iso_lha : option string) (src i : string) : res exn (option string) :=
  match truthy_str iso_lha with
  | Some p => if is_file h (resolved h p) then Ret (Some (resolved h p)) else Raise (ERpc InvalidParams None)
  | None => let c := path_join src (i +:+ ".lha") in Ret (if is_file h c then Some c else None)
  end.
(** The manifest's files: what goes up, and what is skipped. *)
Fixpoint manifest_items (staging src : string) (files : list required) : list item * list string :=
  match files with
  | [] => ([], [])
  | f :: files =>
      let '(items, skips) := manifest_items staging src files in
      if bool_decide (role f = "iso"%string) then (items, skips)
      else if is_file h (path_join src (filename f))
           then ((role f, path_join src (filename f), staging +:+ filename f) :: items, skips)
           else (items, (role f +:+ ": " +:+ filename f +:+ " not in sources_dir") :: skips)
  end.
(** An optional file: uploaded under its name, or noted as skipped. *)
Definition optional_item (role name staging : string) (found : option string) : list item * list string :=
  match found with Some l => ([(role, l, staging +:+ name)], []) | None => ([], [role]) end.
Definition app_plan (a b : list item * list string) : list item * list string := (a.1 ++ b.1, a.2 ++ b.2).
(** The uploads of [installer_stage], and what it skips (by role where the text
    is only advice). *)
Definition stage_plan (staging src i : string) (packed : option string) (files : list required) (mcpd : string)
    : list item * list string :=
  foldr app_plan ([], [])
    ([ ([match packed with
         | Some l => ("iso_lha"%string, l, staging +:+ i +:+ ".lha")
         | None => ("iso"%string, path_join src i, staging +:+ i)
         end], []);
       manifest_items staging src files;
       ([("mcpd_binary"%string, mcpd, staging +:+ "MCPd")], [])] ++
     map (λ n, optional_item ("mcpd_script_" +:+ n) n staging (resolve_mcpd_install_script h n src)) HELPERS ++
     [optional_item "serialshell_binary" "SerialShell" staging (find_in_sources_or_support h "SerialShell" src);
      optional_item "amidock_prefs" "AmiDock.amiga.com.xml" staging
        (find_in_sources_or_support h "AmiDock.amiga.com.xml" src)]).
End plan.

Section stage.
Context {E : Type} `{Amiga E} (h : host).
Abbreviation MI := (M (inst E) exn).
(** [chunked_upload] to this machine: bytes read and bytes sent. *)
Context (upload : string → string → Z → MI (Z * Z)).
Fixpoint upload_all (l : list item) : MI (list staged) :=
  match l with
  | [] => mret []
  | (role, local, remote) :: l =>
      n ← upload local remote SAFE_CHUNK_RAW;
      rest ← upload_all l;
      mret (Staged role local remote n.1 n.2 :: rest)
  end.
Definition sum_of (f : staged → Z) (l : list staged) : Z := foldr (λ x z, f x + z) 0 l.
(** [installer_stage] *)
Definition installer_stage (dest_volume sources_dir machine : string) (iso iso_lha : option string) (confirm : bool)
    : MI stage_result :=
  if negb confirm then raise (ERpc InvalidParams None)
  else
    match resolve_machine_alias machine with
    | None => raise (ERpc InvalidParams None)
    | Some m =>
        let src := resolved h sources_dir in
        if negb (is_dir h src) then raise (ERpc InvalidParams None)
        else
          i ← lift (stage_iso h iso iso_lha src (scan_sources (listing h src)) m);
          match resolve_mcpd_binary h src with
          | None => raise (ERpc InvalidParams (Some (JObj [("missing", JArr [JStr "MCPd"])])))
          | Some mcpd =>
              let dest := normalize_volume dest_volume in
              let staging := dest +:+ "tmp/" in
              packed ← lift (packed_iso h iso_lha src i);
              files ← lift (required_files m);
              let p := stage_plan h staging src i packed files mcpd in
              now_mcpd;;
              amiga_makedir staging;;
              done ← upload_all p.1;
              mret (StageResult dest m i done (sum_of sf_bytes done) (sum_of sf_sent done) p.2)
          end
    end.
End stage.

(** Every file of the manifest is uploaded under its own name when the source
    directory has it, and noted as skipped otherwise. *)
Lemma manifest_items_complete h staging src files f :
  f ∈ files → role f ≠ "iso"%string →
  if is_file h (path_join src (filename f))
  then (role f, path_join src (filename f), staging +:+ filename f) ∈ (manifest_items h staging src files).1
  else role f +:+ ": " +:+ filename f +:+ " not in sources_dir" ∈ (manifest_items h staging src files).2.
Proof.
  intros Hf Hr. induction files as [|g files IH]; [set_solver|]. cbn [manifest_items].
  destruct (manifest_items h staging src files) as [items skips]. cbn [fst snd] in *.
  apply elem_of_cons in Hf as [->|Hf].
  - rewrite bool_decide_false by done. destruct (is_file h (path_join src (filename g))); set_solver.
  - specialize (IH Hf). destruct (is_file h (path_join src (filename f)));
      destruct (bool_decide _); [done| |done|]; destruct (is_file h (path_join src (filename g))); simpl; set_solver.
Qed.

(** ** Verification *)

Definition VERIFY_MANIFEST : list (string * list string) :=
  [("X5000", ["S/Startup-Sequence"; "S/User-Startup"; "Devs/Monitors"; "C/"; "L/"; "Libs/"; "Kickstart/";
              "Kickstart/Kicklayout"; "Kickstart/RadeonRX.chip"; "Kickstart/RadeonHD.chip";
              "Kickstart/SmartFilesystem"; "Kickstart/diskcache.library.kmod";
              "Devs/Networks/p50x0_eth.device"; "Kickstart/NGFileSystem"; "C/NGFCheck"]);
   ("PegasosII", ["S/Startup-Sequence"; "Kickstart/Kicklayout"; "Kickstart/RadeonRX.chip";
                  "Kickstart/SmartFilesystem"; "amigaboot.of"]);
   ("AmigaOne", ["S/Startup-Sequence"; "Kickstart/Kicklayout"; "Kickstart/RadeonRX.chip";
                 "Kickstart/SmartFilesystem"; "amigaboot.of"]);
   ("Sam460", ["S/Startup-Sequence"; "Kickstart/Kicklayout"; "Kickstart/RadeonRX.chip";
               "Kickstart/SmartFilesystem"; "amigaboot.of"]);
   ("A1222", ["S/Startup-Sequence"; "S/User-Startup"; "Devs/Monitors"; "C/"; "L/"; "Libs/"; "Kickstart/";
              "Kickstart/Kicklayout"; "Kickstart/RadeonRX.chip"; "Kickstart/RadeonHD.chip";
              "Kickstart/SmartFilesystem"; "Kickstart/diskcache.library.kmod"; "Devs/Networks/A1222eth.device"])]%string.
(** An entry and the hash expected of it: none in the manifest as it stands. *)
Definition spec_of (p : string) : string * option string := (p, None).
Record verify_entry := VerifyEntry {
  ve_path : string; ve_present : bool; ve_sha256 : option json; ve_expected : option string;
  ve_sha_ok : option bool; ve_error : option string }.
Record tally := Tally { n_present : Z; n_missing : Z; n_mismatch : Z; t_entries : list verify_entry }.
Record verify_result := VerifyResult {
  vr_volume : string; vr_machine : string; vr_ok : bool; vr_total : Z; vr_tally : tally }.
Section verify.
Context {E : Type} `{Amiga E}.
Abbreviation MI := (M (inst E) exn).
(** The hash check of one entry: the answer's hash and whether it is the one
    expected, or what went wrong. *)
Definition check_hash (full want : string) : MI (json * bool + exn) :=
  try_else (raw ← request "fs.hash" (JObj [("path", JStr full); ("algo", JStr "sha256")]) DEFAULT_TIMEOUT;
            lift (get_or "hash" JNull raw))
    (λ j, mret (inl (j, is_str want j))) (λ e, mret (inr e)).
(** The body of the loop of [installer_verify]. *)
Definition verify_one (dest : string) (check_sha256 : bool) (spec : string * option string) (t : tally) : MI tally :=
  let '(rel, expected) := spec in
  let full := dest +:+ rel in
  let entry e t p m x := Tally (n_present t + p) (n_missing t + m) (n_mismatch t + x) (t_entries t ++ [e]) in
  try_else (stat full)
    (λ _, match truthy_str expected with
          | Some want =>
              if check_sha256 then
                r ← check_hash full want;
                mret (match r with
                      | inl (j, ok) => entry (VerifyEntry rel true (Some j) expected (Some ok) None) t 1 0 (if ok : bool then 0 else 1)
                      | inr e => entry (VerifyEntry rel true None expected None
                                          (Some ("hash failed: " +:+ exn_text e))) t 0 0 0
                      end)
              else mret (entry (VerifyEntry rel true None expected None None) t 1 0 0)
          | None => mret (entry (VerifyEntry rel true None expected None None) t 1 0 0)
          end)
    (λ e, mret (entry (VerifyEntry rel false None expected None (Some (str (take 200 (txt (exn_text e)))))) t 0 1 0)).
Fixpoint verify_all (dest : string) (check_sha256 : bool) (specs : list (string * option string)) (t : tally) : MI tally :=
  match specs with
  | [] => mret t
  | s :: specs => t ← verify_one dest check_sha256 s t; verify_all dest check_sha256 specs t
  end.
(** [installer_verify] *)
Definition installer_verify (dest_volume machine : string) (extra_paths : list string) (check_sha256 : bool)
    : MI verify_result :=
  match resolve_machine_alias machine ≫= λ m, (λ l, (m, l)) <$> assoc m VERIFY_MANIFEST with
  | None => raise (ERpc InvalidParams None)
  | Some (m, l) =>
      let dest := normalize_volume dest_volume in
      let specs := map spec_of (l ++ extra_paths) in
      now_mcpd;;
      t ← verify_all dest check_sha256 specs (Tally 0 0 0 []);
      mret (VerifyResult dest m ((n_missing t =? 0) && (n_mismatch t =? 0)) (Z.of_nat (length specs)) t)
  end.
End verify.

(** ** What a verification says *)

Section verified.
Context {E : Type} `{Amiga E}.
Implicit Types w : inst E.
Lemma wp_verify_one dest check p t w0 l w (Q : res exn tally → inst E → Prop) :
  stats_only w0 l w →
  (∀ t' w' k, stats_only w0 k w' → l ⊆ k → n_mismatch t' = n_mismatch t →
     (n_missing t' = n_missing t ∧ answered k (dest +:+ p) ∨
      n_missing t' = n_missing t + 1 ∧ refused k (dest +:+ p)) → Q (Ret t') w') →
  (∀ r w' k, stats_only w0 k w' → (∀ t', r ≠ Ret t') → Q r w') →
  wp (verify_one dest check (spec_of p) t) Q w.
Proof.
  intros Hl Hret Hno. unfold verify_one, spec_of, try_else. cbn [truthy_str]. apply wp_catch, wp_bind.
  unfold wp at 1, stat, request. destruct (daemon _ _ _ _) as [r e']. cbn [fst snd].
  set (x := ("fs.stat"%string, path_arg (dest +:+ p), r)). set (w' := Inst _ _ _ _).
  assert (stats_only w0 (l ++ [x]) w') as Hw.
  { destruct Hl as [Hl Hf]. split; [simpl; by rewrite Hl, app_assoc|]. apply Forall_app. split; [done|].
    apply Forall_singleton. by eexists. }
  destruct r as [j|e|].
  - apply wp_ret. eapply Hret; [exact Hw|set_solver|simpl; lia|left; simpl; split; [lia|exists j; set_solver]].
  - destruct (is_exception e); [|apply wp_raise; by eapply Hno; [exact Hw|]].
    apply wp_ret. eapply Hret; [exact Hw|set_solver|simpl; lia|right; simpl; split; [lia|exists e; set_solver]].
  - by eapply Hno; [exact Hw|].
Qed.
Lemma wp_verify_all dest check ps t w0 l w (Q : res exn tally → inst E → Prop) :
  stats_only w0 l w →
  (∀ t' w' k, stats_only w0 k w' → l ⊆ k → n_mismatch t' = n_mismatch t → n_missing t ≤ n_missing t' →
     (n_missing t' = n_missing t → ∀ p, p ∈ ps → answered k (dest +:+ p)) →
     (n_missing t' ≠ n_missing t → ∃ p, p ∈ ps ∧ refused k (dest +:+ p)) → Q (Ret t') w') →
  (∀ r w' k, stats_only w0 k w' → (∀ t', r ≠ Ret t') → Q r w') →
  wp (verify_all dest check (map spec_of ps) t) Q w.
Proof.
  revert t l w Q. induction ps as [|p ps IH]; intros t l w Q Hl Hret Hno; cbn [map verify_all].
  { apply wp_ret. eapply Hret; [done|done|done|lia|intros _ p Hp; by apply not_elem_of_nil in Hp|done]. }
  eapply wp_bind, wp_verify_one; [exact Hl| |].
  - intros t1 w1 l1 Hl1 Hsub1 Hx1 H1. eapply IH; [exact Hl1| |exact Hno].
    intros t2 w2 l2 Hl2 Hsub2 Hx2 Hle Hall Hsome. eapply Hret; [exact Hl2|set_solver|congruence|lia| |].
    + intros Heq q [->|Hq]%elem_of_cons; [|apply Hall; [lia|done]].
      destruct H1 as [[? Ha]|[? _]]; [by eapply answered_mono|lia].
    + intros Hne. destruct H1 as [[? _]|[_ Hr]].
      * destruct Hsome as (q & Hq & Hr); [lia|]. exists q. split; [set_solver|done].
      * exists p. split; [set_solver|by eapply refused_mono].
  - intros r w1 l1 Hl1 Hr. destruct r as [t'|e|]; [by destruct (Hr t')|by eapply Hno; [exact Hl1|intros ? [=]]..].
Qed.

(** Verifying an installation only asks whether files are there, and says it
    is complete exactly when the machine answered for every file of the machine's
    manifest and every extra path: complete, all were answered for; incomplete,
    one of them was refused. *)
Theorem installer_verify_complete dest_volume machine extra check w :
  wp (installer_verify dest_volume machine extra check) (λ r w',
    ∃ l, stats_only w l w' ∧
    match r with
    | Ret v =>
        ∃ files, assoc (vr_machine v) VERIFY_MANIFEST = Some files ∧
        let paths := map (λ p, normalize_volume dest_volume +:+ p) (files ++ extra) in
        if vr_ok v then ∀ p, p ∈ paths → answered l p else ∃ p, p ∈ paths ∧ refused l p
    | _ => True
    end) w.
Proof.
  pose proof (stats_only_start w) as Hstart. unfold installer_verify.
  destruct (resolve_machine_alias machine) as [m|]; cbn [mbind option_bind]; [|by exists []].
  destruct (assoc m VERIFY_MANIFEST) as [files|] eqn:Hm; cbn [fmap option_fmap option_map]; [|by exists []].
  assert (sends (λ _ _, False) now_mcpd) as Hup by (unfold now_mcpd; sends_tac).
  destruct (Hup w) as (l0 & Hl0 & Hf0). assert (l0 = []) as -> by (destruct Hf0; [done|contradiction]).
  apply wp_bind. unfold wp at 1. destruct (now_mcpd w) as [[up|e|] w1]; cbn [fst snd] in *; [|by exists []..].
  eapply wp_bind, wp_verify_all; [split; [exact Hl0|done]| |].
  - intros t w2 l2 Hl2 _ Hx Hle Hall Hsome. apply wp_ret. exists l2. split; [done|]. exists files. split; [done|].
    cbn [vr_ok vr_machine n_mismatch n_missing] in *. rewrite Hx. cbn [Z.eqb]. rewrite andb_true_r.
    destruct (Z.eqb_spec (n_missing t) 0) as [H0|H0].
    + intros p (q & -> & Hq)%list_elem_of_fmap. by apply Hall.
    + destruct (Hsome H0) as (q & Hq & Hr). exists (normalize_volume dest_volume +:+ q). split; [|done].
      apply list_elem_of_fmap. by exists q.
  - intros r w2 l2 Hl2 Hr. destruct r as [t|e|]; [by destruct (Hr t)|by exists l2..].
Qed.
End verified.
