(* ===== verification/Input.v ===== *)
(** * Keyboard and mouse injection: [tools/input.py]

    The tools that type and click on a machine's desktop, with the guards in
    front of the one request each may send.  Text is a list of code points. *)
From S2P Require Import Prelude Py Bytes Config Fleet Kicklayout Amiga DemoTarget Machines Steps PostInstall Install Containment.

(** The fields of a result model and what each admits: absent fields have
    defaults, others of the wrong kind fail validation. *)
Inductive field_kind := KInt | KBool | KStr | KOptInt | KOptStr | KStrs.
Definition admits (k : field_kind) (j : json) : bool :=
  match k, j with
  | KInt, JNum _ | KBool, JBool _ | KStr, JStr _ | KOptInt, (JNum _ | JNull) | KOptStr, (JStr _ | JNull) => true
  | KStrs, JArr l => forallb (λ x, if x is JStr _ then true else false) l
  | _, _ => false
  end.
Definition schema := list (string * field_kind).
Definition input_result : schema :=
  [("target", KStr); ("op", KStr); ("events", KInt); ("duration_ms", KInt); ("truncated", KBool)]%string.
Definition type_result : schema :=
  input_result ++ [("text_len", KInt); ("chars_mapped", KInt); ("unmapped", KStrs); ("keymap", KStr);
                   ("text_sha256", KStr)]%string.
Definition key_result : schema := input_result ++ [("keys", KStrs)]%string.
Definition mouse_result : schema :=
  input_result ++ [("mode", KStr); ("button", KOptStr); ("count", KOptInt); ("direction", KOptStr);
                   ("clicks", KOptInt); ("x", KOptInt); ("y", KOptInt)]%string.
Definition input_state_ : schema :=
  [("target", KStr); ("enabled", KBool); ("pointer_x", KOptInt); ("pointer_y", KOptInt);
   ("frontmost_screen", KOptStr); ("active_screen", KOptStr); ("active_window", KOptStr);
   ("active_window_left", KOptInt); ("active_window_top", KOptInt); ("active_window_width", KOptInt);
   ("active_window_height", KOptInt); ("screen_width", KOptInt); ("screen_height", KOptInt)]%string.
(** [model_validate] of a dict. *)
Definition model_validate (s : schema) (d : list (string * json)) : res exn json :=
  if forallb (λ f, match assoc f.1 d with Some j => admits f.2 j | None => true end) s
  then Ret (JObj d) else Raise (EPy ValidationError).
(** [{**d, **raw, **more}] *)
Definition merge (d : list (string * json)) (raw : json) (more : list (string * json)) : res exn (list (string * json)) :=
  match raw with
  | JObj l => Ret (fold_left (λ d kv, dict_set kv.1 kv.2 d) (l ++ more) d)
  | _ => Raise (EPy TypeError)
  end.

Section input.
Context {E : Type} `{Amiga E} (fl : Fleet) (text_sha256 : text → string).
Abbreviation MI := (M (inst E) exn).
Abbreviation points := (list Z).

Definition invalid {A} (data : option json) : MI A := raise (ERpc InvalidParams data).
(** [if not b: raise InvalidParams] *)
Definition require (b : bool) (data : option json) : MI unit := if b then mret tt else invalid data.
(** [_resolve_input] *)
Definition resolve_input (target : string) : MI InputConfig :=
  cfg ← lift (target_config fl target);
  match input cfg with
  | Some ic => if in_enabled ic then mret ic
               else raise (ERpc NotCapable (Some (JObj [("target", JStr target)])))
  | None => raise (ERpc NotCapable (Some (JObj [("target", JStr target)])))
  end.
(** [_require_confirm] *)
Definition confirmed (confirm : bool) : MI unit :=
  require confirm (Some (JObj [("hint", JStr "pass confirm=True to acknowledge")])).
(** [_check_events_budget] *)
Definition check_events_budget (requested : Z) (ic : InputConfig) : MI unit :=
  require (negb (max_events ic <? requested))
    (Some (JObj [("requested", JNum requested); ("max_events", JNum (max_events ic))])).
(** [_check_delay] *)
Definition between (a x b : Z) : bool := (a <=? x) && (x <=? b).
Definition check_delay (delay : option Z) : MI unit :=
  match delay with
  | Some d => require (between 0 d 1000) (Some (JObj [("delay_ms", JNum d)]))
  | None => mret tt
  end.
Definition delay_of (delay : option Z) (ic : InputConfig) : json := JNum (default (default_delay_ms ic) delay).
(** [_encode_text]; a refused character is reported by its code point. *)
Definition latin (p : points) : text := map chr p.
Definition encode_text (t : points) (ic : InputConfig) : MI text :=
  require (negb (bool_decide (t = []))) None;;
  require (negb (max_text_len ic <? Z.of_nat (length t)))
    (Some (JObj [("len", JNum (Z.of_nat (length t))); ("max", JNum (max_text_len ic))]));;
  match List.find (λ c, 255 <? c) t with
  | Some c => invalid (Some (JObj [("codepoint", JNum c)]))
  | None => mret (latin t)
  end.
(** [normalise_keys] *)
Definition chord_keys (chord : string) : list string :=
  map str (filter (λ p, p ≠ []) (map strip (split_on "+"%char (txt chord)))).
Definition normalise_keys (keys : option (list string)) (chord : option string) : res exn (list string) :=
  let given := default [] keys in
  let bad := Raise (ERpc InvalidParams None) in
  match given, truthy chord with
  | _ :: _, Some _ => bad
  | _, c =>
      let ks := match c with Some c => chord_keys c | None => given end in
      if bool_decide (ks = []) then bad else if (8 <? length ks)%nat then bad else Ret ks
  end.
Definition one_of (s : string) (l : list string) : bool := bool_decide (s ∈ l).
Definition same_given (x y : option Z) : bool := Bool.eqb (bool_decide (x = None)) (bool_decide (y = None)).
Definition opt_num (k : string) (x : option Z) : list (string * json) :=
  match x with Some z => [(k, JNum z)] | None => [] end.
(** [raw = await fleet.mcpd(target).request(m, params)], then the result model. *)
Definition ask_input (m : string) (params d more : list (string * json)) (s : schema) : MI json :=
  now_mcpd;;
  raw ← request m (JObj params) DEFAULT_TIMEOUT;
  l ← lift (merge d raw more);
  lift (model_validate s l).
Definition named (target op : string) : list (string * json) := [("target", JStr target); ("op", JStr op)].

(** [input_state] *)
Definition input_state (target : string) : MI json :=
  resolve_input target;; ask_input "input.state" [] [] [("target", JStr target)] input_state_.
(** [input_mouse_move] *)
Definition input_mouse_move (target : string) (x y dx dy : option Z) (mode : string) (steps : Z) (delay : option Z)
    : MI json :=
  ic ← resolve_input target;
  check_delay delay;;
  require (same_given x y) None;;
  require (negb (Bool.eqb (bool_decide (x = None)) (bool_decide (dx = None) && bool_decide (dy = None)))) None;;
  require (one_of mode ["delta"; "raw"]%string) None;;
  require (between 1 steps 64) None;;
  ask_input "input.mouse_move"
    ([("steps", JNum steps); ("delay_ms", delay_of delay ic)] ++
     match x with
     | Some _ => opt_num "x" x ++ opt_num "y" y ++ [("absolute_mode", JStr mode)]
     | None => opt_num "dx" dx ++ opt_num "dy" dy
     end) [] (named target "mouse_move") mouse_result.
(** [input_scroll] *)
Definition input_scroll (target : string) (clicks : Z) (direction : string) (delay : option Z) (style : string)
    : MI json :=
  ic ← resolve_input target;
  check_delay delay;;
  require (between 1 clicks 32) None;;
  require (one_of direction ["up"; "down"; "left"; "right"]%string) None;;
  require (one_of style ["native"; "newmouse"]%string) None;;
  ask_input "input.scroll"
    [("clicks", JNum clicks); ("direction", JStr direction); ("style", JStr style); ("delay_ms", delay_of delay ic)]
    [] (named target "scroll") mouse_result.
(** [input_type] *)
Definition input_type (target : string) (t : points) (keymap : string) (delay : option Z) (confirm : bool) : MI json :=
  confirmed confirm;;
  ic ← resolve_input target;
  check_delay delay;;
  s ← encode_text t ic;
  check_events_budget (Z.of_nat (length s) * 2) ic;;
  require (one_of keymap ["system"; "us"]%string) None;;
  ask_input "input.type"
    [("text", JStr (str s)); ("keymap", JStr keymap); ("delay_ms", delay_of delay ic); ("confirm", JBool true)]
    [("text_len", JNum (Z.of_nat (length s)))]
    (named target "type" ++ [("text_sha256", JStr (text_sha256 s))]) type_result.
(** [input_key] *)
Definition input_key (target : string) (keys : option (list string)) (chord : option string) (delay : option Z)
    (confirm confirm_reset : bool) : MI json :=
  confirmed confirm;;
  ic ← resolve_input target;
  check_delay delay;;
  ks ← lift (normalise_keys keys chord);
  let names := JArr (map JStr ks) in
  ask_input "input.key"
    ([("keys", names); ("delay_ms", delay_of delay ic); ("confirm", JBool true)] ++
     (if confirm_reset then [("confirm_reset", JBool true)] else []))
    [] (named target "key" ++ [("keys", names)]) key_result.
(** [input_click] *)
Definition input_click (target button : string) (count : Z) (x y : option Z) (delay : option Z) (confirm : bool)
    : MI json :=
  confirmed confirm;;
  ic ← resolve_input target;
  check_delay delay;;
  require (one_of button ["left"; "right"; "middle"]%string) None;;
  require (between 1 count 8) None;;
  require (same_given x y) None;;
  ask_input "input.click"
    ([("button", JStr button); ("count", JNum count); ("delay_ms", delay_of delay ic); ("confirm", JBool true)] ++
     opt_num "x" x ++ opt_num "y" y) [] (named target "click") mouse_result.
(** [input_drag] *)
Definition input_drag (target : string) (from_x from_y to_x to_y : Z) (button : string) (steps : Z)
    (delay : option Z) (confirm : bool) : MI json :=
  confirmed confirm;;
  ic ← resolve_input target;
  check_delay delay;;
  (if allow_drag ic then mret tt else raise (ERpc NotCapable (Some (JObj [("target", JStr target)]))));;
  require (one_of button ["left"; "right"; "middle"]%string) None;;
  require (between 1 steps 64) None;;
  check_events_budget (steps + 3) ic;;
  ask_input "input.drag"
    [("from_x", JNum from_x); ("from_y", JNum from_y); ("to_x", JNum to_x); ("to_y", JNum to_y);
     ("button", JStr button); ("steps", JNum steps); ("delay_ms", delay_of delay ic); ("confirm", JBool true)]
    [] (named target "drag") mouse_result.
End input.

(* ------------------------------------------------------------------ *)
(** ** What it takes for a machine's desktop to be touched *)

(** A call of one of the tools, without its target. *)
Inductive input_call :=
| MouseMove (x y dx dy : option Z) (mode : string) (steps : Z) (delay : option Z)
| Scroll (clicks : Z) (direction : string) (delay : option Z) (style : string)
| Type_ (t : list Z) (keymap : string) (delay : option Z) (confirm : bool)
| Key (keys : option (list string)) (chord : option string) (delay : option Z) (confirm reset : bool)
| Click (button : string) (count : Z) (x y : option Z) (delay : option Z) (confirm : bool)
| Drag (from_x from_y to_x to_y : Z) (button : string) (steps : Z) (delay : option Z) (confirm : bool).
Definition is_given (x : option Z) : bool := if x is Some _ then true else false.
Definition delay_fine (d : option Z) : bool := match d with Some d => between 0 d 1000 | None => true end.
(** What the caller must have acknowledged and what the arguments must be. *)
Definition all (l : list bool) : bool := foldr andb true l.
Definition permitted (ic : InputConfig) (c : input_call) : bool :=
  match c with
  | MouseMove x y dx dy mode steps d =>
      all [delay_fine d;
           (is_given x && is_given y && negb (is_given dx) && negb (is_given dy)) ||
           (negb (is_given x) && negb (is_given y) && (is_given dx || is_given dy));
           one_of mode ["delta"; "raw"]%string; between 1 steps 64]
  | Scroll clicks dir d style =>
      all [delay_fine d; between 1 clicks 32; one_of dir ["up"; "down"; "left"; "right"]%string;
           one_of style ["native"; "newmouse"]%string]
  | Type_ t keymap d confirm =>
      all [confirm; delay_fine d;
           between 1 (Z.of_nat (length t)) (max_text_len ic) && forallb (λ p, p <=? 255) t;
           Z.of_nat (length t) * 2 <=? max_events ic; one_of keymap ["system"; "us"]%string]
  | Key keys chord d confirm _ =>
      all [confirm; delay_fine d; match normalise_keys keys chord with Ret _ => true | _ => false end]
  | Click button count x y d confirm =>
      all [confirm; delay_fine d; one_of button ["left"; "right"; "middle"]%string; between 1 count 8;
           Bool.eqb (is_given x) (is_given y)]
  | Drag _ _ _ _ button steps d confirm =>
      all [confirm; delay_fine d; allow_drag ic; one_of button ["left"; "right"; "middle"]%string;
           between 1 steps 64; steps + 3 <=? max_events ic]
  end.
(** The request a call stands for. *)
Definition wire (ic : InputConfig) (c : input_call) : string * list (string * json) :=
  let d delay := ("delay_ms"%string, delay_of delay ic) in
  let yes := ("confirm"%string, JBool true) in
  match c with
  | MouseMove x y dx dy mode steps delay =>
      ("input.mouse_move"%string,
       [("steps"%string, JNum steps); d delay] ++
       (if is_given x then opt_num "x" x ++ opt_num "y" y ++ [("absolute_mode"%string, JStr mode)]
       else opt_num "dx" dx ++ opt_num "dy" dy))
  | Scroll clicks dir delay style =>
      ("input.scroll"%string, [("clicks"%string, JNum clicks); ("direction"%string, JStr dir);
                               ("style"%string, JStr style); d delay])
  | Type_ t keymap delay _ =>
      ("input.type"%string, [("text"%string, JStr (str (latin t))); ("keymap"%string, JStr keymap); d delay; yes])
  | Key keys chord delay _ reset =>
      let ks := match normalise_keys keys chord with Ret ks => ks | _ => [] end in
      ("input.key"%string, [("keys"%string, JArr (map JStr ks)); d delay; yes] ++
                           (if reset then [("confirm_reset"%string, JBool true)] else []))
  | Click button count x y delay _ =>
      ("input.click"%string, [("button"%string, JStr button); ("count"%string, JNum count); d delay; yes] ++
                             opt_num "x" x ++ opt_num "y" y)
  | Drag fx fy tx ty button steps delay _ =>
      ("input.drag"%string, [("from_x"%string, JNum fx); ("from_y"%string, JNum fy); ("to_x"%string, JNum tx);
                             ("to_y"%string, JNum ty); ("button"%string, JStr button); ("steps"%string, JNum steps);
                             d delay; yes])
  end.

Section gate.
Context {E : Type} `{Amiga E} (fl : Fleet) (text_sha256 : text → string).
Implicit Types w : inst E.
Definition perform (target : string) (c : input_call) : M (inst E) exn json :=
  match c with
  | MouseMove x y dx dy mode steps d => input_mouse_move fl target x y dx dy mode steps d
  | Scroll clicks dir d style => input_scroll fl target clicks dir d style
  | Type_ t keymap d confirm => input_type fl text_sha256 target t keymap d confirm
  | Key keys chord d confirm reset => input_key fl target keys chord d confirm reset
  | Click button count x y d confirm => input_click fl target button count x y d confirm
  | Drag fx fy tx ty button steps d confirm => input_drag fl target fx fy tx ty button steps d confirm
  end.
(** The input policy of a target that has one and enables it. *)
Definition policy_of (target : string) : option InputConfig :=
  match target_config fl target with
  | Ret cfg => match input cfg with Some ic => if in_enabled ic then Some ic else None | None => None end
  | _ => None
  end.

(** A call refused before anything is sent, and one that asks its one question,
    if the machine's daemon can be reached at all. *)
Definition refuses (m : M (inst E) exn json) w : Prop := ∃ x, m w = (Raise x, w).
Definition asks (m : M (inst E) exn json) (q : string * list (string * json)) w : Prop :=
  match mcpd_up (machine_env w) with
  | (Ret _, _) => ∃ ans, asked (m w).2 = asked w ++ [(q.1, JObj q.2, ans)]
  | _ => asked (m w).2 = asked w
  end.
Lemma ask_input_asks m params d more s (k : M (inst E) exn json) w :
  k w = ask_input m params d more s w → asks k (m, params) w.
Proof.
  unfold asks. intros ->. unfold ask_input, now_mcpd, on_env, mbind, M_bind.
  destruct (mcpd_up (machine_env w)) as [[[]|x|] e]; simpl; [|done|done].
  unfold request. simpl. destruct (daemon m _ _ e) as [[raw|x|] e']; simpl; [|by eexists..].
  unfold lift. destruct (merge d raw more) as [l|x|]; by eexists.
Qed.
Definition gated_by (b : bool) (m : M (inst E) exn json) (q : string * list (string * json)) w : Prop :=
  if b then asks m q w else refuses m w.

(** One guard at a time. *)
Lemma bind_check {A} (b : bool) data (k : unit → M (inst E) exn A) w :
  (require b data ≫= k) w = if b then k tt w else (Raise (ERpc InvalidParams data), w).
Proof. by destruct b. Qed.
Lemma gated_eq b m m' q w : m w = m' w → gated_by b m' q w → gated_by b m q w.
Proof. unfold gated_by, asks, refuses. by intros ->. Qed.
Lemma gate_ask m params d more s w : gated_by true (ask_input m params d more s) (m, params) w.
Proof. simpl. by eapply ask_input_asks. Qed.
Lemma gate_require b b' data k q w : gated_by b' (k tt) q w → gated_by (b && b') (require b data ≫= k) q w.
Proof.
  intros Hk. destruct b; cbn [andb]; [by apply (gated_eq _ _ (k tt))|by eexists].
Qed.
Lemma gate_delay b d k q w : gated_by b (k tt) q w → gated_by (delay_fine d && b) (check_delay d ≫= k) q w.
Proof. destruct d as [d|]; [|done]. apply gate_require. Qed.
Lemma gate_drag b (allow : bool) x k q w :
  gated_by b (k tt) q w → gated_by (allow && b) ((if allow then mret tt else raise x) ≫= k) q w.
Proof. intros Hk. destruct allow; [done|]. by eexists. Qed.
Lemma gate_budget b n ic k q w :
  gated_by b (k tt) q w → gated_by ((n <=? max_events ic) && b) (check_events_budget n ic ≫= k) q w.
Proof. rewrite Z.leb_antisym. apply gate_require. Qed.
Lemma gate_keys b keys chord k q w :
  (∀ ks, normalise_keys keys chord = Ret ks → gated_by b (k ks) q w) →
  gated_by (match normalise_keys keys chord with Ret _ => true | _ => false end && b)
    (lift (normalise_keys keys chord) ≫= k) q w.
Proof.
  intros Hk. unfold mbind, M_bind, lift. destruct (normalise_keys keys chord) as [ks|x|] eqn:Hn; [by apply Hk|by eexists|].
  exfalso. revert Hn. unfold normalise_keys. repeat case_match; done.
Qed.
Lemma gate_policy target m q w k :
  (∀ ic, policy_of target = Some ic → gated_by (m ic) (k ic) (q ic) w) →
  match policy_of target with
  | Some ic => gated_by (m ic) (resolve_input fl target ≫= k) (q ic) w
  | None => refuses (resolve_input fl target ≫= k) w
  end.
Proof.
  intros Hk. unfold policy_of in *. unfold refuses, gated_by, asks, resolve_input, mbind, M_bind, lift, target_config in *.
  destruct (assoc target _) as [cfg|]; [|by eexists]. destruct (input cfg) as [ic|]; [|by eexists].
  destruct (in_enabled ic); [by apply Hk|by eexists].
Qed.
(** ... with the acknowledgement asked for first. *)
Lemma gate_confirmed target (confirm : bool) m q w k :
  (∀ ic, policy_of target = Some ic → gated_by (m ic) (k ic) (q ic) w) →
  match policy_of target with
  | Some ic => gated_by (confirm && m ic) (confirmed confirm;; resolve_input fl target ≫= k) (q ic) w
  | None => refuses (confirmed confirm;; resolve_input fl target ≫= k) w
  end.
Proof.
  intros Hk. destruct confirm; [exact (gate_policy target m q w k Hk)|].
  destruct (policy_of target); by eexists.
Qed.
Lemma encode_text_runs t ic w :
  if between 1 (Z.of_nat (length t)) (max_text_len ic) && forallb (λ p, p <=? 255) t
  then encode_text t ic w = (Ret (latin t), w)
  else ∃ x, encode_text t ic w = (Raise x, w).
Proof.
  unfold encode_text, between. rewrite bind_check. destruct t as [|c t]; [by eexists|].
  set (l := c :: t). rewrite bool_decide_false by done. cbn [negb]. rewrite bind_check, <-Z.leb_antisym.
  assert ((1 <=? Z.of_nat (length l)) = true) as -> by (apply Z.leb_le; simpl; lia). cbn [andb].
  destruct (Z.of_nat (length l) <=? max_text_len ic); [|by eexists]. cbn [andb].
  destruct (List.find _ l) as [p|] eqn:Hf.
  - apply List.find_some in Hf as [Hin Hp]. destruct (forallb _ l) eqn:Hall; [|by eexists].
    rewrite forallb_forall in Hall. specialize (Hall p Hin). lia.
  - assert (forallb (λ p, p <=? 255) l = true) as ->; [|done].
    apply forallb_forall. intros p Hp. pose proof (List.find_none _ _ Hf p Hp). simpl in *. lia.
Qed.
Lemma gate_encode b t ic k q w :
  gated_by b (k (latin t)) q w →
  gated_by ((between 1 (Z.of_nat (length t)) (max_text_len ic) && forallb (λ p, p <=? 255) t) && b)
    (encode_text t ic ≫= k) q w.
Proof.
  intros Hk. pose proof (encode_text_runs t ic w) as He. destruct (_ && forallb _ t); cbn [andb].
  - eapply gated_eq; [|exact Hk]. unfold mbind, M_bind. by rewrite He.
  - destruct He as [x He]. exists x. unfold mbind, M_bind. by rewrite He.
Qed.
Lemma length_latin t : length (latin t) = length t.
Proof. apply length_map. Qed.
Lemma mouse_forms (x y dx dy : option Z) :
  (same_given x y && negb (Bool.eqb (bool_decide (x = None)) (bool_decide (dx = None) && bool_decide (dy = None)))) =
  ((is_given x && is_given y && negb (is_given dx) && negb (is_given dy)) ||
   (negb (is_given x) && negb (is_given y) && (is_given dx || is_given dy))).
Proof. by destruct x, y, dx, dy. Qed.
Lemma same_given_eq x y : same_given x y = Bool.eqb (is_given x) (is_given y).
Proof. by destruct x, y. Qed.

(** C9: A tool that types, clicks, drags, scrolls or moves the pointer touches a
    machine only if the machine's configuration enables input and the call is
    permitted: acknowledged where it must be, every number in its range, every
    name one of the known ones, the text Latin-1 and within the limits, the
    events within the budget, dragging not switched off.  Then the daemon is
    asked exactly once, for exactly what the call stands for; otherwise the call
    raises and nothing is sent. *)
Theorem input_gated target c w :
  match policy_of target with
  | Some ic => if permitted ic c then asks (perform target c) (wire ic c) w else refuses (perform target c) w
  | None => refuses (perform target c) w
  end.
Proof.
  destruct c; cbn [perform permitted wire all foldr].
  - rewrite <-mouse_forms. rewrite <-(andb_assoc (same_given x y)). apply (gate_policy target (λ ic, _) (λ ic, _)). intros ic _.
    apply gate_delay, gate_require, gate_require, gate_require, gate_require. destruct x; apply gate_ask.
  - apply (gate_policy target (λ ic, _) (λ ic, _)). intros ic _.
    apply gate_delay, gate_require, gate_require, gate_require, gate_ask.
  - apply (gate_confirmed target confirm (λ ic, _) (λ ic, _)). intros ic _. apply gate_delay, gate_encode.
    rewrite length_latin. apply gate_budget, gate_require, gate_ask.
  - apply (gate_confirmed target confirm (λ ic, _) (λ ic, _)). intros ic _. apply gate_delay, gate_keys.
    intros ks ->. apply gate_ask.
  - rewrite <-same_given_eq. apply (gate_confirmed target confirm (λ ic, _) (λ ic, _)). intros ic _.
    apply gate_delay, gate_require, gate_require, gate_require, gate_ask.
  - apply (gate_confirmed target confirm (λ ic, _) (λ ic, _)). intros ic _.
    apply gate_delay, gate_drag, gate_require, gate_require, gate_budget, gate_ask.
Qed.
End gate.

(** The two spellings of a chord are the same keys. *)
Example ex_chord : normalise_keys None (Some "lamiga + q+"%string) = normalise_keys (Some ["lamiga"; "q"]%string) None.
Proof. vm_compute. reflexivity. Qed.
